(* ===== verification/_CoqProject ===== *)
-Q . S2P
Prelude.v
GoTime.v
GoString.v
Model.v
Policy.v
GoFloat.v
Schedule.v
Forecast.v
Catalog.v
Anomalies.v
Automation.v
Retention.v
RetentionMachine.v
Deposit.v
Checks.v
Mail.v
Store.v
Archive.v
Holds.v
Guarantees.v
Admission.v
Io.v
Writer.v
Custody.v
Reception.v
Accepting.v
Slots.v
Recovery.v
Executor.v
Execution.v
Watch.v
Api.v
Serving.v
Files.v
Cryptfile.v
Encryption.v
Private.v
Snapshot.v
Report.v
Monitor.v
Cycle.v
Cycling.v
System.v
Lifecycle.v
Restoration.v
Front.v
Client.v
Sending.v
Closing.v
Mailing.v
Reading.v
Flags.v
GoPath.v
Console.v
Administration.v
Simulation.v
Listing.v
Letter.v
Letters.v
Smtp.v
Layout.v
Migration.v
Tables.v
Upgrade.v
Upgrading.v
Schemata.v
EndToEnd.v
Commands.v
Handover.v
Startup.v
Starting.v
Servers.v
Guard.v
Daemons.v
Relay.v
Peers.v
