(* ===== verification/Prelude.v ===== *)
(** * OnlyBackup: verification of a deposit-only backup server

    OnlyBackup receives encrypted backups over HTTP and never lets a client read or
    delete them.  Four processes share one archive: the receiver forwards uploads
    ([src/internal/gateway]); the writer owns the SQLite catalogue, receives the
    files and answers two Unix sockets ([src/internal/ingest], [src/internal/localapi],
    [src/internal/store]); the maintenance process checks the archive and moves or
    removes files, each time with the permission of the writer
    ([src/internal/maintenance], [src/internal/policy]); command lines serve the
    administrator ([src/internal/localcli]).  On other computers the client encrypts and
    sends ([src/internal/client]) and the recovery tool verifies and decrypts
    ([src/internal/cryptfile]).  The development models the client, the receiver, the
    writer, the store, the policy, the maintenance process, the commands of the
    administrator and the recovery, and proves that together they keep every deposit
    and give it back.

    ** The library

    Foundations.  [Prelude]: results, transactions, record updates, generic lemmas.
    [GoTime], [GoString], [GoFloat]: the parts of Go's standard library the code
    relies on (instants in nanoseconds, locations, RFC 3339; strings as bytes; IEEE
    binary64).  [Model]: identifiers, metadata, sizes and records of
    [src/internal/model/model.go].

    Policy ([src/internal/policy/policy.go], pure).  [Policy]: file-system
    measurement, the retention minimum, [Select].  [Schedule]: the appointments of a
    learned model, their matching with the copies received, [CheckPeriod].
    [Forecast]: [Learn], [Forecast48Hours], [ForecastNextBackup].

    Catalogue ([src/internal/store]).  [Catalog]: tables as lists of rows, with the
    constraints of the schema.  [Deposit] ([store.go], [backup_pages.go]), [Retention]
    and [Automation] ([retention.go]), [Anomalies] ([retention.go], [mail_anomaly.go],
    [maintenance_retry.go]), [Checks] ([monitoring_checks.go]), [Mail]: one function
    per method, a transaction [db -> result err (A * db)] that an error rolls back.
    [RetentionMachine] is the specification of what these methods may do to keys,
    copies and operations: the relation [rstep] on the [core] of the catalogue and its
    invariant [core_ok].  [Store] collects the methods as [call]s and histories of
    calls; [Archive] proves that each call is a step of the machine; [Holds],
    [Guarantees] and [Admission] state what follows for every history.

    Processes.  [Io]: programs with effects on shared state, in a monad whose runs
    consult, for every effect, what the other processes did before it ([env]) and a
    [fate]: it works, it fails before or after its effect, or the process stops before
    or after it; [triple] is the partial-correctness logic over all of these, [runs]
    total correctness without faults.  [Writer]: [src/internal/ingest/writer.go]
    ([Admit], [Receive], [Abort], [Reconcile], [checkDisk]) over the record [server]
    (catalogue, [incoming], [archives/backups], [archives/quarantine], handler slots).
    [Executor]: the handlers of [src/internal/localapi/api.go] that authorize, validate,
    confirm and reconcile, and [processOperations], [executeLeased] and [reconcile] of
    [src/internal/maintenance/service.go], calling the writer through [rpc], where
    requests and answers get lost.  [Api]: the routing, the consent and all commands of
    the two sockets.

    The maintenance process.  [Private]: its private file, written to the side and
    renamed ([writePrivate], [localState]).  [Snapshot]: the client of the socket and the
    snapshot it reads in pages ([src/internal/localclient/client.go]).  [Watch]: the check
    of the files and the requests of copies to quarantine and purge.  [Monitor]: models,
    periods and space ([monitor]).  [Report]: the periodic report and its advice
    ([mail_report.go]).  [Cycle]: [RunOnce], with its lock, lease, check, deferred calls,
    and the delivery of mail, over the record [node].  [Letter]: the message that is sent,
    with its headers, its text and its markup ([mail_format.go]).  [Smtp]: the dialogue of
    [Send] with the mail server.  [Guard]: the renewal of the lease beside the cycle, a
    step relation over the two threads: whatever was renewed, the lease that is used and
    released is the one that was acquired, and no renewal comes after the release
    ([released_own], [released_quiet]), which nothing can block ([guard_ends]).

    The administrator.  [Flags]: the flags of Go's command lines, with [strconv] and
    [time.ParseDuration]; [GoPath]: [path/filepath].  [Console]: the commands
    of [src/internal/localcli], over the record [desk]: the archive, the files of the
    computer, what is typed, what is printed and what was asked of the writer.  [Layout]:
    the directories of an archive, their initialisation, validation and migration
    ([archive_layout.go], [Init]), over the record [layout].  [Tables]: tables with columns,
    constraints, indexes and references, the statements that the migrations use and what
    SQLite documents of them.  [Upgrade]: [Open] and the migrations of the schema from the
    first release to the twelfth ([migration_v5.go] to [migration_v12.go]), with the cold
    copy, over the record [disk].

    The programs.  [Startup]: the start and the end of the writer
    ([src/cmd/onlybackup-writer/main.go]), over the record [machine]: the locks, the state
    directory, the catalogue, the server, the sockets.  [Servers]: its threads while it
    serves, a step relation.  [Commands]: [onlybackup send] and [onlybackup-recover]
    ([src/cmd/onlybackup], [src/cmd/onlybackup-recover]), over the record [bench].
    [Daemons]: the flags of the maintenance process and of the receiver, and the loop of
    cycles, which keeps the custody for as long as it runs ([maintenance_keeps]).

    Around the writer.  [Front]: [ServeHTTP] of the writer and of the receiver, with the
    part of the state each has ([net]).  [Relay]: the waits of the receiver and the
    interruption of a body ([src/internal/gateway], [src/internal/httpbody]); an answer is
    passed on only whole ([relay_whole]).  [Peers]: the callers of the privileged sockets
    and the private files ([peer_linux.go], [src/internal/filesecurity]).  [Lifecycle]: the shutdown of a server, a step
    relation over its threads ([src/internal/lifecycle/lifecycle.go]).  [Files]: the file
    system of a client, names and inodes.  [Cryptfile]: [EncryptToTemp], [Recover],
    [Verify] and the identities.  [Client]: [Send].

    Proofs about processes.  [Custody]: where the file of each deposit must be for
    every status and operation ([custody]), and that no step of the machine parts
    them.  [Reception], [Accepting], [Slots]: uploads.  [Recovery]: the restart.
    [Execution]: the executor.  [Serving]: the sockets.  [Cycling]: a cycle keeps the
    custody.  [System]: lives of the whole system.  [Closing]: a cycle ends.  [Mailing]:
    the queue of mail.  [Reading]: runs of a snapshot and of a cycle.  [Administration]:
    the consent behind a command.  [Simulation], [Listing]: what the administrator is
    shown agrees with what the cycle and the writer do.  [Letters]: what a reader and a
    browser make of a message.  [Migration]: a migration that is stopped and run again.
    [Upgrading]: what an upgrade keeps, whatever fails; [Schemata]: the schema it reaches.
    [Starting]: what holds when the writer serves.
    [Encryption], [Restoration]: the files of the client and of the recovery.
    [Sending]: what an answer of the writer, of the receiver and of [Send] testifies.
    [EndToEnd]: from the file of the client to the file recovered; [Handover]: from the
    command that sends to the command that recovers.

    ** What the theorems show

    - [System]: in every life of the system - uploads, restarts, whole maintenance
      cycles, socket requests with any content, store calls, each with arbitrary failures and
      stops - no deposit is lost ([no_deposit_lost]), a receipt is final
      ([receipt_durable]) and testifies to the bytes that were sent
      ([receipt_means_stored]), and a restart recovers, unless the store refuses to record
      the end of an upload or what was there is none of the system's ([restart_recovers]).
    - [EndToEnd]: when [Send] returned a receipt, after whatever losses and retries, the
      recovery tool gives the very file back at any later time ([sent_file_recoverable]);
      so do the two commands, by way of the receipt that was saved ([receipt_gives_file_back]).
      [Restoration]: recovery under any failure leaves its output free or verified
      ([recover_safe]).  [Lifecycle]: the
      shutdown waits for the handlers ([shutdown_drains]).
    - The writer serves only an archive that is locked, laid out, upgraded and reconciled
      ([writer_serves_secured]), and its threads end together ([servers_end]).  An upgrade
      of the catalogue, failing or stopped anywhere, keeps every row but that of the
      leases, and the whole earlier catalogue beside a rebuilt one if the name was free
      ([upgrade_keeps]); one that succeeds, of tables with the columns, keys, references
      and indexes of a release, ends with those of a new archive ([upgraded_schema]).
    - [Guarantees], over every history of store calls: refinement of the retention
      machine, 48 hours between quarantine and purge, deletion only with ticket and
      lease, the last complete copy of a key is kept, deposits are immutable, revoked
      keys and open anomalies stop deletions, leases fence, deposits are idempotent.
    - The maintenance process: a cycle in which no call fails returns and closes its
      check ([cycle_closes]); a snapshot read in pages beside uploads is complete
      ([snapshot_complete]); the private file is never torn ([private_file_atomic]); mail is
      marked as sent only if the mail server took it ([sent_mail_taken]), a mail is read
      back as it was meant ([mail_reads_back]) and nothing in it adds to its markup
      ([markup_inert]), and with TLS nothing but the greetings of the client and the request
      for it is said in the clear ([dialogue_protected]).  Lemmas add that the
      findings about space are those of the arithmetic ([space_judged]) and that what the
      report advises works ([advice_succeeds]).
    - The administrator: no command acts without the text that it requires having been
      written ([commands_consented]); the simulation is the selection of the cycle, from
      the ten thousand copies received last and without setting aside those acknowledged as
      missing ([simulation_agrees]); the list of the guided deletion tells what the writer
      accepts, but for such copies, which it offers ([listed_exactly],
      [acknowledged_copy_offered]); a migration of the directories that was stopped is completed by
      the next ([migration_resumes]).
    - [Policy]: [Select] proposes only what the minima allow ([Select_safe]), unless the
      clock skips the midnight of the day ([skipped_midnight_early]), oldest days first,
      never the last copy, and reaches its target or says by how much it does not.
    - [Schedule]: the matching is a maximum matching; missing copies are reported
      exactly; the lemma [midnight_gap_spurious_missing] is a defect of the code.  [Forecast]:
      lemmas on what a reliable model has learned, the windows a forecast covers and those
      it misses.
    - [Admission], [Slots], [Accepting], [Watch], [Serving]: quotas, slots and disk space
      are exact, copies end, whole uploads are accepted, the check of the files is
      exact, consent is enforced.

    ** Conventions, bounds and fuel

    Integers are [Z]; where the code computes on [uint64] the operations wrap
    ([uadd], [umul]), and int64 counters are assumed not to overflow.  Loops whose
    recursion is not structural have fuel: the copy of a body has as many turns as
    bytes ([copy_terminates]: more change nothing); the days of a window have
    [day_fuel], more than any window holds; [io.Copy] on the client has as many turns as
    the caller gives and runs on when they are spent, which the theorems of success
    exclude by asking for more turns than bytes.  Sorting is stable in the model, so
    where the code sorts unstably, instants that are equal keep the order of arrival.  [Platform] gathers the functions of other
    packages (time zones, SHA-256, mail addresses, JSON, SQLite's julianday); the
    theorems hold for all of them.  The environment of an upload keeps the custody, the
    rows, and this upload's row and files ([Concurrent]); that of a maintenance run
    keeps the custody, the rows, the authorized operations and the files of their
    deposits ([Bystanders]): only the holder of the lease authorizes.  That of a sending
    keeps the rows and is [Concurrent] for the uploads of its idempotency key
    ([Sparing]); on a client, the others leave the file and the temporary names alone
    ([Apart]).  [Age], [Codec], [Web] and [Trigonometry] are libraries as parameters.

    ** Not modelled

    The SQL engine and failures of begin and commit themselves (a call of the store
    may fail before or after its transaction instead): [Tables] is what the statements of
    the migrations need of it, and the rows of the catalogue are modelled apart from the
    tables that an upgrade changes.  The age format, JSON and base64 codecs; HTTP and TLS
    themselves; the kernel's credentials of a caller and signals; the effect of permissions
    on other programs: the modes of the directories and of the sockets and the checks of
    private files are modelled, what the system does with them is not; hard-link counts and the identity of inodes on the server
    ([os.SameFile] is one of the failures of a look); the texts that flags print on the
    error stream: they belong to libraries or to the operating system, and nothing under
    [src/] computes them.  The clocks of the deadlines: a time-out is one of the failures
    that every effect may have. *)
From stdpp Require Export prelude list sorting strings pretty gmap.
From Stdlib Require Export ZArith Lia.

Declare Scope ob_scope.
Delimit Scope ob_scope with ob.

(** ** Results

    A Go function returning [(T, error)] is a function into [result E T]; the
    value returned beside a non-nil error is never used by its callers. *)
Inductive result (E A : Type) : Type :=
| Ok (a : A)
| Err (e : E).
Arguments Ok {E A} a.
Arguments Err {E A} e.

#[global] Instance result_ret {E} : MRet (result E) := fun A a => Ok a.
#[global] Instance result_bind {E} : MBind (result E) := fun A B f m =>
  match m with Ok a => f a | Err e => Err e end.
#[global] Instance result_fmap {E} : FMap (result E) := fun A B f m =>
  match m with Ok a => Ok (f a) | Err e => Err e end.

Definition is_ok {E A} (r : result E A) : bool :=
  match r with Ok _ => true | Err _ => false end.
Lemma is_ok_false {E A} (r : result E A) : (forall a, r = Ok a -> False) -> is_ok r = false.
Proof. intros H. destruct r as [a|e]; [destruct (H a eq_refl)|reflexivity]. Qed.

(** Early return: [if cond { return err }]. *)
Definition guard_err {E} (cond : bool) (e : E) : result E unit :=
  if cond then Err e else Ok tt.

(** ** Transactions

    [tx S E A] is a database transaction over the state [S]: it either yields a
    value and the state to commit, or an error.  [commit] gives the transaction
    its effect: an error rolls back (the deferred [tx.Rollback]). *)
Definition tx (S E A : Type) : Type := S -> result E (A * S).

#[global] Instance tx_ret {S E} : MRet (tx S E) := fun A a s => Ok (a, s).
#[global] Instance tx_bind {S E} : MBind (tx S E) := fun A B f m s =>
  match m s with Ok (a, s') => f a s' | Err e => Err e end.

Definition tx_fail {S E A} (e : E) : tx S E A := fun _ => Err e.
Definition tx_get {S E} : tx S E S := fun s => Ok (s, s).
Definition tx_gets {S E A} (f : S -> A) : tx S E A := fun s => Ok (f s, s).
Definition tx_modify {S E} (f : S -> S) : tx S E unit := fun s => Ok (tt, f s).
Definition tx_guard {S E} (cond : bool) (e : E) : tx S E unit :=
  if cond then tx_fail e else mret tt.
Definition tx_lift {S E A} (r : result E A) : tx S E A := fun s =>
  match r with Ok a => Ok (a, s) | Err e => Err e end.

Definition commit {S E A} (m : tx S E A) (s : S) : result E A * S :=
  match m s with Ok (a, s') => (Ok a, s') | Err e => (Err e, s) end.

(** [for _, x := range xs { f(x) }] with early return on error. *)
Fixpoint tx_iter {S E A} (f : A -> tx S E unit) (xs : list A) : tx S E unit :=
  match xs with
  | [] => mret tt
  | x :: xs' => _ ← f x; tx_iter f xs'
  end.

(** ** Record update

    [r <| p := v |>] assigns the field [p]; the setter is generated from the
    record's eta-expansion. *)
Class Settable (R : Type) := eta_record : R -> R.
Class Setter {R T : Type} (p : R -> T) := set_with : (T -> T) -> R -> R.
Arguments set_with {R T} p {_} f r /.

Ltac make_setter :=
  lazymatch goal with
  | |- @Setter ?R ?T ?p =>
    let inst := constr:(_ : Settable R) in
    let h := eval hnf in inst in
    let f := fresh "f" in
    let r := fresh "r" in
    intros f r;
    let e := eval cbv beta in (h r) in
    lazymatch eval pattern (p r) in e with
    | ?F _ => let e' := eval cbv beta in (F (f (p r))) in exact e'
    end
  end.

#[global] Hint Extern 0 (Setter _) => make_setter : typeclass_instances.

Notation "r <| p := v |>" := (set_with p (fun _ => v) r)
  (at level 1, left associativity, p at level 9) : ob_scope.
Notation "r <| p ::= f |>" := (set_with p f r)
  (at level 1, left associativity, p at level 9) : ob_scope.
#[global] Open Scope ob_scope.
#[global] Open Scope Z_scope.

(** ** Machine integers *)
Definition max_uint64 : Z := 2^64 - 1.
Definition max_int64 : Z := 2^63 - 1.
(** Arithmetic on [uint64] wraps modulo 2^64. *)
Definition wrap64 (z : Z) : Z := z mod 2^64.
Definition is_uint64 (z : Z) : Prop := 0 <= z <= max_uint64.
Definition is_int64 (z : Z) : Prop := - 2^63 <= z <= max_int64.
(** Conversion of a value to [int64] keeps the low 64 bits, two's complement. *)
Definition wrap_int64 (z : Z) : Z := (z + 2^63) mod 2^64 - 2^63.

#[global] Arguments wrap64 : simpl never.

(** ** Relational statements on tables

    A table is the list of its rows in rowid order. *)
Definition update_where {A} (p : A -> bool) (f : A -> A) (t : list A) : list A :=
  map (fun r => if p r then f r else r) t.
Definition count_where {A} (p : A -> bool) (t : list A) : Z :=
  Z.of_nat (length (List.filter p t)).
Definition find_where {A} (p : A -> bool) (t : list A) : option A :=
  List.find p t.
Definition exists_where {A} (p : A -> bool) (t : list A) : bool :=
  existsb p t.
Definition delete_where {A} (p : A -> bool) (t : list A) : list A :=
  List.filter (fun r => negb (p r)) t.
Definition sum_by {A} (f : A -> Z) (t : list A) : Z :=
  foldr (fun r acc => f r + acc) 0 t.
Definition list_max_by {A} (f : A -> Z) (d : Z) (t : list A) : Z :=
  foldr (fun r acc => Z.max (f r) acc) d t.

Definition str_eqb (a b : string) : bool := String.eqb a b.
Definition mem_str (s : string) (l : list string) : bool := existsb (String.eqb s) l.

(** [uint64] operations of Go. *)
Definition uadd (a b : Z) : Z := wrap64 (a + b).
Definition usub (a b : Z) : Z := wrap64 (a - b).
Definition umul (a b : Z) : Z := wrap64 (a * b).

Lemma wrap64_small z : is_uint64 z -> wrap64 z = z.
Proof. unfold is_uint64, max_uint64, wrap64. intros. apply Z.mod_small. lia. Qed.
Lemma wrap64_range z : is_uint64 (wrap64 z).
Proof. unfold is_uint64, max_uint64, wrap64. pose proof (Z.mod_pos_bound z (2^64)). lia. Qed.

(** ** Maps used as counters: [m[k]] reads the zero value of absent keys. *)
Definition map_get {V} (d : V) (m : gmap string V) (k : string) : V := default d (m !! k).
Definition map_add (m : gmap string Z) (k : string) (n : Z) : gmap string Z := <[k := map_get 0 m k + n]> m.

Lemma map_get_add m k n k' :
  map_get 0 (map_add m k n) k' = map_get 0 m k' + (if decide (k = k') then n else 0).
Proof.
  unfold map_get, map_add. rewrite lookup_insert. case_decide as E; [by subst|]. lia.
Qed.

Lemma forallb_false {A} (p : A -> bool) l : forallb p l = false -> exists x, In x l /\ p x = false.
Proof.
  induction l as [|x l IH]; [done|]. simpl. intros [H|H]%andb_false_iff; [by exists x; auto|].
  destruct (IH H) as (y & ? & ?). by exists y; auto.
Qed.

(** ** Counting and summing *)
Lemma count_where_nil {A} (p : A -> bool) : count_where p [] = 0.
Proof. reflexivity. Qed.
Lemma count_where_cons {A} (p : A -> bool) x t :
  count_where p (x :: t) = (if p x then 1 else 0) + count_where p t.
Proof. unfold count_where. simpl. destruct (p x); simpl; lia. Qed.
Lemma count_where_app {A} (p : A -> bool) t u : count_where p (t ++ u) = count_where p t + count_where p u.
Proof. induction t as [|x t IH]; simpl; [done|]. rewrite !count_where_cons, IH. lia. Qed.
Lemma count_where_nonneg {A} (p : A -> bool) t : 0 <= count_where p t.
Proof. unfold count_where. lia. Qed.
Lemma count_where_ext {A} (p q : A -> bool) t : (forall x, In x t -> p x = q x) -> count_where p t = count_where q t.
Proof.
  induction t as [|x t IH]; intros H; [done|]. rewrite !count_where_cons, IH, (H x); [done|by left|].
  intros y Hy. apply H. by right.
Qed.
Lemma count_where_le {A} (p q : A -> bool) t :
  (forall x, In x t -> p x = true -> q x = true) -> count_where p t <= count_where q t.
Proof.
  induction t as [|x t IH]; intros H; [done|]. rewrite !count_where_cons.
  pose proof (IH (fun y Hy => H y (or_intror Hy))). pose proof (H x (or_introl eq_refl)) as Hx.
  destruct (p x), (q x); lia.
Qed.
Lemma count_where_pos {A} (p : A -> bool) t : 0 < count_where p t <-> exists x, In x t /\ p x = true.
Proof.
  induction t as [|y t IH]; [rewrite count_where_nil; split; [lia|intros (? & [] & _)]|].
  rewrite count_where_cons. pose proof (count_where_nonneg p t). split.
  - intros H'. destruct (p y) eqn:E; [exists y; simpl; auto|].
    destruct IH as [IH _]. destruct IH as (x & ? & ?); [lia|]. exists x. simpl. auto.
  - intros (x & [->|Hx] & Hp); [rewrite Hp; lia|].
    destruct IH as [_ IH]. assert (0 < count_where p t) by (apply IH; eauto). destruct (p y); lia.
Qed.
Lemma count_where_one {A B} (key : A -> B) (p : A -> bool) l x : NoDup (map key l) -> In x l ->
  (forall y, In y l -> p y = true <-> y = x) -> count_where p l = 1.
Proof.
  induction l as [|y l IH]; intros Hnd Hx Hp; [done|]. cbn in Hnd. apply NoDup_cons in Hnd as [Hn Hnd]. rewrite count_where_cons.
  destruct Hx as [->|Hx].
  - rewrite (proj2 (Hp x (or_introl eq_refl)) eq_refl).
    assert (count_where p l = 0) as ->; [|done]. pose proof (count_where_nonneg p l) as Hc.
    destruct (Z.eq_dec (count_where p l) 0) as [?|Hne]; [done|]. exfalso.
    assert (0 < count_where p l) as (z & Hz & Hpz)%count_where_pos by lia.
    apply Hp in Hpz; [subst z|by right]. apply Hn, list_elem_of_In, in_map_iff. by exists x.
  - assert (p y = false) as ->.
    { apply not_true_iff_false. intros E. apply Hp in E; [subst y|by left]. apply Hn, list_elem_of_In, in_map_iff. by exists x. }
    rewrite IH; [done..|]. intros z Hz. apply Hp. by right.
Qed.
Lemma count_where_perm {A} (p : A -> bool) t u : Permutation t u -> count_where p t = count_where p u.
Proof. induction 1; rewrite ?count_where_cons; lia. Qed.
Lemma sum_by_app {A} (f : A -> Z) t u : sum_by f (t ++ u) = sum_by f t + sum_by f u.
Proof. unfold sum_by. induction t as [|x t IH]; simpl; lia. Qed.

(** ** Stable sorting

    [sort.SliceStable], and [sort.Slice] where no two elements are tied. *)
Section sort_by.
Context {A : Type} (less : A -> A -> bool).

Fixpoint insert_by (x : A) (l : list A) : list A :=
  match l with
  | [] => [x]
  | y :: l' => if less y x then y :: insert_by x l' else x :: l
  end.
Definition sort_by (l : list A) : list A := foldr insert_by [] l.

Lemma insert_by_perm x l : Permutation (insert_by x l) (x :: l).
Proof.
  induction l as [|y l IH]; [done|]. simpl. destruct (less y x); [|done].
  rewrite IH. apply perm_swap.
Qed.
Lemma sort_by_perm l : Permutation (sort_by l) l.
Proof. induction l as [|x l IH]; [done|]. simpl. by rewrite insert_by_perm, IH. Qed.
Lemma in_sort_by x l : In x (sort_by l) <-> In x l.
Proof. split; apply Permutation_in; [|symmetry]; apply sort_by_perm. Qed.
Lemma length_sort_by l : length (sort_by l) = length l.
Proof. apply Permutation_length, sort_by_perm. Qed.

Lemma insert_by_sorted (key : A -> Z) x l :
  (forall a b, less a b = true -> key a <= key b) -> (forall a b, less a b = false -> key b <= key a) ->
  StronglySorted (fun a b => key a <= key b) l ->
  StronglySorted (fun a b => key a <= key b) (insert_by x l).
Proof.
  intros Hlt Hge H. induction H as [|y l Hs IH Hall]; simpl; [repeat constructor|].
  destruct (less y x) eqn:E.
  - constructor; [done|]. rewrite Forall_forall in *. intros z Hz%list_elem_of_In.
    apply (Permutation_in _ (insert_by_perm x l)) in Hz as [<-|Hz]; [by apply Hlt|].
    by apply Hall, list_elem_of_In.
  - apply Hge in E. constructor; [by constructor|]. constructor; [done|].
    eapply Forall_impl; [exact Hall|]. simpl. lia.
Qed.
Lemma sort_by_sorted (key : A -> Z) l :
  (forall a b, less a b = true -> key a <= key b) -> (forall a b, less a b = false -> key b <= key a) ->
  StronglySorted (fun a b => key a <= key b) (sort_by l).
Proof. intros Hlt Hge. induction l; simpl; [constructor|]. by apply insert_by_sorted. Qed.
End sort_by.

Lemma count_where_insert {A} (p : A -> bool) l i x y : l !! i = Some x ->
  count_where p (<[i := y]> l) = count_where p l - (if p x then 1 else 0) + (if p y then 1 else 0).
Proof.
  revert i. induction l as [|z l IH]; intros [|i] H; [done..| |].
  - cbn in H. injection H as ->. cbn. rewrite !count_where_cons. lia.
  - cbn in *. rewrite !count_where_cons, IH by done. lia.
Qed.
