(* ===== verification/GoTime.v ===== *)
(** Go's [time] package as the source uses it: instants, durations, the civil
    calendar, locations, [time.Date], [Time.AddDate], RFC 3339 texts and the
    day keys ["2006-01-02"].

    An instant ([time.Time] without its location and monotonic reading) is the
    number of nanoseconds since the Unix epoch; functions that depend on the
    location take it as an argument.  The time-zone database is not part of the
    repository: a location is its lookup function, and [time.LoadLocation] is a
    parameter of the definitions that call it. *)
From S2P Require Import Prelude.
From Stdlib Require Import Ascii String.

(** ** Durations *)
Definition Nanosecond : Z := 1.
Definition Second : Z := 1000000000.
Definition Minute : Z := 60 * Second.
Definition Hour : Z := 60 * Minute.

(** [Duration] values saturate in [Time.Sub]. *)
Definition time_sub (t u : Z) : Z := Z.max (- 2^63) (Z.min max_int64 (t - u)).
Definition unix (t : Z) : Z := t / Second.
Definition nanosecond (t : Z) : Z := t mod Second.
Definition of_unix (s : Z) : Z := s * Second.
(** The zero [time.Time], January 1st of year 1, UTC. *)
Definition zero_time : Z := -62135596800 * Second.

(** ** The proleptic Gregorian calendar

    Days are counted from 1970-01-01; [days_from_civil] is linear in the day of
    the month, as [time.Date] is. *)
Definition seconds_per_day : Z := 86400.

Definition days_from_civil (y m d : Z) : Z :=
  let y' := if m <=? 2 then y - 1 else y in
  let era := y' / 400 in
  let yoe := y' mod 400 in
  let mp := (m + 9) mod 12 in
  let doy := (153 * mp + 2) / 5 + d - 1 in
  era * 146097 + (yoe * 365 + yoe / 4 - yoe / 100 + doy) - 719468.

Definition civil_from_days (z : Z) : Z * Z * Z :=
  let era := (z + 719468) / 146097 in
  let doe := (z + 719468) mod 146097 in
  let yoe := (doe - doe / 1460 + doe / 36524 - doe / 146096) / 365 in
  let doy := doe - (365 * yoe + yoe / 4 - yoe / 100) in
  let mp := (5 * doy + 2) / 153 in
  let d := doy - (153 * mp + 2) / 5 + 1 in
  let m := if mp <? 10 then mp + 3 else mp - 9 in
  (yoe + era * 400 + (if m <=? 2 then 1 else 0), m, d).

Definition is_leap (y : Z) : bool :=
  (y mod 4 =? 0) && (negb (y mod 100 =? 0) || (y mod 400 =? 0)).
Definition days_in (m y : Z) : Z :=
  if m =? 2 then (if is_leap y then 29 else 28)
  else if (m =? 4) || (m =? 6) || (m =? 9) || (m =? 11) then 30 else 31.

(** [time.Weekday]: Sunday is 0; 1970-01-01 was a Thursday. *)
Definition weekday_of_days (n : Z) : Z := (n + 4) mod 7.

(** ** Locations

    [loc_lookup s] is the zone in force at Unix second [s]: its offset east of
    UTC and the half-open interval of seconds in which it holds. *)
Record span : Type := Span { sp_offset : Z; sp_start : Z; sp_end : Z }.
Record location : Type := Location { loc_lookup : Z -> span }.

Definition fixed_zone (offset : Z) : location :=
  Location (fun _ => Span offset (- 2^63) max_int64).
Definition UTC : location := fixed_zone 0.

(** What the code relies on: a zone covers the second it was looked up for, is
    the same for every second it covers, and is less than a day off UTC. *)
Record location_ok (l : location) : Prop := LocationOk {
  lk_covers : forall s, is_int64 s ->
    sp_start (loc_lookup l s) <= s /\ (s < sp_end (loc_lookup l s) \/ s = max_int64);
  lk_constant : forall s s', is_int64 s -> is_int64 s' ->
    sp_start (loc_lookup l s) <= s' < sp_end (loc_lookup l s) -> loc_lookup l s' = loc_lookup l s;
  lk_offset : forall s, - seconds_per_day < sp_offset (loc_lookup l s) < seconds_per_day }.

Definition zone_offset (l : location) (t : Z) : Z := sp_offset (loc_lookup l (unix t)).

(** Local clock reading of an instant. *)
Definition local_seconds (l : location) (t : Z) : Z := unix t + zone_offset l t.
Definition local_day (l : location) (t : Z) : Z := local_seconds l t / seconds_per_day.
Definition local_date (l : location) (t : Z) : Z * Z * Z := civil_from_days (local_day l t).
Definition local_second_of_day (l : location) (t : Z) : Z := local_seconds l t mod seconds_per_day.
Definition local_hour (l : location) (t : Z) : Z := local_second_of_day l t / 3600.
Definition local_minute (l : location) (t : Z) : Z := local_second_of_day l t / 60 mod 60.
Definition weekday (l : location) (t : Z) : Z := weekday_of_days (local_day l t).

(** [time.Date]: the wall clock reading is taken for UTC, the zone found there
    gives a first offset, and the instant it leads to is looked up again when
    that zone does not cover it. *)
Definition resolve_local (l : location) (wall : Z) : Z :=
  let sp := loc_lookup l wall in
  if sp_offset sp =? 0 then wall
  else
    let utc := wall - sp_offset sp in
    if (utc <? sp_start sp) || (sp_end sp <=? utc)
    then wall - sp_offset (loc_lookup l utc)
    else utc.

Definition time_of_clock (l : location) (days hour min sec nsec : Z) : Z :=
  resolve_local l (days * seconds_per_day + hour * 3600 + min * 60 + sec) * Second + nsec.

Definition date (l : location) (y m d hour min sec nsec : Z) : Z :=
  time_of_clock l (days_from_civil y m d) hour min sec nsec.

(** [Time.AddDate(0, 0, n)] keeps the wall clock and moves the civil day. *)
Definition add_days (l : location) (t n : Z) : Z :=
  let '(y, m, d) := local_date l t in
  let s := local_second_of_day l t in
  date l y m (d + n) (s / 3600) (s / 60 mod 60) (s mod 60) (nanosecond t).

(** ** Texts *)
Definition digit_char (d : Z) : ascii := ascii_of_nat (48 + Z.to_nat d).
Definition digit_val (c : ascii) : option Z :=
  let n := Z.of_nat (nat_of_ascii c) - 48 in
  if (0 <=? n) && (n <=? 9) then Some n else None.

Definition pad2 (n : Z) : string :=
  String (digit_char (n / 10 mod 10)) (String (digit_char (n mod 10)) EmptyString).
Definition pad4 (n : Z) : string :=
  (pad2 (n / 100) ++ pad2 (n mod 100))%string.
(** [appendInt(b, year, 4)]. *)
Definition year_text (y : Z) : string :=
  let a := if Z.abs y <=? 9999 then pad4 (Z.abs y) else pretty (Z.abs y) in
  if y <? 0 then String "-" a else a.

Definition date_text (c : Z * Z * Z) : string :=
  let '(y, m, d) := c in (year_text y ++ "-" ++ pad2 m ++ "-" ++ pad2 d)%string.
(** [t.Format("2006-01-02")]. *)
Definition date_key (l : location) (t : Z) : string := date_text (local_date l t).

(** The nine digits of a nanosecond count, most significant first. *)
Fixpoint digits (k : nat) (n : Z) : list Z :=
  match k with
  | O => []
  | S k' => (n / 10 ^ Z.of_nat k' mod 10) :: digits k' n
  end.
Fixpoint trim_zeros (ds : list Z) : list Z :=
  match ds with
  | [] => []
  | d :: ds' =>
    match trim_zeros ds' with
    | [] => if d =? 0 then [] else [d]
    | r => d :: r
    end
  end.
Fixpoint digits_text (ds : list Z) : string :=
  match ds with
  | [] => EmptyString
  | d :: ds' => String (digit_char d) (digits_text ds')
  end.
Definition fraction_text (ns : Z) : string :=
  match trim_zeros (digits 9 ns) with
  | [] => EmptyString
  | ds => String "." (digits_text ds)
  end.

(** [t.UTC().Format(time.RFC3339Nano)]. *)
Definition format_rfc3339nano (t : Z) : string :=
  let s := unix t mod seconds_per_day in
  (date_text (civil_from_days (unix t / seconds_per_day)) ++ "T" ++ pad2 (s / 3600) ++ ":" ++
   pad2 (s / 60 mod 60) ++ ":" ++ pad2 (s mod 60) ++ fraction_text (nanosecond t) ++ "Z")%string.

Definition two_digits (a b : ascii) (lo hi : Z) : option Z :=
  match digit_val a, digit_val b with
  | Some x, Some y => let n := 10 * x + y in
    if (lo <=? n) && (n <=? hi) then Some n else None
  | _, _ => None
  end.

(** Leading digits of a text and what follows them. *)
Fixpoint span_digits (s : string) : list Z * string :=
  match s with
  | EmptyString => ([], EmptyString)
  | String c s' =>
    match digit_val c with
    | Some d => let '(ds, rest) := span_digits s' in (d :: ds, rest)
    | None => ([], s)
    end
  end.

(** [parseNanoseconds]: the digits past the ninth are dropped. *)
Fixpoint nanos_of_digits (k : nat) (ds : list Z) : Z :=
  match k, ds with
  | S k', d :: ds' => d * 10 ^ Z.of_nat k' + nanos_of_digits k' ds'
  | _, _ => 0
  end.

Definition parse_fraction (s : string) : Z * string :=
  match s with
  | String c s' =>
    if Ascii.eqb c "." then
      match span_digits s' with
      | ([], _) => (0, s)
      | (ds, rest) => (nanos_of_digits 9 ds, rest)
      end
    else (0, s)
  | EmptyString => (0, s)
  end.

Definition parse_zone (s : string) : option Z :=
  match s with
  | String z EmptyString => if Ascii.eqb z "Z" then Some 0 else None
  | String sg (String h1 (String h2 (String c (String m1 (String m2 EmptyString))))) =>
    hr ← two_digits h1 h2 0 23;
    mm ← two_digits m1 m2 0 59;
    if negb (Ascii.eqb c ":") then None
    else if Ascii.eqb sg "-" then Some (- ((hr * 60 + mm) * 60))
    else if Ascii.eqb sg "+" then Some ((hr * 60 + mm) * 60) else None
  | _ => None
  end.

(** [time.Parse(time.RFC3339Nano, s)] on the grammar of RFC 3339 (Go's
    [parseRFC3339]); the texts in the catalogue are written by
    [format_rfc3339nano]. *)
Definition parse_rfc3339 (s : string) : option Z :=
  match s with
  | String y1 (String y2 (String y3 (String y4 (String s1 (String m1 (String m2
     (String s2 (String d1 (String d2 (String s3 (String h1 (String h2 (String s4
     (String n1 (String n2 (String s5 (String c1 (String c2 rest)))))))))))))))))) =>
    yh ← two_digits y1 y2 0 99;
    yl ← two_digits y3 y4 0 99;
    month ← two_digits m1 m2 1 12;
    day ← two_digits d1 d2 1 (days_in month (100 * yh + yl));
    hour ← two_digits h1 h2 0 23;
    min ← two_digits n1 n2 0 59;
    sec ← two_digits c1 c2 0 59;
    if Ascii.eqb s1 "-" && Ascii.eqb s2 "-" && Ascii.eqb s3 "T" && Ascii.eqb s4 ":" && Ascii.eqb s5 ":"
    then
      let '(ns, zone) := parse_fraction rest in
      off ← parse_zone zone;
      Some (date UTC (100 * yh + yl) month day hour min sec ns - off * Second)
    else None
  | _ => None
  end.

#[global] Arguments days_from_civil : simpl never.
#[global] Arguments civil_from_days : simpl never.
#[global] Arguments unix : simpl never.
#[global] Arguments nanosecond : simpl never.
#[global] Arguments of_unix : simpl never.
#[global] Arguments time_sub : simpl never.
#[global] Arguments local_date : simpl never.
#[global] Arguments local_day : simpl never.
#[global] Arguments local_second_of_day : simpl never.
#[global] Arguments weekday : simpl never.
#[global] Arguments resolve_local : simpl never.
#[global] Arguments time_of_clock : simpl never.
#[global] Arguments date : simpl never.
#[global] Arguments add_days : simpl never.
#[global] Arguments date_text : simpl never.
#[global] Arguments date_key : simpl never.
#[global] Arguments digit_char : simpl never.
#[global] Arguments digit_val : simpl never.
#[global] Arguments format_rfc3339nano : simpl never.
#[global] Arguments parse_rfc3339 : simpl never.

(** ** Midnights

    [day_start l n] is [time.Date] at 00:00 of civil day [n]. *)
Definition day_start (l : location) (n : Z) : Z := time_of_clock l n 0 0 0 0.

(** A location in which every civil day begins at 00:00 and days follow each
    other.  Zones that skip midnight at a clock change are not of this kind. *)
Record civil_days (l : location) : Prop := CivilDays {
  cd_midnight : forall n, local_seconds l (day_start l n) = n * seconds_per_day;
  cd_increasing : forall n m, n < m -> day_start l n < day_start l m }.

(** [t.In(l).Format(time.RFC3339)]. *)
Definition zone_text (offset : Z) : string :=
  let zone := Z.quot offset 60 in
  if offset =? 0 then "Z"
  else ((if (zone <? 0)%Z then "-" else "+") ++ pad2 (Z.abs zone / 60)%Z ++ ":" ++ pad2 (Z.abs zone mod 60)%Z)%string.
Definition format_rfc3339 (l : location) (t : Z) : string :=
  let s := local_second_of_day l t in
  (date_text (local_date l t) ++ "T" ++ pad2 (s / 3600)%Z ++ ":" ++ pad2 (s / 60 mod 60)%Z ++ ":" ++
   pad2 (s mod 60)%Z ++ zone_text (zone_offset l t))%string.
#[global] Arguments format_rfc3339 : simpl never.

(** ** The calendar round trips *)
Fixpoint all_from (f : Z -> bool) (z : Z) (n : nat) : bool :=
  match n with
  | O => true
  | S n' => if f z then all_from f (z + 1) n' else false
  end.

Lemma all_from_spec f n z z0 :
  all_from f z0 n = true -> z0 <= z < z0 + Z.of_nat n -> f z = true.
Proof.
  revert z0. induction n as [|n IH]; simpl; intros z0; [lia|].
  destruct (f z0) eqn:E; [|done]. intros Hr Hz.
  destruct (decide (z = z0)) as [->|]; [done|]. apply (IH (z0 + 1)); [done|lia].
Qed.

(** Years of an era begin in March; [year_of_era] is the year holding a day. *)
Definition year_start (k : Z) : Z :=
  if k =? 400 then 146097 else 365 * k + k / 4 - k / 100.
Definition year_scale (doe : Z) : Z := doe - doe / 1460 + doe / 36524 - doe / 146096.
Definition year_table_ok (k : Z) : bool :=
  (year_scale (year_start k) / 365 =? k) && (year_scale (year_start (k + 1) - 1) / 365 =? k) &&
  (year_start (k + 1) - year_start k <=? (if is_leap (k + 1) then 366 else 365)) &&
  (k / 400 =? 0).
Definition month_table_ok (doy : Z) : bool :=
  let mp := (5 * doy + 2) / 153 in
  let d := doy - (153 * mp + 2) / 5 + 1 in
  let m := if mp <? 10 then mp + 3 else mp - 9 in
  ((m + 9) mod 12 =? mp) && (1 <=? m) && (m <=? 12) && (1 <=? d) &&
  (d <=? (if m =? 2 then (if doy =? 365 then 29 else 28) else days_in m 0)).

Lemma year_tables : all_from year_table_ok 0 400 = true.
Proof. vm_compute. reflexivity. Qed.
Lemma month_tables : all_from month_table_ok 0 366 = true.
Proof. vm_compute. reflexivity. Qed.

Lemma year_scale_mono a b : 0 <= a <= b -> b < 146097 -> year_scale a <= year_scale b.
Proof.
  unfold year_scale. intros Hab Hb.
  assert (b / 146096 - a / 146096 <= b / 36524 - a / 36524).
  { pose proof (Z.div_le_mono a b 36524 ltac:(lia) ltac:(lia)).
    destruct (decide (b = 146096)) as [->|]; [destruct (decide (a = 146096)) as [->|]; [done|]|].
    - rewrite (Z.div_small a 146096) by lia.
      pose proof (Z.div_le_mono a 146095 36524 ltac:(lia) ltac:(lia)) as Hd.
      change (146095 / 36524) with 3 in Hd. change (146096 / 146096) with 1.
      change (146096 / 36524) with 4. lia.
    - rewrite !(Z.div_small _ 146096) by lia. lia. }
  assert (b / 1460 - a / 1460 <= b - a) by
    (clear -Hab; pose proof (Z.div_mod a 1460 ltac:(lia)); pose proof (Z.div_mod b 1460 ltac:(lia));
     pose proof (Z.mod_pos_bound a 1460 ltac:(lia)); pose proof (Z.mod_pos_bound b 1460 ltac:(lia)); lia).
  lia.
Qed.

Lemma year_start_exists n doe : 0 <= doe < year_start (Z.of_nat n) ->
  exists k, 0 <= k < Z.of_nat n /\ year_start k <= doe < year_start (k + 1).
Proof.
  induction n as [|n IH]; intros Hd; [change (year_start (Z.of_nat 0)) with 0 in Hd; lia|].
  destruct (decide (doe < year_start (Z.of_nat n))) as [Hlt|Hge].
  - destruct IH as (k & ? & ?); [lia|]. exists k. lia.
  - exists (Z.of_nat n). replace (Z.of_nat n + 1) with (Z.of_nat (S n)) by lia. lia.
Qed.

Lemma year_of_era doe : 0 <= doe < 146097 ->
  exists k, year_scale doe / 365 = k /\ 0 <= k < 400 /\
    year_start k <= doe /\ doe - year_start k < (if is_leap (k + 1) then 366 else 365).
Proof.
  intros Hd. destruct (year_start_exists 400 doe) as (k & Hk & Hs); [done|].
  pose proof (all_from_spec _ _ k _ year_tables ltac:(lia)) as Ht.
  unfold year_table_ok in Ht. rewrite !andb_true_iff in Ht. destruct Ht as (((Ha & Hb) & Hc) & _).
  exists k. split; [|split; [lia|split; [lia|]]].
  - assert (year_start (k + 1) <= 146097).
    { unfold year_start. destruct (k + 1 =? 400); [lia|]. Z.to_euclidean_division_equations; lia. }
    assert (0 <= year_start k).
    { unfold year_start. destruct (k =? 400); [lia|]. Z.to_euclidean_division_equations; lia. }
    pose proof (year_scale_mono (year_start k) doe ltac:(lia) ltac:(lia)) as H1.
    pose proof (year_scale_mono doe (year_start (k + 1) - 1) ltac:(lia) ltac:(lia)) as H2.
    apply (Z.div_le_mono _ _ 365) in H1; [|lia]. apply (Z.div_le_mono _ _ 365) in H2; [|lia]. lia.
  - destruct (is_leap (k + 1)); lia.
Qed.

Lemma is_leap_mod y k : is_leap (y + k * 400) = is_leap y.
Proof.
  unfold is_leap.
  replace ((y + k * 400) mod 400) with (y mod 400) by (rewrite Z.mod_add; lia).
  replace (y + k * 400) with (y + (4 * k) * 100) at 2 by lia. rewrite (Z.mod_add _ _ 100) by lia.
  replace (y + k * 400) with (y + (100 * k) * 4) by lia. by rewrite (Z.mod_add _ _ 4) by lia.
Qed.

Lemma month_of_year doy : 0 <= doy <= 365 -> month_table_ok doy = true.
Proof. intros. apply (all_from_spec _ _ doy _ month_tables). lia. Qed.

Lemma civil_from_days_spec z :
  let '(y, m, d) := civil_from_days z in
  days_from_civil y m d = z /\ 1 <= m <= 12 /\ 1 <= d <= days_in m y.
Proof.
  unfold civil_from_days. cbv zeta.
  pose proof (Z.div_mod (z + 719468) 146097 ltac:(lia)) as Hdm.
  pose proof (Z.mod_pos_bound (z + 719468) 146097 ltac:(lia)) as Hb.
  set (e := (z + 719468) / 146097) in *. set (doe := (z + 719468) mod 146097) in *.
  clearbody e doe.
  destruct (year_of_era doe Hb) as (k & Hk & Hk400 & Hlo & Hhi).
  fold (year_scale doe). rewrite Hk.
  assert (year_start k = 365 * k + k / 4 - k / 100) as Hstart
    by (unfold year_start; destruct (k =? 400) eqn:E; [lia|done]).
  rewrite <- Hstart. set (doy := doe - year_start k) in *.
  assert (0 <= doy <= 365) as Hdoy by (subst doy; destruct (is_leap (k + 1)); lia).
  pose proof (month_of_year doy Hdoy) as Hm. unfold month_table_ok in Hm. cbv zeta in Hm.
  set (mp := (5 * doy + 2) / 153) in *. clearbody mp.
  set (m := if mp <? 10 then mp + 3 else mp - 9) in *. clearbody m.
  rewrite !andb_true_iff in Hm. destruct Hm as ((((Hmp & Hm1) & Hm12) & Hd1) & Hdlen).
  assert ((if m <=? 2 then k + e * 400 + (if m <=? 2 then 1 else 0) - 1
           else k + e * 400 + (if m <=? 2 then 1 else 0)) = k + e * 400) as Hy
    by (destruct (m <=? 2); lia).
  split; [|split; [lia|split; [lia|]]].
  - unfold days_from_civil. rewrite Hy.
    replace ((k + e * 400) / 400) with e by (rewrite Z.div_add, Z.div_small; lia).
    replace ((k + e * 400) mod 400) with k by (rewrite Z.mod_add, Z.mod_small; lia).
    apply Z.eqb_eq in Hmp. rewrite Hmp. lia.
  - unfold days_in in *. destruct (m =? 2) eqn:E2; [|lia].
    replace (m <=? 2) with true by lia.
    replace (k + e * 400 + 1) with (k + 1 + e * 400) by lia. rewrite is_leap_mod.
    destruct (is_leap (k + 1)); [destruct (doy =? 365); lia|].
    destruct (doy =? 365) eqn:E3; lia.
Qed.

Lemma days_from_civil_add y m d n :
  days_from_civil y m (d + n) = days_from_civil y m d + n.
Proof. unfold days_from_civil. lia. Qed.

Lemma date_of_civil l z n h mi s ns :
  (let '(y, m, d) := civil_from_days z in date l y m (d + n) h mi s ns) = time_of_clock l (z + n) h mi s ns.
Proof.
  pose proof (civil_from_days_spec z) as Hs. destruct (civil_from_days z) as [[y m] d].
  unfold date. rewrite days_from_civil_add. by destruct Hs as [-> _].
Qed.

Lemma date_of_civil_0 l z h mi s ns :
  (let '(y, m, d) := civil_from_days z in date l y m d h mi s ns) = time_of_clock l z h mi s ns.
Proof.
  pose proof (civil_from_days_spec z) as Hs. destruct (civil_from_days z) as [[y m] d].
  unfold date. by destruct Hs as [-> _].
Qed.

Lemma clock_split s : 0 <= s < seconds_per_day ->
  s / 3600 * 3600 + s / 60 mod 60 * 60 + s mod 60 = s.
Proof.
  unfold seconds_per_day. intros. Z.to_euclidean_division_equations. lia.
Qed.

(** [AddDate(0, 0, n)] in terms of day numbers. *)
Lemma add_days_eq l t n :
  add_days l t n =
  resolve_local l ((local_day l t + n) * seconds_per_day + local_second_of_day l t) * Second + nanosecond t.
Proof.
  unfold add_days, local_date.
  rewrite (date_of_civil l (local_day l t) n). unfold time_of_clock.
  pose proof (clock_split (local_second_of_day l t)
    ltac:(unfold local_second_of_day, seconds_per_day; apply Z.mod_pos_bound; lia)).
  do 3 f_equal. lia.
Qed.

Lemma unix_of_clock l n h mi s : 
  unix (time_of_clock l n h mi s 0) = resolve_local l (n * seconds_per_day + h * 3600 + mi * 60 + s).
Proof. unfold unix, time_of_clock. rewrite Z.add_0_r, Z.div_mul; [done|]. unfold Second. lia. Qed.

Lemma nanosecond_of_clock l n h mi s : nanosecond (time_of_clock l n h mi s 0) = 0.
Proof. unfold nanosecond, time_of_clock. rewrite Z.add_0_r. apply Z.mod_mul. unfold Second. lia. Qed.

(** ** Midnights of a location whose days all begin at 00:00 *)
Section civil_days.
Context (l : location) (Hl : civil_days l).

Lemma local_day_day_start n : local_day l (day_start l n) = n.
Proof.
  unfold local_day. rewrite (cd_midnight l Hl). apply Z.div_mul. unfold seconds_per_day. lia.
Qed.

Lemma second_of_day_day_start n : local_second_of_day l (day_start l n) = 0.
Proof.
  unfold local_second_of_day. rewrite (cd_midnight l Hl). apply Z.mod_mul. unfold seconds_per_day. lia.
Qed.

Lemma add_days_day_start n k : add_days l (day_start l n) k = day_start l (n + k).
Proof.
  rewrite add_days_eq, local_day_day_start, second_of_day_day_start.
  unfold day_start at 1. rewrite nanosecond_of_clock. unfold day_start, time_of_clock.
  do 3 f_equal. lia.
Qed.

Lemma weekday_day_start n : weekday l (day_start l n) = weekday_of_days n.
Proof. unfold weekday. by rewrite local_day_day_start. Qed.

Lemma date_key_day_start n : date_key l (day_start l n) = date_text (civil_from_days n).
Proof. unfold date_key, local_date. by rewrite local_day_day_start. Qed.

Lemma day_start_lt_iff n m : day_start l n < day_start l m <-> n < m.
Proof.
  split; [|apply (cd_increasing l Hl)].
  intros Hlt. destruct (Z.lt_trichotomy n m) as [?|[->|Hgt]]; [done|lia|].
  pose proof (cd_increasing l Hl _ _ Hgt). lia.
Qed.
End civil_days.

(** Fixed offsets, UTC among them, have midnight every day. *)
Lemma resolve_fixed off wall : - seconds_per_day < off < seconds_per_day ->
  is_int64 wall -> is_int64 (wall - off) -> resolve_local (fixed_zone off) wall = wall - off.
Proof.
  intros Ho Hw Hu. unfold resolve_local. simpl.
  destruct (off =? 0) eqn:E; [lia|].
  by destruct (_ || _).
Qed.

Lemma resolve_UTC wall : resolve_local UTC wall = wall.
Proof. reflexivity. Qed.

Lemma UTC_civil_days : civil_days UTC.
Proof.
  assert (forall n, day_start UTC n = n * seconds_per_day * Second) as Hs.
  { intros n. unfold day_start, time_of_clock. rewrite resolve_UTC. lia. }
  split.
  - intros n. rewrite Hs. unfold local_seconds, zone_offset, unix. simpl.
    rewrite Z.div_mul by (unfold Second; lia). lia.
  - intros n m Hnm. rewrite !Hs. unfold seconds_per_day, Second. lia.
Qed.

Lemma UTC_day_end t : t < day_start UTC (local_day UTC t + 1).
Proof.
  unfold day_start, time_of_clock. rewrite resolve_UTC.
  unfold local_day, local_seconds, zone_offset, unix. simpl. rewrite Z.add_0_r.
  pose proof (Z.mod_pos_bound t Second ltac:(done)). pose proof (Z.div_mod t Second ltac:(done)).
  rewrite Z.add_0_r. set (s := t / Second) in *.
  pose proof (Z.mod_pos_bound s seconds_per_day ltac:(done)).
  pose proof (Z.div_mod s seconds_per_day ltac:(done)). rewrite !Z.mul_0_l, !Z.add_0_r.
  unfold Second, seconds_per_day in *. lia.
Qed.

(** ** Texts of dates *)
Lemma small_digit d : 0 <= d <= 9 ->
  d = 0 \/ d = 1 \/ d = 2 \/ d = 3 \/ d = 4 \/ d = 5 \/ d = 6 \/ d = 7 \/ d = 8 \/ d = 9.
Proof. lia. Qed.

Lemma digit_val_char d : 0 <= d <= 9 -> digit_val (digit_char d) = Some d.
Proof. intros H%small_digit. by repeat (destruct H as [->|H]); [..|subst]. Qed.

Lemma digit_compare a b : 0 <= a <= 9 -> 0 <= b <= 9 ->
  Ascii.compare (digit_char a) (digit_char b) = (a ?= b).
Proof.
  intros Ha%small_digit Hb%small_digit.
  repeat (destruct Ha as [->|Ha]); subst;
    repeat (destruct Hb as [->|Hb]); subst; reflexivity.
Qed.

Lemma tens_digit n : 0 <= n <= 99 -> 0 <= n / 10 mod 10 <= 9 /\ n = 10 * (n / 10 mod 10) + n mod 10.
Proof. intros. Z.to_euclidean_division_equations. lia. Qed.
Lemma unit_digit n : 0 <= n mod 10 <= 9.
Proof. pose proof (Z.mod_pos_bound n 10). lia. Qed.

Lemma two_digits_pad n lo hi : 0 <= lo <= n -> n <= hi <= 99 ->
  two_digits (digit_char (n / 10 mod 10)) (digit_char (n mod 10)) lo hi = Some n.
Proof.
  intros Hlo Hhi. unfold two_digits.
  destruct (tens_digit n ltac:(lia)) as [Ht Hn].
  rewrite !digit_val_char by (done || apply unit_digit). rewrite <- Hn.
  replace (lo <=? n) with true by lia. by replace (n <=? hi) with true by lia.
Qed.

Lemma append_cons c u s : (String c u ++ s = String c (u ++ s))%string.
Proof. reflexivity. Qed.
Lemma append_empty s : ("" ++ s = s)%string.
Proof. reflexivity. Qed.

Lemma compare_pad2 a b s t : 0 <= a <= 99 -> 0 <= b <= 99 ->
  String.compare (pad2 a ++ s) (pad2 b ++ t) =
  match a ?= b with Eq => String.compare s t | c => c end.
Proof.
  intros Ha Hb. destruct (tens_digit a Ha) as [Hta Hea], (tens_digit b Hb) as [Htb Heb].
  pose proof (unit_digit a). pose proof (unit_digit b).
  unfold pad2. rewrite !append_cons, !append_empty. cbn [String.compare].
  rewrite !digit_compare by done.
  destruct (a / 10 mod 10 ?= b / 10 mod 10) eqn:E1.
  - apply Z.compare_eq in E1. destruct (a mod 10 ?= b mod 10) eqn:E2.
    + apply Z.compare_eq in E2. assert (a = b) as -> by lia. by rewrite Z.compare_refl.
    + assert (a < b) as Hlt by (rewrite Z.compare_lt_iff in E2; lia). apply Z.compare_lt_iff in Hlt. by rewrite Hlt.
    + assert (a > b) as Hgt by (rewrite Z.compare_gt_iff in E2; lia). unfold Z.gt in Hgt. by rewrite Hgt.
  - rewrite Z.compare_lt_iff in E1.
    assert (a < b) as Hlt by lia. apply Z.compare_lt_iff in Hlt. by rewrite Hlt.
  - rewrite Z.compare_gt_iff in E1.
    assert (a > b) as Hgt by lia. unfold Z.gt in Hgt. by rewrite Hgt.
Qed.

Lemma compare_pad2_end a b : 0 <= a <= 99 -> 0 <= b <= 99 ->
  String.compare (pad2 a) (pad2 b) = (a ?= b).
Proof.
  intros Ha Hb. change (pad2 a) with (pad2 a ++ "")%string. change (pad2 b) with (pad2 b ++ "")%string.
  rewrite compare_pad2 by done. by destruct (a ?= b).
Qed.

Lemma compare_dash s t : String.compare ("-" ++ s) ("-" ++ t) = String.compare s t.
Proof. reflexivity. Qed.

Lemma append_assoc' (a b c : string) : ((a ++ b) ++ c = a ++ (b ++ c))%string.
Proof. induction a as [|x a IH]; [done|]. rewrite !append_cons. by rewrite IH. Qed.

Lemma compare_pad4 a b s t : 0 <= a <= 9999 -> 0 <= b <= 9999 ->
  String.compare (pad4 a ++ s) (pad4 b ++ t) =
  match a ?= b with Eq => String.compare s t | c => c end.
Proof.
  intros Ha Hb. unfold pad4. rewrite !append_assoc'.
  assert (forall z, 0 <= z <= 9999 -> 0 <= z / 100 <= 99 /\ 0 <= z mod 100 <= 99 /\ z = 100 * (z / 100) + z mod 100) as Hz
    by (intros; Z.to_euclidean_division_equations; lia).
  destruct (Hz a Ha) as (Ha1 & Ha2 & Hea), (Hz b Hb) as (Hb1 & Hb2 & Heb).
  rewrite compare_pad2 by done.
  destruct (a / 100 ?= b / 100) eqn:E1.
  - rewrite compare_pad2 by done. apply Z.compare_eq in E1.
    replace (a ?= b) with (a mod 100 ?= b mod 100); [done|].
    rewrite Hea at 2. rewrite Heb at 2. rewrite E1. symmetry. apply Z.add_compare_mono_l.
  - rewrite Z.compare_lt_iff in E1.
    assert (a < b) as Hlt by lia. apply Z.compare_lt_iff in Hlt. by rewrite Hlt.
  - rewrite Z.compare_gt_iff in E1.
    assert (a > b) as Hgt by lia. unfold Z.gt in Hgt. by rewrite Hgt.
Qed.

(** Months follow each other: [month_start y i] is the first day of month
    [i + 1] of year [y], the 12th index being next January. *)
Lemma leap_year_step y :
  y / 400 * 146097 + (y mod 400 * 365 + y mod 400 / 4 - y mod 400 / 100) =
  (y - 1) / 400 * 146097 + ((y - 1) mod 400 * 365 + (y - 1) mod 400 / 4 - (y - 1) mod 400 / 100) +
  365 + (if is_leap y then 1 else 0).
Proof.
  assert (forall z, z / 400 * 146097 + (z mod 400 * 365 + z mod 400 / 4 - z mod 400 / 100) =
          365 * z + z / 4 - z / 100 + z / 400) as Hz.
  { intros z. Z.to_euclidean_division_equations. lia. }
  rewrite !Hz. unfold is_leap.
  assert (y / 4 - (y - 1) / 4 = if y mod 4 =? 0 then 1 else 0) as H4.
  { destruct (y mod 4 =? 0) eqn:E; Z.to_euclidean_division_equations; lia. }
  assert (y / 100 - (y - 1) / 100 = if y mod 100 =? 0 then 1 else 0) as H100.
  { destruct (y mod 100 =? 0) eqn:E; Z.to_euclidean_division_equations; lia. }
  assert (y / 400 - (y - 1) / 400 = if y mod 400 =? 0 then 1 else 0) as H400.
  { destruct (y mod 400 =? 0) eqn:E; Z.to_euclidean_division_equations; lia. }
  assert (y mod 100 = 0 -> y mod 4 = 0) by (Z.to_euclidean_division_equations; lia).
  assert (y mod 400 = 0 -> y mod 100 = 0) by (Z.to_euclidean_division_equations; lia).
  destruct (y mod 4 =? 0) eqn:E4, (y mod 100 =? 0) eqn:E100, (y mod 400 =? 0) eqn:E400; simpl; lia.
Qed.

Lemma month_length y m : 1 <= m <= 11 ->
  days_from_civil y (m + 1) 1 = days_from_civil y m 1 + days_in m y.
Proof.
  intros Hm. assert (m = 1 \/ m = 2 \/ 3 <= m <= 11) as [->|[->|Hm']] by lia.
  - change (days_in 1 y) with 31. unfold days_from_civil.
    change (1 <=? 2) with true. change (1 + 1 <=? 2) with true. cbv iota zeta.
    change ((1 + 9) mod 12) with 10. change ((1 + 1 + 9) mod 12) with 11.
    change ((153 * 11 + 2) / 5) with 337. change ((153 * 10 + 2) / 5) with 306. lia.
  - unfold days_in. change (2 =? 2) with true. cbv iota. unfold days_from_civil.
    change (2 <=? 2) with true. change (2 + 1 <=? 2) with false. cbv iota zeta.
    change ((2 + 9) mod 12) with 11. change ((2 + 1 + 9) mod 12) with 0.
    change ((153 * 11 + 2) / 5) with 337. change ((153 * 0 + 2) / 5) with 0.
    pose proof (leap_year_step y) as Hs. destruct (is_leap y); lia.
  - unfold days_from_civil. replace (m <=? 2) with false by lia. replace (m + 1 <=? 2) with false by lia.
    assert (m = 3 \/ m = 4 \/ m = 5 \/ m = 6 \/ m = 7 \/ m = 8 \/ m = 9 \/ m = 10 \/ m = 11) as Hc by lia.
    cbv zeta. destruct Hc as [->|[->|[->|[->|[->|[->|[->|[->| ->]]]]]]]];
      match goal with |- context [days_in ?k ?y] =>
        let v := eval vm_compute in (days_in k 0) in change (days_in k y) with v end;
      repeat match goal with |- context [(153 * ?e + 2) / 5] =>
        let v := eval vm_compute in ((153 * e + 2) / 5) in change ((153 * e + 2) / 5) with v end; lia.
Qed.

Lemma december_length y : days_from_civil (y + 1) 1 1 = days_from_civil y 12 1 + 31.
Proof.
  unfold days_from_civil. change (1 <=? 2) with true. change (12 <=? 2) with false. cbv iota zeta.
  replace (y + 1 - 1) with y by lia.
  change ((153 * ((1 + 9) mod 12) + 2) / 5) with 306. change ((153 * ((12 + 9) mod 12) + 2) / 5) with 275. lia.
Qed.

Lemma days_in_bounds m y : 28 <= days_in m y <= 31.
Proof. unfold days_in. destruct (m =? 2); [destruct (is_leap y); lia|]. destruct (_ || _); lia. Qed.

(** Months counted from year 0; [month_first] is the first day of the month. *)
Definition month_first (i : Z) : Z := days_from_civil (i / 12) (i mod 12 + 1) 1.

Lemma month_first_step i : month_first (i + 1) = month_first i + days_in (i mod 12 + 1) (i / 12).
Proof.
  unfold month_first. destruct (decide (i mod 12 = 11)) as [E|E].
  - assert ((i + 1) / 12 = i / 12 + 1) as -> by (Z.to_euclidean_division_equations; lia).
    assert ((i + 1) mod 12 = 0) as -> by (Z.to_euclidean_division_equations; lia).
    rewrite E. apply december_length.
  - assert ((i + 1) / 12 = i / 12) as -> by (Z.to_euclidean_division_equations; lia).
    assert ((i + 1) mod 12 = i mod 12 + 1) as -> by (Z.to_euclidean_division_equations; lia).
    apply month_length. pose proof (Z.mod_pos_bound i 12). lia.
Qed.

Lemma month_first_mono i k : 0 <= k -> month_first i + k <= month_first (i + k).
Proof.
  intros Hk. pattern k. apply natlike_ind; [rewrite !Z.add_0_r; lia| |done].
  intros x Hx IH. replace (i + Z.succ x) with (i + x + 1) by lia. rewrite month_first_step.
  pose proof (days_in_bounds ((i + x) mod 12 + 1) ((i + x) / 12)). lia.
Qed.

Lemma month_first_civil y m d : 1 <= m <= 12 ->
  days_from_civil y m d = month_first (12 * y + (m - 1)) + (d - 1).
Proof.
  intros Hm. unfold month_first.
  replace ((12 * y + (m - 1)) / 12) with y by (Z.to_euclidean_division_equations; lia).
  replace ((12 * y + (m - 1)) mod 12 + 1) with m by (Z.to_euclidean_division_equations; lia).
  rewrite <- days_from_civil_add. f_equal. lia.
Qed.

Lemma civil_lt_days y m d y' m' d' :
  1 <= m <= 12 -> 1 <= m' <= 12 -> 1 <= d <= days_in m y -> 1 <= d' ->
  12 * y + m < 12 * y' + m' ->
  days_from_civil y m d < days_from_civil y' m' d'.
Proof.
  intros Hm Hm' Hd Hd' Hlt. rewrite !month_first_civil by done.
  pose proof (month_first_step (12 * y + (m - 1))) as Hs.
  replace ((12 * y + (m - 1)) / 12) with y in Hs by (Z.to_euclidean_division_equations; lia).
  replace ((12 * y + (m - 1)) mod 12 + 1) with m in Hs by (Z.to_euclidean_division_equations; lia).
  pose proof (month_first_mono (12 * y + (m - 1) + 1) (12 * y' + (m' - 1) - (12 * y + (m - 1) + 1)) ltac:(lia)) as Hmono.
  replace (12 * y + (m - 1) + 1 + (12 * y' + (m' - 1) - (12 * y + (m - 1) + 1))) with (12 * y' + (m' - 1)) in Hmono by lia.
  lia.
Qed.

Definition four_digit_year (n : Z) : Prop :=
  let '(y, _, _) := civil_from_days n in 0 <= y <= 9999.

Lemma year_text_pad4 y : 0 <= y <= 9999 -> year_text y = pad4 y.
Proof.
  intros. unfold year_text. rewrite Z.abs_eq by lia.
  replace (y <? 0) with false by lia. by replace (y <=? 9999) with true by lia.
Qed.

(** Day keys sort like the days they name. *)
Lemma compare_date_text n m : four_digit_year n -> four_digit_year m ->
  String.compare (date_text (civil_from_days n)) (date_text (civil_from_days m)) = (n ?= m).
Proof.
  unfold four_digit_year, date_text. intros Hy Hy'.
  pose proof (civil_from_days_spec n) as Hn. pose proof (civil_from_days_spec m) as Hm.
  destruct (civil_from_days n) as [[y mo] d], (civil_from_days m) as [[y' mo'] d'].
  destruct Hn as (Hn & Hmo & Hd), Hm as (Hm & Hmo' & Hd').
  pose proof (days_in_bounds mo y). pose proof (days_in_bounds mo' y').
  rewrite !year_text_pad4, compare_pad4, compare_dash, compare_pad2, compare_dash by lia.
  rewrite compare_pad2_end by lia.
  destruct (y ?= y') eqn:Ey; [apply Z.compare_eq in Ey; subst y'|rewrite Z.compare_lt_iff in Ey|rewrite Z.compare_gt_iff in Ey].
  - destruct (mo ?= mo') eqn:Em; [apply Z.compare_eq in Em; subst mo'|rewrite Z.compare_lt_iff in Em|rewrite Z.compare_gt_iff in Em].
    + rewrite <- Hn, <- Hm, !month_first_civil, Z.add_compare_mono_l by done.
      replace (d - 1) with (-1 + d) by lia. replace (d' - 1) with (-1 + d') by lia.
      rewrite Z.add_compare_mono_l. done.
    + symmetry. apply Z.compare_lt_iff. rewrite <- Hn, <- Hm. apply civil_lt_days; lia.
    + symmetry. apply Z.compare_gt_iff. rewrite <- Hn, <- Hm. apply civil_lt_days; lia.
  - symmetry. apply Z.compare_lt_iff. rewrite <- Hn, <- Hm. apply civil_lt_days; lia.
  - symmetry. apply Z.compare_gt_iff. rewrite <- Hn, <- Hm. apply civil_lt_days; lia.
Qed.

Lemma date_text_inj n m : four_digit_year n -> four_digit_year m ->
  date_text (civil_from_days n) = date_text (civil_from_days m) -> n = m.
Proof.
  intros Hn Hm E. apply Z.compare_eq_iff. rewrite <- compare_date_text, E by done.
  rewrite compare_date_text by done. apply Z.compare_refl.
Qed.

(** ** RFC 3339 *)
Definition is_digit (d : Z) : Prop := 0 <= d <= 9.

Lemma digits_are_digits k n : Forall is_digit (digits k n).
Proof.
  induction k as [|k IH]; simpl; [constructor|constructor; [|done]].
  unfold is_digit. pose proof (Z.mod_pos_bound (n / 10 ^ Z.of_nat k) 10). lia.
Qed.

Lemma trim_zeros_digits ds : Forall is_digit ds -> Forall is_digit (trim_zeros ds).
Proof.
  induction 1 as [|d ds Hd _ IH]; simpl; [constructor|].
  destruct (trim_zeros ds) as [|e es]; [destruct (d =? 0)|]; auto.
Qed.

Lemma nanos_trim k ds : nanos_of_digits k (trim_zeros ds) = nanos_of_digits k ds.
Proof.
  revert k. induction ds as [|d ds IH]; intros k; [by destruct k|].
  simpl. destruct (trim_zeros ds) as [|e es] eqn:E.
  - destruct k as [|k]; [by destruct (d =? 0)|].
    assert (nanos_of_digits k ds = 0) as H0 by (rewrite <- IH; by destruct k).
    destruct (d =? 0) eqn:Ed; cbn [nanos_of_digits]; [|destruct k]; simpl in *; lia.
  - destruct k as [|k]; [done|]. cbn [nanos_of_digits]. by rewrite <- IH.
Qed.

Lemma nanos_of_digits_digits k n : nanos_of_digits k (digits k n) = n mod 10 ^ Z.of_nat k.
Proof.
  induction k as [|k IH]; [by rewrite Z.mod_1_r|].
  cbn [digits nanos_of_digits]. rewrite IH, Nat2Z.inj_succ, Z.pow_succ_r by lia.
  rewrite (Z.mul_comm 10), Z.rem_mul_r by lia. lia.
Qed.

Lemma span_digits_text ds c s : Forall is_digit ds -> digit_val c = None ->
  span_digits (digits_text ds ++ String c s) = (ds, String c s).
Proof.
  intros Hds Hc. induction Hds as [|d ds Hd _ IH].
  - cbn [digits_text]. rewrite append_empty. cbn [span_digits]. by rewrite Hc.
  - cbn [digits_text]. rewrite append_cons. cbn [span_digits].
    rewrite (digit_val_char d Hd), IH. reflexivity.
Qed.

Lemma parse_fraction_text ns : 0 <= ns < Second ->
  parse_fraction (fraction_text ns ++ "Z") = (ns, "Z"%string).
Proof.
  intros Hns. unfold fraction_text.
  assert (nanos_of_digits 9 (trim_zeros (digits 9 ns)) = ns) as Hv.
  { rewrite nanos_trim, nanos_of_digits_digits. apply Z.mod_small. unfold Second in Hns. lia. }
  pose proof (trim_zeros_digits _ (digits_are_digits 9 ns)) as Hd.
  destruct (trim_zeros (digits 9 ns)) as [|d ds]; [change (0 = ns) in Hv; rewrite <- Hv; reflexivity|].
  rewrite append_cons. unfold parse_fraction. change (Ascii.eqb "." ".") with true. cbv iota.
  rewrite span_digits_text; [|exact Hd|reflexivity]. cbv iota. rewrite Hv. reflexivity.
Qed.

Lemma clock_ranges s : 0 <= s < seconds_per_day ->
  0 <= s / 3600 <= 23 /\ 0 <= s / 60 mod 60 <= 59 /\ 0 <= s mod 60 <= 59.
Proof. unfold seconds_per_day. intros. Z.to_euclidean_division_equations. lia. Qed.

Lemma parse_format_rfc3339 t : four_digit_year (unix t / seconds_per_day) ->
  parse_rfc3339 (format_rfc3339nano t) = Some t.
Proof.
  unfold four_digit_year, format_rfc3339nano, date_text. intros Hy.
  pose proof (civil_from_days_spec (unix t / seconds_per_day)) as Hc.
  destruct (civil_from_days (unix t / seconds_per_day)) as [[y m] d].
  destruct Hc as (Hc & Hm & Hd). pose proof (days_in_bounds m y).
  pose proof (Z.mod_pos_bound (unix t) seconds_per_day ltac:(done)) as Hs.
  set (s := unix t mod seconds_per_day) in *.
  destruct (clock_ranges s Hs) as (Hh & Hmi & Hse).
  assert (0 <= nanosecond t < Second) as Hns by (apply Z.mod_pos_bound; done).
  rewrite year_text_pad4 by done. unfold pad4, pad2.
  repeat (rewrite append_assoc' || rewrite append_cons || rewrite append_empty).
  unfold parse_rfc3339.
  rewrite !two_digits_pad by (Z.to_euclidean_division_equations; lia). cbn [mbind option_bind].
  replace (100 * (y / 100) + y mod 100) with y by (Z.to_euclidean_division_equations; lia).
  rewrite !two_digits_pad by lia. cbn [mbind option_bind].
  simpl (_ && _). cbv iota. rewrite parse_fraction_text by done. cbv iota.
  change (parse_zone "Z") with (Some 0). cbn [mbind option_bind]. f_equal.
  unfold date, time_of_clock. rewrite Hc, resolve_UTC.
  pose proof (clock_split s Hs).
  replace (unix t / seconds_per_day * seconds_per_day + s / 3600 * 3600 + s / 60 mod 60 * 60 + s mod 60) with (unix t).
  - unfold unix, nanosecond. pose proof (Z.div_mod t Second ltac:(done)). lia.
  - subst s. pose proof (Z.div_mod (unix t) seconds_per_day ltac:(done)). lia.
Qed.
