(* ===== verification/GoString.v ===== *)
(** Go's [strings], [unicode], [unicode/utf8] and [encoding/hex] functions as
    the source uses them.  A Go string is its sequence of bytes. *)
From S2P Require Import Prelude.
From Stdlib Require Import Ascii Wf_nat.

Fixpoint bytes (s : string) : list Z :=
  match s with
  | EmptyString => []
  | String c s' => Z.of_nat (nat_of_ascii c) :: bytes s'
  end.
Fixpoint of_bytes (bs : list Z) : string :=
  match bs with
  | [] => EmptyString
  | b :: bs' => String (ascii_of_nat (Z.to_nat b)) (of_bytes bs')
  end.
Definition len (s : string) : Z := Z.of_nat (String.length s).

(** ** UTF-8

    [decode_rune] is [utf8.DecodeRune]: the rune and the number of bytes it
    takes; an invalid byte is the rune U+FFFD of width 1. *)
Definition between (lo hi x : Z) : bool := (lo <=? x) && (x <=? hi).
Definition continuation (b : Z) : bool := between 128 191 b.
Definition RuneError : Z := 65533.

Definition decode_rune (b0 : Z) (rest : list Z) : Z * nat * bool :=
  let bad := (RuneError, 1%nat, false) in
  if b0 <? 128 then (b0, 1%nat, true)
  else if between 194 223 b0 then
    match rest with
    | b1 :: _ => if continuation b1 then ((b0 - 192) * 64 + (b1 - 128), 2%nat, true) else bad
    | _ => bad
    end
  else if between 224 239 b0 then
    match rest with
    | b1 :: b2 :: _ =>
      if between (if b0 =? 224 then 160 else 128) (if b0 =? 237 then 159 else 191) b1 && continuation b2
      then ((b0 - 224) * 4096 + (b1 - 128) * 64 + (b2 - 128), 3%nat, true) else bad
    | _ => bad
    end
  else if between 240 244 b0 then
    match rest with
    | b1 :: b2 :: b3 :: _ =>
      if between (if b0 =? 240 then 144 else 128) (if b0 =? 244 then 143 else 191) b1
         && continuation b2 && continuation b3
      then ((b0 - 240) * 262144 + (b1 - 128) * 4096 + (b2 - 128) * 64 + (b3 - 128), 4%nat, true) else bad
    | _ => bad
    end
  else bad.

(** The runes of a text with the bytes each takes; a rune takes at least one
    byte, so the length of the text is enough fuel. *)
Fixpoint rune_chunks (fuel : nat) (bs : list Z) : list (Z * bool * list Z) :=
  match fuel, bs with
  | S fuel', b0 :: rest =>
    let '(r, w, valid) := decode_rune b0 rest in
    (r, valid, take w bs) :: rune_chunks fuel' (drop w bs)
  | _, _ => []
  end.
Definition chunks (s : string) : list (Z * bool * list Z) := rune_chunks (String.length s) (bytes s).
(** [for _, r := range s]. *)
Definition runes (s : string) : list Z := map (fun c => fst (fst c)) (chunks s).
Definition valid_utf8 (s : string) : bool := forallb (fun c => snd (fst c)) (chunks s).
Definition rune_count (s : string) : Z := Z.of_nat (length (chunks s)).

(** ** Classes of runes *)
Definition is_control (r : Z) : bool := between 0 31 r || between 127 159 r.
Definition is_space (r : Z) : bool :=
  between 9 13 r || (r =? 32) || (r =? 133) || (r =? 160) || (r =? 5760) || between 8192 8202 r ||
  (r =? 8232) || (r =? 8233) || (r =? 8239) || (r =? 8287) || (r =? 12288).

Fixpoint drop_spaces (cs : list (Z * bool * list Z)) : list (Z * bool * list Z) :=
  match cs with
  | (r, v, bs) :: cs' => if is_space r then drop_spaces cs' else cs
  | [] => []
  end.
Definition trim_space (s : string) : string :=
  of_bytes (concat (map snd (rev (drop_spaces (rev (drop_spaces (chunks s))))))).
(** [strings.TrimSpace(s) == ""]. *)
Definition is_blank (s : string) : bool := String.eqb (trim_space s) "".

(** ** Prefixes, suffixes, characters *)
Definition has_prefix (p s : string) : bool := String.prefix p s.
Definition trim_prefix (p s : string) : string :=
  if has_prefix p s then String.substring (String.length p) (String.length s - String.length p) s else s.
Fixpoint is_prefix (p s : list Z) : bool :=
  match p, s with
  | [], _ => true
  | x :: p', y :: s' => (x =? y) && is_prefix p' s'
  | _ :: _, [] => false
  end.
Definition has_suffix (p s : string) : bool := is_prefix (rev (bytes p)) (rev (bytes s)).
Definition trim_suffix (p s : string) : string :=
  if has_suffix p s then of_bytes (take (String.length s - String.length p) (bytes s)) else s.
(** [strings.ContainsAny] for sets of ASCII characters. *)
Definition contains_any (set : string) (s : string) : bool :=
  existsb (fun b => existsb (Z.eqb b) (bytes set)) (bytes s).

(** [strings.Contains], [strings.Cut], [strings.Split] at a byte, and
    [strings.ReplaceAll] of a byte. *)
Fixpoint contains (needle s : string) : bool :=
  has_prefix needle s || match s with EmptyString => false | String _ s' => contains needle s' end.
Fixpoint cut_text (sep s : string) : option (string * string) :=
  if has_prefix sep s then Some (EmptyString, trim_prefix sep s)
  else match s with
       | EmptyString => None
       | String c s' => match cut_text sep s' with Some (before, after) => Some (String c before, after) | None => None end
       end.
Fixpoint split_at (sep : ascii) (s : string) : list string :=
  match s with
  | EmptyString => [EmptyString]
  | String c s' =>
    if Ascii.eqb c sep then EmptyString :: split_at sep s'
    else match split_at sep s' with first :: rest => String c first :: rest | [] => [String c EmptyString] end
  end.
Fixpoint replace_byte (old : ascii) (new : string) (s : string) : string :=
  match s with
  | EmptyString => EmptyString
  | String c s' => ((if Ascii.eqb c old then new else String c EmptyString) ++ replace_byte old new s')%string
  end.

(** ** Hexadecimal *)
Definition hex_val (b : Z) : option Z :=
  if between 48 57 b then Some (b - 48)
  else if between 97 102 b then Some (b - 87)
  else if between 65 70 b then Some (b - 55)
  else None.
Fixpoint hex_decode (bs : list Z) : option (list Z) :=
  match bs with
  | [] => Some []
  | a :: b :: bs' =>
    x ← hex_val a; y ← hex_val b; zs ← hex_decode bs'; Some (16 * x + y :: zs)
  | _ => None
  end.
(** [strings.ToLower] on ASCII texts. *)
Definition lower_byte (b : Z) : Z := if between 65 90 b then b + 32 else b.
Definition is_lower (bs : list Z) : bool := forallb (fun b => lower_byte b =? b) bs.

Definition lower_hex (b : Z) : bool := between 48 57 b || between 97 102 b.

(** ** Facts *)
Lemma bytes_length s : length (bytes s) = String.length s.
Proof. induction s as [|c s IH]; simpl; congruence. Qed.

Lemma bytes_range s : Forall (fun b => 0 <= b < 256) (bytes s).
Proof.
  induction s as [|c s IH]; simpl; constructor; [|done].
  pose proof (nat_ascii_bounded c). lia.
Qed.

(** On ASCII texts the runes are the bytes. *)
Lemma rune_chunks_ascii n bs : Forall (fun b => 0 <= b < 128) bs -> (length bs <= n)%nat ->
  rune_chunks n bs = map (fun b => (b, true, [b])) bs.
Proof.
  intros H. revert n. induction H as [|b bs Hb _ IH]; intros n Hn; [by destruct n|].
  destruct n as [|n]; simpl in Hn; [lia|]. simpl. unfold decode_rune.
  replace (b <? 128) with true by lia. simpl. rewrite drop_0, take_0. f_equal. apply IH. lia.
Qed.

Lemma runes_ascii s : Forall (fun b => 0 <= b < 128) (bytes s) -> runes s = bytes s.
Proof.
  intros H. unfold runes, chunks. rewrite rune_chunks_ascii; [|done|by rewrite bytes_length].
  rewrite map_map. apply map_id.
Qed.

(** A text all of whose runes are ASCII has ASCII bytes. *)
Lemma rune_chunks_ascii_inv n bs (P : Z -> Prop) :
  (forall r, P r -> r < 128) ->
  Forall (fun b => 0 <= b < 256) bs -> (length bs <= n)%nat ->
  Forall P (map (fun c => fst (fst c)) (rune_chunks n bs)) -> Forall (fun b => 0 <= b < 128) bs /\ Forall P bs.
Proof.
  intros HP. revert bs. induction n as [|n IH]; intros bs Hr Hn H.
  { destruct bs; [split; constructor|simpl in Hn; lia]. }
  destruct bs as [|b bs]; [split; constructor|].
  simpl in H. destruct (decode_rune b bs) as [[r w] v] eqn:E. simpl in H.
  apply Forall_cons in H as [Hrr Hrest]. apply Forall_cons in Hr as [Hb Hbs].
  assert (b < 128) as Hlt.
  { pose proof (HP _ Hrr) as Hr128. destruct (decide (b < 128)) as [|Hge]; [done|exfalso].
    unfold decode_rune, continuation, between, RuneError in E.
    replace (b <? 128) with false in E by lia.
    repeat (case_match; simplify_eq/=; try lia). }
  unfold decode_rune in E. replace (b <? 128) with true in E by lia. simplify_eq.
  simpl in Hrest. rewrite drop_0 in Hrest. destruct (IH bs) as [H1 H2]; [done|simpl in Hn; lia|done|].
  split; constructor; auto; lia.
Qed.

Lemma bytes_app s t : bytes (s ++ t) = bytes s ++ bytes t.
Proof. induction s as [|c s IH]; [done|]. change (String c s ++ t)%string with (String c (s ++ t)). simpl. by rewrite IH. Qed.

Lemma of_bytes_bytes s : of_bytes (bytes s) = s.
Proof. induction s as [|c s IH]; [done|]. simpl. by rewrite Nat2Z.id, ascii_nat_embedding, IH. Qed.

Lemma string_length_app s t : String.length (s ++ t) = (String.length s + String.length t)%nat.
Proof. rewrite <- !bytes_length, bytes_app. apply length_app. Qed.

Lemma is_prefix_app p q : is_prefix p (p ++ q) = true.
Proof. induction p as [|x p IH]; [done|]. simpl. by rewrite Z.eqb_refl, IH. Qed.

Lemma trim_suffix_app s u : trim_suffix u (s ++ u) = s.
Proof.
  unfold trim_suffix, has_suffix. rewrite bytes_app, rev_app_distr, is_prefix_app, string_length_app.
  replace (String.length s + String.length u - String.length u)%nat with (length (bytes s)) by (rewrite bytes_length; lia).
  rewrite take_app_length. apply of_bytes_bytes.
Qed.

Lemma has_suffix_app p s u : has_suffix p (s ++ u) = is_prefix (rev (bytes p)) (rev (bytes u) ++ rev (bytes s)).
Proof. unfold has_suffix. by rewrite bytes_app, rev_app_distr. Qed.

(** Decoding hexadecimal succeeds on an even number of digits. *)
Lemma hex_decode_length bs out : hex_decode bs = Some out -> length bs = (2 * length out)%nat.
Proof.
  revert out. induction bs as [bs IH] using (induction_ltof1 _ (@length Z)). unfold ltof in IH.
  destruct bs as [|a [|b bs]]; intros out H; simpl in H; simplify_eq/=; [done|].
  destruct (hex_val a), (hex_val b), (hex_decode bs) as [zs|] eqn:E; simplify_option_eq.
  simpl. rewrite (IH bs) with (out := zs); [lia|simpl; lia|done].
Qed.

Lemma hex_val_lower b : 0 <= b < 256 -> is_Some (hex_val b) /\ lower_byte b = b <-> lower_hex b = true.
Proof.
  intros _. unfold hex_val, lower_byte, lower_hex, between.
  destruct ((48 <=? b) && (b <=? 57)) eqn:E1, ((97 <=? b) && (b <=? 102)) eqn:E2,
    ((65 <=? b) && (b <=? 70)) eqn:E3, ((65 <=? b) && (b <=? 90)) eqn:E4; simpl;
    split; intros H; try done; try (destruct H as [[? ?] ?]; (done || lia)); split; eauto; lia.
Qed.

Lemma hex_decode_lower bs : Forall (fun b => 0 <= b < 256) bs ->
  (exists out, hex_decode bs = Some out) /\ is_lower bs = true <->
  Nat.even (length bs) = true /\ forallb lower_hex bs = true.
Proof.
  induction bs as [bs IH] using (induction_ltof1 _ (@length Z)). unfold ltof in IH. intros Hr.
  destruct bs as [|a [|b bs]].
  - split; intros _; simpl; split; eauto.
  - simpl. split; [intros [[out Hout] _]; simpl in Hout; done|intros [H _]; done].
  - apply Forall_cons in Hr as [Ha Hr]. apply Forall_cons in Hr as [Hb Hr].
    specialize (IH bs ltac:(simpl; lia) Hr). simpl. rewrite !andb_true_iff.
    pose proof (hex_val_lower a Ha) as Hha. pose proof (hex_val_lower b Hb) as Hhb.
    rewrite !Z.eqb_eq. unfold is_lower in IH. rewrite <- Hha, <- Hhb.
    destruct (hex_val a), (hex_val b), (hex_decode bs) as [zs|]; simpl; unfold is_Some; naive_solver.
Qed.

Definition newline : string := of_bytes [10].

(** ** Slices: [s[:n]] and [s[n:]] *)
Fixpoint string_take (n : nat) (s : string) : string :=
  match n, s with S n', String c s' => String c (string_take n' s') | _, _ => EmptyString end.
Fixpoint string_drop (n : nat) (s : string) : string :=
  match n, s with S n', String _ s' => string_drop n' s' | _, _ => s end.
Definition str_take (n : Z) (s : string) : string := string_take (Z.to_nat n) s.
Definition str_drop (n : Z) (s : string) : string := string_drop (Z.to_nat n) s.

Lemma str_app_cons c s t : (String c s ++ t)%string = String c (s ++ t).
Proof. reflexivity. Qed.
Lemma string_take_drop n s : (string_take n s ++ string_drop n s)%string = s.
Proof. revert s. induction n as [|n IH]; intros [|c s]; [done..|]. cbn [string_take string_drop]. by rewrite str_app_cons, IH. Qed.
Lemma string_take_length n s : String.length (string_take n s) = Nat.min n (String.length s).
Proof. revert s. induction n as [|n IH]; intros [|c s]; [done..|]. cbn. f_equal. apply IH. Qed.
Lemma str_take_drop n s : (str_take n s ++ str_drop n s)%string = s.
Proof. apply string_take_drop. Qed.
Lemma len_take n s : 0 <= n -> len (str_take n s) = Z.min n (len s).
Proof. intros Hn. unfold len, str_take. rewrite string_take_length. lia. Qed.
Lemma len_app s t : len (s ++ t) = len s + len t.
Proof. unfold len. rewrite string_length_app. lia. Qed.
Lemma str_take_all n s : len s <= n -> str_take n s = s.
Proof.
  unfold str_take, len. intros Hn. assert (String.length s <= Z.to_nat n)%nat as Hl by lia. revert Hl. generalize (Z.to_nat n).
  clear. induction s as [|c s IH]; intros [|m] Hl; cbn in *; [done..|lia|]. f_equal. apply IH. lia.
Qed.
Lemma str_app_nil_r s : (s ++ "")%string = s.
Proof. induction s as [|c s IH]; [done|]. by rewrite str_app_cons, IH. Qed.
Lemma str_app_assoc s t u : ((s ++ t) ++ u)%string = (s ++ (t ++ u))%string.
Proof. induction s as [|c s IH]; [done|]. by rewrite !str_app_cons, IH. Qed.
Lemma len_zero s : len s = 0 -> s = ""%string.
Proof. by destruct s. Qed.
Lemma string_take_app m s t : (String.length s <= m)%nat -> string_take m (s ++ t) = (s ++ string_take (m - String.length s) t)%string.
Proof.
  revert m. induction s as [|c s IH]; intros m Hl; [by rewrite Nat.sub_0_r|]. destruct m as [|m]; [cbn in Hl; lia|].
  rewrite !str_app_cons. cbn [string_take String.length Nat.sub]. cbn [String.length] in Hl. by rewrite IH by lia.
Qed.
Lemma str_take_app n s t : len s <= n -> str_take n (s ++ t) = (s ++ str_take (n - len s) t)%string.
Proof.
  unfold len, str_take. intros Hn. rewrite string_take_app by lia. do 2 f_equal. lia.
Qed.
Lemma len_nonneg s : 0 <= len s.
Proof. unfold len. lia. Qed.
