(* ===== verification/Model.v ===== *)
(** The deposit protocol and the records shared by all components
    ([src/internal/model/model.go]): sentinel errors, identifiers, tokens,
    metadata, profiles, sizes, backups, operations, anomalies and checks. *)
From S2P Require Import Prelude GoTime GoString.
From Stdlib Require Import Ascii.

(** ** Errors *)
Inductive err : Type :=
| ErrUnauthorized | ErrQuota | ErrSize | ErrRate | ErrConcurrent | ErrDisk
| ErrIdempotencyConflict | ErrIdempotencyInProgress | ErrIdempotencyUnavailable
| ErrRetentionBlocked | ErrRetentionMinimum | ErrCurrentDay | ErrLastCopy | ErrTooEarly
| ErrTicket | ErrLease
| ErrNoRows                          (* sql.ErrNoRows *)
| ErrConstraint (table : string)     (* an SQLite constraint of the schema *)
| ErrOverflow                        (* SQLite: integer overflow *)
| ErrText (message : string)         (* errors.New, fmt.Errorf without %w *)
| ErrWrap (base : err) (context : string).   (* fmt.Errorf with %w *)

#[global] Instance err_eq_dec : EqDecision err.
Proof. solve_decision. Defined.

Fixpoint errors_is (e target : err) : bool :=
  bool_decide (e = target) ||
  match e with ErrWrap base _ => errors_is base target | _ => false end.

(** ** Constants *)
Definition UploadPath : string := "/v2/backups".
Definition LegacyUploadPath : string := "/v1/backups".
Definition ContentFormatAgeV1 : string := "age-v1".
Definition ValidUploadPath (path : string) : bool :=
  String.eqb path UploadPath || String.eqb path LegacyUploadPath.

(** ** Metadata *)
Record metadata : Type := Metadata {
  Description : string;
  OriginalName : string;
  ContentFormat : string }.

#[global] Instance metadata_eq_dec : EqDecision metadata.
Proof. solve_decision. Defined.

Definition Metadata_Validate (m : metadata) : result err unit :=
  _ ← guard_err (negb (valid_utf8 (Description m)) || is_blank (Description m) || (1000 <? rune_count (Description m)))
        (ErrText "descrizione obbligatoria, massimo 1000 caratteri UTF-8");
  _ ← guard_err (existsb (fun r => is_control r && negb (r =? 10) && negb (r =? 9)) (runes (Description m)))
        (ErrText "descrizione con caratteri di controllo");
  let n := OriginalName m in
  _ ← guard_err (negb (valid_utf8 n) || is_blank n || (255 <? rune_count n) ||
                 String.eqb n "." || String.eqb n ".." || contains_any "/\" n)
        (ErrText "nome file obbligatorio, massimo 255 caratteri e senza percorsi");
  _ ← guard_err (existsb is_control (runes n)) (ErrText "nome file con caratteri di controllo");
  guard_err (negb (String.eqb (ContentFormat m) "") && negb (String.eqb (ContentFormat m) ContentFormatAgeV1))
    (ErrText "formato contenuto non supportato").

(** ** Tokens, identifiers, digests *)
Definition ValidToken (s : string) : bool :=
  if (len s =? 0) || (255 <? len s) then false
  else forallb (fun r => negb ((r <? 33) || (126 <? r))) (runes s).

Definition idempotency_rune (r : Z) : bool :=
  between 97 122 r || between 65 90 r || between 48 57 r || (r =? 45) || (r =? 95).
Definition ValidIdempotencyKey (s : string) : bool :=
  if (len s <? 16) || (128 <? len s) then false
  else forallb idempotency_rune (runes s).

Definition valid_hex (n : nat) (s : string) : bool :=
  match hex_decode (bytes s) with
  | Some b => (length b =? n)%nat && is_lower (bytes s)
  | None => false
  end.
Definition ValidID (s : string) : bool := valid_hex 16 s.
Definition ValidDigest (s : string) : bool := valid_hex 32 s.

(** ** Profiles *)
Record profile : Type := Profile {
  p_Name : string; TotalBytes : Z; MaxBackupBytes : Z; UploadsPerDay : Z; Concurrent : Z }.

Definition Profile_Validate (p : profile) : result err unit :=
  _ ← guard_err (is_blank (p_Name p) || negb (valid_utf8 (p_Name p)) || (100 <? rune_count (p_Name p)))
        (ErrText "nome profilo obbligatorio, massimo 100 caratteri");
  _ ← guard_err (existsb is_control (runes (p_Name p))) (ErrText "nome profilo non valido");
  guard_err ((TotalBytes p <=? 0) || (2^60 <? TotalBytes p) || (MaxBackupBytes p <=? 0) ||
             (TotalBytes p <? MaxBackupBytes p) || (UploadsPerDay p <? 1) || (1000000 <? UploadsPerDay p) ||
             (Concurrent p <? 1) || (1024 <? Concurrent p))
    (ErrText "limiti non validi: valori positivi, dimensione backup <= spazio totale, concorrenza <= 1024").

Definition GiB : Z := 2^30.
Definition DefaultProfiles : list profile :=
  [ Profile "XS" (10 * GiB) GiB 6 1; Profile "S" (100 * GiB) (10 * GiB) 12 1;
    Profile "M" (500 * GiB) (20 * GiB) 24 2; Profile "L" (2000 * GiB) (100 * GiB) 48 4;
    Profile "XL" (10000 * GiB) (500 * GiB) 96 8 ].

(** ** Sizes *)
Definition size_units : list (string * Z) :=
  [ ("TiB", 2^40); ("GiB", 2^30); ("MiB", 2^20); ("KiB", 2^10);
    ("TB", 1000000000000); ("GB", 1000000000); ("MB", 1000000); ("KB", 1000); ("B", 1) ].
(** The first unit that is a suffix. *)
Fixpoint strip_unit (units : list (string * Z)) (s : string) : string * Z :=
  match units with
  | [] => (s, 1)
  | (u, m) :: units' => if has_suffix u s then (trim_suffix u s, m) else strip_unit units' s
  end.
Definition too_big : err := ErrText "dimensione troppo grande".
Fixpoint parse_digits (multiplier : Z) (cs : list Z) (n : Z) : result err Z :=
  match cs with
  | [] => Ok n
  | c :: cs' =>
    if (c <? 48) || (57 <? c) then
      Err (ErrText "dimensione non valida: usare interi e B, KiB, MiB, GiB, TiB oppure KB, MB, GB, TB")
    else if n >? Z.quot (Z.quot (2^60) multiplier - (c - 48)) 10 then Err too_big
    else parse_digits multiplier cs' (n * 10 + (c - 48))
  end.
Definition ParseBytes (s : string) : result err Z :=
  let '(s, multiplier) := strip_unit size_units s in
  if String.eqb s "" then Err (ErrText "dimensione vuota")
  else
    n ← parse_digits multiplier (runes s) 0;
    if n >? Z.quot (2^60) multiplier then Err too_big else Ok (n * multiplier).

(** ** Backups *)
Inductive backup_status : Type :=
| BackupReceiving | BackupComplete | BackupFailed | BackupDeleting
| BackupQuarantined | BackupPurging | BackupDeleted.
#[global] Instance backup_status_eq_dec : EqDecision backup_status.
Proof. solve_decision. Defined.

(** A row of [backups] and the Go struct read from it; [IdempotencyKey] is
    empty where the column is NULL (the schema admits no other empty key). *)
Record backup : Type := Backup {
  b_ID : string; b_Status : backup_status; b_Size : Z; b_SHA256 : string; b_ReceivedAt : string;
  b_KeyID : string; b_IdempotencyKey : string; b_Metadata : metadata;
  b_StartedAt : Z; b_Failure : string; b_QuarantinedAt : Z; b_PurgeNotBefore : Z; b_PurgedAt : Z }.
#[global] Instance eta_backup : Settable backup := fun r =>
  Backup (b_ID r) (b_Status r) (b_Size r) (b_SHA256 r) (b_ReceivedAt r) (b_KeyID r) (b_IdempotencyKey r)
    (b_Metadata r) (b_StartedAt r) (b_Failure r) (b_QuarantinedAt r) (b_PurgeNotBefore r) (b_PurgedAt r).

Definition has_status (st : backup_status) (b : backup) : bool := bool_decide (b_Status b = st).

(** [backupTime], shared text of [store/retention.go] and
    [policy/policy.go]: the receipt, or the start of the upload. *)
Definition backup_time (b : backup) : Z :=
  if String.eqb (b_ReceivedAt b) "" then of_unix (b_StartedAt b)
  else match parse_rfc3339 (b_ReceivedAt b) with
       | Some t => t
       | None => of_unix (b_StartedAt b)
       end.

#[global] Arguments backup_time : simpl never.

(** ** Monitoring states *)
Definition MonitoringLearning : string := "APPRENDIMENTO".
Definition MonitoringRegular : string := "REGOLARE".
Definition MonitoringAnomaly : string := "ANOMALIA".
Definition MonitoringPaused : string := "SOSPESO".

(** ** Retention operations *)
Inductive op_kind : Type := OpQuarantine | OpPurge | OpRecover | OpCancel.
Inductive op_state : Type := OpRequested | OpAuthorized | OpConfirmed | OpFailed | OpCancelled.
#[global] Instance op_kind_eq_dec : EqDecision op_kind.
Proof. solve_decision. Defined.
#[global] Instance op_state_eq_dec : EqDecision op_state.
Proof. solve_decision. Defined.

(** A row of [retention_operations]; [o_Ticket] is the hash the table keeps. *)
Record operation : Type := Operation {
  o_ID : Z; o_BackupID : string; o_Kind : op_kind; o_State : op_state; o_Origin : string;
  o_Actor : string; o_Reason : string; o_TicketHash : string; o_Revision : Z; o_RequestedAt : Z;
  o_AuthorizedAt : Z; o_CompletedAt : Z; o_Error : string; o_LeaseGeneration : Z;
  o_ExecutionCommitted : bool }.
#[global] Instance eta_operation : Settable operation := fun r =>
  Operation (o_ID r) (o_BackupID r) (o_Kind r) (o_State r) (o_Origin r) (o_Actor r) (o_Reason r)
    (o_TicketHash r) (o_Revision r) (o_RequestedAt r) (o_AuthorizedAt r) (o_CompletedAt r) (o_Error r)
    (o_LeaseGeneration r) (o_ExecutionCommitted r).

Record lease : Type := Lease { l_Owner : string; l_Generation : Z; l_ExpiresAt : Z }.

Record anomaly : Type := Anomaly {
  a_ID : Z; a_StableKey : string; a_Kind : string; a_KeyID : string; a_BackupID : string;
  a_Detail : string; a_EventAt : Z; a_OpenedAt : Z; a_LastSeenAt : Z; a_ResolvedAt : Z;
  a_AcknowledgedAt : Z; a_ResolvedBy : string; a_ResolutionNote : string }.
#[global] Instance eta_anomaly : Settable anomaly := fun r =>
  Anomaly (a_ID r) (a_StableKey r) (a_Kind r) (a_KeyID r) (a_BackupID r) (a_Detail r) (a_EventAt r)
    (a_OpenedAt r) (a_LastSeenAt r) (a_ResolvedAt r) (a_AcknowledgedAt r) (a_ResolvedBy r) (a_ResolutionNote r).

Record anomaly_exclusion : Type := AnomalyExclusion {
  e_ID : Z; e_SourceAnomalyID : Z; e_KeyID : string; e_StartsAt : Z; e_EndsAt : Z;
  e_Actor : string; e_Reason : string; e_CreatedAt : Z; e_Kinds : list string }.

Record mail_message : Type := MailMessage {
  m_ID : Z; m_StableID : string; m_Kind : string; m_Subject : string; m_Body : string;
  m_CreatedAt : Z; m_Attempts : Z; m_NextAttempt : Z; m_SentAt : Z; m_LastError : string }.
#[global] Instance eta_mail : Settable mail_message := fun r =>
  MailMessage (m_ID r) (m_StableID r) (m_Kind r) (m_Subject r) (m_Body r) (m_CreatedAt r) (m_Attempts r)
    (m_NextAttempt r) (m_SentAt r) (m_LastError r).

Record mail_settings : Type := MailSettings {
  ms_ConfigVersion : Z; ms_Host : string; ms_Port : Z; ms_TLS : bool; ms_From : string; ms_Recipients : string }.

(** A row of [keys]; the token itself is never stored. *)
Record key : Type := Key {
  k_ID : string; k_Name : string; k_TokenHash : string; k_Profile : string; k_Revoked : bool }.
#[global] Instance eta_key : Settable key := fun r =>
  Key (k_ID r) (k_Name r) (k_TokenHash r) (k_Profile r) (k_Revoked r).

Record quota : Type := MkQuota {
  q_KeyID : string; q_Profile : profile; q_Used : Z; q_Reserved : Z; q_Active : Z; q_Attempts24h : Z }.

(** ** Confirmation texts *)
Definition ConfirmAutomationSetup (mode : string) : string :=
  if String.eqb mode "auto" then "CONFIGURA AUTO"
  else if String.eqb mode "manual" then "CONFIGURA MANUAL"
  else "CONFIGURA".

(** ** Identifiers *)
Lemma valid_hex_iff n s :
  valid_hex n s = true <-> String.length s = (2 * n)%nat /\ forallb lower_hex (bytes s) = true.
Proof.
  unfold valid_hex. pose proof (hex_decode_lower _ (bytes_range s)) as Hl.
  rewrite <- (bytes_length s).
  destruct (hex_decode (bytes s)) as [out|] eqn:E.
  - apply hex_decode_length in E as El. rewrite andb_true_iff, Nat.eqb_eq. split.
    + intros [<- Hlow]. split; [done|]. apply Hl. split; [by exists out|done].
    + intros [Hn Hf]. split; [lia|]. apply Hl. split; [|done].
      rewrite El. by rewrite Nat.even_mul.
  - split; [done|]. intros [Hn Hf]. exfalso.
    destruct Hl as [_ [[out Ho] _]]; [|done]. split; [|done]. rewrite Hn. by rewrite Nat.even_mul.
Qed.

(** ** Sizes *)
Definition decimal (cs : list Z) : Z := fold_left (fun n c => n * 10 + (c - 48)) cs 0.
Definition is_decimal (s : string) : Prop := s <> ""%string /\ Forall (fun b => 48 <= b <= 57) (bytes s).

Lemma fold_decimal_mono cs n : Forall (fun b => 48 <= b <= 57) cs -> 0 <= n ->
  n <= fold_left (fun n c => n * 10 + (c - 48)) cs n.
Proof.
  intros H. revert n. induction H as [|c cs Hc _ IH]; simpl; intros n Hn; [lia|].
  pose proof (IH (n * 10 + (c - 48))). lia.
Qed.

Lemma parse_digits_spec m cs n : 0 < m <= 2^40 -> Forall (fun b => 48 <= b <= 57) cs ->
  0 <= n <= 2^60 / m ->
  parse_digits m cs n =
  let v := fold_left (fun n c => n * 10 + (c - 48)) cs n in
  if v <=? 2^60 / m then Ok v else Err too_big.
Proof.
  intros Hm H. revert n. induction H as [|c cs Hc Hcs IH]; intros n Hn; simpl.
  { replace (n <=? 2^60 / m) with true by lia. done. }
  assert (2^20 <= 2^60 / m) as Hbig.
  { apply Z.div_le_lower_bound; [lia|]. nia. }
  replace ((c <? 48) || (57 <? c)) with false by lia.
  rewrite (Z.quot_div_nonneg (2^60) m), (Z.quot_div_nonneg _ 10) by lia.
  destruct (n >? (2^60 / m - (c - 48)) / 10) eqn:E.
  - pose proof (fold_decimal_mono cs (n * 10 + (c - 48)) Hcs ltac:(lia)) as Hmono.
    assert (2^60 / m < n * 10 + (c - 48)) by (Z.to_euclidean_division_equations; lia).
    case_match eqn:E2; [lia|done].
  - apply IH. assert (n * 10 + (c - 48) <= 2^60 / m) by (Z.to_euclidean_division_equations; lia). lia.
Qed.

Lemma bytes_nonempty s : is_decimal s -> exists d ds, rev (bytes s) = d :: ds /\ 48 <= d <= 57.
Proof.
  intros [Hne Hd]. apply Forall_rev in Hd.
  destruct (rev (bytes s)) as [|d ds] eqn:E.
  - destruct s; [done|]. apply (f_equal length) in E. rewrite length_rev in E. done.
  - exists d, ds. apply Forall_cons in Hd. naive_solver.
Qed.

Lemma strip_unit_app s u m : is_decimal s -> In (u, m) ((""%string, 1) :: size_units) ->
  strip_unit size_units (s ++ u) = (s, m).
Proof.
  intros Hs Hin. destruct (bytes_nonempty s Hs) as (d & ds & Hrev & Hd).
  assert (s ++ "" = s)%string as Hnil by (clear; induction s as [|c s IH]; [done|]; by rewrite append_cons, IH).
  unfold size_units in *. simpl in Hin.
  repeat (destruct Hin as [Hin|Hin]; [injection Hin as <- <-|]); [..|done];
    cbn [strip_unit]; rewrite !has_suffix_app, Hrev; cbn [bytes nat_of_ascii rev app is_prefix];
    repeat match goal with |- context [?a =? d] =>
      replace (a =? d) with false by (symmetry; apply Z.eqb_neq; vm_compute (Z.of_nat _); lia) end;
    rewrite ?trim_suffix_app; try rewrite Hnil; reflexivity.
Qed.

(** ** Readings *)

(** [ParseBytes] of a decimal number with a unit (or none) is exactly the
    number times the unit when that is at most 2^60, and an error beyond: no
    intermediate product wraps. *)
Lemma ParseBytes_exact s u m : is_decimal s -> In (u, m) ((""%string, 1) :: size_units) ->
  ParseBytes (s ++ u) =
  if decimal (bytes s) * m <=? 2^60 then Ok (decimal (bytes s) * m) else Err too_big.
Proof.
  intros Hs Hin. unfold ParseBytes. rewrite (strip_unit_app s u m Hs Hin).
  destruct Hs as [Hne Hd].
  assert (0 < m <= 2^40) as Hm.
  { simpl in Hin. repeat (destruct Hin as [Hin|Hin]; [injection Hin as <- <-; lia|]). done. }
  apply String.eqb_neq in Hne. rewrite Hne, runes_ascii.
  2: { eapply Forall_impl; [exact Hd|]. simpl. lia. }
  rewrite parse_digits_spec; [|done|done|]. 2: { split; [lia|]. apply Z.div_pos; lia. }
  fold (decimal (bytes s)). cbv zeta. unfold mbind, result_bind.
  destruct (decimal (bytes s) <=? 2^60 / m) eqn:E.
  - rewrite (Z.quot_div_nonneg (2^60) m) by lia.
    replace (decimal (bytes s) >? 2^60 / m) with false by lia.
    replace (decimal (bytes s) * m <=? 2^60) with true; [done|].
    symmetry. apply Z.leb_le. apply Z.leb_le in E. pose proof (Z.mul_div_le (2^60) m). nia.
  - replace (decimal (bytes s) * m <=? 2^60) with false; [done|].
    symmetry. apply Z.leb_gt. apply Z.leb_gt in E.
    pose proof (Z.mul_succ_div_gt (2^60) m). nia.
Qed.

(** An identifier is valid exactly when it is 32 characters, a digest when
    it is 64, all of them lower-case hexadecimal digits: a valid identifier is
    a file name with no separator, dot or upper-case alias. *)
Lemma ValidID_ValidDigest_iff s :
  (ValidID s = true <-> String.length s = 32%nat /\ forallb lower_hex (bytes s) = true) /\
  (ValidDigest s = true <-> String.length s = 64%nat /\ forallb lower_hex (bytes s) = true).
Proof. split; apply valid_hex_iff. Qed.

(** The receipt time of a backup survives the database: the instant that
    [Complete] formats into [received_at] is the instant every policy reads
    back, to the nanosecond. *)
Lemma backup_time_received b t :
  four_digit_year (unix t / seconds_per_day) ->
  backup_time (b <| b_ReceivedAt := format_rfc3339nano t |>) = t.
Proof.
  intros Hy. unfold backup_time. cbn [b_ReceivedAt set_with].
  rewrite parse_format_rfc3339 by done.
  destruct (String.eqb (format_rfc3339nano t) "") eqn:E; [|reflexivity].
  apply String.eqb_eq in E. pose proof (parse_format_rfc3339 t Hy) as Hp. by rewrite E in Hp.
Qed.
