(* ===== verification/Policy.v ===== *)
(** Filesystem measurements, retention minima and the selection of backups to
    quarantine ([src/internal/policy/policy.go], first and last part). *)
From S2P Require Import Prelude GoTime GoString Model.

Definition MinimumDays : Z := 7.
Definition MinimumReleaseBasisPoints : Z := 1000.
Definition QuarantineMarginAnomalyKey : string := "capacity:quarantine-margin".

Definition IsQuarantineMarginWarning (kind stableKey : string) : bool :=
  String.eqb kind "capacity" && String.eqb stableKey QuarantineMarginAnomalyKey.

(** 00:00 of the civil day of [t]. *)
Definition localMidnight (loc : location) (t : Z) : Z :=
  let '(y, m, d) := local_date loc t in date loc y m d 0 0 0 0.

#[global] Arguments localMidnight : simpl never.

Definition DailyRequirement (expected48h : Z) : Z := uadd (expected48h / 2) (expected48h mod 2).

(** ** Filesystem *)
Record filesystem : Type := Filesystem { Blocks : Z; Bfree : Z; Bavail : Z; BlockSize : Z }.

Definition UsedBasisPoints (f : filesystem) : result err Z :=
  if (Blocks f =? 0) || (Blocks f <? Bfree f) || (BlockSize f =? 0) then
    Err (ErrText "misura filesystem non valida")
  else
    let used := usub (Blocks f) (Bfree f) in
    if used >? max_uint64 / 10000 then Err (ErrText "misura filesystem non rappresentabile")
    else Ok (umul used 10000 / Blocks f).

Definition Filesystem_Bytes (f : filesystem) : result err (Z * Z * Z) :=
  _ ← UsedBasisPoints f;
  if (Blocks f >? max_uint64 / BlockSize f) || (Bfree f >? max_uint64 / BlockSize f) ||
     (Bavail f >? max_uint64 / BlockSize f)
  then Err (ErrText "misura filesystem non rappresentabile")
  else Ok (umul (Blocks f) (BlockSize f), umul (usub (Blocks f) (Bfree f)) (BlockSize f),
           umul (Bavail f) (BlockSize f)).

(** ** Selection *)
Record selection_input : Type := SelectionInput {
  si_Now : Z; si_Timezone : string; si_Filesystem : filesystem; si_ThresholdBasisPoints : Z;
  si_RetentionDays : Z; si_KeyRetentionDays : gmap string Z; si_Expected48hBytes : Z;
  si_PendingPurgeBytes : Z; si_Backups : list backup; si_RevokedKeys : gmap string bool }.

Record selection : Type := Selection {
  Eligible : bool; Reason : string; s_UsedBasisPoints : Z; BytesNeeded : Z; SelectedBytes : Z;
  ShortfallBytes : Z; Candidates : list backup }.

Definition revoked_key (input : selection_input) (k : string) : bool :=
  map_get false (si_RevokedKeys input) k.
(** The minimum of a key: its own, or the archive's. *)
Definition key_minimum (input : selection_input) (k : string) : Z :=
  default (si_RetentionDays input) (si_KeyRetentionDays input !! k).

(** [target], one byte below the threshold. *)
Definition select_target (total threshold : Z) : Z :=
  let target := uadd (umul (total / 10000) threshold) (umul (total mod 10000) threshold / 10000) in
  if target >? 0 then usub target 1 else target.

(** A tenth of the filesystem, rounded up. *)
Definition minimum_release (total : Z) : Z :=
  let r := uadd (umul (total / 10000) MinimumReleaseBasisPoints)
                (umul (total mod 10000) MinimumReleaseBasisPoints / 10000) in
  if umul (total mod 10000) MinimumReleaseBasisPoints mod 10000 =? 0 then r else uadd r 1.

(** [counts]: complete backups of each key. *)
Definition complete_counts (backups : list backup) : gmap string Z :=
  foldl (fun counts b => if has_status BackupComplete b then map_add counts (b_KeyID b) 1 else counts) ∅ backups.

Definition selectable_status (b : backup) : bool :=
  has_status BackupComplete b || has_status BackupDeleting b ||
  has_status BackupQuarantined b || has_status BackupPurging b.

(** The civil day of a backup, and its key. *)
Definition backup_day (loc : location) (b : backup) : Z := localMidnight loc (backup_time b).
Definition backup_key (loc : location) (b : backup) : string := date_key loc (backup_day loc b).
#[global] Arguments backup_day : simpl never.
#[global] Arguments backup_key : simpl never.

(** [byDay] and [days]: the expired backups grouped by civil day, the days in
    order of first appearance. *)
Fixpoint group_days (loc : location) (input : selection_input) (today : Z) (backups : list backup)
    (byDay : gmap string (list backup)) (days : list string)
    : result err (gmap string (list backup) * list string) :=
  match backups with
  | [] => Ok (byDay, days)
  | b :: rest =>
    if negb (selectable_status b) then group_days loc input today rest byDay days
    else
      let minimum := key_minimum input (b_KeyID b) in
      if (minimum <? MinimumDays) || (365000 <? minimum) then
        Err (ErrText "minimo di conservazione non valido")
      else
        let protectedAfter := add_days loc today (- minimum) in
        let day := backup_day loc b in
        if negb (day <? protectedAfter) || negb (day <? today) then
          group_days loc input today rest byDay days
        else
          let key := backup_key loc b in
          let days' := match byDay !! key with Some _ => days | None => days ++ [key] end in
          group_days loc input today rest (<[key := map_get [] byDay key ++ [b]]> byDay) days'
  end.

Definition day_counts (items : list backup) : gmap string Z :=
  foldl (fun counts b => map_add counts (b_KeyID b) 1) ∅ items.

(** A day can go only as a whole, and only if every key keeps another copy. *)
Definition day_valid (input : selection_input) (counts : gmap string Z) (items : list backup) : bool :=
  let dayCounts := day_counts items in
  forallb (fun b => negb (negb (has_status BackupComplete b) || revoked_key input (b_KeyID b) ||
                          (map_get 0 counts (b_KeyID b) - map_get 0 dayCounts (b_KeyID b) <? 1))) items.

Definition take_item (acc : list backup * Z * gmap string Z) (b : backup) : list backup * Z * gmap string Z :=
  let '(candidates, selected, counts) := acc in
  (candidates ++ [b], uadd selected (wrap64 (b_Size b)), map_add counts (b_KeyID b) (-1)).

Fixpoint select_days (input : selection_input) (byDay : gmap string (list backup)) (needed : Z)
    (days : list string) (acc : list backup * Z * gmap string Z) : list backup * Z * gmap string Z :=
  match days with
  | [] => acc
  | day :: rest =>
    let items := map_get [] byDay day in
    let '(candidates, selected, counts) := acc in
    if negb (day_valid input counts items) then select_days input byDay needed rest acc
    else
      let acc' := foldl take_item acc items in
      let '(_, selected', _) := acc' in
      if selected' >=? needed then acc' else select_days input byDay needed rest acc'
  end.

(** [sort.Strings]: the bytewise order of the keys. *)
Definition str_le (a b : string) : Prop := String.leb a b = true.
#[global] Instance str_le_dec : RelDecision str_le.
Proof. intros a b. unfold str_le. apply _. Defined.
Definition sort_strings (l : list string) : list string := merge_sort str_le l.

Definition empty_selection (used : Z) (reason : string) (eligible : bool) : selection :=
  Selection eligible reason used 0 0 0 [].

Section load_location.
Context (LoadLocation : string -> result err location).

Definition RetentionProtected (b : backup) (now : Z) (timezone : string) (days : Z) : bool * option err :=
  if (days <? MinimumDays) || (365000 <? days) then
    (true, Some (ErrText "minimo di conservazione non valido"))
  else
    match LoadLocation timezone with
    | Err e => (true, Some e)
    | Ok loc =>
      let cutoff := add_days loc (localMidnight loc now) (- days) in
      (negb (backup_time b <? cutoff), None)
    end.

(** The lot of bytes to release before pending purges are subtracted. *)
Definition release_needed (total used threshold expected48h : Z) : result err Z :=
  let target := select_target total threshold in
  if usub max_uint64 used <? expected48h then Err (ErrText "previsione spazio non rappresentabile")
  else
    let projected := uadd used expected48h in
    let needed := if projected >? target then usub projected target else 0 in
    Ok (if needed <? minimum_release total then minimum_release total else needed).

Definition Select (input : selection_input) : result err selection :=
  if (si_ThresholdBasisPoints input <? 1) || (10000 <? si_ThresholdBasisPoints input) then
    Err (ErrText "soglia filesystem non valida")
  else
    usedBasis ← UsedBasisPoints (si_Filesystem input);
    if usedBasis <? si_ThresholdBasisPoints input then
      Ok (empty_selection usedBasis "occupazione inferiore alla soglia" false)
    else
      loc ← LoadLocation (si_Timezone input);
      if si_RetentionDays input <? MinimumDays then
        Err (ErrText "finestra di conservazione inferiore a 7 giorni")
      else
        '(total, used, _) ← Filesystem_Bytes (si_Filesystem input);
        needed ← release_needed total used (si_ThresholdBasisPoints input) (si_Expected48hBytes input);
        if si_PendingPurgeBytes input >=? needed then
          Ok (empty_selection usedBasis "richieste pendenti gia sufficienti" true)
        else
          let needed := usub needed (si_PendingPurgeBytes input) in
          let today := localMidnight loc (si_Now input) in
          let counts := complete_counts (si_Backups input) in
          '(byDay, days) ← group_days loc input today (si_Backups input) ∅ [];
          let '(candidates, selected, _) :=
            select_days input byDay needed (sort_strings days) ([], 0, counts) in
          let eligible := negb (length candidates =? 0)%nat in
          if selected <? needed then
            Ok (Selection eligible "candidati leciti insufficienti" usedBasis needed selected
                  (usub needed selected) candidates)
          else
            Ok (Selection eligible "candidati limitati alla quantita necessaria" usedBasis needed selected 0
                  candidates).
End load_location.

(** ** Measurements *)
Definition filesystem_ok (f : filesystem) : Prop :=
  is_uint64 (Blocks f) /\ is_uint64 (Bfree f) /\ is_uint64 (Bavail f) /\ is_uint64 (BlockSize f).

Lemma UsedBasisPoints_inv f u : filesystem_ok f -> UsedBasisPoints f = Ok u ->
  0 < Blocks f /\ 0 < BlockSize f /\ Bfree f <= Blocks f /\
  (Blocks f - Bfree f) * 10000 <= max_uint64 /\ u = (Blocks f - Bfree f) * 10000 / Blocks f.
Proof.
  intros (Hb & Hf & _ & Hs). unfold UsedBasisPoints, usub, umul, is_uint64 in *.
  destruct (_ || _ || _) eqn:E1; [done|].
  rewrite (wrap64_small (Blocks f - Bfree f)) by (unfold is_uint64; lia).
  destruct (_ >? _) eqn:E2; [done|]. intros [= <-].
  assert ((Blocks f - Bfree f) * 10000 <= max_uint64)
    by (assert (max_uint64 / 10000 * 10000 <= max_uint64) by (by vm_compute); nia).
  rewrite wrap64_small by (unfold is_uint64; lia). repeat split; lia.
Qed.

Lemma UsedBasisPoints_range f u : filesystem_ok f -> UsedBasisPoints f = Ok u -> 0 <= u <= 10000.
Proof.
  intros Hok Hu. pose proof (UsedBasisPoints_inv f u Hok Hu) as (? & ? & ? & ? & ->).
  destruct Hok as (_ & [Hf _] & _). split; [apply Z.div_pos; lia|].
  apply Z.div_le_upper_bound; lia.
Qed.

Lemma Filesystem_Bytes_inv f total used avail : filesystem_ok f ->
  Filesystem_Bytes f = Ok (total, used, avail) ->
  total = Blocks f * BlockSize f /\ used = (Blocks f - Bfree f) * BlockSize f /\
  avail = Bavail f * BlockSize f /\ 0 <= used <= total /\ 0 < total <= max_uint64 /\ is_uint64 avail.
Proof.
  intros Hok. unfold Filesystem_Bytes.
  destruct (UsedBasisPoints f) as [u|] eqn:Eu; [|done]. simpl.
  pose proof (UsedBasisPoints_inv f u Hok Eu) as (Hb & Hs & Hf & _).
  destruct Hok as ((_ & _) & [Hf0 _] & [Ha0 _] & _).
  destruct (_ || _ || _) eqn:E; [done|]. intros [= <- <- <-].
  rewrite !orb_false_iff in E. destruct E as ((E1 & E2) & E3).
  assert (forall x, 0 <= x -> (x >? max_uint64 / BlockSize f) = false -> 0 <= x * BlockSize f <= max_uint64) as Hx.
  { intros x Hx E. pose proof (Z.mul_div_le max_uint64 (BlockSize f) Hs). nia. }
  pose proof (Hx (Blocks f) ltac:(lia) E1). pose proof (Hx _ Ha0 E3).
  unfold usub, umul. rewrite (wrap64_small (Blocks f - Bfree f)) by (unfold is_uint64; split; [lia|nia]).
  assert ((Blocks f - Bfree f) * BlockSize f <= Blocks f * BlockSize f) by nia.
  rewrite !wrap64_small by (unfold is_uint64; (lia || (split; nia))).
  assert ((Blocks f - Bfree f) * BlockSize f <= Blocks f * BlockSize f) by nia.
  assert (0 <= (Blocks f - Bfree f) * BlockSize f) by nia.
  assert (0 < Blocks f * BlockSize f) by nia. unfold is_uint64. lia.
Qed.

(** ** Targets *)
Lemma div_10000_split total k : 0 <= total -> 0 <= k ->
  total / 10000 * k + total mod 10000 * k / 10000 = total * k / 10000.
Proof.
  intros Ht Hk. rewrite (Z.div_mod total 10000) at 3 by lia.
  replace ((10000 * (total / 10000) + total mod 10000) * k)
    with (total mod 10000 * k + total / 10000 * k * 10000) by ring.
  rewrite Z.div_add by lia. lia.
Qed.

Lemma select_target_spec total th : 0 < total <= max_uint64 -> 1 <= th <= 10000 ->
  select_target total th = Z.max 0 (total * th / 10000 - 1) /\
  select_target total th * 10000 < total * th /\ 0 <= select_target total th <= total.
Proof.
  intros Ht Hth. unfold select_target, uadd, umul, usub.
  pose proof (Z.mod_pos_bound total 10000 ltac:(lia)) as Hm.
  pose proof (Z.div_mod total 10000 ltac:(lia)) as Hdm.
  pose proof (Z.div_pos total 10000 ltac:(lia) ltac:(lia)) as Hq.
  rewrite (wrap64_small (total / 10000 * th)) by (unfold is_uint64; nia).
  rewrite (wrap64_small (total mod 10000 * th)) by (unfold is_uint64, max_uint64; nia).
  rewrite div_10000_split by lia.
  assert (0 <= total * th / 10000 <= total) as Hr.
  { split; [apply Z.div_pos; nia|]. apply Z.div_le_upper_bound; nia. }
  rewrite (wrap64_small (total * th / 10000)) by (unfold is_uint64; lia).
  pose proof (Z.mul_div_le (total * th) 10000 ltac:(lia)).
  destruct (total * th / 10000 >? 0) eqn:E.
  - rewrite wrap64_small by (unfold is_uint64; lia). lia.
  - assert (0 < total * th) by nia. lia.
Qed.

Lemma minimum_release_spec total : 0 <= total <= max_uint64 ->
  minimum_release total = (total + 9) / 10 /\ 0 <= minimum_release total <= max_uint64.
Proof.
  intros Ht. unfold minimum_release, uadd, umul, MinimumReleaseBasisPoints.
  pose proof (Z.mod_pos_bound total 10000 ltac:(lia)) as Hm.
  pose proof (Z.div_mod total 10000 ltac:(lia)) as Hdm.
  pose proof (Z.div_pos total 10000 ltac:(lia) ltac:(lia)) as Hq.
  rewrite (wrap64_small (total / 10000 * 1000)) by (unfold is_uint64; lia).
  rewrite (wrap64_small (total mod 10000 * 1000)) by (unfold is_uint64, max_uint64; lia).
  rewrite div_10000_split by lia.
  assert (0 <= total * 1000 / 10000 <= total / 2) as Hr by (Z.to_euclidean_division_equations; lia).
  assert (total / 2 < max_uint64) by (unfold max_uint64 in *; Z.to_euclidean_division_equations; lia).
  rewrite (wrap64_small (total * 1000 / 10000)) by (unfold is_uint64; lia).
  destruct (total mod 10000 * 1000 mod 10000 =? 0) eqn:E.
  - split; [|lia]. Z.to_euclidean_division_equations; lia.
  - rewrite wrap64_small by (unfold is_uint64; lia). split; [|lia].
    Z.to_euclidean_division_equations; lia.
Qed.

Lemma release_needed_spec total used th expected n :
  0 < total <= max_uint64 -> 0 <= used <= total -> 1 <= th <= 10000 -> is_uint64 expected ->
  release_needed total used th expected = Ok n ->
  used + expected <= max_uint64 /\
  n = Z.max ((total + 9) / 10) (used + expected - select_target total th) /\ is_uint64 n.
Proof.
  intros Ht Hu Hth He. unfold release_needed, usub at 1.
  rewrite wrap64_small by (unfold is_uint64; lia).
  destruct (_ <? expected) eqn:E; [done|]. unfold uadd, usub.
  rewrite (wrap64_small (used + expected)) by (unfold is_uint64 in *; lia).
  destruct (select_target_spec total th Ht Hth) as (_ & _ & Hst).
  destruct (minimum_release_spec total ltac:(lia)) as [Hm Hmr]. unfold is_uint64 in *.
  intros [= <-]. split; [lia|]. rewrite <- Hm.
  destruct (used + expected >? select_target total th) eqn:E2.
  - rewrite wrap64_small by (unfold is_uint64; lia). case_match; lia.
  - case_match; lia.
Qed.

(** ** Expired backups and their days *)
Lemma localMidnight_eq loc t : localMidnight loc t = day_start loc (local_day loc t).
Proof. unfold localMidnight, day_start. apply (date_of_civil_0 loc (local_day loc t)). Qed.

(** Older than the minimum of its key, and not of the current day. *)
Definition expired (loc : location) (input : selection_input) (b : backup) : bool :=
  selectable_status b &&
  (backup_day loc b <? add_days loc (localMidnight loc (si_Now input)) (- key_minimum input (b_KeyID b))) &&
  (backup_day loc b <? localMidnight loc (si_Now input)).

Section grouping.
Context (loc : location) (input : selection_input).
Notation today := (localMidnight loc (si_Now input)).
Definition in_group (k : string) (b : backup) : bool :=
  expired loc input b && String.eqb (backup_key loc b) k.

(** One backup is skipped, or joins the group of its day. *)
Definition add_to_group (k : string) (b : backup) (m : gmap string (list backup)) : gmap string (list backup) :=
  <[k := map_get [] m k ++ [b]]> m.
Definition add_day (k : string) (m : gmap string (list backup)) (ds : list string) : list string :=
  match m !! k with Some _ => ds | None => ds ++ [k] end.

Lemma group_step b bs m ds r : group_days loc input today (b :: bs) m ds = Ok r ->
  (expired loc input b = false /\ group_days loc input today bs m ds = Ok r) \/
  (expired loc input b = true /\
   group_days loc input today bs (add_to_group (backup_key loc b) b m) (add_day (backup_key loc b) m ds) = Ok r).
Proof.
  unfold expired, add_to_group, add_day. cbn [group_days]. cbv zeta.
  destruct (selectable_status b); cbn [negb andb]; [|by auto].
  destruct (_ || (365000 <? _)); [done|].
  destruct (backup_day loc b <? add_days _ _ _); cbn [negb andb orb]; [|by auto].
  destruct (backup_day loc b <? localMidnight _ _); cbn [negb]; by auto.
Qed.

Lemma add_to_group_get kb b m k :
  map_get [] (add_to_group kb b m) k = map_get [] m k ++ (if String.eqb kb k then [b] else []).
Proof.
  unfold add_to_group, map_get. rewrite lookup_insert.
  destruct (String.eqb kb k) eqn:Ek.
  - apply String.eqb_eq in Ek as ->. by rewrite decide_True.
  - apply String.eqb_neq in Ek. rewrite decide_False by done. by rewrite app_nil_r.
Qed.

Lemma add_day_keys kb b m ds : (forall k, In k ds <-> is_Some (m !! k)) -> NoDup ds ->
  (forall k, In k (add_day kb m ds) <-> is_Some (add_to_group kb b m !! k)) /\ NoDup (add_day kb m ds).
Proof.
  intros Hin Hnd. unfold add_day, add_to_group. split.
  - intros k. rewrite lookup_insert. destruct (decide (kb = k)) as [<-|Hne].
    + split; [by eauto|]. intros _. destruct (m !! kb) eqn:Eb; [apply Hin; eauto|].
      apply in_or_app. right. by left.
    + rewrite <- Hin. destruct (m !! kb); [done|]. rewrite in_app_iff. clear -Hne.
      split; [intros [Hk|[Hk|[]]]; [exact Hk|by destruct (Hne Hk)]|by left].
  - destruct (m !! kb) eqn:Eb; [done|]. apply NoDup_app. split; [done|]. split.
    + intros k Hk%list_elem_of_In ->%list_elem_of_singleton. apply Hin in Hk. rewrite Eb in Hk. by destruct Hk.
    + apply NoDup_singleton.
Qed.

Lemma group_days_spec bs m ds m' ds' :
  group_days loc input today bs m ds = Ok (m', ds') ->
  (forall k, In k ds <-> is_Some (m !! k)) -> NoDup ds ->
  (forall k, map_get [] m' k = map_get [] m k ++ List.filter (in_group k) bs) /\
  (forall k, In k ds' <-> is_Some (m' !! k)) /\ NoDup ds'.
Proof.
  revert m ds. induction bs as [|b bs IH]; intros m ds H Hin Hnd.
  { injection H as <- <-. split; [|done]. intros k. by rewrite app_nil_r. }
  assert (forall k, List.filter (in_group k) (b :: bs) =
    (if expired loc input b then if String.eqb (backup_key loc b) k then [b] else [] else []) ++
    List.filter (in_group k) bs) as Hf.
  { intros k. cbn [List.filter]. unfold in_group at 1.
    destruct (expired loc input b), (String.eqb (backup_key loc b) k); reflexivity. }
  apply group_step in H as [[Ee H]|[Ee H]]; rewrite Ee in Hf.
  - destruct (IH _ _ H Hin Hnd) as (H1 & H2). split; [|done]. intros k. by rewrite Hf, H1.
  - destruct (add_day_keys (backup_key loc b) b m ds Hin Hnd) as [Hin' Hnd'].
    destruct (IH _ _ H Hin' Hnd') as (H1 & H2). split; [|done]. intros k.
    by rewrite Hf, H1, add_to_group_get, app_assoc.
Qed.

Lemma group_days_start bs m ds :
  group_days loc input today bs ∅ [] = Ok (m, ds) ->
  (forall k, map_get [] m k = List.filter (in_group k) bs) /\
  (forall k, In k ds <-> is_Some (m !! k)) /\ NoDup ds.
Proof.
  intros H. apply group_days_spec in H; [|intros k; rewrite lookup_empty; split; [done|by intros []]|constructor].
  destruct H as (H1 & H2). split; [|done]. intros k. rewrite H1. done.
Qed.

(** Every key has a backup. *)
Lemma group_days_keys_from bs m ds m' ds' :
  group_days loc input today bs m ds = Ok (m', ds') ->
  forall k, In k ds' -> In k ds \/ exists b, In b bs /\ in_group k b = true.
Proof.
  revert m ds. induction bs as [|b bs IH]; intros m ds H k Hk; [injection H as <- <-; by left|].
  apply group_step in H as [[Ee H]|[Ee H]].
  - destruct (IH _ _ H k Hk) as [?|(x & Hx & Hg)]; [by left|]. right. exists x. split; [by right|done].
  - destruct (IH _ _ H k Hk) as [Hd|(x & Hx & Hg)].
    + unfold add_day in Hd. destruct (m !! backup_key loc b); [by left|].
      apply in_app_iff in Hd as [?|[<-|[]]]; [by left|]. right. exists b. split; [by left|].
      unfold in_group. by rewrite Ee, String.eqb_refl.
    + right. exists x. split; [by right|done].
Qed.
Lemma group_days_keys bs m ds : group_days loc input today bs ∅ [] = Ok (m, ds) ->
  forall k, In k ds -> exists b, In b bs /\ in_group k b = true.
Proof. intros H k Hk. by destruct (group_days_keys_from _ _ _ _ _ H k Hk) as [[]|]. Qed.
End grouping.

(** ** Selecting days *)
Definition key_is (k : string) (b : backup) : bool := bool_decide (b_KeyID b = k).

Lemma day_counts_spec items k : map_get 0 (day_counts items) k = count_where (key_is k) items.
Proof.
  unfold day_counts.
  assert (forall items m, map_get 0 (foldl (fun counts b => map_add counts (b_KeyID b) 1) m items) k =
            map_get 0 m k + count_where (key_is k) items) as H.
  { clear. induction items as [|b items IH]; intros m; simpl; [rewrite count_where_nil; lia|].
    rewrite IH, map_get_add, count_where_cons. unfold key_is at 2.
    case_decide; case_bool_decide; try done; lia. }
  by rewrite H.
Qed.

Lemma complete_counts_spec bs k :
  map_get 0 (complete_counts bs) k = count_where (fun b => has_status BackupComplete b && key_is k b) bs.
Proof.
  unfold complete_counts.
  assert (forall bs m, map_get 0 (foldl (fun counts b =>
            if has_status BackupComplete b then map_add counts (b_KeyID b) 1 else counts) m bs) k =
            map_get 0 m k + count_where (fun b => has_status BackupComplete b && key_is k b) bs) as H.
  { clear. induction bs as [|b bs IH]; intros m; simpl; [rewrite count_where_nil; lia|].
    rewrite count_where_cons, IH. destruct (has_status BackupComplete b); simpl; [|lia].
    rewrite map_get_add. unfold key_is at 2. case_decide; case_bool_decide; try done; lia. }
  by rewrite H.
Qed.

Lemma foldl_take_item items cs sel counts :
  is_uint64 sel ->
  let '(cs', sel', counts') := foldl take_item (cs, sel, counts) items in
  cs' = cs ++ items /\ sel' = wrap64 (sel + sum_by b_Size items) /\
  (forall k, map_get 0 counts' k = map_get 0 counts k - count_where (key_is k) items).
Proof.
  revert cs sel counts. induction items as [|b items IH]; intros cs sel counts Hs; simpl.
  { rewrite app_nil_r, Z.add_0_r, wrap64_small by done. split; [done|]. split; [done|].
    intros k. rewrite count_where_nil. lia. }
  specialize (IH (cs ++ [b]) (uadd sel (wrap64 (b_Size b))) (map_add counts (b_KeyID b) (-1)) (wrap64_range _)).
  destruct (foldl _ _ _) as [[cs' sel'] counts']. destruct IH as (-> & -> & Hc).
  split; [by rewrite <- app_assoc|]. split.
  - unfold uadd, wrap64. rewrite Zplus_mod_idemp_r, Zplus_mod_idemp_l. f_equal. lia.
  - intros k. rewrite Hc, map_get_add, count_where_cons. unfold key_is at 2.
    case_decide; case_bool_decide; try done; lia.
Qed.

(** What holds before a day is taken and is kept by taking it holds at the end. *)
Lemma select_days_ind (I : list backup * Z * gmap string Z -> Prop) input byDay needed days acc :
  I acc ->
  (forall cs sel counts day, In day days -> I (cs, sel, counts) ->
     day_valid input counts (map_get [] byDay day) = true ->
     I (foldl take_item (cs, sel, counts) (map_get [] byDay day))) ->
  I (select_days input byDay needed days acc).
Proof.
  revert acc. induction days as [|day days IH]; intros acc HI Hstep; [done|].
  cbn [select_days]. destruct acc as [[cs sel] counts].
  destruct (day_valid input counts (map_get [] byDay day)) eqn:Ev; cbn [negb].
  - pose proof (Hstep cs sel counts day (or_introl eq_refl) HI Ev) as HI'.
    destruct (foldl take_item (cs, sel, counts) (map_get [] byDay day)) as [[cs' sel'] counts'] eqn:E.
    destruct (sel' >=? needed); [done|]. apply IH; [done|]. intros. apply Hstep; [by right|done..].
  - apply IH; [done|]. intros. apply Hstep; [by right|done..].
Qed.

Lemma day_valid_forall input counts items : day_valid input counts items = true ->
  forall b, In b items -> has_status BackupComplete b = true /\ revoked_key input (b_KeyID b) = false /\
    1 <= map_get 0 counts (b_KeyID b) - count_where (key_is (b_KeyID b)) items.
Proof.
  unfold day_valid. rewrite forallb_forall. intros H b Hb. specialize (H b Hb).
  rewrite negb_true_iff, !orb_false_iff, negb_false_iff, day_counts_spec in H.
  destruct H as ((H1 & H2) & H3). repeat split; [done|done|lia].
Qed.

Lemma day_valid_false input counts items : day_valid input counts items = false ->
  exists b, In b items /\ (b_Status b <> BackupComplete \/ revoked_key input (b_KeyID b) = true \/
    map_get 0 counts (b_KeyID b) - count_where (key_is (b_KeyID b)) items < 1).
Proof.
  intros (b & Hb & Hbad)%forallb_false. exists b. split; [done|].
  rewrite negb_false_iff, !orb_true_iff, negb_true_iff, day_counts_spec in Hbad.
  unfold has_status in Hbad. rewrite bool_decide_eq_false, Z.ltb_lt in Hbad. tauto.
Qed.

(** ** Properties of a selection *)
Definition selection_invariant (loc : location) (input : selection_input)
    (acc : list backup * Z * gmap string Z) : Prop :=
  let '(cs, sel, counts) := acc in
  sel = wrap64 (sum_by b_Size cs) /\
  (forall b, In b cs -> In b (si_Backups input) /\ has_status BackupComplete b = true /\
     revoked_key input (b_KeyID b) = false /\ expired loc input b = true) /\
  (forall k, map_get 0 counts k = map_get 0 (complete_counts (si_Backups input)) k - count_where (key_is k) cs) /\
  (forall b, In b cs -> 1 <= map_get 0 counts (b_KeyID b)).

Lemma select_days_invariant loc input m ds needed days :
  group_days loc input (localMidnight loc (si_Now input)) (si_Backups input) ∅ [] = Ok (m, ds) ->
  selection_invariant loc input
    (select_days input m needed days ([], 0, complete_counts (si_Backups input))).
Proof.
  intros Hg. destruct (group_days_start _ _ _ _ _ Hg) as (Hm & _).
  apply select_days_ind.
  { split; [done|]. split; [by intros b []|]. split; [|by intros b []].
    intros k. rewrite count_where_nil. lia. }
  intros cs sel counts day _ (-> & Hcs & Hk & Hpos) Hv. rewrite Hm in *.
  set (items := List.filter (in_group loc input day) (si_Backups input)) in *.
  pose proof (foldl_take_item items cs (wrap64 (sum_by b_Size cs)) counts (wrap64_range _)) as Hf.
  destruct (foldl _ _ _) as [[cs' sel'] counts']. destruct Hf as (-> & -> & Hc).
  pose proof (day_valid_forall input counts items Hv) as Hvalid.
  split; [rewrite sum_by_app; unfold wrap64; by rewrite Zplus_mod_idemp_l|].
  split; [|split].
  - intros b [Hb|Hb]%in_app_iff; [by apply Hcs|].
    pose proof (Hvalid b Hb) as (Hcomp & Hrev & _). apply filter_In in Hb as [Hb Hg'].
    unfold in_group in Hg'. apply andb_true_iff in Hg' as [Hg' _]. done.
  - intros k. rewrite Hc, Hk, count_where_app. lia.
  - intros b Hb. rewrite Hc.
    destruct (decide (0 < count_where (key_is (b_KeyID b)) items)) as [Hp|Hz].
    + apply count_where_pos in Hp as (x & Hx & Hkx). unfold key_is in Hkx. case_bool_decide as E; [|done].
      rewrite <- E. by apply Hvalid.
    + apply in_app_iff in Hb as [Hb|Hb].
      * pose proof (Hpos b Hb). pose proof (count_where_nonneg (key_is (b_KeyID b)) items). lia.
      * exfalso. apply Hz, count_where_pos. exists b. split; [done|]. unfold key_is. by case_bool_decide.
Qed.

(** ** Order and minimality of the days taken *)
Lemma str_le_total : Total str_le.
Proof. intros a b. unfold str_le. destruct (String.leb_total a b); auto. Qed.

Definition day_text (n : Z) : string := date_text (civil_from_days n).
Lemma day_text_inj n m : four_digit_year n -> four_digit_year m -> day_text n = day_text m -> n = m.
Proof. unfold day_text. apply date_text_inj. Qed.

Lemma str_le_day_text n m : four_digit_year n -> four_digit_year m ->
  str_le (day_text n) (day_text m) <-> n <= m.
Proof.
  intros Hn Hm. unfold str_le, String.leb, day_text. rewrite compare_date_text by done.
  destruct (n ?= m) eqn:E; rewrite ?Z.compare_eq_iff, ?Z.compare_lt_iff, ?Z.compare_gt_iff in E;
    split; intros; (done || lia).
Qed.

(** Sorting day keys sorts the days. *)
Lemma sort_day_texts days : NoDup days ->
  (forall k, In k days -> exists n, four_digit_year n /\ k = day_text n) ->
  exists ns, sort_strings days = map day_text ns /\ StronglySorted Z.lt ns /\ Forall four_digit_year ns.
Proof.
  intros Hnd Hk.
  assert (exists ns, sort_strings days = map day_text ns /\ Forall four_digit_year ns) as (ns & E & Hf).
  { assert (forall k, In k (sort_strings days) -> exists n, four_digit_year n /\ k = day_text n) as Hs.
    { intros k Hin. apply Hk. eapply Permutation_in; [apply (merge_sort_Permutation str_le)|exact Hin]. }
    clear -Hs. induction (sort_strings days) as [|k l IH]; [by exists []|].
    destruct IH as (ns & E & Hf); [intros; apply Hs; by right|].
    destruct (Hs k ltac:(by left)) as (n & Hn & ->). exists (n :: ns). split; [simpl; by rewrite E|by constructor]. }
  exists ns. split; [done|]. split; [|done].
  assert (NoDup (map day_text ns)) as Hnd'.
  { rewrite <- E. unfold sort_strings. by rewrite (merge_sort_Permutation str_le). }
  assert (Sorted str_le (map day_text ns)) as Hs.
  { rewrite <- E. apply Sorted_merge_sort, str_le_total. }
  clear -Hf Hnd' Hs. induction ns as [|n ns IH]; [constructor|].
  simpl in *. apply NoDup_cons in Hnd' as [Hni Hnd']. apply Forall_cons in Hf as [Hn Hf].
  apply Sorted_inv in Hs as [Hs Hhd]. specialize (IH Hf Hnd' Hs).
  constructor; [done|]. destruct ns as [|n' ns]; [constructor|].
  simpl in Hhd. inversion Hhd as [|? ? Hle]; subst. apply Forall_cons in Hf as [Hn' Hf].
  apply str_le_day_text in Hle; [|done|done].
  assert (n <> n') by (intros ->; apply Hni; by left).
  apply StronglySorted_inv in IH as [_ Hall].
  constructor; [lia|]. eapply Forall_impl; [exact Hall|]. simpl. lia.
Qed.

(** The days taken, in order: enough is reached by the last of them only. *)
Lemma select_days_lots input byDay needed ns cs sel counts :
  is_uint64 sel -> StronglySorted Z.lt ns ->
  exists lots, StronglySorted Z.lt lots /\ (forall n, In n lots -> In n ns) /\
    fst (fst (select_days input byDay needed (map day_text ns) (cs, sel, counts))) =
      cs ++ concat (map (fun n => map_get [] byDay (day_text n)) lots) /\
    (forall lots' n, lots = lots' ++ [n] -> lots' <> [] ->
       wrap64 (sel + sum_by b_Size (concat (map (fun n => map_get [] byDay (day_text n)) lots'))) < needed).
Proof.
  intros Hsel Hs. revert cs sel counts Hsel. induction Hs as [|n ns Hs IH Hall]; intros cs sel counts Hsel.
  { exists []. split; [constructor|]. split; [done|]. split; [simpl; by rewrite app_nil_r|].
    by intros [|? ?] ? ?. }
  cbn [map select_days].
  assert (forall lots, StronglySorted Z.lt lots -> (forall x, In x lots -> In x ns) -> StronglySorted Z.lt (n :: lots)) as Hcons.
  { intros lots Hl Hin. constructor; [done|]. apply Forall_forall. intros x Hx%list_elem_of_In.
    rewrite Forall_forall in Hall. apply Hall. apply list_elem_of_In, Hin, Hx. }
  destruct (day_valid _ _ _); cbn [negb].
  2: { destruct (IH cs sel counts Hsel) as (lots & H1 & H2 & H3). exists lots. split; [done|]. split; [by auto using in_cons|]. done. }
  pose proof (foldl_take_item (map_get [] byDay (day_text n)) cs sel counts Hsel) as Hf.
  destruct (foldl _ _ _) as [[cs' sel'] counts']. destruct Hf as (-> & -> & _).
  destruct (_ >=? needed) eqn:E.
  - exists [n]. split; [repeat constructor|]. split; [by intros x [->|[]]; left|].
    split; [simpl; by rewrite app_nil_r|]. intros [|? [|? ?]] ? Hl Hne; simplify_eq/=.
  - destruct (IH (cs ++ map_get [] byDay (day_text n)) (wrap64 (sel + sum_by b_Size (map_get [] byDay (day_text n)))) counts' (wrap64_range _)) as (lots & H1 & H2 & H3 & H4).
    exists (n :: lots). split; [by apply Hcons|]. split; [intros x [->|Hx]; [by left|right; by apply H2]|].
    split; [rewrite H3; simpl; by rewrite <- app_assoc|].
    intros lots' x Hl Hne. destruct lots' as [|y lots']; [done|]. simplify_eq/=.
    rewrite sum_by_app. destruct lots' as [|z lots'].
    + simpl. replace (sel + (_ + 0)) with (sel + sum_by b_Size (map_get [] byDay (day_text y))) by (simpl; lia). lia.
    + specialize (H4 (z :: lots') x eq_refl ltac:(done)). revert H4. unfold wrap64. rewrite Zplus_mod_idemp_l.
      by rewrite Z.add_assoc.
Qed.

(** ** Runs of [Select] *)
Section select.
Context (LoadLocation : string -> result err location).

Definition input_ok (input : selection_input) : Prop :=
  filesystem_ok (si_Filesystem input) /\ is_uint64 (si_Expected48hBytes input) /\
  is_uint64 (si_PendingPurgeBytes input) /\ Forall (fun b => 0 < b_Size b) (si_Backups input).

(** A run that reaches the choice of days. *)
Record select_run (input : selection_input) (r : selection) : Type := SelectRun {
  sr_loc : location; sr_total : Z; sr_used : Z; sr_available : Z; sr_release : Z;
  sr_groups : gmap string (list backup); sr_days : list string; sr_counts : gmap string Z;
  sr_LoadLocation : LoadLocation (si_Timezone input) = Ok sr_loc;
  sr_threshold : 1 <= si_ThresholdBasisPoints input <= 10000;
  sr_bytes : Filesystem_Bytes (si_Filesystem input) = Ok (sr_total, sr_used, sr_available);
  sr_release_eq : release_needed sr_total sr_used (si_ThresholdBasisPoints input)
                    (si_Expected48hBytes input) = Ok sr_release;
  sr_pending : si_PendingPurgeBytes input < sr_release;
  sr_needed : BytesNeeded r = usub sr_release (si_PendingPurgeBytes input);
  sr_group : group_days sr_loc input (localMidnight sr_loc (si_Now input)) (si_Backups input) ∅ [] =
               Ok (sr_groups, sr_days);
  sr_select : select_days input sr_groups (BytesNeeded r) (sort_strings sr_days)
                ([], 0, complete_counts (si_Backups input)) = (Candidates r, SelectedBytes r, sr_counts);
  sr_shortfall : ShortfallBytes r =
    if SelectedBytes r <? BytesNeeded r then usub (BytesNeeded r) (SelectedBytes r) else 0 }.

Lemma Select_inv input r : Select LoadLocation input = Ok r ->
  (Candidates r = [] /\ ShortfallBytes r = 0 /\ SelectedBytes r = 0) + select_run input r.
Proof.
  unfold Select. destruct (_ || _) eqn:Eth; [done|].
  destruct (UsedBasisPoints _) as [u|]; [|done]. cbn [mbind result_bind].
  destruct (u <? _); [intros [= <-]; by left|].
  destruct (LoadLocation _) as [loc|] eqn:El; [|done]. cbn [mbind result_bind].
  destruct (_ <? MinimumDays); [done|].
  destruct (Filesystem_Bytes _) as [[[total used] avail]|] eqn:Eb; [|done]. cbn [mbind result_bind].
  destruct (release_needed _ _ _ _) as [n|] eqn:En; [|done]. cbn [mbind result_bind].
  destruct (_ >=? n) eqn:Ep; [intros [= <-]; by left|]. cbv zeta.
  destruct (group_days _ _ _ _ _ _) as [[m ds]|] eqn:Eg; [|done]. cbn [mbind result_bind].
  destruct (select_days _ _ _ _ _) as [[cs sel] counts] eqn:Es.
  intros Hr. right.
  assert (BytesNeeded r = usub n (si_PendingPurgeBytes input) /\ Candidates r = cs /\ SelectedBytes r = sel /\
          ShortfallBytes r = if sel <? usub n (si_PendingPurgeBytes input)
            then usub (usub n (si_PendingPurgeBytes input)) sel else 0) as (H1 & H2 & H3 & H4).
  { destruct (sel <? _); injection Hr as <-; done. }
  refine (SelectRun input r loc total used avail n m ds counts El _ Eb En _ H1 Eg _ _); [lia|lia|..].
  - by rewrite H1, H2, H3.
  - by rewrite H4, H1, H3.
Qed.

Lemma select_run_invariant input r (S : select_run input r) :
  selection_invariant (sr_loc _ _ S) input (Candidates r, SelectedBytes r, sr_counts _ _ S).
Proof. rewrite <- (sr_select _ _ S). eapply select_days_invariant, sr_group. Qed.

Lemma select_candidates_in input r b : Select LoadLocation input = Ok r -> In b (Candidates r) ->
  exists loc, LoadLocation (si_Timezone input) = Ok loc /\ In b (si_Backups input) /\
    b_Status b = BackupComplete /\ revoked_key input (b_KeyID b) = false /\ expired loc input b = true.
Proof.
  intros H Hb. destruct (Select_inv _ _ H) as [(Hc & _)|S]; [by rewrite Hc in Hb|].
  exists (sr_loc _ _ S). split; [apply (sr_LoadLocation _ _ S)|].
  destruct (select_run_invariant _ _ S) as (_ & Hcs & _).
  destruct (Hcs b Hb) as (? & Hst & ? & ?). unfold has_status in Hst. by case_bool_decide.
Qed.

Lemma sum_by_nonneg bs : Forall (fun b => 0 < b_Size b) bs -> 0 <= sum_by b_Size bs.
Proof. unfold sum_by. induction 1; simpl; lia. Qed.

Lemma select_run_days input r (S : select_run input r) :
  civil_days (sr_loc _ _ S) ->
  (forall b, In b (si_Backups input) -> four_digit_year (local_day (sr_loc _ _ S) (backup_time b))) ->
  exists ns, sort_strings (sr_days _ _ S) = map day_text ns /\ StronglySorted Z.lt ns /\ Forall four_digit_year ns.
Proof.
  intros Hl Hy. destruct (group_days_start _ _ _ _ _ (sr_group _ _ S)) as (Hm & Hin & Hnd).
  apply sort_day_texts; [done|]. intros k Hk.
  pose proof (group_days_keys _ _ _ _ _ (sr_group _ _ S) k Hk) as (b & Hb & Hg).
  exists (local_day (sr_loc _ _ S) (backup_time b)). split; [by apply Hy|].
  unfold in_group in Hg. apply andb_true_iff in Hg as [_ <-%String.eqb_eq].
  unfold backup_key, backup_day, day_text. rewrite localMidnight_eq. apply (date_key_day_start _ Hl).
Qed.
End select.

(** ** The days chosen *)
Lemma group_days_minimum_from loc input t bs m ds r : group_days loc input t bs m ds = Ok r ->
  forall b, In b bs -> selectable_status b = true -> MinimumDays <= key_minimum input (b_KeyID b) <= 365000.
Proof.
  revert m ds. induction bs as [|x bs IH]; intros m ds H b Hb Hs; [done|].
  cbn [group_days] in H. cbv zeta in H. destruct Hb as [->|Hb].
  - rewrite Hs in H. cbn [negb] in H. destruct (_ || (365000 <? _)) eqn:E; [done|].
    apply orb_false_iff in E as [E1%Z.ltb_ge E2%Z.ltb_ge]. done.
  - destruct (selectable_status x); cbn [negb] in H; [|by apply (IH _ _ H)].
    destruct (_ || (365000 <? _)); [done|]. destruct (_ || _); by apply (IH _ _ H).
Qed.

Section civil.
Context (loc : location) (Hcivil : civil_days loc).

Lemma backup_day_start b : backup_day loc b = day_start loc (local_day loc (backup_time b)).
Proof. unfold backup_day. apply localMidnight_eq. Qed.
Lemma backup_key_day_text b : backup_key loc b = day_text (local_day loc (backup_time b)).
Proof. unfold backup_key, day_text. rewrite backup_day_start. apply (date_key_day_start _ Hcivil). Qed.

(** On civil days, expiry compares days. *)
Lemma expired_days input b : expired loc input b = true <->
  selectable_status b = true /\
  local_day loc (backup_time b) < local_day loc (si_Now input) - key_minimum input (b_KeyID b) /\
  local_day loc (backup_time b) < local_day loc (si_Now input).
Proof.
  unfold expired. rewrite !andb_true_iff, !Z.ltb_lt, backup_day_start, localMidnight_eq.
  rewrite add_days_day_start, !day_start_lt_iff by done.
  replace (local_day loc (si_Now input) + - key_minimum input (b_KeyID b))
    with (local_day loc (si_Now input) - key_minimum input (b_KeyID b)) by lia. tauto.
Qed.

Definition day_is (n : Z) (b : backup) : bool := local_day loc (backup_time b) =? n.

Lemma in_group_day input b n : four_digit_year (local_day loc (backup_time b)) -> four_digit_year n ->
  in_group loc input (day_text n) b = expired loc input b && day_is n b.
Proof.
  intros Hb Hn. unfold in_group, day_is. rewrite backup_key_day_text. f_equal.
  destruct (local_day loc (backup_time b) =? n) eqn:E.
  - apply Z.eqb_eq in E as ->. apply String.eqb_refl.
  - apply String.eqb_neq. intros Ht%(day_text_inj _ _ Hb Hn). lia.
Qed.
End civil.

Lemma foldl_take_item_any items cs sel counts :
  let '(cs', _, counts') := foldl take_item (cs, sel, counts) items in
  cs' = cs ++ items /\
  (forall k, map_get 0 counts' k = map_get 0 counts k - count_where (key_is k) items).
Proof.
  revert cs sel counts. induction items as [|b items IH]; intros cs sel counts; simpl.
  { rewrite app_nil_r. split; [done|]. intros k. rewrite count_where_nil. lia. }
  specialize (IH (cs ++ [b]) (uadd sel (wrap64 (b_Size b))) (map_add counts (b_KeyID b) (-1))).
  destruct (foldl _ _ _) as [[cs' sel'] counts']. destruct IH as (-> & Hc).
  split; [by rewrite <- app_assoc|].
  intros k. rewrite Hc, map_get_add, count_where_cons. unfold key_is at 2.
  case_decide; case_bool_decide; try done; lia.
Qed.

Lemma day_valid_mono input counts counts' items :
  (forall k, map_get 0 counts' k <= map_get 0 counts k) ->
  day_valid input counts items = false -> day_valid input counts' items = false.
Proof.
  intros Hle H. apply not_true_iff_false. intros H'. apply not_true_iff_false in H. apply H.
  unfold day_valid in *. rewrite forallb_forall in *. intros b Hb. specialize (H' b Hb).
  specialize (Hle (b_KeyID b)). rewrite negb_true_iff, !orb_false_iff in *.
  destruct H' as (H1 & H2). split; [done|]. lia.
Qed.

(** What is left aside when every day was visited could not be taken. *)
Lemma select_days_rest input byDay needed days cs sel counts :
  let '(cs', sel', counts') := select_days input byDay needed days (cs, sel, counts) in
  (forall k, map_get 0 counts' k <= map_get 0 counts k) /\
  (sel' < needed -> forall day, In day days ->
     (forall b, In b (map_get [] byDay day) -> In b cs') \/
     day_valid input counts' (map_get [] byDay day) = false) /\
  (forall b, In b cs -> In b cs').
Proof.
  revert cs sel counts. induction days as [|day days IH]; intros cs sel counts.
  { cbn [select_days]. split; [intros; lia|]. split; [by intros _ ? []|done]. }
  cbn [select_days]. destruct (day_valid input counts (map_get [] byDay day)) eqn:Ev; cbn [negb].
  - pose proof (foldl_take_item_any (map_get [] byDay day) cs sel counts) as Hf.
    destruct (foldl _ _ _) as [[cs1 sel1] counts1]. destruct Hf as (-> & Hc).
    assert (forall k, map_get 0 counts1 k <= map_get 0 counts k) as Hle.
    { intros k. rewrite Hc. pose proof (count_where_nonneg (key_is k) (map_get [] byDay day)). lia. }
    destruct (sel1 >=? needed) eqn:E.
    { split; [done|]. split; [lia|]. intros b Hb. apply in_or_app. by left. }
    specialize (IH (cs ++ map_get [] byDay day) sel1 counts1). destruct (select_days _ _ _ _ _) as [[cs' sel'] counts'].
    destruct IH as (H1 & H2 & H3). split; [intros k; specialize (H1 k); specialize (Hle k); lia|]. split.
    + intros Hs d [<-|Hd]; [left; intros b Hb; apply H3, in_or_app; by right|by apply H2].
    + intros b Hb. apply H3, in_or_app. by left.
  - specialize (IH cs sel counts). destruct (select_days _ _ _ _ _) as [[cs' sel'] counts'].
    destruct IH as (H1 & H2 & H3). split; [done|]. split; [|done].
    intros Hs d [<-|Hd]; [right|by apply H2]. by apply (day_valid_mono input counts).
Qed.

Lemma sum_by_filter_split p bs :
  sum_by b_Size bs = sum_by b_Size (List.filter p bs) + sum_by b_Size (List.filter (fun b => negb (p b)) bs).
Proof. unfold sum_by. induction bs as [|b bs IH]; simpl; [done|]. destruct (p b); simpl; lia. Qed.

Lemma sum_by_filter_le p bs : Forall (fun b => 0 < b_Size b) bs ->
  0 <= sum_by b_Size (List.filter p bs) <= sum_by b_Size bs.
Proof. unfold sum_by. induction 1 as [|b bs Hb _ IH]; simpl; [lia|]. destruct (p b); simpl; lia. Qed.

(** Lots of distinct days do not overlap. *)
Lemma sum_lots loc p bs days : Forall (fun b => 0 < b_Size b) bs -> StronglySorted Z.lt days ->
  0 <= sum_by b_Size (concat (map (fun n => List.filter (fun b => p b && day_is loc n b) bs) days))
    <= sum_by b_Size bs.
Proof.
  intros Hbs Hs. revert bs Hbs. induction Hs as [|n days Hs IH Hall]; intros bs Hbs; cbn [map concat].
  { split; [done|]. by apply sum_by_nonneg. }
  rewrite sum_by_app, (sum_by_filter_split (day_is loc n) bs).
  assert (map (fun m => List.filter (fun b => p b && day_is loc m b) bs) days =
          map (fun m => List.filter (fun b => p b && day_is loc m b) (List.filter (fun b => negb (day_is loc n b)) bs)) days) as ->.
  { apply map_ext_in. intros m Hm. rewrite Forall_forall in Hall. apply list_elem_of_In, Hall in Hm.
    clear -Hm. induction bs as [|b bs IH]; [done|]. cbn [List.filter].
    destruct (day_is loc n b) eqn:E; cbn [negb List.filter]; rewrite IH; [|done].
    unfold day_is in *. replace (local_day loc (backup_time b) =? m) with false by lia. by rewrite andb_false_r. }
  assert (forall q, Forall (fun b => 0 < b_Size b) (List.filter q bs)) as Hq.
  { intros q. clear -Hbs. induction Hbs as [|b bs Hb _ IH]; simpl; [done|]. destruct (q b); [by constructor|done]. }
  pose proof (IH _ (Hq (fun b => negb (day_is loc n b)))).
  assert (List.filter (fun b => p b && day_is loc n b) bs = List.filter p (List.filter (day_is loc n) bs)) as ->.
  { clear. induction bs as [|b bs IH]; [done|]. cbn [List.filter]. rewrite IH.
    destruct (day_is loc n b); cbn [List.filter]; destruct (p b); done. }
  pose proof (sum_by_filter_le p _ (Hq (day_is loc n))). lia.
Qed.

Section needed.
Context (LoadLocation : string -> result err location).

(** The bytes a run looks for. *)
Lemma select_run_needed input r (S : select_run LoadLocation input r) : input_ok input ->
  0 < sr_total _ _ _ S <= max_uint64 /\ 0 <= sr_used _ _ _ S <= sr_total _ _ _ S /\
  0 < BytesNeeded r <= max_uint64 /\
  BytesNeeded r + si_PendingPurgeBytes input =
    Z.max ((sr_total _ _ _ S + 9) / 10)
      (sr_used _ _ _ S + si_Expected48hBytes input - select_target (sr_total _ _ _ S) (si_ThresholdBasisPoints input)).
Proof.
  intros (Hf & He & Hp & _).
  destruct (Filesystem_Bytes_inv _ _ _ _ Hf (sr_bytes _ _ _ S)) as (_ & _ & _ & Hu & Ht & _).
  destruct (release_needed_spec _ _ _ _ _ Ht Hu (sr_threshold _ _ _ S) He (sr_release_eq _ _ _ S)) as (_ & Hr & ?).
  pose proof (sr_needed _ _ _ S) as En. pose proof (sr_pending _ _ _ S). unfold usub in En.
  rewrite wrap64_small in En by (unfold is_uint64 in *; lia). unfold is_uint64 in *. lia.
Qed.

(** Without shortfall the bytes looked for are found. *)
Lemma select_run_enough input r (S : select_run LoadLocation input r) : input_ok input ->
  ShortfallBytes r = 0 -> BytesNeeded r <= sum_by b_Size (Candidates r).
Proof.
  intros Hok Hsh. destruct (select_run_needed _ _ S Hok) as (_ & _ & Hneed & _).
  destruct (select_run_invariant _ _ _ S) as (Hsel & Hcs & _).
  assert (SelectedBytes r <= sum_by b_Size (Candidates r)).
  { rewrite Hsel. apply Z.mod_le; [|lia]. apply sum_by_nonneg, Forall_forall.
    destruct Hok as (_ & _ & _ & Hs). rewrite Forall_forall in Hs. intros b Hb%list_elem_of_In.
    apply Hs, list_elem_of_In, (Hcs b Hb). }
  pose proof (sr_shortfall _ _ _ S) as E. rewrite Hsh in E. destruct (_ <? _) eqn:E2; [|lia].
  assert (is_uint64 (SelectedBytes r)) by (rewrite Hsel; apply wrap64_range).
  unfold usub in E. rewrite wrap64_small in E by (unfold is_uint64 in *; lia). lia.
Qed.
End needed.

(** ** Midnights

    Those of a zone come one after the other; that of one day is not skipped. *)
Definition days_in_order (l : location) : Prop := forall n m, n <= m -> day_start l n <= day_start l m.
Definition begins_at_midnight (l : location) (n : Z) : Prop := local_seconds l (day_start l n) = n * seconds_per_day.
Lemma midnight_back l n k : begins_at_midnight l n -> add_days l (day_start l n) (- k) = day_start l (n - k).
Proof.
  intros Hn. unfold begins_at_midnight in Hn. rewrite add_days_eq. unfold local_day, local_second_of_day. rewrite Hn.
  rewrite Z.div_mul, Z.mod_mul by done. unfold day_start at 2, time_of_clock. unfold day_start. rewrite nanosecond_of_clock. do 3 f_equal. lia.
Qed.
Lemma UTC_in_order : days_in_order UTC.
Proof. intros n m H. destruct (Z.eq_dec n m) as [->|]; [lia|]. apply Z.lt_le_incl, UTC_civil_days. lia. Qed.

(** ** Claims *)
Section claims.
Context (LoadLocation : string -> result err location).

(** C32. Every backup that [Select] proposes is one of the archive, is complete,
    belongs to a key that is not revoked, whose minimum is at least seven days, and is not
    of the current civil day; the [time.Date] midnight of its day comes before that of the
    current day taken back by the minimum of its key, in any time zone.  Where the current
    day begins at 00:00, and the midnights of the zone are in order, its civil day is
    further in the past than the minimum: no day inside the retention window is ever
    proposed.  On a day whose midnight the clock skips one may be
    ([skipped_midnight_early]). *)
Theorem Select_safe input r loc b :
  Select LoadLocation input = Ok r -> LoadLocation (si_Timezone input) = Ok loc ->
  In b (Candidates r) ->
  let now := local_day loc (si_Now input) in
  In b (si_Backups input) /\ b_Status b = BackupComplete /\ revoked_key input (b_KeyID b) = false /\
  7 <= key_minimum input (b_KeyID b) <= 365000 /\ local_day loc (backup_time b) <> now /\
  localMidnight loc (backup_time b) < add_days loc (localMidnight loc (si_Now input)) (- key_minimum input (b_KeyID b)) /\
  (days_in_order loc -> begins_at_midnight loc now -> local_day loc (backup_time b) < now - key_minimum input (b_KeyID b)).
Proof.
  intros H Hl Hb now. destruct (Select_inv _ _ _ H) as [(Hn & _)|S]; [by rewrite Hn in Hb|].
  pose proof (sr_LoadLocation _ _ _ S) as Hl'. rewrite Hl in Hl'. injection Hl' as ->.
  destruct (select_run_invariant _ _ _ S) as (_ & Hcs & _). destruct (Hcs b Hb) as (Hin & Hst & Hrev & He).
  unfold expired in He. rewrite !andb_true_iff, !Z.ltb_lt in He. destruct He as [[Hsel Hcut] Htoday]. unfold backup_day in Hcut, Htoday.
  pose proof (group_days_minimum_from _ _ _ _ _ _ _ (sr_group _ _ _ S) b Hin Hsel) as Hm.
  unfold has_status in Hst. case_bool_decide; [|done]. do 4 (split; [done|]). split; [|split; [done|]].
  - intros E. rewrite !localMidnight_eq, E in Htoday. unfold now in Htoday. lia.
  - intros Hord Hmid. rewrite !localMidnight_eq, midnight_back in Hcut by done. apply Z.nle_gt. intros Hle%Hord. fold now in Hcut. lia.
Qed.

(** [Select] never proposes the last copy of a key: the key of every
    candidate has strictly more complete backups in the archive than there are
    candidates of that key. *)
Lemma Select_keeps_last_copy input r b :
  Select LoadLocation input = Ok r -> In b (Candidates r) ->
  count_where (key_is (b_KeyID b)) (Candidates r) <
  count_where (fun x => has_status BackupComplete x && key_is (b_KeyID b) x) (si_Backups input).
Proof.
  intros H Hb. destruct (Select_inv _ _ _ H) as [(Hn & _)|S]; [by rewrite Hn in Hb|].
  destruct (select_run_invariant _ _ _ S) as (_ & _ & Hk & Hpos). specialize (Hpos b Hb).
  rewrite Hk, complete_counts_spec in Hpos. lia.
Qed.

(** C33. A selection without shortfall brings the filesystem strictly below the
    threshold even after the bytes expected in the next 48 hours, counting the
    pending purges, and releases at least a tenth of the filesystem. *)
Theorem Select_reaches_target input r total used available :
  Select LoadLocation input = Ok r -> input_ok input ->
  Candidates r <> [] -> ShortfallBytes r = 0 ->
  Filesystem_Bytes (si_Filesystem input) = Ok (total, used, available) ->
  let released := si_PendingPurgeBytes input + sum_by b_Size (Candidates r) in
  (used + si_Expected48hBytes input - released) * 10000 < total * si_ThresholdBasisPoints input /\
  total <= 10 * released.
Proof.
  intros H Hok Hne Hsh Hb. destruct (Select_inv _ _ _ H) as [(Hn & _)|S]; [done|].
  pose proof (sr_bytes _ _ _ S) as Hb'. rewrite Hb in Hb'. injection Hb' as -> -> ->.
  destruct (select_run_needed _ _ _ S Hok) as (Ht & _ & _ & Hrel).
  pose proof (select_run_enough _ _ _ S Hok Hsh).
  destruct (select_target_spec _ _ Ht (sr_threshold _ _ _ S)) as (_ & Htarget & _).
  cbv zeta. split; [|Z.to_euclidean_division_equations; lia]. nia.
Qed.

(** [Select] takes whole civil days, the oldest first, and no more days
    than it needs: the candidates are exactly the expired backups of an
    increasing sequence of days, and without the last of these days the bytes
    released are not enough. *)
Lemma Select_oldest_days_first input r loc :
  Select LoadLocation input = Ok r -> LoadLocation (si_Timezone input) = Ok loc -> civil_days loc ->
  input_ok input -> sum_by b_Size (si_Backups input) <= max_uint64 -> Candidates r <> [] ->
  (forall b, In b (si_Backups input) -> four_digit_year (local_day loc (backup_time b))) ->
  let lot n := List.filter (fun b => expired loc input b && day_is loc n b) (si_Backups input) in
  exists days, StronglySorted Z.lt days /\ Candidates r = concat (map lot days) /\
    (forall first last, days = first ++ [last] -> sum_by b_Size (concat (map lot first)) < BytesNeeded r).
Proof.
  intros H Hl Hc Hok Hsum Hne Hy lot. destruct (Select_inv _ _ _ H) as [(Hn & _)|S]; [done|].
  pose proof (sr_LoadLocation _ _ _ S) as Hl'. rewrite Hl in Hl'. injection Hl' as ->.
  destruct (select_run_days _ _ _ S Hc Hy) as (ns & Hns & Hsorted & Hny).
  pose proof (sr_select _ _ _ S) as Hsel. rewrite Hns in Hsel.
  destruct (select_days_lots input (sr_groups _ _ _ S) (BytesNeeded r) ns [] 0 (complete_counts (si_Backups input))
              ltac:(done) Hsorted) as (lots & Hls & Hin & Hcand & Hlast).
  rewrite Hsel in Hcand. cbn [fst app] in Hcand.
  destruct (group_days_start _ _ _ _ _ (sr_group _ _ _ S)) as (Hm & _ & _).
  assert (forall l, (forall n, In n l -> In n ns) ->
    map (fun n => map_get [] (sr_groups _ _ _ S) (day_text n)) l = map lot l) as Hmap.
  { intros l Hl'. apply map_ext_in. intros n Hn. rewrite Hm. apply filter_ext_in. intros b Hb.
    apply in_group_day; [done|by apply Hy|]. rewrite Forall_forall in Hny. apply Hny, list_elem_of_In, Hl', Hn. }
  exists lots. split; [done|]. split; [by rewrite Hcand, Hmap|].
  intros first last Hlots. destruct (select_run_needed _ _ _ S Hok) as (_ & _ & Hpos & _).
  destruct (decide (first = [])) as [->|Hnf]; [simpl; lia|].
  specialize (Hlast first last Hlots Hnf). rewrite Z.add_0_l, (Hmap first) in Hlast.
  2: { intros n Hn. apply Hin. rewrite Hlots. apply in_or_app. by left. }
  destruct Hok as (_ & _ & _ & Hs). rewrite Hlots in Hls.
  pose proof (sum_lots (sr_loc _ _ _ S) (expired (sr_loc _ _ _ S) input) _ first Hs
                (StronglySorted_app_1_l _ _ _ Hls)).
  rewrite wrap64_small in Hlast; [done|]. unfold is_uint64, lot. lia.
Qed.

(** When [Select] reports a shortfall it left nothing behind that it could
    have taken: every expired backup that is not a candidate shares its civil
    day with one that is not complete, that belongs to a revoked key, or whose
    key would be left without a copy. *)
Lemma Select_shortfall_exhaustive input r loc b :
  Select LoadLocation input = Ok r -> LoadLocation (si_Timezone input) = Ok loc -> input_ok input ->
  0 < ShortfallBytes r -> In b (si_Backups input) -> expired loc input b = true -> ~ In b (Candidates r) ->
  let same_day x := expired loc input x && String.eqb (backup_key loc x) (backup_key loc b) in
  exists x, In x (si_Backups input) /\ same_day x = true /\
    (b_Status x <> BackupComplete \/ revoked_key input (b_KeyID x) = true \/
     count_where (fun y => has_status BackupComplete y && key_is (b_KeyID x) y) (si_Backups input) <=
     count_where (key_is (b_KeyID x)) (Candidates r) +
     count_where (key_is (b_KeyID x)) (List.filter same_day (si_Backups input))).
Proof.
  intros H Hl Hok Hsh Hb He Hnot same_day. destruct (Select_inv _ _ _ H) as [(_ & Hz & _)|S]; [lia|].
  pose proof (sr_LoadLocation _ _ _ S) as Hl'. rewrite Hl in Hl'. injection Hl' as ->.
  destruct (select_run_invariant _ _ _ S) as (_ & _ & Hk & _).
  pose proof (sr_shortfall _ _ _ S) as Hshort. destruct (_ <? _) eqn:E in Hshort; [|lia].
  destruct (group_days_start _ _ _ _ _ (sr_group _ _ _ S)) as (Hm & Hkeys & _).
  pose proof (select_days_rest input (sr_groups _ _ _ S) (BytesNeeded r) (sort_strings (sr_days _ _ _ S))
                [] 0 (complete_counts (si_Backups input))) as Hrest.
  rewrite (sr_select _ _ _ S) in Hrest. destruct Hrest as (_ & Hrest & _).
  assert (map_get [] (sr_groups _ _ _ S) (backup_key (sr_loc _ _ _ S) b) = List.filter same_day (si_Backups input))
    as Hday by apply Hm.
  assert (In b (List.filter same_day (si_Backups input))) as Hbd.
  { apply filter_In. split; [done|]. unfold same_day. by rewrite He, String.eqb_refl. }
  destruct (Hrest ltac:(lia) (backup_key (sr_loc _ _ _ S) b)) as [Hall|Hinv].
  - eapply Permutation_in; [symmetry; apply (merge_sort_Permutation str_le)|]. apply Hkeys.
    rewrite <- Hday in Hbd. unfold map_get in Hbd. destruct (sr_groups _ _ _ S !! _); [eauto|done].
  - rewrite Hday in Hall. by destruct (Hnot (Hall b Hbd)).
  - rewrite Hday in Hinv. apply day_valid_false in Hinv as (x & Hx & Hbad). apply filter_In in Hx as [Hx Hxd].
    exists x. split; [done|]. split; [done|]. destruct Hbad as [?|[?|Hlt]]; [auto..|].
    right. right. rewrite Hk, complete_counts_spec in Hlt. lia.
Qed.

(** [RetentionProtected] protects a backup from the midnight that begins
    the [days]-th civil day before the current one, on any civil calendar; a
    minimum out of range or an unknown timezone protects everything. *)
Lemma RetentionProtected_spec b now timezone days loc :
  LoadLocation timezone = Ok loc -> civil_days loc ->
  RetentionProtected LoadLocation b now timezone days =
  if (7 <=? days) && (days <=? 365000)
  then (day_start loc (local_day loc now - days) <=? backup_time b, None)
  else (true, Some (ErrText "minimo di conservazione non valido")).
Proof.
  intros Hl Hc. unfold RetentionProtected, MinimumDays. rewrite Hl, localMidnight_eq, add_days_day_start by done.
  replace ((days <? 7) || (365000 <? days)) with (negb ((7 <=? days) && (days <=? 365000)))
    by (destruct (7 <=? days) eqn:?, (days <=? 365000) eqn:?; simpl; lia).
  destruct (_ && _); cbn [negb]; [|done]. rewrite Z.ltb_antisym, negb_involutive. done.
Qed.

(** The selection and the check made again before each destructive step
    agree: a candidate of [Select] is not protected for the minimum of its key,
    in every timezone where a civil day ends before the next one starts. *)
Lemma Select_candidates_unprotected input r loc b :
  Select LoadLocation input = Ok r -> LoadLocation (si_Timezone input) = Ok loc -> civil_days loc ->
  (forall t, t < day_start loc (local_day loc t + 1)) -> In b (Candidates r) ->
  RetentionProtected LoadLocation b (si_Now input) (si_Timezone input) (key_minimum input (b_KeyID b)) = (false, None).
Proof.
  intros H Hl Hc Hend Hb. destruct (Select_inv _ _ _ H) as [(Hn & _)|S]; [by rewrite Hn in Hb|].
  pose proof (sr_LoadLocation _ _ _ S) as Hl'. rewrite Hl in Hl'. injection Hl' as ->.
  destruct (select_run_invariant _ _ _ S) as (_ & Hcs & _). destruct (Hcs b Hb) as (Hin & _ & _ & He).
  apply expired_days in He as (Hsel & Hd & _); [|done].
  pose proof (group_days_minimum_from _ _ _ _ _ _ _ (sr_group _ _ _ S) b Hin Hsel) as Hm.
  unfold RetentionProtected. rewrite Hl, localMidnight_eq, add_days_day_start by done.
  replace (_ || _) with false by lia. cbn zeta.
  specialize (Hend (backup_time b)).
  assert (day_start (sr_loc _ _ _ S) (local_day (sr_loc _ _ _ S) (backup_time b) + 1) <=
          day_start (sr_loc _ _ _ S) (local_day (sr_loc _ _ _ S) (si_Now input) + - key_minimum input (b_KeyID b))).
  { destruct (Z.eq_dec (local_day (sr_loc _ _ _ S) (backup_time b) + 1)
      (local_day (sr_loc _ _ _ S) (si_Now input) + - key_minimum input (b_KeyID b))) as [->|]; [lia|].
    apply Z.lt_le_incl, day_start_lt_iff; [done|lia]. }
  replace (_ <? _) with true by lia. done.
Qed.
End claims.

(** ** Witnesses: three daily copies of a key on an archive at 90%. *)
Module Examples.
Definition copy (id received : string) (size : Z) : backup :=
  Backup id BackupComplete size "" received "k" "" (Metadata "d" "n" "") 0 "" 0 0 0.
Definition input (size : Z) : selection_input :=
  SelectionInput (date UTC 2026 1 31 12 0 0 0) "UTC" (Filesystem 1000 100 100 1000) 8000 7 ∅ 0 0
    [ copy "b" "2026-01-02T03:00:00Z" size; copy "a" "2026-01-01T03:00:00Z" size;
      copy "c" "2026-01-03T03:00:00Z" size ] ∅.
Definition load (_ : string) : result err location := Ok UTC.
Definition selected (size : Z) : selection :=
  match Select load (input size) with Ok r => r | Err _ => empty_selection 0 "" false end.
Definition b1 := copy "a" "2026-01-01T03:00:00Z" 60000.

Lemma input_is_ok size : 0 < size -> input_ok (input size).
Proof. intros. repeat split; try done. repeat constructor; done. Qed.
Lemma input_years size b : In b (si_Backups (input size)) -> four_digit_year (local_day UTC (backup_time b)).
Proof. intros [<-|[<-|[<-|[]]]]; vm_compute; split; discriminate. Qed.
End Examples.

Lemma Select_safe_witness : In Examples.b1 (Candidates (Examples.selected 60000)) /\
  local_day UTC (backup_time Examples.b1) < local_day UTC (si_Now (Examples.input 60000)) - 7.
Proof.
  split; [vm_compute; by left|].
  refine (proj2 (proj2 (proj2 (proj2 (proj2 (proj2 (Select_safe Examples.load (Examples.input 60000) (Examples.selected 60000) UTC Examples.b1 _ _ _)))))) UTC_in_order _);
    [vm_compute; reflexivity|reflexivity|vm_compute; by left|apply (cd_midnight _ UTC_civil_days)].
Defined.

(** East of Greenwich the [time.Date] of a midnight that the clock skips is 01:00: taken
    back by the minimum it is 01:00 of a day that is inside the window, whose midnight
    comes before.  On the day of the jump a copy of the seventh day before is proposed. *)
Module SkippedMidnight.
Definition jump : Z := unix (date UTC 2026 9 5 23 0 0 0).
Definition zone : location :=
  Location (fun s => if s <? jump then Span 3600 (-2^63) jump else Span 7200 jump max_int64).
Definition recent : list backup :=
  [ Examples.copy "a" "2026-08-30T10:00:00Z" 200000; Examples.copy "b" "2026-09-01T10:00:00Z" 200000 ].
Definition input : selection_input :=
  SelectionInput (date zone 2026 9 6 12 0 0 0) "zone" (Filesystem 1000 100 100 1000) 8000 7 ∅ 0 0 recent ∅.
End SkippedMidnight.
Lemma skipped_midnight_early :
  match Select (fun _ => Ok SkippedMidnight.zone) SkippedMidnight.input with
  | Ok r => map (fun b => (b_ID b, local_day SkippedMidnight.zone (si_Now SkippedMidnight.input) - local_day SkippedMidnight.zone (backup_time b))) (Candidates r) = [("a"%string, 7)]
  | Err _ => False
  end.
Proof. vm_compute. reflexivity. Qed.

Lemma Select_reaches_target_witness : 1000000 <= 10 * sum_by b_Size (Candidates (Examples.selected 60000)).
Proof.
  apply (Select_reaches_target Examples.load (Examples.input 60000) (Examples.selected 60000) 1000000 900000 100000);
    [vm_compute; reflexivity|by apply Examples.input_is_ok|vm_compute; discriminate|vm_compute; reflexivity..].
Defined.

