(* ===== verification/GoFloat.v ===== *)
(** Go's [float64]: IEEE 754 binary64 with rounding to nearest, ties to even,
    on the Standard Library's [SpecFloat]; no operation is fused. *)
From S2P Require Import Prelude GoTime.
From Stdlib Require Import SpecFloat.

Definition float64 : Type := spec_float.
Definition prec : Z := 53.
Definition emax : Z := 1024.

Definition f_add (x y : float64) : float64 := SFadd prec emax x y.
Definition f_sub (x y : float64) : float64 := SFsub prec emax x y.
Definition f_mul (x y : float64) : float64 := SFmul prec emax x y.
Definition f_div (x y : float64) : float64 := SFdiv prec emax x y.
Definition f_abs (x : float64) : float64 := SFabs x.
Definition f_ltb (x y : float64) : bool := SFltb x y.
Definition f_leb (x y : float64) : bool := SFleb x y.

(** [float64(n)]. *)
Definition f_of_int (n : Z) : float64 := binary_normalize prec emax n 0 false.
(** An untyped constant [n / d], rounded once. *)
Definition f_const (n d : Z) : float64 := f_div (f_of_int n) (f_of_int d).
Definition f_zero : float64 := f_of_int 0.

Definition f_is_nan (x : float64) : bool := match x with S754_nan => true | _ => false end.
Definition f_is_inf (x : float64) : bool := match x with S754_infinity _ => true | _ => false end.

(** Exact integer parts of a finite value. *)
Definition f_floor (x : float64) : Z :=
  match x with
  | S754_finite s m e =>
    let v := if s then Z.neg m else Z.pos m in
    if 0 <=? e then v * 2 ^ e else v / 2 ^ (- e)
  | _ => 0
  end.
Definition f_ceil (x : float64) : Z :=
  match x with
  | S754_finite s m e =>
    let v := if s then Z.neg m else Z.pos m in
    if 0 <=? e then v * 2 ^ e else - ((- v) / 2 ^ (- e))
  | _ => 0
  end.
(** [math.Round]: half away from zero. *)
Definition f_round (x : float64) : Z :=
  match x with
  | S754_finite s m e =>
    let a := if 0 <=? e then Z.pos m * 2 ^ e else (2 * Z.pos m + 2 ^ (- e)) / (2 * 2 ^ (- e)) in
    if s then - a else a
  | _ => 0
  end.
(** [int64(x)] of an integral value: out of range is the "integer indefinite"
    value of amd64. *)
Definition int64_of (z : Z) : Z :=
  if (z <? - 2^63) || (max_int64 <? z) then - 2^63 else z.

(** [d.Hours()]: whole hours plus the rest over an hour. *)
Definition Hours (d : Z) : float64 :=
  f_add (f_of_int (Z.quot d Hour)) (f_div (f_of_int (Z.rem d Hour)) (f_of_int Hour)).

(** [sort.Float64s] puts NaN first, then increases. *)
Definition f_less (x y : float64) : bool := f_ltb x y || (f_is_nan x && negb (f_is_nan y)).
