(* ===== verification/Schedule.v ===== *)
(** Monitoring: the appointments of a learned model, their one-to-one matching
    with the copies received, and the findings of a check
    ([src/internal/policy/policy.go], [Check] to [matchAppointments]). *)
From S2P Require Import Prelude GoTime GoFloat GoString Model Policy.

Definition ScheduleTolerance : Z := 30 * Minute.
Definition SizeTolerance : float64 := f_const 1 5.

Record observation : Type := Observation {
  ob_BackupID : string; ob_KeyID : string; ob_At : Z; ob_Size : Z }.

Record appointment : Type := Appointment {
  MinuteOfDay : Z; MedianSize : Z; GrowthPerDay : float64; MedianResidual : float64 }.

(** [km_Schedule] maps a weekday, Sunday being 0, to its appointments. *)
Record key_model : Type := KeyModel {
  km_KeyID : string; km_Timezone : string; km_LearnedAt : Z; km_Schedule : gmap Z (list appointment);
  km_Reliable : bool; km_ReviewRequired : bool; km_Reason : string }.

Record finding : Type := Finding {
  f_StableKey : string; f_Kind : string; f_KeyID : string; f_BackupID : string; f_Detail : string; f_At : Z }.

Definition schedule_of (m : key_model) (weekday : Z) : list appointment := default [] (km_Schedule m !! weekday).

(** The instant of an appointment on the civil day of [day]. *)
Definition appointmentTime (loc : location) (day minuteOfDay : Z) : Z :=
  let '(y, m, d) := local_date loc day in
  date loc y m d (Z.quot minuteOfDay 60) (Z.rem minuteOfDay 60) 0 0.

Record check_slot : Type := CheckSlot { sl_at : Z; sl_app : appointment; sl_report : bool }.

(** [for day := day; day.Before(stop); day = day.AddDate(0, 0, 1)] *)
Fixpoint days_until (loc : location) (fuel : nat) (day stop : Z) : list Z :=
  match fuel with
  | O => []
  | S fuel' => if day <? stop then day :: days_until loc fuel' (add_days loc day 1) stop else []
  end.
(** One step per civil day, and two to spare. *)
Definition day_fuel (loc : location) (day stop : Z) : nat :=
  (2 + Z.to_nat (local_day loc stop - local_day loc day))%nat.

(** [!t.After(u)] is [t <=? u], [!t.Before(u)] is [u <=? t]. *)
Definition counted (m : key_model) (now : Z) (o : observation) : bool :=
  String.eqb (ob_KeyID o) (km_KeyID m) && (ob_At o <=? now).
Definition reported (reportFrom reportTo t : Z) : bool := (reportFrom <? t) && (t <=? reportTo).

(** The first day whose appointments take part: the day before the report, or
    before the earliest observation. *)
Definition start_day (loc : location) (m : key_model) (observations : list observation) (reportFrom now : Z) : Z :=
  foldl (fun startDay o =>
    if counted m now o then
      let candidate := add_days loc (localMidnight loc (ob_At o)) (-1) in
      if candidate <? startDay then candidate else startDay
    else startDay)
    (add_days loc (localMidnight loc reportFrom) (-1)) observations.
Definition end_day (loc : location) (reportTo : Z) : Z := add_days loc (localMidnight loc reportTo) 2.

Definition day_slots (loc : location) (m : key_model) (reportFrom reportTo now day : Z) : list check_slot :=
  flat_map (fun app =>
    let at_ := appointmentTime loc day (MinuteOfDay app) in
    if now <? at_ - ScheduleTolerance then []
    else [CheckSlot at_ app (reported reportFrom reportTo at_)])
    (schedule_of m (weekday loc day)).

Definition slot_before (a b : check_slot) : bool := sl_at a <? sl_at b.
Definition observation_before (a b : observation) : bool :=
  if ob_At a =? ob_At b then String.ltb (ob_BackupID a) (ob_BackupID b) else ob_At a <? ob_At b.

Definition expected_slots (loc : location) (m : key_model) (observations : list observation)
    (reportFrom reportTo now : Z) : list check_slot :=
  let start := start_day loc m observations reportFrom now in
  let stop := end_day loc reportTo in
  sort_by slot_before
    (flat_map (day_slots loc m reportFrom reportTo now) (days_until loc (day_fuel loc start stop) start stop)).

(** ** The matching loop

    [rest] is [expected[slotIndex:]]. *)
Fixpoint skip_slots (slotIndex : nat) (rest : list check_slot) (t : Z) : nat * list check_slot :=
  match rest with
  | [] => (slotIndex, [])
  | s :: rest' => if sl_at s + ScheduleTolerance <? t then skip_slots (S slotIndex) rest' t else (slotIndex, rest)
  end.

Fixpoint match_loop (m : key_model) (now : Z) (observations : list observation) (observationIndex slotIndex : nat)
    (rest : list check_slot) (matchObservation matchSlot : list (option nat))
    : list (option nat) * list (option nat) :=
  match observations with
  | [] => (matchObservation, matchSlot)
  | o :: observations' =>
    if negb (counted m now o) then
      match_loop m now observations' (S observationIndex) slotIndex rest matchObservation matchSlot
    else
      let '(slotIndex, rest) := skip_slots slotIndex rest (ob_At o) in
      match rest with
      | s :: rest' =>
        if negb (ob_At o <? sl_at s - ScheduleTolerance) then
          match_loop m now observations' (S observationIndex) (S slotIndex) rest'
            (<[observationIndex := Some slotIndex]> matchObservation)
            (<[slotIndex := Some observationIndex]> matchSlot)
        else match_loop m now observations' (S observationIndex) slotIndex rest matchObservation matchSlot
      | [] => match_loop m now observations' (S observationIndex) slotIndex rest matchObservation matchSlot
      end
  end.

(** [-1] is [None]. *)
Definition matchAppointments (loc : location) (m : key_model) (observations : list observation)
    (reportFrom reportTo now : Z)
    : list check_slot * list observation * list (option nat) * list (option nat) :=
  let expected := expected_slots loc m observations reportFrom reportTo now in
  let ordered := sort_by observation_before observations in
  let '(matchObservation, matchSlot) :=
    match_loop m now ordered 0 0 expected (replicate (length ordered) None) (replicate (length expected) None) in
  (expected, ordered, matchObservation, matchSlot).

(** ** Findings *)
Definition f_24 : float64 := f_of_int 24.
(** [t.Sub(learnedAt).Hours() / 24] *)
Definition days_since (learnedAt t : Z) : float64 := f_div (Hours (time_sub t learnedAt)) f_24.
Definition expected_size (m : key_model) (app : appointment) (t : Z) : float64 :=
  f_add (f_of_int (MedianSize app)) (f_mul (GrowthPerDay app) (days_since (km_LearnedAt m) t)).
(** Outside the tolerance of a fifth of the expected size. *)
Definition size_out (m : key_model) (app : appointment) (o : observation) : bool :=
  let expectedSize := expected_size m app (ob_At o) in
  f_leb expectedSize f_zero ||
  f_ltb (f_mul expectedSize SizeTolerance) (f_abs (f_sub (f_of_int (ob_Size o)) expectedSize)).

Definition slot_key (m : key_model) (t : Z) : string :=
  ("slot:" ++ km_KeyID m ++ ":" ++ format_rfc3339 UTC t)%string.

Definition slot_finding (m : key_model) (now : Z) (ordered : list observation)
    (slot : check_slot) (matched : option nat) : list finding :=
  if negb (sl_report slot) || (now <? sl_at slot + ScheduleTolerance) then []
  else
    match matched with
    | None => [Finding (slot_key m (sl_at slot)) "schedule_missing" (km_KeyID m) "" "copia attesa non ricevuta" (sl_at slot)]
    | Some j =>
      match ordered !! j with
      | Some o =>
        if size_out m (sl_app slot) o then
          [Finding ("size:" ++ ob_BackupID o) "size" (km_KeyID m) (ob_BackupID o)
             "dimensione fuori dalla tolleranza del 20%" (ob_At o)]
        else []
      | None => []     (* unreachable: indices of [matchSlot] are in range *)
      end
    end.

(** Received in the period, for the counts and the extra copies. *)
Definition received_in (m : key_model) (reportFrom reportTo now : Z) (o : observation) : bool :=
  String.eqb (ob_KeyID o) (km_KeyID m) && reported reportFrom reportTo (ob_At o) && (ob_At o <=? now).

Definition extra_detail (m : key_model) (period : string) (expectedCount receivedCount excessBytes : Z) : string :=
  ("AVVISO NON BLOCCANTE - copie eccedenti: chiave " ++ km_KeyID m ++ ", periodo " ++ period ++ ", attese " ++
   pretty expectedCount ++ ", ricevute " ++ pretty receivedCount ++ ", volume eccedente " ++ pretty excessBytes ++
   " byte; verificare configurazione o possibili caricamenti impropri")%string.

Definition is_none {A} (o : option A) : bool := match o with None => true | Some _ => false end.

Definition check_findings (loc : location) (m : key_model) (observations : list observation)
    (reportFrom reportTo now : Z) : list finding :=
  let '(expected, ordered, matchObservation, matchSlot) :=
    matchAppointments loc m observations reportFrom reportTo now in
  let missing := concat (zip_with (slot_finding m now ordered) expected matchSlot) in
  let expectedCount := count_where sl_report expected in
  let receivedCount := count_where (received_in m reportFrom reportTo now) ordered in
  let extra := List.filter (fun p => is_none (snd p) && received_in m reportFrom reportTo now (fst p))
                 (zip ordered matchObservation) in
  let excessBytes := wrap_int64 (sum_by (fun p => ob_Size (fst p)) extra) in
  let period := (format_rfc3339 loc reportFrom ++ ".." ++ format_rfc3339 loc reportTo)%string in
  missing ++
  map (fun p => Finding ("extra:" ++ ob_BackupID (fst p)) "extra" (km_KeyID m) (ob_BackupID (fst p))
                 (extra_detail m period expectedCount receivedCount excessBytes) (ob_At (fst p))) extra.

Section load_location.
Context (LoadLocation : string -> result err location).

Definition timezone_finding (m : key_model) : finding :=
  Finding ("timezone:" ++ km_KeyID m) "model" (km_KeyID m) "" "fuso del modello non valido" zero_time.

Definition checkWindow (m : key_model) (observations : list observation) (reportFrom reportTo now : Z) : list finding :=
  if negb (km_Reliable m) || km_ReviewRequired m then
    [Finding ("model:" ++ km_KeyID m) "model" (km_KeyID m) "" "modello non affidabile o da revisionare" zero_time]
  else
    match LoadLocation (km_Timezone m) with
    | Err _ => [timezone_finding m]
    | Ok loc => check_findings loc m observations reportFrom reportTo now
    end.

Definition Check (m : key_model) (observations : list observation) (now : Z) : list finding :=
  match LoadLocation (km_Timezone m) with
  | Err _ => [timezone_finding m]
  | Ok loc =>
    let today := localMidnight loc now in
    checkWindow m observations (add_days loc today (-1) - Nanosecond) (add_days loc today 1 - Nanosecond) now
  end.

Definition CheckPeriod (m : key_model) (observations : list observation) (from to now : Z) : list finding :=
  if to <? from then
    [Finding ("period:" ++ km_KeyID m) "model" (km_KeyID m) "" "periodo di controllo non valido" zero_time]
  else checkWindow m observations from to now.
End load_location.

(** ** The matching as a list of pairs (slot, observation) *)
Definition compatible (s : check_slot) (o : observation) : Prop :=
  sl_at s - ScheduleTolerance <= ob_At o <= sl_at s + ScheduleTolerance.

Fixpoint greedy (m : key_model) (now : Z) (observations : list observation) (j i : nat) (rest : list check_slot)
    : list (nat * nat) :=
  match observations with
  | [] => []
  | o :: observations' =>
    if negb (counted m now o) then greedy m now observations' (S j) i rest
    else
      let '(i, rest) := skip_slots i rest (ob_At o) in
      match rest with
      | s :: rest' =>
        if negb (ob_At o <? sl_at s - ScheduleTolerance)
        then (i, j) :: greedy m now observations' (S j) (S i) rest'
        else greedy m now observations' (S j) i rest
      | [] => greedy m now observations' (S j) i rest
      end
  end.

Definition assign (l : list (option nat)) (ps : list (nat * nat)) : list (option nat) :=
  foldl (fun l p => <[fst p := Some (snd p)]> l) l ps.
Definition flip_pair (p : nat * nat) : nat * nat := (snd p, fst p).

Lemma match_loop_greedy m now os j i rest mo ms :
  match_loop m now os j i rest mo ms =
  (assign mo (map flip_pair (greedy m now os j i rest)), assign ms (greedy m now os j i rest)).
Proof.
  revert j i rest mo ms. induction os as [|o os IH]; intros j i rest mo ms; [done|].
  cbn [match_loop greedy]. destruct (negb (counted m now o)); [apply IH|].
  destruct (skip_slots i rest (ob_At o)) as [i' [|s rest']]; [apply IH|].
  destruct (negb _); [|apply IH]. rewrite IH. reflexivity.
Qed.

Lemma skip_slots_spec i rest t : exists k,
  skip_slots i rest t = ((i + k)%nat, drop k rest) /\
  (forall x s, (x < k)%nat -> rest !! x = Some s -> sl_at s + ScheduleTolerance < t) /\
  (forall s, drop k rest !! 0%nat = Some s -> t <= sl_at s + ScheduleTolerance).
Proof.
  revert i. induction rest as [|s rest IH]; intros i.
  { exists 0%nat. cbn [skip_slots drop]. rewrite Nat.add_0_r. split; [done|]. split; [intros; lia|done]. }
  cbn [skip_slots]. destruct (_ <? t) eqn:E.
  - destruct (IH (S i)) as (k & -> & H1 & H2). exists (S k). rewrite Nat.add_succ_r. split; [done|]. split.
    + intros [|x] s' Hx Hs; [injection Hs as <-; lia|]. apply (H1 x); [lia|done].
    + exact H2.
  - exists 0%nat. rewrite Nat.add_0_r. split; [done|]. split; [intros; lia|]. intros s' [= <-]. lia.
Qed.

(** A set of pairs that uses slots from [i] on and observations from [j] on,
    each at most once. *)
Section matching.
Context (m : key_model) (now : Z) (slots : list check_slot) (obs : list observation).

Definition good_pair (p : nat * nat) : Prop :=
  exists s o, slots !! fst p = Some s /\ obs !! snd p = Some o /\ counted m now o = true /\ compatible s o.
Record matching (i j : nat) (M : list (nat * nat)) : Prop := Matching {
  mt_slots : NoDup (map fst M); mt_obs : NoDup (map snd M);
  mt_good : forall p, In p M -> (i <= fst p)%nat /\ (j <= snd p)%nat /\ good_pair p }.

Lemma matching_from i j i' j' M : matching i j M ->
  (forall p, In p M -> (i' <= fst p)%nat /\ (j' <= snd p)%nat) -> matching i' j' M.
Proof. intros [H1 H2 H3] H. split; [done..|]. intros p Hp. destruct (H p Hp), (H3 p Hp) as (_ & _ & ?). auto. Qed.

Lemma matching_incl i j i' j' M M' : matching i j M -> NoDup (map fst M') -> NoDup (map snd M') ->
  (forall p, In p M' -> In p M /\ (i' <= fst p)%nat /\ (j' <= snd p)%nat) -> matching i' j' M'.
Proof. intros [_ _ H3] Hf Hs H. split; [done..|]. intros p Hp. destruct (H p Hp) as (Hin & ? & ?), (H3 p Hin) as (_ & _ & ?). auto. Qed.

Lemma greedy_sound j i : matching i j (greedy m now (drop j obs) j i (drop i slots)).
Proof.
  remember (drop j obs) as os eqn:Eo. revert j i Eo.
  induction os as [|o os IH]; intros j i Eo; [split; [constructor..|by intros ? []]|].
  assert (obs !! j = Some o) as Ho by (rewrite <- (Nat.add_0_r j), <- lookup_drop, <- Eo; done).
  assert (os = drop (S j) obs) as Eo'.
  { rewrite <- Nat.add_1_r, <- drop_drop, <- Eo. done. }
  assert (forall i', (i <= i')%nat -> matching i j (greedy m now os (S j) i' (drop i' slots))) as Hskip.
  { intros i' Hi'. apply (matching_from i' (S j)); [by apply IH|]. intros p Hp.
    destruct (mt_good _ _ _ (IH (S j) i' Eo') p Hp) as (? & ? & _). lia. }
  cbn [greedy]. destruct (counted m now o) eqn:Ec; cbn [negb]; [|by apply Hskip].
  destruct (skip_slots_spec i (drop i slots) (ob_At o)) as (k & -> & _ & Hk).
  rewrite drop_drop in *. pose proof (Hskip (i + k)%nat ltac:(lia)) as Hsk.
  destruct (drop (i + k) slots) as [|s rest] eqn:Es; [exact Hsk|].
  destruct (ob_At o <? sl_at s - ScheduleTolerance) eqn:Et; cbn [negb]; [exact Hsk|].
  assert (rest = drop (S (i + k)) slots) as -> by (rewrite <- Nat.add_1_r, <- drop_drop, Es; done).
  assert (slots !! (i + k)%nat = Some s) as Hs by (rewrite <- (Nat.add_0_r (i + k)), <- lookup_drop, Es; done).
  destruct (IH (S j) (S (i + k)) Eo') as [Hf Hsn Hg]. split.
  - cbn. apply NoDup_cons. split; [|done]. intros (p & Hp & Hin)%list_elem_of_In%in_map_iff.
    destruct (Hg p Hin) as (? & _). lia.
  - cbn. apply NoDup_cons. split; [|done]. intros (p & Hp & Hin)%list_elem_of_In%in_map_iff.
    destruct (Hg p Hin) as (_ & ? & _). lia.
  - intros p [<-|Hp]; cbn.
    + split; [lia|]. split; [lia|]. exists s, o. specialize (Hk s eq_refl). unfold compatible. cbn. repeat split; try done; lia.
    + destruct (Hg p Hp) as (? & ? & ?). split; [lia|]. split; [lia|done].
Qed.

Lemma NoDup_map_pair {A} (g : nat * nat -> A) M p q : NoDup (map g M) -> In p M -> In q M -> g p = g q -> p = q.
Proof.
  induction M as [|r M IH]; [done|]. cbn. intros [Hn Hd]%NoDup_cons [->|Hp] [->|Hq] E; [done|..|by apply IH];
    exfalso; apply Hn, list_elem_of_In, in_map_iff; eauto.
Qed.

(** Of a matching, the pairs of the first slot and of the first observation
    give way to at most one pair. *)
Lemma nodup_filter_one {A} (g : nat * nat -> A) (q : nat * nat -> bool) x (M : list (nat * nat)) :
  NoDup (map g M) -> (forall p, q p = true -> g p = x) ->
  List.filter q M = [] \/ exists p, In p M /\ q p = true /\ List.filter q M = [p].
Proof.
  induction M as [|p M IH]; [by left|]. cbn. intros [Hn Hd]%NoDup_cons Hq.
  destruct (q p) eqn:E; [right|].
  - exists p. split; [by left|]. split; [done|]. f_equal.
    destruct (List.filter q M) as [|r l] eqn:Ef; [done|]. exfalso. apply Hn, list_elem_of_In, in_map_iff.
    assert (In r (List.filter q M)) as [Hr Hqr]%filter_In by (rewrite Ef; by left).
    exists r. split; [|done]. by rewrite (Hq r Hqr), (Hq p E).
  - destruct (IH Hd Hq) as [->|(r & Hr & Hqr & ->)]; [by left|right]. exists r. split; [by right|done].
Qed.

Lemma filter_split_length (q : nat * nat -> bool) M :
  length M = (length (List.filter q M) + length (List.filter (fun p => negb (q p)) M))%nat.
Proof. induction M as [|p M IH]; [done|]. cbn. destruct (q p); cbn; lia. Qed.

Lemma nodup_map_filter {A} (g : nat * nat -> A) (q : nat * nat -> bool) M :
  NoDup (map g M) -> NoDup (map g (List.filter q M)).
Proof.
  induction M as [|p M IH]; [done|]. cbn. intros [Hn Hd]%NoDup_cons. destruct (q p); [|by apply IH].
  cbn. apply NoDup_cons. split; [|by apply IH]. intros (r & E & [Hr _]%filter_In)%list_elem_of_In%in_map_iff.
  apply Hn, list_elem_of_In, in_map_iff. by exists r.
Qed.

Lemma matching_exchange i j M :
  matching i j M -> (forall a b, In (a, j) M -> In (i, b) M -> good_pair (a, b)) ->
  exists M', matching (S i) (S j) M' /\ (length M <= S (length M'))%nat.
Proof.
  intros HM Hx. destruct HM as [Hf Hs Hg].
  set (q1 (p : nat * nat) := Nat.eqb (fst p) i). set (q2 (p : nat * nat) := Nat.eqb (snd p) j).
  set (R := List.filter (fun p => negb (q1 p)) M). set (B := List.filter (fun p => negb (q2 p)) R).
  assert (forall p, In p B -> In p M /\ fst p <> i /\ snd p <> j) as HB.
  { intros p [[Hp H1]%filter_In H2]%filter_In. unfold q1, q2 in *.
    apply negb_true_iff, Nat.eqb_neq in H1, H2. done. }
  assert (matching (S i) (S j) B) as HmB.
  { split; [by apply nodup_map_filter, nodup_map_filter..|]. intros p Hp.
    destruct (HB p Hp) as (Hin & ? & ?), (Hg p Hin) as (? & ? & ?). split; [lia|]. split; [lia|done]. }
  pose proof (filter_split_length q1 M) as L1. pose proof (filter_split_length q2 R) as L2.
  fold R in L1. fold B in L2.
  destruct (nodup_filter_one fst q1 i M Hf ltac:(intros p; apply Nat.eqb_eq)) as [E1|([i1 b] & Hp1 & Hq1 & E1)];
    rewrite E1 in L1; cbn in L1.
  { exists B. split; [done|].
    destruct (nodup_filter_one snd q2 j R (nodup_map_filter _ _ _ Hs) ltac:(intros p; apply Nat.eqb_eq))
      as [E2|(p2 & _ & _ & E2)]; rewrite E2 in L2; cbn in L2; lia. }
  destruct (nodup_filter_one snd q2 j R (nodup_map_filter _ _ _ Hs) ltac:(intros p; apply Nat.eqb_eq))
      as [E2|([a j2] & Hp2 & Hq2 & E2)]; rewrite E2 in L2; cbn in L2; [exists B; split; [done|lia]|].
  apply Nat.eqb_eq in Hq1, Hq2. cbn in Hq1, Hq2. subst i1 j2.
  apply filter_In in Hp2 as [Hp2 Hai]. apply negb_true_iff, Nat.eqb_neq in Hai. cbn in Hai.
  assert (b <> j) as Hbj.
  { intros ->. apply Hai. by pose proof (NoDup_map_pair snd M (a, j) (i, j) Hs Hp2 Hp1 eq_refl) as [=]. }
  exists ((a, b) :: B). split; [|cbn; lia].
  destruct HmB as [HfB HsB HgB]. split.
  - cbn. apply NoDup_cons. split; [|done]. intros ([a' b'] & E & Hin)%list_elem_of_In%in_map_iff. cbn in E. subst a'.
    destruct (HB _ Hin) as (Hin' & _ & Hne). apply Hne.
    pose proof (NoDup_map_pair fst M (a, b') (a, j) Hf Hin' Hp2 eq_refl) as [=]. done.
  - cbn. apply NoDup_cons. split; [|done]. intros ([a' b'] & E & Hin)%list_elem_of_In%in_map_iff. cbn in E. subst b'.
    destruct (HB _ Hin) as (Hin' & Hne & _). apply Hne.
    pose proof (NoDup_map_pair snd M (a', b) (i, b) Hs Hin' Hp1 eq_refl) as [=]. done.
  - intros p [<-|Hp]; [|by apply HgB]. cbn. destruct (Hg _ Hp1) as (_ & ? & _), (Hg _ Hp2) as (? & _ & _).
    cbn in *. split; [lia|]. split; [lia|]. by apply Hx.
Qed.

Context (Hslots : StronglySorted (fun a b => sl_at a <= sl_at b) slots)
        (Hobs : StronglySorted (fun a b => ob_At a <= ob_At b) obs).

Lemma sorted_lookup {A} (key : A -> Z) (l : list A) i j a b :
  StronglySorted (fun a b => key a <= key b) l -> (i <= j)%nat -> l !! i = Some a -> l !! j = Some b -> key a <= key b.
Proof.
  intros Hs. revert i j. induction Hs as [|x l Hs IH Hall]; intros i j Hij Ha Hb; [done|].
  destruct i as [|i], j as [|j]; cbn in *; [simplify_eq; lia| |lia|apply (IH i j); [lia|done..]].
  injection Ha as ->. rewrite Forall_forall in Hall. apply Hall. by apply list_elem_of_lookup_2 in Hb.
Qed.

Lemma crossing_pairs i j a b : (i <= a)%nat -> (j <= b)%nat ->
  good_pair (a, j) -> good_pair (i, b) -> good_pair (a, b).
Proof.
  intros Ha Hb (sa & oj & Hsa & Hoj & _ & Hc1) (si & ob & Hsi & Hob & Hcount & Hc2).
  exists sa, ob. split; [done|]. split; [done|]. split; [done|]. cbn in *. unfold compatible in *.
  pose proof (sorted_lookup sl_at slots i a si sa Hslots Ha Hsi Hsa).
  pose proof (sorted_lookup ob_At obs j b oj ob Hobs Hb Hoj Hob). lia.
Qed.

(** Pairing the earliest copy with the earliest open slot is optimal. *)
Lemma greedy_maximum j i M : matching i j M ->
  (length M <= length (greedy m now (drop j obs) j i (drop i slots)))%nat.
Proof.
  remember (drop j obs) as os eqn:Eo. revert j i M Eo.
  induction os as [|o os IH]; intros j i M Eo HM.
  { destruct M as [|p M]; [done|]. destruct (mt_good _ _ _ HM p (or_introl eq_refl)) as (_ & Hj & s & o & _ & Ho & _).
    apply lookup_lt_Some in Ho. apply (f_equal length) in Eo. rewrite length_drop in Eo. cbn in Eo. lia. }
  assert (obs !! j = Some o) as Ho by (rewrite <- (Nat.add_0_r j), <- lookup_drop, <- Eo; done).
  assert (os = drop (S j) obs) as Eo' by (rewrite <- Nat.add_1_r, <- drop_drop, <- Eo; done).
  assert (forall i', matching i' j M -> ~ (exists p, In p M /\ snd p = j) ->
            (length M <= length (greedy m now os (S j) i' (drop i' slots)))%nat) as Hskip.
  { intros i' HM' Hno. apply IH; [done|]. apply (matching_from i' j); [done|]. intros p Hp.
    destruct (mt_good _ _ _ HM' p Hp) as (? & ? & _). split; [done|]. destruct (Nat.eq_dec (snd p) j); [|lia].
    exfalso. apply Hno. eauto. }
  cbn [greedy]. destruct (counted m now o) eqn:Ec; cbn [negb].
  2: { apply Hskip; [done|]. intros (p & Hp & Hj). destruct (mt_good _ _ _ HM p Hp) as (_ & _ & s & o' & _ & Ho' & Hc & _).
       rewrite Hj, Ho in Ho'. injection Ho' as <-. by rewrite Ec in Hc. }
  destruct (skip_slots_spec i (drop i slots) (ob_At o)) as (k & -> & Hpast & Hk). rewrite drop_drop in *.
  assert (matching (i + k) j M) as HM'.
  { apply (matching_from i j); [done|]. intros p Hp.
    destruct (mt_good _ _ _ HM p Hp) as (Hi & Hj & s & o' & Hs & Ho' & _ & Hc). split; [|done].
    destruct (Nat.le_gt_cases (i + k) (fst p)); [done|]. exfalso.
    pose proof (Hpast (fst p - i)%nat s ltac:(lia)) as Hp'. rewrite lookup_drop in Hp'.
    replace (i + (fst p - i))%nat with (fst p) in Hp' by lia. specialize (Hp' Hs).
    pose proof (sorted_lookup ob_At obs j (snd p) o o' Hobs Hj Ho Ho'). unfold compatible in Hc. lia. }
  destruct (drop (i + k) slots) as [|s rest] eqn:Es.
  { destruct M as [|p M]; [cbn; lia|]. destruct (mt_good _ _ _ HM' p (or_introl eq_refl)) as (Hi & _ & s & o' & Hs & _).
    apply lookup_lt_Some in Hs. apply (f_equal length) in Es. rewrite length_drop in Es. cbn in Es. lia. }
  assert (slots !! (i + k)%nat = Some s) as Hs by (rewrite <- (Nat.add_0_r (i + k)), <- lookup_drop, Es; done).
  destruct (ob_At o <? sl_at s - ScheduleTolerance) eqn:Et; cbn [negb].
  - rewrite <- Es. apply Hskip; [done|]. intros (p & Hp & Hj).
    destruct (mt_good _ _ _ HM' p Hp) as (Hi & _ & s' & o' & Hs' & Ho' & _ & Hc).
    rewrite Hj, Ho in Ho'. injection Ho' as <-.
    pose proof (sorted_lookup sl_at slots (i + k) (fst p) s s' Hslots Hi Hs Hs'). unfold compatible in Hc. lia.
  - assert (rest = drop (S (i + k)) slots) as -> by (rewrite <- Nat.add_1_r, <- drop_drop, Es; done).
    destruct (matching_exchange (i + k) j M HM') as (M' & HM1 & Hle).
    { intros a b Ha Hb. destruct (mt_good _ _ _ HM' _ Ha) as (? & _ & ?), (mt_good _ _ _ HM' _ Hb) as (_ & ? & ?).
      by apply (crossing_pairs (i + k) j). }
    cbn [length]. pose proof (IH (S j) (S (i + k)) M' Eo' HM1). lia.
Qed.
End matching.

(** ** The arrays of the matching *)
Lemma length_assign ps l : length (assign l ps) = length l.
Proof. revert l. induction ps as [|p ps IH]; intros l; [done|]. cbn. rewrite IH. apply length_insert. Qed.

Lemma assign_other ps l x : (forall p, In p ps -> fst p <> x) -> assign l ps !! x = l !! x.
Proof.
  revert l. induction ps as [|p ps IH]; intros l H; [done|]. cbn. rewrite IH by (intros q Hq; apply H; by right).
  apply list_lookup_insert_ne, H. by left.
Qed.

Lemma assign_in ps l x y : NoDup (map fst ps) -> (forall p, In p ps -> (fst p < length l)%nat) ->
  In (x, y) ps -> assign l ps !! x = Some (Some y).
Proof.
  revert l. induction ps as [|p ps IH]; intros l Hd Hl Hin; [done|]. cbn in *.
  apply NoDup_cons in Hd as [Hn Hd]. destruct Hin as [->|Hin].
  - change (assign (<[x := Some y]> l) ps !! x = Some (Some y)). rewrite assign_other.
    + apply list_lookup_insert_eq, (Hl (x, y)). by left.
    + intros q Hq E. apply Hn, list_elem_of_In, in_map_iff. by exists q.
  - apply IH; [done| |done]. intros q Hq. rewrite length_insert. apply Hl. by right.
Qed.

Lemma assign_none n ps x y : NoDup (map fst ps) -> (forall p, In p ps -> (fst p < n)%nat) ->
  assign (replicate n None) ps !! x = Some (Some y) <-> In (x, y) ps.
Proof.
  intros Hd Hl. split.
  - intros H. destruct (in_dec Nat.eq_dec x (map fst ps)) as [([x' y'] & <- & Hin)%in_map_iff|Hno].
    + rewrite (assign_in ps _ x' y') in H; [by injection H as <-|done| |done].
      intros p Hp. rewrite length_replicate. by apply Hl.
    + rewrite assign_other, lookup_replicate in H; [by destruct H|].
      intros p Hp <-. apply Hno, in_map_iff. by exists p.
  - apply assign_in; [done|]. intros p Hp. rewrite length_replicate. by apply Hl.
Qed.

Definition served (o : option nat) : bool := negb (is_none o).
Lemma count_assign ps l : NoDup (map fst ps) -> (forall p, In p ps -> l !! fst p = Some None) ->
  count_where served (assign l ps) = count_where served l + Z.of_nat (length ps).
Proof.
  revert l. induction ps as [|p ps IH]; intros l Hd Hl; [cbn; lia|]. cbn [map] in Hd.
  apply NoDup_cons in Hd as [Hn Hd]. cbn [assign foldl]. rewrite IH; [|done|].
  - rewrite (count_where_insert served l (fst p) None) by (apply Hl; by left). cbn. lia.
  - intros q Hq. rewrite list_lookup_insert_ne; [apply Hl; by right|]. intros E. apply Hn, list_elem_of_In, in_map_iff. by exists q.
Qed.

(** What [matchAppointments] computes. *)
Lemma matchAppointments_greedy loc m observations from to now expected ordered mo ms :
  matchAppointments loc m observations from to now = (expected, ordered, mo, ms) ->
  expected = expected_slots loc m observations from to now /\ ordered = sort_by observation_before observations /\
  exists pairs, pairs = greedy m now ordered 0 0 expected /\ matching m now expected ordered 0 0 pairs /\
    mo = assign (replicate (length ordered) None) (map flip_pair pairs) /\
    ms = assign (replicate (length expected) None) pairs.
Proof.
  unfold matchAppointments. set (es := expected_slots _ _ _ _ _ _). set (os := sort_by _ _).
  rewrite match_loop_greedy. intros [= <- <- <- <-]. split; [done|]. split; [done|].
  exists (greedy m now os 0 0 es). split; [done|]. split; [|done].
  apply (greedy_sound m now es os 0 0).
Qed.

Lemma pairs_in_range m now es os pairs : matching m now es os 0 0 pairs ->
  (forall p, In p pairs -> (fst p < length es)%nat) /\ (forall p, In p (map flip_pair pairs) -> (fst p < length os)%nat).
Proof.
  intros H. split; [intros p Hp|intros p' (p & <- & Hp)%in_map_iff];
    destruct (mt_good _ _ _ _ _ _ _ H p Hp) as (_ & _ & s & o & Hs & Ho & _); cbn; eauto using lookup_lt_Some.
Qed.

Lemma slots_sorted loc m observations from to now :
  StronglySorted (fun a b => sl_at a <= sl_at b) (expected_slots loc m observations from to now).
Proof. apply (sort_by_sorted slot_before sl_at); unfold slot_before; intros; lia. Qed.
Lemma observations_sorted observations :
  StronglySorted (fun a b => ob_At a <= ob_At b) (sort_by observation_before observations).
Proof. apply (sort_by_sorted observation_before ob_At); unfold observation_before; intros a b; case_match; lia. Qed.

(** ** The days visited *)
Section civil.
Context (loc : location) (Hcivil : civil_days loc).

Lemma days_until_civil fuel n k : (Z.to_nat (k - n) < fuel)%nat ->
  days_until loc fuel (day_start loc n) (day_start loc k) = map (day_start loc) (seqZ n (k - n)).
Proof.
  revert n. induction fuel as [|fuel IH]; intros n Hf; [lia|]. cbn [days_until].
  destruct (day_start loc n <? day_start loc k) eqn:E.
  - apply Z.ltb_lt, day_start_lt_iff in E; [|done]. rewrite add_days_day_start by done.
    rewrite IH by lia. rewrite (seqZ_cons n) by lia. cbn [map]. f_equal. f_equal. f_equal; lia.
  - apply Z.ltb_ge in E. assert (k <= n).
    { destruct (Z.le_gt_cases k n) as [|Hlt]; [done|]. apply (day_start_lt_iff loc Hcivil) in Hlt. lia. }
    rewrite seqZ_nil by lia. done.
Qed.

Definition first_day (m : key_model) (observations : list observation) (from now : Z) : Z :=
  foldl (fun d o => if counted m now o then Z.min d (local_day loc (ob_At o) - 1) else d)
    (local_day loc from - 1) observations.

Lemma start_day_civil m observations from now :
  start_day loc m observations from now = day_start loc (first_day m observations from now).
Proof.
  unfold start_day, first_day. rewrite localMidnight_eq, add_days_day_start by done.
  replace (local_day loc from + -1) with (local_day loc from - 1) by lia.
  generalize (local_day loc from - 1). induction observations as [|o os IH]; intros d; [done|]. cbn [foldl].
  destruct (counted m now o); [|apply IH]. rewrite localMidnight_eq, add_days_day_start by done.
  replace (local_day loc (ob_At o) + -1) with (local_day loc (ob_At o) - 1) by lia.
  destruct (_ <? _) eqn:E.
  - apply Z.ltb_lt, day_start_lt_iff in E; [|done]. rewrite Z.min_r by lia. apply IH.
  - apply Z.ltb_ge in E. rewrite Z.min_l; [apply IH|].
    destruct (Z.le_gt_cases d (local_day loc (ob_At o) - 1)) as [|Hlt]; [done|].
    apply (day_start_lt_iff loc Hcivil) in Hlt. lia.
Qed.

Lemma appointmentTime_civil n minutes : 0 <= minutes < 1440 ->
  appointmentTime loc (day_start loc n) minutes = time_of_clock loc n (minutes / 60) (minutes mod 60) 0 0.
Proof.
  intros Hm. unfold appointmentTime, local_date. rewrite local_day_day_start by done.
  rewrite Z.quot_div_nonneg, Z.rem_mod_nonneg by lia.
  pose proof (date_of_civil_0 loc n (minutes / 60) (minutes mod 60) 0 0) as H.
  destruct (civil_from_days n) as [[y mo] d]. exact H.
Qed.

Lemma visited_days m observations from to now :
  let start := start_day loc m observations from now in let stop := end_day loc to in
  days_until loc (day_fuel loc start stop) start stop =
  map (day_start loc) (seqZ (first_day m observations from now)
                         (local_day loc to + 2 - first_day m observations from now)).
Proof.
  cbv zeta. unfold day_fuel, end_day. rewrite start_day_civil, localMidnight_eq, add_days_day_start by done.
  rewrite !local_day_day_start by done. apply days_until_civil. lia.
Qed.
End civil.

(** ** Findings of a check *)
Lemma in_concat_zip {A B C} (f : A -> B -> list C) l k c :
  In c (concat (zip_with f l k)) <-> exists i a b, l !! i = Some a /\ k !! i = Some b /\ In c (f a b).
Proof.
  revert k. induction l as [|a l IH]; intros k; cbn; [split; [done|by intros ([] & ? & ? & ? & _)]|].
  destruct k as [|b k]; cbn; [split; [done|by intros (i & ? & ? & _ & Hb & _); destruct i]|].
  rewrite in_app_iff, IH. split.
  - intros [H|(i & a' & b' & H)]; [by exists 0%nat, a, b|by exists (S i), a', b'].
  - intros ([|i] & a' & b' & Ha & Hb & H); cbn in *; [simplify_eq; by left|right; by exists i, a', b'].
Qed.

Lemma slot_finding_missing m now ordered s matched f :
  In f (slot_finding m now ordered s matched) -> f_Kind f = "schedule_missing"%string ->
  matched = None /\ sl_report s = true /\ sl_at s + ScheduleTolerance <= now /\ f_At f = sl_at s.
Proof.
  unfold slot_finding. destruct (sl_report s); [|done]. cbn [negb orb].
  destruct (now <? _) eqn:E; [done|]. destruct matched as [j|].
  - destruct (ordered !! j) as [o|]; [|done]. destruct (size_out _ _ _); [|done]. by intros [<-|[]].
  - intros [<-|[]] _. split; [done|]. split; [done|]. split; [lia|done].
Qed.

(** A slot and a copy left over by the matching are not compatible. *)
Lemma leftovers_incompatible m now es os i j s o pairs :
  StronglySorted (fun a b => sl_at a <= sl_at b) es -> StronglySorted (fun a b => ob_At a <= ob_At b) os ->
  pairs = greedy m now os 0 0 es -> matching m now es os 0 0 pairs ->
  es !! i = Some s -> os !! j = Some o -> counted m now o = true -> compatible s o ->
  ~ In i (map fst pairs) -> In j (map snd pairs).
Proof.
  intros Hs Ho Hp Hm Hi Hj Hc Hcomp Hni. destruct (in_dec Nat.eq_dec j (map snd pairs)) as [|Hnj]; [done|exfalso].
  assert (matching m now es os 0 0 ((i, j) :: pairs)) as Hbig.
  { destruct Hm as [Hf Hsn Hg]. split; cbn; [apply NoDup_cons; split; [by rewrite list_elem_of_In|done]..|].
    intros p [<-|Hin]; [|by apply Hg]. cbn. split; [lia|]. split; [lia|]. by exists s, o. }
  pose proof (greedy_maximum m now es os Hs Ho 0 0 _ Hbig) as Hle. cbn in Hle. rewrite drop_0, drop_0 in Hle.
  rewrite <- Hp in Hle. lia.
Qed.

Lemma unserved_slot es pairs (i : nat) : NoDup (map fst pairs) -> (forall p, In p pairs -> (fst p < length es)%nat) ->
  assign (replicate (length (es : list check_slot)) None) pairs !! i = Some None -> ~ In i (map fst pairs).
Proof.
  intros Hd Hr H ([i' y] & E & Hin)%in_map_iff. cbn in E. subst i'.
  apply (assign_none (length es) pairs i y Hd Hr) in Hin. by rewrite H in Hin.
Qed.

Lemma expected_report loc m observations from to now s :
  In s (expected_slots loc m observations from to now) -> sl_report s = reported from to (sl_at s).
Proof.
  intros Hs%in_sort_by. apply in_flat_map in Hs as (day & _ & Hs). unfold day_slots in Hs.
  apply in_flat_map in Hs as (app & _ & Hs). cbv zeta in Hs. destruct (now <? _); [done|].
  destruct Hs as [<-|[]]. done.
Qed.

Lemma flat_map_ext_in' {A B} (f g : A -> list B) l : (forall x, In x l -> f x = g x) -> flat_map f l = flat_map g l.
Proof.
  induction l as [|x l IH]; intros H; [done|]. cbn. rewrite (H x), IH; [done| |by left].
  intros y Hy. apply H. by right.
Qed.

(** ** Claims *)

(** The two arrays are inverse of each other, and a matched copy can serve its
    appointment. *)
Lemma matchAppointments_legal loc m observations from to now expected ordered mo ms :
  matchAppointments loc m observations from to now = (expected, ordered, mo, ms) ->
  Permutation ordered observations /\ length mo = length ordered /\ length ms = length expected /\
  (forall i j, mo !! j = Some (Some i) <-> ms !! i = Some (Some j)) /\
  (forall i j, ms !! i = Some (Some j) -> exists s o, expected !! i = Some s /\ ordered !! j = Some o /\
     ob_KeyID o = km_KeyID m /\ ob_At o <= now /\ Z.abs (ob_At o - sl_at s) <= ScheduleTolerance).
Proof.
  intros H. destruct (matchAppointments_greedy _ _ _ _ _ _ _ _ _ _ H) as (-> & -> & pairs & _ & Hm & -> & ->).
  destruct (pairs_in_range _ _ _ _ _ Hm) as [Hr1 Hr2]. pose proof Hm as [Hf Hs Hg].
  assert (NoDup (map fst (map flip_pair pairs))) as Hs' by (rewrite map_map; exact Hs).
  split; [apply sort_by_perm|]. rewrite !length_assign, !length_replicate. split; [done|]. split; [done|]. split.
  - intros i j. rewrite !assign_none by done. rewrite in_map_iff. split.
    + by intros ([a b] & [= <- <-] & Hin).
    + intros Hin. by exists (i, j).
  - intros i j Hij. apply assign_none in Hij; [|done|done].
    destruct (Hg _ Hij) as (_ & _ & s & o & Hs1 & Ho & Hc & Hcomp). exists s, o.
    unfold counted in Hc. apply andb_true_iff in Hc as [Hk%String.eqb_eq Hn]. unfold compatible in Hcomp.
    repeat split; try done; lia.
Qed.

(** No assignment of distinct copies to distinct compatible appointments serves more. *)
Lemma matchAppointments_most loc m observations from to now expected ordered mo ms M :
  matchAppointments loc m observations from to now = (expected, ordered, mo, ms) ->
  matching m now expected ordered 0 0 M ->
  Z.of_nat (length M) <= count_where served ms.
Proof.
  intros H HM. destruct (matchAppointments_greedy _ _ _ _ _ _ _ _ _ _ H) as (He & Ho & pairs & Hp & Hm & _ & ->).
  pose proof (greedy_maximum m now expected ordered ltac:(rewrite He; apply slots_sorted)
                ltac:(rewrite Ho; apply observations_sorted) 0 0 M HM) as Hle.
  rewrite !drop_0, <- Hp in Hle. destruct (pairs_in_range _ _ _ _ _ Hm) as [Hr _].
  rewrite count_assign; [pose proof (count_where_nonneg served (replicate (length expected) None)); lia|apply Hm|].
  intros p Hin. apply lookup_replicate_2. by apply Hr.
Qed.

(** C39. The greedy matching is legal and a maximum one: the copies are all there,
    the two arrays are inverse of each other, a matched copy belongs to the key, is
    not in the future and lies within thirty minutes of its appointment, and no
    assignment of distinct copies to distinct compatible appointments serves more
    appointments. *)
Theorem matchAppointments_maximum loc m observations from to now expected ordered mo ms :
  matchAppointments loc m observations from to now = (expected, ordered, mo, ms) ->
  Permutation ordered observations /\ length mo = length ordered /\ length ms = length expected /\
  (forall i j, mo !! j = Some (Some i) <-> ms !! i = Some (Some j)) /\
  (forall i j, ms !! i = Some (Some j) -> exists s o, expected !! i = Some s /\ ordered !! j = Some o /\
     ob_KeyID o = km_KeyID m /\ ob_At o <= now /\ Z.abs (ob_At o - sl_at s) <= ScheduleTolerance) /\
  (forall M, matching m now expected ordered 0 0 M -> Z.of_nat (length M) <= count_where served ms).
Proof.
  intros H. pose proof (matchAppointments_legal _ _ _ _ _ _ _ _ _ _ H) as (? & ? & ? & ? & ?).
  repeat (split; [done|]). intros M. by apply (matchAppointments_most loc m observations from to now expected ordered mo ms).
Qed.

(** The slots of a check are the appointments of consecutive civil days,
    each day once, at their local time: the loop over the days terminates
    within its fuel and skips or repeats none. *)
Lemma expected_slots_civil loc m observations from to now :
  civil_days loc ->
  (forall w app, In app (schedule_of m w) -> 0 <= MinuteOfDay app < 1440) ->
  let first := first_day loc m observations from now in
  Permutation (expected_slots loc m observations from to now)
    (flat_map (fun n => flat_map (fun app =>
       let at_ := time_of_clock loc n (MinuteOfDay app / 60) (MinuteOfDay app mod 60) 0 0 in
       if at_ - ScheduleTolerance <=? now then [CheckSlot at_ app (reported from to at_)] else [])
       (schedule_of m (weekday_of_days n))) (seqZ first (local_day loc to + 2 - first))).
Proof.
  intros Hc Happ first. unfold expected_slots. rewrite visited_days by done. fold first.
  rewrite sort_by_perm. rewrite flat_map_concat_map, map_map, <- flat_map_concat_map.
  apply Permutation_refl', flat_map_ext_in'. intros n _. unfold day_slots. rewrite weekday_day_start by done.
  apply flat_map_ext_in'. intros app Hin. cbv zeta. rewrite appointmentTime_civil by eauto.
  rewrite Z.ltb_antisym. by destruct (_ <=? now).
Qed.

Section findings.
Context (LoadLocation : string -> result err location).

(** A missing-copy finding is justified. *)
Lemma missing_justified m observations from to now f expected ordered mo ms loc :
  LoadLocation (km_Timezone m) = Ok loc ->
  matchAppointments loc m observations from to now = (expected, ordered, mo, ms) ->
  In f (CheckPeriod LoadLocation m observations from to now) -> f_Kind f = "schedule_missing"%string ->
  exists i s, expected !! i = Some s /\ f_At f = sl_at s /\ from < sl_at s <= to /\
    sl_at s + ScheduleTolerance <= now /\
    (forall j o, ordered !! j = Some o -> counted m now o = true -> compatible s o ->
       exists i', i' <> i /\ ms !! i' = Some (Some j)).
Proof.
  intros Hl Hmatch. unfold CheckPeriod, checkWindow. rewrite Hl.
  destruct (to <? from); [intros [<-|[]]; done|]. destruct (_ || _); [intros [<-|[]]; done|].
  unfold check_findings. rewrite Hmatch. intros [Hin|Hin]%in_app_iff Hkind.
  2: { apply in_map_iff in Hin as (p & <- & _). done. }
  apply in_concat_zip in Hin as (i & s & b & Hs & Hb & Hf).
  apply slot_finding_missing in Hf as (-> & Hrep & Hdue & Hat); [|done].
  destruct (matchAppointments_greedy _ _ _ _ _ _ _ _ _ _ Hmatch) as (He & Ho & pairs & Hp & Hm & _ & Hms).
  destruct (pairs_in_range _ _ _ _ _ Hm) as [Hr _]. exists i, s. split; [done|]. split; [done|].
  rewrite (expected_report _ _ _ _ _ _ s ltac:(rewrite <- He; by eapply list_elem_of_In, list_elem_of_lookup_2)) in Hrep.
  unfold reported in Hrep. split; [lia|]. split; [done|].
  intros j o Hj Hc Hcomp. rewrite Hms in Hb. apply unserved_slot in Hb; [|apply Hm|done].
  pose proof (leftovers_incompatible m now expected ordered i j s o pairs ltac:(rewrite He; apply slots_sorted)
    ltac:(rewrite Ho; apply observations_sorted) Hp Hm Hs Hj Hc Hcomp Hb) as ([i' j'] & E & Hin)%in_map_iff.
  cbn in E. subst j'. exists i'. split; [intros ->; apply Hb, in_map_iff; by exists (i, j)|].
  rewrite Hms. apply assign_none; [apply Hm|done..].
Qed.

(** No appointment is overlooked. *)
Lemma missing_complete m observations from to now loc s :
  LoadLocation (km_Timezone m) = Ok loc -> km_Reliable m = true -> km_ReviewRequired m = false -> from <= to ->
  In s (expected_slots loc m observations from to now) -> from < sl_at s <= to ->
  sl_at s + ScheduleTolerance <= now ->
  (forall o, In o observations -> ob_KeyID o = km_KeyID m -> ob_At o <= now -> ~ compatible s o) ->
  In (Finding (slot_key m (sl_at s)) "schedule_missing" (km_KeyID m) "" "copia attesa non ricevuta" (sl_at s))
     (CheckPeriod LoadLocation m observations from to now).
Proof.
  intros Hl Hr Hrev Hft Hin Hrep Hdue Hno. unfold CheckPeriod, checkWindow. rewrite Hl, Hr, Hrev.
  replace (to <? from) with false by lia. cbn [negb orb]. unfold check_findings.
  destruct (matchAppointments loc m observations from to now) as [[[expected ordered] mo] ms] eqn:Hmatch.
  apply in_app_iff. left. apply in_concat_zip.
  destruct (matchAppointments_greedy _ _ _ _ _ _ _ _ _ _ Hmatch) as (He & Ho & pairs & Hp & Hm & _ & Hms).
  destruct (pairs_in_range _ _ _ _ _ Hm) as [Hrange _].
  pose proof Hin as Hsrep. rewrite <- He in Hin. apply list_elem_of_In, list_elem_of_lookup_1 in Hin as (i & Hi).
  exists i, s. destruct (ms !! i) as [[j|]|] eqn:Hmi.
  - exfalso. rewrite Hms in Hmi. apply assign_none in Hmi; [|apply Hm|done].
    destruct (mt_good _ _ _ _ _ _ _ Hm _ Hmi) as (_ & _ & s' & o & Hs' & Hob & Hc & Hcomp). cbn in Hs', Hob.
    rewrite Hi in Hs'. injection Hs' as <-. unfold counted in Hc. apply andb_true_iff in Hc as [Hk%String.eqb_eq Hn].
    apply (Hno o); [|done|lia|done]. apply (in_sort_by observation_before). rewrite <- Ho.
    by eapply list_elem_of_In, list_elem_of_lookup_2.
  - exists None. split; [done|]. split; [done|]. unfold slot_finding.
    rewrite (expected_report _ _ _ _ _ _ s Hsrep). unfold reported.
    replace ((from <? sl_at s) && (sl_at s <=? to)) with true by lia.
    replace (now <? sl_at s + ScheduleTolerance) with false by lia. by left.
  - apply lookup_ge_None in Hmi. apply lookup_lt_Some in Hi. rewrite Hms, length_assign, length_replicate in Hmi. lia.
Qed.
End findings.

(** ** Witnesses: one copy a day at 03:00 UTC, one day missed. *)
Module ScheduleExamples.
Definition app3 : appointment := Appointment 180 100 f_zero f_zero.
Definition model : key_model :=
  KeyModel "k" "UTC" (date UTC 2026 9 1 0 0 0 0) (list_to_map (map (fun w => (w, [app3])) (seqZ 0 7))) true false "".
Definition copy_at (id : string) (d minutes : Z) : observation := Observation id "k" (date UTC 2026 9 d 3 minutes 0 0) 100.
Definition received : list observation := [copy_at "b3" 3 5; copy_at "b4" 4 (-10); copy_at "b6" 6 20].
Definition load (_ : string) : result err location := Ok UTC.
Definition from : Z := date UTC 2026 9 4 23 0 0 0.
Definition to : Z := date UTC 2026 9 6 12 0 0 0.
Definition matched := matchAppointments UTC model received from to to.
Definition slots := fst (fst (fst matched)).
Definition ordered := snd (fst (fst matched)).
Definition mo := snd (fst matched).
Definition ms := snd matched.
Lemma matched_eq : matched = (slots, ordered, mo, ms).
Proof. unfold slots, ordered, mo, ms. by destruct matched as [[[? ?] ?] ?]. Defined.
Definition missed : check_slot := CheckSlot (date UTC 2026 9 5 3 0 0 0) app3 true.
Definition missing : finding :=
  Finding "slot:k:2026-09-05T03:00:00Z" "schedule_missing" "k" "" "copia attesa non ricevuta" (date UTC 2026 9 5 3 0 0 0).
End ScheduleExamples.
Import ScheduleExamples.

Lemma matchAppointments_maximum_witness :
  mo !! 2%nat = Some (Some 4%nat) /\ Z.of_nat (length [(1, 0); (2, 1)]%nat) <= count_where served ms.
Proof.
  destruct (matchAppointments_maximum UTC model received from to to slots ordered mo ms matched_eq) as (_ & _ & _ & Hinv & _ & Hmost).
  split; [apply Hinv; vm_compute; reflexivity|]. apply Hmost.
  split; [apply (bool_decide_unpack _); vm_compute; exact I..|].
  intros p [<-|[<-|[]]]; (split; [cbn; lia|]); (split; [cbn; lia|]).
  - exists (CheckSlot (date UTC 2026 9 3 3 0 0 0) app3 false), (copy_at "b3" 3 5).
    vm_compute. repeat split; try reflexivity; discriminate.
  - exists (CheckSlot (date UTC 2026 9 4 3 0 0 0) app3 false), (copy_at "b4" 4 (-10)).
    vm_compute. repeat split; try reflexivity; discriminate.
Defined.


(** ** Timezones whose clocks change at midnight

    Where the clock jumps from 00:00 to 01:00 west of Greenwich, [time.Date] of
    the missing midnight is 23:00 of the day before: the loop over the days
    visits that day twice and its appointments are expected twice.  A key that
    delivered every copy on time is reported as missing one. *)
Module MidnightGap.
Definition jump : Z := unix (date UTC 2026 9 6 4 0 0 0).
Definition zone : location :=
  Location (fun s => if s <? jump then Span (-14400) (-2^63) jump else Span (-10800) jump max_int64).
Definition copies : list observation :=
  map (fun d => Observation ("b" ++ pretty d) "k" (date zone 2026 9 d 3 0 0 0) 100) (seqZ 3 5).
Definition noon : Z := date zone 2026 9 7 12 0 0 0.
End MidnightGap.

Lemma midnight_gap_zone_ok : location_ok MidnightGap.zone.
Proof.
  unfold MidnightGap.zone. assert (is_int64 MidnightGap.jump) as Hj by (vm_compute; split; discriminate).
  revert Hj. generalize MidnightGap.jump. intros j Hj. split; cbn.
  - intros s Hs. unfold is_int64 in *. destruct (s <? j) eqn:E; cbn; lia.
  - intros s s' Hs Hs'. unfold is_int64 in *. destruct (s <? j) eqn:E; cbn; intros [H1 H2].
    + replace (s' <? j) with true by lia. done.
    + replace (s' <? j) with false by lia. done.
  - intros s. unfold seconds_per_day. destruct (s <? j); cbn; lia.
Qed.

(** In a zone whose clock jumps at midnight, a civil day is visited twice: of
    five days with their copies delivered on time, the day before the jump is
    reported as missing one. *)
Lemma midnight_gap_spurious_missing :
  map (fun f => (f_Kind f, f_StableKey f))
    (CheckPeriod (fun _ => Ok MidnightGap.zone) model MidnightGap.copies
       (date MidnightGap.zone 2026 9 3 12 0 0 0) MidnightGap.noon MidnightGap.noon) =
  [("schedule_missing", "slot:k:2026-09-05T07:00:00Z")]%string.
Proof. vm_compute. reflexivity. Qed.
