(* ===== verification/Forecast.v ===== *)
(** Learning the schedule of a key and forecasting the space of its next copies
    ([src/internal/policy/policy.go], [Learn] to [ForecastNextBackup]). *)
From S2P Require Import Prelude GoTime GoFloat GoString Model Policy Schedule.
From Stdlib Require SpecFloat.

(** ** Learning

    The trigonometry of Go's [math]. *)
Class Trigonometry : Type := {
  f_cos : float64 -> float64;
  f_sin : float64 -> float64;
  f_atan2 : float64 -> float64 -> float64 }.
(** [math.Pi] *)
Definition f_pi : float64 := f_const 884279719003555 (2^48).
Definition f_two_pi : float64 := f_const 884279719003555 (2^47).

Definition minute (loc : location) (t : Z) : Z := local_hour loc t * 60 + local_minute loc t.
Definition circularDistance (a b : Z) : Z := let d := Z.abs (a - b) in if 720 <? d then 1440 - d else d.
Definition circularMean `{Trigonometry} (values : list Z) : Z :=
  let angle_of v := f_div (f_mul (f_mul (f_of_int v) (f_of_int 2)) f_pi) (f_of_int 1440) in
  let '(x, y) := foldl (fun '(x, y) v => (f_add x (f_cos (angle_of v)), f_add y (f_sin (angle_of v)))) (f_zero, f_zero) values in
  let angle := f_atan2 y x in
  let angle := if f_ltb angle f_zero then f_add angle f_two_pi else angle in
  Z.rem (int64_of (f_round (f_div (f_mul angle (f_of_int 1440)) f_two_pi))) 1440.

Definition medianFloat (values : list float64) : float64 :=
  let sorted := sort_by f_less values in
  let n := length sorted in
  let at_ i := nth i sorted f_zero in
  if (n =? 0)%nat then f_zero
  else if Nat.odd n then at_ (n / 2)%nat
  else f_add (at_ (n / 2 - 1)%nat) (f_div (f_sub (at_ (n / 2)%nat) (at_ (n / 2 - 1)%nat)) (f_of_int 2)).

Definition earlier (a b : observation) : bool := ob_At a <? ob_At b.

(** The differences of each later observation to an earlier one, per day. *)
Fixpoint slopes_of (series : list observation) : list float64 :=
  match series with
  | [] => []
  | a :: rest =>
    flat_map (fun b =>
      let daysBetween := days_since (ob_At a) (ob_At b) in
      if f_ltb f_zero daysBetween then [f_div (f_of_int (wrap_int64 (ob_Size b - ob_Size a))) daysBetween] else []) rest ++
    slopes_of rest
  end.

(** [growth*now.Sub(at).Hours()/24] *)
Definition grown (growth : float64) (now at_ : Z) : float64 := f_div (f_mul growth (Hours (time_sub now at_))) f_24.

(** The appointment of a series, and whether its sizes shrink. *)
Definition learn_appointment `{Trigonometry} (minutes : list Z) (series : list observation) (now : Z) : appointment * bool :=
  let growth := medianFloat (slopes_of series) in
  let shrinks := f_ltb growth f_zero in
  let growth := if shrinks then f_zero else growth in
  let baseline := medianFloat (map (fun o => f_add (f_of_int (ob_Size o)) (grown growth now (ob_At o))) series) in
  let residuals := map (fun o => f_abs (f_sub (f_of_int (ob_Size o)) (f_sub baseline (grown growth now (ob_At o))))) series in
  (Appointment (circularMean minutes) (int64_of (f_round baseline)) growth (medianFloat residuals), shrinks).

Definition weekday_name (w : Z) : string :=
  nth (Z.to_nat w) ["Sunday"; "Monday"; "Tuesday"; "Wednesday"; "Thursday"; "Friday"; "Saturday"]%string "".

Section learn.
Context `{Trigonometry} (LoadLocation : string -> result err location).

(** [allByDay]: the observations of the key on earlier days, by date; [byDay] those
    of the last fourteen days. *)
Definition past (keyID : string) (today : Z) (o : observation) : bool :=
  String.eqb (ob_KeyID o) keyID && (ob_At o <? today) && (0 <? ob_Size o).
Definition on_date (loc : location) (date : string) (l : list observation) : list observation :=
  sort_by earlier (List.filter (fun o => String.eqb (date_key loc (ob_At o)) date) l).
Definition dates (loc : location) (l : list observation) : list string := remove_dups (map (fun o => date_key loc (ob_At o)) l).
(** The midnight a date is parsed to. *)
Definition date_weekday (loc : location) (l : list observation) (date : string) : option Z :=
  match on_date loc date l with o :: _ => Some (weekday loc (localMidnight loc (ob_At o))) | [] => None end.

(** The [i]-th observation of every past day that is a [w]. *)
Definition series_of (loc : location) (all : list observation) (w : Z) (i : nat) : list observation :=
  sort_by earlier (flat_map (fun date =>
    if bool_decide (date_weekday loc all date = Some w)
    then match on_date loc date all !! i with Some o => [o] | None => [] end else []) (dates loc all)).

Definition with_reason (m : key_model) (reason : string) : key_model :=
  KeyModel (km_KeyID m) (km_Timezone m) (km_LearnedAt m) (km_Schedule m) (km_Reliable m) (km_ReviewRequired m) reason.
Definition add_appointment (m : key_model) (w : Z) (a : appointment) (shrinks : bool) : key_model :=
  KeyModel (km_KeyID m) (km_Timezone m) (km_LearnedAt m) (<[w := schedule_of m w ++ [a]]> (km_Schedule m)) (km_Reliable m)
    (km_ReviewRequired m || shrinks) (km_Reason m).

(** The two days of a weekday, in order; [Err] is the early return. *)
Fixpoint learn_pairs (loc : location) (all : list observation) (now w : Z) (i : nat) (days0 days1 : list observation) (m : key_model)
    : result key_model key_model :=
  match days0, days1 with
  | a :: days0', b :: days1' =>
    let minuteA := minute loc (ob_At a) in
    let minuteB := minute loc (ob_At b) in
    if Z.quot ScheduleTolerance Minute * 2 <? circularDistance minuteA minuteB
    then Err (with_reason m ("orari non concordi per " ++ weekday_name w))
    else
      let '(app, shrinks) := learn_appointment [minuteA; minuteB] (series_of loc all w i) now in
      learn_pairs loc all now w (S i) days0' days1' (add_appointment m w app shrinks)
  | _, _ => Ok m
  end.
Definition training_days (loc : location) (start today w : Z) : list Z :=
  List.filter (fun day => weekday loc day =? w) (days_until loc (day_fuel loc start today) start today).
Definition learn_weekday (loc : location) (recent all : list observation) (start today now w : Z) (m : key_model) : result key_model key_model :=
  let days := map (fun day => on_date loc (date_key loc day) recent) (training_days loc start today w) in
  let days0 := nth 0 days [] in
  let days1 := nth 1 days [] in
  if negb (length days0 =? length days1)%nat then Err (with_reason m ("numero copie non concorde per " ++ weekday_name w))
  else learn_pairs loc all now w 0 days0 days1 m.
Fixpoint learn_weekdays (loc : location) (recent all : list observation) (start today now : Z) (ws : list Z) (m : key_model) : result key_model key_model :=
  match ws with
  | [] => Ok m
  | w :: ws' => m ← learn_weekday loc recent all start today now w m; learn_weekdays loc recent all start today now ws' m
  end.

Definition Learn (keyID timezone : string) (observations : list observation) (now : Z) : result err key_model :=
  loc ← LoadLocation timezone;
  let m := KeyModel keyID timezone now ∅ false false "" in
  let today := localMidnight loc now in
  let start := add_days loc today (-14) in
  let all := List.filter (past keyID today) observations in
  let recent := List.filter (fun o => negb (ob_At o <? start)) all in
  if (length recent =? 0)%nat then Ok (with_reason m "storico assente negli ultimi 14 giorni completi")
  else
    match learn_weekdays loc recent all start today now [0; 1; 2; 3; 4; 5; 6] m with
    | Err m => Ok m
    | Ok m =>
      if km_ReviewRequired m then Ok (with_reason m "riduzione sistematica delle dimensioni da revisionare")
      else Ok (KeyModel (km_KeyID m) (km_Timezone m) (km_LearnedAt m) (km_Schedule m) true (km_ReviewRequired m) (km_Reason m))
    end.
End learn.

(** ** Forecasts *)
Definition ForecastSafetyMargin : float64 := f_const 1 5.
Definition invalid_model : err := ErrText "modello di previsione non valido".
Definition unrepresentable : err := ErrText "previsione spazio non rappresentabile".
Definition valid_appointment (app : appointment) : bool :=
  negb ((MinuteOfDay app <? 0) || (24 * 60 <=? MinuteOfDay app) || (MedianSize app <=? 0) || f_ltb (GrowthPerDay app) f_zero).

Definition forecastSize (learned : key_model) (app : appointment) (at_ : Z) (margin : float64) : result err Z :=
  if negb (valid_appointment app) then Err invalid_model
  else
    let projected := expected_size learned app at_ in
    let size := f_mul projected (f_add (f_of_int 1) margin) in
    if f_leb projected f_zero || f_is_nan size || f_is_inf size || (2^64 <=? f_ceil size) then Err unrepresentable
    else Ok (f_ceil size).

Section forecast.
Context (LoadLocation : string -> result err location).

Record event : Type := Event { e_at : Z; e_bytes : Z }.
Definition window : Z := 48 * Hour.

(** [for _, x := range xs { ys, err := f(x); ... }] *)
Fixpoint gather {A B} (f : A -> result err (list B)) (xs : list A) : result err (list B) :=
  match xs with
  | [] => Ok []
  | x :: xs' => ys ← f x; zs ← gather f xs'; Ok (ys ++ zs)
  end.

Definition appointment_events (learned : key_model) (loc : location) (now eventLimit day : Z) (app : appointment) : result err (list event) :=
  if negb (valid_appointment app) then Err invalid_model
  else
    let at_ := appointmentTime loc day (MinuteOfDay app) in
    if (at_ <? now) || (eventLimit <=? at_) then Ok []
    else size ← forecastSize learned app at_ ForecastSafetyMargin; Ok [Event at_ size].
Definition model_events (now eventLimit : Z) (learned : key_model) : result err (list event) :=
  if negb (km_Reliable learned) || km_ReviewRequired learned then Ok []
  else
    loc ← LoadLocation (km_Timezone learned);
    let firstDay := localMidnight loc now in
    gather (fun day => gather (appointment_events learned loc now eventLimit day) (schedule_of learned (weekday loc day)))
      (days_until loc (day_fuel loc firstDay eventLimit) firstDay eventLimit).

Definition in_window (start : Z) (e : event) : bool := (start <=? e_at e) && (e_at e <? start + window).
Fixpoint window_sum (start : Z) (events : list event) (sum : Z) : result err Z :=
  match events with
  | [] => Ok sum
  | e :: events' =>
    if negb (in_window start e) then window_sum start events' sum
    else if usub max_uint64 sum <? e_bytes e then Err unrepresentable
    else window_sum start events' (uadd sum (e_bytes e))
  end.
Fixpoint largest_sum (starts : list Z) (events : list event) (largest : Z) : result err Z :=
  match starts with
  | [] => Ok largest
  | start :: starts' => sum ← window_sum start events 0; largest_sum starts' events (if largest <? sum then sum else largest)
  end.

Definition windowStartLimit (now : Z) : Z := now + 7 * 24 * Hour.
Definition forecast_events (models : list key_model) (now : Z) : result err (list event) :=
  events ← gather (model_events now (windowStartLimit now + window)) models;
  Ok (sort_by (fun a b => e_at a <? e_at b) events).
Definition Forecast48Hours (models : list key_model) (now : Z) : result err Z :=
  events ← forecast_events models now;
  let starts := now :: map e_at (List.filter (fun e => e_at e <? windowStartLimit now) events) in
  largest_sum starts events 0.

(** [satisfied], a multiset of appointments; the state of the search: the earliest
    of the next ones with its size, and the largest of those still expected. *)
Definition slot_id : Type := Z * appointment.
Definition same_slot (a b : slot_id) : bool := (fst a =? fst b) && (MinuteOfDay (snd a) =? MinuteOfDay (snd b)) &&
  (MedianSize (snd a) =? MedianSize (snd b)) && SpecFloat.SFeqb (GrowthPerDay (snd a)) (GrowthPerDay (snd b)) && SpecFloat.SFeqb (MedianResidual (snd a)) (MedianResidual (snd b)).
Fixpoint take_slot (key : slot_id) (l : list slot_id) : option (list slot_id) :=
  match l with
  | [] => None
  | k :: l' => if same_slot k key then Some l' else cons k <$> take_slot key l'
  end.
Record search : Type := Search { sr_Satisfied : list slot_id; sr_Next : option Z; sr_Size : Z; sr_Pending : Z }.

Definition search_appointment (learned : key_model) (loc : location) (now day : Z) (st : search) (app : appointment) : result err search :=
  let at_ := appointmentTime loc day (MinuteOfDay app) in
  if at_ + ScheduleTolerance <? now then Ok st
  else
    match take_slot (at_, app) (sr_Satisfied st) with
    | Some rest => Ok (Search rest (sr_Next st) (sr_Size st) (sr_Pending st))
    | None =>
      projected ← forecastSize learned app at_ f_zero;
      if at_ <=? now then Ok (Search (sr_Satisfied st) (sr_Next st) (sr_Size st) (Z.max (sr_Pending st) projected))
      else
        match sr_Next st with
        | None => Ok (Search (sr_Satisfied st) (Some at_) projected (sr_Pending st))
        | Some next =>
          if at_ <? next then Ok (Search (sr_Satisfied st) (Some at_) projected (sr_Pending st))
          else if (at_ =? next) && (sr_Size st <? projected) then Ok (Search (sr_Satisfied st) (Some next) projected (sr_Pending st))
          else Ok st
        end
    end.
Fixpoint search_all {A} (f : search -> A -> result err search) (l : list A) (st : search) : result err search :=
  match l with [] => Ok st | x :: l' => st ← f st x; search_all f l' st end.

Definition ForecastNextBackup (learned : key_model) (now : Z) (observations : list observation) : result err Z :=
  if negb (km_Reliable learned) || km_ReviewRequired learned then Ok 0
  else
    loc ← LoadLocation (km_Timezone learned);
    let '(slots, _, _, matches) := matchAppointments loc learned observations (now - ScheduleTolerance) (now + ScheduleTolerance) now in
    let satisfied := flat_map (fun p => if is_none (snd p) then [] else [(sl_at (fst p), sl_app (fst p))]) (zip slots matches) in
    let first := localMidnight loc (now - ScheduleTolerance) in
    st ← search_all (fun st i =>
           let day := add_days loc first i in
           search_all (search_appointment learned loc now day) (schedule_of learned (weekday loc day)) st)
         [0; 1; 2; 3; 4; 5; 6; 7; 8] (Search satisfied None 0 0);
    Ok (Z.max (sr_Size st) (sr_Pending st)).
End forecast.

(** ** The windows of a forecast *)
Definition total (start : Z) (events : list event) : Z := sum_by e_bytes (List.filter (in_window start) events).
Definition bytes_ok (e : event) : Prop := 0 <= e_bytes e.

Lemma SFmul_positive m1 e1 m2 e2 x : f_mul (SpecFloat.S754_finite false m1 e1) (SpecFloat.S754_finite false m2 e2) = x -> 0 <= f_ceil x.
Proof.
  unfold f_mul. cbn. unfold SpecFloat.binary_round_aux. intros <-. repeat case_match; cbn; try lia.
  all: repeat case_match; try lia; apply Z.opp_nonneg_nonpos, Z.div_le_upper_bound; [apply Z.pow_pos_nonneg; lia|lia].
Qed.
Lemma forecastSize_positive learned app at_ n : forecastSize learned app at_ ForecastSafetyMargin = Ok n -> 0 <= n < 2^64.
Proof.
  unfold forecastSize. destruct (negb _); [done|]. set (factor := f_add (f_of_int 1) ForecastSafetyMargin).
  assert (exists m' e', factor = SpecFloat.S754_finite false m' e') as (m' & e' & Hf) by (eexists _, _; vm_compute; reflexivity).
  clearbody factor. subst factor. destruct (_ || _) eqn:E; [done|]. intros [= <-].
  apply orb_false_iff in E as [[[Hpos Hnan]%orb_false_iff Hinf]%orb_false_iff Hbig%Z.leb_gt]. split; [|exact Hbig].
  destruct (expected_size learned app at_) as [[]|[]| |[] m e] eqn:Ex; try done. by eapply SFmul_positive.
Qed.

Lemma sum_by_cons {A} (f : A -> Z) x l : sum_by f (x :: l) = f x + sum_by f l.
Proof. reflexivity. Qed.
Lemma gather_forall {A B} (f : A -> result err (list B)) (P : B -> Prop) xs ys :
  (forall x zs, In x xs -> f x = Ok zs -> Forall P zs) -> gather f xs = Ok ys -> Forall P ys.
Proof.
  revert ys. induction xs as [|x xs IH]; intros ys Hf; cbn; [by intros [= <-]|].
  destruct (f x) as [zs|] eqn:E; [|done]. cbn. destruct (gather f xs) as [ws|] eqn:E'; [|done]. intros [= <-].
  apply Forall_app. split; [apply (Hf x); [by left|done]|]. apply IH; [|done]. intros x' zs' Hx. apply Hf. by right.
Qed.

Section windows.
Context (LoadLocation : string -> result err location).

Lemma forecast_events_bytes models now events : forecast_events LoadLocation models now = Ok events -> Forall bytes_ok events.
Proof.
  unfold forecast_events. destruct (gather _ models) as [es|] eqn:E; [|done]. intros [= <-].
  assert (Forall bytes_ok es) as Hes.
  { eapply gather_forall; [|exact E]. intros m zs _. unfold model_events. destruct (_ || _); [by intros [= <-]|].
    destruct (LoadLocation _) as [loc|]; [|done]. cbn. apply gather_forall. intros day zs' _. apply gather_forall. intros app zs'' _.
    unfold appointment_events. destruct (negb _); [done|]. destruct (_ || _); [by intros [= <-]|].
    destruct (forecastSize _ _ _ _) as [n|] eqn:En; [|done]. intros [= <-]. apply forecastSize_positive in En. constructor; [by apply En|done]. }
  rewrite Forall_forall in *. intros e He. apply Hes. apply list_elem_of_In. apply list_elem_of_In in He. by apply in_sort_by in He.
Qed.

Lemma window_sum_total start events sum v : Forall bytes_ok events -> is_uint64 sum -> window_sum start events sum = Ok v ->
  v = sum + total start events /\ is_uint64 v.
Proof.
  unfold total. intros Hev. revert sum. induction Hev as [|e events He _ IH]; intros sum Hsum; cbn [window_sum List.filter].
  { intros [= <-]. cbn. split; [lia|done]. }
  destruct (in_window start e); cbn [negb]; [|by apply IH].
  unfold is_uint64 in *. assert (usub max_uint64 sum = max_uint64 - sum) as ->.
  { unfold usub. apply wrap64_small. unfold is_uint64. lia. }
  destruct (_ <? _) eqn:E; [done|]. apply Z.ltb_ge in E. intros Hv. unfold bytes_ok in He.
  assert (uadd sum (e_bytes e) = sum + e_bytes e) as Ha by (unfold uadd; apply wrap64_small; unfold is_uint64; lia).
  rewrite Ha in Hv. destruct (IH (sum + e_bytes e) ltac:(lia) Hv) as [E1 E2]. split; [|exact E2]. rewrite E1, sum_by_cons. lia.
Qed.

Lemma largest_sum_spec starts events largest v : Forall bytes_ok events -> is_uint64 largest -> largest_sum starts events largest = Ok v ->
  is_uint64 v /\ largest <= v /\ (forall t, In t starts -> total t events <= v) /\ (v = largest \/ exists t, In t starts /\ v = total t events).
Proof.
  intros Hev. revert largest. induction starts as [|t starts IH]; intros largest Hl; cbn [largest_sum].
  { intros [= <-]. split; [done|]. split; [lia|]. split; [by intros t []|by left]. }
  destruct (window_sum t events 0) as [sum|] eqn:E; [|done]. cbn. apply window_sum_total in E as [Es Hsum]; [|done|done]. rewrite Z.add_0_l in Es. subst sum.
  pose proof (Z.ltb_spec largest (total t events)) as Hlt.
  destruct (largest <? total t events); (intros Hv; apply IH in Hv as (H1 & H2 & H3 & H4); [|done]); (split; [done|]); inversion Hlt; (split; [lia|]).
  - split; [intros t' [<-|Ht']; [lia|by apply H3]|]. right. destruct H4 as [->|(t' & Ht' & ->)]; [exists t|exists t'; split; [by right|done]]; split; [by left|done].
  - split; [intros t' [<-|Ht']; [lia|by apply H3]|]. destruct H4 as [->|(t' & Ht' & ->)]; [by left|]. right. exists t'. split; [by right|done].
Qed.

(** A window moved forward to its first event loses nothing. *)
Lemma first_event (events : list event) t : (exists e, In e events /\ t <= e_at e) ->
  exists e, In e events /\ t <= e_at e /\ forall x, In x events -> t <= e_at x -> e_at e <= e_at x.
Proof.
  induction events as [|a events IH]; intros (e & He & Hte); [done|].
  assert ((exists x, In x events /\ t <= e_at x) \/ ~ (exists x, In x events /\ t <= e_at x)) as [Hx|Hx].
  { destruct (existsb (fun x => t <=? e_at x) events) eqn:E; [left|right].
    - apply existsb_exists in E as (x & Hx & Ht). exists x. split; [done|lia].
    - intros (x & Hx & Ht). apply not_true_iff_false in E. apply E, existsb_exists. exists x. split; [done|lia]. }
  - destruct (IH Hx) as (m & Hm & Htm & Hmin). destruct (decide (t <= e_at a /\ e_at a <= e_at m)) as [[H1 H2]|Hn].
    + exists a. split; [by left|]. split; [done|]. intros x [<-|Hin] Htx; [lia|]. specialize (Hmin x Hin Htx). lia.
    + exists m. split; [by right|]. split; [done|]. intros x [<-|Hin] Htx; [lia|by apply Hmin].
  - destruct He as [<-|He]; [|destruct Hx; by exists e]. exists a. split; [by left|]. split; [done|].
    intros x [<-|Hin] Htx; [lia|]. destruct Hx. by exists x.
Qed.
Lemma total_forward events t u : Forall bytes_ok events -> t <= u -> (forall x, In x events -> t <= e_at x -> u <= e_at x) ->
  total t events <= total u events.
Proof.
  unfold total. intros Hev Htu. induction Hev as [|e events He _ IH]; intros Hmin; cbn [List.filter]; [done|].
  assert (sum_by e_bytes (List.filter (in_window t) events) <= sum_by e_bytes (List.filter (in_window u) events)) as Hrec.
  { apply IH. intros x Hx. apply Hmin. by right. }
  unfold bytes_ok in He. destruct (in_window t e) eqn:Et.
  - assert (in_window u e = true) as ->.
    { unfold in_window in *. specialize (Hmin e (or_introl eq_refl)). lia. }
    rewrite !sum_by_cons. lia.
  - destruct (in_window u e); rewrite ?sum_by_cons; lia.
Qed.

(** The forecast of 48 hours covers every window: its result is attained by a
    window that starts now or at an expected copy of the next seven days, and no
    window in which the first expected copy is due before the seventh day is over
    asks for more, wherever it starts; the sums are exact, without overflow. *)
Lemma forecast_covers_windows models now v : Forecast48Hours LoadLocation models now = Ok v ->
  exists events, forecast_events LoadLocation models now = Ok events /\ is_uint64 v /\
    (forall t, (exists e, In e events /\ t <= e_at e < windowStartLimit now) -> total t events <= v) /\
    (v = 0 \/ exists t, (t = now \/ exists e, In e events /\ t = e_at e /\ t < windowStartLimit now) /\ v = total t events).
Proof.
  unfold Forecast48Hours. destruct (forecast_events LoadLocation models now) as [events|] eqn:Ee; [|done]. cbn [mbind result_bind].
  pose proof (forecast_events_bytes _ _ _ Ee) as Hev. intros Hv.
  apply (largest_sum_spec _ _ _ _ Hev) in Hv as (H1 & _ & H3 & H4); [|done]. exists events. split; [done|]. split; [done|]. split.
  - intros t (x & Hx & Htx & Hlim). destruct (first_event events t) as (e & He & Hte & Hmin); [by exists x|].
    etrans; [apply (total_forward events t (e_at e)); [done..|by apply Hmin]|]. apply H3. right. apply in_map_iff. exists e. split; [done|].
    apply filter_In. split; [done|]. specialize (Hmin x Hx Htx). apply Z.ltb_lt. lia.
  - destruct H4 as [?|(t & Ht & ->)]; [by left|right]. exists t. split; [|done]. destruct Ht as [<-|Ht]; [by left|right].
    apply in_map_iff in Ht as (e & <- & [He Hlt]%filter_In). exists e. split; [done|]. split; [done|]. by apply Z.ltb_lt.
Qed.
End windows.

(** ** A growing key *)
Module Growth.
Definition load (name : string) : result err location := Ok UTC.
Definition monday : Z := days_from_civil 2024 1 8 * (24 * Hour) + 8 * Hour.
(** One copy on Mondays at 08:00, growing by 100 bytes per day. *)
Definition weekly : key_model :=
  KeyModel "k" "UTC" monday {[ 1 := [Appointment 480 1000 (f_of_int 100) f_zero] ]} true false "".

End Growth.

(** The forecast is not the largest of all windows that start in the next seven
    days: for a key that grows, with a copy due now, the window that starts at the
    very end of the seventh day has next week's copy, which is larger, and is not
    among the windows the code tries. *)
Lemma forecast_misses_last_window :
  exists events v, Forecast48Hours Growth.load [Growth.weekly] Growth.monday = Ok v /\
    forecast_events Growth.load [Growth.weekly] Growth.monday = Ok events /\
    let t := windowStartLimit Growth.monday - Nanosecond in
    Growth.monday <= t < windowStartLimit Growth.monday /\ v < total t events.
Proof. eexists _, _. split; [vm_compute; reflexivity|]. split; [vm_compute; reflexivity|]. vm_compute. repeat split; discriminate. Qed.

(** ** What is learned *)
Section learned.
Context `{Trigonometry} (LoadLocation : string -> result err location).

(** The copies of the [i]-th of the two training days of a weekday. *)
Definition trained (loc : location) (keyID : string) (observations : list observation) (now w : Z) (i : nat) : list observation :=
  let today := localMidnight loc now in
  let start := add_days loc today (-14) in
  let recent := List.filter (fun o => negb (ob_At o <? start)) (List.filter (past keyID today) observations) in
  nth i (map (fun day => on_date loc (date_key loc day) recent) (training_days loc start today w)) [].

(** Two copies an hour apart at most, on the circle of the day. *)
Definition hours_agree (loc : location) (a b : observation) : Prop :=
  circularDistance (minute loc (ob_At a)) (minute loc (ob_At b)) <= 60.
(** What is learned from the pairs of a weekday, the first of index [i]. *)
Definition lessons (loc : location) (all : list observation) (now w : Z) (i : nat) (days0 days1 : list observation) : list (appointment * bool) :=
  imap (fun j p => learn_appointment [minute loc (ob_At (fst p)); minute loc (ob_At (snd p))] (series_of loc all w (i + j)) now) (zip days0 days1).
(** [m'] adds these to a weekday of [m]. *)
Record extends (w : Z) (l : list (appointment * bool)) (m m' : key_model) : Prop := Extends {
  ex_apps : schedule_of m' w = schedule_of m w ++ map fst l;
  ex_others : forall w', w' <> w -> schedule_of m' w' = schedule_of m w';
  ex_reliable : km_Reliable m' = km_Reliable m;
  ex_review : km_ReviewRequired m' = km_ReviewRequired m || existsb snd l }.

Lemma lessons_cons loc all now w i a days0 b days1 :
  lessons loc all now w i (a :: days0) (b :: days1) =
  learn_appointment [minute loc (ob_At a); minute loc (ob_At b)] (series_of loc all w i) now :: lessons loc all now w (S i) days0 days1.
Proof.
  unfold lessons. cbn [zip zip_with]. rewrite imap_cons, Nat.add_0_r. cbn [fst snd]. f_equal. apply imap_ext. intros j p _. cbn. by rewrite Nat.add_succ_r.
Qed.
Lemma learn_pairs_extends loc all now w days0 : forall i days1 m m', length days0 = length days1 ->
  learn_pairs loc all now w i days0 days1 m = Ok m' ->
  extends w (lessons loc all now w i days0 days1) m m' /\ Forall2 (hours_agree loc) days0 days1.
Proof.
  induction days0 as [|a days0 IH]; intros i [|b days1] m m' Hlen; try done; cbn [learn_pairs].
  { intros [= <-]. split; [|constructor]. split; cbn; [by rewrite app_nil_r|done|done|by rewrite orb_false_r]. }
  destruct (_ <? _) eqn:Ed; [done|]. apply Z.ltb_ge in Ed. rewrite lessons_cons. destruct (learn_appointment _ _ _) as [app shrinks].
  intros Hr. apply IH in Hr as [[Ha Ho Hrel Hrev] Hag]; [|by injection Hlen]. split; [|constructor; [exact Ed|exact Hag]].
  split; [|intros w' Hw'; rewrite Ho by done; unfold schedule_of; cbn; by rewrite lookup_insert_ne|by rewrite Hrel|].
  - unfold schedule_of in Ha |- *. rewrite Ha. cbn. rewrite lookup_insert_eq. cbn. by rewrite <- app_assoc.
  - rewrite Hrev. cbn. by rewrite <- orb_assoc.
Qed.
Lemma learn_weekdays_extends loc recent all start today now ws : NoDup ws -> forall m m',
  learn_weekdays loc recent all start today now ws m = Ok m' ->
  km_Reliable m' = km_Reliable m /\ (km_ReviewRequired m' = false -> km_ReviewRequired m = false) /\
  (forall w, ~ In w ws -> schedule_of m' w = schedule_of m w) /\
  forall w, In w ws -> let days := map (fun day => on_date loc (date_key loc day) recent) (training_days loc start today w) in
    let l := lessons loc all now w 0 (nth 0 days []) (nth 1 days []) in
    Forall2 (hours_agree loc) (nth 0 days []) (nth 1 days []) /\ schedule_of m' w = schedule_of m w ++ map fst l /\
    (km_ReviewRequired m' = false -> existsb snd l = false).
Proof.
  induction 1 as [|w ws Hw Hnd IH]; intros m m'; cbn [learn_weekdays]; [by intros [= <-]|].
  destruct (learn_weekday loc recent all start today now w m) as [m1|] eqn:E; [|done]. cbn [mbind result_bind]. intros Hr.
  destruct (IH _ _ Hr) as (Hrel & Hrev & Ho & Hin). unfold learn_weekday in E. destruct (negb _) eqn:El; [done|].
  apply negb_false_iff, Nat.eqb_eq in El. apply learn_pairs_extends in E as [[Happs Hoth Hrel1 Hrev1] Hag]; [|done].
  split; [by rewrite Hrel|]. split; [intros Hf; apply Hrev in Hf; rewrite Hrev1 in Hf; by apply orb_false_iff in Hf as []|]. split.
  - intros w' Hn. rewrite Ho by (intros ?; apply Hn; by right). apply Hoth. intros ->. apply Hn. by left.
  - intros w' [<-|Hw']; cbv zeta.
    + split; [exact Hag|]. rewrite Ho; [|by rewrite <- list_elem_of_In]. split; [exact Happs|].
      intros Hf. apply Hrev in Hf. rewrite Hrev1 in Hf. by apply orb_false_iff in Hf as [].
    + destruct (Hin w' Hw') as (H1 & H2 & H3). split; [done|]. rewrite H2, Hoth; [by split|].
      intros ->. apply Hw. by apply list_elem_of_In.
Qed.

(** An early return is not reliable. *)
Lemma learn_pairs_early loc all now w days0 : forall i days1 m m',
  learn_pairs loc all now w i days0 days1 m = Err m' -> km_Reliable m' = km_Reliable m.
Proof.
  induction days0 as [|a days0 IH]; intros i [|b days1] m m'; cbn [learn_pairs]; try done. destruct (_ <? _); [by intros [= <-]|].
  destruct (learn_appointment _ _ _) as [app shrinks]. intros ->%IH. done.
Qed.
Lemma learn_weekdays_early loc recent all start today now ws : forall m m',
  learn_weekdays loc recent all start today now ws m = Err m' -> km_Reliable m' = km_Reliable m.
Proof.
  induction ws as [|w ws IH]; intros m m'; cbn [learn_weekdays]; [done|].
  destruct (learn_weekday loc recent all start today now w m) as [m1|m1] eqn:E; cbn [mbind result_bind]; unfold learn_weekday in E.
  - intros ->%IH. destruct (negb _) eqn:El; [done|]. apply negb_false_iff, Nat.eqb_eq in El. by apply learn_pairs_extends in E as [[_ _ -> _] _].
  - intros [= <-]. destruct (negb _); [by injection E as <-|]. by apply learn_pairs_early in E.
Qed.

(** A model is reliable only if the history agrees with itself: on every
    weekday the copies of its last two complete days correspond, in number and, within
    an hour, in their times; the appointments of the weekday are exactly what each
    pair teaches with the copies of the same rank of all earlier weeks, and none of
    them shrinks. *)
Lemma learn_agrees keyID timezone observations now m :
  Learn LoadLocation keyID timezone observations now = Ok m -> km_Reliable m = true ->
  km_ReviewRequired m = false /\ exists loc, LoadLocation timezone = Ok loc /\ forall w, 0 <= w <= 6 ->
    let day := trained loc keyID observations now w in
    let l := lessons loc (List.filter (past keyID (localMidnight loc now)) observations) now w 0 (day 0%nat) (day 1%nat) in
    Forall2 (hours_agree loc) (day 0%nat) (day 1%nat) /\ schedule_of m w = map fst l /\ existsb snd l = false.
Proof.
  unfold Learn. destruct (LoadLocation timezone) as [loc|]; [|done]. cbn [mbind result_bind]. cbv zeta. destruct (_ =? 0)%nat; [by intros [= <-]|].
  destruct (learn_weekdays _ _ _ _ _ _ _ _) as [m'|m'] eqn:E.
  - apply learn_weekdays_extends in E as (Hrel & _ & _ & Hin); [|apply (NoDup_ListNoDup [0; 1; 2; 3; 4; 5; 6]); repeat constructor; cbn; lia].
    destruct (km_ReviewRequired m') eqn:Er; intros [= <-]; [cbn in *; congruence|]. intros _. cbn [km_ReviewRequired]. split; [done|].
    exists loc. split; [done|]. intros w Hw. destruct (Hin w ltac:(cbn; lia)) as (Hag & Hs & Hsh). split; [exact Hag|]. split; [|by apply Hsh].
    change (schedule_of _ w) with (schedule_of m' w). rewrite Hs. unfold schedule_of. cbn [km_Schedule]. by rewrite lookup_empty.
  - apply learn_weekdays_early in E. intros [= <-]. by rewrite E.
Qed.
End learned.

(** ** A history of two weeks *)
Module History.
#[local] Instance constant : Trigonometry := {| f_cos x := x; f_sin x := x; f_atan2 _ _ := f_of_int 2 |}.
End History.
