(* ===== verification/Catalog.v ===== *)
(** The SQLite catalogue: its tables as lists of rows in rowid order, the
    constraints of the schema checked by every insertion, and the platform
    functions the store calls ([src/internal/store/store.go], schema). *)
From S2P Require Import Prelude GoTime GoFloat GoString Model Policy Schedule.

(** ** Platform

    What the store calls outside the repository: the timezone database,
    SHA-256, the mail-address parser of [net/mail], the JSON codec, the texts
    of local times with the abbreviation of their zone and the order SQLite
    gives to [julianday(received_at)]. *)
Class Platform : Type := {
  LoadLocation : string -> result err location;
  sha256_hex : string -> string;
  ParseAddress : string -> bool;
  ParseAddressList : string -> bool;
  json_compact : string -> result err string;        (* json.Marshal of a raw message *)
  json_model : string -> result err key_model;       (* json.Unmarshal into a KeyModel *)
  local_time_text : location -> Z -> string;         (* t.In(zone).Format("02/01/2006 15:04 MST") *)
  julianday : string -> Z }.

(** ** Rows *)
Record attempt : Type := Attempt { at_ID : Z; at_KeyID : string; at_BackupID : string; at_AttemptedAt : Z }.

Record monitoring_model : Type := MonitoringModel {
  mm_KeyID : string; mm_Revision : Z; mm_LearnedAt : Z; mm_Timezone : string; mm_RetentionDays : Z;
  mm_JSON : string; mm_Reliable : bool; mm_ReviewRequired : bool }.

Inductive check_status : Type := CheckRunning | CheckClean | CheckAnomalies | CheckFailed.
#[global] Instance check_status_eq_dec : EqDecision check_status.
Proof. solve_decision. Defined.

(** A row of [monitoring_checks]; [c_FinishedAt] is NULL while running. *)
Record check : Type := MonitoringCheck {
  c_ID : Z; c_StartedAt : Z; c_FinishedAt : option Z; c_PeriodFrom : Z; c_PeriodTo : Z;
  c_Status : check_status; c_Summary : string }.
#[global] Instance eta_check : Settable check := fun r =>
  MonitoringCheck (c_ID r) (c_StartedAt r) (c_FinishedAt r) (c_PeriodFrom r) (c_PeriodTo r) (c_Status r) (c_Summary r).

Record check_model : Type := CheckModel {
  cm_CheckID : Z; cm_KeyID : string; cm_Revision : Z; cm_CoveredFrom : Z; cm_CoveredTo : Z }.

(** The row of [automation_state]. *)
Record automation : Type := Automation {
  au_Enabled : bool; au_MailTested : bool; au_MonitoringState : string; au_DeletionBlocked : bool;
  au_BlockReason : string; au_ManualPaused : bool; au_ManualPauseReason : string;
  au_ActivationPending : bool; au_ActivationRequired : bool; au_ResumePending : bool;
  au_ResumeRequestedAt : Z; au_MailConfigVersion : Z; au_Timezone : string; au_RetentionDays : Z;
  au_ThresholdBasis : Z; au_ReserveFree : Z; au_ModelRevision : Z; au_LastCheckAt : Z;
  au_NextReportAt : Z; au_SmtpHost : string; au_SmtpPort : Z; au_SmtpTLS : bool; au_MailFrom : string;
  au_MailTo : string }.
#[global] Instance eta_automation : Settable automation := fun r =>
  Automation (au_Enabled r) (au_MailTested r) (au_MonitoringState r) (au_DeletionBlocked r)
    (au_BlockReason r) (au_ManualPaused r) (au_ManualPauseReason r) (au_ActivationPending r)
    (au_ActivationRequired r) (au_ResumePending r) (au_ResumeRequestedAt r) (au_MailConfigVersion r)
    (au_Timezone r) (au_RetentionDays r) (au_ThresholdBasis r) (au_ReserveFree r) (au_ModelRevision r)
    (au_LastCheckAt r) (au_NextReportAt r) (au_SmtpHost r) (au_SmtpPort r) (au_SmtpTLS r) (au_MailFrom r)
    (au_MailTo r).

(** ** The database

    A [_seq] field is the AUTOINCREMENT counter of its table.  The rows of
    [anomaly_exclusion_kinds] are the [e_Kinds] of their exclusion. *)
Record db : Type := Db {
  d_profiles : list profile; d_keys : list key; d_backups : list backup;
  d_attempts : list attempt; d_attempts_seq : Z; d_automation : automation;
  d_key_retention : gmap string Z; d_models : list monitoring_model;
  d_anomalies : list anomaly; d_anomalies_seq : Z;
  d_operations : list operation; d_operations_seq : Z;
  d_exclusions : list anomaly_exclusion; d_exclusions_seq : Z;
  d_mail : list mail_message; d_mail_seq : Z; d_lease : lease;
  d_checks : list check; d_checks_seq : Z; d_check_models : list check_model }.
#[global] Instance eta_db : Settable db := fun r =>
  Db (d_profiles r) (d_keys r) (d_backups r) (d_attempts r) (d_attempts_seq r) (d_automation r)
    (d_key_retention r) (d_models r) (d_anomalies r) (d_anomalies_seq r) (d_operations r)
    (d_operations_seq r) (d_exclusions r) (d_exclusions_seq r) (d_mail r) (d_mail_seq r) (d_lease r)
    (d_checks r) (d_checks_seq r) (d_check_models r).

Definition initial_automation : automation :=
  Automation true false MonitoringLearning true "automazione non configurata" false "" true true false 0 1
    "" 7 8000 0 0 0 0 "" 0 true "" "".

(** The catalogue [Init] creates. *)
Definition initial_db : db :=
  Db DefaultProfiles [] [] [] 0 initial_automation ∅ [] [] 0 [] 0 [] 0 [] 0 (Lease "" 0 0) [] 0 [].

Abbreviation tx := (Prelude.tx db err).

(** ** Statements *)
Definition query_row {A} (o : option A) : tx A :=
  match o with Some a => mret a | None => tx_fail ErrNoRows end.

(** [changed]: an UPDATE that touched no row is [sql.ErrNoRows]. *)
Definition changed (rows : Z) : tx unit := tx_guard (rows =? 0) ErrNoRows.

Definition update_keys (p : key -> bool) (f : key -> key) : tx Z := fun d =>
  Ok (count_where p (d_keys d), d <| d_keys ::= update_where p f |>).
Definition update_backups (p : backup -> bool) (f : backup -> backup) : tx Z := fun d =>
  Ok (count_where p (d_backups d), d <| d_backups ::= update_where p f |>).
Definition update_operations (p : operation -> bool) (f : operation -> operation) : tx Z := fun d =>
  Ok (count_where p (d_operations d), d <| d_operations ::= update_where p f |>).
Definition update_anomalies (p : anomaly -> bool) (f : anomaly -> anomaly) : tx Z := fun d =>
  Ok (count_where p (d_anomalies d), d <| d_anomalies ::= update_where p f |>).
Definition update_mail (p : mail_message -> bool) (f : mail_message -> mail_message) : tx Z := fun d =>
  Ok (count_where p (d_mail d), d <| d_mail ::= update_where p f |>).
Definition update_checks (p : check -> bool) (f : check -> check) : tx Z := fun d =>
  Ok (count_where p (d_checks d), d <| d_checks ::= update_where p f |>).
Definition update_automation (f : automation -> automation) : tx unit :=
  tx_modify (fun d => d <| d_automation ::= f |>).

(** ** Predicates of the queries *)
Definition backup_id_is (id : string) (b : backup) : bool := bool_decide (b_ID b = id).
Definition backup_is (id : string) (st : backup_status) (b : backup) : bool :=
  backup_id_is id b && has_status st b.
Definition operation_id_is (id : Z) (o : operation) : bool := o_ID o =? id.
Definition has_state (st : op_state) (o : operation) : bool := bool_decide (o_State o = st).
Definition has_kind (k : op_kind) (o : operation) : bool := bool_decide (o_Kind o = k).
Definition active_operation (o : operation) : bool := has_state OpRequested o || has_state OpAuthorized o.
Definition key_id_is (id : string) (k : key) : bool := bool_decide (k_ID k = id).
Definition open_anomaly (a : anomaly) : bool := a_ResolvedAt a =? 0.
Definition stable_key_is (s : string) (a : anomaly) : bool := bool_decide (a_StableKey a = s).
(** A copy acknowledged as definitively missing. *)
Definition acknowledged_missing (d : db) (id : string) : bool :=
  exists_where (fun a => String.eqb (a_Kind a) "file_missing" && String.eqb (a_BackupID a) id &&
                         negb (a_AcknowledgedAt a =? 0)) (d_anomalies d).

Definition find_backup (d : db) (id : string) : option backup := find_where (backup_id_is id) (d_backups d).
Definition find_key (d : db) (id : string) : option key := find_where (key_id_is id) (d_keys d).
Definition find_operation (d : db) (id : Z) : option operation :=
  find_where (operation_id_is id) (d_operations d).

Definition select_backup (id : string) : tx backup := fun d => query_row (find_backup d id) d.
Definition select_operation (id : Z) : tx operation := fun d => query_row (find_operation d id) d.
(** [backups b JOIN keys k ON k.id=b.key_id WHERE b.id=?] *)
Definition select_backup_key (id : string) : tx (backup * key) := fun d =>
  match find_backup d id with
  | None => Err ErrNoRows
  | Some b => match find_key d (b_KeyID b) with None => Err ErrNoRows | Some k => Ok ((b, k), d) end
  end.

(** [deletion_blocked OR manual_paused OR activation_required OR resume_pending
    OR NOT enabled OR NOT mail_tested] *)
Definition blocked (a : automation) : bool :=
  au_DeletionBlocked a || au_ManualPaused a || au_ActivationRequired a || au_ResumePending a ||
  negb (au_Enabled a) || negb (au_MailTested a).
Definition block_reason (a : automation) : string :=
  if au_ManualPaused a then au_ManualPauseReason a else au_BlockReason a.

(** ** Insertions, with the constraints of the schema *)
Definition insert_backup (b : backup) : tx unit := fun d =>
  if exists_where (backup_id_is (b_ID b)) (d_backups d) ||
     negb (exists_where (key_id_is (b_KeyID b)) (d_keys d)) ||
     (b_Size b <=? 0) ||
     (negb (String.eqb (b_IdempotencyKey b) "") &&
      exists_where (fun x => String.eqb (b_KeyID x) (b_KeyID b) &&
                             String.eqb (b_IdempotencyKey x) (b_IdempotencyKey b)) (d_backups d))
  then Err (ErrConstraint "backups")
  else Ok (tt, d <| d_backups ::= (fun t => t ++ [b]) |>).

Definition insert_attempt (keyID backupID : string) (at_ : Z) : tx unit := fun d =>
  if negb (exists_where (key_id_is keyID) (d_keys d)) || negb (exists_where (backup_id_is backupID) (d_backups d))
  then Err (ErrConstraint "upload_attempts")
  else
    let id := d_attempts_seq d + 1 in
    Ok (tt, d <| d_attempts ::= (fun t => t ++ [Attempt id keyID backupID at_]) |> <| d_attempts_seq := id |>).

(** The new row is requested; its id is the value of the call. *)
Definition insert_operation (backupID : string) (kind : op_kind) (origin actor reason : string)
    (revision requestedAt : Z) : tx Z := fun d =>
  if negb (exists_where (backup_id_is backupID) (d_backups d)) ||
     exists_where (fun o => active_operation o && bool_decide (o_BackupID o = backupID)) (d_operations d)
  then Err (ErrConstraint "retention_operations")
  else
    let id := d_operations_seq d + 1 in
    let o := Operation id backupID kind OpRequested origin actor reason "" revision requestedAt 0 0 "" 0 false in
    Ok (id, d <| d_operations ::= (fun t => t ++ [o]) |> <| d_operations_seq := id |>).

(** [id] of the row is assigned. *)
Definition insert_anomaly (a : anomaly) : tx unit := fun d =>
  if open_anomaly a && exists_where (fun x => open_anomaly x && stable_key_is (a_StableKey a) x) (d_anomalies d)
  then Err (ErrConstraint "anomalies")
  else
    let id := d_anomalies_seq d + 1 in
    Ok (tt, d <| d_anomalies ::= (fun t => t ++ [a <| a_ID := id |>]) |> <| d_anomalies_seq := id |>).

Definition mail_queued (stableID : string) (d : db) : bool :=
  exists_where (fun m => String.eqb (m_StableID m) stableID) (d_mail d).
Definition append_mail (stableID kind subject body : string) (now : Z) (d : db) : db :=
  let id := d_mail_seq d + 1 in
  d <| d_mail ::= (fun t => t ++ [MailMessage id stableID kind subject body now 0 now 0 ""]) |>
    <| d_mail_seq := id |>.
(** INSERT, and INSERT OR IGNORE. *)
Definition insert_mail (stableID kind subject body : string) (now : Z) : tx unit := fun d =>
  if mail_queued stableID d then Err (ErrConstraint "mail_queue")
  else Ok (tt, append_mail stableID kind subject body now d).
Definition insert_mail_or_ignore (stableID kind subject body : string) (now : Z) : tx unit := fun d =>
  Ok (tt, if mail_queued stableID d then d else append_mail stableID kind subject body now d).

(** [SELECT COALESCE(SUM(expr),0)]: SQLite raises an error when the sum of
    integers leaves int64. *)
Fixpoint sum_int64 (l : list Z) (acc : Z) : result err Z :=
  match l with
  | [] => Ok acc
  | x :: l' =>
    let acc' := acc + x in
    if (acc' <? - 2^63) || (max_int64 <? acc') then Err ErrOverflow else sum_int64 l' acc'
  end.

(** ** The retention core

    What the protection of the copies depends on: keys, backups, operations.
    Most statements leave it alone. *)
Record core : Type := Core {
  c_keys : list key; c_backups : list backup; c_operations : list operation; c_seq : Z }.
Definition core_of (d : db) : core :=
  Core (d_keys d) (d_backups d) (d_operations d) (d_operations_seq d).

(** A statement that leaves a part of the catalogue alone, and in particular the core. *)
Definition keeps {T A} (part : db -> T) (m : tx A) : Prop := forall d a d', m d = Ok (a, d') -> part d' = part d.
Definition frame {A} (m : tx A) : Prop := keeps core_of m.

Create HintDb frame.

Lemma frame_ret {A} (a : A) : frame (mret a).
Proof. by intros d b d' [= _ <-]. Qed.
Lemma frame_fail {A} e : frame (tx_fail (A:=A) e).
Proof. by intros d b d' H. Qed.
Lemma frame_bind {A B} (m : tx A) (f : A -> tx B) : frame m -> (forall a, frame (f a)) -> frame (m ≫= f).
Proof.
  intros Hm Hf d b d' H. unfold mbind, tx_bind in H. destruct (m d) as [[a d1]|] eqn:E; [|done].
  rewrite (Hf a _ _ _ H). by apply (Hm _ _ _ E).
Qed.
Lemma frame_guard c e : frame (tx_guard c e).
Proof. intros d b d' H. unfold tx_guard in H. destruct c; [done|by injection H as _ <-]. Qed.
Lemma frame_gets {A} (f : db -> A) : frame (tx_gets f).
Proof. by intros d b d' [= _ <-]. Qed.
Lemma frame_query {A} (o : option A) : frame (query_row o).
Proof. intros d b d' H. destruct o; [by injection H as _ <-|done]. Qed.
Lemma frame_changed n : frame (changed n).
Proof. apply frame_guard. Qed.
Lemma frame_lift {A} (r : result err A) : frame (tx_lift r).
Proof. intros d b d' H. unfold tx_lift in H. destruct r; [by injection H as _ <-|done]. Qed.
Lemma frame_automation f : frame (update_automation f).
Proof. by intros d b d' [= _ <-]. Qed.
Lemma frame_update_anomalies p f : frame (update_anomalies p f).
Proof. by intros d b d' [= _ <-]. Qed.
Lemma frame_update_mail p f : frame (update_mail p f).
Proof. by intros d b d' [= _ <-]. Qed.
Lemma frame_update_checks p f : frame (update_checks p f).
Proof. by intros d b d' [= _ <-]. Qed.
Lemma frame_insert_anomaly a : frame (insert_anomaly a).
Proof. intros d b d' H. unfold insert_anomaly in H. destruct (_ && _); [done|by injection H as _ <-]. Qed.
Lemma frame_insert_mail s k u b n : frame (insert_mail s k u b n).
Proof. intros d x d' H. unfold insert_mail in H. destruct (mail_queued s d); [done|by injection H as _ <-]. Qed.
Lemma frame_insert_mail_or_ignore s k u b n : frame (insert_mail_or_ignore s k u b n).
Proof. intros d x d' [= _ <-]. by destruct (mail_queued s d). Qed.
Lemma frame_insert_attempt k b t : frame (insert_attempt k b t).
Proof. intros d x d' H. unfold insert_attempt in H. destruct (_ || _); [done|by injection H as _ <-]. Qed.
Lemma frame_if {A} (c : bool) (m n : tx A) : frame m -> frame n -> frame (if c then m else n).
Proof. by destruct c. Qed.
Lemma frame_select_backup id : frame (select_backup id).
Proof. intros d b d' H. unfold select_backup in H. by apply frame_query in H. Qed.
Lemma frame_select_operation id : frame (select_operation id).
Proof. intros d b d' H. unfold select_operation in H. by apply frame_query in H. Qed.
Lemma frame_select_backup_key id : frame (select_backup_key id).
Proof.
  intros d b d' H. unfold select_backup_key in H. destruct (find_backup d id) as [x|]; [|done].
  destruct (find_key d (b_KeyID x)); [by injection H as _ <-|done].
Qed.

#[export] Hint Resolve frame_ret frame_fail frame_guard frame_gets frame_query frame_changed frame_lift
  frame_automation frame_update_anomalies frame_update_mail frame_update_checks frame_insert_anomaly
  frame_insert_mail frame_insert_mail_or_ignore frame_insert_attempt frame_select_backup
  frame_select_operation frame_select_backup_key : frame.

(** Frames of a composed statement. *)
Ltac frame :=
  repeat first
    [ solve [auto with frame]
    | apply frame_bind; [|let a := fresh "a" in intros a; cbn beta iota]
    | apply frame_if
    | match goal with |- frame (match ?x with _ => _ end) => destruct x end ].

(** Inversion of a successful run. *)
Lemma bind_ok {A B} (m : tx A) (f : A -> tx B) d b d' :
  (m ≫= f) d = Ok (b, d') -> exists a d1, m d = Ok (a, d1) /\ f a d1 = Ok (b, d').
Proof. unfold mbind, tx_bind. destruct (m d) as [[a d1]|]; [by exists a, d1|done]. Qed.
Lemma guard_ok c (e : err) (d : db) (b : unit) d' : tx_guard c e d = Ok (b, d') -> c = false /\ d' = d.
Proof. unfold tx_guard. destruct c; [done|]. by intros [= _ <-]. Qed.
Lemma gets_ok {A} (f : db -> A) d a d' : @tx_gets db err A f d = Ok (a, d') -> a = f d /\ d' = d.
Proof. by intros [= <- <-]. Qed.
Lemma ret_ok {A} (x : A) d a d' : mret (M:=tx) x d = Ok (a, d') -> a = x /\ d' = d.
Proof. by intros [= <- <-]. Qed.
Lemma query_ok {A} (o : option A) d a d' : query_row o d = Ok (a, d') -> o = Some a /\ d' = d.
Proof. destruct o; [|done]. by intros [= <- <-]. Qed.
Lemma select_backup_ok id d b d' : select_backup id d = Ok (b, d') -> find_backup d id = Some b /\ d' = d.
Proof. apply query_ok. Qed.
Lemma select_operation_ok id d o d' : select_operation id d = Ok (o, d') -> find_operation d id = Some o /\ d' = d.
Proof. apply query_ok. Qed.
Lemma select_backup_key_ok id d b k d' : select_backup_key id d = Ok ((b, k), d') ->
  find_backup d id = Some b /\ find_key d (b_KeyID b) = Some k /\ d' = d.
Proof.
  unfold select_backup_key. destruct (find_backup d id) as [x|]; [|done].
  destruct (find_key d (b_KeyID x)) eqn:E; [|done]. by intros [= <- <- <-].
Qed.
Lemma changed_ok n d (b : unit) d' : changed n d = Ok (b, d') -> n <> 0 /\ d' = d.
Proof. intros [H ->]%guard_ok. apply Z.eqb_neq in H. done. Qed.

(** One statement of a successful run. *)
Ltac tx_step H :=
  let a := fresh "r" in let d := fresh "d" in let H1 := fresh "Hs" in
  apply bind_ok in H as (a & d & H1 & H); cbn beta iota zeta in H.
Ltac tx_reads H := first
  [ apply changed_ok in H as [H ->] | apply guard_ok in H as [H ->] | apply gets_ok in H as [-> ->]
  | apply select_backup_ok in H as [H ->] | apply select_operation_ok in H as [H ->]
  | apply query_ok in H as [H ->] | apply ret_ok in H as [-> ->] ].
(** Statements that only read, up to the first that writes. *)
Ltac tx_run H :=
  repeat (let a := fresh "r" in let d := fresh "d" in let H1 := fresh "Hs" in
          apply bind_ok in H as (a & d & H1 & H); cbn beta iota zeta in H; tx_reads H1);
  try tx_reads H.

(** ** Other parts of the catalogue *)
Lemma keeps_bind {T A B} (p : db -> T) (m : tx A) (f : A -> tx B) : keeps p m -> (forall a, keeps p (f a)) -> keeps p (m ≫= f).
Proof. intros Hm Hf d b d' (a & d1 & H1 & H2)%bind_ok. rewrite (Hf _ _ _ _ H2). exact (Hm _ _ _ H1). Qed.
Lemma keeps_if {T A} (p : db -> T) (c : bool) (m n : tx A) : keeps p m -> keeps p n -> keeps p (if c then m else n).
Proof. by destruct c. Qed.
Lemma keeps_iter {T A} (p : db -> T) (f : A -> tx unit) l : (forall a, keeps p (f a)) -> keeps p (tx_iter f l).
Proof. intros Hf. induction l as [|a l IH]; [by intros ? ? ? [= _ <-]|]. apply keeps_bind; [done|by intros _]. Qed.
Lemma keeps_select {T A} (p : db -> T) (f : db -> option A) : keeps p (fun d => query_row (f d) d).
Proof. by intros d a d' [_ ->]%query_ok. Qed.

Ltac head_of m := lazymatch m with ?f _ => head_of f | _ => m end.
(** One statement, by computing the catalogue it leaves. *)
Ltac keep_statement :=
  let d := fresh "d" in let a := fresh "a" in let d' := fresh "d'" in let Hr := fresh "Hr" in
  intros d a d' Hr;
  first [ injection Hr as _ <-; reflexivity
        | cbv beta iota zeta in Hr; repeat (case_match; try discriminate Hr); simplify_eq; reflexivity ].
(** A whole operation: its statements one after the other. *)
Ltac keep :=
  repeat first
    [ apply keeps_bind; [|intros ?; cbv beta iota zeta]
    | apply keeps_iter; intros ?
    | apply keeps_if
    | apply keeps_select
    | match goal with |- keeps _ (match ?x with _ => _ end) => destruct x end
    | solve [keep_statement]
    | match goal with |- keeps _ ?m => let h := head_of m in unfold h; cbv beta iota zeta end ].
