(* ===== verification/Anomalies.v ===== *)
(** Anomalies, their exclusions, the holds they place on deletions and the mail
    they queue ([src/internal/store/retention.go] from [excludableAnomalyKinds]
    to [AnomalyExclusions], [src/internal/store/mail_anomaly.go]). *)
From S2P Require Import Prelude GoTime GoFloat GoString Model Policy Schedule Catalog.

Definition excludableAnomalyKinds : list string := ["upload"; "time"; "schedule_missing"; "extra"]%string.
Definition excludable (kind : string) : bool := mem_str kind excludableAnomalyKinds.

(** Fourteen days before [now], which every caller gives in UTC. *)
Definition two_weeks_before (now : Z) : Z := unix (add_days UTC now (-14)).

Definition exclusion_covers (keyID kind : string) (eventAt : Z) (e : anomaly_exclusion) : bool :=
  String.eqb (e_KeyID e) keyID && mem_str kind (e_Kinds e) &&
  (e_StartsAt e <=? unix eventAt) && (unix eventAt <=? e_EndsAt e).

Definition anomalyExcluded (d : db) (keyID kind : string) (eventAt : Z) : bool :=
  if String.eqb keyID "" || negb (excludable kind) then false
  else negb (count_where (exclusion_covers keyID kind eventAt) (d_exclusions d) =? 0).

Definition new_anomaly (stableKey kind keyID backupID detail : string) (eventAt now : Z) : anomaly :=
  Anomaly 0 stableKey kind keyID backupID detail (unix eventAt) (unix now) (unix now) 0 0 "" "".

Definition exclusion_note (e : anomaly_exclusion) : string :=
  ("esclusione amministrativa " ++ pretty (e_ID e) ++ ": " ++ e_Reason e)%string.

(** The latest exclusion that covers the event signs the record. *)
Definition recordExcludedAnomaly (stableKey kind keyID backupID detail : string) (eventAt now : Z) : tx unit :=
  exclusions ← tx_gets d_exclusions;
  e ← query_row (find_where (exclusion_covers keyID kind eventAt) (rev exclusions));
  let note := exclusion_note e in
  n ← update_anomalies
        (fun a => stable_key_is stableKey a && negb (open_anomaly a) && String.eqb (a_ResolutionNote a) note)
        (fun a => a <| a_LastSeenAt := unix now |> <| a_Detail := detail |>);
  if negb (n =? 0) then mret tt
  else insert_anomaly
         (Anomaly 0 stableKey kind keyID backupID detail (unix eventAt) (unix now) (unix now) (unix now) (unix now)
            (e_Actor e) note).

Definition same_kind_key (kind keyID : string) (since : Z) (a : anomaly) : bool :=
  open_anomaly a && String.eqb (a_Kind a) kind && String.eqb (a_KeyID a) keyID && (since <=? a_EventAt a).

(** A single excludable event is tolerated; two in two weeks are not. *)
Definition anomalyBlocks (d : db) (stableKey kind keyID : string) (now : Z) : bool :=
  if String.eqb kind "extra" || IsQuarantineMarginWarning kind stableKey then false
  else if negb (excludable kind) then true
  else 2 <=? count_where (same_kind_key kind keyID (two_weeks_before now)) (d_anomalies d).

Definition anomaly_reason (detail : string) : string := ("anomalia: " ++ detail)%string.

Definition blockForAnomaly (detail : string) : tx unit :=
  update_automation (fun a => a <| au_DeletionBlocked := true |> <| au_MonitoringState := MonitoringAnomaly |>
    <| au_BlockReason := anomaly_reason detail |> <| au_ActivationPending := false |>
    <| au_ResumePending := false |> <| au_ResumeRequestedAt := 0 |>).

Definition blocking_anomaly (d : db) (now : Z) (a : anomaly) : bool :=
  open_anomaly a &&
  negb (String.eqb (a_Kind a) "capacity" && String.eqb (a_StableKey a) QuarantineMarginAnomalyKey) &&
  (negb (excludable (a_Kind a)) ||
   (negb (String.eqb (a_Kind a) "extra") &&
    (2 <=? count_where (same_kind_key (a_Kind a) (a_KeyID a) (two_weeks_before now)) (d_anomalies d)))).
Definition blockingAnomalyCount (d : db) (now : Z) : Z :=
  count_where (blocking_anomaly d now) (d_anomalies d).

Definition anomalyMail (stableKey kind detail : string) : string * string :=
  if IsQuarantineMarginWarning kind stableKey then
    ("OnlyBackup: AVVISO NON BLOCCANTE - margine di spazio",
     (detail ++ newline ++ "La retention può proseguire per liberare spazio; restano validi gli altri blocchi e le protezioni delle copie.")%string)
  else if String.eqb kind "extra" then
    ("OnlyBackup: AVVISO NON BLOCCANTE - copie eccedenti",
     (detail ++ newline ++ "Questa anomalia non sospende la retention; eventuali altri blocchi restano validi.")%string)
  else ("OnlyBackup: nuova anomalia"%string, detail).

Section platform.
Context `{Platform}.

(** ORDER BY julianday(received_at) DESC, received_at DESC LIMIT 1 *)
Definition received_status (b : backup) : bool :=
  has_status BackupComplete b || has_status BackupDeleting b || has_status BackupQuarantined b ||
  has_status BackupPurging b || has_status BackupDeleted b.
Definition later_receipt (a b : string) : string :=
  if (julianday a <? julianday b) || ((julianday a =? julianday b) && String.ltb a b) then b else a.
Definition latest_received (keyID : string) (backups : list backup) : string :=
  foldl (fun acc b =>
    if String.eqb (b_KeyID b) keyID && negb (String.eqb (b_ReceivedAt b) "") && received_status b
    then (if String.eqb acc "" then b_ReceivedAt b else later_receipt acc (b_ReceivedAt b)) else acc)
    ""%string backups.

Definition missingBackupMail (d : db) (keyID : string) (expectedAt : Z) : string * string :=
  let name := match find_key d keyID with Some k => k_Name k | None => keyID end in
  let timezone := au_Timezone (d_automation d) in
  let received := latest_received keyID (d_backups d) in
  let zone := match LoadLocation timezone with
              | Ok l => if String.eqb timezone "" then UTC else l
              | Err _ => UTC
              end in
  let latest :=
    if String.eqb received "" then "nessuna"%string
    else match parse_rfc3339 received with Some t => local_time_text zone t | None => received end in
  (("OnlyBackup: backup mancante | " ++ name)%string,
   (name ++ ": backup del " ++ local_time_text zone expectedAt ++ " non ricevuto." ++ newline ++ "Ultima ricevuta: " ++
    latest ++ "." ++ newline ++ "Verifica server e invio del client.")%string).

Definition openAnomalyAt (stableKey kind keyID backupID detail : string) (eventAt now : Z) : tx bool :=
  _ ← tx_guard (is_blank stableKey || is_blank kind || is_blank detail) (ErrText "anomalia non valida");
  excluded ← tx_gets (fun d => anomalyExcluded d keyID kind eventAt);
  if (excluded : bool) then
    _ ← recordExcludedAnomaly stableKey kind keyID backupID detail eventAt now; mret false
  else
    n ← update_anomalies (fun a => stable_key_is stableKey a && open_anomaly a)
          (fun a => a <| a_LastSeenAt := unix now |> <| a_Detail := detail |>);
    if negb (n =? 0) then mret false
    else
      _ ← insert_anomaly (new_anomaly stableKey kind keyID backupID detail eventAt now);
      blocks ← tx_gets (fun d => anomalyBlocks d stableKey kind keyID now);
      _ ← (if (blocks : bool) then blockForAnomaly detail else mret tt);
      text ← tx_gets (fun d =>
        if String.eqb kind "schedule_missing" then missingBackupMail d keyID eventAt
        else anomalyMail stableKey kind detail);
      _ ← insert_mail ("anomaly:" ++ stableKey ++ ":" ++ pretty (unix now)) "anomaly" (fst text) (snd text) (unix now);
      mret true.

Definition openAnomaly (stableKey kind keyID backupID detail : string) (now : Z) : tx unit :=
  _ ← openAnomalyAt stableKey kind keyID backupID detail now now; mret tt.
End platform.

Definition ResolveAnomaly (stableKey : string) (now : Z) : tx bool :=
  found ← tx_gets (fun d => find_where (fun a => stable_key_is stableKey a && open_anomaly a) (d_anomalies d));
  match found with
  | None => mret false
  | Some a0 =>
    n ← update_anomalies (fun a => stable_key_is stableKey a && open_anomaly a) (fun a => a <| a_ResolvedAt := unix now |>);
    if n =? 0 then mret false
    else
      _ ← (if negb (IsQuarantineMarginWarning (a_Kind a0) stableKey) then
             update_automation (fun a => a <| au_DeletionBlocked := true |> <| au_MonitoringState := MonitoringPaused |>
               <| au_BlockReason := "anomalia risolta; retention resume richiesto" |>)
           else mret tt);
      _ ← insert_mail ("resolved:" ++ stableKey ++ ":" ++ pretty (unix now)) "resolution"
            "OnlyBackup: anomalia risolta" stableKey (unix now);
      mret true
  end.

Definition operation_key (id : Z) : string := ("maintenance-operation:" ++ pretty id)%string.
Definition uncertain_key (id : Z) : string := ("operation-uncertain:" ++ pretty id)%string.

(** [finished] closes the incident of the operation; an intact source closes
    only the uncertainty about it. *)
Definition resolveMaintenanceOperation (operationID : Z) (now : Z) (finished : bool) : tx bool :=
  let uncertainKey := uncertain_key operationID in
  let stableKey := if finished then operation_key operationID else uncertainKey in
  let note := (if finished then "operazione completata o annullata; errore operativo chiuso"
               else "stato fisico verificato; ripresa possibile")%string in
  let subject := (if finished then "OnlyBackup: errore di manutenzione risolto"
                  else "OnlyBackup: esito di manutenzione chiarito")%string in
  let prefix := (if finished then "maintenance-resolved" else "maintenance-clarified")%string in
  n ← update_anomalies
        (fun a => (stable_key_is stableKey a || stable_key_is uncertainKey a) &&
                  String.eqb (a_Kind a) "maintenance" && open_anomaly a)
        (fun a => a <| a_ResolvedAt := unix now |> <| a_ResolvedBy := "automatic" |> <| a_ResolutionNote := note |>);
  if n =? 0 then mret false
  else
    _ ← insert_mail (prefix ++ ":" ++ pretty operationID ++ ":" ++ pretty (unix now)) "resolution" subject stableKey (unix now);
    mret true.

(** A check is recent for ten minutes; a second of skew is allowed. *)
Definition check_stale (lastCheck now : Z) : bool :=
  (lastCheck =? 0) || (unix now + 1 <? lastCheck) || (600 <? unix now - lastCheck).

Definition authorized_operations (d : db) : Z := count_where (has_state OpAuthorized) (d_operations d).

Definition TryClearResolvedMaintenanceBlock (operationID now : Z) : tx bool :=
  _ ← tx_guard (operationID <=? 0) (ErrText "operazione di manutenzione non valida");
  d ← tx_get;
  match find_where (fun a =>
          (stable_key_is (operation_key operationID) a || stable_key_is (uncertain_key operationID) a) &&
          String.eqb (a_Kind a) "maintenance" && negb (open_anomaly a) && String.eqb (a_ResolvedBy a) "automatic" &&
          String.eqb (anomaly_reason (a_Detail a)) (au_BlockReason (d_automation d))) (rev (d_anomalies d)) with
  | None => mret false
  | Some a =>
    let au := d_automation d in
    if negb (blocked au) || negb (String.eqb (au_BlockReason au) (anomaly_reason (a_Detail a))) ||
       negb (String.eqb (au_MonitoringState au) MonitoringRegular) || (au_ModelRevision au =? 0) ||
       check_stale (au_LastCheckAt au) now
    then mret false
    else if negb (blockingAnomalyCount d now =? 0) || negb (authorized_operations d =? 0) ||
            negb (count_where (fun o => has_state OpCancelled o && (a_OpenedAt a <=? o_CompletedAt o)) (d_operations d) =? 0)
    then mret false
    else if negb (au_ManualPaused au) && negb (au_ResumePending au) && au_DeletionBlocked au &&
            String.eqb (au_BlockReason au) (anomaly_reason (a_Detail a))
    then _ ← update_automation (fun au => au <| au_DeletionBlocked := false |> <| au_BlockReason := "" |>); mret true
    else mret false
  end.

Definition AcknowledgeMissingAnomaly (id now : Z) : tx unit :=
  anomalies ← tx_gets d_anomalies;
  a ← query_row (find_where (fun a => (a_ID a =? id) && open_anomaly a) anomalies);
  _ ← tx_guard (negb (String.eqb (a_Kind a) "file_missing"))
        (ErrText "solo una copia definitivamente mancante puo essere riconosciuta");
  lastCheck ← tx_gets (fun d => au_LastCheckAt (d_automation d));
  _ ← tx_guard (check_stale lastCheck now) (ErrText "serve un controllo recente");
  _ ← update_anomalies (fun a => (a_ID a =? id) && open_anomaly a)
        (fun a => a <| a_AcknowledgedAt := unix now |> <| a_ResolvedAt := unix now |>);
  _ ← update_automation (fun a => a <| au_DeletionBlocked := true |> <| au_MonitoringState := MonitoringPaused |>
        <| au_BlockReason := "copia mancante riconosciuta; retention resume richiesto" |>
        <| au_ActivationPending := false |> <| au_ResumePending := false |> <| au_ResumeRequestedAt := 0 |>);
  insert_mail ("acknowledged:" ++ a_StableKey a ++ ":" ++ pretty (unix now)) "resolution"
    "OnlyBackup: copia mancante riconosciuta" (a_StableKey a) (unix now).

(** ORDER BY opened_at, id *)
Definition Anomalies (activeOnly : bool) (d : db) : list anomaly :=
  sort_by (fun a b => a_OpenedAt a <? a_OpenedAt b)
    (List.filter (fun a => negb activeOnly || open_anomaly a) (d_anomalies d)).

Definition AcknowledgedMissingBackupIDs (d : db) : list string :=
  remove_dups (sort_strings (map a_BackupID
    (List.filter (fun a => String.eqb (a_Kind a) "file_missing" && negb (a_AcknowledgedAt a =? 0) &&
                           negb (String.eqb (a_BackupID a) "")) (d_anomalies d)))).

(** ** Exclusions *)
Fixpoint kinds_valid (kinds seen : list string) : result err unit :=
  match kinds with
  | [] => Ok tt
  | k :: kinds' =>
    if negb (excludable k) || mem_str k seen then
      Err (ErrText ("tipo anomalia non escludibile o duplicato: " ++ k))
    else kinds_valid kinds' (k :: seen)
  end.

Definition insert_exclusion (e : anomaly_exclusion) : tx Z := fun d =>
  if exists_where (fun x => e_SourceAnomalyID x =? e_SourceAnomalyID e) (d_exclusions d) ||
     negb (exists_where (fun a => a_ID a =? e_SourceAnomalyID e) (d_anomalies d)) ||
     negb (exists_where (key_id_is (e_KeyID e)) (d_keys d)) ||
     (e_EndsAt e <? e_StartsAt e) || (604800 <? e_EndsAt e - e_StartsAt e)
  then Err (ErrConstraint "anomaly_exclusions")
  else
    let id := d_exclusions_seq d + 1 in
    let e' := AnomalyExclusion id (e_SourceAnomalyID e) (e_KeyID e) (e_StartsAt e) (e_EndsAt e) (e_Actor e)
                (e_Reason e) (e_CreatedAt e) (e_Kinds e) in
    Ok (id, d <| d_exclusions ::= (fun t => t ++ [e']) |> <| d_exclusions_seq := id |>).

(** LIKE 'anomalia:%', which ignores the case of ASCII letters. *)
Definition like_anomaly (s : string) : bool := is_prefix (bytes "anomalia:") (map lower_byte (bytes s)).

Definition CreateAnomalyExclusion (sourceID startsAt endsAt : Z) (actor reason : string) (kinds : list string)
    (now : Z) : tx anomaly_exclusion :=
  let actor := trim_space actor in
  let reason := trim_space reason in
  _ ← tx_guard ((sourceID <=? 0) || String.eqb actor "" || String.eqb reason "" || (endsAt <? startsAt) ||
                (7 * 24 * Hour <? time_sub endsAt startsAt) || (length kinds =? 0)%nat)
        (ErrText "esclusione anomalia non valida o superiore a sette giorni");
  _ ← tx_lift (kinds_valid kinds []);
  anomalies ← tx_gets d_anomalies;
  source ← query_row (find_where (fun a => a_ID a =? sourceID) anomalies);
  _ ← tx_guard (String.eqb (a_KeyID source) "" || (a_EventAt source <? unix startsAt) || (unix endsAt <? a_EventAt source))
        (ErrText "l'intervallo deve contenere l'anomalia originaria associata a una chiave");
  let e := AnomalyExclusion 0 sourceID (a_KeyID source) (unix startsAt) (unix endsAt) actor reason (unix now) kinds in
  id ← insert_exclusion e;
  _ ← update_anomalies
        (fun a => open_anomaly a && String.eqb (a_KeyID a) (a_KeyID source) && (unix startsAt <=? a_EventAt a) &&
                  (a_EventAt a <=? unix endsAt) && mem_str (a_Kind a) kinds)
        (fun a => a <| a_ResolvedAt := unix now |> <| a_AcknowledgedAt := unix now |> <| a_ResolvedBy := actor |>
                    <| a_ResolutionNote := reason |>);
  d ← tx_get;
  _ ← (if (blockingAnomalyCount d now =? 0) && (authorized_operations d =? 0) && like_anomaly (au_BlockReason (d_automation d))
       then update_automation (fun a => a <| au_DeletionBlocked := false |> <| au_MonitoringState := MonitoringRegular |>
              <| au_BlockReason := "" |>)
       else mret tt);
  mret (AnomalyExclusion id sourceID (a_KeyID source) (unix startsAt) (unix endsAt) actor reason (unix now) kinds).

Definition AnomalyExclusions (d : db) : list anomaly_exclusion :=
  map (fun e => AnomalyExclusion (e_ID e) (e_SourceAnomalyID e) (e_KeyID e) (e_StartsAt e) (e_EndsAt e) (e_Actor e)
                  (e_Reason e) (e_CreatedAt e) (sort_strings (e_Kinds e))) (d_exclusions d).

(** ** Frames: anomalies never touch the copies or the operations *)
Section frames.
Context `{Platform}.

Lemma frame_recordExcluded s k i b t e n : frame (recordExcludedAnomaly s k i b t e n).
Proof. unfold recordExcludedAnomaly. frame. Qed.
Lemma frame_openAnomalyAt s k i b t e n : frame (openAnomalyAt s k i b t e n).
Proof. unfold openAnomalyAt, blockForAnomaly. pose proof frame_recordExcluded. frame. Qed.
Lemma frame_openAnomaly s k i b t n : frame (openAnomaly s k i b t n).
Proof. unfold openAnomaly. pose proof frame_openAnomalyAt. frame. Qed.
Lemma frame_ResolveAnomaly s n : frame (ResolveAnomaly s n).
Proof. unfold ResolveAnomaly. frame. Qed.
Lemma frame_resolveMaintenanceOperation i n f : frame (resolveMaintenanceOperation i n f).
Proof. unfold resolveMaintenanceOperation. frame. Qed.
Lemma frame_get : frame (tx_get (S:=db) (E:=err)).
Proof. by intros d b d' [= _ <-]. Qed.
Lemma frame_TryClear i n : frame (TryClearResolvedMaintenanceBlock i n).
Proof. unfold TryClearResolvedMaintenanceBlock. pose proof frame_get. frame. Qed.
Lemma frame_Acknowledge i n : frame (AcknowledgeMissingAnomaly i n).
Proof. unfold AcknowledgeMissingAnomaly. frame. Qed.
Lemma frame_insert_exclusion e : frame (insert_exclusion e).
Proof. intros d x d' Hr. unfold insert_exclusion in Hr. destruct (_ || _); [done|by injection Hr as _ <-]. Qed.
Lemma frame_CreateExclusion i s e a r k n : frame (CreateAnomalyExclusion i s e a r k n).
Proof. unfold CreateAnomalyExclusion. pose proof frame_get. pose proof frame_insert_exclusion. frame. Qed.
End frames.
#[export] Hint Resolve frame_recordExcluded frame_openAnomalyAt frame_openAnomaly frame_ResolveAnomaly
  frame_resolveMaintenanceOperation frame_get frame_TryClear frame_Acknowledge frame_CreateExclusion : frame.
