(* ===== verification/Automation.v ===== *)
(** The administrative state of deletions: configuration, pause, resume,
    relearning, activation after a check, and the retention minimum checked with
    every destructive step ([src/internal/store/retention.go], first part,
    [src/internal/store/maintenance_retry.go], and the activation of
    [src/internal/store/monitoring_checks.go]). *)
From S2P Require Import Prelude GoTime GoFloat GoString Model Policy Schedule Catalog Anomalies.

(** ** Status *)
Record automation_status : Type := AutomationStatus {
  as_ActivationPending : bool; as_ActivationRequired : bool; as_ResumePending : bool; as_ResumeRequestedAt : Z;
  as_ManualPaused : bool; as_ManualPauseReason : string; as_KeyRetentionDays : gmap string Z;
  as_Enabled : bool; as_MailTested : bool; as_MonitoringState : string; as_DeletionBlocked : bool;
  as_BlockReason : string; as_Timezone : string; as_RetentionDays : Z; as_ThresholdBasis : Z;
  as_ReserveFree : Z; as_ModelRevision : Z; as_LastCheckAt : Z; as_LastCheckRegular : bool;
  as_NextReportAt : Z; as_ActiveAnomalies : Z }.

(** [COALESCE(r.days,a.retention_days)] *)
Definition retention_days (d : db) (keyID : string) : Z :=
  default (au_RetentionDays (d_automation d)) (d_key_retention d !! keyID).

Definition read_status (d : db) : automation_status :=
  let a := d_automation d in
  let regular := String.eqb (au_MonitoringState a) MonitoringRegular in
  AutomationStatus (au_ActivationPending a) (au_ActivationRequired a) (au_ResumePending a) (au_ResumeRequestedAt a)
    (au_ManualPaused a) (au_ManualPauseReason a)
    (list_to_map (map (fun k => (k_ID k, retention_days d (k_ID k))) (d_keys d)))
    (au_Enabled a) (au_MailTested a)
    (if blocked a && regular then MonitoringPaused else au_MonitoringState a)
    (blocked a) (block_reason a) (au_Timezone a) (au_RetentionDays a) (au_ThresholdBasis a) (au_ReserveFree a)
    (au_ModelRevision a) (au_LastCheckAt a) regular (au_NextReportAt a)
    (count_where open_anomaly (d_anomalies d)).

Definition RetentionDaysForKey (s : automation_status) (keyID : string) : Z :=
  default (as_RetentionDays s) (as_KeyRetentionDays s !! keyID).

(** ** Settings *)
Definition SetReserveFree (n : Z) : tx unit :=
  _ ← tx_guard (n <? 0) (ErrText "riserva disco non valida");
  update_automation (fun a => a <| au_ReserveFree := n |>).

Definition SetKeyRetentionDays (keyID : string) (days : Z) : tx unit :=
  _ ← tx_guard (negb (ValidID keyID) || (days <? 7) || (365000 <? days))
        (ErrText "chiave o conservazione non valida: da 7 a 365000 giorni");
  known ← tx_gets (fun d => exists_where (key_id_is keyID) (d_keys d));
  _ ← tx_guard (negb known) (ErrConstraint "key_retention");
  tx_modify (fun d => d <| d_key_retention ::= <[keyID := days]> |>).

Definition read_mail_settings (d : db) : mail_settings :=
  let a := d_automation d in
  MailSettings (au_MailConfigVersion a) (au_SmtpHost a) (au_SmtpPort a) (au_SmtpTLS a) (au_MailFrom a) (au_MailTo a).

Definition three_days_after (now : Z) : Z := unix (now + 72 * Hour).
Definition pending_operations (d : db) : Z := count_where active_operation (d_operations d).

Definition fail_running_checks (summary : string) (now : Z) : tx unit :=
  _ ← update_checks (fun c => bool_decide (c_Status c = CheckRunning))
        (fun c => c <| c_Status := CheckFailed |> <| c_FinishedAt := Some (unix now) |> <| c_Summary := summary |>);
  mret tt.

Section platform.
Context `{Platform}.

(** Checked again under the transaction of each new destructive permission. *)
Definition checkRetentionMinimum (backupID : string) (now : Z) : tx unit :=
  d ← tx_get;
  b ← select_backup backupID;
  match RetentionProtected LoadLocation b now (au_Timezone (d_automation d)) (retention_days d (b_KeyID b)) with
  | (_, Some e) => tx_fail e
  | (true, None) => tx_fail ErrRetentionMinimum
  | (false, None) => mret tt
  end.

Definition SetupAutomationMode (settings : mail_settings) (timezone mode : string) (now : Z) : tx unit :=
  _ ← tx_guard (negb (String.eqb mode "") && negb (String.eqb mode "auto") && negb (String.eqb mode "manual"))
        (ErrText "modalità retention non valida: auto o manual");
  _ ← tx_guard (is_blank (ms_Host settings) || (ms_Port settings <? 1) || (65535 <? ms_Port settings) ||
                is_blank (ms_From settings) || is_blank (ms_Recipients settings))
        (ErrText "configurazione mail incompleta");
  _ ← tx_guard (contains_any (of_bytes [13; 10]) (ms_Host settings ++ ms_From settings ++ ms_Recipients settings) ||
                contains_any (of_bytes [32; 9]) (ms_Host settings))
        (ErrText "configurazione mail contiene caratteri non validi");
  _ ← tx_guard (negb (ParseAddress (ms_From settings))) (ErrText "mittente mail non valido");
  _ ← tx_guard (negb (ParseAddressList (ms_Recipients settings))) (ErrText "destinatari mail non validi");
  _ ← tx_lift (match LoadLocation timezone with
               | Ok _ => Ok tt
               | Err e => Err (ErrWrap e "fuso non valido")
               end);
  active ← tx_gets pending_operations;
  _ ← tx_guard (negb (active =? 0))
        (ErrText "configurazione rifiutata: completare, riconciliare o annullare le operazioni pendenti");
  _ ← fail_running_checks "invalidato dalla configurazione amministrativa" now;
  let keep := String.eqb mode "" in
  let auto := String.eqb mode "auto" in
  update_automation (fun a => a
    <| au_SmtpHost := ms_Host settings |> <| au_SmtpPort := ms_Port settings |> <| au_SmtpTLS := ms_TLS settings |>
    <| au_MailFrom := ms_From settings |> <| au_MailTo := ms_Recipients settings |> <| au_Timezone := timezone |>
    <| au_Enabled := (if keep then au_Enabled a else auto) |>
    <| au_ActivationPending := (if keep then au_ActivationPending a else auto) |>
    <| au_ActivationRequired := true |> <| au_ResumePending := false |> <| au_ResumeRequestedAt := 0 |>
    <| au_MailConfigVersion := au_MailConfigVersion a + 1 |> <| au_MailTested := false |>
    <| au_MonitoringState := MonitoringLearning |> <| au_DeletionBlocked := true |>
    <| au_BlockReason := "prova mail e apprendimento richiesti" |> <| au_ModelRevision := 0 |>
    <| au_NextReportAt := three_days_after now |>).
End platform.

Definition mail_proven (now : Z) (a : automation) : automation :=
  a <| au_MailTested := true |>
    <| au_NextReportAt := (if au_NextReportAt a =? 0 then three_days_after now else au_NextReportAt a) |>.
Definition MarkMailTested (now : Z) : tx unit := update_automation (mail_proven now).

Definition EnableAutomation : tx unit :=
  status ← tx_gets read_status;
  _ ← tx_guard (negb (as_MailTested status))
        (ErrText "la prova mail deve riuscire prima di abilitare l'automazione");
  update_automation (fun a => a <| au_Enabled := true |>).

Definition PauseRetention (reason : string) : tx unit :=
  let reason := if is_blank reason then "sospensione amministrativa"%string else reason in
  update_automation (fun a => a <| au_ManualPaused := true |> <| au_ManualPauseReason := reason |>
    <| au_ActivationPending := false |> <| au_ResumePending := false |> <| au_ResumeRequestedAt := 0 |>).

Definition RequestRetentionResume (now : Z) : tx unit :=
  update_automation (fun a => a <| au_Enabled := true |> <| au_ResumePending := true |>
    <| au_ResumeRequestedAt := unix now |>
    <| au_BlockReason := (if negb (au_DeletionBlocked a) then "ripresa prenotata; controllo valido richiesto"%string
                          else au_BlockReason a) |>
    <| au_DeletionBlocked := true |>).

(** Every hold removed, by a resume or by an activation. *)
Definition lift_holds (a : automation) : automation :=
  a <| au_DeletionBlocked := false |> <| au_BlockReason := "" |> <| au_ManualPaused := false |>
    <| au_ManualPauseReason := "" |> <| au_ActivationPending := false |> <| au_ActivationRequired := false |>
    <| au_ResumePending := false |> <| au_ResumeRequestedAt := 0 |>.

Definition ResumeRetention (now : Z) : tx unit :=
  d ← tx_get;
  let a := d_automation d in
  _ ← tx_guard (negb (au_Enabled a) || negb (au_MailTested a) || negb (blockingAnomalyCount d now =? 0) ||
                negb (authorized_operations d =? 0) || (au_ModelRevision a =? 0) || check_stale (au_LastCheckAt a) now ||
                negb (String.eqb (au_MonitoringState a) MonitoringRegular))
        (ErrText "riattivazione rifiutata: controllo recente regolare, modello affidabile e nessuna operazione incerta richiesti");
  update_automation lift_holds.

Definition BeginRelearn : tx unit :=
  active ← tx_gets pending_operations;
  _ ← tx_guard (negb (active =? 0))
        (ErrText "relearn rifiutato: completare, riconciliare o annullare le operazioni pendenti");
  update_automation (fun a => a <| au_MonitoringState := MonitoringLearning |> <| au_DeletionBlocked := true |>
    <| au_BlockReason := "nuovo apprendimento richiesto" |> <| au_ModelRevision := au_ModelRevision a + 1 |>
    <| au_ResumePending := false |> <| au_ResumeRequestedAt := 0 |>).

Definition valid_monitoring_state (state : string) : bool :=
  String.eqb state MonitoringLearning || String.eqb state MonitoringRegular ||
  String.eqb state MonitoringAnomaly || String.eqb state MonitoringPaused.

Definition record_check (state : string) (revision now : Z) (a : automation) : automation :=
  let a := a <| au_MonitoringState := state |> <| au_ModelRevision := revision |> <| au_LastCheckAt := unix now |> in
  if String.eqb state MonitoringLearning
  then a <| au_DeletionBlocked := true |> <| au_BlockReason := "apprendimento non completato" |>
  else a.

Definition SetCheckState (state : string) (revision now : Z) : tx unit :=
  _ ← tx_guard (negb (valid_monitoring_state state)) (ErrText "stato monitoraggio non valido");
  update_automation (record_check state revision now).

(** Every key in use has a reliable model of the current revision and timezone. *)
Definition models_ready (d : db) : bool :=
  forallb (fun k => k_Revoked k ||
    exists_where (fun m => String.eqb (mm_KeyID m) (k_ID k) && (mm_Revision m =? au_ModelRevision (d_automation d)) &&
                           mm_Reliable m && negb (mm_ReviewRequired m) &&
                           String.eqb (mm_Timezone m) (au_Timezone (d_automation d))) (d_models d)) (d_keys d).

Definition activation_ready (d : db) : bool :=
  let a := d_automation d in
  au_Enabled a && au_MailTested a && String.eqb (au_MonitoringState a) MonitoringRegular &&
  negb (au_ModelRevision a =? 0) && (au_ResumePending a || (au_ActivationPending a && negb (au_ManualPaused a))) &&
  exists_where (fun k => negb (k_Revoked k)) (d_keys d) && models_ready d &&
  negb (exists_where (has_state OpAuthorized) (d_operations d)).

Definition activateRetentionAfterCheck : tx unit :=
  ready ← tx_gets activation_ready;
  if (ready : bool) then update_automation lift_holds else mret tt.

(** ** Provisional retries of a reconciled operation *)
Definition reconciledSourceIntact : string :=
  "autorizzazione ricreata dopo riavvio prima dell operazione fisica".

Definition canRetryReconciledOperation (d : db) (op : operation) (now : Z) : bool :=
  if o_ExecutionCommitted op || negb (String.eqb (o_Error op) reconciledSourceIntact) ||
     negb (active_operation op) || negb (has_kind OpQuarantine op || has_kind OpPurge op)
  then false
  else
    let a := d_automation d in
    let ready := au_Enabled a && au_MailTested a && au_DeletionBlocked a && negb (au_ManualPaused a) &&
                 negb (au_ActivationRequired a) && negb (au_ResumePending a) &&
                 (au_ModelRevision a =? o_Revision op) && models_ready d in
    let lastCheck := au_LastCheckAt a in
    let decisionAt := if has_state OpAuthorized op then o_AuthorizedAt op else unix now in
    if negb ready then false
    else if negb (String.eqb (au_MonitoringState a) MonitoringRegular) &&
            negb (String.eqb (au_MonitoringState a) MonitoringAnomaly) then false
    else if (lastCheck =? 0) || (unix now + 1 <? lastCheck) || (600 <? decisionAt - lastCheck) then false
    else
      match find_where (fun x => stable_key_is (operation_key (o_ID op)) x && String.eqb (a_Kind x) "maintenance" &&
                                 String.eqb (a_BackupID x) (o_BackupID op) && open_anomaly x) (d_anomalies d) with
      | None => false
      | Some x =>
        if lastCheck <? a_LastSeenAt x then false
        else if negb (String.eqb (au_BlockReason a) (anomaly_reason (a_Detail x))) &&
                (count_where (fun y => stable_key_is (uncertain_key (o_ID op)) y && String.eqb (a_Kind y) "maintenance" &&
                               negb (open_anomaly y) && String.eqb (a_ResolvedBy y) "automatic" &&
                               String.eqb (anomaly_reason (a_Detail y)) (au_BlockReason a)) (d_anomalies d) =? 0)
        then false
        else if negb (blockingAnomalyCount d now =? 1) then false
        else count_where (fun o => has_state OpAuthorized o && negb (o_ID o =? o_ID op)) (d_operations d) =? 0
      end.

(** ** Frames *)
Section frames.
Context `{Platform}.
Lemma frame_fail_running_checks s n : frame (fail_running_checks s n).
Proof. unfold fail_running_checks. frame. Qed.
Lemma frame_SetReserveFree n : frame (SetReserveFree n).
Proof. unfold SetReserveFree. frame. Qed.
Lemma frame_SetKeyRetentionDays k n : frame (SetKeyRetentionDays k n).
Proof. unfold SetKeyRetentionDays. frame. by intros d x d' [= _ <-]. Qed.
Lemma frame_checkRetentionMinimum b n : frame (checkRetentionMinimum b n).
Proof. unfold checkRetentionMinimum. frame. Qed.
Lemma frame_SetupAutomationMode s z m n : frame (SetupAutomationMode s z m n).
Proof. unfold SetupAutomationMode. pose proof frame_fail_running_checks. frame. Qed.
Lemma frame_MarkMailTested n : frame (MarkMailTested n).
Proof. unfold MarkMailTested. frame. Qed.
Lemma frame_EnableAutomation : frame EnableAutomation.
Proof. unfold EnableAutomation. frame. Qed.
Lemma frame_PauseRetention r : frame (PauseRetention r).
Proof. unfold PauseRetention. frame. Qed.
Lemma frame_RequestRetentionResume n : frame (RequestRetentionResume n).
Proof. unfold RequestRetentionResume. frame. Qed.
Lemma frame_ResumeRetention n : frame (ResumeRetention n).
Proof. unfold ResumeRetention. frame. Qed.
Lemma frame_BeginRelearn : frame BeginRelearn.
Proof. unfold BeginRelearn. frame. Qed.
Lemma frame_SetCheckState s r n : frame (SetCheckState s r n).
Proof. unfold SetCheckState. frame. Qed.
Lemma frame_activate : frame activateRetentionAfterCheck.
Proof. unfold activateRetentionAfterCheck. frame. Qed.
End frames.
#[export] Hint Resolve frame_fail_running_checks frame_SetReserveFree frame_SetKeyRetentionDays
  frame_checkRetentionMinimum frame_SetupAutomationMode frame_MarkMailTested frame_EnableAutomation
  frame_PauseRetention frame_RequestRetentionResume frame_ResumeRetention frame_BeginRelearn
  frame_SetCheckState frame_activate : frame.
