(* ===== verification/Retention.v ===== *)
(** Retention operations: quarantine, purge and recovery, from the request to
    the confirmation of the physical result, under the maintenance lease
    ([src/internal/store/retention.go]; [Revoke] of [store.go]). *)
From S2P Require Import Prelude GoTime GoFloat GoString Model Policy Schedule Catalog Anomalies Automation.

Definition quarantineMinimum : Z := 48 * Hour.

Definition status_text (s : backup_status) : string :=
  match s with
  | BackupReceiving => "receiving" | BackupComplete => "complete" | BackupFailed => "failed"
  | BackupDeleting => "deleting" | BackupQuarantined => "quarantined" | BackupPurging => "purging"
  | BackupDeleted => "deleted"
  end.

(** ** The maintenance lease *)
Definition lease_holds (l : lease) (now : Z) (d : db) : bool :=
  String.eqb (l_Owner (d_lease d)) (l_Owner l) && (l_Generation (d_lease d) =? l_Generation l) &&
  (unix now <? l_ExpiresAt (d_lease d)).

Definition validateMaintenanceLeaseTx (l : lease) (now : Z) : tx unit :=
  _ ← tx_guard (is_blank (l_Owner l) || (l_Generation l <=? 0)) ErrLease;
  valid ← tx_gets (lease_holds l now);
  tx_guard (negb valid) ErrLease.

Definition ValidateMaintenanceLease (l : lease) (now : Z) : tx unit :=
  valid ← tx_gets (lease_holds l now);
  tx_guard (negb valid) ErrLease.

Definition AcquireMaintenanceLease (owner : string) (generation now duration : Z) : tx lease :=
  _ ← tx_guard (is_blank owner || (duration <=? 0)) (ErrText "lease non valida");
  _ ← tx_guard (generation <? 0) (ErrText "generazione lease non valida");
  l ← tx_gets d_lease;
  let expires := unix (now + duration) in
  if generation =? 0 then
    _ ← tx_guard (negb ((l_ExpiresAt l <=? unix now) && (l_Generation l <? max_int64))) ErrLease;
    _ ← tx_modify (fun d => d <| d_lease := Lease owner (l_Generation l + 1) expires |>);
    tx_gets d_lease
  else
    _ ← tx_guard (negb (String.eqb (l_Owner l) owner && (l_Generation l =? generation) && (unix now <? l_ExpiresAt l))) ErrLease;
    _ ← tx_modify (fun d => d <| d_lease := Lease (l_Owner l) (l_Generation l) expires |>);
    tx_gets d_lease.

Definition ReleaseMaintenanceLease (l : lease) : tx unit :=
  tx_modify (fun d =>
    if String.eqb (l_Owner (d_lease d)) (l_Owner l) && (l_Generation (d_lease d) =? l_Generation l)
    then d <| d_lease := Lease "" (l_Generation (d_lease d)) 0 |> else d).

(** ** Requests *)
Definition copy_of (keyID : string) (d : db) (b : backup) : bool :=
  String.eqb (b_KeyID b) keyID && negb (acknowledged_missing d (b_ID b)).
Definition complete_copies (keyID : string) (d : db) : Z :=
  count_where (fun b => copy_of keyID d b && has_status BackupComplete b) (d_backups d).
Definition stable_copies (keyID : string) (d : db) : Z :=
  count_where (fun b => copy_of keyID d b &&
    (has_status BackupComplete b || has_status BackupDeleting b || has_status BackupQuarantined b)) (d_backups d).

Definition blocked_guard : tx unit :=
  a ← tx_gets d_automation;
  tx_guard (blocked a) (ErrWrap ErrRetentionBlocked (block_reason a)).

Definition model_revision (d : db) : Z := au_ModelRevision (d_automation d).

Definition requested (id : Z) (backupID : string) (kind : op_kind) (origin actor reason : string)
    (revision now : Z) : operation :=
  Operation id backupID kind OpRequested origin actor reason "" revision (unix now) 0 0 "" 0 false.

(** [purgeNotBefore]: the whole second at or after 48 hours. *)
Definition purgeNotBefore (now : Z) : Z :=
  unix (now + quarantineMinimum) + (if nanosecond now =? 0 then 0 else 1).

Section platform.
Context `{Platform}.

Definition RequestQuarantine (backupID origin actor reason : string) (now : Z) : tx operation :=
  _ ← tx_guard (negb (ValidID backupID) || (negb (String.eqb origin "manual") && negb (String.eqb origin "automatic")) ||
                is_blank actor) (ErrText "richiesta retention non valida");
  _ ← blocked_guard;
  timezone ← tx_gets (fun d => au_Timezone (d_automation d));
  revision ← tx_gets model_revision;
  loc ← tx_lift (match LoadLocation timezone with
                 | Ok l => Ok l
                 | Err _ => Err (ErrText "fuso dell'automazione non valido")
                 end);
  bk ← select_backup_key backupID;
  let b := fst bk in
  _ ← tx_guard (k_Revoked (snd bk)) (ErrText "i backup di una chiave revocata non sono selezionabili");
  _ ← tx_guard (negb (has_status BackupComplete b))
        (ErrText ("backup non selezionabile nello stato " ++ status_text (b_Status b)));
  missing ← tx_gets (fun d => acknowledged_missing d backupID);
  _ ← tx_guard missing (ErrText "backup riconosciuto come definitivamente mancante");
  _ ← tx_guard (bool_decide (local_date loc (backup_time b) = local_date loc now)) ErrCurrentDay;
  copies ← tx_gets (complete_copies (b_KeyID b));
  _ ← tx_guard (copies <=? 1) ErrLastCopy;
  _ ← checkRetentionMinimum backupID now;
  n ← update_backups (backup_is backupID BackupComplete) (fun b => b <| b_Status := BackupDeleting |>);
  _ ← tx_guard (negb (n =? 1)) (ErrText "stato backup cambiato durante la richiesta");
  id ← insert_operation backupID OpQuarantine origin actor reason revision (unix now);
  mret (requested id backupID OpQuarantine origin actor reason revision now).

Definition RequestPurge (backupID origin actor reason : string) (now : Z) : tx operation :=
  _ ← tx_guard (negb (ValidID backupID) || (negb (String.eqb origin "manual") && negb (String.eqb origin "automatic") &&
                negb (String.eqb origin "reconcile")) || is_blank actor) (ErrText "richiesta purge non valida");
  _ ← blocked_guard;
  revision ← tx_gets model_revision;
  bk ← select_backup_key backupID;
  let b := fst bk in
  _ ← tx_guard (k_Revoked (snd bk)) (ErrText "i backup di una chiave revocata non sono eliminabili");
  _ ← tx_guard (negb (has_status BackupQuarantined b)) (ErrText ("backup non in quarantena: " ++ status_text (b_Status b)));
  missing ← tx_gets (fun d => acknowledged_missing d backupID);
  _ ← tx_guard missing (ErrText "backup riconosciuto come definitivamente mancante");
  _ ← checkRetentionMinimum backupID now;
  _ ← tx_guard ((b_PurgeNotBefore b =? 0) || (unix now <? b_PurgeNotBefore b)) ErrTooEarly;
  copies ← tx_gets (stable_copies (b_KeyID b));
  _ ← tx_guard (copies <=? 1) ErrLastCopy;
  n ← update_backups (backup_is backupID BackupQuarantined) (fun b => b <| b_Status := BackupPurging |>);
  _ ← tx_guard (negb (n =? 1)) (ErrText "stato backup cambiato durante la richiesta");
  id ← insert_operation backupID OpPurge origin actor reason revision (unix now);
  mret (requested id backupID OpPurge origin actor reason revision now).

Definition RequestRecovery (backupID actor reason : string) (now : Z) : tx operation :=
  _ ← tx_guard (negb (ValidID backupID) || is_blank actor) (ErrText "richiesta recupero non valida");
  b ← select_backup backupID;
  _ ← tx_guard (negb (has_status BackupQuarantined b)) (ErrText "solo un backup in quarantena puo essere recuperato");
  revision ← tx_gets model_revision;
  id ← insert_operation backupID OpRecover "manual" actor reason revision (unix now);
  mret (requested id backupID OpRecover "manual" actor reason revision now).

(** ** Authorization *)
Definition destructive (op : operation) : bool := negb (has_kind OpRecover op).

(** What is checked again at every destructive permission: the holds (an
    operation may only ignore its own reconciled incident), the retention
    minimum and the revocation of the key. *)
Definition destructive_checks (op : operation) (now : Z) (revokedMessage : string) : tx unit :=
  d ← tx_get;
  _ ← tx_guard (blocked (d_automation d) && destructive op && negb (canRetryReconciledOperation d op now)) ErrRetentionBlocked;
  if destructive op then
    _ ← checkRetentionMinimum (o_BackupID op) now;
    bk ← select_backup_key (o_BackupID op);
    tx_guard (k_Revoked (snd bk)) (ErrText revokedMessage)
  else mret tt.

Definition receiving_guard (op : operation) (message : string) : tx unit :=
  receiving ← tx_gets (fun d => count_where (has_status BackupReceiving) (d_backups d));
  tx_guard (destructive op && negb (receiving =? 0)) (ErrText message).

(** [ticket] is the token drawn by [model.NewToken]. *)
Definition AuthorizeOperation (operationID : Z) (l : lease) (ticket : string) (now : Z) : tx (operation * string) :=
  _ ← validateMaintenanceLeaseTx l now;
  revision ← tx_gets model_revision;
  op ← select_operation operationID;
  if negb (has_state OpRequested op) || negb (o_Revision op =? revision) then
    _ ← tx_guard (negb (has_state OpAuthorized op) || negb (o_ExecutionCommitted op)) ErrTicket;
    n ← update_operations
          (fun o => operation_id_is (o_ID op) o && has_state OpAuthorized o && o_ExecutionCommitted o && String.eqb (o_TicketHash o) "")
          (fun o => o <| o_TicketHash := sha256_hex ticket |> <| o_LeaseGeneration := l_Generation l |>);
    _ ← changed n;
    mret (op <| o_LeaseGeneration := l_Generation l |>, ticket)
  else
    _ ← destructive_checks op now "operazione distruttiva rifiutata: chiave revocata";
    copies ← tx_gets (fun d =>
      match find_backup d (o_BackupID op) with Some b => stable_copies (b_KeyID b) d | None => 0 end);
    _ ← tx_guard (has_kind OpPurge op && (copies <? 1)) ErrLastCopy;
    _ ← receiving_guard op "upload in corso: autorizzazione distruttiva rinviata";
    n ← update_operations (fun o => operation_id_is operationID o && has_state OpRequested o)
          (fun o => o <| o_State := OpAuthorized |> <| o_TicketHash := sha256_hex ticket |>
                      <| o_AuthorizedAt := unix now |> <| o_LeaseGeneration := l_Generation l |>);
    _ ← tx_guard (negb (n =? 1)) ErrTicket;
    mret (op <| o_State := OpAuthorized |> <| o_AuthorizedAt := unix now |> <| o_LeaseGeneration := l_Generation l |>, ticket).

(** The ticket is the one last issued, under the lease it was issued to. *)
Definition ticket_matches (op : operation) (ticket : string) (l : lease) : bool :=
  negb (String.eqb (o_TicketHash op) "") && String.eqb (sha256_hex ticket) (o_TicketHash op) &&
  (o_LeaseGeneration op =? l_Generation l).

Definition ValidateOperation (operationID : Z) (ticket : string) (l : lease) (now : Z) : tx unit :=
  _ ← validateMaintenanceLeaseTx l now;
  op ← select_operation operationID;
  revision ← tx_gets model_revision;
  _ ← tx_guard (negb (has_state OpAuthorized op) || negb (ticket_matches op ticket l)) ErrTicket;
  if o_ExecutionCommitted op then mret tt
  else
    _ ← tx_guard (negb (o_Revision op =? revision) || (unix now + 1 <? o_AuthorizedAt op)) ErrTicket;
    _ ← destructive_checks op now "operazione distruttiva rifiutata: chiave revocata";
    _ ← receiving_guard op "upload in corso: operazione fisica rinviata";
    n ← update_operations (fun o => operation_id_is operationID o && has_state OpAuthorized o)
          (fun o => o <| o_ExecutionCommitted := true |>);
    changed n.

(** ** Confirmation *)
(** The transition of a backup when its operation is done. *)
Definition complete_transition (unsupported : string) (kind : op_kind) (backupID : string) (now : Z) : tx Z :=
  match kind with
  | OpQuarantine => update_backups (backup_is backupID BackupDeleting)
      (fun b => b <| b_Status := BackupQuarantined |> <| b_QuarantinedAt := unix now |>
                  <| b_PurgeNotBefore := purgeNotBefore now |>)
  | OpPurge => update_backups (backup_is backupID BackupPurging)
      (fun b => b <| b_Status := BackupDeleted |> <| b_PurgedAt := unix now |>)
  | OpRecover => update_backups (backup_is backupID BackupQuarantined)
      (fun b => b <| b_Status := BackupComplete |> <| b_QuarantinedAt := 0 |> <| b_PurgeNotBefore := 0 |>)
  | OpCancel => tx_fail (ErrText unsupported)
  end.

(** The hold attributable to this same open error follows its last detail. *)
Definition refresh_hold (op : operation) (failureDetail : string) : tx unit :=
  anomalies ← tx_gets d_anomalies;
  match find_where (fun a => stable_key_is (operation_key (o_ID op)) a && String.eqb (a_Kind a) "maintenance" &&
                             String.eqb (a_BackupID a) (o_BackupID op) && open_anomaly a) anomalies with
  | None => mret tt
  | Some x => update_automation (fun a =>
      if au_DeletionBlocked a && String.eqb (au_BlockReason a) (anomaly_reason (a_Detail x))
      then a <| au_BlockReason := anomaly_reason failureDetail |> else a)
  end.

Definition ConfirmOperation (operationID : Z) (ticket : string) (physicalDone : bool) (detail : string)
    (l : lease) (now : Z) : tx unit :=
  _ ← validateMaintenanceLeaseTx l now;
  op ← select_operation operationID;
  if has_state OpConfirmed op && physicalDone then
    tx_guard (negb (ticket_matches op ticket l)) ErrTicket
  else
    _ ← tx_guard (negb (has_state OpAuthorized op) || negb (ticket_matches op ticket l)) ErrTicket;
    if negb physicalDone then
      let operationDetail :=
        if String.eqb detail reconciledSourceIntact then ("errore operativo: " ++ detail)%string else detail in
      let failureDetail := ("errore operazione di manutenzione: " ++ detail)%string in
      _ ← update_operations (operation_id_is (o_ID op)) (fun o => o <| o_Error := operationDetail |>);
      _ ← refresh_hold op failureDetail;
      openAnomaly (operation_key (o_ID op)) "maintenance" "" (o_BackupID op) failureDetail now
    else
      n ← complete_transition "tipo operazione non confermabile" (o_Kind op) (o_BackupID op) now;
      _ ← tx_guard (negb (n =? 1)) (ErrText "conferma rifiutata: stato del backup non coerente con l'operazione");
      c ← update_operations (fun o => operation_id_is (o_ID op) o && has_state OpAuthorized o)
            (fun o => o <| o_State := OpConfirmed |> <| o_CompletedAt := unix now |> <| o_Error := "" |>);
      _ ← tx_guard (negb (c =? 1)) ErrTicket;
      _ ← resolveMaintenanceOperation operationID now true;
      mret tt.

Definition ReconcileAuthorized (operationID now : Z) : tx unit :=
  op ← select_operation operationID;
  _ ← tx_guard (negb (has_state OpAuthorized op)) ErrTicket;
  n ← complete_transition "operazione non riconciliabile" (o_Kind op) (o_BackupID op) now;
  _ ← tx_guard (negb (n =? 1)) (ErrText "riconciliazione rifiutata: stato del backup non coerente");
  c ← update_operations (fun o => operation_id_is operationID o && has_state OpAuthorized o)
        (fun o => o <| o_State := OpConfirmed |> <| o_CompletedAt := unix now |> <| o_Error := "riconciliata dopo riavvio" |>);
  _ ← tx_guard (negb (c =? 1)) ErrTicket;
  _ ← resolveMaintenanceOperation operationID now true;
  mret tt.

(** ** Reset, cancellation, revocation *)
Definition pending_status (kind : op_kind) : backup_status :=
  match kind with
  | OpQuarantine => BackupDeleting
  | OpPurge => BackupPurging
  | OpRecover => BackupQuarantined
  | OpCancel => BackupDeleting
  end.
Definition source_status (kind : op_kind) : backup_status :=
  match kind with OpQuarantine => BackupComplete | _ => BackupQuarantined end.

Definition revoked_error : string := "annullata automaticamente: chiave revocata".
Definition cancel_operation (now : Z) (error : string) (o : operation) : operation :=
  o <| o_State := OpCancelled |> <| o_TicketHash := "" |> <| o_LeaseGeneration := 0 |> <| o_CompletedAt := unix now |>
    <| o_Error := error |>.

Definition ResetAuthorized (operationID now : Z) : tx unit :=
  op ← select_operation operationID;
  bk ← select_backup_key (o_BackupID op);
  _ ← tx_guard (negb (has_state OpAuthorized op)) ErrTicket;
  if o_ExecutionCommitted op then
    n ← update_operations (fun o => operation_id_is operationID o && has_state OpAuthorized o && o_ExecutionCommitted o)
          (fun o => o <| o_TicketHash := "" |> <| o_LeaseGeneration := 0 |>);
    _ ← changed n;
    _ ← resolveMaintenanceOperation operationID now false;
    mret tt
  else if k_Revoked (snd bk) && (has_kind OpQuarantine op || has_kind OpPurge op) then
    r ← update_backups (backup_is (o_BackupID op) (pending_status (o_Kind op)))
          (fun b => b <| b_Status := source_status (o_Kind op) |>);
    _ ← changed r;
    n ← update_operations (fun o => operation_id_is operationID o && has_state OpAuthorized o) (cancel_operation now revoked_error);
    _ ← changed n;
    _ ← resolveMaintenanceOperation operationID now true;
    mret tt
  else
    n ← update_operations (fun o => operation_id_is operationID o && has_state OpAuthorized o)
          (fun o => o <| o_State := OpRequested |> <| o_TicketHash := "" |> <| o_LeaseGeneration := 0 |>
                      <| o_AuthorizedAt := 0 |> <| o_Error := reconciledSourceIntact |>);
    _ ← changed n;
    _ ← resolveMaintenanceOperation operationID now false;
    mret tt.

Definition cancelled_by_admin : string := "richiesta annullata; riattivazione amministrativa richiesta".

Definition CancelQuarantineRequest (backupID actor : string) (now : Z) : tx unit :=
  let mine o := bool_decide (o_BackupID o = backupID) && has_kind OpQuarantine o && has_state OpRequested o in
  let refused := ErrText "richiesta non annullabile: gia autorizzata o inesistente" in
  found ← tx_gets (fun d => find_where mine (d_operations d));
  match found with
  | None => tx_fail refused
  | Some op =>
    n ← update_operations mine
          (fun o => o <| o_State := OpCancelled |> <| o_CompletedAt := unix now |> <| o_Error := ("annullata da " ++ actor)%string |>);
    _ ← tx_guard (negb (n =? 1)) refused;
    r ← update_backups (backup_is backupID BackupDeleting) (fun b => b <| b_Status := BackupComplete |>);
    _ ← tx_guard (negb (r =? 1)) (ErrText "backup non ripristinato dopo l'annullamento");
    _ ← update_automation (fun a => a <| au_DeletionBlocked := true |> <| au_MonitoringState := MonitoringPaused |>
          <| au_BlockReason := cancelled_by_admin |> <| au_ManualPaused := true |>
          <| au_ManualPauseReason := cancelled_by_admin |> <| au_ActivationPending := false |>
          <| au_ResumePending := false |> <| au_ResumeRequestedAt := 0 |>);
    _ ← resolveMaintenanceOperation (o_ID op) now true;
    mret tt
  end.

(** Backups and requests a revocation gives back. *)
Definition requested_for (kind : op_kind) (d : db) (b : backup) : bool :=
  exists_where (fun o => has_state OpRequested o && has_kind kind o && bool_decide (o_BackupID o = b_ID b)) (d_operations d).
Definition key_backup (keyID id : string) (d : db) : bool :=
  exists_where (fun b => backup_id_is id b && String.eqb (b_KeyID b) keyID) (d_backups d).

Definition Revoke (id : string) (now : Z) : tx unit :=
  n ← update_keys (key_id_is id) (fun k => k <| k_Revoked := true |>);
  _ ← changed n;
  d ← tx_get;
  _ ← update_backups (fun b => String.eqb (b_KeyID b) id && has_status BackupDeleting b && requested_for OpQuarantine d b)
        (fun b => b <| b_Status := BackupComplete |>);
  _ ← update_backups (fun b => String.eqb (b_KeyID b) id && has_status BackupPurging b && requested_for OpPurge d b)
        (fun b => b <| b_Status := BackupQuarantined |>);
  let cancels o := has_state OpRequested o && (has_kind OpQuarantine o || has_kind OpPurge o) && key_backup id (o_BackupID o) d in
  cancelled ← tx_gets (fun d => map o_ID (List.filter cancels (d_operations d)));
  _ ← update_operations cancels (cancel_operation now revoked_error);
  tx_iter (fun operationID => _ ← resolveMaintenanceOperation operationID now true; mret tt) cancelled.
End platform.

(** ** Queries *)
Definition Operation_ (id : Z) (d : db) : result err operation :=
  match find_operation d id with Some o => Ok o | None => Err ErrNoRows end.
Definition Operations (states : list op_state) (d : db) : list operation :=
  match states with
  | [] => d_operations d
  | _ => List.filter (fun o => existsb (fun st => has_state st o) states) (d_operations d)
  end.
Definition SnapshotOperations (d : db) : list operation :=
  let recent := map o_ID (take 100 (rev (d_operations d))) in
  List.filter (fun o => active_operation o || existsb (Z.eqb (o_ID o)) recent) (d_operations d).
