(* ===== verification/RetentionMachine.v ===== *)
(** The abstract retention machine: what the operations of the store may do to
    keys, copies and retention operations, whatever the rest of the catalogue;
    its invariant and the promises it keeps to the archive. *)
From S2P Require Import Prelude GoTime GoFloat GoString Model Policy Schedule Catalog Anomalies Automation Retention.

(** ** Tables *)
Lemma in_update_where {A} (p : A -> bool) f l x :
  In x (update_where p f l) <-> exists y, In y l /\ x = (if p y then f y else y).
Proof. unfold update_where. rewrite in_map_iff. split; intros (y & ? & ?); exists y; auto. Qed.
Lemma map_update_where {A B} (g : A -> B) (p : A -> bool) f l :
  (forall x, In x l -> p x = true -> g (f x) = g x) -> map g (update_where p f l) = map g l.
Proof.
  intros H. unfold update_where. rewrite map_map. apply map_ext_in. intros x Hx.
  destruct (p x) eqn:E; [by apply H|done].
Qed.
Lemma update_where_id {A} (p : A -> bool) f l : (forall x, In x l -> p x = true -> f x = x) -> update_where p f l = l.
Proof.
  intros H. rewrite <- (map_id l) at 2. unfold update_where. apply map_ext_in. intros x Hx.
  destruct (p x) eqn:E; [by apply H|done].
Qed.
Lemma update_where_ext {A} (p q : A -> bool) f l : (forall x, In x l -> p x = q x) -> update_where p f l = update_where q f l.
Proof. intros H. apply map_ext_in. intros x Hx. by rewrite H. Qed.
Lemma NoDup_map_in {A B} (g : A -> B) l x y : NoDup (map g l) -> In x l -> In y l -> g x = g y -> x = y.
Proof.
  induction l as [|z l IH]; [done|]. cbn. intros [Hn Hd]%NoDup_cons [->|Hx] [->|Hy] E; [done|..|by apply IH];
    exfalso; apply Hn, list_elem_of_In, in_map_iff; eauto.
Qed.
Lemma find_where_some {A} (p : A -> bool) l x : find_where p l = Some x -> In x l /\ p x = true.
Proof. apply find_some. Qed.
Lemma find_where_in {A} (p : A -> bool) l x : (forall y, In y l -> p y = true -> y = x) -> In x l -> p x = true ->
  find_where p l = Some x.
Proof.
  intros Hu Hx Hp. unfold find_where. destruct (find p l) as [y|] eqn:E.
  - apply find_some in E as [Hy Hpy]. f_equal. by apply Hu.
  - pose proof (find_none _ _ E _ Hx) as Hn. by rewrite Hp in Hn.
Qed.
Lemma exists_where_in {A} (p : A -> bool) l : exists_where p l = true <-> exists x, In x l /\ p x = true.
Proof. apply existsb_exists. Qed.
Lemma exists_where_not {A} (p : A -> bool) l : exists_where p l = false <-> forall x, In x l -> p x = false.
Proof.
  split.
  - intros H x Hx. apply not_true_iff_false. intros Hp. apply not_true_iff_false in H. apply H, exists_where_in; eauto.
  - intros H. apply not_true_iff_false. intros (x & Hx & Hp)%exists_where_in. rewrite H in Hp; done.
Qed.

(** ** The invariant *)
Definition quarantine_seconds : Z := 172800.

(** A copy that left the archive was given its 48 hours of quarantine. *)
Definition times_ok (b : backup) : Prop :=
  match b_Status b with
  | BackupQuarantined | BackupPurging | BackupDeleted => b_QuarantinedAt b + quarantine_seconds <= b_PurgeNotBefore b
  | _ => True
  end.
Definition in_transit (s : backup_status) : Prop := s = BackupDeleting \/ s = BackupPurging.

Record core_ok (c : core) : Prop := CoreOk {
  ok_key_ids : NoDup (map k_ID (c_keys c));
  ok_token_hashes : NoDup (map k_TokenHash (c_keys c));
  ok_backup_ids : NoDup (map b_ID (c_backups c));
  ok_operation_ids : NoDup (map o_ID (c_operations c));
  ok_seq : forall o, In o (c_operations c) -> o_ID o <= c_seq c;
  ok_backup_key : forall b, In b (c_backups c) -> exists k, In k (c_keys c) /\ k_ID k = b_KeyID b;
  (* an active operation holds its copy in the status of its kind *)
  ok_active : forall o, In o (c_operations c) -> active_operation o = true ->
    o_Kind o <> OpCancel /\
    exists b, In b (c_backups c) /\ b_ID b = o_BackupID o /\ b_Status b = pending_status (o_Kind o);
  ok_unique : forall o o', In o (c_operations c) -> In o' (c_operations c) ->
    active_operation o = true -> active_operation o' = true -> o_BackupID o = o_BackupID o' -> o = o';
  (* a copy in transit is in the charge of an operation *)
  ok_transit : forall b, In b (c_backups c) -> in_transit (b_Status b) ->
    exists o, In o (c_operations c) /\ active_operation o = true /\ o_BackupID o = b_ID b;
  ok_times : forall b, In b (c_backups c) -> times_ok b;
  (* one deposit per idempotency key *)
  ok_idempotency : forall b b', In b (c_backups c) -> In b' (c_backups c) -> b_KeyID b = b_KeyID b' ->
    b_IdempotencyKey b = b_IdempotencyKey b' -> b_IdempotencyKey b <> ""%string -> b_ID b = b_ID b';
  (* an operation not authorized holds no permission *)
  ok_requested : forall o, In o (c_operations c) -> o_State o = OpRequested ->
    o_TicketHash o = ""%string /\ o_ExecutionCommitted o = false }.

(** ** Steps *)
Definition finish_backup (kind : op_kind) (now : Z) (b : backup) : backup :=
  match kind with
  | OpQuarantine => b <| b_Status := BackupQuarantined |> <| b_QuarantinedAt := unix now |> <| b_PurgeNotBefore := purgeNotBefore now |>
  | OpPurge => b <| b_Status := BackupDeleted |> <| b_PurgedAt := unix now |>
  | _ => b <| b_Status := BackupComplete |> <| b_QuarantinedAt := 0 |> <| b_PurgeNotBefore := 0 |>
  end.
Definition restore_backup (kind : op_kind) (b : backup) : backup := b <| b_Status := source_status kind |>.
Definition hold_backup (kind : op_kind) (b : backup) : backup := b <| b_Status := pending_status kind |>.

(** The instant of a step, the operation it may authorize, the operation whose
    physical result it records, the operation it may reset once its copy was found
    untouched, and the deposit it may declare complete. *)
Record event : Type := Event {
  ev_now : Z; ev_authorizes : option Z; ev_finishes : option Z; ev_resets : option Z; ev_completes : option string }.

(** What the deposit protocol may do to a copy. *)
Inductive upload_step (e : event) (b : backup) : backup -> Prop :=
| upload_complete t : b_Status b = BackupReceiving -> ev_completes e = Some (b_ID b) ->
    upload_step e b (b <| b_Status := BackupComplete |> <| b_ReceivedAt := t |> <| b_Failure := "" |>)
| upload_fail reason : b_Status b = BackupReceiving ->
    upload_step e b (b <| b_Status := BackupFailed |> <| b_Failure := reason |>)
| upload_resume t : b_Status b = BackupFailed ->
    upload_step e b (b <| b_Status := BackupReceiving |> <| b_StartedAt := t |> <| b_ReceivedAt := "" |> <| b_Failure := "" |>).

(** An edit that keeps an operation active. *)
Record keeps_active (e : event) (f : operation -> operation) (o : operation) : Prop := KeepsActive {
  ka_id : o_ID (f o) = o_ID o; ka_backup : o_BackupID (f o) = o_BackupID o; ka_kind : o_Kind (f o) = o_Kind o;
  ka_active : active_operation (f o) = true;
  ka_state : (o_State (f o) = OpRequested /\ ev_resets e = Some (o_ID o)) \/ o_State (f o) = o_State o \/
             (ev_authorizes e = Some (o_ID o) /\ o_State (f o) = OpAuthorized);
  ka_committed : o_ExecutionCommitted o = true -> o_State (f o) = OpAuthorized -> o_ExecutionCommitted (f o) = true;
  ka_requested : o_State (f o) = OpRequested -> o_TicketHash (f o) = ""%string /\ o_ExecutionCommitted (f o) = false }.

(** An edit that closes an operation. *)
Record closes (st : op_state) (f : operation -> operation) (o : operation) : Prop := Closes {
  cl_id : o_ID (f o) = o_ID o; cl_backup : o_BackupID (f o) = o_BackupID o; cl_kind : o_Kind (f o) = o_Kind o;
  cl_state : o_State (f o) = st }.

Definition revoke_cancels (id : string) (c : core) (o : operation) : bool :=
  has_state OpRequested o && (has_kind OpQuarantine o || has_kind OpPurge o) &&
  exists_where (fun b => backup_id_is (o_BackupID o) b && String.eqb (b_KeyID b) id) (c_backups c).
Definition revoke_restores (id : string) (c : core) (kind : op_kind) (b : backup) : bool :=
  String.eqb (b_KeyID b) id && has_status (pending_status kind) b &&
  exists_where (fun o => has_state OpRequested o && has_kind kind o && bool_decide (o_BackupID o = b_ID b)) (c_operations c).

Inductive rstep (e : event) (c : core) : core -> Prop :=
| rs_skip : rstep e c c
| rs_key k : ~ In (k_ID k) (map k_ID (c_keys c)) -> ~ In (k_TokenHash k) (map k_TokenHash (c_keys c)) ->
    rstep e c (Core (c_keys c ++ [k]) (c_backups c) (c_operations c) (c_seq c))
| rs_keys p f : (forall k, k_ID (f k) = k_ID k) -> (forall k, k_TokenHash (f k) = k_TokenHash k) -> (forall k, k_Revoked k = true -> k_Revoked (f k) = true) ->
    rstep e c (Core (update_where p f (c_keys c)) (c_backups c) (c_operations c) (c_seq c))
| rs_deposit b : b_Status b = BackupReceiving -> ~ In (b_ID b) (map b_ID (c_backups c)) ->
    In (b_KeyID b) (map k_ID (c_keys c)) ->
    (forall x, In x (c_backups c) -> b_KeyID x = b_KeyID b -> b_IdempotencyKey x = b_IdempotencyKey b ->
       b_IdempotencyKey b = ""%string) ->
    rstep e c (Core (c_keys c) (c_backups c ++ [b]) (c_operations c) (c_seq c))
| rs_upload p f b : In b (c_backups c) -> (forall x, In x (c_backups c) -> p x = true -> x = b) -> upload_step e b (f b) ->
    rstep e c (Core (c_keys c) (update_where p f (c_backups c)) (c_operations c) (c_seq c))
| rs_request kind b origin actor reason revision :
    In b (c_backups c) -> b_Status b = source_status kind -> kind <> OpCancel ->
    (forall o, In o (c_operations c) -> active_operation o = true -> o_BackupID o <> b_ID b) ->
    (* the last complete copy of a key is never requested *)
    (kind = OpQuarantine -> exists b', In b' (c_backups c) /\ b_ID b' <> b_ID b /\ b_KeyID b' = b_KeyID b /\
       b_Status b' = BackupComplete) ->
    (* a copy leaves the quarantine only after its term *)
    (kind = OpPurge -> b_PurgeNotBefore b <= unix (ev_now e)) ->
    rstep e c (Core (c_keys c) (update_where (backup_is (b_ID b) (source_status kind)) (hold_backup kind) (c_backups c))
               (c_operations c ++ [requested (c_seq c + 1) (b_ID b) kind origin actor reason revision (ev_now e)]) (c_seq c + 1))
| rs_edit p f o : In o (c_operations c) -> active_operation o = true ->
    (forall x, In x (c_operations c) -> p x = true -> x = o) -> keeps_active e f o ->
    rstep e c (Core (c_keys c) (c_backups c) (update_where p f (c_operations c)) (c_seq c))
| rs_finish o f : ev_finishes e = Some (o_ID o) -> In o (c_operations c) -> o_State o = OpAuthorized -> closes OpConfirmed f o ->
    rstep e c (Core (c_keys c)
      (update_where (backup_is (o_BackupID o) (pending_status (o_Kind o))) (finish_backup (o_Kind o) (ev_now e)) (c_backups c))
      (update_where (fun x => operation_id_is (o_ID o) x && has_state OpAuthorized x) f (c_operations c)) (c_seq c))
| rs_cancel o p f : In o (c_operations c) -> active_operation o = true -> o_Kind o <> OpRecover ->
    o_State o = OpRequested \/ ev_resets e = Some (o_ID o) ->
    (forall x, In x (c_operations c) -> p x = true <-> x = o) -> closes OpCancelled f o ->
    rstep e c (Core (c_keys c)
      (update_where (backup_is (o_BackupID o) (pending_status (o_Kind o))) (restore_backup (o_Kind o)) (c_backups c))
      (update_where p f (c_operations c)) (c_seq c))
| rs_revoke id error :
    rstep e c (Core (update_where (key_id_is id) (fun k => k <| k_Revoked := true |>) (c_keys c))
      (update_where (revoke_restores id c OpPurge) (fun b => b <| b_Status := BackupQuarantined |>)
        (update_where (revoke_restores id c OpQuarantine) (fun b => b <| b_Status := BackupComplete |>) (c_backups c)))
      (update_where (revoke_cancels id c) (cancel_operation (ev_now e) error) (c_operations c)) (c_seq c)).

(** ** Preservation *)
Lemma active_states o : active_operation o = true <-> o_State o = OpRequested \/ o_State o = OpAuthorized.
Proof. unfold active_operation, has_state. rewrite orb_true_iff, !bool_decide_eq_true. done. Qed.
Lemma closed_inactive o : active_operation o = false <-> o_State o <> OpRequested /\ o_State o <> OpAuthorized.
Proof. unfold active_operation, has_state. rewrite orb_false_iff, !bool_decide_eq_false. done. Qed.
Lemma has_status_iff st b : has_status st b = true <-> b_Status b = st.
Proof. unfold has_status. by rewrite bool_decide_eq_true. Qed.
Lemma backup_is_iff id st b : backup_is id st b = true <-> b_ID b = id /\ b_Status b = st.
Proof. unfold backup_is, backup_id_is. rewrite andb_true_iff, bool_decide_eq_true, has_status_iff. done. Qed.

Lemma update_cases {A} (p : A -> bool) f l x x0 : (forall y, In y l -> p y = true -> y = x0) ->
  In x (update_where p f l) -> (x = f x0 /\ In x0 l /\ p x0 = true) \/ (In x l /\ p x = false).
Proof.
  intros Hp (y & Hy & ->)%in_update_where. destruct (p y) eqn:E; [|by right].
  left. by rewrite <- (Hp y Hy E).
Qed.
Lemma in_update_same {A} (p : A -> bool) f l x : In x l -> p x = false -> In x (update_where p f l).
Proof. intros Hx Hp. apply in_update_where. exists x. by rewrite Hp. Qed.
Lemma in_update_new {A} (p : A -> bool) f l x : In x l -> p x = true -> In (f x) (update_where p f l).
Proof. intros Hx Hp. apply in_update_where. exists x. by rewrite Hp. Qed.

(** The copies of the active operations. *)
Lemma active_copy c o b : core_ok c -> In o (c_operations c) -> active_operation o = true ->
  In b (c_backups c) -> b_ID b = o_BackupID o -> b_Status b = pending_status (o_Kind o).
Proof.
  intros Hok Ho Ha Hb Hid. destruct (ok_active c Hok o Ho Ha) as (_ & b' & Hb' & Hid' & Hst).
  by rewrite (NoDup_map_in b_ID _ b b' (ok_backup_ids c Hok) Hb Hb' ltac:(congruence)).
Qed.

(** What identifies a deposit never changes. *)
Definition identity (b : backup) : string * string * string := (b_ID b, b_KeyID b, b_IdempotencyKey b).
Lemma idempotency_preserved l l' : map identity l' = map identity l ->
  (forall b b', In b l -> In b' l -> b_KeyID b = b_KeyID b' -> b_IdempotencyKey b = b_IdempotencyKey b' ->
     b_IdempotencyKey b <> ""%string -> b_ID b = b_ID b') ->
  (forall b b', In b l' -> In b' l' -> b_KeyID b = b_KeyID b' -> b_IdempotencyKey b = b_IdempotencyKey b' ->
     b_IdempotencyKey b <> ""%string -> b_ID b = b_ID b').
Proof.
  intros E H b b' Hb Hb' Hk Hi Hne.
  assert (forall x, In x l' -> exists y, In y l /\ identity y = identity x) as Hx.
  { intros x Hx. apply (in_map identity) in Hx. rewrite E in Hx. apply in_map_iff in Hx as (y & ? & ?). eauto. }
  destruct (Hx b Hb) as (y & Hy & [= E1 E2 E3]), (Hx b' Hb') as (y' & Hy' & [= E1' E2' E3']).
  rewrite <- E1, <- E1'. apply H; congruence.
Qed.

(** Closing the operation of a copy. *)
Lemma close_preserves c o b po fo pb fb :
  core_ok c -> In o (c_operations c) -> active_operation o = true ->
  In b (c_backups c) -> b_ID b = o_BackupID o ->
  (forall x, In x (c_operations c) -> po x = true <-> x = o) -> (forall x, In x (c_backups c) -> pb x = true <-> x = b) ->
  o_ID (fo o) = o_ID o -> active_operation (fo o) = false ->
  identity (fb b) = identity b -> ~ in_transit (b_Status (fb b)) -> times_ok (fb b) ->
  core_ok (Core (c_keys c) (update_where pb fb (c_backups c)) (update_where po fo (c_operations c)) (c_seq c)).
Proof.
  intros Hok Ho Ha Hb Hob Hpo Hpb Hido Hina Hident Htr Htimes. pose proof Hident as [= Hidb Hkey _].
  assert (forall x, In x (c_operations c) -> po x = true -> x = o) as Hpo1 by (intros; by apply Hpo).
  assert (forall x, In x (c_backups c) -> pb x = true -> x = b) as Hpb1 by (intros; by apply Hpb).
  assert (forall x, In x (update_where po fo (c_operations c)) -> x = fo o \/ (In x (c_operations c) /\ x <> o)) as Hops.
  { intros x [(-> & _)|[Hx Hp]]%(update_cases _ _ _ _ _ Hpo1); [by left|right]. split; [done|]. intros ->.
    apply not_true_iff_false in Hp. by apply Hp, Hpo. }
  assert (forall x, In x (update_where pb fb (c_backups c)) -> x = fb b \/ (In x (c_backups c) /\ x <> b)) as Hbs.
  { intros x [(-> & _)|[Hx Hp]]%(update_cases _ _ _ _ _ Hpb1); [by left|right]. split; [done|]. intros ->.
    apply not_true_iff_false in Hp. by apply Hp, Hpb. }
  assert (forall x, In x (c_operations c) -> x <> o -> In x (update_where po fo (c_operations c))) as Hops'.
  { intros x Hx Hne. apply in_update_same; [done|]. apply not_true_iff_false. intros E. by apply Hne, Hpo1. }
  assert (forall x, In x (c_backups c) -> x <> b -> In x (update_where pb fb (c_backups c))) as Hbs'.
  { intros x Hx Hne. apply in_update_same; [done|]. apply not_true_iff_false. intros E. by apply Hne, Hpb1. }
  split; cbn.
  - apply (ok_key_ids c Hok).
  - apply (ok_token_hashes c Hok).
  - rewrite map_update_where by (intros x Hx ->%Hpb1; done). apply (ok_backup_ids c Hok).
  - rewrite map_update_where by (intros x Hx ->%Hpo1; done). apply (ok_operation_ids c Hok).
  - intros x [->|[Hx _]]%Hops; [rewrite Hido|]; by apply (ok_seq c Hok).
  - intros x [->|[Hx _]]%Hbs; [rewrite Hkey|]; by apply (ok_backup_key c Hok).
  - intros x [->|[Hx Hne]]%Hops Hax; [by rewrite Hina in Hax|].
    destruct (ok_active c Hok x Hx Hax) as (Hk & y & Hy & Hid & Hst). split; [done|]. exists y.
    split; [|done]. apply Hbs'; [done|]. intros ->. apply Hne, (ok_unique c Hok); [done..|congruence].
  - intros x x' [->|[Hx _]]%Hops [->|[Hx' _]]%Hops Hax Hax' E; try (by rewrite Hina in Hax); try (by rewrite Hina in Hax').
    by apply (ok_unique c Hok).
  - intros x [->|[Hx Hne]]%Hbs Htx; [done|].
    destruct (ok_transit c Hok x Hx Htx) as (y & Hy & Hay & Hidy). exists y. split; [|done].
    apply Hops'; [done|]. intros ->. apply Hne. apply (NoDup_map_in b_ID _ x b (ok_backup_ids c Hok)); [done..|congruence].
  - intros x [->|[Hx _]]%Hbs; [done|by apply (ok_times c Hok)].
  - apply (idempotency_preserved (c_backups c)); [|apply (ok_idempotency c Hok)].
    apply map_update_where. by intros x Hx ->%Hpb1.
  - intros x [->|[Hx _]]%Hops Hsx; [|by apply (ok_requested c Hok)]. apply closed_inactive in Hina as [? _]. done.
Qed.

Lemma finish_rs c o now f : core_ok c -> In o (c_operations c) -> o_State o = OpAuthorized -> closes OpConfirmed f o ->
  core_ok (Core (c_keys c)
      (update_where (backup_is (o_BackupID o) (pending_status (o_Kind o))) (finish_backup (o_Kind o) now) (c_backups c))
      (update_where (fun x => operation_id_is (o_ID o) x && has_state OpAuthorized x) f (c_operations c)) (c_seq c)).
Proof.
  intros Hok Ho Hst [Hid _ _ Hs]. assert (active_operation o = true) as Ha by (apply active_states; auto).
  destruct (ok_active c Hok o Ho Ha) as (Hk & b & Hb & Hbid & Hbst).
  apply (close_preserves c o b); try done.
  - intros x Hx. unfold operation_id_is, has_state. rewrite andb_true_iff, Z.eqb_eq, bool_decide_eq_true.
    split; [intros [E _]|by intros ->]. by apply (NoDup_map_in o_ID _ x o (ok_operation_ids c Hok)).
  - intros x Hx. rewrite backup_is_iff. split; [intros [E _]|by intros ->].
    apply (NoDup_map_in b_ID _ x b (ok_backup_ids c Hok)); [done..|congruence].
  - apply closed_inactive. by rewrite Hs.
  - by destruct (o_Kind o).
  - destruct (o_Kind o); cbn; by intros [?|?].
  - pose proof (ok_times c Hok b Hb) as Ht. unfold times_ok in *. rewrite Hbst in Ht.
    destruct (o_Kind o); cbn in *; try done. unfold purgeNotBefore, quarantine_seconds, unix, quarantineMinimum.
    assert ((now + 48 * Hour) / Second = now / Second + 172800) as ->.
    { unfold Hour, Minute. replace (now + 48 * (60 * (60 * Second))) with (now + 172800 * Second) by lia.
      apply Z.div_add. done. }
    case_match; lia.
Qed.

Lemma cancel_rs c o p f : core_ok c -> In o (c_operations c) -> active_operation o = true -> o_Kind o <> OpRecover ->
  (forall x, In x (c_operations c) -> p x = true <-> x = o) -> closes OpCancelled f o ->
  core_ok (Core (c_keys c)
      (update_where (backup_is (o_BackupID o) (pending_status (o_Kind o))) (restore_backup (o_Kind o)) (c_backups c))
      (update_where p f (c_operations c)) (c_seq c)).
Proof.
  intros Hok Ho Ha Hk Hp [Hid _ _ Hs]. destruct (ok_active c Hok o Ho Ha) as (Hk' & b & Hb & Hbid & Hbst).
  apply (close_preserves c o b); try done.
  - intros x Hx. rewrite backup_is_iff. split; [intros [E _]|by intros ->].
    apply (NoDup_map_in b_ID _ x b (ok_backup_ids c Hok)); [done..|congruence].
  - apply closed_inactive. by rewrite Hs.
  - unfold restore_backup, source_status. cbn. destruct (o_Kind o); by intros [?|?].
  - pose proof (ok_times c Hok b Hb) as Ht. unfold times_ok, restore_backup in *. rewrite Hbst in Ht.
    destruct (o_Kind o); cbn in *; done.
Qed.

Lemma edit_rs e c p f o : core_ok c -> In o (c_operations c) -> active_operation o = true ->
  (forall x, In x (c_operations c) -> p x = true -> x = o) -> keeps_active e f o ->
  core_ok (Core (c_keys c) (c_backups c) (update_where p f (c_operations c)) (c_seq c)).
Proof.
  intros Hok Ho Ha Hp [Hid Hbk Hk Hact _ _ Hreq].
  assert (forall x, In x (update_where p f (c_operations c)) -> exists y, In y (c_operations c) /\
            o_ID x = o_ID y /\ o_BackupID x = o_BackupID y /\ o_Kind x = o_Kind y /\
            active_operation x = active_operation y) as Hback.
  { intros x [(-> & _)|[Hx _]]%(update_cases _ _ _ _ _ Hp); [|by exists x]. exists o. by rewrite Hact, Ha. }
  assert (NoDup (map o_ID (update_where p f (c_operations c)))) as Hnd.
  { rewrite map_update_where by (intros y Hy ->%Hp; done). apply (ok_operation_ids c Hok). }
  split; cbn; try apply Hok; [done|..].
  - intros x (y & Hy & -> & _)%Hback. by apply (ok_seq c Hok).
  - intros x (y & Hy & _ & Eb & Ek & Ea)%Hback Hx. rewrite Eb, Ek. rewrite Ea in Hx. by apply (ok_active c Hok).
  - intros x x' Hx Hx' Hax Hax' E. apply (NoDup_map_in o_ID _ x x' Hnd); [done..|].
    destruct (Hback x Hx) as (y & Hy & -> & Eb & _ & Ea), (Hback x' Hx') as (y' & Hy' & -> & Eb' & _ & Ea').
    f_equal. apply (ok_unique c Hok); congruence.
  - intros b Hb Htr. destruct (ok_transit c Hok b Hb Htr) as (y & Hy & Hya & Hyb).
    destruct (p y) eqn:E; [|exists y; split; [by apply in_update_same|done]].
    exists (f y). split; [by apply in_update_new|]. apply Hp in E as ->; [|done]. by rewrite Hact, Hbk.
  - intros x [(-> & _)|[Hx _]]%(update_cases _ _ _ _ _ Hp) Hsx; [by apply Hreq|by apply (ok_requested c Hok)].
Qed.

Lemma request_rs c kind b origin actor reason revision now : core_ok c ->
  In b (c_backups c) -> b_Status b = source_status kind -> kind <> OpCancel ->
  (forall o, In o (c_operations c) -> active_operation o = true -> o_BackupID o <> b_ID b) ->
  core_ok (Core (c_keys c) (update_where (backup_is (b_ID b) (source_status kind)) (hold_backup kind) (c_backups c))
     (c_operations c ++ [requested (c_seq c + 1) (b_ID b) kind origin actor reason revision now]) (c_seq c + 1)).
Proof.
  intros Hok Hb Hst Hk Hfree.
  assert (forall x, In x (c_backups c) -> backup_is (b_ID b) (source_status kind) x = true <-> x = b) as Hp.
  { intros x Hx. rewrite backup_is_iff. split; [intros [E _]|by intros ->].
    by apply (NoDup_map_in b_ID _ x b (ok_backup_ids c Hok)). }
  assert (forall x, In x (c_backups c) -> backup_is (b_ID b) (source_status kind) x = true -> x = b) as Hp1 by (intros; by apply Hp).
  set (n := requested _ _ _ _ _ _ _ _).
  assert (forall x, In x (c_operations c ++ [n]) -> In x (c_operations c) \/ x = n) as Hin.
  { intros x [?|[<-|[]]]%in_app_iff; auto. }
  split; cbn.
  - apply (ok_key_ids c Hok).
  - apply (ok_token_hashes c Hok).
  - rewrite map_update_where by done. apply (ok_backup_ids c Hok).
  - rewrite map_app. cbn. apply NoDup_app. split; [apply (ok_operation_ids c Hok)|]. split; [|apply NoDup_singleton].
    intros i (o & <- & Ho)%list_elem_of_In%in_map_iff E%list_elem_of_singleton.
    pose proof (ok_seq c Hok o Ho). cbn in E. lia.
  - intros x [Hx| ->]%Hin; [pose proof (ok_seq c Hok x Hx); lia|done].
  - intros x [(-> & _)|[Hx _]]%(update_cases _ _ _ _ _ Hp1); cbn; by apply (ok_backup_key c Hok).
  - intros x [Hx| ->]%Hin Hax.
    + destruct (ok_active c Hok x Hx Hax) as (Hkx & y & Hy & Hid & Hys). split; [done|]. exists y. split; [|done].
      apply in_update_same; [done|]. apply not_true_iff_false. intros ->%Hp1; [|done]. by apply (Hfree x Hx Hax).
    + split; [done|]. exists (hold_backup kind b). split; [|done]. apply in_update_new; [done|]. by apply Hp.
  - intros x x' [Hx| ->]%Hin [Hx'| ->]%Hin Ha Ha' E; [by apply (ok_unique c Hok)|..|done];
      exfalso; [apply (Hfree x Hx Ha E)|apply (Hfree x' Hx' Ha'); cbn in E; done].
  - intros x [(-> & _)|[Hx _]]%(update_cases _ _ _ _ _ Hp1) Htx.
    + exists n. split; [apply in_or_app; right; by left|done].
    + destruct (ok_transit c Hok x Hx Htx) as (oy & Hoy & H). exists oy. split; [apply in_or_app; by left|done].
  - intros x [(-> & _)|[Hx _]]%(update_cases _ _ _ _ _ Hp1); [|by apply (ok_times c Hok)].
    pose proof (ok_times c Hok b Hb) as Ht. unfold times_ok in *. rewrite Hst in Ht. by destruct kind.
  - apply (idempotency_preserved (c_backups c)); [|apply (ok_idempotency c Hok)].
    apply map_update_where. by intros x Hx ->%Hp1.
  - intros x [Hx| ->]%Hin Hxs; [by apply (ok_requested c Hok)|done].
Qed.

Lemma deposit_rs c b : core_ok c -> b_Status b = BackupReceiving -> ~ In (b_ID b) (map b_ID (c_backups c)) ->
  In (b_KeyID b) (map k_ID (c_keys c)) ->
  (forall x, In x (c_backups c) -> b_KeyID x = b_KeyID b -> b_IdempotencyKey x = b_IdempotencyKey b ->
     b_IdempotencyKey b = ""%string) ->
  core_ok (Core (c_keys c) (c_backups c ++ [b]) (c_operations c) (c_seq c)).
Proof.
  intros Hok Hst Hnew Hkey Hik.
  assert (forall x, In x (c_backups c ++ [b]) -> In x (c_backups c) \/ x = b) as Hin.
  { intros x [?|[<-|[]]]%in_app_iff; auto. }
  split; cbn; try apply Hok.
  - rewrite map_app. apply NoDup_app. split; [apply (ok_backup_ids c Hok)|]. split; [|apply NoDup_singleton].
    intros i Hi%list_elem_of_In ->%list_elem_of_singleton. done.
  - intros x [Hx| ->]%Hin; [by apply (ok_backup_key c Hok)|]. apply in_map_iff in Hkey as (k & ? & ?). eauto.
  - intros o Ho Ha. destruct (ok_active c Hok o Ho Ha) as (Hk & x & Hx & H). split; [done|].
    exists x. split; [apply in_or_app; by left|done].
  - intros x [Hx| ->]%Hin Htr; [by apply (ok_transit c Hok)|]. rewrite Hst in Htr. by destruct Htr.
  - intros x [Hx| ->]%Hin; [by apply (ok_times c Hok)|]. unfold times_ok. by rewrite Hst.
  - intros x y [Hx| ->]%Hin [Hy| ->]%Hin Hk Hi Hne; [by apply (ok_idempotency c Hok)|..|done].
    + destruct Hne. rewrite Hi. by apply (Hik x).
    + destruct Hne. by apply (Hik y).
Qed.

Lemma upload_rs e c p f b : core_ok c -> In b (c_backups c) -> (forall x, In x (c_backups c) -> p x = true -> x = b) ->
  upload_step e b (f b) -> core_ok (Core (c_keys c) (update_where p f (c_backups c)) (c_operations c) (c_seq c)).
Proof.
  intros Hok Hb Hp Hstep.
  assert (identity (f b) = identity b /\ b_KeyID (f b) = b_KeyID b /\ ~ in_transit (b_Status (f b)) /\ times_ok (f b) /\
          forall k, b_Status b <> pending_status k) as (Hident & Hkey & Htr & Ht & Hpend).
  { unfold times_ok. destruct Hstep; cbn; repeat split; try done; try (by intros [?|?]); rewrite H; by intros []. }
  assert (b_ID (f b) = b_ID b) as Hid by (by injection Hident).
  split; cbn; try apply Hok.
  - rewrite map_update_where by (intros x Hx ->%Hp; done). apply (ok_backup_ids c Hok).
  - intros x [(-> & _)|[Hx _]]%(update_cases _ _ _ _ _ Hp); [rewrite Hkey|]; by apply (ok_backup_key c Hok).
  - intros o Ho Ha. destruct (ok_active c Hok o Ho Ha) as (Hk & x & Hx & Hidx & Hst). split; [done|]. exists x.
    split; [|done]. apply in_update_same; [done|]. apply not_true_iff_false. intros ->%Hp; [|done]. by apply (Hpend (o_Kind o)).
  - intros x [(-> & _)|[Hx _]]%(update_cases _ _ _ _ _ Hp) Htx; [done|by apply (ok_transit c Hok)].
  - intros x [(-> & _)|[Hx _]]%(update_cases _ _ _ _ _ Hp); [done|by apply (ok_times c Hok)].
  - apply (idempotency_preserved (c_backups c)); [|apply (ok_idempotency c Hok)].
    apply map_update_where. by intros x Hx ->%Hp.
Qed.

Lemma key_rs c k : core_ok c -> ~ In (k_ID k) (map k_ID (c_keys c)) -> ~ In (k_TokenHash k) (map k_TokenHash (c_keys c)) ->
  core_ok (Core (c_keys c ++ [k]) (c_backups c) (c_operations c) (c_seq c)).
Proof.
  intros Hok Hnew Hhash. split; cbn; try apply Hok.
  - rewrite map_app. apply NoDup_app. split; [apply (ok_key_ids c Hok)|]. split; [|apply NoDup_singleton].
    intros i Hi%list_elem_of_In ->%list_elem_of_singleton. done.
  - rewrite map_app. apply NoDup_app. split; [apply (ok_token_hashes c Hok)|]. split; [|apply NoDup_singleton].
    intros i Hi%list_elem_of_In ->%list_elem_of_singleton. done.
  - intros b Hb. destruct (ok_backup_key c Hok b Hb) as (x & Hx & ?). exists x. split; [apply in_or_app; by left|done].
Qed.

Lemma keys_rs c p f : core_ok c -> (forall k, k_ID (f k) = k_ID k) -> (forall k, k_TokenHash (f k) = k_TokenHash k) ->
  core_ok (Core (update_where p f (c_keys c)) (c_backups c) (c_operations c) (c_seq c)).
Proof.
  intros Hok Hid Hhash. split; cbn; try apply Hok.
  - rewrite map_update_where by done. apply (ok_key_ids c Hok).
  - rewrite map_update_where by done. apply (ok_token_hashes c Hok).
  - intros b Hb. destruct (ok_backup_key c Hok b Hb) as (x & Hx & ?).
    destruct (p x) eqn:E; [exists (f x)|exists x]; (split; [|congruence]); [by apply in_update_new|by apply in_update_same].
Qed.

(** A revocation gives back the copies of the requests it cancels, and only those. *)
Definition revoke_backup (id : string) (c : core) (b : backup) : backup :=
  if revoke_restores id c OpQuarantine b then b <| b_Status := BackupComplete |>
  else if revoke_restores id c OpPurge b then b <| b_Status := BackupQuarantined |> else b.

Lemma revoke_backups id c l :
  update_where (revoke_restores id c OpPurge) (fun b => b <| b_Status := BackupQuarantined |>)
    (update_where (revoke_restores id c OpQuarantine) (fun b => b <| b_Status := BackupComplete |>) l) =
  map (revoke_backup id c) l.
Proof.
  unfold update_where, revoke_backup. rewrite map_map. apply map_ext. intros b.
  destruct (revoke_restores id c OpQuarantine b) eqn:E; [|done].
  unfold revoke_restores at 1, has_status. cbn. rewrite bool_decide_false by done. by rewrite andb_false_r.
Qed.

Lemma revoke_restores_iff id c kind b : revoke_restores id c kind b = true <->
  b_KeyID b = id /\ b_Status b = pending_status kind /\
  exists o, In o (c_operations c) /\ o_State o = OpRequested /\ o_Kind o = kind /\ o_BackupID o = b_ID b.
Proof.
  unfold revoke_restores. rewrite !andb_true_iff, String.eqb_eq, has_status_iff, exists_where_in.
  split; [intros ((? & ?) & o & Ho & Hp)|intros (? & ? & o & Ho & Hs & Hk & Hid)].
  - unfold has_state, has_kind in Hp. rewrite !andb_true_iff, !bool_decide_eq_true in Hp.
    split; [done|]. split; [done|]. exists o. tauto.
  - split; [done|]. exists o. split; [done|]. unfold has_state, has_kind. by rewrite !bool_decide_true.
Qed.

Lemma revoke_cancels_iff id c o : revoke_cancels id c o = true <->
  o_State o = OpRequested /\ (o_Kind o = OpQuarantine \/ o_Kind o = OpPurge) /\
  exists b, In b (c_backups c) /\ b_ID b = o_BackupID o /\ b_KeyID b = id.
Proof.
  unfold revoke_cancels, has_state, has_kind. rewrite !andb_true_iff, orb_true_iff, !bool_decide_eq_true, exists_where_in.
  split; [intros ((? & ?) & b & Hb & Hx)|intros (? & ? & b & Hb & Hx)].
  - apply andb_true_iff in Hx as [H1 H2%String.eqb_eq]. unfold backup_id_is in H1. rewrite bool_decide_eq_true in H1. eauto 6.
  - split; [done|]. exists b. split; [done|]. apply andb_true_iff. split; [apply bool_decide_eq_true|apply String.eqb_eq]; apply Hx.
Qed.

(** The copy of an active operation is restored exactly when it is cancelled. *)
Lemma revoke_restored id c o b : core_ok c -> In o (c_operations c) -> active_operation o = true ->
  In b (c_backups c) -> b_ID b = o_BackupID o ->
  revoke_cancels id c o = true \/ revoke_backup id c b = b.
Proof.
  intros Hok Ho Ha Hb Hid. destruct (revoke_cancels id c o) eqn:Ec; [by left|right].
  assert (forall kind, kind = OpQuarantine \/ kind = OpPurge -> revoke_restores id c kind b = false) as Hno.
  { intros kind Hkind. apply not_true_iff_false. intros (Hkey & Hst & z & Hz & Hzs & Hzk & Hzb)%revoke_restores_iff.
    assert (z = o) as -> by (apply (ok_unique c Hok); [done..|by apply active_states; left|done|congruence]).
    apply not_true_iff_false in Ec. apply Ec, revoke_cancels_iff. split; [done|]. split; [by rewrite Hzk|]. by exists b. }
  unfold revoke_backup. by rewrite !Hno by auto.
Qed.

Lemma revoke_backup_fields id c b :
  b_ID (revoke_backup id c b) = b_ID b /\ b_KeyID (revoke_backup id c b) = b_KeyID b.
Proof. unfold revoke_backup. destruct (revoke_restores _ _ _ _); [done|]. by destruct (revoke_restores _ _ _ _). Qed.

Lemma revoke_rs c id now error : core_ok c ->
  core_ok (Core (update_where (key_id_is id) (fun k => k <| k_Revoked := true |>) (c_keys c))
      (update_where (revoke_restores id c OpPurge) (fun b => b <| b_Status := BackupQuarantined |>)
        (update_where (revoke_restores id c OpQuarantine) (fun b => b <| b_Status := BackupComplete |>) (c_backups c)))
      (update_where (revoke_cancels id c) (cancel_operation now error) (c_operations c)) (c_seq c)).
Proof.
  intros Hok. rewrite revoke_backups.
  pose proof (keys_rs c (key_id_is id) (fun k => k <| k_Revoked := true |>) Hok ltac:(done) ltac:(done)) as Hk.
  assert (forall o, In o (update_where (revoke_cancels id c) (cancel_operation now error) (c_operations c)) ->
    exists y, In y (c_operations c) /\ o_ID o = o_ID y /\
      ((revoke_cancels id c y = true /\ o_State o = OpCancelled) \/ (revoke_cancels id c y = false /\ o = y))) as Hops.
  { intros o (y & Hy & ->)%in_update_where. exists y. split; [done|].
    destruct (revoke_cancels id c y); cbn; auto. }
  assert (forall o, In o (update_where (revoke_cancels id c) (cancel_operation now error) (c_operations c)) ->
    active_operation o = true -> In o (c_operations c) /\ revoke_cancels id c o = false) as Hactive.
  { intros o Ho Ha. destruct (Hops o Ho) as (y & Hy & _ & [[_ Hs]|[Hc ->]]); [|done].
    apply active_states in Ha. rewrite Hs in Ha. by destruct Ha. }
  split; cbn.
  - apply (ok_key_ids _ Hk).
  - apply (ok_token_hashes _ Hk).
  - rewrite map_map. rewrite (map_ext _ b_ID) by (intros b; apply revoke_backup_fields). apply (ok_backup_ids c Hok).
  - rewrite map_update_where by done. apply (ok_operation_ids c Hok).
  - intros o (y & Hy & -> & _)%Hops. by apply (ok_seq c Hok).
  - intros b (y & <- & Hy)%in_map_iff. rewrite (proj2 (revoke_backup_fields id c y)). apply (ok_backup_key _ Hk y Hy).
  - intros o Ho Ha. destruct (Hactive o Ho Ha) as [Hin Hc].
    destruct (ok_active c Hok o Hin Ha) as (Hkind & b & Hb & Hid & Hst). split; [done|]. exists b. split; [|done].
    apply in_map_iff. exists b. split; [|done]. destruct (revoke_restored id c o b Hok Hin Ha Hb Hid); congruence.
  - intros o o' Ho Ho' Ha Ha' E. apply (ok_unique c Hok); [by apply Hactive..|done|done|done].
  - intros b (y & <- & Hy)%in_map_iff Htr.
    assert (revoke_backup id c y = y) as Hsame.
    { unfold revoke_backup in *. destruct (revoke_restores id c OpQuarantine y); [by destruct Htr|].
      destruct (revoke_restores id c OpPurge y); [by destruct Htr|done]. }
    rewrite Hsame in *. destruct (ok_transit c Hok y Hy Htr) as (o & Ho & Ha & Hid). exists o. split; [|done].
    apply in_update_same; [done|]. apply not_true_iff_false. intros (Hs & Hkind & x & Hx & Hxid & Hkey)%revoke_cancels_iff.
    assert (x = y) as -> by (apply (NoDup_map_in b_ID _ x y (ok_backup_ids c Hok)); congruence).
    pose proof (active_copy c o y Hok Ho Ha Hy ltac:(congruence)) as Hst.
    assert (revoke_restores id c (o_Kind o) y = true) as Hr by (apply revoke_restores_iff; eauto 8).
    unfold revoke_backup in Hsame. destruct Hkind as [Hq|Hp]; [rewrite Hq in *; rewrite Hr in Hsame|rewrite Hp in *].
    + apply (f_equal b_Status) in Hsame. by rewrite Hst in Hsame.
    + destruct (revoke_restores id c OpQuarantine y); [|rewrite Hr in Hsame];
        apply (f_equal b_Status) in Hsame; by rewrite Hst in Hsame.
  - intros b (y & <- & Hy)%in_map_iff. pose proof (ok_times c Hok y Hy) as Ht. unfold revoke_backup.
    destruct (revoke_restores id c OpQuarantine y); [done|].
    destruct (revoke_restores id c OpPurge y) eqn:E; [|done]. apply revoke_restores_iff in E as (_ & Hst & _).
    unfold times_ok in *. by rewrite Hst in Ht.
  - apply (idempotency_preserved (c_backups c)); [|apply (ok_idempotency c Hok)]. rewrite map_map. apply map_ext.
    intros b. unfold revoke_backup. by destruct (revoke_restores id c OpQuarantine b), (revoke_restores id c OpPurge b).
  - intros o Ho Hs. destruct (Hactive o Ho) as [Hin _]; [by apply active_states; left|]. by apply (ok_requested c Hok).
Qed.

Lemma rstep_ok e c c' : core_ok c -> rstep e c c' -> core_ok c'.
Proof.
  intros Hok []; eauto using key_rs, keys_rs, deposit_rs, upload_rs, request_rs, edit_rs, finish_rs, cancel_rs, revoke_rs.
Qed.

Lemma initial_core_ok : core_ok (core_of initial_db).
Proof. split; cbn; first [apply NoDup_nil_2 | by intros ? ? | by intros ? ? ? ?]. Qed.

(** ** Promises *)
(** The moves of a copy between its statuses. *)
Definition status_edge (s s' : backup_status) : bool :=
  bool_decide (s = s') ||
  match s, s' with
  | BackupReceiving, BackupComplete | BackupReceiving, BackupFailed | BackupFailed, BackupReceiving
  | BackupComplete, BackupDeleting | BackupDeleting, BackupComplete | BackupDeleting, BackupQuarantined
  | BackupQuarantined, BackupComplete | BackupQuarantined, BackupPurging
  | BackupPurging, BackupQuarantined | BackupPurging, BackupDeleted => true
  | _, _ => false
  end.

(** What was deposited is never rewritten; once received, not even its times. *)
Definition deposited (b : backup) : bool := negb (has_status BackupReceiving b || has_status BackupFailed b).
Record same_deposit (b b' : backup) : Prop := SameDeposit {
  sd_identity : identity b' = identity b; sd_size : b_Size b' = b_Size b; sd_digest : b_SHA256 b' = b_SHA256 b;
  sd_metadata : b_Metadata b' = b_Metadata b;
  sd_times : deposited b = true -> b_ReceivedAt b' = b_ReceivedAt b /\ b_StartedAt b' = b_StartedAt b }.

Lemma same_deposit_refl b : same_deposit b b.
Proof. done. Qed.
Lemma status_edge_refl s : status_edge s s = true.
Proof. unfold status_edge. by rewrite bool_decide_true. Qed.
Definition follows (b b' : backup) : Prop := same_deposit b b' /\ status_edge (b_Status b) (b_Status b') = true.
Lemma follows_refl b : follows b b.
Proof. split; [done|apply status_edge_refl]. Qed.

Lemma follows_update (p : backup -> bool) f l b : (p b = true -> follows b (f b)) -> In b l ->
  exists b', In b' (update_where p f l) /\ follows b b'.
Proof.
  intros Hf Hb. destruct (p b) eqn:E; [exists (f b)|exists b]; (split; [|by auto using follows_refl]);
    [by apply in_update_new|by apply in_update_same].
Qed.

Lemma hold_follows kind b : b_Status b = source_status kind -> kind <> OpCancel -> follows b (hold_backup kind b).
Proof. intros Hs Hk. split; [done|]. rewrite Hs. by destruct kind. Qed.
Lemma finish_follows kind now b : b_Status b = pending_status kind -> follows b (finish_backup kind now b).
Proof. intros Hs. split; [by destruct kind|]. rewrite Hs. by destruct kind. Qed.
Lemma restore_follows kind b : b_Status b = pending_status kind -> kind <> OpRecover -> follows b (restore_backup kind b).
Proof. intros Hs Hk. split; [done|]. rewrite Hs. by destruct kind. Qed.
Lemma upload_follows e b b' : upload_step e b b' -> follows b b'.
Proof.
  destruct 1 as [t Hs _|r Hs|t Hs]; (split; [split; cbn; try done|rewrite Hs; done]);
    unfold deposited, has_status; rewrite Hs; done.
Qed.
Lemma revoke_follows id c b : follows b (revoke_backup id c b).
Proof.
  unfold revoke_backup. destruct (revoke_restores id c OpQuarantine b) eqn:E1;
    [|destruct (revoke_restores id c OpPurge b) eqn:E2; [|apply follows_refl]].
  - apply revoke_restores_iff in E1 as (_ & Hs & _). split; [done|]. by rewrite Hs.
  - apply revoke_restores_iff in E2 as (_ & Hs & _). split; [done|]. by rewrite Hs.
Qed.

Lemma rstep_follows e c c' b : core_ok c -> rstep e c c' -> In b (c_backups c) ->
  exists b', In b' (c_backups c') /\ follows b b'.
Proof.
  intros Hok Hstep Hb. destruct Hstep as [ | | |x|p f x Hx Hp Hup|kind x ? ? ? ? Hx Hst Hk| |o f Hev Ho|o p f Ho Ha Hk|id error];
    cbn; try (exists b; split; [by auto|apply follows_refl]).
  - exists b. split; [apply in_or_app; by left|apply follows_refl].
  - apply follows_update; [|done]. intros ->%Hp; [|done]. by apply (upload_follows e).
  - apply follows_update; [|done]. intros [_ Hs]%backup_is_iff. by apply hold_follows.
  - apply follows_update; [|done]. intros [_ Hs]%backup_is_iff. by apply finish_follows.
  - apply follows_update; [|done]. intros [_ Hs]%backup_is_iff. by apply restore_follows.
  - rewrite revoke_backups. exists (revoke_backup id c b). split; [by apply in_map|apply revoke_follows].
Qed.

Definition has_copy (k : string) (c : core) : Prop :=
  exists b, In b (c_backups c) /\ b_KeyID b = k /\ b_Status b = BackupComplete.

Lemma keeps_copy_update p f b k (c : core) ks os n : In b (c_backups c) -> b_KeyID b = k -> b_Status b = BackupComplete ->
  p b = false -> has_copy k (Core ks (update_where p f (c_backups c)) os n).
Proof. intros Hb Hk Hs Hp. exists b. split; [by apply in_update_same|done]. Qed.

(** A key never loses its last complete copy. *)
Lemma rstep_keeps_copy e c c' k : core_ok c -> rstep e c c' -> has_copy k c -> has_copy k c'.
Proof.
  intros Hok Hstep (b & Hb & Hk & Hs).
  assert (forall id st, st <> BackupComplete -> backup_is id st b = false) as Hno.
  { intros id st Hne. apply not_true_iff_false. intros [_ E]%backup_is_iff. congruence. }
  destruct Hstep as [ | | |x|p f x Hx Hp Hup|kind x ? ? ? ? Hx Hst Hkind Hfree Hother| |o f Hev Ho|o p f Ho Ha Hko|id error];
    try (exists b; done).
  - exists b. split; [apply in_or_app; by left|done].
  - apply (keeps_copy_update _ _ b); [done..|]. apply not_true_iff_false. intros E. apply Hp in E as ->; [|done].
    destruct Hup; congruence.
  - destruct (backup_is (b_ID x) (source_status kind) b) eqn:E; [|by apply (keeps_copy_update _ _ b)].
    apply backup_is_iff in E as [Hid Hsrc]. rewrite Hs in Hsrc. destruct kind; try done.
    assert (b = x) as -> by (by apply (NoDup_map_in b_ID _ b x (ok_backup_ids c Hok))).
    destruct (Hother eq_refl) as (b' & Hb' & Hne & Hk' & Hs'). apply (keeps_copy_update _ _ b'); [done|congruence|done|].
    apply not_true_iff_false. by intros [E _]%backup_is_iff.
  - apply (keeps_copy_update _ _ b); [done..|]. apply Hno. by destruct (o_Kind o).
  - apply (keeps_copy_update _ _ b); [done..|]. apply Hno. by destruct (o_Kind o).
  - exists (revoke_backup id c b). cbn. rewrite revoke_backups. split; [by apply in_map|].
    rewrite (proj2 (revoke_backup_fields id c b)). split; [done|].
    unfold revoke_backup. destruct (revoke_restores id c OpQuarantine b) eqn:E1; [done|].
    destruct (revoke_restores id c OpPurge b) eqn:E2; [|done]. apply revoke_restores_iff in E2 as (_ & E2 & _). by rewrite Hs in E2.
Qed.

(** A key keeps its identity, and a revocation is for ever. *)
Definition same_key (k k' : key) : Prop :=
  k_ID k' = k_ID k /\ k_TokenHash k' = k_TokenHash k /\ (k_Revoked k = true -> k_Revoked k' = true).

Lemma rstep_key e c c' k : rstep e c c' -> In k (c_keys c) -> exists k', In k' (c_keys c') /\ same_key k k'.
Proof.
  assert (forall p f, (forall x, same_key x (f x)) -> In k (c_keys c) -> exists k', In k' (update_where p f (c_keys c)) /\ same_key k k')
    as Hupdate.
  { intros p f Hf Hk. destruct (p k) eqn:E; [exists (f k)|exists k]; (split; [|done]); [by apply in_update_new|by apply in_update_same]. }
  intros Hstep Hk. destruct Hstep as [ |y| p f H1 H2 H3| | | | | | |id]; cbn; try (exists k; done).
  - exists k. split; [apply in_or_app; by left|done].
  - apply Hupdate; [|done]. intros x. split; [done|]. split; [done|]. apply H3.
  - by apply Hupdate.
Qed.

(** ** Moves

    How a copy came to its status, and when it may go on. *)
Definition withdrawn (s : backup_status) : bool :=
  match s with BackupQuarantined | BackupPurging | BackupDeleted => true | _ => false end.

Inductive move (e : event) (c : core) (b b' : backup) : Prop :=
| mv_same : b_Status b' = b_Status b -> b_PurgeNotBefore b' = b_PurgeNotBefore b -> move e c b b'
| mv_kept : withdrawn (b_Status b') = false -> move e c b b'
| mv_quarantine : b_Status b = BackupDeleting -> b_Status b' = BackupQuarantined ->
    b_PurgeNotBefore b' = purgeNotBefore (ev_now e) -> move e c b b'
| mv_back : b_Status b = BackupPurging -> b_Status b' = BackupQuarantined ->
    b_PurgeNotBefore b' = b_PurgeNotBefore b -> move e c b b'
| mv_purge : b_Status b = BackupQuarantined -> b_Status b' = BackupPurging ->
    b_PurgeNotBefore b' = b_PurgeNotBefore b -> b_PurgeNotBefore b <= unix (ev_now e) -> move e c b b'
| mv_delete o : b_Status b = BackupPurging -> b_Status b' = BackupDeleted ->
    In o (c_operations c) -> ev_finishes e = Some (o_ID o) -> o_State o = OpAuthorized -> o_Kind o = OpPurge ->
    o_BackupID o = b_ID b -> move e c b b'.

Lemma move_update e c p f b' : (forall b, In b (c_backups c) -> p b = true -> move e c b (f b) /\ b_ID (f b) = b_ID b) ->
  In b' (update_where p f (c_backups c)) -> exists b, In b (c_backups c) /\ b_ID b = b_ID b' /\ move e c b b'.
Proof.
  intros Hf (b & Hb & ->)%in_update_where. exists b. split; [done|]. destruct (p b) eqn:E.
  - destruct (Hf b Hb E). done.
  - split; [done|by apply mv_same].
Qed.

Lemma upload_move e c b b' : upload_step e b b' -> move e c b b' /\ b_ID b' = b_ID b.
Proof. destruct 1; (split; [by apply mv_kept|done]). Qed.
Lemma hold_move e c kind b : b_Status b = source_status kind -> kind <> OpCancel ->
  (kind = OpPurge -> b_PurgeNotBefore b <= unix (ev_now e)) -> move e c b (hold_backup kind b).
Proof.
  intros Hs Hk Hp. destruct kind; [by apply mv_kept|apply mv_purge; auto|by apply mv_same|done].
Qed.
Lemma finish_move e c o b : In o (c_operations c) -> ev_finishes e = Some (o_ID o) -> o_State o = OpAuthorized ->
  b_Status b = pending_status (o_Kind o) -> b_ID b = o_BackupID o ->
  move e c b (finish_backup (o_Kind o) (ev_now e) b).
Proof.
  intros Ho He Hst Hs Hid. destruct (o_Kind o) eqn:Ek;
    [by apply mv_quarantine|by apply (mv_delete _ _ _ _ o)|by apply mv_kept..].
Qed.
Lemma restore_move e c kind b : b_Status b = pending_status kind -> kind <> OpRecover -> kind <> OpCancel ->
  move e c b (restore_backup kind b).
Proof. intros Hs Hk Hc. destruct kind; [by apply mv_kept|by apply mv_back|done..]. Qed.
Lemma revoke_move e c id b : move e c b (revoke_backup id c b) /\ b_ID (revoke_backup id c b) = b_ID b.
Proof.
  split; [|apply revoke_backup_fields]. unfold revoke_backup.
  destruct (revoke_restores id c OpQuarantine b); [by apply mv_kept|].
  destruct (revoke_restores id c OpPurge b) eqn:E; [|by apply mv_same].
  apply revoke_restores_iff in E as (_ & E & _). by apply mv_back.
Qed.

(** Every copy was received, or moved from what it was. *)
Lemma rstep_back e c c' b' : core_ok c -> rstep e c c' -> In b' (c_backups c') ->
  b_Status b' = BackupReceiving \/ exists b, In b (c_backups c) /\ b_ID b = b_ID b' /\ move e c b b'.
Proof.
  intros Hok Hstep Hb'.
  destruct Hstep as [ | | |x Hx|p f x Hx Hp Hup|kind x ? ? ? ? Hx Hst Hk Hfree Hq Hterm| |o f Hev Ho Hst|o p f Ho Ha Hk|id error];
    cbn in Hb'; try (right; exists b'; split; [done|]; split; [done|]; by apply mv_same).
  - apply in_app_iff in Hb' as [Hb'|[<-|[]]]; [right|by left].
    exists b'. split; [done|]. split; [done|]. by apply mv_same.
  - right. apply (move_update e c p f); [|done]. intros b Hb ->%Hp; [|done]. by apply upload_move.
  - right. apply (move_update e c _ (hold_backup kind)) in Hb'; [done|]. intros b Hb [Hid Hs]%backup_is_iff. split; [|done].
    apply hold_move; [done..|]. intros Ek. rewrite (NoDup_map_in b_ID _ b x (ok_backup_ids c Hok)) by done. by apply Hterm.
  - right. apply (move_update e c _ (finish_backup (o_Kind o) (ev_now e))) in Hb'; [done|].
    intros b Hb [Hid Hs]%backup_is_iff. split; [by apply finish_move|]. by destruct (o_Kind o).
  - right. apply (move_update e c _ (restore_backup (o_Kind o))) in Hb'; [done|].
    intros b Hb [Hid Hs]%backup_is_iff. split; [|done]. apply restore_move; [done..|].
    apply (ok_active c Hok o Ho Ha).
  - right. rewrite revoke_backups in Hb'. apply in_map_iff in Hb' as (b & <- & Hb). exists b.
    destruct (revoke_move e c id b). done.
Qed.

(** The moves of an operation between its states. *)
Definition op_edge (e : event) (o o' : operation) : Prop :=
  o_State o' = o_State o \/
  (active_operation o = true /\
   (o_State o' = OpRequested \/ (o_State o' = OpAuthorized /\ ev_authorizes e = Some (o_ID o)) \/ o_State o' = OpCancelled \/
    (o_State o = OpAuthorized /\ o_State o' = OpConfirmed /\ ev_finishes e = Some (o_ID o)))).

Lemma rstep_operation_back e c c' o' : core_ok c -> rstep e c c' -> In o' (c_operations c') ->
  o_State o' = OpRequested \/
  exists o, In o (c_operations c) /\ o_ID o' = o_ID o /\ o_BackupID o' = o_BackupID o /\ o_Kind o' = o_Kind o /\ op_edge e o o'.
Proof.
  intros Hok Hstep Hin.
  assert (forall o, In o (c_operations c) -> exists x, In x (c_operations c) /\ o_ID o = o_ID x /\ o_BackupID o = o_BackupID x /\
            o_Kind o = o_Kind x /\ op_edge e x o) as Hsame.
  { intros o Ho. exists o. split; [done|]. repeat (split; [done|]). by left. }
  destruct Hstep as [ | | | | |kind b ? ? ? ?|p f o Ho Ha Hp [H1 H2 H3 H4 H5 _ _]|o f Hev Ho Hst [H1 H2 H3 H4]|o p f Ho Ha Hk _ Hp [H1 H2 H3 H4]|id error];
    cbn in Hin; try (right; by apply Hsame).
  - apply in_app_iff in Hin as [Hin|[<-|[]]]; [right; by apply Hsame|by left].
  - right. apply (update_cases _ _ _ _ _ Hp) in Hin as [(-> & _ & _)|[Hin _]]; [|by apply Hsame].
    exists o. repeat (split; [done|]). apply active_states in H4. destruct H5 as [[H5 _]|[H5|[H5 _]]]; [|by left|];
      right; (split; [done|]); [by left|]. destruct H4 as [H4|H4]; [by left|right; by left].
  - right. apply in_update_where in Hin as (x & Hx & ->).
    destruct (_ && _) eqn:E; [|by apply Hsame]. apply andb_true_iff in E as [E _]. apply Z.eqb_eq in E.
    assert (x = o) as -> by (by apply (NoDup_map_in o_ID _ x o (ok_operation_ids c Hok))).
    exists o. repeat (split; [done|]). right. split; [by apply active_states; right|]. right. right. right. done.
  - right. apply in_update_where in Hin as (x & Hx & ->). destruct (p x) eqn:E; [|by apply Hsame].
    apply Hp in E as ->; [|done]. exists o. repeat (split; [done|]). right. split; [done|]. right. right. by left.
  - right. apply in_update_where in Hin as (x & Hx & ->). destruct (revoke_cancels id c x) eqn:E; [|by apply Hsame].
    exists x. repeat (split; [done|]). right. apply revoke_cancels_iff in E as (E & _). split; [by apply active_states; left|].
    right. right. by left.
Qed.
