(* ===== verification/Deposit.v ===== *)
(** Deposits: profiles and keys, the admission of an upload with its limits and
    idempotency, its completion checked against the learned model, its failure,
    and the queries of the catalogue ([src/internal/store/store.go],
    [src/internal/store/backup_pages.go]). *)
From S2P Require Import Prelude GoTime GoFloat GoString Model Policy Schedule Catalog Anomalies Automation Retention.

(** ** Profiles and keys *)
Definition PutProfile (p : profile) : tx unit :=
  _ ← tx_lift (Profile_Validate p);
  tx_modify (fun d =>
    if exists_where (fun q => String.eqb (p_Name q) (p_Name p)) (d_profiles d)
    then d <| d_profiles ::= update_where (fun q => String.eqb (p_Name q) (p_Name p)) (fun _ => p) |>
    else d <| d_profiles ::= (fun t => t ++ [p]) |>).
Definition Profiles (d : db) : list profile := sort_by (fun a b => String.ltb (p_Name a) (p_Name b)) (d_profiles d).

Definition find_profile (d : db) (name : string) : option profile :=
  find_where (fun p => String.eqb (p_Name p) name) (d_profiles d).

Definition insert_key (k : key) : tx unit := fun d =>
  if exists_where (key_id_is (k_ID k)) (d_keys d) ||
     exists_where (fun x => String.eqb (k_TokenHash x) (k_TokenHash k)) (d_keys d) ||
     negb (exists_where (fun p => String.eqb (p_Name p) (k_Profile k)) (d_profiles d))
  then Err (ErrConstraint "keys")
  else Ok (tt, d <| d_keys ::= (fun t => t ++ [k]) |>).

Definition Keys (d : db) : list key :=
  sort_by (fun a b => String.ltb (k_Name a) (k_Name b) ||
                      (String.eqb (k_Name a) (k_Name b) && String.ltb (k_ID a) (k_ID b))) (d_keys d).

Definition Assign (id profile : string) : tx unit :=
  d ← tx_get;
  _ ← tx_guard (exists_where (key_id_is id) (d_keys d) &&
                negb (exists_where (fun p => String.eqb (p_Name p) profile) (d_profiles d))) (ErrConstraint "keys");
  n ← update_keys (key_id_is id) (fun k => k <| k_Profile := profile |>);
  changed n.

(** ** Admission *)
Definition counts_for_quota (b : backup) : bool :=
  has_status BackupReceiving b || has_status BackupComplete b || has_status BackupDeleting b ||
  has_status BackupQuarantined b || has_status BackupPurging b.
Definition of_key (keyID : string) (b : backup) : bool := String.eqb (b_KeyID b) keyID.
(** [SUM(CASE WHEN p THEN size_bytes ELSE 0 END)] over the backups of a key. *)
Definition sum_sizes (p : backup -> bool) (l : list backup) : result err Z :=
  sum_int64 (map (fun b => if p b then b_Size b else 0) l) 0.
Definition key_backups (keyID : string) (d : db) : list backup := List.filter (of_key keyID) (d_backups d).

Definition day_before (now : Z) : Z := unix (now - 24 * Hour).
Definition attempts_since (keyID : string) (since : Z) (d : db) : Z :=
  count_where (fun a => String.eqb (at_KeyID a) keyID && (since <=? at_AttemptedAt a)) (d_attempts d).
Definition reserved_bytes (d : db) : result err Z :=
  sum_sizes (has_status BackupReceiving) (List.filter (has_status BackupReceiving) (d_backups d)).
Definition ReservedBytes (d : db) : result err Z := reserved_bytes d.

(** [keys k JOIN profiles p ON p.name=k.profile WHERE k.token_hash=? AND k.revoked=0] *)
Definition key_of_token (hash : string) (d : db) : option (key * profile) :=
  k ← find_where (fun k => String.eqb (k_TokenHash k) hash && negb (k_Revoked k)) (d_keys d);
  p ← find_profile d (k_Profile k);
  Some (k, p).

Definition idempotent_backup (keyID idempotencyKey : string) (d : db) : option backup :=
  find_where (fun b => of_key keyID b && String.eqb (b_IdempotencyKey b) idempotencyKey) (d_backups d).

(** What an earlier deposit with the same idempotency key answers: a receipt,
    the failed deposit to resume, or an error. *)
Inductive idempotency : Type := Fresh | Resume (id : string) | Receipt (b : backup).
Definition check_idempotency (existing : option backup) (m : metadata) (size : Z) (digest : string) : result err idempotency :=
  match existing with
  | None => Ok Fresh
  | Some b =>
    if negb (b_Size b =? size) || negb (String.eqb (b_SHA256 b) digest) || bool_decide (b_Metadata b <> m)
    then Err ErrIdempotencyConflict
    else
      match b_Status b with
      | BackupComplete => Ok (Receipt b)
      | BackupReceiving => Err ErrIdempotencyInProgress
      | BackupFailed => Ok (Resume (b_ID b))
      | BackupDeleting | BackupQuarantined | BackupPurging | BackupDeleted => Err ErrIdempotencyUnavailable
      end
  end.

Definition receiving_backup (id keyID idempotencyKey : string) (m : metadata) (size : Z) (digest : string) (now : Z) : backup :=
  Backup id BackupReceiving size digest "" keyID idempotencyKey m (unix now) "" 0 0 0.

Section platform.
Context `{Platform}.

(** [id] and [token] are drawn by [model.NewID] and [model.NewToken]. *)
Definition CreateKey (name profile id token : string) : tx (key * string) :=
  _ ← tx_guard (is_blank name || (255 <? len name)) (ErrText "nome chiave obbligatorio, massimo 255 byte");
  let k := Key id name (sha256_hex token) profile false in
  _ ← insert_key k;
  mret (k, token).

(** The limits of the profile, over the copies and attempts of the key. *)
Definition check_limits (p : profile) (keyID : string) (size now : Z) : tx unit :=
  _ ← tx_guard (MaxBackupBytes p <? size) ErrSize;
  d ← tx_get;
  used ← tx_lift (sum_sizes counts_for_quota (key_backups keyID d));
  let active := count_where (has_status BackupReceiving) (key_backups keyID d) in
  let attempts := attempts_since keyID (day_before now) d in
  _ ← tx_guard ((TotalBytes p <? used) || (TotalBytes p - used <? size)) ErrQuota;
  _ ← tx_guard (Concurrent p <=? active) ErrConcurrent;
  tx_guard (UploadsPerDay p <=? attempts) ErrRate.

(** [check], run under the transaction on the bytes reserved including this
    upload; [None] is a nil function. *)
Definition check_disk (check : option (Z -> result err unit)) (size : Z) : tx unit :=
  match check with
  | None => mret tt
  | Some f =>
    d ← tx_get;
    reserved ← tx_lift (reserved_bytes d);
    _ ← tx_guard ((reserved <? 0) || (max_int64 - reserved <? size)) (ErrText "prenotazioni disco non valide");
    tx_lift (f (reserved + size))
  end.

(** The row is inserted, or the failed deposit goes back to receiving. *)
Definition reserve_row (existing : idempotency) (b : backup) (now : Z) : tx unit :=
  match existing with
  | Resume id =>
    _ ← update_backups (backup_is id BackupFailed)
          (fun b => b <| b_Status := BackupReceiving |> <| b_StartedAt := unix now |> <| b_ReceivedAt := "" |>
                      <| b_Failure := "" |>);
    mret tt
  | _ => insert_backup b
  end.

Definition reclaim_attempts (keyID : string) (now : Z) : tx unit :=
  tx_modify (fun d => d <| d_attempts ::= delete_where
    (fun a => String.eqb (at_KeyID a) keyID && (at_AttemptedAt a <? day_before now)) |>).

(** [newID] is the identifier drawn by [model.NewID] for a fresh deposit. *)
Definition ReserveIdempotentChecked (token : string) (m : metadata) (size : Z) (digest idempotencyKey : string)
    (now : Z) (check : option (Z -> result err unit)) (newID : string) : tx backup :=
  _ ← tx_guard (negb (ValidToken token)) ErrUnauthorized;
  _ ← tx_lift (Metadata_Validate m);
  _ ← tx_guard ((size <=? 0) || negb (ValidDigest digest)) ErrSize;
  _ ← tx_guard (negb (String.eqb idempotencyKey "") && negb (ValidIdempotencyKey idempotencyKey)) ErrIdempotencyConflict;
  found ← tx_gets (key_of_token (sha256_hex token));
  match found with
  | None => tx_fail ErrUnauthorized
  | Some (k, p) =>
    let keyID := k_ID k in
    earlier ← tx_gets (fun d => if String.eqb idempotencyKey "" then None else idempotent_backup keyID idempotencyKey d);
    state ← tx_lift (check_idempotency earlier m size digest);
    match state with
    | Receipt b => mret b
    | _ =>
      _ ← check_limits p keyID size now;
      _ ← check_disk check size;
      let id := match state with Resume id => id | _ => newID end in
      let b := receiving_backup id keyID idempotencyKey m size digest now in
      _ ← reserve_row state b now;
      _ ← reclaim_attempts keyID now;
      _ ← insert_attempt keyID id (unix now);
      mret b
    end
  end.

Definition ReserveIdempotent (token : string) (m : metadata) (size : Z) (digest idempotencyKey : string) (now : Z)
    (newID : string) : tx backup :=
  ReserveIdempotentChecked token m size digest idempotencyKey now None newID.
Definition Reserve (token : string) (m : metadata) (size : Z) (digest : string) (now : Z) (newID : string) : tx backup :=
  ReserveIdempotent token m size digest "" now newID.

(** ** Completion *)
(** The reliable model of the key at the current revision. *)
Definition current_model (keyID : string) (d : db) : option monitoring_model :=
  m ← find_where (fun m => String.eqb (mm_KeyID m) keyID && (mm_Revision m =? au_ModelRevision (d_automation d))) (d_models d);
  if negb (mm_Reliable m) || mm_ReviewRequired m then None else Some m.

(** The appointments of the day before, the day and the day after. *)
Definition appointments_around (loc : location) (learned : key_model) (now : Z) : list (appointment * Z) :=
  let dayStart := localMidnight loc now in
  flat_map (fun offset =>
    let day := add_days loc dayStart offset in
    map (fun a => (a, appointmentTime loc day (MinuteOfDay a))) (schedule_of learned (weekday loc day))) [-1; 0; 1].

(** The nearest within the tolerance, the first of equals. *)
Definition nearest_appointment (now : Z) (appointments : list (appointment * Z)) : option appointment :=
  fst (foldl (fun (acc : option appointment * Z) p =>
    let distance := Z.abs (time_sub now (snd p)) in
    if (distance <=? ScheduleTolerance) && (distance <? snd acc) then (Some (fst p), distance) else acc)
    (None, max_int64) appointments).

Definition arrival_size_out (learned : key_model) (a : appointment) (size now : Z) : bool :=
  let expected := expected_size learned a now in
  f_leb expected f_zero || f_ltb (f_of_int size) (f_mul expected (f_const 4 5)) ||
  f_ltb (f_mul expected (f_const 6 5)) (f_of_int size).

Definition received_observations (keyID : string) (d : db) : list observation :=
  omap (fun b => t ← parse_rfc3339 (b_ReceivedAt b); Some (Observation (b_ID b) keyID t (b_Size b)))
    (List.filter (fun b => of_key keyID b && received_status b && negb (String.eqb (b_ReceivedAt b) "")) (d_backups d)).

Definition evaluateCompleted (id : string) (now : Z) : tx unit :=
  b ← select_backup id;
  let keyID := b_KeyID b in
  model ← tx_gets (current_model keyID);
  match model with
  | None => mret tt
  | Some row =>
    learned ← tx_lift (json_model (mm_JSON row));
    loc ← tx_lift (LoadLocation (km_Timezone learned));
    match nearest_appointment now (appointments_around loc learned now) with
    | None => openAnomaly ("arrival-time:" ++ id) "time" keyID id "completamento fuori dalla tolleranza oraria del modello" now
    | Some a =>
      _ ← (if arrival_size_out learned a (b_Size b) now
           then openAnomaly ("arrival-size:" ++ id) "size" keyID id "dimensione fuori dalla tolleranza del 20%" now
           else mret tt);
      observations ← tx_gets (received_observations keyID);
      tx_iter (fun f =>
        if String.eqb (f_Kind f) "extra" then
          _ ← openAnomalyAt (f_StableKey f) (f_Kind f) (f_KeyID f) (f_BackupID f) (f_Detail f) (f_At f) now; mret tt
        else mret tt) (Check LoadLocation learned observations now)
    end
  end.

Definition Complete (id : string) (now : Z) : tx unit :=
  n ← update_backups (backup_is id BackupReceiving)
        (fun b => b <| b_Status := BackupComplete |> <| b_ReceivedAt := format_rfc3339nano now |> <| b_Failure := "" |>);
  _ ← changed n;
  evaluateCompleted id now.

Definition Fail_ (id reason : string) (now : Z) : tx unit :=
  n ← update_backups (backup_is id BackupReceiving) (fun b => b <| b_Status := BackupFailed |> <| b_Failure := reason |>);
  _ ← changed n;
  b ← select_backup id;
  openAnomaly ("upload-failed:" ++ id) "upload" (b_KeyID b) id reason now.
End platform.

(** ** Queries *)
Definition Backup_ (id : string) (d : db) : result err backup :=
  match find_backup d id with Some b => Ok b | None => Err ErrNoRows end.
(** ORDER BY started_at DESC, id DESC *)
Definition latest_first (a b : backup) : bool :=
  (b_StartedAt b <? b_StartedAt a) || ((b_StartedAt a =? b_StartedAt b) && String.ltb (b_ID b) (b_ID a)).
Definition SnapshotBackups (d : db) : list backup := sort_by latest_first (d_backups d).
Definition Backups (keyID : string) (limit : Z) (d : db) : result err (list backup) :=
  if (limit <? 1) || (10000 <? limit) then Err (ErrText "limite elenco tra 1 e 10000")
  else Ok (take (Z.to_nat limit)
             (sort_by latest_first (List.filter (fun b => String.eqb keyID "" || of_key keyID b) (d_backups d)))).
Definition Pending (d : db) : list backup := List.filter (has_status BackupReceiving) (d_backups d).

Definition Quota (keyID : string) (now : Z) (d : db) : result err quota :=
  k ← match find_key d keyID with Some k => Ok k | None => Err ErrNoRows end;
  p ← match find_profile d (k_Profile k) with Some p => Ok p | None => Err ErrNoRows end;
  used ← sum_sizes (fun b => counts_for_quota b && negb (has_status BackupReceiving b)) (key_backups keyID d);
  reserved ← sum_sizes (has_status BackupReceiving) (key_backups keyID d);
  mret (MkQuota keyID p used reserved (count_where (has_status BackupReceiving) (key_backups keyID d))
          (attempts_since keyID (day_before now) d)).

(** ** Pages

    Rowids are assigned in increasing order and rows are never deleted: the
    rowid of a backup is its position. *)
Definition BackupPageSize : nat := 1000.
Record backup_page : Type := BackupPage { bp_Backups : list backup; bp_Next : string; bp_Through : Z }.

Definition page_of (after : string) (through : Z) (d : db) : backup_page :=
  let rows := List.filter (fun b => String.ltb after (b_ID b)) (take (Z.to_nat through) (d_backups d)) in
  let backups := take (S BackupPageSize) (sort_by (fun a b => String.ltb (b_ID a) (b_ID b)) rows) in
  if (BackupPageSize <? length backups)%nat then
    let backups := take BackupPageSize backups in
    BackupPage backups (List.last (map b_ID backups) "") through
  else BackupPage backups "" through.

Definition GetBackupPage (after : string) (through : Z) (d : db) : result err backup_page :=
  if (through <? 0) || (negb (String.eqb after "") && (negb (ValidID after) || (through =? 0))) then
    Err (ErrText "cursore catalogo non valido")
  else
    let through := if String.eqb after "" then Z.of_nat (length (d_backups d)) else through in
    Ok (page_of after through d).
