(* ===== verification/Checks.v ===== *)
(** Monitoring checks: their start, the periods they plan to cover with each
    model, their completion, and the cleanup of old ones
    ([src/internal/store/monitoring_checks.go]). *)
From S2P Require Import Prelude GoTime GoFloat GoString Model Policy Schedule Catalog Anomalies Automation.

Definition monitoringCheckRetention : Z := 90 * 24 * Hour.

Definition check_running (id : Z) (c : check) : bool := (c_ID c =? id) && bool_decide (c_Status c = CheckRunning).
Definition check_completed (c : check) : bool :=
  bool_decide (c_Status c = CheckClean) || bool_decide (c_Status c = CheckAnomalies).

Definition insert_check (now : Z) : tx Z := fun d =>
  let id := d_checks_seq d + 1 in
  Ok (id, d <| d_checks ::= (fun t => t ++ [MonitoringCheck id (unix now) None (unix now) (unix now) CheckRunning ""]) |>
            <| d_checks_seq := id |>).

(** At most one check runs: the previous one is failed. *)
Definition StartMonitoringCheck (now : Z) : tx check :=
  _ ← fail_running_checks "interrotto dal precedente arresto" now;
  id ← insert_check now;
  mret (MonitoringCheck id (unix now) None (unix now) (unix now) CheckRunning "").

(** ** Planning *)
(** ORDER BY m.key_id, m.learned_at, m.revision *)
Definition model_before (a b : monitoring_model) : bool :=
  (mm_LearnedAt a <? mm_LearnedAt b) || ((mm_LearnedAt a =? mm_LearnedAt b) && (mm_Revision a <? mm_Revision b)).

Definition usable_models (d : db) (currentRevision : Z) (keyID : string) : list monitoring_model :=
  sort_by model_before (List.filter (fun m => String.eqb (mm_KeyID m) keyID && mm_Reliable m && negb (mm_ReviewRequired m) &&
    (mm_Revision m <=? currentRevision)) (d_models d)).

(** The keys with a usable model, in the order of [sort.Strings]. *)
Definition planned_keys (d : db) (currentRevision : Z) : list string :=
  sort_strings (map k_ID (List.filter (fun k => negb (k_Revoked k) &&
    negb (length (usable_models d currentRevision (k_ID k)) =? 0)%nat) (d_keys d))).

Definition current_revision (d : db) : Z :=
  let r := au_ModelRevision (d_automation d) in
  if r =? 0 then list_max_by mm_Revision 0 (d_models d) else r.

(** [SELECT MAX(cm.covered_to)] of the completed checks. *)
Definition completed_check (d : db) (id : Z) : bool := exists_where (fun c => (c_ID c =? id) && check_completed c) (d_checks d).
Definition latest_coverage (d : db) (keyID : string) : option Z :=
  foldl (fun acc cm =>
    if String.eqb (cm_KeyID cm) keyID && completed_check d (cm_CheckID cm)
    then Some (match acc with Some t => Z.max t (cm_CoveredTo cm) | None => cm_CoveredTo cm end)
    else acc) None (d_check_models d).

(** The scope first planned for a key, by whatever check. *)
Definition scope_before (a b : check_model) : bool :=
  (cm_CheckID a <? cm_CheckID b) || ((cm_CheckID a =? cm_CheckID b) &&
    ((cm_CoveredFrom a <? cm_CoveredFrom b) || ((cm_CoveredFrom a =? cm_CoveredFrom b) && (cm_Revision a <? cm_Revision b)))).
Definition first_scope (d : db) (keyID : string) (id : Z) : option check_model :=
  hd_error (sort_by scope_before (List.filter (fun cm => String.eqb (cm_KeyID cm) keyID && (cm_CheckID cm <? id) &&
    exists_where (fun c => c_ID c =? cm_CheckID cm) (d_checks d)) (d_check_models d))).

Fixpoint drop_to_revision (revision : Z) (models : list monitoring_model) : list monitoring_model :=
  match models with
  | [] => []
  | m :: models' => if mm_Revision m =? revision then models else drop_to_revision revision models'
  end.
(** The last model learned by [t], or the first of all. *)
Fixpoint drop_to_time (t : Z) (models : list monitoring_model) : list monitoring_model :=
  match models with
  | m :: ((m' :: _) as models') => if mm_LearnedAt m' <=? t then drop_to_time t models' else models
  | _ => models
  end.

Section platform.
Context `{Platform}.

(** Where the coverage of a key starts, and the models that apply from there. *)
Definition plan_start (d : db) (id : Z) (keyID : string) (models : list monitoring_model)
    : result err (bool * Z * list monitoring_model) :=
  match latest_coverage d keyID with
  | Some t => Ok (true, t, models)
  | None =>
    match first_scope d keyID id with
    | Some scope =>
      match drop_to_revision (cm_Revision scope) models with
      | [] => Err (ErrText "modello del primo controllo interrotto non disponibile")
      | segments => Ok (false, cm_CoveredFrom scope, segments)
      end
    | None =>
      if exists_where check_completed (d_checks d) then
        match models with m :: _ => Ok (false, mm_LearnedAt m, models) | [] => Ok (false, 0, []) end
      else
        let firstStartedAt := match d_checks d with c :: _ => c_StartedAt c | [] => 0 end in
        let segments := drop_to_time firstStartedAt models in
        match segments with
        | [] => Ok (false, 0, [])
        | current :: _ =>
          loc ← LoadLocation (mm_Timezone current);
          let start := unix (add_days loc (localMidnight loc (of_unix firstStartedAt)) (-1) - Second) in
          Ok (false, if firstStartedAt <? mm_LearnedAt current then mm_LearnedAt current else start, segments)
        end
    end
  end.

(** One scope per model: from the start (or from when the model was learned) to
    the end of the coverage (or to when the next was learned). *)
Fixpoint plan_segments (id : Z) (keyID : string) (currentRevision start coverageEnd : Z) (bounded : bool)
    (segments : list monitoring_model) : list check_model :=
  match segments with
  | [] => []
  | item :: rest =>
    let from := if bounded && (start <? mm_LearnedAt item) then mm_LearnedAt item else start in
    let to := match rest with
              | next :: _ => if mm_LearnedAt next <? coverageEnd then mm_LearnedAt next else coverageEnd
              | [] => coverageEnd
              end in
    let scopes := plan_segments id keyID currentRevision start coverageEnd true rest in
    if (to <? from) || (currentRevision <? mm_Revision item) then scopes
    else CheckModel id keyID (mm_Revision item) from to :: scopes
  end.

Definition insert_scope (cm : check_model) : tx unit := fun d =>
  if exists_where (fun x => (cm_CheckID x =? cm_CheckID cm) && String.eqb (cm_KeyID x) (cm_KeyID cm) &&
                            (cm_Revision x =? cm_Revision cm)) (d_check_models d) ||
     negb (exists_where (fun m => String.eqb (mm_KeyID m) (cm_KeyID cm) && (mm_Revision m =? cm_Revision cm)) (d_models d)) ||
     negb (exists_where (fun c => c_ID c =? cm_CheckID cm) (d_checks d)) ||
     (cm_CoveredTo cm <? cm_CoveredFrom cm)
  then Err (ErrConstraint "monitoring_check_models")
  else Ok (tt, d <| d_check_models ::= (fun t => t ++ [cm]) |>).

Definition plan_key (id currentRevision coverageEnd : Z) (d : db) (keyID : string) : result err (list check_model) :=
  '(hasCoverage, start, segments) ← plan_start d id keyID (usable_models d currentRevision keyID);
  if coverageEnd <? start then Ok []
  else Ok (plan_segments id keyID currentRevision start coverageEnd hasCoverage segments).

Fixpoint plan_keys (id currentRevision coverageEnd : Z) (d : db) (keys : list string) : tx (list check_model) :=
  match keys with
  | [] => mret []
  | keyID :: keys' =>
    scopes ← tx_lift (plan_key id currentRevision coverageEnd d keyID);
    _ ← tx_iter insert_scope scopes;
    more ← plan_keys id currentRevision coverageEnd d keys';
    mret (scopes ++ more)
  end.

(** The hull of the scopes, or the present instant. *)
Definition hull (scopes : list check_model) (now : Z) : Z * Z :=
  match scopes with
  | [] => (unix now, unix now)
  | s :: rest => foldl (fun acc cm => (Z.min (fst acc) (cm_CoveredFrom cm), Z.max (snd acc) (cm_CoveredTo cm)))
                   (cm_CoveredFrom s, cm_CoveredTo s) rest
  end.

Definition PlanMonitoringCheck (id now : Z) : tx (check * list check_model) :=
  d ← tx_get;
  c ← query_row (find_where (check_running id) (d_checks d));
  let currentRevision := current_revision d in
  let coverageEnd := Z.min (c_StartedAt c) (unix now) - unix ScheduleTolerance in
  scopes ← plan_keys id currentRevision coverageEnd d (planned_keys d currentRevision);
  let period := hull scopes now in
  _ ← update_checks (check_running id) (fun c => c <| c_PeriodFrom := fst period |> <| c_PeriodTo := snd period |>);
  mret (c <| c_PeriodFrom := fst period |> <| c_PeriodTo := snd period |>, scopes).

(** ** Completion *)
(** Deleting a check deletes its scopes (ON DELETE CASCADE). *)
Definition keeps_coverage (d : db) (id : Z) : bool :=
  exists_where (fun cm => (cm_CheckID cm =? id) && completed_check d id &&
    exists_where (fun k => key_id_is (cm_KeyID cm) k && negb (k_Revoked k)) (d_keys d) &&
    (cm_Revision cm =? au_ModelRevision (d_automation d)) &&
    forallb (fun cm2 => negb (String.eqb (cm_KeyID cm2) (cm_KeyID cm) && (cm_Revision cm2 =? cm_Revision cm) &&
                              completed_check d (cm_CheckID cm2)) || (cm_CoveredTo cm2 <=? cm_CoveredTo cm))
      (d_check_models d)) (d_check_models d).
Definition cleanupMonitoringChecks (cutoff : Z) : tx unit :=
  tx_modify (fun d =>
    let old c := match c_FinishedAt c with Some t => t <? cutoff | None => false end && negb (keeps_coverage d (c_ID c)) in
    let deleted := map c_ID (List.filter old (d_checks d)) in
    d <| d_checks ::= delete_where old |>
      <| d_check_models ::= delete_where (fun cm => existsb (Z.eqb (cm_CheckID cm)) deleted) |>).

Definition record_findings (findings : list finding) (now : Z) : tx unit :=
  tx_iter (fun f =>
    let eventAt := if f_At f =? zero_time then now else f_At f in
    _ ← openAnomalyAt (f_StableKey f) (f_Kind f) (f_KeyID f) (f_BackupID f) (f_Detail f) eventAt now; mret tt) findings.

Definition CompleteMonitoringCheck (id : Z) (outcome : check_status) (summary state : string) (revision : Z)
    (findings : list finding) (now : Z) : tx unit :=
  _ ← tx_guard (negb (bool_decide (outcome = CheckClean)) && negb (bool_decide (outcome = CheckAnomalies)))
        (ErrText "esito controllo non valido");
  _ ← tx_guard (negb (Bool.eqb (length findings =? 0)%nat (bool_decide (outcome = CheckClean))))
        (ErrText "esito controllo incoerente con le anomalie");
  _ ← tx_guard (8192 <? len summary) (ErrText "riepilogo controllo troppo lungo");
  _ ← tx_guard (negb (valid_monitoring_state state)) (ErrText "stato monitoraggio non valido");
  running ← tx_gets (fun d => count_where (check_running id) (d_checks d));
  _ ← tx_guard (negb (running =? 1)) (ErrText "controllo non piu in corso o invalidato dalla configurazione");
  currentRevision ← tx_gets (fun d => au_ModelRevision (d_automation d));
  _ ← tx_guard (negb (currentRevision =? 0) && negb (currentRevision =? revision))
        (ErrText "controllo obsoleto: revisione del modello cambiata; ripetere il controllo");
  _ ← record_findings findings now;
  blocking ← tx_gets (fun d => blockingAnomalyCount d now);
  let state := if 0 <? blocking then MonitoringAnomaly else state in
  _ ← update_automation (record_check state revision now);
  n ← update_checks (check_running id)
        (fun c => c <| c_Status := outcome |> <| c_FinishedAt := Some (unix now) |> <| c_Summary := summary |>);
  _ ← tx_guard (negb (n =? 1)) (ErrText "controllo non piu in corso");
  _ ← activateRetentionAfterCheck;
  cleanupMonitoringChecks (unix (now - monitoringCheckRetention)).

Definition FailMonitoringCheck (id : Z) (summary : string) (now : Z) : tx unit :=
  let summary := if is_blank summary then "controllo interrotto"%string else summary in
  let summary := if 8192 <? len summary then of_bytes (take 8192 (bytes summary)) else summary in
  _ ← update_checks (check_running id)
        (fun c => c <| c_Status := CheckFailed |> <| c_FinishedAt := Some (unix now) |> <| c_Summary := summary |>);
  mret tt.

(** ** Queries *)
Definition scopes_of (id : Z) (d : db) : list check_model :=
  sort_by (fun a b => String.ltb (cm_KeyID a) (cm_KeyID b) || (String.eqb (cm_KeyID a) (cm_KeyID b) && scope_before a b))
    (List.filter (fun cm => cm_CheckID cm =? id) (d_check_models d)).
Definition MonitoringChecks (limit : Z) (d : db) : result err (list (check * list check_model)) :=
  if (limit <? 1) || (1000 <? limit) then Err (ErrText "limite controlli non valido")
  else Ok (map (fun c => (c, scopes_of (c_ID c) d)) (take (Z.to_nat limit) (rev (d_checks d)))).

(** ** Frames *)
Lemma frame_insert_check n : frame (insert_check n).
Proof. by intros d x d' [= _ <-]. Qed.
Lemma frame_StartMonitoringCheck n : frame (StartMonitoringCheck n).
Proof. unfold StartMonitoringCheck. pose proof frame_insert_check. frame. Qed.
Lemma frame_insert_scope cm : frame (insert_scope cm).
Proof. intros d x d' Hr. unfold insert_scope in Hr. destruct (_ || _); [done|by injection Hr as _ <-]. Qed.
Lemma frame_iter {A} (f : A -> tx unit) l : (forall x, frame (f x)) -> frame (tx_iter f l).
Proof. intros Hf. induction l as [|x l IH]; cbn; [apply frame_ret|]. by apply frame_bind. Qed.
Lemma frame_plan_keys id r e d keys : frame (plan_keys id r e d keys).
Proof.
  induction keys as [|k keys IH]; cbn [plan_keys]; [apply frame_ret|].
  frame. apply frame_iter, frame_insert_scope.
Qed.
Lemma frame_PlanMonitoringCheck id n : frame (PlanMonitoringCheck id n).
Proof. unfold PlanMonitoringCheck. pose proof frame_plan_keys. frame. Qed.
Lemma frame_cleanup c : frame (cleanupMonitoringChecks c).
Proof. by intros d x d' [= _ <-]. Qed.
Lemma frame_record_findings fs n : frame (record_findings fs n).
Proof. unfold record_findings. apply frame_iter. intros f. frame. Qed.
Lemma frame_CompleteMonitoringCheck id o s st r fs n : frame (CompleteMonitoringCheck id o s st r fs n).
Proof. unfold CompleteMonitoringCheck. pose proof frame_record_findings. pose proof frame_cleanup. frame. Qed.
Lemma frame_FailMonitoringCheck id s n : frame (FailMonitoringCheck id s n).
Proof. unfold FailMonitoringCheck. frame. Qed.
End platform.
#[export] Hint Resolve frame_StartMonitoringCheck frame_PlanMonitoringCheck frame_CompleteMonitoringCheck
  frame_FailMonitoringCheck : frame.
