(* ===== verification/Mail.v ===== *)
(** The mail queue and the learned models
    ([src/internal/store/retention.go], [QueueReport] to [LoadModels]). *)
From S2P Require Import Prelude GoTime GoFloat GoString Model Policy Schedule Catalog Anomalies Automation.

Definition QueueReport (stableID subject body : string) (now : Z) : tx unit :=
  insert_mail_or_ignore stableID "report" subject body (unix now).
Definition QueuePeriodicReport (stableID subject body : string) (now : Z) : tx unit :=
  _ ← insert_mail_or_ignore stableID "report" subject body (unix now);
  update_automation (fun a => a <| au_NextReportAt := three_days_after now |>).

Definition mail_due (now : Z) (m : mail_message) : bool := (m_SentAt m =? 0) && (m_NextAttempt m <=? unix now).
Definition DueMail (now limit : Z) (d : db) : result err (list mail_message) :=
  if (limit <? 1) || (100 <? limit) then Err (ErrText "limite coda mail non valido")
  else Ok (take (Z.to_nat limit) (List.filter (mail_due now) (d_mail d))).

Definition mail_is (id : Z) (m : mail_message) : bool := m_ID m =? id.
(** [time.Minute << min(attempts, 8)] *)
Definition mail_delay (attempts : Z) : Z := Z.shiftl Minute (Z.min attempts 8).

Definition ConfirmMail (id : Z) (sendErr : string) (configVersion now : Z) : tx unit :=
  mail ← tx_gets d_mail;
  m ← query_row (find_where (mail_is id) mail);
  if negb (m_SentAt m =? 0) then mret tt
  else if String.eqb sendErr "" then
    _ ← update_mail (fun m => mail_is id m && (m_SentAt m =? 0)) (fun m => m <| m_SentAt := unix now |> <| m_LastError := "" |>);
    if (0 <? configVersion) && has_prefix "mail-test:" (m_StableID m) then
      update_automation (fun a => if au_MailConfigVersion a =? configVersion then mail_proven now a else a)
    else mret tt
  else
    _ ← update_mail (fun m => mail_is id m && (m_SentAt m =? 0))
          (fun x => x <| m_Attempts := m_Attempts x + 1 |> <| m_NextAttempt := unix (now + mail_delay (m_Attempts m)) |>
                      <| m_LastError := sendErr |>);
    mret tt.

(** ** Models *)
Definition SaveModel `{Platform} (keyID : string) (revision : Z) (timezone : string) (retentionDays : Z) (value : string)
    (reliable review : bool) (now : Z) : tx unit :=
  text ← tx_lift (json_compact value);
  let row := MonitoringModel keyID revision (unix now) timezone retentionDays text reliable review in
  d ← tx_get;
  _ ← tx_guard ((retentionDays <? 7) || negb (exists_where (key_id_is keyID) (d_keys d))) (ErrConstraint "monitoring_models");
  let same m := String.eqb (mm_KeyID m) keyID && (mm_Revision m =? revision) in
  tx_modify (fun d =>
    if exists_where same (d_models d) then d <| d_models ::= update_where same (fun _ => row) |>
    else d <| d_models ::= (fun t => t ++ [row]) |>).

Definition LoadModels (d : db) : list (string * string) :=
  map (fun m => (mm_KeyID m, mm_JSON m))
    (List.filter (fun m => mm_Reliable m && negb (mm_ReviewRequired m) &&
                           (mm_Revision m =? au_ModelRevision (d_automation d))) (d_models d)).

(** ** Frames *)
Lemma frame_QueueReport s u b n : frame (QueueReport s u b n).
Proof. unfold QueueReport. frame. Qed.
Lemma frame_QueuePeriodicReport s u b n : frame (QueuePeriodicReport s u b n).
Proof. unfold QueuePeriodicReport. frame. Qed.
Lemma frame_ConfirmMail i e c n : frame (ConfirmMail i e c n).
Proof. unfold ConfirmMail. frame. Qed.
Lemma frame_SaveModel `{Platform} k r z t v a b n : frame (SaveModel k r z t v a b n).
Proof.
  unfold SaveModel. frame. intros d x d' [= _ <-]. by destruct (exists_where _ _).
Qed.
#[export] Hint Resolve frame_QueueReport frame_QueuePeriodicReport frame_ConfirmMail frame_SaveModel : frame.
