(* ===== verification/Store.v ===== *)
(** The store as a whole: every call of it, histories of calls, their
    refinement of the retention machine, and what follows for the archive. *)
From S2P Require Import Prelude GoTime GoFloat GoString Model Policy Schedule Catalog Anomalies Automation Retention.
From S2P Require Import RetentionMachine Deposit Checks Mail.

(** ** Runs that only read *)
Section runs.
Context `{Platform}.

Lemma blocked_guard_ok d u d' : blocked_guard d = Ok (u, d') -> blocked (d_automation d) = false /\ d' = d.
Proof. unfold blocked_guard. intros Hr. tx_step Hr. tx_reads Hs. by apply guard_ok in Hr. Qed.

Lemma get_ok (d a d' : db) : tx_get (E:=err) d = Ok (a, d') -> a = d /\ d' = d.
Proof. by intros [= <- <-]. Qed.

Lemma lift_ok {A} (r : result err A) (d : db) a d' : tx_lift r d = Ok (a, d') -> r = Ok a /\ d' = d.
Proof. unfold tx_lift. destruct r; [|done]. by intros [= <- <-]. Qed.

Lemma checkRetentionMinimum_ok id now d u d' : checkRetentionMinimum id now d = Ok (u, d') ->
  d' = d /\ exists b, find_backup d id = Some b /\
    RetentionProtected LoadLocation b now (au_Timezone (d_automation d)) (retention_days d (b_KeyID b)) = (false, None).
Proof.
  unfold checkRetentionMinimum. intros Hr. tx_step Hr. apply get_ok in Hs as [-> ->].
  tx_step Hr. tx_reads Hs. destruct (RetentionProtected _ _ _ _ _) as [[] [e|]] eqn:E; try done.
  apply ret_ok in Hr as [_ ->]. split; [done|]. by exists r.
Qed.

Lemma validateMaintenanceLease_ok l now d u d' : validateMaintenanceLeaseTx l now d = Ok (u, d') ->
  d' = d /\ lease_holds l now d = true /\ 0 < l_Generation l /\ is_blank (l_Owner l) = false.
Proof.
  unfold validateMaintenanceLeaseTx. intros Hr. tx_run Hr. apply orb_false_iff in Hs as [Hs1 Hs2].
  apply negb_false_iff in Hr. split; [done|]. split; [done|]. split; [lia|done].
Qed.

Lemma destructive_checks_ok op now msg d u d' : destructive_checks op now msg d = Ok (u, d') ->
  d' = d /\ (blocked (d_automation d) = true -> destructive op = true -> canRetryReconciledOperation d op now = true) /\
  (destructive op = true -> exists b k, find_backup d (o_BackupID op) = Some b /\ find_key d (b_KeyID b) = Some k /\
     k_Revoked k = false /\
     RetentionProtected LoadLocation b now (au_Timezone (d_automation d)) (retention_days d (b_KeyID b)) = (false, None)).
Proof.
  unfold destructive_checks. intros Hr. tx_step Hr. apply get_ok in Hs as [-> ->]. tx_step Hr. tx_reads Hs.
  assert (blocked (d_automation d) = true -> destructive op = true -> canRetryReconciledOperation d op now = true) as Hb.
  { intros E1 E2. rewrite E1, E2 in Hs. by apply negb_false_iff in Hs. }
  destruct (destructive op); [|apply ret_ok in Hr as [_ ->]; done].
  tx_step Hr. apply checkRetentionMinimum_ok in Hs0 as (-> & b & Hb1 & Hp).
  apply bind_ok in Hr as ([b' k] & d1 & Hsel & Hr). apply select_backup_key_ok in Hsel as (Hb2 & Hk & ->).
  apply guard_ok in Hr as [Hrev ->]. split; [done|]. split; [done|]. intros _.
  rewrite Hb1 in Hb2. injection Hb2 as <-. by exists b, k.
Qed.

Lemma receiving_guard_ok op msg d u d' : receiving_guard op msg d = Ok (u, d') ->
  d' = d /\ (destructive op = true -> count_where (has_status BackupReceiving) (d_backups d) = 0).
Proof.
  unfold receiving_guard. intros Hr. tx_run Hr. split; [done|]. intros E. rewrite E in Hr. cbn in Hr.
  apply negb_false_iff, Z.eqb_eq in Hr. done.
Qed.

(** ** Statements that write *)
Lemma update_backups_ok p f d n d' : update_backups p f d = Ok (n, d') ->
  n = count_where p (d_backups d) /\ d' = d <| d_backups ::= update_where p f |>.
Proof. by intros [= <- <-]. Qed.
Lemma update_operations_ok p f d n d' : update_operations p f d = Ok (n, d') ->
  n = count_where p (d_operations d) /\ d' = d <| d_operations ::= update_where p f |>.
Proof. by intros [= <- <-]. Qed.
Lemma update_keys_ok p f d n d' : update_keys p f d = Ok (n, d') ->
  n = count_where p (d_keys d) /\ d' = d <| d_keys ::= update_where p f |>.
Proof. by intros [= <- <-]. Qed.

Lemma insert_operation_ok bid kind origin actor reason rev t d id d' :
  insert_operation bid kind origin actor reason rev t d = Ok (id, d') ->
  (exists b, In b (d_backups d) /\ b_ID b = bid) /\
  (forall o, In o (d_operations d) -> active_operation o = true -> o_BackupID o <> bid) /\
  id = d_operations_seq d + 1 /\
  core_of d' = Core (d_keys d) (d_backups d)
    (d_operations d ++ [Operation id bid kind OpRequested origin actor reason "" rev t 0 0 "" 0 false]) id.
Proof.
  unfold insert_operation. destruct (_ || _) eqn:E; [done|]. intros [= <- <-].
  apply orb_false_iff in E as [E1%negb_false_iff E2]. apply exists_where_in in E1 as (b & Hb & Hid).
  unfold backup_id_is in Hid. rewrite bool_decide_eq_true in Hid.
  split; [by exists b|]. split; [|done]. intros o Ho Ha Eo. rewrite exists_where_not in E2.
  specialize (E2 o Ho). rewrite Ha in E2. cbn in E2. by apply bool_decide_eq_false in E2.
Qed.

Lemma find_backup_in d id b : find_backup d id = Some b -> In b (d_backups d) /\ b_ID b = id.
Proof.
  intros [Hb Hid]%find_where_some. unfold backup_id_is in Hid. by rewrite bool_decide_eq_true in Hid.
Qed.
Lemma find_operation_in d id o : find_operation d id = Some o -> In o (d_operations d) /\ o_ID o = id.
Proof. intros [Ho Hid]%find_where_some. unfold operation_id_is in Hid. by apply Z.eqb_eq in Hid. Qed.
Lemma find_key_in d id k : find_key d id = Some k -> In k (d_keys d) /\ k_ID k = id.
Proof. intros [Hk Hid]%find_where_some. unfold key_id_is in Hid. by rewrite bool_decide_eq_true in Hid. Qed.

(** Two complete copies: another one besides the copy at hand. *)
Lemma another_copy (p : backup -> bool) l b : NoDup (map b_ID l) -> 1 < count_where p l -> In b l ->
  exists b', In b' l /\ b_ID b' <> b_ID b /\ p b' = true.
Proof.
  intros Hnd Hc Hb. pose proof (NoDup_map_in b_ID l) as Hinj.
  assert (exists b', In b' l /\ p b' = true /\ b' <> b) as (b' & Hb' & Hp & Hne).
  { clear Hinj. induction l as [|x l IH]; [done|]. rewrite count_where_cons in Hc. cbn in Hnd.
    apply NoDup_cons in Hnd as [Hn Hnd]. destruct Hb as [->|Hb].
    - assert (0 < count_where p l) as (y & Hy & Hpy)%count_where_pos by (destruct (p b); lia).
      exists y. split; [by right|]. split; [done|]. intros ->. apply Hn, list_elem_of_In, in_map_iff. by exists b.
    - destruct (p x) eqn:E.
      + exists x. split; [by left|]. split; [done|]. intros ->. apply Hn, list_elem_of_In, in_map_iff. by exists b.
      + destruct (IH Hnd ltac:(lia) Hb) as (y & ? & ?). exists y. split; [by right|done]. }
  exists b'. split; [done|]. split; [|done]. intros E. apply Hne. by apply Hinj.
Qed.

Lemma select_backup_key_run id d bk d' : select_backup_key id d = Ok (bk, d') ->
  (find_backup d id = Some (fst bk) /\ find_key d (b_KeyID (fst bk)) = Some (snd bk)) /\ d' = d.
Proof. destruct bk as [b k]. intros (? & ? & ?)%select_backup_key_ok. done. Qed.
End runs.

(** One statement of a successful run whose effect is known. *)
Ltac store_reads H := first
  [ apply receiving_guard_ok in H as [-> H] | apply destructive_checks_ok in H as [-> H]
  | apply validateMaintenanceLease_ok in H as [-> H] | apply checkRetentionMinimum_ok in H as [-> H]
  | apply blocked_guard_ok in H as [H ->] | apply select_backup_key_run in H as [H ->]
  | apply update_backups_ok in H as [-> ->] | apply update_operations_ok in H as [-> ->]
  | apply update_keys_ok in H as [-> ->] | apply get_ok in H as [-> ->] | apply lift_ok in H as [H ->]
  | tx_reads H ].
Tactic Notation "store_step" hyp(H) "as" ident(H1) :=
  let a := fresh "r" in let d := fresh "d" in
  apply bind_ok in H as (a & d & H1 & H); cbn beta iota zeta in H; try store_reads H1.
Tactic Notation "store_get" hyp(H) "as" ident(x) ident(H1) :=
  let d := fresh "d" in
  apply bind_ok in H as (x & d & H1 & H); cbn beta iota zeta in H; try store_reads H1.
Tactic Notation "pair_row" ident(b) ident(k) :=
  match goal with r : (backup * key)%type |- _ => destruct r as [b k]; cbn [fst snd] in * end.
Tactic Notation "store_skip" hyp(H) := let H1 := fresh "Hread" in store_step H as H1; try clear H1.

(** ** Runs of the retention operations *)
Section operations.
Context `{Platform}.

Definition not_protected (d : db) (b : backup) (now : Z) : Prop :=
  RetentionProtected LoadLocation b now (au_Timezone (d_automation d)) (retention_days d (b_KeyID b)) = (false, None).

Lemma RequestQuarantine_inv id origin actor reason now d op d' :
  RequestQuarantine id origin actor reason now d = Ok (op, d') ->
  exists b k loc, LoadLocation (au_Timezone (d_automation d)) = Ok loc /\ find_backup d id = Some b /\
    find_key d (b_KeyID b) = Some k /\ k_Revoked k = false /\ blocked (d_automation d) = false /\
    b_Status b = BackupComplete /\ acknowledged_missing d id = false /\
    local_date loc (backup_time b) <> local_date loc now /\ 1 < complete_copies (b_KeyID b) d /\ not_protected d b now /\
    (forall o, In o (d_operations d) -> active_operation o = true -> o_BackupID o <> id) /\
    op = requested (d_operations_seq d + 1) id OpQuarantine origin actor reason (model_revision d) now /\
    core_of d' = Core (d_keys d) (update_where (backup_is id BackupComplete) (hold_backup OpQuarantine) (d_backups d))
      (d_operations d ++ [op]) (d_operations_seq d + 1).
Proof.
  unfold RequestQuarantine. intros Hr. store_skip Hr. store_step Hr as Hblocked. store_skip Hr. store_skip Hr.
  store_step Hr as Hloc. destruct (LoadLocation _) as [loc|] eqn:El; [|done]. injection Hloc as <-.
  store_step Hr as Hsel. destruct Hsel as [Hb Hk]. store_step Hr as Hrev. store_step Hr as Hst. store_skip Hr.
  store_step Hr as Hmiss. store_step Hr as Hday. store_skip Hr. store_step Hr as Hcopies. store_step Hr as Hmin.
  store_skip Hr. store_step Hr as Hn.
  store_step Hr as Hins. apply insert_operation_ok in Hins as (_ & Hfree & -> & Hcore). apply ret_ok in Hr as [-> ->].
  pair_row b k. exists b, k, loc. destruct Hmin as (b' & Hb' & Hprot).
  rewrite Hb in Hb'. injection Hb' as <-. apply negb_false_iff, has_status_iff in Hst.
  apply bool_decide_eq_false in Hday. apply Z.leb_gt in Hcopies. repeat (split; [done|]). done.
Qed.

Lemma RequestPurge_inv id origin actor reason now d op d' :
  RequestPurge id origin actor reason now d = Ok (op, d') ->
  exists b k, find_backup d id = Some b /\ find_key d (b_KeyID b) = Some k /\ k_Revoked k = false /\
    blocked (d_automation d) = false /\ b_Status b = BackupQuarantined /\ acknowledged_missing d id = false /\
    not_protected d b now /\ b_PurgeNotBefore b <> 0 /\ b_PurgeNotBefore b <= unix now /\
    1 < stable_copies (b_KeyID b) d /\
    (forall o, In o (d_operations d) -> active_operation o = true -> o_BackupID o <> id) /\
    op = requested (d_operations_seq d + 1) id OpPurge origin actor reason (model_revision d) now /\
    core_of d' = Core (d_keys d) (update_where (backup_is id BackupQuarantined) (hold_backup OpPurge) (d_backups d))
      (d_operations d ++ [op]) (d_operations_seq d + 1).
Proof.
  unfold RequestPurge. intros Hr. store_skip Hr. store_step Hr as Hblocked. store_skip Hr.
  store_step Hr as Hsel. destruct Hsel as [Hb Hk]. store_step Hr as Hrev. store_step Hr as Hst. store_skip Hr.
  store_step Hr as Hmiss. store_step Hr as Hmin. store_step Hr as Hterm. store_skip Hr. store_step Hr as Hcopies.
  store_skip Hr. store_step Hr as Hn.
  store_step Hr as Hins. apply insert_operation_ok in Hins as (_ & Hfree & -> & Hcore). apply ret_ok in Hr as [-> ->].
  pair_row b k. exists b, k. destruct Hmin as (b' & Hb' & Hprot).
  rewrite Hb in Hb'. injection Hb' as <-. apply negb_false_iff, has_status_iff in Hst.
  apply orb_false_iff in Hterm as [Ht1%Z.eqb_neq Ht2%Z.ltb_ge]. apply Z.leb_gt in Hcopies. repeat (split; [done|]). done.
Qed.

Lemma RequestRecovery_inv id actor reason now d op d' :
  RequestRecovery id actor reason now d = Ok (op, d') ->
  exists b, find_backup d id = Some b /\ b_Status b = BackupQuarantined /\
    (forall o, In o (d_operations d) -> active_operation o = true -> o_BackupID o <> id) /\
    op = requested (d_operations_seq d + 1) id OpRecover "manual" actor reason (model_revision d) now /\
    core_of d' = Core (d_keys d) (d_backups d) (d_operations d ++ [op]) (d_operations_seq d + 1).
Proof.
  unfold RequestRecovery. intros Hr. store_skip Hr. store_step Hr as Hb. store_step Hr as Hst. store_skip Hr.
  store_step Hr as Hins. apply insert_operation_ok in Hins as (_ & Hfree & -> & Hcore). apply ret_ok in Hr as [-> ->].
  apply negb_false_iff, has_status_iff in Hst. exists r0. repeat (split; [done|]). done.
Qed.

Lemma resolve_automation id now fin d x d' : resolveMaintenanceOperation id now fin d = Ok (x, d') ->
  d_automation d' = d_automation d.
Proof.
  unfold resolveMaintenanceOperation. intros Hr. apply bind_ok in Hr as (n & d1 & Hu & Hr). injection Hu as <- <-.
  destruct (_ =? 0); [by apply ret_ok in Hr as [_ ->]|]. apply bind_ok in Hr as (y & d2 & Hm & Hr).
  apply ret_ok in Hr as [_ ->]. unfold insert_mail in Hm. destruct (mail_queued _ _); [done|]. by injection Hm as _ <-.
Qed.

(** What a destructive permission requires of the archive. *)
Definition destructive_allowed (d : db) (op : operation) (now : Z) : Prop :=
  destructive op = true ->
  (blocked (d_automation d) = false \/ canRetryReconciledOperation d op now = true) /\
  count_where (has_status BackupReceiving) (d_backups d) = 0 /\
  exists b k, find_backup d (o_BackupID op) = Some b /\ find_key d (b_KeyID b) = Some k /\ k_Revoked k = false /\
    not_protected d b now.

Lemma destructive_allowed_intro d op now :
  (blocked (d_automation d) = true -> destructive op = true -> canRetryReconciledOperation d op now = true) ->
  (destructive op = true -> exists b k, find_backup d (o_BackupID op) = Some b /\ find_key d (b_KeyID b) = Some k /\
     k_Revoked k = false /\ not_protected d b now) ->
  (destructive op = true -> count_where (has_status BackupReceiving) (d_backups d) = 0) -> destructive_allowed d op now.
Proof.
  intros H1 H2 H3 Hd. split; [|split; [by apply H3|by apply H2]].
  destruct (blocked (d_automation d)); [right; by apply H1|by left].
Qed.

Definition authorize (ticket : string) (l : lease) (now : Z) (o : operation) : operation :=
  o <| o_State := OpAuthorized |> <| o_TicketHash := sha256_hex ticket |> <| o_AuthorizedAt := unix now |>
    <| o_LeaseGeneration := l_Generation l |>.
Definition reissue (ticket : string) (l : lease) (o : operation) : operation :=
  o <| o_TicketHash := sha256_hex ticket |> <| o_LeaseGeneration := l_Generation l |>.

Lemma operation_selected d op (q : operation -> bool) : NoDup (map o_ID (d_operations d)) -> In op (d_operations d) ->
  count_where (fun o => operation_id_is (o_ID op) o && q o) (d_operations d) <> 0 -> q op = true.
Proof.
  intros Hnd Hop Hn. pose proof (count_where_nonneg (fun o => operation_id_is (o_ID op) o && q o) (d_operations d)).
  assert (0 < count_where (fun o => operation_id_is (o_ID op) o && q o) (d_operations d)) as (x & Hx & Hp)%count_where_pos by lia.
  apply andb_true_iff in Hp as [Hid Hq]. unfold operation_id_is in Hid. apply Z.eqb_eq in Hid.
  by rewrite <- (NoDup_map_in o_ID _ x op Hnd Hx Hop Hid).
Qed.

Lemma AuthorizeOperation_inv id l ticket now d r d' : NoDup (map o_ID (d_operations d)) ->
  AuthorizeOperation id l ticket now d = Ok (r, d') ->
  exists op, find_operation d id = Some op /\ lease_holds l now d = true /\
   (snd r = ticket /\ o_ID (fst r) = o_ID op /\ o_BackupID (fst r) = o_BackupID op /\ o_Kind (fst r) = o_Kind op /\
    o_ExecutionCommitted (fst r) = o_ExecutionCommitted op) /\
   ((o_State op = OpAuthorized /\ o_ExecutionCommitted op = true /\ o_TicketHash op = ""%string /\
     core_of d' = Core (d_keys d) (d_backups d)
       (update_where (fun o => operation_id_is (o_ID op) o && has_state OpAuthorized o && o_ExecutionCommitted o &&
                               String.eqb (o_TicketHash o) "") (reissue ticket l) (d_operations d)) (d_operations_seq d)) \/
    (o_State op = OpRequested /\ o_Revision op = model_revision d /\ destructive_allowed d op now /\
     (o_Kind op = OpPurge -> exists b, find_backup d (o_BackupID op) = Some b /\ 1 <= stable_copies (b_KeyID b) d) /\
     core_of d' = Core (d_keys d) (d_backups d)
       (update_where (fun o => operation_id_is id o && has_state OpRequested o) (authorize ticket l now) (d_operations d))
       (d_operations_seq d))).
Proof.
  intros Hnd. unfold AuthorizeOperation. intros Hr. store_step Hr as Hlease. store_skip Hr. store_get Hr as op Hop.
  exists op. split; [done|]. split; [apply Hlease|]. destruct (find_operation_in _ _ _ Hop) as [Hin Hid].
  destruct (negb (has_state OpRequested op) || _) eqn:E.
  - store_step Hr as Hst. store_get Hr as n Hw. store_step Hr as Hn. apply ret_ok in Hr as [-> ->].
    split; [done|]. left. apply orb_false_iff in Hst as [Hst%negb_false_iff Hc%negb_false_iff].
    unfold has_state in Hst. rewrite bool_decide_eq_true in Hst. split; [done|]. split; [done|]. split; [|done].
    rewrite (count_where_ext _ (fun o => operation_id_is (o_ID op) o &&
      (has_state OpAuthorized o && o_ExecutionCommitted o && String.eqb (o_TicketHash o) ""))) in Hn
      by (intros; by rewrite !andb_assoc).
    apply operation_selected in Hn; [|done..]. rewrite !andb_true_iff in Hn. apply String.eqb_eq, Hn.
  - apply orb_false_iff in E as [Hst%negb_false_iff Hrev%negb_false_iff%Z.eqb_eq].
    unfold has_state in Hst. rewrite bool_decide_eq_true in Hst.
    store_step Hr as Hchk. store_skip Hr. store_step Hr as Hcopies. store_step Hr as Hrec. store_skip Hr. store_skip Hr.
    apply ret_ok in Hr as [-> ->]. split; [done|]. right. split; [done|]. split; [done|].
    split; [apply destructive_allowed_intro; [apply (proj1 Hchk)|apply (proj2 Hchk)|exact Hrec]|]. split; [|done].
    intros Hk. unfold has_kind in Hcopies. rewrite Hk, bool_decide_true in Hcopies by done.
    destruct (find_backup d (o_BackupID op)) as [b|]; [|done]. exists b. split; [done|]. cbn in Hcopies. lia.
Qed.

Definition commit_execution (o : operation) : operation := o <| o_ExecutionCommitted := true |>.

Lemma ValidateOperation_inv id ticket l now d u d' : ValidateOperation id ticket l now d = Ok (u, d') ->
  exists op, find_operation d id = Some op /\ lease_holds l now d = true /\ o_State op = OpAuthorized /\
    ticket_matches op ticket l = true /\
    ((o_ExecutionCommitted op = true /\ d' = d) \/
     (o_ExecutionCommitted op = false /\ o_Revision op = model_revision d /\ destructive_allowed d op now /\
      core_of d' = Core (d_keys d) (d_backups d)
        (update_where (fun o => operation_id_is id o && has_state OpAuthorized o) commit_execution (d_operations d))
        (d_operations_seq d))).
Proof.
  unfold ValidateOperation. intros Hr. store_step Hr as Hlease. store_get Hr as op Hop. store_skip Hr.
  store_step Hr as Ht. apply orb_false_iff in Ht as [Hst%negb_false_iff Ht%negb_false_iff].
  unfold has_state in Hst. rewrite bool_decide_eq_true in Hst.
  exists op. split; [done|]. split; [apply Hlease|]. split; [done|]. split; [done|].
  destruct (o_ExecutionCommitted op) eqn:Ec; [apply ret_ok in Hr as [_ ->]; by left|right]. split; [done|].
  store_step Hr as Hrev. apply orb_false_iff in Hrev as [Hrev%negb_false_iff%Z.eqb_eq _]. split; [done|].
  store_step Hr as Hchk. store_step Hr as Hrec. store_skip Hr. apply changed_ok in Hr as [_ ->].
  split; [apply destructive_allowed_intro; [apply (proj1 Hchk)|apply (proj2 Hchk)|exact Hrec]|done].
Qed.

Lemma complete_transition_ok msg kind bid now d n d' : complete_transition msg kind bid now d = Ok (n, d') ->
  kind <> OpCancel /\ n = count_where (backup_is bid (pending_status kind)) (d_backups d) /\
  d' = d <| d_backups ::= update_where (backup_is bid (pending_status kind)) (finish_backup kind now) |>.
Proof. destruct kind; cbn; [intros [= <- <-]; done..|done]. Qed.

Definition confirm (now : Z) (error : string) (o : operation) : operation :=
  o <| o_State := OpConfirmed |> <| o_CompletedAt := unix now |> <| o_Error := error |>.

(** The core after the physical result of [op] is recorded. *)
Definition finished_core (d : db) (op : operation) (now : Z) (error : string) : core :=
  Core (d_keys d)
    (update_where (backup_is (o_BackupID op) (pending_status (o_Kind op))) (finish_backup (o_Kind op) now) (d_backups d))
    (update_where (fun o => operation_id_is (o_ID op) o && has_state OpAuthorized o) (confirm now error) (d_operations d))
    (d_operations_seq d).

Lemma ConfirmOperation_inv id ticket done_ detail l now d u d' :
  ConfirmOperation id ticket done_ detail l now d = Ok (u, d') ->
  exists op, find_operation d id = Some op /\ lease_holds l now d = true /\ ticket_matches op ticket l = true /\
    ((o_State op = OpConfirmed /\ done_ = true /\ d' = d) \/
     (o_State op = OpAuthorized /\ done_ = false /\ exists error,
        core_of d' = Core (d_keys d) (d_backups d)
          (update_where (operation_id_is (o_ID op)) (fun o => o <| o_Error := error |>) (d_operations d)) (d_operations_seq d)) \/
     (o_State op = OpAuthorized /\ done_ = true /\ o_Kind op <> OpCancel /\
      count_where (backup_is (o_BackupID op) (pending_status (o_Kind op))) (d_backups d) = 1 /\
      core_of d' = finished_core d op now "")).
Proof.
  unfold ConfirmOperation. intros Hr. store_step Hr as Hlease. store_get Hr as op Hop.
  exists op. split; [done|]. split; [apply Hlease|]. destruct (has_state OpConfirmed op && done_) eqn:E.
  - apply guard_ok in Hr as [Ht%negb_false_iff ->]. split; [done|]. left.
    apply andb_true_iff in E as [E ->]. unfold has_state in E. by rewrite bool_decide_eq_true in E.
  - store_step Hr as Ht. apply orb_false_iff in Ht as [Hst%negb_false_iff Ht%negb_false_iff].
    unfold has_state in Hst. rewrite bool_decide_eq_true in Hst. split; [done|]. right. destruct done_; cbn [negb] in Hr.
    + right. apply bind_ok in Hr as (n & d1 & Hc & Hr). apply complete_transition_ok in Hc as (Hk & -> & ->).
      store_step Hr as Hn. apply negb_false_iff, Z.eqb_eq in Hn. store_skip Hr. store_skip Hr.
      apply bind_ok in Hr as (x & d2 & Hres & Hr). apply ret_ok in Hr as [_ ->].
      apply frame_resolveMaintenanceOperation in Hres. repeat (split; [done|]). done.
    + left. split; [done|]. split; [done|]. store_skip Hr. apply bind_ok in Hr as (x & d1 & Href & Hr).
      apply frame_openAnomaly in Hr. assert (frame (refresh_hold op ("errore operazione di manutenzione: " ++ detail))) as Hf.
      { unfold refresh_hold. frame. }
      apply Hf in Href. eexists. rewrite Hr, Href. reflexivity.
Qed.

(** Without an open incident, nothing stands in the way of a confirmation. *)
Lemma resolve_nothing id now fin d :
  (forall a, In a (d_anomalies d) -> open_anomaly a = true ->
     stable_key_is (operation_key id) a = false /\ stable_key_is (uncertain_key id) a = false) ->
  resolveMaintenanceOperation id now fin d = Ok (false, d).
Proof.
  intros Hnone. unfold resolveMaintenanceOperation, update_anomalies, mbind, tx_bind.
  set (p := fun a => _ && _). assert (forall a, In a (d_anomalies d) -> p a = false) as Hp.
  { intros a Ha. subst p. cbn beta. destruct (open_anomaly a) eqn:Ho; [|apply andb_false_r].
    destruct (Hnone a Ha Ho) as [E1 E2]. destruct fin; rewrite ?E1, ?E2; done. }
  assert (count_where p (d_anomalies d) = 0) as ->.
  { pose proof (count_where_nonneg p (d_anomalies d)). destruct (Z.eq_dec (count_where p (d_anomalies d)) 0) as [?|Hne]; [done|].
    assert (0 < count_where p (d_anomalies d)) as (x & Hx & Hpx)%count_where_pos by lia. by rewrite (Hp x Hx) in Hpx. }
  cbn [Z.eqb]. unfold mret, tx_ret. do 2 f_equal. unfold set_with. rewrite update_where_id; [by destruct d|].
  intros x Hx E. by rewrite (Hp x Hx) in E.
Qed.

Lemma complete_transition_run msg kind bid now d : kind <> OpCancel ->
  complete_transition msg kind bid now d =
    Ok (count_where (backup_is bid (pending_status kind)) (d_backups d),
        d <| d_backups ::= update_where (backup_is bid (pending_status kind)) (finish_backup kind now) |>).
Proof. by destruct kind. Qed.

Lemma ConfirmOperation_runs o ticket detail l now d : find_operation d (o_ID o) = Some o -> o_State o = OpAuthorized ->
  ticket_matches o ticket l = true -> is_blank (l_Owner l) = false -> 0 < l_Generation l -> lease_holds l now d = true ->
  o_Kind o <> OpCancel -> count_where (backup_is (o_BackupID o) (pending_status (o_Kind o))) (d_backups d) = 1 ->
  count_where (fun x => operation_id_is (o_ID o) x && has_state OpAuthorized x) (d_operations d) = 1 ->
  (forall a, In a (d_anomalies d) -> open_anomaly a = true ->
     stable_key_is (operation_key (o_ID o)) a = false /\ stable_key_is (uncertain_key (o_ID o)) a = false) ->
  exists d', ConfirmOperation (o_ID o) ticket true detail l now d = Ok (tt, d').
Proof.
  intros Hop Hst Ht Hblank Hgen Hlease Hk Hb Ho Hnone.
  unfold ConfirmOperation, validateMaintenanceLeaseTx, mbind, tx_bind, tx_guard, tx_gets, select_operation.
  rewrite Hblank, (proj2 (Z.leb_gt _ _) Hgen). cbn [orb negb]. unfold mret, tx_ret. rewrite Hlease. cbn [negb]. rewrite Hop. cbn [query_row]. unfold mret, tx_ret.
  unfold has_state at 1 2. rewrite Hst, Ht. rewrite bool_decide_false, bool_decide_true by done. cbn [andb orb negb].
  rewrite complete_transition_run, Hb by done. cbn [Z.eqb Pos.eqb negb]. unfold update_operations. cbn [d_operations set_with].
  rewrite Ho. cbn [Z.eqb Pos.eqb negb]. rewrite resolve_nothing; [by eexists|]. exact Hnone.
Qed.

Lemma ReconcileAuthorized_inv id now d u d' : ReconcileAuthorized id now d = Ok (u, d') ->
  exists op, find_operation d id = Some op /\ o_State op = OpAuthorized /\ o_Kind op <> OpCancel /\
    count_where (backup_is (o_BackupID op) (pending_status (o_Kind op))) (d_backups d) = 1 /\
    core_of d' = finished_core d op now "riconciliata dopo riavvio".
Proof.
  unfold ReconcileAuthorized. intros Hr. store_get Hr as op Hop. store_step Hr as Hst.
  apply negb_false_iff in Hst. unfold has_state in Hst. rewrite bool_decide_eq_true in Hst.
  apply bind_ok in Hr as (n & d1 & Hc & Hr). apply complete_transition_ok in Hc as (Hk & -> & ->).
  store_step Hr as Hn. apply negb_false_iff, Z.eqb_eq in Hn. store_skip Hr. store_skip Hr.
  apply bind_ok in Hr as (x & d2 & Hres & Hr). apply ret_ok in Hr as [_ ->].
  apply frame_resolveMaintenanceOperation in Hres. exists op. destruct (find_operation_in _ _ _ Hop) as [_ Hid].
  repeat (split; [done|]). rewrite Hres. unfold finished_core. by rewrite Hid.
Qed.

Lemma ResetAuthorized_inv id now d u d' : ResetAuthorized id now d = Ok (u, d') ->
  exists op, find_operation d id = Some op /\ o_State op = OpAuthorized /\
    ((o_ExecutionCommitted op = true /\ core_of d' = Core (d_keys d) (d_backups d)
        (update_where (fun o => operation_id_is id o && has_state OpAuthorized o && o_ExecutionCommitted o)
           (fun o => o <| o_TicketHash := "" |> <| o_LeaseGeneration := 0 |>) (d_operations d)) (d_operations_seq d)) \/
     (o_ExecutionCommitted op = false /\ (o_Kind op = OpQuarantine \/ o_Kind op = OpPurge) /\ core_of d' = Core (d_keys d)
        (update_where (backup_is (o_BackupID op) (pending_status (o_Kind op))) (restore_backup (o_Kind op)) (d_backups d))
        (update_where (fun o => operation_id_is id o && has_state OpAuthorized o) (cancel_operation now revoked_error) (d_operations d))
        (d_operations_seq d)) \/
     (o_ExecutionCommitted op = false /\ core_of d' = Core (d_keys d) (d_backups d)
        (update_where (fun o => operation_id_is id o && has_state OpAuthorized o)
           (fun o => o <| o_State := OpRequested |> <| o_TicketHash := "" |> <| o_LeaseGeneration := 0 |>
                       <| o_AuthorizedAt := 0 |> <| o_Error := reconciledSourceIntact |>) (d_operations d)) (d_operations_seq d))).
Proof.
  unfold ResetAuthorized. intros Hr. store_get Hr as op Hop. store_skip Hr. store_step Hr as Hst.
  apply negb_false_iff in Hst. unfold has_state in Hst. rewrite bool_decide_eq_true in Hst.
  exists op. split; [done|]. split; [done|].
  destruct (o_ExecutionCommitted op) eqn:Ec.
  - left. split; [done|]. store_skip Hr. store_skip Hr. apply bind_ok in Hr as (x & d2 & Hres & Hr).
    apply ret_ok in Hr as [_ ->]. by apply frame_resolveMaintenanceOperation in Hres.
  - right. destruct (k_Revoked _ && _) eqn:E.
    + left. split; [done|]. apply andb_true_iff in E as [_ E]. unfold has_kind in E.
      rewrite orb_true_iff, !bool_decide_eq_true in E. split; [done|].
      store_skip Hr. store_skip Hr. store_skip Hr. store_skip Hr. apply bind_ok in Hr as (x & d2 & Hres & Hr).
      apply ret_ok in Hr as [_ ->]. by apply frame_resolveMaintenanceOperation in Hres.
    + right. split; [done|]. store_skip Hr. store_skip Hr. apply bind_ok in Hr as (x & d2 & Hres & Hr).
      apply ret_ok in Hr as [_ ->]. by apply frame_resolveMaintenanceOperation in Hres.
Qed.

Definition cancellable (backupID : string) (o : operation) : bool :=
  bool_decide (o_BackupID o = backupID) && has_kind OpQuarantine o && has_state OpRequested o.

Lemma CancelQuarantineRequest_inv bid actor now d u d' : CancelQuarantineRequest bid actor now d = Ok (u, d') ->
  exists op, In op (d_operations d) /\ cancellable bid op = true /\ core_of d' = Core (d_keys d)
    (update_where (backup_is bid BackupDeleting) (fun b => b <| b_Status := BackupComplete |>) (d_backups d))
    (update_where (cancellable bid) (fun o => o <| o_State := OpCancelled |> <| o_CompletedAt := unix now |>
        <| o_Error := ("annullata da " ++ actor)%string |>) (d_operations d)) (d_operations_seq d) /\
  blocked (d_automation d') = true.
Proof.
  unfold CancelQuarantineRequest. fold (cancellable bid). intros Hr. store_get Hr as found Hfound.
  destruct (find_where (cancellable bid) (d_operations d)) as [op|] eqn:Ef; [|done].
  apply find_where_some in Ef as [Hin Hc]. exists op. split; [done|]. split; [done|].
  store_skip Hr. store_skip Hr. store_skip Hr. store_skip Hr.
  apply bind_ok in Hr as (x & d1 & Hau & Hr). injection Hau as _ <-.
  apply bind_ok in Hr as (y & d2 & Hres & Hr). apply ret_ok in Hr as [_ ->].
  pose proof (frame_resolveMaintenanceOperation _ _ _ _ _ _ Hres) as Hcore. split; [done|].
  apply resolve_automation in Hres. rewrite Hres. done.
Qed.
End operations.

(** ** Runs of revocations and deposits *)
Section deposits.
Context `{Platform}.

Lemma frame_resolve_all l now : frame (tx_iter (fun id => _ ← resolveMaintenanceOperation id now true; mret tt) l).
Proof. apply frame_iter. intros id. frame. Qed.

Lemma Revoke_inv id now d u d' : Revoke id now d = Ok (u, d') ->
  exists_where (key_id_is id) (d_keys d) = true /\
  core_of d' = Core (update_where (key_id_is id) (fun k => k <| k_Revoked := true |>) (d_keys d))
    (update_where (revoke_restores id (core_of d) OpPurge) (fun b => b <| b_Status := BackupQuarantined |>)
      (update_where (revoke_restores id (core_of d) OpQuarantine) (fun b => b <| b_Status := BackupComplete |>) (d_backups d)))
    (update_where (revoke_cancels id (core_of d)) (cancel_operation now revoked_error) (d_operations d)) (d_operations_seq d).
Proof.
  unfold Revoke. intros Hr. store_skip Hr. store_step Hr as Hn.
  assert (exists_where (key_id_is id) (d_keys d) = true) as Hex.
  { apply exists_where_in, count_where_pos. pose proof (count_where_nonneg (key_id_is id) (d_keys d)). lia. }
  split; [done|]. store_skip Hr. store_skip Hr. store_skip Hr. store_skip Hr. store_skip Hr.
  apply frame_resolve_all in Hr. rewrite Hr. reflexivity.
Qed.

(** The constraints a new deposit meets. *)
Definition fresh_deposit (d : db) (b : backup) : Prop :=
  ~ In (b_ID b) (map b_ID (d_backups d)) /\ In (b_KeyID b) (map k_ID (d_keys d)) /\
  (forall x, In x (d_backups d) -> b_KeyID x = b_KeyID b -> b_IdempotencyKey x = b_IdempotencyKey b ->
     b_IdempotencyKey b = ""%string).

Lemma insert_backup_ok b d u d' : insert_backup b d = Ok (u, d') -> fresh_deposit d b /\
  core_of d' = Core (d_keys d) (d_backups d ++ [b]) (d_operations d) (d_operations_seq d).
Proof.
  unfold insert_backup. destruct (_ || _) eqn:E; [done|]. intros [= _ <-]. rewrite !orb_false_iff in E.
  destruct E as (((E1 & E2%negb_false_iff) & _) & E4). split; [split; [|split]|done].
  - intros (x & Hid & Hx)%in_map_iff. rewrite exists_where_not in E1. specialize (E1 x Hx).
    unfold backup_id_is in E1. by apply bool_decide_eq_false in E1.
  - apply exists_where_in in E2 as (k & Hk & Hid). unfold key_id_is in Hid. rewrite bool_decide_eq_true in Hid.
    apply in_map_iff. by exists k.
  - intros x Hx Hk Hi. apply andb_false_iff in E4 as [E4|E4].
    + by apply negb_false_iff, String.eqb_eq in E4.
    + rewrite exists_where_not in E4. specialize (E4 x Hx). by rewrite Hk, Hi, !String.eqb_refl in E4.
Qed.

Lemma key_of_token_some hash d k p : key_of_token hash d = Some (k, p) ->
  In k (d_keys d) /\ k_TokenHash k = hash /\ k_Revoked k = false /\ find_profile d (k_Profile k) = Some p.
Proof.
  unfold key_of_token. destruct (find_where _ (d_keys d)) as [k'|] eqn:E; [|done]. cbn.
  destruct (find_profile d (k_Profile k')) eqn:Ep; [|done]. intros [= <- <-].
  apply find_where_some in E as [Hk [E1%String.eqb_eq E2%negb_true_iff]%andb_true_iff]. done.
Qed.

Lemma idempotent_backup_some keyID ik d b : idempotent_backup keyID ik d = Some b ->
  In b (d_backups d) /\ b_KeyID b = keyID /\ b_IdempotencyKey b = ik.
Proof.
  intros [Hb [E1%String.eqb_eq E2%String.eqb_eq]%andb_true_iff]%find_where_some. done.
Qed.

Lemma check_idempotency_receipt e m size digest b : check_idempotency e m size digest = Ok (Receipt b) ->
  e = Some b /\ b_Status b = BackupComplete /\ b_Size b = size /\ b_SHA256 b = digest /\ b_Metadata b = m.
Proof.
  unfold check_idempotency. destruct e as [x|]; [|done]. destruct (_ || _) eqn:E; [done|].
  rewrite !orb_false_iff in E. destruct E as ((E1%negb_false_iff%Z.eqb_eq & E2%negb_false_iff%String.eqb_eq) & E3).
  apply bool_decide_eq_false in E3. apply dec_stable in E3. destruct (b_Status x) eqn:Est; try done. intros [= <-]. done.
Qed.
Lemma check_idempotency_resume e m size digest id : check_idempotency e m size digest = Ok (Resume id) ->
  exists b, e = Some b /\ b_ID b = id /\ b_Status b = BackupFailed /\ b_Size b = size /\ b_SHA256 b = digest /\ b_Metadata b = m.
Proof.
  unfold check_idempotency. destruct e as [x|]; [|done]. destruct (_ || _) eqn:E; [done|].
  rewrite !orb_false_iff in E. destruct E as ((E1%negb_false_iff%Z.eqb_eq & E2%negb_false_iff%String.eqb_eq) & E3).
  apply bool_decide_eq_false in E3. apply dec_stable in E3. destruct (b_Status x) eqn:Est; try done.
  intros [= <-]. by exists x.
Qed.

(** The limits in force when a deposit is admitted. *)
Definition within_limits (p : profile) (keyID : string) (size now : Z) (d : db) : Prop :=
  exists used, sum_sizes counts_for_quota (key_backups keyID d) = Ok used /\
    size <= MaxBackupBytes p /\ used + size <= TotalBytes p /\
    count_where (has_status BackupReceiving) (key_backups keyID d) < Concurrent p /\
    attempts_since keyID (day_before now) d < UploadsPerDay p.

Lemma check_limits_ok p keyID size now d u d' : check_limits p keyID size now d = Ok (u, d') ->
  d' = d /\ within_limits p keyID size now d.
Proof.
  unfold check_limits. intros Hr. store_step Hr as H1. store_skip Hr. store_get Hr as used Hu.
  store_step Hr as H2. store_step Hr as H3. apply guard_ok in Hr as [H4 ->]. split; [done|].
  exists used. split; [done|]. apply orb_false_iff in H2 as [??]. lia.
Qed.

Lemma check_disk_ok check size d u d' : check_disk check size d = Ok (u, d') ->
  d' = d /\ forall f, check = Some f -> exists reserved, reserved_bytes d = Ok reserved /\ 0 <= reserved /\
    reserved + size <= max_int64 /\ f (reserved + size) = Ok tt.
Proof.
  unfold check_disk. destruct check as [f|]; [|intros [_ ->]%ret_ok; done].
  intros Hr. store_skip Hr. store_get Hr as n Hn. store_step Hr as Hg. apply lift_ok in Hr as [Hf ->].
  split; [done|]. intros g [= <-]. exists n. apply orb_false_iff in Hg as [??]. destruct u. repeat split; (done || lia).
Qed.

(** The deposit a reservation works on. *)
Definition reserved_core (d : db) (state : idempotency) (b : backup) : core :=
  match state with
  | Resume id => Core (d_keys d)
      (update_where (backup_is id BackupFailed)
         (fun x => x <| b_Status := BackupReceiving |> <| b_StartedAt := b_StartedAt b |> <| b_ReceivedAt := "" |> <| b_Failure := "" |>)
         (d_backups d)) (d_operations d) (d_operations_seq d)
  | _ => Core (d_keys d) (d_backups d ++ [b]) (d_operations d) (d_operations_seq d)
  end.

Lemma reserve_row_ok state b now d u d' : b_StartedAt b = unix now -> (forall x, state <> Receipt x) ->
  reserve_row state b now d = Ok (u, d') ->
  core_of d' = reserved_core d state b /\ d_attempts d' = d_attempts d /\ d_profiles d' = d_profiles d /\
  (state = Fresh -> fresh_deposit d b).
Proof.
  intros Hs Hno Hr. destruct state as [|id|x]; [|..|by destruct (Hno x)].
  - cbn in Hr. pose proof (insert_backup_ok _ _ _ _ Hr) as (H1 & H3). split; [done|].
    unfold insert_backup in Hr. destruct (_ || _); [done|]. by injection Hr as _ <-.
  - cbn in Hr. apply bind_ok in Hr as (n & d1 & Hu & Hr). apply update_backups_ok in Hu as [-> ->].
    apply ret_ok in Hr as [_ ->]. cbn. rewrite Hs. done.
Qed.

Lemma Reserve_inv token m size digest ik now check newID d b d' :
  ReserveIdempotentChecked token m size digest ik now check newID d = Ok (b, d') ->
  ValidToken token = true /\ Metadata_Validate m = Ok tt /\ 0 < size /\ ValidDigest digest = true /\
  exists k p state, key_of_token (sha256_hex token) d = Some (k, p) /\
    check_idempotency (if String.eqb ik "" then None else idempotent_backup (k_ID k) ik d) m size digest = Ok state /\
    ((state = Receipt b /\ d' = d) \/
     ((forall x, state <> Receipt x) /\
      within_limits p (k_ID k) size now d /\
      (forall f, check = Some f -> exists reserved, reserved_bytes d = Ok reserved /\ 0 <= reserved /\
         reserved + size <= max_int64 /\ f (reserved + size) = Ok tt) /\
      b = receiving_backup (match state with Resume id => id | _ => newID end) (k_ID k) ik m size digest now /\
      (state = Fresh -> fresh_deposit d b) /\
      core_of d' = reserved_core d state b /\
      d_attempts d' = delete_where (fun a => String.eqb (at_KeyID a) (k_ID k) && (at_AttemptedAt a <? day_before now)) (d_attempts d) ++
                      [Attempt (d_attempts_seq d' ) (k_ID k) (b_ID b) (unix now)])).
Proof.
  unfold ReserveIdempotentChecked. intros Hr. store_step Hr as Htok. store_get Hr as um Hm. store_step Hr as Hsz. store_step Hr as Hik.
  apply negb_false_iff in Htok. apply orb_false_iff in Hsz as [Hsz Hdig%negb_false_iff].
  split; [done|]. split; [by destruct um|]. split; [lia|]. split; [done|].
  store_get Hr as found Hfound. destruct (key_of_token _ d) as [[k p]|] eqn:Ek; [|done].
  store_skip Hr. store_get Hr as state Hstate. exists k, p, state. split; [done|]. split; [done|].
  destruct state as [|id|x]; [right|right|left; by apply ret_ok in Hr as [-> ->]].
  all: split; [done|];
    apply bind_ok in Hr as (u1 & d1 & H1 & Hr); apply check_limits_ok in H1 as [-> Hlim]; split; [done|];
    apply bind_ok in Hr as (u2 & d2 & H2 & Hr); apply check_disk_ok in H2 as [-> Hdisk]; split; [done|];
    apply bind_ok in Hr as (u3 & d3 & H3 & Hr);
    apply reserve_row_ok in H3 as (Hcore & Hatt & _ & Hfresh); [|done|done];
    apply bind_ok in Hr as (u4 & d4 & H4 & Hr); injection H4 as _ <-;
    apply bind_ok in Hr as (u5 & d5 & H5 & Hr); apply ret_ok in Hr as [-> ->];
    unfold insert_attempt in H5; destruct (_ || _); [done|]; injection H5 as _ <-;
    (split; [done|]); (split; [done|]); (split; [done|]); cbn; by rewrite Hatt.
Qed.

Lemma frame_evaluateCompleted id now : frame (evaluateCompleted id now).
Proof.
  unfold evaluateCompleted. frame. apply frame_iter. intros f. frame.
Qed.

Lemma Complete_inv id now d u d' : Complete id now d = Ok (u, d') ->
  (exists b, In b (d_backups d) /\ b_ID b = id /\ b_Status b = BackupReceiving) /\
  core_of d' = Core (d_keys d) (update_where (backup_is id BackupReceiving)
    (fun b => b <| b_Status := BackupComplete |> <| b_ReceivedAt := format_rfc3339nano now |> <| b_Failure := "" |>) (d_backups d))
    (d_operations d) (d_operations_seq d).
Proof.
  unfold Complete. intros Hr. store_skip Hr. store_step Hr as Hn. apply frame_evaluateCompleted in Hr.
  split; [|by rewrite Hr]. pose proof (count_where_nonneg (backup_is id BackupReceiving) (d_backups d)).
  assert (0 < count_where (backup_is id BackupReceiving) (d_backups d)) as (b & Hb & [? ?]%backup_is_iff)%count_where_pos by lia.
  by exists b.
Qed.

Lemma Fail_inv id reason now d u d' : Fail_ id reason now d = Ok (u, d') ->
  (exists b, In b (d_backups d) /\ b_ID b = id /\ b_Status b = BackupReceiving) /\
  core_of d' = Core (d_keys d) (update_where (backup_is id BackupReceiving)
    (fun b => b <| b_Status := BackupFailed |> <| b_Failure := reason |>) (d_backups d)) (d_operations d) (d_operations_seq d).
Proof.
  unfold Fail_. intros Hr. store_skip Hr. store_step Hr as Hn. store_skip Hr. apply frame_openAnomaly in Hr.
  split; [|by rewrite Hr]. pose proof (count_where_nonneg (backup_is id BackupReceiving) (d_backups d)).
  assert (0 < count_where (backup_is id BackupReceiving) (d_backups d)) as (b & Hb & [? ?]%backup_is_iff)%count_where_pos by lia.
  by exists b.
Qed.
End deposits.

(** ** Histories

    A call of the store, with the instants, random draws and texts it received. *)
Inductive call : Type :=
| CPutProfile (p : profile)
| CCreateKey (name profile id token : string)
| CRevoke (id : string) (now : Z)
| CAssign (id profile : string)
| CReserve (token : string) (m : metadata) (size : Z) (digest idempotencyKey : string) (now : Z)
    (check : option (Z -> result err unit)) (newID : string)
| CComplete (id : string) (now : Z)
| CFail (id reason : string) (now : Z)
| CSetReserveFree (n : Z)
| CSetKeyRetentionDays (keyID : string) (days : Z)
| CSetupAutomationMode (settings : mail_settings) (timezone mode : string) (now : Z)
| CMarkMailTested (now : Z)
| CEnableAutomation
| CPauseRetention (reason : string)
| CRequestRetentionResume (now : Z)
| CResumeRetention (now : Z)
| CBeginRelearn
| CRequestQuarantine (backupID origin actor reason : string) (now : Z)
| CRequestPurge (backupID origin actor reason : string) (now : Z)
| CRequestRecovery (backupID actor reason : string) (now : Z)
| CAuthorizeOperation (id : Z) (l : lease) (ticket : string) (now : Z)
| CValidateOperation (id : Z) (ticket : string) (l : lease) (now : Z)
| CConfirmOperation (id : Z) (ticket : string) (physicalDone : bool) (detail : string) (l : lease) (now : Z)
| CReconcileAuthorized (id now : Z)
| CResetAuthorized (id now : Z)
| CCancelQuarantineRequest (backupID actor : string) (now : Z)
| COpenAnomalyAt (stableKey kind keyID backupID detail : string) (eventAt now : Z)
| CResolveAnomaly (stableKey : string) (now : Z)
| CTryClear (id now : Z)
| CAcknowledge (id now : Z)
| CCreateExclusion (sourceID startsAt endsAt : Z) (actor reason : string) (kinds : list string) (now : Z)
| CQueueReport (stableID subject body : string) (now : Z)
| CQueuePeriodicReport (stableID subject body : string) (now : Z)
| CConfirmMail (id : Z) (sendErr : string) (configVersion now : Z)
| CSaveModel (keyID : string) (revision : Z) (timezone : string) (retentionDays : Z) (value : string) (reliable review : bool) (now : Z)
| CSetCheckState (state : string) (revision now : Z)
| CAcquireLease (owner : string) (generation now duration : Z)
| CReleaseLease (l : lease)
| CStartCheck (now : Z)
| CPlanCheck (id now : Z)
| CCompleteCheck (id : Z) (outcome : check_status) (summary state : string) (revision : Z) (findings : list finding) (now : Z)
| CFailCheck (id : Z) (summary : string) (now : Z).

(** The instant a call received, the operation it authorizes and the one whose
    result it records. *)
Definition call_now (c : call) : Z :=
  match c with
  | CRevoke _ t | CReserve _ _ _ _ _ t _ _ | CComplete _ t | CFail _ _ t | CSetupAutomationMode _ _ _ t
  | CMarkMailTested t | CRequestRetentionResume t | CResumeRetention t | CRequestQuarantine _ _ _ _ t
  | CRequestPurge _ _ _ _ t | CRequestRecovery _ _ _ t | CAuthorizeOperation _ _ _ t | CValidateOperation _ _ _ t
  | CConfirmOperation _ _ _ _ _ t | CReconcileAuthorized _ t | CResetAuthorized _ t | CCancelQuarantineRequest _ _ t
  | COpenAnomalyAt _ _ _ _ _ _ t | CResolveAnomaly _ t | CTryClear _ t | CAcknowledge _ t
  | CCreateExclusion _ _ _ _ _ _ t | CQueueReport _ _ _ t | CQueuePeriodicReport _ _ _ t | CConfirmMail _ _ _ t
  | CSaveModel _ _ _ _ _ _ _ t | CSetCheckState _ _ t | CAcquireLease _ _ t _ | CStartCheck t | CPlanCheck _ t
  | CCompleteCheck _ _ _ _ _ _ t | CFailCheck _ _ t => t
  | _ => 0
  end.
Definition event_of (c : call) : event :=
  Event (call_now c) (match c with CAuthorizeOperation id _ _ _ => Some id | _ => None end)
    (match c with CConfirmOperation id _ true _ _ _ | CReconcileAuthorized id _ => Some id | _ => None end)
    (match c with CResetAuthorized id _ => Some id | _ => None end)
    (match c with CComplete id _ => Some id | _ => None end).

Definition ignore {A} (m : tx A) : tx unit := _ ← m; mret tt.

Section history.
Context `{Platform}.

Definition run (c : call) : tx unit :=
  match c with
  | CPutProfile p => PutProfile p
  | CCreateKey n p i t => ignore (CreateKey n p i t)
  | CRevoke i t => Revoke i t
  | CAssign i p => Assign i p
  | CReserve tk m s g ik t ch i => ignore (ReserveIdempotentChecked tk m s g ik t ch i)
  | CComplete i t => Complete i t
  | CFail i r t => Fail_ i r t
  | CSetReserveFree n => SetReserveFree n
  | CSetKeyRetentionDays k n => SetKeyRetentionDays k n
  | CSetupAutomationMode s z m t => SetupAutomationMode s z m t
  | CMarkMailTested t => MarkMailTested t
  | CEnableAutomation => EnableAutomation
  | CPauseRetention r => PauseRetention r
  | CRequestRetentionResume t => RequestRetentionResume t
  | CResumeRetention t => ResumeRetention t
  | CBeginRelearn => BeginRelearn
  | CRequestQuarantine b o a r t => ignore (RequestQuarantine b o a r t)
  | CRequestPurge b o a r t => ignore (RequestPurge b o a r t)
  | CRequestRecovery b a r t => ignore (RequestRecovery b a r t)
  | CAuthorizeOperation i l k t => ignore (AuthorizeOperation i l k t)
  | CValidateOperation i k l t => ValidateOperation i k l t
  | CConfirmOperation i k p e l t => ConfirmOperation i k p e l t
  | CReconcileAuthorized i t => ReconcileAuthorized i t
  | CResetAuthorized i t => ResetAuthorized i t
  | CCancelQuarantineRequest b a t => CancelQuarantineRequest b a t
  | COpenAnomalyAt s k i b e ev t => ignore (openAnomalyAt s k i b e ev t)
  | CResolveAnomaly s t => ignore (ResolveAnomaly s t)
  | CTryClear i t => ignore (TryClearResolvedMaintenanceBlock i t)
  | CAcknowledge i t => AcknowledgeMissingAnomaly i t
  | CCreateExclusion i s e a r ks t => ignore (CreateAnomalyExclusion i s e a r ks t)
  | CQueueReport s u b t => QueueReport s u b t
  | CQueuePeriodicReport s u b t => QueuePeriodicReport s u b t
  | CConfirmMail i e v t => ConfirmMail i e v t
  | CSaveModel k r z n v a b t => SaveModel k r z n v a b t
  | CSetCheckState s r t => SetCheckState s r t
  | CAcquireLease o g t n => ignore (AcquireMaintenanceLease o g t n)
  | CReleaseLease l => ReleaseMaintenanceLease l
  | CStartCheck t => ignore (StartMonitoringCheck t)
  | CPlanCheck i t => ignore (PlanMonitoringCheck i t)
  | CCompleteCheck i o s st r fs t => CompleteMonitoringCheck i o s st r fs t
  | CFailCheck i s t => FailMonitoringCheck i s t
  end.

(** The catalogue after a call: an error leaves it as it was. *)
Definition exec (c : call) (d : db) : db := snd (commit (run c) d).
Definition execs (cs : list call) (d : db) : db := foldl (fun d c => exec c d) d cs.

Lemma exec_cases c d : (exists u d', run c d = Ok (u, d') /\ exec c d = d') \/ (exists e, run c d = Err e /\ exec c d = d).
Proof.
  unfold exec, commit. destruct (run c d) as [[u d']|e]; [left; by exists u, d'|right; by exists e].
Qed.
Lemma ignore_ok {A} (m : tx A) d u d' : ignore m d = Ok (u, d') -> exists a, m d = Ok (a, d').
Proof. intros (a & d1 & H1 & [_ ->]%ret_ok)%bind_ok. by exists a. Qed.
Lemma frame_ignore {A} (m : tx A) : frame m -> frame (ignore m).
Proof. intros Hm. unfold ignore. apply frame_bind; [done|]. auto with frame. Qed.
End history.
