(* ===== verification/Archive.v ===== *)
(** The guarantees of the archive: every call of the store is a step of the
    retention machine, and what follows for every history of calls. *)
From S2P Require Import Prelude GoTime GoFloat GoString Model Policy Schedule Catalog Anomalies Automation Retention.
From S2P Require Import RetentionMachine Deposit Checks Mail Store.

(** ** Refinement *)
Section refinement.
Context `{Platform}.

Lemma same_core e c d d' : core_of d' = core_of d -> rstep e c (core_of d) -> rstep e c (core_of d').
Proof. by intros ->. Qed.

Lemma frame_step e c d : frame (run c) -> rstep e (core_of d) (core_of (exec c d)).
Proof.
  intros Hf. destruct (exec_cases c d) as [(u & d' & Hr & ->)|(er & _ & ->)]; [|apply rs_skip].
  rewrite (Hf _ _ _ Hr). apply rs_skip.
Qed.

(** A call that succeeds with a step is a step. *)
Lemma exec_step e c d : (forall u d', run c d = Ok (u, d') -> rstep e (core_of d) (core_of d')) ->
  rstep e (core_of d) (core_of (exec c d)).
Proof. intros Hs. destruct (exec_cases c d) as [(u & d' & Hr & ->)|(er & _ & ->)]; [eauto|apply rs_skip]. Qed.

Lemma operation_unique d o x : core_ok (core_of d) -> In o (d_operations d) -> In x (d_operations d) ->
  operation_id_is (o_ID o) x = true -> x = o.
Proof.
  intros Hok Ho Hx Hid%Z.eqb_eq. by apply (NoDup_map_in o_ID _ x o (ok_operation_ids _ Hok) Hx Ho).
Qed.

Lemma backup_unique d b x st : core_ok (core_of d) -> In b (d_backups d) -> In x (d_backups d) ->
  backup_is (b_ID b) st x = true -> x = b.
Proof.
  intros Hok Hb Hx [Hid _]%backup_is_iff. by apply (NoDup_map_in b_ID _ x b (ok_backup_ids _ Hok) Hx Hb).
Qed.

(** An edit that singles out one operation. *)
Lemma edit_step e d o (q : operation -> bool) f d' : core_ok (core_of d) -> In o (d_operations d) ->
  active_operation o = true -> keeps_active e f o ->
  (forall x, q x = true -> operation_id_is (o_ID o) x = true) ->
  core_of d' = Core (d_keys d) (d_backups d) (update_where q f (d_operations d)) (d_operations_seq d) ->
  rstep e (core_of d) (core_of d').
Proof.
  intros Hok Ho Ha Hf Hq ->. apply (rs_edit e (core_of d) q f o); [done..| |done].
  intros x Hx Hp. by apply (operation_unique d), Hq.
Qed.

Lemma selected_state st o : has_state st o = true <-> o_State o = st.
Proof. unfold has_state. by rewrite bool_decide_eq_true. Qed.

Lemma request_step e d kind b origin actor reason d' :
  find_backup d (b_ID b) = Some b -> b_Status b = source_status kind -> kind <> OpCancel ->
  (forall o, In o (d_operations d) -> active_operation o = true -> o_BackupID o <> b_ID b) ->
  (kind = OpQuarantine -> exists b', In b' (d_backups d) /\ b_ID b' <> b_ID b /\ b_KeyID b' = b_KeyID b /\
     b_Status b' = BackupComplete) ->
  (kind = OpPurge -> b_PurgeNotBefore b <= unix (ev_now e)) ->
  core_of d' = Core (d_keys d) (update_where (backup_is (b_ID b) (source_status kind)) (hold_backup kind) (d_backups d))
    (d_operations d ++ [requested (d_operations_seq d + 1) (b_ID b) kind origin actor reason (model_revision d) (ev_now e)])
    (d_operations_seq d + 1) ->
  rstep e (core_of d) (core_of d').
Proof.
  intros [Hb _]%find_backup_in Hst Hk Hfree Hq Hp ->. by apply (rs_request e (core_of d) kind b).
Qed.

Lemma RequestQuarantine_step e d id origin actor reason op d' : core_ok (core_of d) ->
  RequestQuarantine id origin actor reason (ev_now e) d = Ok (op, d') -> rstep e (core_of d) (core_of d').
Proof.
  intros Hok (b & k & loc & _ & Hb & _ & _ & _ & Hst & _ & _ & Hcopies & _ & Hfree & -> & Hcore)%RequestQuarantine_inv.
  destruct (find_backup_in _ _ _ Hb) as [Hin <-].
  apply (request_step e d OpQuarantine b origin actor reason); try done.
  intros _. destruct (another_copy _ _ b (ok_backup_ids _ Hok) Hcopies Hin) as (b' & Hb' & Hne & Hp).
  apply andb_true_iff in Hp as [[Hk _]%andb_true_iff Hs%has_status_iff]. apply String.eqb_eq in Hk. eauto.
Qed.

Lemma RequestPurge_step e d id origin actor reason op d' :
  RequestPurge id origin actor reason (ev_now e) d = Ok (op, d') -> rstep e (core_of d) (core_of d').
Proof.
  intros (b & k & Hb & _ & _ & _ & Hst & _ & _ & _ & Hterm & _ & Hfree & -> & Hcore)%RequestPurge_inv.
  destruct (find_backup_in _ _ _ Hb) as [_ <-].
  by apply (request_step e d OpPurge b origin actor reason).
Qed.

Lemma RequestRecovery_step e d id actor reason op d' :
  RequestRecovery id actor reason (ev_now e) d = Ok (op, d') -> rstep e (core_of d) (core_of d').
Proof.
  intros (b & Hb & Hst & Hfree & -> & Hcore)%RequestRecovery_inv. destruct (find_backup_in _ _ _ Hb) as [_ <-].
  apply (request_step e d OpRecover b "manual" actor reason); try done.
  rewrite update_where_id; [done|]. intros x _ [_ Hx]%backup_is_iff. unfold hold_backup. cbn in Hx |- *. rewrite <- Hx. by destruct x.
Qed.

Lemma AuthorizeOperation_step e d id l ticket now r d' : core_ok (core_of d) -> ev_authorizes e = Some id ->
  AuthorizeOperation id l ticket now d = Ok (r, d') -> rstep e (core_of d) (core_of d').
Proof.
  intros Hok He (op & Hop & _ & _ & Hcases)%AuthorizeOperation_inv; [|apply Hok].
  apply find_operation_in in Hop as [Hin Hid]. destruct Hcases as [(Hst & _ & _ & Hcore)|(Hst & _ & _ & _ & Hcore)].
  - apply (edit_step e d op _ _ d' Hok Hin) in Hcore; [done|by apply active_states; right| |].
    + split; try done; [by apply active_states; right|by right; left|]. cbn. by rewrite Hst.
    + intros x (((? & _)%andb_true_iff & _)%andb_true_iff & _)%andb_true_iff. done.
  - apply (edit_step e d op _ _ d' Hok Hin) in Hcore; [done|by apply active_states; left| |].
    + split; try done. cbn. right. right. by rewrite Hid, He.
    + rewrite Hid. by intros x [? _]%andb_true_iff.
Qed.

Lemma ValidateOperation_step e d id ticket l now u d' : core_ok (core_of d) ->
  ValidateOperation id ticket l now d = Ok (u, d') -> rstep e (core_of d) (core_of d').
Proof.
  intros Hok (op & Hop & _ & Hst & _ & [[_ ->]|(_ & _ & _ & Hcore)])%ValidateOperation_inv; [apply rs_skip|].
  apply find_operation_in in Hop as [Hin Hid].
  apply (edit_step e d op _ _ d' Hok Hin) in Hcore; [done|by apply active_states; right| |].
  - split; try done; [by apply active_states; right|by right; left|]. cbn. by rewrite Hst.
  - rewrite Hid. by intros x [? _]%andb_true_iff.
Qed.

Lemma finish_step e d op error d' : In op (d_operations d) -> o_State op = OpAuthorized -> ev_finishes e = Some (o_ID op) ->
  core_of d' = finished_core d op (ev_now e) error -> rstep e (core_of d) (core_of d').
Proof. intros Hin Hst He ->. by apply (rs_finish e (core_of d) op (confirm (ev_now e) error)). Qed.

Lemma ConfirmOperation_step e d id ticket physical detail l u d' : core_ok (core_of d) -> (physical = true -> ev_finishes e = Some id) ->
  ConfirmOperation id ticket physical detail l (ev_now e) d = Ok (u, d') -> rstep e (core_of d) (core_of d').
Proof.
  intros Hok He (op & Hop & _ & _ & Hcases)%ConfirmOperation_inv. apply find_operation_in in Hop as [Hin <-].
  destruct Hcases as [(_ & _ & ->)|[(Hst & _ & error & Hcore)|(Hst & Hdone & _ & _ & Hcore)]].
  - apply rs_skip.
  - apply (edit_step e d op _ _ d' Hok Hin) in Hcore; [done|by apply active_states; right| |done].
    split; try done; [by apply active_states; right|by right; left|]. cbn. by rewrite Hst.
  - apply (finish_step e d op ""); auto.
Qed.

Lemma ReconcileAuthorized_step e d id u d' : ev_finishes e = Some id ->
  ReconcileAuthorized id (ev_now e) d = Ok (u, d') -> rstep e (core_of d) (core_of d').
Proof.
  intros He (op & [Hin <-]%find_operation_in & Hst & _ & _ & Hcore)%ReconcileAuthorized_inv.
  by apply (finish_step e d op "riconciliata dopo riavvio").
Qed.

Lemma cancel_step e d o p f d' : core_ok (core_of d) -> In o (d_operations d) -> active_operation o = true ->
  o_Kind o <> OpRecover -> o_State o = OpRequested \/ ev_resets e = Some (o_ID o) ->
  (forall x, In x (d_operations d) -> p x = true <-> x = o) -> closes OpCancelled f o ->
  core_of d' = Core (d_keys d)
    (update_where (backup_is (o_BackupID o) (pending_status (o_Kind o))) (restore_backup (o_Kind o)) (d_backups d))
    (update_where p f (d_operations d)) (d_operations_seq d) ->
  rstep e (core_of d) (core_of d').
Proof. intros Hok Hin Ha Hk Hs Hp Hf ->. by apply (rs_cancel e (core_of d) o p f). Qed.

Lemma ResetAuthorized_step e d id now u d' : core_ok (core_of d) -> ev_resets e = Some id ->
  ResetAuthorized id now d = Ok (u, d') -> rstep e (core_of d) (core_of d').
Proof.
  intros Hok He (op & Hop & Hst & Hcases)%ResetAuthorized_inv. apply find_operation_in in Hop as [Hin Hid].
  assert (active_operation op = true) as Ha by (by apply active_states; right).
  destruct Hcases as [(_ & Hcore)|[(_ & Hkind & Hcore)|(Hec & Hcore)]].
  - apply (edit_step e d op _ _ d' Hok Hin) in Hcore; [done|done| |].
    + split; try done; [by right; left|]. cbn. by rewrite Hst.
    + rewrite Hid. by intros x [[? _]%andb_true_iff _]%andb_true_iff.
  - apply (cancel_step e d op _ _ d' Hok Hin Ha) in Hcore; [done|by destruct Hkind as [->| ->]|right; by rewrite Hid| |done].
    intros x Hx. rewrite andb_true_iff, selected_state, <- Hid. split; [intros [? _]; by apply (operation_unique d)|].
    intros ->. split; [apply Z.eqb_refl|done].
  - apply (edit_step e d op _ _ d' Hok Hin) in Hcore; [done|done| |].
    + split; try done. left. by rewrite Hid.
    + rewrite Hid. by intros x [? _]%andb_true_iff.
Qed.

Lemma CancelQuarantineRequest_step e d bid actor now u d' : core_ok (core_of d) ->
  CancelQuarantineRequest bid actor now d = Ok (u, d') -> rstep e (core_of d) (core_of d').
Proof.
  intros Hok (op & Hin & Hc & Hcore & _)%CancelQuarantineRequest_inv.
  assert (o_BackupID op = bid /\ o_Kind op = OpQuarantine /\ o_State op = OpRequested) as (Hbid & Hk & Hst).
  { unfold cancellable, has_kind in Hc. rewrite !andb_true_iff, !bool_decide_eq_true, selected_state in Hc. tauto. }
  assert (active_operation op = true) as Ha by (by apply active_states; left).
  eapply (cancel_step e d op _ _ d' Hok Hin Ha); [by rewrite Hk|by left| | |rewrite Hk, Hbid; exact Hcore].
  - intros x Hx. split; [|by intros ->]. intros Hp.
    unfold cancellable in Hp. rewrite !andb_true_iff, bool_decide_eq_true, selected_state in Hp.
    apply (ok_unique _ Hok); [done..|by apply active_states; left; apply Hp|done|].
    by rewrite Hbid; apply Hp.
  - done.
Qed.

Lemma Revoke_step e d id u d' : Revoke id (ev_now e) d = Ok (u, d') -> rstep e (core_of d) (core_of d').
Proof. intros [_ ->]%Revoke_inv. apply (rs_revoke e (core_of d) id revoked_error). Qed.

(** Keys and deposits. *)
Lemma CreateKey_step e d name profile id token r d' :
  CreateKey name profile id token d = Ok (r, d') -> rstep e (core_of d) (core_of d').
Proof.
  unfold CreateKey. intros Hr. store_skip Hr. apply bind_ok in Hr as (u & d1 & Hins & Hr). apply ret_ok in Hr as [_ ->].
  unfold insert_key in Hins. cbn [k_ID k_TokenHash k_Profile] in Hins.
  destruct (_ || _) eqn:E; [done|]. injection Hins as _ <-. rewrite !orb_false_iff in E.
  destruct E as ((E & E') & _). rewrite exists_where_not in E, E'.
  apply (rs_key e (core_of d) (Key id name (sha256_hex token) profile false)); cbn; intros (k & Hid & Hk)%in_map_iff.
  - specialize (E k Hk). unfold key_id_is in E. by apply bool_decide_eq_false in E.
  - specialize (E' k Hk). by apply String.eqb_neq in E'.
Qed.

Lemma Assign_step e d id profile u d' : Assign id profile d = Ok (u, d') -> rstep e (core_of d) (core_of d').
Proof.
  unfold Assign. intros Hr. store_skip Hr. store_skip Hr. store_skip Hr. apply changed_ok in Hr as [_ ->].
  by apply (rs_keys e (core_of d) (key_id_is id) (fun k => k <| k_Profile := profile |>)).
Qed.

Lemma Reserve_step e d token m size digest ik now check newID b d' : core_ok (core_of d) ->
  ReserveIdempotentChecked token m size digest ik now check newID d = Ok (b, d') -> rstep e (core_of d) (core_of d').
Proof.
  intros Hok (_ & _ & _ & _ & k & p & state & Hkey & Hst & Hcases)%Reserve_inv.
  destruct Hcases as [[_ ->]|(Hno & _ & _ & -> & Hfresh & Hcore & _)]; [apply rs_skip|]. rewrite Hcore.
  destruct state as [|id|x]; [|..|by destruct (Hno x)].
  - destruct (Hfresh eq_refl) as (H1 & H2 & H3). by apply (rs_deposit e (core_of d)).
  - apply check_idempotency_resume in Hst as (b & Hb & <- & Hfailed & _).
    assert (In b (d_backups d)) as Hin by (destruct (String.eqb ik ""); [done|]; apply (idempotent_backup_some _ _ _ _ Hb)).
    apply (rs_upload e (core_of d) _ _ b); [done| |by apply upload_resume].
    intros x Hx Hp. by apply (backup_unique d b x BackupFailed).
Qed.

Lemma upload_end_step e d id f d' : core_ok (core_of d) ->
  (exists b, In b (d_backups d) /\ b_ID b = id /\ b_Status b = BackupReceiving) ->
  (forall b, b_ID b = id -> b_Status b = BackupReceiving -> upload_step e b (f b)) ->
  core_of d' = Core (d_keys d) (update_where (backup_is id BackupReceiving) f (d_backups d)) (d_operations d) (d_operations_seq d) ->
  rstep e (core_of d) (core_of d').
Proof.
  intros Hok (b & Hin & <- & Hs) Hf ->. apply (rs_upload e (core_of d) _ _ b); [done| |by apply Hf].
  intros x Hx Hp. by apply (backup_unique d b x BackupReceiving).
Qed.

Lemma Complete_step e d id now u d' : core_ok (core_of d) -> ev_completes e = Some id ->
  Complete id now d = Ok (u, d') -> rstep e (core_of d) (core_of d').
Proof.
  intros Hok He [Hb Hcore]%Complete_inv. apply (upload_end_step e _ _ _ _ Hok Hb) in Hcore; [done|].
  intros b Hid Hs. apply upload_complete; [done|]. by rewrite Hid.
Qed.
Lemma Fail_step e d id reason now u d' : core_ok (core_of d) ->
  Fail_ id reason now d = Ok (u, d') -> rstep e (core_of d) (core_of d').
Proof.
  intros Hok [Hb Hcore]%Fail_inv. apply (upload_end_step e _ _ _ _ Hok Hb) in Hcore; [done|].
  intros b _ Hs. by apply upload_fail.
Qed.

Lemma frame_PutProfile p : frame (PutProfile p).
Proof.
  unfold PutProfile. apply frame_bind; [apply frame_lift|]. intros _ d u d' [= _ <-].
  by destruct (exists_where _ _).
Qed.
Lemma frame_AcquireLease o g t n : frame (AcquireMaintenanceLease o g t n).
Proof.
  assert (forall f, frame (tx_modify (E:=err) (fun d : db => d <| d_lease := f d |>))) as Hm by (by intros f d u d' [= _ <-]).
  unfold AcquireMaintenanceLease. frame; apply (Hm (fun _ => _)).
Qed.
Lemma frame_ReleaseLease l : frame (ReleaseMaintenanceLease l).
Proof. intros d u d' [= _ <-]. by destruct (_ && _). Qed.

Lemma store_step_rstep c d : core_ok (core_of d) -> rstep (event_of c) (core_of d) (core_of (exec c d)).
Proof.
  intros Hok. destruct c;
    try solve [ apply frame_step; cbn [run]; auto using frame_ignore, frame_PutProfile, frame_AcquireLease, frame_ReleaseLease with frame ];
    apply exec_step; intros u d' Hr; unfold event_of; cbn [run call_now] in Hr |- *; try (apply ignore_ok in Hr as [a Hr]);
    first
      [ solve [ eauto using Revoke_step, CreateKey_step, Assign_step, Reserve_step, Complete_step, Fail_step,
          RequestQuarantine_step, RequestPurge_step, RequestRecovery_step, AuthorizeOperation_step, ValidateOperation_step,
          ReconcileAuthorized_step, ResetAuthorized_step, CancelQuarantineRequest_step ]
      | eapply ConfirmOperation_step; [done|by intros ->|exact Hr] ].
Qed.
End refinement.

(** ** Histories *)
Section histories.
Context `{Platform}.

(** The catalogue after a history of calls from its creation. *)
Definition archive (cs : list call) : db := execs cs initial_db.
Definition status_of (id : string) (d : db) : option backup_status := b_Status <$> find_backup d id.

Lemma execs_app cs cs' d : execs (cs ++ cs') d = execs cs' (execs cs d).
Proof. apply foldl_app. Qed.
Lemma execs_cons c cs d : execs (c :: cs) d = execs cs (exec c d).
Proof. reflexivity. Qed.
Lemma archive_app cs cs' : archive (cs ++ cs') = execs cs' (archive cs).
Proof. apply execs_app. Qed.
Lemma archive_snoc cs c : archive (cs ++ [c]) = exec c (archive cs).
Proof. by rewrite archive_app. Qed.

(** A property of the core that every step keeps holds along a history. *)
Lemma execs_preserve (P : core -> Prop) cs d :
  (forall e c c', core_ok c -> rstep e c c' -> P c -> P c') ->
  core_ok (core_of d) -> P (core_of d) -> core_ok (core_of (execs cs d)) /\ P (core_of (execs cs d)).
Proof.
  intros Hstep. revert d. induction cs as [|c cs IH]; intros d Hok HP; [done|].
  pose proof (store_step_rstep c d Hok) as Hs. rewrite execs_cons.
  apply (IH (exec c d)); [exact (rstep_ok _ _ _ Hok Hs)|exact (Hstep _ _ _ Hok Hs HP)].
Qed.

Lemma execs_ok cs d : core_ok (core_of d) -> core_ok (core_of (execs cs d)).
Proof. intros Hok. by apply (execs_preserve (fun _ => True) cs d). Qed.
Lemma archive_ok cs : core_ok (core_of (archive cs)).
Proof. apply execs_ok, initial_core_ok. Qed.

Lemma find_backup_of d b : core_ok (core_of d) -> In b (d_backups d) -> find_backup d (b_ID b) = Some b.
Proof.
  intros Hok Hb. apply find_where_in; [|done|by unfold backup_id_is; rewrite bool_decide_true].
  intros x Hx Hid. unfold backup_id_is in Hid. rewrite bool_decide_eq_true in Hid.
  by apply (NoDup_map_in b_ID _ x b (ok_backup_ids _ Hok)).
Qed.
Lemma status_of_in d b : core_ok (core_of d) -> In b (d_backups d) -> status_of (b_ID b) d = Some (b_Status b).
Proof. intros Hok Hb. unfold status_of. by rewrite (find_backup_of d b). Qed.

(** *** Deposits *)
Lemma same_deposit_trans b1 b2 b3 : same_deposit b1 b2 -> status_edge (b_Status b1) (b_Status b2) = true ->
  same_deposit b2 b3 -> same_deposit b1 b3.
Proof.
  intros [I1 S1 D1 M1 T1] He [I2 S2 D2 M2 T2]. split; try congruence.
  intros Hd. destruct (T1 Hd) as [<- <-]. apply T2. unfold deposited, has_status in *.
  by destruct (b_Status b1), (b_Status b2).
Qed.

Lemma execs_follow cs d b : core_ok (core_of d) -> In b (d_backups d) ->
  exists b', In b' (d_backups (execs cs d)) /\ same_deposit b b' /\
    rtc (fun s s' => status_edge s s' = true) (b_Status b) (b_Status b').
Proof.
  revert d b. induction cs as [|c cs IH]; intros d b Hok Hb; [exists b; split; [done|]; split; [done|apply rtc_refl]|].
  pose proof (store_step_rstep c d Hok) as Hs. rewrite execs_cons.
  destruct (rstep_follows _ _ _ b Hok Hs Hb) as (b1 & Hb1 & Hsame & Hedge).
  destruct (IH (exec c d) b1) as (b' & Hb' & Hsame' & Hedges); [exact (rstep_ok _ _ _ Hok Hs)|exact Hb1|].
  exists b'. split; [done|]. split; [by apply (same_deposit_trans b b1 b')|]. by apply (rtc_l _ _ (b_Status b1)).
Qed.

Lemma execs_key cs d k : core_ok (core_of d) -> In k (d_keys d) -> exists k', In k' (d_keys (execs cs d)) /\ same_key k k'.
Proof.
  revert d k. induction cs as [|c cs IH]; intros d k Hok Hk; [by exists k|].
  pose proof (store_step_rstep c d Hok) as Hs. rewrite execs_cons.
  destruct (rstep_key _ _ _ k Hs Hk) as (k1 & Hk1 & E1 & E2 & E3).
  destruct (IH (exec c d) k1) as (k2 & Hk2 & E4 & E5 & E6); [exact (rstep_ok _ _ _ Hok Hs)|exact Hk1|].
  exists k2. split; [done|]. split; [congruence|]. split; [congruence|auto].
Qed.

(** The deposit a successful reservation works on. *)
Lemma reserved_row token m size digest ik now check newID d b d' : core_ok (core_of d) -> ik <> ""%string ->
  ReserveIdempotentChecked token m size digest ik now check newID d = Ok (b, d') ->
  exists k x, In k (d_keys d) /\ k_TokenHash k = sha256_hex token /\ In x (d_backups d') /\ b_ID x = b_ID b /\
    b_KeyID x = k_ID k /\ b_IdempotencyKey x = ik /\ b_Size x = size /\ b_SHA256 x = digest /\ b_Metadata x = m.
Proof.
  intros Hok Hik (_ & _ & _ & _ & k & p & state & Hkey & Hst & Hcases)%Reserve_inv.
  apply key_of_token_some in Hkey as (Hk & Hhash & _). rewrite (proj2 (String.eqb_neq ik "") Hik) in Hst. exists k.
  destruct Hcases as [[-> ->]|(Hno & _ & _ & -> & _ & Hcore & _)].
  - apply check_idempotency_receipt in Hst as (Hb & _ & H1 & H2 & H3).
    apply idempotent_backup_some in Hb as (Hb & H4 & H5). by exists b.
  - apply (f_equal c_backups) in Hcore. cbn in Hcore. rewrite Hcore.
    destruct state as [|id|x]; [|..|by destruct (Hno x)]; cbn [c_backups reserved_core].
    + eexists. split; [done|]. split; [done|]. split; [apply in_or_app; right; by left|done].
    + apply check_idempotency_resume in Hst as (x & Hb & <- & H1 & H2 & H3 & H4).
      apply idempotent_backup_some in Hb as (Hb & H5 & H6). eexists. split; [done|]. split; [done|].
      split; [apply in_update_new; [exact Hb|by apply backup_is_iff]|done].
Qed.

(** *** Terms of quarantine *)
(** Copy [id] was quarantined by a call, from whose instant [term] was counted. *)
Definition quarantined_in (cs : list call) (id : string) (term : Z) : Prop :=
  exists cs1 c cs2, cs = cs1 ++ c :: cs2 /\ term = purgeNotBefore (call_now c) /\
    status_of id (archive cs1) = Some BackupDeleting /\ status_of id (archive (cs1 ++ [c])) = Some BackupQuarantined.

(** The copy was quarantined by [c1], and its purge requested by [c2] 48 hours later or more. *)
Definition purged_in (cs : list call) (id : string) : Prop :=
  exists cs1 c1 cs2 c2 cs3, cs = (cs1 ++ c1 :: cs2) ++ c2 :: cs3 /\
    status_of id (archive cs1) = Some BackupDeleting /\ status_of id (archive (cs1 ++ [c1])) = Some BackupQuarantined /\
    status_of id (archive (cs1 ++ c1 :: cs2)) = Some BackupQuarantined /\
    status_of id (archive ((cs1 ++ c1 :: cs2) ++ [c2])) = Some BackupPurging /\
    call_now c1 + quarantineMinimum <= call_now c2.

Lemma quarantined_in_snoc cs c id term : quarantined_in cs id term -> quarantined_in (cs ++ [c]) id term.
Proof. intros (cs1 & c1 & cs2 & -> & H1). exists cs1, c1, (cs2 ++ [c]). split; [by rewrite <- app_assoc|done]. Qed.
Lemma purged_in_snoc cs c id : purged_in cs id -> purged_in (cs ++ [c]) id.
Proof.
  intros (cs1 & c1 & cs2 & c2 & cs3 & -> & H1). exists cs1, c1, cs2, c2, (cs3 ++ [c]).
  split; [by rewrite <- app_assoc|done].
Qed.

(** The whole second at or after the term. *)
Lemma purgeNotBefore_term t0 t : purgeNotBefore t0 <= unix t -> t0 + quarantineMinimum <= t.
Proof.
  unfold purgeNotBefore, unix, nanosecond, quarantineMinimum, Hour, Minute.
  pose proof (Z.div_mod t0 Second ltac:(done)). pose proof (Z.div_mod t Second ltac:(done)).
  pose proof (Z.mod_pos_bound t0 Second ltac:(done)). pose proof (Z.mod_pos_bound t Second ltac:(done)).
  replace (t0 + 48 * (60 * (60 * Second))) with (t0 + 172800 * Second) by lia.
  rewrite Z.div_add by done. unfold Second in *. case_match; lia.
Qed.

Definition explained (cs : list call) (b : backup) : Prop :=
  match b_Status b with
  | BackupQuarantined => quarantined_in cs (b_ID b) (b_PurgeNotBefore b)
  | BackupPurging => quarantined_in cs (b_ID b) (b_PurgeNotBefore b) /\ purged_in cs (b_ID b)
  | BackupDeleted => purged_in cs (b_ID b)
  | _ => True
  end.

Lemma explained_snoc cs c b : explained cs b -> explained (cs ++ [c]) b.
Proof.
  unfold explained. destruct (b_Status b); try done.
  - apply quarantined_in_snoc.
  - intros [? ?]. split; [by apply quarantined_in_snoc|by apply purged_in_snoc].
  - apply purged_in_snoc.
Qed.

Lemma explained_same cs b b' : b_ID b' = b_ID b -> b_Status b' = b_Status b -> b_PurgeNotBefore b' = b_PurgeNotBefore b ->
  explained cs b -> explained cs b'.
Proof. unfold explained. by intros -> -> ->. Qed.

Lemma explained_step cs c b b' : In b (d_backups (archive cs)) -> In b' (d_backups (archive (cs ++ [c]))) ->
  b_ID b = b_ID b' -> move (event_of c) (core_of (archive cs)) b b' -> explained cs b -> explained (cs ++ [c]) b'.
Proof.
  intros Hb Hb' Hid Hmove Hex.
  pose proof (status_of_in _ b (archive_ok cs) Hb) as Hs. pose proof (status_of_in _ b' (archive_ok (cs ++ [c])) Hb') as Hs'.
  rewrite <- Hid in Hs'. pose proof (explained_snoc cs c b Hex) as Hex'.
  destruct Hmove as [E1 E2|E|E1 E2 E3|E1 E2 E3|E1 E2 E3 E4|o E1 E2].
  - by apply (explained_same _ b).
  - unfold explained. by destruct (b_Status b').
  - unfold explained. rewrite E2, <- Hid. exists cs, c, []. rewrite E1 in Hs. rewrite E2 in Hs'. done.
  - unfold explained in *. rewrite E1 in Hex'. rewrite E2, <- Hid, E3. apply Hex'.
  - unfold explained in *. rewrite E1 in Hex, Hex', Hs. rewrite E2 in Hs'. rewrite E2, <- Hid, E3. split; [done|].
    destruct Hex as (cs1 & c1 & cs2 & -> & Hterm & H1 & H2). exists cs1, c1, cs2, c, []. repeat (split; [done|]).
    apply purgeNotBefore_term. by rewrite <- Hterm.
  - unfold explained in *. rewrite E1 in Hex'. rewrite E2, <- Hid. apply Hex'.
Qed.

Lemma archive_explained cs b : In b (d_backups (archive cs)) -> explained cs b.
Proof.
  revert b. induction cs as [|c cs IH] using rev_ind; intros b Hb; [done|]. pose proof Hb as Hb1. rewrite archive_snoc in Hb1.
  destruct (rstep_back _ _ _ b (archive_ok cs) (store_step_rstep c _ (archive_ok cs)) Hb1) as [E|(b0 & Hb0 & Hid & Hmove)].
  - unfold explained. by rewrite E.
  - by apply (explained_step cs c b0 b), IH.
Qed.
End histories.

(** ** Fences of the maintenance lease *)
Section fences.
Context `{Platform}.

Definition is_lease_call (c : call) : bool :=
  match c with CAcquireLease _ _ _ _ | CReleaseLease _ => true | _ => false end.

Lemma keeps_plan_keys i r e d l : keeps d_lease (plan_keys i r e d l).
Proof. induction l as [|k l IH]; [by intros ? ? ? [= _ <-]|]. cbn [plan_keys]. keep. apply IH. Qed.

Lemma run_keeps_lease c : is_lease_call c = false -> keeps d_lease (run c).
Proof. intros Hc. destruct c; try discriminate Hc; cbn [run]; keep; apply keeps_plan_keys. Qed.

(** The lease passes from generation to generation, never back: an older
    generation, and an owner of another, never hold it again. *)
Definition outdated (l : lease) (d : db) : Prop :=
  l_Generation l < l_Generation (d_lease d) \/
  (l_Generation l = l_Generation (d_lease d) /\ l_Owner (d_lease d) = ""%string).

Lemma acquire_lease_ok owner generation now duration d l d' :
  AcquireMaintenanceLease owner generation now duration d = Ok (l, d') ->
  is_blank owner = false /\ 0 < duration /\ l = d_lease d' /\ l_Owner l = owner /\ l_ExpiresAt l = unix (now + duration) /\
  ((generation = 0 /\ l_ExpiresAt (d_lease d) <= unix now /\ l_Generation l = l_Generation (d_lease d) + 1) \/
   (generation <> 0 /\ generation = l_Generation (d_lease d) /\ owner = l_Owner (d_lease d) /\ unix now < l_ExpiresAt (d_lease d) /\
    l_Generation l = generation)).
Proof.
  unfold AcquireMaintenanceLease. intros Hr. store_step Hr as H1. store_skip Hr. store_skip Hr.
  apply orb_false_iff in H1 as [Hblank Hdur%Z.leb_gt]. split; [done|]. split; [done|].
  destruct (generation =? 0) eqn:Eg; store_step Hr as H2; apply bind_ok in Hr as (u & d1 & Hu & Hr);
    injection Hu as _ <-; apply gets_ok in Hr as [-> ->]; cbn.
  - apply negb_false_iff, andb_true_iff in H2 as [H2 H3]. repeat (split; [done|]). left. lia.
  - apply negb_false_iff, andb_true_iff in H2 as [[H2%String.eqb_eq H3]%andb_true_iff H4].
    repeat (split; [done|]). right. repeat split; (done || lia).
Qed.

Lemma outdated_step l c d : is_blank (l_Owner l) = false -> outdated l d -> outdated l (exec c d).
Proof.
  intros Hb Ho. destruct (exec_cases c d) as [(u & d' & Hr & ->)|(e & _ & ->)]; [|done].
  destruct (is_lease_call c) eqn:Hc.
  - destruct c; try discriminate Hc; cbn [run] in Hr.
    + apply ignore_ok in Hr as [l' Hr]. apply acquire_lease_ok in Hr as (Hb' & _ & -> & Hown & _ & [(_ & _ & Hg)|(_ & Hg0 & Hown' & _ & Hg)]).
      * left. destruct Ho; lia.
      * destruct Ho as [Ho|[Ho1 Ho2]]; [left; lia|]. rewrite Hown', Ho2 in Hb'. done.
    + injection Hr as _ <-. unfold outdated in *. destruct (_ && _); cbn; [|done]. destruct Ho as [?|[? ?]]; [by left|by right].
  - unfold outdated. by rewrite (run_keeps_lease c Hc _ _ _ Hr).
Qed.

Lemma outdated_holds l d now : is_blank (l_Owner l) = false -> outdated l d -> lease_holds l now d = false.
Proof.
  intros Hb Ho. apply not_true_iff_false. intros [[H1%String.eqb_eq H2]%andb_true_iff _]%andb_true_iff.
  destruct Ho as [Ho|[_ Ho]]; [lia|]. rewrite <- H1, Ho in Hb. done.
Qed.

Lemma execs_outdated l cs d : is_blank (l_Owner l) = false -> outdated l d -> outdated l (execs cs d).
Proof.
  intros Hb. revert d. induction cs as [|c cs IH]; intros d Ho; [done|]. rewrite execs_cons. by apply IH, outdated_step.
Qed.

(** Along a history the generation never goes back. *)
Lemma generation_step c d : l_Generation (d_lease d) <= l_Generation (d_lease (exec c d)).
Proof.
  destruct (exec_cases c d) as [(u & d' & Hr & ->)|(e & _ & ->)]; [|lia]. destruct (is_lease_call c) eqn:Hc.
  - destruct c; try discriminate Hc; cbn [run] in Hr.
    + apply ignore_ok in Hr as [l' Hr]. apply acquire_lease_ok in Hr as (_ & _ & -> & _ & _ & [(_ & _ & Hg)|(_ & Hg1 & _ & _ & Hg2)]); lia.
    + injection Hr as _ <-. destruct (_ && _); cbn; lia.
  - by rewrite (run_keeps_lease c Hc _ _ _ Hr).
Qed.
Lemma generation_execs cs d : l_Generation (d_lease d) <= l_Generation (d_lease (execs cs d)).
Proof.
  revert d. induction cs as [|c cs IH]; intros d; [done|]. rewrite execs_cons.
  etrans; [apply generation_step|apply IH].
Qed.
End fences.

(** ** Permissions *)
Section permissions.
Context `{Platform}.

(** The operation was authorized by a call of the history, under the lease of
    that moment, when the archive allowed it. *)
Definition permitted_in (cs : list call) (o : operation) : Prop :=
  exists cs1 l ticket now cs2 op, cs = cs1 ++ CAuthorizeOperation (o_ID o) l ticket now :: cs2 /\
    In op (d_operations (archive cs1)) /\ o_ID op = o_ID o /\ o_BackupID op = o_BackupID o /\ o_Kind op = o_Kind o /\
    o_State op = OpRequested /\ lease_holds l now (archive cs1) = true /\
    o_Revision op = model_revision (archive cs1) /\ destructive_allowed (archive cs1) op now.

Lemma permitted_in_snoc cs c o o' : o_ID o' = o_ID o -> o_BackupID o' = o_BackupID o -> o_Kind o' = o_Kind o ->
  permitted_in cs o -> permitted_in (cs ++ [c]) o'.
Proof.
  intros E1 E2 E3 (cs1 & l & ticket & now & cs2 & op & -> & Hop). exists cs1, l, ticket, now, (cs2 ++ [c]), op.
  rewrite E1, E2, E3. split; [by rewrite <- app_assoc|done].
Qed.

Lemma find_operation_of d o : core_ok (core_of d) -> In o (d_operations d) -> find_operation d (o_ID o) = Some o.
Proof.
  intros Hok Ho. apply find_where_in; [|done|apply Z.eqb_refl]. intros x Hx Hid. by apply (operation_unique d).
Qed.

Lemma authorized_now cs c o o' : In o (d_operations (archive cs)) -> o_State o = OpRequested ->
  ev_authorizes (event_of c) = Some (o_ID o) -> In o' (d_operations (exec c (archive cs))) ->
  o_ID o' = o_ID o -> o_BackupID o' = o_BackupID o -> o_Kind o' = o_Kind o -> o_State o' = OpAuthorized ->
  permitted_in (cs ++ [c]) o'.
Proof.
  intros Ho Hst Hev Ho' E1 E2 E3 Hst'. pose proof (archive_ok cs) as Hok. set (d := archive cs) in *.
  destruct c; try discriminate Hev. injection Hev as ->. cbn [run] in *.
  destruct (exec_cases (CAuthorizeOperation (o_ID o) l ticket now) d) as [(u & d' & Hr & Hex)|(er & _ & Hex)]; rewrite Hex in Ho'.
  - apply ignore_ok in Hr as [r Hr]. apply AuthorizeOperation_inv in Hr as (op & Hop & Hlease & _ & Hcases); [|apply Hok].
    rewrite (find_operation_of d o Hok Ho) in Hop. injection Hop as <-.
    destruct Hcases as [(Hst1 & _)|(_ & Hrev & Hallow & _)]; [congruence|].
    exists cs, l, ticket, now, [], o. by rewrite E1, E2, E3.
  - assert (o' = o) as -> by (by apply (NoDup_map_in o_ID _ o' o (ok_operation_ids _ Hok))). congruence.
Qed.

Lemma archive_permitted cs o : In o (d_operations (archive cs)) -> o_State o = OpAuthorized \/ o_State o = OpConfirmed ->
  permitted_in cs o.
Proof.
  revert o. induction cs as [|c cs IH] using rev_ind; intros o' Ho' Hst'; [done|]. rewrite archive_snoc in Ho'.
  pose proof (archive_ok cs) as Hok.
  destruct (rstep_operation_back _ _ _ o' Hok (store_step_rstep c _ Hok) Ho') as [E|(o & Ho & E1 & E2 & E3 & Hedge)];
    [by rewrite E in Hst'; destruct Hst'|].
  destruct Hedge as [E|[Ha [E|[[E Hev]|[E|(Hst & E & _)]]]]]; try (by rewrite E in Hst'; destruct Hst').
  - apply (permitted_in_snoc cs c o); [done..|]. apply IH; [done|]. by rewrite <- E.
  - apply active_states in Ha as [Ha|Ha]; [by apply (authorized_now cs c o)|].
    apply (permitted_in_snoc cs c o); [done..|]. apply IH; [done|by left].
  - apply (permitted_in_snoc cs c o); [done..|]. apply IH; [done|by left].
Qed.

(** A copy that a call deletes was in the charge of a purge that the call confirms. *)
Lemma deleted_by cs c b b' : In b (d_backups (archive cs)) -> b_Status b <> BackupDeleted ->
  In b' (d_backups (archive (cs ++ [c]))) -> b_ID b' = b_ID b -> b_Status b' = BackupDeleted ->
  exists o, In o (d_operations (archive cs)) /\ ev_finishes (event_of c) = Some (o_ID o) /\ o_State o = OpAuthorized /\
    o_Kind o = OpPurge /\ o_BackupID o = b_ID b.
Proof.
  intros Hb Hst Hb' Hid Hst'. pose proof (archive_ok cs) as Hok. rewrite archive_snoc in Hb'.
  destruct (rstep_back _ _ _ b' Hok (store_step_rstep c _ Hok) Hb') as [E|(b0 & Hb0 & Hid0 & Hmove)]; [congruence|].
  assert (b0 = b) as -> by (apply (NoDup_map_in b_ID _ b0 b (ok_backup_ids _ Hok)); [done..|congruence]).
  destruct Hmove as [E|E|? E|? E|? E|o ? ? Ho Hev Hos Hk Hbid]; try congruence.
  - by rewrite Hst' in E.
  - by exists o.
Qed.
End permissions.

(** ** A history

    A key, two deposits on two days, the activation of the automation; three weeks
    later the first copy is quarantined and three days after it is purged. *)
Module Scenario.
Definition key_id : string := "0123456789abcdef0123456789abcdef".
Definition digest : string := (key_id ++ key_id)%string.
Definition platform : Platform := {|
  LoadLocation := fun name => if String.eqb name "UTC" then Ok UTC else Err (ErrText "unknown time zone");
  sha256_hex := fun s => if String.eqb s "0123456789" then digest else ("h" ++ s)%string; ParseAddress := fun _ => true; ParseAddressList := fun _ => true;
  json_compact := fun s => Ok s; json_model := fun _ => Err (ErrText "json");
  local_time_text := fun _ _ => ""%string; julianday := fun _ => 0 |}.
#[export] Existing Instance platform.

Definition backup_name (c : string) : string := (c ++ "123456789abcdef0123456789abcdef")%string.
Definition document : metadata := Metadata "archivio" "archivio.tar.cpt" "" .
Definition day (n : Z) : Z := (19700 + n) * (24 * Hour) + 8 * Hour.

Definition deposit (c ik : string) (n : Z) : list call :=
  [ CReserve "token" document 10 digest ik (day n) None (backup_name c); CComplete (backup_name c) (day n + Second) ].
Definition setup : list call :=
  [ CSetupAutomationMode (MailSettings 0 "smtp" 25 true "da" "a") "UTC" "auto" (day 2);
    CMarkMailTested (day 2); CSetCheckState MonitoringRegular 1 (day 20); CResumeRetention (day 20) ].
Definition ticket : string := "biglietto".
Definition serve (operation lease_no n : Z) : list call :=
  let l := Lease "manutenzione" lease_no 0 in
  [ CAcquireLease "manutenzione" 0 (day n + 3 * Hour) Hour; CAuthorizeOperation operation l ticket (day n + 3 * Hour);
    CValidateOperation operation ticket l (day n + 3 * Hour); CConfirmOperation operation ticket true "" l (day n + 3 * Hour + Minute) ].
Definition opening : list call :=
  CCreateKey "ufficio" "S" key_id "token" :: deposit "a" "" 0 ++ deposit "b" "" 1 ++ setup.
Definition life : list call :=
  opening ++ CRequestQuarantine (backup_name "a") "manual" "admin" "" (day 20 + Minute) :: serve 1 1 20 ++
  CRequestPurge (backup_name "a") "manual" "admin" "" (day 23) :: serve 2 2 23.
End Scenario.
