(* ===== verification/Holds.v ===== *)
(** The holds on deletions: while an anomaly that cannot be excluded is open,
    deletions are blocked, whatever is called. *)
From S2P Require Import Prelude GoTime GoFloat GoString Model Policy Schedule Catalog Anomalies Automation Retention.
From S2P Require Import RetentionMachine Deposit Checks Mail Store Archive.

(** An open anomaly that no exclusion covers, the warning on the quarantine
    margin apart: it blocks deletions by itself. *)
Definition hard_anomaly (a : anomaly) : bool :=
  open_anomaly a && negb (String.eqb (a_Kind a) "capacity" && String.eqb (a_StableKey a) QuarantineMarginAnomalyKey) &&
  negb (excludable (a_Kind a)).

Definition hold_ok (d : db) : Prop :=
  forall a, In a (d_anomalies d) -> hard_anomaly a = true -> au_DeletionBlocked (d_automation d) = true.

(** A statement under which the hold is kept. *)
Definition holds {A} (m : tx A) : Prop := forall d a d', m d = Ok (a, d') -> hold_ok d -> hold_ok d'.

Definition hold_part (d : db) : automation * list anomaly := (d_automation d, d_anomalies d).

Create HintDb holds.

Lemma holds_keeps {A} (m : tx A) : keeps hold_part m -> holds m.
Proof. intros Hk d a d' Hr Hh. apply Hk in Hr. injection Hr as E1 E2. unfold hold_ok. by rewrite E1, E2. Qed.
Lemma holds_bind {A B} (m : tx A) (f : A -> tx B) : holds m -> (forall a, holds (f a)) -> holds (m ≫= f).
Proof. intros Hm Hf d b d' (a & d1 & H1 & H2)%bind_ok Hh. by apply (Hf _ _ _ _ H2), (Hm _ _ _ H1). Qed.
Lemma holds_if {A} (c : bool) (m n : tx A) : holds m -> holds n -> holds (if c then m else n).
Proof. by destruct c. Qed.
Lemma holds_iter {A} (f : A -> tx unit) l : (forall a, holds (f a)) -> holds (tx_iter f l).
Proof. intros Hf. induction l as [|a l IH]; [by intros ? ? ? [= _ <-]|]. apply holds_bind; [done|by intros _]. Qed.
Lemma holds_ignore {A} (m : tx A) : holds m -> holds (ignore m).
Proof. intros Hm. apply holds_bind; [done|]. by intros a d b d' [= _ <-]. Qed.

(** Statements on the automation that never unblock. *)
Lemma holds_automation f : (forall a, au_DeletionBlocked a = true -> au_DeletionBlocked (f a) = true) -> holds (update_automation f).
Proof. intros Hf d u d' [= _ <-] Hh a Ha Hard. apply Hf. by apply (Hh a). Qed.
Lemma holds_record_check st revision now : holds (update_automation (record_check st revision now)).
Proof. apply holds_automation. intros a Ha. unfold record_check. cbn. by case_match. Qed.
(** Statements on the anomalies that open none. *)
Lemma holds_anomalies p f : (forall a, p a = true -> hard_anomaly (f a) = true -> hard_anomaly a = true) -> holds (update_anomalies p f).
Proof.
  intros Hf d n d' [= _ <-] Hh a Ha Hard. cbn in Ha |- *. apply in_update_where in Ha as (y & Hy & ->).
  apply (Hh y Hy). destruct (p y) eqn:E; [by apply Hf|done].
Qed.
Lemma hard_same (a a' : anomaly) : (open_anomaly a' = true -> open_anomaly a = true) -> a_Kind a' = a_Kind a ->
  a_StableKey a' = a_StableKey a -> hard_anomaly a' = true -> hard_anomaly a = true.
Proof. unfold hard_anomaly. intros Ho -> ->. rewrite !andb_true_iff. tauto. Qed.

Lemma hard_blocks d now a : In a (d_anomalies d) -> hard_anomaly a = true -> 0 < blockingAnomalyCount d now.
Proof.
  intros Ha Hard. apply count_where_pos. exists a. split; [done|]. unfold hard_anomaly in Hard. unfold blocking_anomaly.
  rewrite !andb_true_iff in Hard. destruct Hard as [[-> ->] ->]. done.
Qed.
(** With no blocking anomaly, anything goes. *)
Lemma no_hard d now : blockingAnomalyCount d now = 0 -> forall a, In a (d_anomalies d) -> hard_anomaly a = true -> False.
Proof. intros Hc a Ha Hard. pose proof (hard_blocks d now a Ha Hard). lia. Qed.

(** ** Opening an anomaly *)
Section opening.
Context `{Platform}.

Lemma insert_anomaly_hold a d u d' : insert_anomaly a d = Ok (u, d') -> hold_ok d ->
  (hard_anomaly a = true -> au_DeletionBlocked (d_automation d') = true) -> hold_ok d'.
Proof.
  unfold insert_anomaly. destruct (_ && _); [done|]. intros [= _ <-] Hh Hnew x Hx Hard. cbn in *.
  apply in_app_iff in Hx as [Hx|[<-|[]]]; [by apply (Hh x)|]. apply Hnew. exact Hard.
Qed.

Lemma hard_always_blocks d stableKey kind keyID detail eventAt backupID now :
  hard_anomaly (new_anomaly stableKey kind keyID backupID detail eventAt now) = true ->
  anomalyBlocks d stableKey kind keyID now = true.
Proof.
  unfold hard_anomaly, anomalyBlocks. cbn [a_Kind a_StableKey new_anomaly]. rewrite !andb_true_iff. intros [[_ Hm] Hx].
  assert (String.eqb kind "extra" = false) as ->.
  { apply String.eqb_neq. intros ->. by rewrite negb_true_iff in Hx. }
  rewrite Hx. unfold IsQuarantineMarginWarning. apply negb_true_iff in Hm. rewrite Hm. done.
Qed.

Lemma holds_recordExcluded s k i b t e n : excludable k = true -> holds (recordExcludedAnomaly s k i b t e n).
Proof.
  intros Hk. unfold recordExcludedAnomaly. apply holds_bind; [apply holds_keeps; keep|intros ex].
  apply holds_bind; [apply holds_keeps; keep|intros x]. cbv zeta. apply holds_bind.
  - apply holds_anomalies. intros a _. by apply hard_same.
  - intros m. apply holds_if; [apply holds_keeps; keep|]. intros d u d' Hr Hh. apply (insert_anomaly_hold _ _ _ _ Hr Hh).
    unfold hard_anomaly. cbn [a_Kind]. rewrite Hk. by rewrite andb_false_r.
Qed.

Lemma holds_openAnomalyAt s k i b t e n : holds (openAnomalyAt s k i b t e n).
Proof.
  unfold openAnomalyAt. apply holds_bind; [apply holds_keeps; keep|intros _].
  intros d r d' Hr Hh. apply bind_ok in Hr as (excluded & d1 & He & Hr). apply gets_ok in He as [-> ->].
  destruct (anomalyExcluded d i k e) eqn:Ex.
  - assert (excludable k = true) as Hk.
    { unfold anomalyExcluded in Ex. destruct (_ || _) eqn:E; [done|]. apply orb_false_iff in E as [_ E]. by apply negb_false_iff in E. }
    revert Hr Hh. apply holds_bind; [by apply holds_recordExcluded|]. intros _. apply holds_keeps. keep.
  - apply bind_ok in Hr as (m & d1 & Hu & Hr).
    assert (hold_ok d1) as Hh1.
    { revert Hu Hh. apply holds_anomalies. intros a _. by apply hard_same. }
    destruct (negb (m =? 0)); [by apply ret_ok in Hr as [_ ->]|].
    apply bind_ok in Hr as (u & d2 & Hins & Hr). apply bind_ok in Hr as (blocks & d3 & Hb & Hr). apply gets_ok in Hb as [-> ->].
    apply bind_ok in Hr as (u2 & d3 & Hblock & Hr).
    assert (keeps hold_part (
      text ← tx_gets (fun d => if String.eqb k "schedule_missing" then missingBackupMail d i e else anomalyMail s k t);
      _ ← insert_mail ("anomaly:" ++ s ++ ":" ++ pretty (unix n)) "anomaly" (fst text) (snd text) (unix n);
      mret true)) as Hmail by keep.
    apply Hmail in Hr. injection Hr as E1 E2. unfold hold_ok. rewrite E1, E2. clear E1 E2 Hmail.
    assert (hold_ok d2 \/ anomalyBlocks d2 s k i n = true) as Hcases.
    { destruct (hard_anomaly (new_anomaly s k i b t e n)) eqn:Hard.
      - right. exact (hard_always_blocks d2 s k i t e b n Hard).
      - left. apply (insert_anomaly_hold _ _ _ _ Hins Hh1). rewrite Hard. done. }
    destruct (anomalyBlocks d2 s k i n); [injection Hblock as _ <-; done|].
    apply ret_ok in Hblock as [_ ->]. by destruct Hcases.
Qed.
Lemma holds_openAnomaly s k i b t n : holds (openAnomaly s k i b t n).
Proof. unfold openAnomaly. apply holds_bind; [apply holds_openAnomalyAt|intros _; apply holds_keeps; keep]. Qed.
End opening.
#[export] Hint Resolve holds_recordExcluded holds_openAnomalyAt holds_openAnomaly : holds.

Ltac hold_automation :=
  let a := fresh "a" in let Ha := fresh "Ha" in
  apply holds_automation; intros a Ha;
  first [ exact Ha | reflexivity | cbn; repeat case_match; first [ exact Ha | reflexivity ] ].
(** Either the edit keeps the anomaly open or closed, or it only closes open ones. *)
Ltac hold_anomalies :=
  let a := fresh "a" in let Hp := fresh "Hp" in
  apply holds_anomalies; intros a Hp; apply hard_same; try reflexivity; intros Ho;
  first [ exact Ho | repeat (rewrite andb_true_iff in Hp); tauto ].
Ltac hold :=
  repeat first
    [ solve [auto with holds]
    | apply holds_bind; [|intros ?; cbv beta iota zeta]
    | apply holds_iter; intros ?
    | apply holds_if
    | solve [hold_automation]
    | solve [hold_anomalies]
    | match goal with |- holds (match ?x with _ => _ end) => destruct x end
    | solve [apply holds_keeps; first [apply keeps_select | keep_statement]]
    | match goal with |- holds ?m => let h := head_of m in unfold h; cbv beta iota zeta end ].

(** ** The calls that may unblock *)
Section unblocking.
Context `{Platform}.

(** Deletions are unblocked when nothing blocking is open. *)
Lemma unblock_hold d d' now : d_anomalies d' = d_anomalies d -> blockingAnomalyCount d now = 0 -> hold_ok d'.
Proof. intros E Hc a Ha Hard. rewrite E in Ha. destruct (no_hard d now Hc a Ha Hard). Qed.

Lemma holds_ResumeRetention now : holds (ResumeRetention now).
Proof.
  unfold ResumeRetention. intros d u d' Hr Hh. store_skip Hr. store_step Hr as Hg. injection Hr as _ <-.
  rewrite !orb_false_iff in Hg. apply (unblock_hold d _ now); [done|]. destruct Hg as ((((((_ & _) & Hc) & _) & _) & _) & _).
  by apply negb_false_iff, Z.eqb_eq in Hc.
Qed.

Lemma holds_TryClear id now : holds (TryClearResolvedMaintenanceBlock id now).
Proof.
  unfold TryClearResolvedMaintenanceBlock. intros d u d' Hr Hh. store_skip Hr. store_skip Hr.
  destruct (find_where _ _) as [a|]; [|by apply ret_ok in Hr as [_ ->]].
  destruct (_ || _) eqn:E1 in Hr; [by apply ret_ok in Hr as [_ ->]|].
  destruct (_ || _) eqn:E2 in Hr; [by apply ret_ok in Hr as [_ ->]|].
  destruct (_ && _) in Hr; [|by apply ret_ok in Hr as [_ ->]].
  apply bind_ok in Hr as (x & d1 & Hu & Hr). injection Hu as _ <-. apply ret_ok in Hr as [_ ->].
  apply (unblock_hold d _ now); [done|]. rewrite !orb_false_iff in E2. destruct E2 as ((E2 & _) & _). by apply negb_false_iff, Z.eqb_eq in E2.
Qed.

Lemma holds_CreateExclusion i s e a r k n : holds (CreateAnomalyExclusion i s e a r k n).
Proof.
  unfold CreateAnomalyExclusion. do 5 (apply holds_bind; [hold|intros ?; cbv beta iota zeta]).
  apply holds_bind; [apply holds_keeps; keep|intros id]. apply holds_bind; [hold|intros m].
  intros d u d' Hr Hh. store_skip Hr. destruct (_ && _) eqn:E in Hr.
  - apply bind_ok in Hr as (x & d1 & Hu & Hr). injection Hu as _ <-. apply ret_ok in Hr as [_ ->].
    apply (unblock_hold d _ n); [done|]. rewrite !andb_true_iff in E. destruct E as ((E & _) & _). by apply Z.eqb_eq.
  - apply bind_ok in Hr as (x & d1 & Hu & Hr). apply ret_ok in Hu as [_ ->]. by apply ret_ok in Hr as [_ ->].
Qed.

(** An activation needs the regular state, which the check recorded only when
    nothing blocking was open. *)
Lemma holds_finish_check id outcome summary state revision now :
  holds (blocking ← tx_gets (fun d => blockingAnomalyCount d now);
         let state := if 0 <? blocking then MonitoringAnomaly else state in
         _ ← update_automation (record_check state revision now);
         n ← update_checks (check_running id)
               (fun c => c <| c_Status := outcome |> <| c_FinishedAt := Some (unix now) |> <| c_Summary := summary |>);
         _ ← tx_guard (negb (n =? 1)) (ErrText "controllo non piu in corso");
         _ ← activateRetentionAfterCheck;
         cleanupMonitoringChecks (unix (now - monitoringCheckRetention))).
Proof.
  intros d u d' Hr Hh. store_skip Hr. apply bind_ok in Hr as (x & d1 & Hu & Hr). injection Hu as _ <-.
  set (st := if 0 <? blockingAnomalyCount d now then MonitoringAnomaly else state) in Hr.
  set (d1 := d <| d_automation ::= record_check st revision now |>) in Hr.
  assert (hold_ok d1) as Hh1.
  { by apply (holds_record_check st revision now d tt). }
  apply bind_ok in Hr as (n & d2 & Hu & Hr). injection Hu as _ <-. store_skip Hr.
  apply bind_ok in Hr as (y & d2 & Ha & Hr).
  assert (keeps hold_part (cleanupMonitoringChecks (unix (now - monitoringCheckRetention)))) as Hclean by keep.
  apply Hclean in Hr. injection Hr as E1 E2. unfold hold_ok. rewrite E1, E2. clear Hclean E1 E2.
  unfold activateRetentionAfterCheck in Ha. store_skip Ha. destruct (activation_ready _) eqn:Eready; [|by apply ret_ok in Ha as [_ ->]].
  injection Ha as _ <-. intros a Hin Hard. exfalso. cbn in Hin.
  pose proof (hard_blocks d now a Hin Hard) as Hpos. unfold activation_ready in Eready. cbn [d_automation] in Eready.
  rewrite !andb_true_iff in Eready. destruct Eready as [[[[[[_ Es] _] _] _] _] _].
  assert (st = MonitoringAnomaly) as Est by (unfold st; by rewrite (proj2 (Z.ltb_lt 0 _) Hpos)).
  revert Es. subst d1. cbn. rewrite Est. done.
Qed.

Lemma holds_CompleteMonitoringCheck id o s st r fs n : holds (CompleteMonitoringCheck id o s st r fs n).
Proof.
  unfold CompleteMonitoringCheck. do 8 (apply holds_bind; [hold|intros ?; cbv beta iota zeta]).
  apply holds_bind; [unfold record_findings; hold|intros ?]. apply holds_finish_check.
Qed.
End unblocking.
#[export] Hint Resolve holds_ResumeRetention holds_TryClear holds_CreateExclusion holds_CompleteMonitoringCheck
  holds_record_check : holds.

(** ** Every call *)
Section calls.
Context `{Platform}.

Lemma holds_plan_keys i r e d l : holds (plan_keys i r e d l).
Proof. induction l as [|k l IH]; [by intros ? ? ? [= _ <-]|]. cbn [plan_keys]. hold. Qed.

Lemma run_holds c : holds (run c).
Proof.
  destruct c; cbn [run]; try apply holds_ignore; try solve [auto with holds]; hold; apply holds_plan_keys.
Qed.

Lemma archive_hold cs : hold_ok (archive cs).
Proof.
  induction cs as [|c cs IH] using rev_ind; [by intros a|]. rewrite archive_snoc.
  destruct (exec_cases c (archive cs)) as [(u & d' & Hr & ->)|(e & _ & ->)]; [|done]. by apply (run_holds c _ _ _ Hr).
Qed.
End calls.
