(* ===== verification/Guarantees.v ===== *)
(** What the catalogue promises to the archive, over every history of calls
    from its creation, with a complete history as an example. *)
From S2P Require Import Prelude GoTime GoFloat GoString Model Policy Schedule Catalog Anomalies Automation Retention.
From S2P Require Import RetentionMachine Deposit Checks Mail Store Archive Holds.

Section guarantees.
Context `{Platform}.

(** ** Histories *)

(** C16. Each call of the store is one step of the retention machine: from a
    well-formed core it leaves the keys, copies and retention operations as they
    were (an error included) or performs one allowed transition, and the core
    stays well-formed. *)
Theorem store_refines_retention_machine c d : core_ok (core_of d) ->
  rstep (event_of c) (core_of d) (core_of (exec c d)) /\ core_ok (core_of (exec c d)).
Proof. intros Hok. pose proof (store_step_rstep c d Hok) as Hs. split; [exact Hs|exact (rstep_ok _ _ _ Hok Hs)]. Qed.

(** C20. In every reachable catalogue identifiers and token hashes are unique,
    every copy belongs to a key, each active operation holds its copy in the
    status of its kind and no copy has two, copies being moved are in the charge
    of an operation, a withdrawn copy has 48 hours of quarantine at least, an
    idempotency key names one deposit, and a request holds no permission. *)
Theorem archive_well_formed cs : core_ok (core_of (archive cs)).
Proof. apply archive_ok. Qed.

(** A deposit is never forgotten nor rewritten: whatever is called later, its
    row stays with its key, size, digest, metadata and idempotency key, once
    received with its instants too, and its status moves along the life cycle. *)
Lemma deposits_immutable cs cs' b : In b (d_backups (archive cs)) ->
  exists b', In b' (d_backups (archive (cs ++ cs'))) /\ same_deposit b b' /\
    rtc (fun s s' => status_edge s s' = true) (b_Status b) (b_Status b').
Proof. intros Hb. rewrite archive_app. apply execs_follow; [apply archive_ok|exact Hb]. Qed.

(** C19. A key that has a complete copy always keeps one, whatever is requested,
    confirmed, cancelled, revoked or reconciled. *)
Theorem last_complete_copy_kept cs cs' k : has_copy k (core_of (archive cs)) -> has_copy k (core_of (archive (cs ++ cs'))).
Proof.
  intros Hk. rewrite archive_app.
  refine (proj2 (execs_preserve (has_copy k) cs' (archive cs) _ (archive_ok cs) Hk)).
  intros e c c' Hok Hs. exact (rstep_keeps_copy e c c' k Hok Hs).
Qed.

(** C17. A deleted copy went through the quarantine: an earlier call of the history
    quarantined it, and the call that requested its purge came 48 hours after or
    later. *)
Theorem purge_after_quarantine cs b : In b (d_backups (archive cs)) -> b_Status b = BackupDeleted -> purged_in cs (b_ID b).
Proof. intros Hb Hs. pose proof (archive_explained cs b Hb) as He. unfold explained in He. by rewrite Hs in He. Qed.

(** C18. A copy is deleted only by the confirmation, under the present lease and
    with the ticket of its authorization, or by the reconciliation of a purge that
    an earlier call authorized, when nothing held the retention back. *)
Theorem deletion_authorized cs c b b' : In b (d_backups (archive cs)) -> b_Status b <> BackupDeleted ->
  In b' (d_backups (archive (cs ++ [c]))) -> b_ID b' = b_ID b -> b_Status b' = BackupDeleted ->
  exists o, In o (d_operations (archive cs)) /\ o_State o = OpAuthorized /\ o_Kind o = OpPurge /\ o_BackupID o = b_ID b /\
    permitted_in cs o /\
    match c with
    | CConfirmOperation id ticket physicalDone _ l now =>
      id = o_ID o /\ physicalDone = true /\ lease_holds l now (archive cs) = true /\ ticket_matches o ticket l = true
    | CReconcileAuthorized id _ => id = o_ID o
    | _ => False
    end.
Proof.
  intros Hb Hst Hb' Hid Hst'. pose proof (archive_ok cs) as Hok.
  destruct (deleted_by cs c b b' Hb Hst Hb' Hid Hst') as (o & Ho & Hev & Hos & Hk & Hbid).
  exists o. repeat (split; [done|]). split; [by apply archive_permitted; [|left]|].
  assert ((exists id ticket detail l now, c = CConfirmOperation id ticket true detail l now /\ id = o_ID o) \/
          exists id now, c = CReconcileAuthorized id now /\ id = o_ID o) as [(id & ticket & detail & l & now & -> & Hid')|(id & now & -> & ->)];
    [|clear Hev|done].
  { destruct c; try discriminate Hev; [destruct physicalDone; [|discriminate Hev]; left|right]; injection Hev as Hev; eauto 10. }
  rewrite archive_snoc in Hb'.
  match type of Hb' with context [exec ?c _] => destruct (exec_cases c (archive cs)) as [(u & d' & Hr & Hex)|(er & _ & Hex)] end;
    rewrite Hex in Hb'; [cbn [run] in Hr|].
  - apply ConfirmOperation_inv in Hr as (op & Hop & Hl & Ht & Hcases). rewrite Hid', (find_operation_of _ o Hok Ho) in Hop.
    injection Hop as <-. split; [done|]. split; [|done].
    by destruct Hcases as [(_ & _ & _)|[(_ & ? & _)|(_ & _ & _)]].
  - by rewrite (NoDup_map_in b_ID _ b' b (ok_backup_ids _ Hok) Hb' Hb Hid) in Hst'.
Qed.

(** The permission to touch a file: a validation that succeeds is that of an
    authorized operation, with its last ticket and under the present lease; unless
    the operation had been committed before, its authorization is of the present
    model revision, no upload is in progress, no hold is in force (its own
    reconciled incident apart), its key is in use and its copy is past the
    retention minimum. *)
Lemma validation_permits cs id ticket l now d' : ValidateOperation id ticket l now (archive cs) = Ok (tt, d') ->
  exists o, In o (d_operations (archive cs)) /\ o_ID o = id /\ o_State o = OpAuthorized /\
    ticket_matches o ticket l = true /\ lease_holds l now (archive cs) = true /\ permitted_in cs o /\
    (o_ExecutionCommitted o = false ->
     o_Revision o = model_revision (archive cs) /\ destructive_allowed (archive cs) o now) /\
    exists o', In o' (d_operations d') /\ o_ID o' = id /\ o_State o' = OpAuthorized /\ o_ExecutionCommitted o' = true.
Proof.
  intros (o & Hop & Hl & Hst & Ht & Hcases)%ValidateOperation_inv. apply find_operation_in in Hop as [Ho Hid].
  exists o. repeat (split; [done|]). split; [by apply archive_permitted; [|left]|].
  destruct Hcases as [[Hc ->]|(Hc & Hrev & Hall & Hcore)].
  - split; [by rewrite Hc|]. by exists o.
  - split; [done|]. exists (commit_execution o). apply (f_equal c_operations) in Hcore. cbn in Hcore. rewrite Hcore.
    split; [|done]. apply in_update_new; [done|]. unfold operation_id_is, has_state.
    by rewrite Hid, Z.eqb_refl, Hst, bool_decide_true.
Qed.

(** Revocation protects for ever: once a key is revoked, no later request to
    quarantine or purge one of its copies succeeds, nor does a new authorization
    or a first validation of an operation on them other than a recovery. *)
Lemma revoked_copies_protected cs cs' k b origin actor reason now :
  (exists x, In x (d_keys (archive cs)) /\ k_ID x = k /\ k_Revoked x = true) ->
  In b (d_backups (archive (cs ++ cs'))) -> b_KeyID b = k ->
  is_ok (RequestQuarantine (b_ID b) origin actor reason now (archive (cs ++ cs'))) = false /\
  is_ok (RequestPurge (b_ID b) origin actor reason now (archive (cs ++ cs'))) = false /\
  forall o, In o (d_operations (archive (cs ++ cs'))) -> o_BackupID o = b_ID b -> destructive o = true ->
    o_ExecutionCommitted o = false ->
    (forall l ticket, is_ok (AuthorizeOperation (o_ID o) l ticket now (archive (cs ++ cs'))) = false) /\
    (forall l ticket, is_ok (ValidateOperation (o_ID o) ticket l now (archive (cs ++ cs'))) = false).
Proof.
  intros (x & Hx & Hid & Hrev) Hb Hk. rewrite archive_app in *. pose proof (execs_ok cs' _ (archive_ok cs)) as Hok.
  destruct (execs_key cs' (archive cs) x (archive_ok cs) Hx) as (x' & Hx' & E1 & _ & E3). specialize (E3 Hrev).
  set (d := execs cs' (archive cs)) in *. clearbody d.
  assert (forall y, find_key d (b_KeyID b) = Some y -> k_Revoked y = true) as Hkey.
  { intros y [Hy Ey]%find_key_in. by rewrite (NoDup_map_in k_ID _ y x' (ok_key_ids _ Hok) Hy Hx') by congruence. }
  assert (forall o, o_BackupID o = b_ID b -> destructive o = true -> ~ destructive_allowed d o now) as Hno.
  { intros o Eo Hd (_ & _ & y & z & Hy & Hz & Hzr & _)%(fun f => f Hd). rewrite Eo, (find_backup_of d b Hok Hb) in Hy.
    injection Hy as <-. by rewrite (Hkey z Hz) in Hzr. }
  split; [|split]; [..|intros o Ho Eo Hd Hc; split; intros l ticket]; apply is_ok_false; intros [u d'] Hr.
  - apply RequestQuarantine_inv in Hr as (y & z & _ & _ & Hy & Hz & Hzr & _). rewrite (find_backup_of d b Hok Hb) in Hy.
    injection Hy as <-. by rewrite (Hkey z Hz) in Hzr.
  - apply RequestPurge_inv in Hr as (y & z & Hy & Hz & Hzr & _). rewrite (find_backup_of d b Hok Hb) in Hy.
    injection Hy as <-. by rewrite (Hkey z Hz) in Hzr.
  - apply AuthorizeOperation_inv in Hr as (op & Hop & _ & _ & Hcases); [|apply Hok].
    rewrite (find_operation_of d o Hok Ho) in Hop. injection Hop as <-.
    destruct Hcases as [(_ & Hc' & _)|(_ & _ & Hall & _)]; [congruence|]. exact (Hno o Eo Hd Hall).
  - apply ValidateOperation_inv in Hr as (op & Hop & _ & _ & _ & Hcases).
    rewrite (find_operation_of d o Hok Ho) in Hop. injection Hop as <-.
    destruct Hcases as [(Hc' & _)|(_ & _ & Hall & _)]; [congruence|]. exact (Hno o Eo Hd Hall).
Qed.

(** C37. Idempotency: two reservations that succeed with the same token and the same
    idempotency key, whatever happens in between, work on the same deposit, for the
    same content. *)
Theorem idempotent_deposit cs cs' token ik m1 s1 g1 now1 ch1 id1 b1 d1 m2 s2 g2 now2 ch2 id2 b2 d2 : ik <> ""%string ->
  ReserveIdempotentChecked token m1 s1 g1 ik now1 ch1 id1 (archive cs) = Ok (b1, d1) ->
  ReserveIdempotentChecked token m2 s2 g2 ik now2 ch2 id2 (execs cs' d1) = Ok (b2, d2) ->
  b_ID b2 = b_ID b1 /\ m2 = m1 /\ s2 = s1 /\ g2 = g1.
Proof.
  intros Hik Hr1 Hr2.
  assert (core_ok (core_of d1)) as Hok1.
  { exact (rstep_ok _ _ _ (archive_ok cs) (Reserve_step (Event now1 None None None None) _ _ _ _ _ _ _ _ _ _ _ (archive_ok cs) Hr1)). }
  destruct (reserved_row _ _ _ _ _ _ _ _ _ _ _ (archive_ok cs) Hik Hr1) as (k & x & Hk & Hh & Hx & <- & Hxk & Hxi & Hxs & Hxg & Hxm).
  assert (exists k1, In k1 (d_keys d1) /\ same_key k k1) as (k1 & Hk1 & E1 & E2 & _).
  { apply (rstep_key _ _ _ k (Reserve_step (Event now1 None None None None) _ _ _ _ _ _ _ _ _ _ _ (archive_ok cs) Hr1) Hk). }
  destruct (execs_key cs' d1 k1 Hok1 Hk1) as (k2 & Hk2 & E3 & E4 & _).
  destruct (execs_follow cs' d1 x Hok1 Hx) as (x2 & Hx2 & [Hident Hsize Hdig Hmeta _] & _). injection Hident as I1 I2 I3.
  pose proof (execs_ok cs' d1 Hok1) as Hok2. set (e := execs cs' d1) in *. clearbody e.
  apply Reserve_inv in Hr2 as (_ & _ & _ & _ & kk & p & state & Hkey & Hst & Hcases).
  apply key_of_token_some in Hkey as (Hkk & Hhash & _). rewrite (proj2 (String.eqb_neq ik "") Hik) in Hst.
  assert (kk = k2) as -> by (apply (NoDup_map_in k_TokenHash _ kk k2 (ok_token_hashes _ Hok2)); [done..|congruence]).
  assert (idempotent_backup (k_ID k2) ik e = Some x2) as Hfound.
  { apply find_where_in; [|done|unfold of_key; apply andb_true_iff; rewrite !String.eqb_eq; split; congruence].
    intros y Hy [Hyk%String.eqb_eq Hyi%String.eqb_eq]%andb_true_iff.
    apply (NoDup_map_in b_ID _ y x2 (ok_backup_ids _ Hok2)); [done..|].
    apply (ok_idempotency _ Hok2); [done..|congruence|congruence|congruence]. }
  rewrite Hfound in Hst. destruct state as [|id|y].
  - exfalso. unfold check_idempotency in Hst. destruct (_ || _) in Hst; [done|]. by destruct (b_Status x2).
  - apply check_idempotency_resume in Hst as (y & [= <-] & <- & _ & H2 & H3 & H4).
    destruct Hcases as [[? _]|(_ & _ & _ & -> & _)]; [done|]. cbn [b_ID receiving_backup]. repeat split; congruence.
  - apply check_idempotency_receipt in Hst as ([= <-] & _ & H2 & H3 & H4).
    destruct Hcases as [[[= <-] _]|(Hno & _)]; [|by destruct (Hno x2)]. repeat split; congruence.
Qed.
(** ** The lease *)

(** C36. The lease fences its holders: when it is acquired again after an
    acquisition, the earlier one has expired or was released, the generation has
    grown, and whatever follows the earlier lease never holds again. *)
Theorem lease_fencing cs cs' cs'' o1 g1 t1 n1 l1 d1 o2 t2 n2 l2 d2 now :
  AcquireMaintenanceLease o1 g1 t1 n1 (archive cs) = Ok (l1, d1) ->
  AcquireMaintenanceLease o2 0 t2 n2 (execs cs' d1) = Ok (l2, d2) ->
  l_Generation l1 < l_Generation l2 /\ l_ExpiresAt (d_lease (execs cs' d1)) <= unix t2 /\
  lease_holds l1 now (execs cs'' d2) = false.
Proof.
  intros (Hb & _ & -> & <- & _ & _)%acquire_lease_ok Hr2.
  pose proof (generation_execs cs' d1) as Hmono.
  apply acquire_lease_ok in Hr2 as (_ & _ & -> & _ & _ & [(_ & Hexp & Hgen)|(Hg & _)]); [|done].
  split; [lia|]. split; [done|]. apply outdated_holds; [done|]. apply execs_outdated; [done|]. left. lia.
Qed.

(** ** Holds *)

(** C26. An open anomaly that exclusions cannot cover (a missing or altered file, a
    failed operation, no space left, anything but an upload, timing, count or
    margin warning) blocks deletions whatever was called since: nothing can be
    requested for quarantine or purge, and what was already requested is
    authorized only as the retry of its own reconciled incident. *)
Theorem open_anomaly_holds cs a : In a (d_anomalies (archive cs)) -> hard_anomaly a = true ->
  au_DeletionBlocked (d_automation (archive cs)) = true /\
  (forall id origin actor reason now, is_ok (RequestQuarantine id origin actor reason now (archive cs)) = false) /\
  (forall id origin actor reason now, is_ok (RequestPurge id origin actor reason now (archive cs)) = false) /\
  forall o l ticket now, In o (d_operations (archive cs)) -> destructive o = true -> o_ExecutionCommitted o = false ->
    is_ok (AuthorizeOperation (o_ID o) l ticket now (archive cs)) = true ->
    canRetryReconciledOperation (archive cs) o now = true.
Proof.
  intros Ha Hard. pose proof (archive_hold cs a Ha Hard) as Hb. pose proof (archive_ok cs) as Hok.
  set (d := archive cs) in *. clearbody d. split; [done|].
  assert (blocked (d_automation d) = true) as Hblocked by (unfold blocked; by rewrite Hb).
  split; [|split]; [intros id origin actor reason now; apply is_ok_false; intros [op d'] Hr..|].
  - apply RequestQuarantine_inv in Hr as (b & k & loc & _ & _ & _ & _ & Hnb & _). congruence.
  - apply RequestPurge_inv in Hr as (b & k & _ & _ & _ & Hnb & _). congruence.
  - intros o l ticket now Ho Hd Hc Hauth. destruct (AuthorizeOperation _ _ _ _ _) as [[r d']|e] eqn:Hr; [|done].
    apply AuthorizeOperation_inv in Hr as (op & Hop & _ & _ & Hcases); [|apply Hok].
    rewrite (find_operation_of d o Hok Ho) in Hop. injection Hop as <-.
    destruct Hcases as [(_ & Hc' & _)|(_ & _ & Hall & _)]; [congruence|].
    destruct (Hall Hd) as [[Hnb|Hretry] _]; [congruence|done].
Qed.

(** ** Progress *)

(** The status an operation leads its copy to. *)
Definition final_status (kind : op_kind) : backup_status :=
  match kind with OpQuarantine => BackupQuarantined | OpPurge => BackupDeleted | _ => BackupComplete end.

(** What was authorized can be concluded: for every reachable catalogue, the
    confirmation of an authorized operation by the holder of its ticket and of the
    present lease succeeds, closes the operation and brings its copy to the status
    its kind announces, when no maintenance incident of the operation is open. *)
Lemma confirmation_succeeds cs o ticket detail l now : In o (d_operations (archive cs)) -> o_State o = OpAuthorized ->
  ticket_matches o ticket l = true -> is_blank (l_Owner l) = false -> 0 < l_Generation l ->
  lease_holds l now (archive cs) = true ->
  (forall a, In a (d_anomalies (archive cs)) -> open_anomaly a = true ->
     stable_key_is (operation_key (o_ID o)) a = false /\ stable_key_is (uncertain_key (o_ID o)) a = false) ->
  exists d', ConfirmOperation (o_ID o) ticket true detail l now (archive cs) = Ok (tt, d') /\
    status_of (o_BackupID o) d' = Some (final_status (o_Kind o)) /\
    exists o', In o' (d_operations d') /\ o_ID o' = o_ID o /\ o_State o' = OpConfirmed.
Proof.
  pose proof (archive_ok cs) as Hok. set (d := archive cs) in *. clearbody d.
  intros Ho Hst Ht Hblank Hgen Hlease Hnone.
  destruct (ok_active _ Hok o Ho) as (Hkind & b & Hb & Hbid & Hbst); [by apply active_states; right|].
  assert (exists d', ConfirmOperation (o_ID o) ticket true detail l now d = Ok (tt, d')) as [d' Hr].
  { apply ConfirmOperation_runs; [exact (find_operation_of d o Hok Ho)|done..| | |done].
    - apply (count_where_one b_ID _ _ b (ok_backup_ids _ Hok) Hb). intros x Hx. rewrite backup_is_iff, <- Hbid, <- Hbst.
      split; [intros [E _]; by apply (NoDup_map_in b_ID _ x b (ok_backup_ids _ Hok))|by intros ->].
    - apply (count_where_one o_ID _ _ o (ok_operation_ids _ Hok) Ho). intros x Hx. rewrite andb_true_iff, selected_state.
      split; [intros [E _]; by apply (operation_unique d)|intros ->]. split; [apply Z.eqb_refl|done]. }
  exists d'. split; [done|].
  pose proof (ConfirmOperation_step (Event now None (Some (o_ID o)) None None) d _ _ _ _ _ _ _ Hok (fun _ => eq_refl) Hr) as Hstep. pose proof (rstep_ok _ _ _ Hok Hstep) as Hok'.
  apply ConfirmOperation_inv in Hr as (op & Hop & _ & _ & Hcases). rewrite (find_operation_of d o Hok Ho) in Hop. injection Hop as <-.
  destruct Hcases as [(E & _)|[(_ & E & _)|(_ & _ & _ & _ & Hcore)]]; [congruence|done|].
  pose proof (f_equal c_backups Hcore) as Hcb. pose proof (f_equal c_operations Hcore) as Hco. cbn in Hcb, Hco. split.
  - assert (In (finish_backup (o_Kind o) now b) (d_backups d')) as Hin.
    { rewrite Hcb. apply in_update_new; [done|]. by apply backup_is_iff. }
    apply (status_of_in d' _ Hok') in Hin. destruct (o_Kind o); cbn in Hin |- *; rewrite <- Hbid; done.
  - exists (confirm now "" o). split; [|done]. rewrite Hco. apply in_update_new; [done|].
    apply andb_true_iff. split; [apply Z.eqb_refl|by apply selected_state].
Qed.
End guarantees.

(** ** The guarantees on the history of [Archive.Scenario] *)
Module GuaranteeExamples.
Import Scenario.

Definition after_call {A} (m : tx A) (d : db) : db := snd (commit m d).
Definition copy (c : string) (d : db) : backup :=
  default (receiving_backup "" "" "" document 0 "" 0) (find_backup d (backup_name c)).
Definition operation_of (id : Z) (d : db) : operation :=
  default (requested 0 "" OpCancel "" "" "" 0 0) (find_operation d id).
Definition holder (n : Z) : lease := Lease "manutenzione" n 0.
(** The history without its last [n] calls. *)
Definition before (n : nat) : list call := take (length life - n) life.

(** Membership of a row that the computed table shows. *)
Ltac row := vm_compute; repeat first [left; reflexivity | right].

Lemma store_refines_retention_machine_witness :
  rstep (event_of (CCreateKey "ufficio" "S" key_id "token")) (core_of initial_db)
    (core_of (exec (CCreateKey "ufficio" "S" key_id "token") initial_db)) /\
  core_ok (core_of (exec (CCreateKey "ufficio" "S" key_id "token") initial_db)).
Proof. exact (store_refines_retention_machine _ initial_db initial_core_ok). Defined.

Lemma last_complete_copy_kept_witness : has_copy key_id (core_of (archive (opening ++ drop 9 life))).
Proof.
  refine (last_complete_copy_kept opening (drop 9 life) key_id _).
  exists (copy "a" (archive opening)). split; [row|]. split; vm_compute; reflexivity.
Defined.

Lemma purge_after_quarantine_witness :
  b_Status (copy "a" (archive life)) = BackupDeleted /\ purged_in life (b_ID (copy "a" (archive life))).
Proof.
  assert (b_Status (copy "a" (archive life)) = BackupDeleted) as Hs by (vm_compute; reflexivity).
  refine (conj Hs (purge_after_quarantine life (copy "a" (archive life)) _ Hs)). row.
Defined.

Definition last_call : call := CConfirmOperation 2 ticket true "" (holder 2) (day 23 + 3 * Hour + Minute).
Lemma deletion_authorized_witness :
  exists o, In o (d_operations (archive (before 1))) /\ o_State o = OpAuthorized /\ o_Kind o = OpPurge /\
    o_BackupID o = b_ID (copy "a" (archive (before 1))) /\ permitted_in (before 1) o /\
    2 = o_ID o /\ true = true /\ lease_holds (holder 2) (day 23 + 3 * Hour + Minute) (archive (before 1)) = true /\
    ticket_matches o ticket (holder 2) = true.
Proof.
  refine (deletion_authorized (before 1) last_call (copy "a" (archive (before 1))) (copy "a" (archive (before 1 ++ [last_call])))
            _ _ _ _ _); [row|vm_compute; discriminate|row|vm_compute; reflexivity..].
Defined.

Definition validation : tx unit := ValidateOperation 2 ticket (holder 2) (day 23 + 3 * Hour).
(** The key is revoked while the quarantine is requested and not yet authorized. *)
Definition revoking : list call := before 9 ++ [CRevoke key_id (day 20 + 3 * Hour)].
(** A client that repeats its request after the completion gets its receipt. *)
Definition again : string := "invio-2024-01-01".
Definition reserve_a (n : Z) : tx backup := ReserveIdempotentChecked "token" document 10 digest again (day n) None (backup_name "a").
Lemma idempotent_deposit_witness :
  let d1 := after_call (reserve_a 0) (archive [CCreateKey "ufficio" "S" key_id "token"]) in
  let d2 := execs [CComplete (backup_name "a") (day 0 + Second)] d1 in
  b_ID (copy "a" d2) = backup_name "a" /\ document = document /\ 10 = 10 /\ digest = digest.
Proof.
  refine (idempotent_deposit [CCreateKey "ufficio" "S" key_id "token"] [CComplete (backup_name "a") (day 0 + Second)]
    "token" again document 10 digest (day 0) None (backup_name "a")
    (receiving_backup (backup_name "a") key_id again document 10 digest (day 0)) _
    document 10 digest (day 1) None (backup_name "c")
    (copy "a" (execs [CComplete (backup_name "a") (day 0 + Second)] (after_call (reserve_a 0) (archive [CCreateKey "ufficio" "S" key_id "token"]))))
    (execs [CComplete (backup_name "a") (day 0 + Second)] (after_call (reserve_a 0) (archive [CCreateKey "ufficio" "S" key_id "token"])))
    _ _ _); [discriminate|vm_compute; reflexivity..].
Defined.

Lemma lease_fencing_witness :
  let d := archive opening in
  let m1 := AcquireMaintenanceLease "manutenzione" 0 (day 20) Hour in
  let m2 := AcquireMaintenanceLease "seconda" 0 (day 21) Hour in
  1 < 2 /\ l_ExpiresAt (d_lease (execs [CMarkMailTested (day 20)] (after_call m1 d))) <= unix (day 21) /\
  lease_holds (Lease "manutenzione" 1 (unix (day 20 + Hour))) (day 20)
    (execs [] (after_call m2 (execs [CMarkMailTested (day 20)] (after_call m1 d)))) = false.
Proof.
  cbv zeta.
  refine (lease_fencing opening [CMarkMailTested (day 20)] [] "manutenzione" 0 (day 20) Hour (Lease "manutenzione" 1 (unix (day 20 + Hour)))
    (after_call (AcquireMaintenanceLease "manutenzione" 0 (day 20) Hour) (archive opening))
    "seconda" (day 21) Hour (Lease "seconda" 2 (unix (day 21 + Hour)))
    (after_call (AcquireMaintenanceLease "seconda" 0 (day 21) Hour)
      (execs [CMarkMailTested (day 20)] (after_call (AcquireMaintenanceLease "manutenzione" 0 (day 20) Hour) (archive opening))))
    (day 20) _ _); vm_compute; reflexivity.
Defined.

Definition corrupted : list call :=
  before 9 ++ [COpenAnomalyAt "file-altered:a" "file_altered" key_id (backup_name "a") "impronta diversa" (day 21) (day 21)].
Definition incident : anomaly :=
  default (new_anomaly "" "" "" "" "" 0 0) (find_where (fun a => stable_key_is "file-altered:a" a) (d_anomalies (archive corrupted))).
Lemma open_anomaly_holds_witness :
  au_DeletionBlocked (d_automation (archive corrupted)) = true /\
  (forall id origin actor reason now, is_ok (RequestQuarantine id origin actor reason now (archive corrupted)) = false) /\
  (forall id origin actor reason now, is_ok (RequestPurge id origin actor reason now (archive corrupted)) = false) /\
  forall o l t now, In o (d_operations (archive corrupted)) -> destructive o = true -> o_ExecutionCommitted o = false ->
    is_ok (AuthorizeOperation (o_ID o) l t now (archive corrupted)) = true ->
    canRetryReconciledOperation (archive corrupted) o now = true.
Proof. refine (open_anomaly_holds corrupted incident _ _); [row|vm_compute; reflexivity]. Defined.

End GuaranteeExamples.
