(* ===== verification/Admission.v ===== *)
(** Admission of deposits: the limits of the profile after every reservation,
    and the exact decision on a new one. *)
From S2P Require Import Prelude GoTime GoFloat GoString Model Policy Schedule Catalog Anomalies Automation Retention.
From S2P Require Import RetentionMachine Deposit Checks Mail Store Archive.

(** ** Sums over the copies of a key *)
Lemma sum_by_filter {A} (f : A -> Z) p l : sum_by f (List.filter p l) = sum_by (fun x => if p x then f x else 0) l.
Proof. unfold sum_by. induction l as [|x l IH]; [done|]. cbn. destruct (p x); cbn; by rewrite IH. Qed.
Lemma sum_by_map {A B} (f : B -> Z) (g : A -> B) l : sum_by f (map g l) = sum_by (fun x => f (g x)) l.
Proof. unfold sum_by. induction l as [|x l IH]; [done|]. cbn. by rewrite IH. Qed.
Lemma count_where_sum {A} (p : A -> bool) l : count_where p l = sum_by (fun x => if p x then 1 else 0) l.
Proof. induction l as [|x l IH]; [done|]. rewrite count_where_cons, IH. done. Qed.
Lemma sum_by_ext {A} (f g : A -> Z) l : (forall x, In x l -> f x = g x) -> sum_by f l = sum_by g l.
Proof.
  unfold sum_by. induction l as [|x l IH]; intros H; [done|]. cbn. rewrite (H x) by (by left). f_equal. apply IH. intros y Hy. apply H. by right.
Qed.

(** Replacing one element of a table. *)
Lemma sum_by_update {A B} (key : A -> B) (g : A -> Z) p f l b : NoDup (map key l) -> In b l ->
  (forall x, In x l -> p x = true <-> x = b) -> sum_by g (update_where p f l) = sum_by g l - g b + g (f b).
Proof.
  unfold sum_by. induction l as [|x l IH]; intros Hnd Hb Hp; [done|]. cbn in Hnd. apply NoDup_cons in Hnd as [Hn Hnd].
  cbn. destruct Hb as [->|Hb].
  - rewrite (proj2 (Hp b (or_introl eq_refl)) eq_refl).
    assert (update_where p f l = l) as Hl.
    { apply update_where_id. intros y Hy E. apply Hp in E; [subst y|by right]. destruct Hn. apply list_elem_of_In, in_map_iff. by exists b. }
    change (map _ l) with (update_where p f l). rewrite Hl. lia.
  - assert (p x = false) as ->.
    { apply not_true_iff_false. intros E. apply Hp in E; [subst x|by left]. apply Hn, list_elem_of_In, in_map_iff. by exists b. }
    change (map _ l) with (update_where p f l). rewrite IH; [lia|done|done|]. intros y Hy. apply Hp. by right.
Qed.

Lemma sum_int64_ok l acc s : sum_int64 l acc = Ok s -> s = acc + sum_by (fun x => x) l.
Proof.
  revert acc. induction l as [|x l IH]; intros acc Hs; [injection Hs as ->; cbn; lia|]. cbn in Hs.
  destruct (_ || _) in Hs; [done|]. apply IH in Hs. cbn in *. unfold sum_by in *. cbn. lia.
Qed.

(** Bytes a key occupies under the quota, and its uploads in progress. *)
Definition occupied (keyID : string) (d : db) : Z :=
  sum_by (fun b => if of_key keyID b && counts_for_quota b then b_Size b else 0) (d_backups d).
Definition uploading (keyID : string) (d : db) : Z :=
  sum_by (fun b => if of_key keyID b && has_status BackupReceiving b then 1 else 0) (d_backups d).

Lemma sum_sizes_occupied keyID d used : sum_sizes counts_for_quota (key_backups keyID d) = Ok used -> used = occupied keyID d.
Proof.
  intros Hs%sum_int64_ok. rewrite sum_by_map in Hs. unfold key_backups in Hs. rewrite sum_by_filter in Hs. rewrite Hs.
  unfold occupied. cbn. apply sum_by_ext. intros b _. by destruct (of_key keyID b).
Qed.
Lemma count_uploading keyID d : count_where (has_status BackupReceiving) (key_backups keyID d) = uploading keyID d.
Proof.
  rewrite count_where_sum. unfold key_backups. rewrite sum_by_filter. apply sum_by_ext. intros b _. by destruct (of_key keyID b).
Qed.

(** The limits of a profile hold for a key. *)
Record respects (p : profile) (keyID : string) (now : Z) (d : db) : Prop := Respects {
  re_bytes : occupied keyID d <= TotalBytes p;
  re_concurrent : uploading keyID d <= Concurrent p;
  re_attempts : attempts_since keyID (day_before now) d <= UploadsPerDay p }.

Lemma attempts_after keyID id bid now l :
  count_where (fun a => String.eqb (at_KeyID a) keyID && (day_before now <=? at_AttemptedAt a))
    (delete_where (fun a => String.eqb (at_KeyID a) keyID && (at_AttemptedAt a <? day_before now)) l ++
     [Attempt id keyID bid (unix now)]) =
  count_where (fun a => String.eqb (at_KeyID a) keyID && (day_before now <=? at_AttemptedAt a)) l + 1.
Proof.
  rewrite count_where_app, count_where_cons, count_where_nil. cbn [at_KeyID at_AttemptedAt]. rewrite String.eqb_refl.
  assert (day_before now <= unix now) as Hle.
  { unfold day_before, unix. apply Z.div_le_mono; [done|]. unfold Hour, Minute, Second. lia. }
  rewrite (proj2 (Z.leb_le _ _) Hle). cbn. f_equal.
  induction l as [|a l IH]; [done|]. unfold delete_where. cbn. fold (delete_where (A:=attempt)).
  destruct (String.eqb (at_KeyID a) keyID && (at_AttemptedAt a <? day_before now)) eqn:E; cbn.
  - rewrite count_where_cons, <- IH. apply andb_true_iff in E as [-> E%Z.ltb_lt].
    rewrite (proj2 (Z.leb_gt _ _) E). done.
  - rewrite !count_where_cons, <- IH. done.
Qed.

Section admission.
Context `{Platform}.

(** The row of a reservation adds its bytes and its upload. *)
Lemma reserved_totals d d' state keyID ik m size digest now newID : core_ok (core_of d) ->
  let b := receiving_backup (match state with Resume id => id | _ => newID end) keyID ik m size digest now in
  (forall x, state <> Receipt x) ->
  (forall id, state = Resume id -> exists x, In x (d_backups d) /\ b_ID x = id /\ b_Status x = BackupFailed /\ b_Size x = size /\ b_KeyID x = keyID) ->
  core_of d' = reserved_core d state b ->
  occupied keyID d' = occupied keyID d + size /\ uploading keyID d' = uploading keyID d + 1.
Proof.
  intros Hok b Hno Hres Hcore. apply (f_equal c_backups) in Hcore. cbn in Hcore. unfold occupied, uploading. rewrite Hcore.
  destruct state as [|id|x]; [|..|by destruct (Hno x)]; cbn [c_backups reserved_core].
  - rewrite !sum_by_app. unfold sum_by. cbn [foldr]. subst b. unfold of_key, counts_for_quota, has_status. cbn [b_KeyID b_Status b_Size receiving_backup].
    rewrite String.eqb_refl, bool_decide_true by done. cbn. lia.
  - destruct (Hres id eq_refl) as (x & Hx & <- & Hst & Hsz & Hk).
    assert (forall y, In y (d_backups d) -> backup_is (b_ID x) BackupFailed y = true <-> y = x) as Hp.
    { intros y Hy. rewrite backup_is_iff. split; [intros [E _]|by intros ->].
      by apply (NoDup_map_in b_ID _ y x (ok_backup_ids _ Hok)). }
    rewrite !(sum_by_update b_ID _ _ _ _ x (ok_backup_ids _ Hok) Hx Hp).
    unfold sum_by, of_key, counts_for_quota, has_status. cbn. rewrite Hk, Hst, Hsz, String.eqb_refl. cbn.
    rewrite !(bool_decide_false (BackupFailed = _)), !(bool_decide_true (BackupReceiving = BackupReceiving)) by done. cbn. lia.
Qed.

(** C38. Admission keeps the key within its profile: a reservation that succeeds is
    the receipt of a complete deposit, or leaves the bytes, the uploads in progress
    and the attempts of the last 24 hours within the limits, itself included, and
    its size within the largest allowed. *)
Theorem admission_within_limits cs token m size digest ik now check newID b d' :
  ReserveIdempotentChecked token m size digest ik now check newID (archive cs) = Ok (b, d') ->
  exists k p, In k (d_keys (archive cs)) /\ k_Revoked k = false /\ find_profile (archive cs) (k_Profile k) = Some p /\
    b_KeyID b = k_ID k /\
    ((In b (d_backups (archive cs)) /\ b_Status b = BackupComplete /\ d' = archive cs) \/
     (b_Status b = BackupReceiving /\ 0 < size <= MaxBackupBytes p /\ respects p (k_ID k) now d')).
Proof.
  pose proof (archive_ok cs) as Hok. set (d := archive cs) in *. clearbody d.
  intros (_ & _ & Hpos & _ & k & p & state & Hkey & Hst & Hcases)%Reserve_inv.
  apply key_of_token_some in Hkey as (Hk & _ & Hrev & Hp). exists k, p. repeat (split; [done|]).
  destruct Hcases as [[-> ->]|(Hno & (used & Hu & Hmax & Htot & Hcon & Hatt) & _ & -> & _ & Hcore & Hattempts)].
  - apply check_idempotency_receipt in Hst as (Hb & Hs & _).
    destruct (String.eqb ik ""); [done|]. apply idempotent_backup_some in Hb as (Hb & -> & _). split; [done|]. by left.
  - split; [done|]. right. split; [done|]. split; [lia|]. apply sum_sizes_occupied in Hu as ->. rewrite count_uploading in Hcon.
    apply (reserved_totals d d' state) in Hcore as [H1 H2]; [|done|done|].
    + split; [lia..|]. unfold attempts_since in *. rewrite Hattempts, attempts_after. lia.
    + intros id ->. apply check_idempotency_resume in Hst as (x & Hb & <- & Hs & Hsz & _). exists x.
      destruct (String.eqb ik ""); [done|]. by apply idempotent_backup_some in Hb as (Hb & -> & _).
Qed.
Lemma check_limits_decided p keyID size now d : 0 < size ->
  sum_sizes counts_for_quota (key_backups keyID d) = Ok (occupied keyID d) ->
  check_limits p keyID size now d =
    if MaxBackupBytes p <? size then Err ErrSize
    else if TotalBytes p <? occupied keyID d + size then Err ErrQuota
    else if Concurrent p <=? uploading keyID d then Err ErrConcurrent
    else if UploadsPerDay p <=? attempts_since keyID (day_before now) d then Err ErrRate
    else Ok (tt, d).
Proof.
  intros Hsz Hsum.
  unfold check_limits, mbind, tx_bind, tx_guard, tx_lift, tx_get, tx_fail, mret, tx_ret.
  destruct (MaxBackupBytes p <? size); [done|]. rewrite Hsum, count_uploading.
  assert ((TotalBytes p <? occupied keyID d) || (TotalBytes p - occupied keyID d <? size) =
          (TotalBytes p <? occupied keyID d + size)) as ->.
  { destruct (Z.ltb_spec (TotalBytes p) (occupied keyID d)), (Z.ltb_spec (TotalBytes p - occupied keyID d) size),
      (Z.ltb_spec (TotalBytes p) (occupied keyID d + size)); cbn; (done || lia). }
  destruct (TotalBytes p <? _); [done|]. destruct (Concurrent p <=? _); [done|]. by destruct (UploadsPerDay p <=? _).
Qed.

(** A request that can be considered, and that no earlier deposit answers. *)
Record considered (token : string) (m : metadata) (size : Z) (digest ik : string) (k : key) (p : profile) (d : db) : Prop :=
  Considered {
    cd_token : ValidToken token = true; cd_metadata : Metadata_Validate m = Ok tt; cd_size : 0 < size;
    cd_digest : ValidDigest digest = true; cd_idempotency : ik = ""%string \/ ValidIdempotencyKey ik = true;
    cd_key : key_of_token (sha256_hex token) d = Some (k, p);
    cd_first : ik = ""%string \/ idempotent_backup (k_ID k) ik d = None }.

(** Admission decides a new deposit by the limits alone: too large, over the
    quota, too many uploads in progress or in the last 24 hours are the only
    refusals, tested in this order with their own errors, and otherwise the
    deposit is receiving under the identifier drawn for it. *)
Lemma admission_decided token m size digest ik now newID k p d : considered token m size digest ik k p d ->
  sum_sizes counts_for_quota (key_backups (k_ID k) d) = Ok (occupied (k_ID k) d) -> find_backup d newID = None ->
  fst (commit (ReserveIdempotentChecked token m size digest ik now None newID) d) =
    if MaxBackupBytes p <? size then Err ErrSize
    else if TotalBytes p <? occupied (k_ID k) d + size then Err ErrQuota
    else if Concurrent p <=? uploading (k_ID k) d then Err ErrConcurrent
    else if UploadsPerDay p <=? attempts_since (k_ID k) (day_before now) d then Err ErrRate
    else Ok (receiving_backup newID (k_ID k) ik m size digest now).
Proof.
  intros [Htok Hm Hsz Hdig Hik Hkey Hfirst] Hsum Hnew.
  pose proof (key_of_token_some _ _ _ _ Hkey) as (Hk & _ & _ & _).
  assert ((if String.eqb ik "" then None else idempotent_backup (k_ID k) ik d) = None) as Hnone.
  { destruct Hfirst as [->|Hf]; [done|]. by destruct (String.eqb ik ""). }
  assert (negb (String.eqb ik "") && negb (ValidIdempotencyKey ik) = false) as Hvalid.
  { destruct Hik as [->|Hv]; [done|]. rewrite Hv. apply andb_false_r. }
  assert (exists d', insert_backup (receiving_backup newID (k_ID k) ik m size digest now) d = Ok (tt, d') /\
            d_keys d' = d_keys d /\ d_backups d' = d_backups d ++ [receiving_backup newID (k_ID k) ik m size digest now])
    as (d' & Hins & Hkeys & Hbackups).
  { unfold insert_backup. cbn [b_ID b_KeyID b_Size b_IdempotencyKey receiving_backup].
    assert (exists_where (backup_id_is newID) (d_backups d) = false) as ->.
    { apply exists_where_not. intros x Hx. apply (find_none _ _ Hnew x Hx). }
    assert (exists_where (key_id_is (k_ID k)) (d_keys d) = true) as ->.
    { apply exists_where_in. exists k. split; [done|]. unfold key_id_is. by rewrite bool_decide_true. }
    rewrite (proj2 (Z.leb_gt size 0) Hsz). cbn [negb orb].
    assert (negb (String.eqb ik "") && exists_where (fun x => String.eqb (b_KeyID x) (k_ID k) && String.eqb (b_IdempotencyKey x) ik)
              (d_backups d) = false) as ->.
    { destruct (String.eqb ik "") eqn:E; [done|]. apply exists_where_not. intros x Hx. apply (find_none _ _ Hnone x Hx). }
    by eexists. }
  unfold commit, ReserveIdempotentChecked, mbind, tx_bind, tx_guard, tx_lift, tx_gets, mret, tx_ret.
  rewrite Htok, Hm, Hdig, (proj2 (Z.leb_gt size 0) Hsz), Hvalid. cbn [negb orb]. rewrite Hkey, Hnone. cbn [check_idempotency].
  rewrite check_limits_decided by done.
  destruct (MaxBackupBytes p <? size); [done|]. destruct (TotalBytes p <? _); [done|]. destruct (Concurrent p <=? _); [done|].
  destruct (UploadsPerDay p <=? _); [done|]. cbn [check_disk mret tx_ret reserve_row]. unfold mret, tx_ret.
  rewrite Hins. cbn [reclaim_attempts]. unfold reclaim_attempts, tx_modify, insert_attempt. cbn [d_keys d_backups].
  set (d2 := d' <| d_attempts ::= _ |>).
  assert (exists_where (key_id_is (k_ID k)) (d_keys d2) = true) as ->.
  { apply exists_where_in. exists k. split; [by cbn; rewrite Hkeys|]. unfold key_id_is. by rewrite bool_decide_true. }
  assert (exists_where (backup_id_is newID) (d_backups d2) = true) as ->; [|done].
  apply exists_where_in. eexists. split; [cbn; rewrite Hbackups; apply in_or_app; right; by left|].
  unfold backup_id_is. by rewrite bool_decide_true.
Qed.
End admission.

(** ** Admission on the history of [Archive.Scenario] *)
Module AdmissionExamples.
Import Scenario.

Definition reserve_c : tx backup := ReserveIdempotentChecked "token" document 10 digest "" (day 2) None (backup_name "c").
Definition profile_S : profile := Profile "S" (100 * GiB) (10 * GiB) 12 1.
Definition key_S : key := Key key_id "ufficio" "htoken" "S" false.

Lemma admission_within_limits_witness :
  exists k p, In k (d_keys (archive opening)) /\ k_Revoked k = false /\ find_profile (archive opening) (k_Profile k) = Some p /\
    b_KeyID (receiving_backup (backup_name "c") key_id "" document 10 digest (day 2)) = k_ID k /\
    ((In (receiving_backup (backup_name "c") key_id "" document 10 digest (day 2)) (d_backups (archive opening)) /\
      b_Status (receiving_backup (backup_name "c") key_id "" document 10 digest (day 2)) = BackupComplete /\
      snd (commit reserve_c (archive opening)) = archive opening) \/
     (b_Status (receiving_backup (backup_name "c") key_id "" document 10 digest (day 2)) = BackupReceiving /\
      0 < 10 <= MaxBackupBytes p /\ respects p (k_ID k) (day 2) (snd (commit reserve_c (archive opening))))).
Proof.
  refine (admission_within_limits opening "token" document 10 digest "" (day 2) None (backup_name "c")
    (receiving_backup (backup_name "c") key_id "" document 10 digest (day 2)) (snd (commit reserve_c (archive opening))) _).
  vm_compute. reflexivity.
Defined.

End AdmissionExamples.
