(* ===== verification/Io.v ===== *)
(** Effects of a process on files and on the catalogue, with their failures:
    every call may fail before or after its effect, and the process may stop at
    any point.  Programs are written in the monad [io], whose runs consult a
    fate for each effect; [triple] is the logic for them. *)
From S2P Require Import Prelude GoTime GoString Model.

(** Errors of the operating system, and those the program makes. *)
Inductive oserr : Type := ENOSPC | ENOENT | EEXIST | EOTHER (text : string).
Inductive failure : Type := OsError (e : oserr) | Failed (e : err).

(** A failure of the system itself.  That a name exists or not is no failure: only
    the effects answer it. *)
Inductive fault : Type := NoSpace | Broken (text : string).
Definition fault_error (f : fault) : failure :=
  OsError (match f with NoSpace => ENOSPC | Broken text => EOTHER text end).

(** What becomes of an effect. *)
Inductive fate : Type :=
| Works                       (* it is performed, with its own outcome *)
| Fails (f : fault)           (* it reports [f] and does nothing *)
| FailsLate (f : fault)       (* it reports [f] though it was performed *)
| Stops                       (* the process is gone before it *)
| StopsLate.                  (* the process is gone after it *)

(** [None] is the run of a process that stopped. *)
Definition io (S A : Type) : Type := nat * S -> option A * (nat * S).

#[global] Instance io_ret {S} : MRet (io S) := fun A a w => (Some a, w).
#[global] Instance io_bind {S} : MBind (io S) := fun A B f m w =>
  match m w with (Some a, w') => f a w' | (None, w') => (None, w') end.
Lemma bind_returns {S A B} (m : io S A) (f : A -> io S B) w a w' : m w = (Some a, w') -> (m ≫= f) w = f a w'.
Proof. intros E. unfold mbind, io_bind. by rewrite E. Qed.

Section effects.
Context {S : Type} (env : nat -> S -> S) (fate_of : nat -> fate) (clock : nat -> Z).

(** [x, err := m(); if err != nil { return err }]. *)
Definition io_try {A B} (m : io S (result failure A)) (k : A -> io S (result failure B)) : io S (result failure B) :=
  r ← m; match r with Ok a => k a | Err e => mret (Err e) end.

(** One effect, after what the rest of the system did since the last one. *)
Definition act {A} (effect : S -> result failure A * S) : io S (result failure A) := fun '(n, s) =>
  let s := env n s in
  let '(r, s') := effect s in
  match fate_of n with
  | Works => (Some r, ((n + 1)%nat, s'))
  | Fails f => (Some (Err (fault_error f)), ((n + 1)%nat, s))
  | FailsLate f => (Some (Err (fault_error f)), ((n + 1)%nat, s'))
  | Stops => (None, ((n + 1)%nat, s))
  | StopsLate => (None, ((n + 1)%nat, s'))
  end.

(** [time.Now()]. *)
Definition now : io S Z := fun '(n, s) => (Some (clock n), ((n + 1)%nat, s)).

(** A call to another process: the request or the answer may be lost, and the
    process that serves it may stop, the caller going on. *)
Definition rpc {A} (handler : io S (result failure A)) : io S (result failure A) := fun w =>
  let lost := Err (Failed (ErrText "errore di trasporto")) in
  match act (fun s => (Ok tt, s)) w with
  | (None, w') => (None, w')
  | (Some (Err _), w') => (Some lost, w')
  | (Some (Ok _), w') =>
    match handler w' with
    | (None, w'') => (Some lost, w'')
    | (Some r, w'') =>
      match act (fun s => (Ok tt, s)) w'' with
      | (None, w) => (None, w)
      | (Some (Err _), w) => (Some lost, w)
      | (Some (Ok _), w) => (Some r, w)
      end
    end
  end.

(** An assertion that what the rest of the system does keeps. *)
Class Stable (P : S -> Prop) : Prop := stable : forall n s, P s -> P (env n s).
#[export] Instance stable_and P Q : Stable P -> Stable Q -> Stable (fun s => P s /\ Q s).
Proof. intros HP HQ n s [H1 H2]. split; [by apply HP|by apply HQ]. Qed.
#[export] Instance stable_impl (A : Prop) P : Stable P -> Stable (fun s => A -> P s).
Proof. intros HP n s H Ha. by apply HP, H. Qed.
#[export] Instance stable_pure (A : Prop) : Stable (fun _ => A).
Proof. by intros n s H. Qed.
#[export] Instance stable_ex {A} (P : A -> S -> Prop) : (forall a, Stable (P a)) -> Stable (fun s => exists a, P a s).
Proof. intros HP n s [a H]. exists a. by apply HP. Qed.
#[export] Instance stable_all {A} (P : A -> S -> Prop) : (forall a, Stable (P a)) -> Stable (fun s => forall a, P a s).
Proof. intros HP n s H a. by apply HP. Qed.

(** Partial correctness, with a condition on the state a stopped process leaves. *)
Definition triple {A} (P : S -> Prop) (m : io S A) (Q : A -> S -> Prop) (R : S -> Prop) : Prop :=
  forall n s, P s -> match m (n, s) with (Some a, (_, s')) => Q a s' | (None, (_, s')) => R s' end.

Lemma triple_ret {A} (a : A) (P : S -> Prop) (Q : A -> S -> Prop) R : (forall s, P s -> Q a s) -> triple P (mret a) Q R.
Proof. intros H n s Hs. by apply H. Qed.
Lemma triple_bind {A B} P (m : io S A) (f : A -> io S B) Q Q' R :
  triple P m Q' R -> (forall a, triple (Q' a) (f a) Q R) -> triple P (m ≫= f) Q R.
Proof.
  intros Hm Hf n s Hs. specialize (Hm n s Hs). unfold mbind, io_bind. destruct (m (n, s)) as [[a|] [n' s']]; [|done].
  by apply Hf.
Qed.
Lemma triple_weaken {A} (P P' : S -> Prop) (m : io S A) (Q Q' : A -> S -> Prop) (R R' : S -> Prop) :
  triple P' m Q' R' -> (forall s, P s -> P' s) -> (forall a s, Q' a s -> Q a s) -> (forall s, R' s -> R s) -> triple P m Q R.
Proof.
  intros Hm HP HQ HR n s Hs. specialize (Hm n s (HP s Hs)). destruct (m (n, s)) as [[a|] [n' s']]; auto.
Qed.
Lemma triple_pre {A} (P P' : S -> Prop) (m : io S A) Q R : triple P' m Q R -> (forall s, P s -> P' s) -> triple P m Q R.
Proof. intros Hm HP. by eapply triple_weaken; [exact Hm|..]. Qed.
Lemma triple_pure {A} (X : Prop) P (m : io S A) Q R : (X -> triple P m Q R) -> triple (fun s => X /\ P s) m Q R.
Proof. intros H n s [HX Hs]. by apply H. Qed.
Lemma triple_if {A} (c : bool) P (m m' : io S A) Q R :
  (c = true -> triple P m Q R) -> (c = false -> triple P m' Q R) -> triple P (if c then m else m') Q R.
Proof. destruct c; auto. Qed.

Lemma triple_try {A B} P (m : io S (result failure A)) (k : A -> io S (result failure B)) Q Q' R :
  triple P m Q' R -> (forall a, triple (Q' (Ok a)) (k a) Q R) -> (forall e s, Q' (Err e) s -> Q (Err e) s) ->
  triple P (io_try m k) Q R.
Proof. intros Hm Hk He. eapply triple_bind; [exact Hm|]. intros [a|e]; [apply Hk|by apply triple_ret, He]. Qed.

(** An effect: what it leaves must suit a stop; if it reports an error nothing is
    known but that it was performed or not; otherwise it was performed. *)
Lemma triple_act {A} P `{!Stable P} (effect : S -> result failure A * S) (Q : result failure A -> S -> Prop) (R : S -> Prop) :
  (forall s, P s -> R s) ->
  (forall s, P s -> R (snd (effect s)) /\ Q (fst (effect s)) (snd (effect s)) /\
     forall f, Q (Err (fault_error f)) s /\ Q (Err (fault_error f)) (snd (effect s))) ->
  triple P (act effect) Q R.
Proof.
  intros HR HQ n s Hs%(stable n). unfold act. cbv zeta. destruct (HQ _ Hs) as (H1 & H2 & H3). specialize (HR _ Hs).
  destruct (effect (env n s)) as [r s']. cbn in *. destruct (fate_of n); try done; apply H3.
Qed.
(** An effect that keeps an invariant whatever its outcome. *)
Lemma triple_act_inv {A} (I : S -> Prop) `{!Stable I} (effect : S -> result failure A * S) :
  (forall s, I s -> I (snd (effect s))) -> triple I (act effect) (fun _ => I) I.
Proof. intros HI. apply triple_act; [done..|]. intros s Hs. specialize (HI s Hs). done. Qed.
Lemma triple_now P R (Q : Z -> S -> Prop) : (forall t s, P s -> Q t s) -> triple P now Q R.
Proof. intros HQ n s Hs. by apply HQ. Qed.

(** A call to another process: an error leaves what the handler leaves, if it ran. *)
Lemma triple_rpc {A} P `{!Stable P} (handler : io S (result failure A)) (Q : result failure A -> S -> Prop) (E R : S -> Prop)
    `{!forall r, Stable (Q r)} :
  triple P handler Q E -> (forall s, P s -> E s) -> (forall r s, Q r s -> E s) -> (forall s, E s -> R s) ->
  triple P (rpc handler) (fun r s => Q r s \/ (is_ok r = false /\ E s)) R.
Proof.
  intros Hh HP HQ HR n s Hs%(stable n). unfold rpc, act. cbn.
  destruct (fate_of n); cbn; try (right; by auto); try (by auto).
  specialize (Hh (n + 1)%nat _ Hs). destruct (handler _) as [[r|] [n' s']]; cbn in *; [|by right].
  assert (Q r (env n' s')) as H' by (by apply (stable n')). destruct (fate_of n'); cbn; eauto.
Qed.
End effects.

(** Nothing else runs. *)
Definition alone {S} : nat -> S -> S := fun _ s => s.
#[export] Instance stable_alone {S} (P : S -> Prop) : Stable alone P.
Proof. by intros n s H. Qed.

(** ** Runs without faults

    Total correctness, when every effect works and nothing else runs. *)
Section faultless.
Context {S : Type} (clock : nat -> Z).
Definition faultless : nat -> fate := fun _ => Works.

Definition runs {A} (P : S -> Prop) (m : io S A) (Q : A -> S -> Prop) : Prop :=
  forall n s, P s -> exists a n' s', m (n, s) = (Some a, (n', s')) /\ Q a s'.

Lemma runs_ret {A} (a : A) (P : S -> Prop) (Q : A -> S -> Prop) : (forall s, P s -> Q a s) -> runs P (mret a) Q.
Proof. intros H n s Hs. exists a, n, s. auto. Qed.
Lemma runs_bind {A B} P (m : io S A) (f : A -> io S B) Q Q' :
  runs P m Q' -> (forall a, runs (Q' a) (f a) Q) -> runs P (m ≫= f) Q.
Proof.
  intros Hm Hf n s Hs. destruct (Hm n s Hs) as (a & n' & s' & E & Ha). destruct (Hf a n' s' Ha) as (b & n2 & s2 & E2 & Hb).
  exists b, n2, s2. split; [|done]. unfold mbind, io_bind. by rewrite E.
Qed.
Lemma runs_try {A B} P (m : io S (result failure A)) (k : A -> io S (result failure B)) a Q Q' :
  runs P m (fun r s => r = Ok a /\ Q' s) -> runs Q' (k a) Q -> runs P (io_try m k) Q.
Proof. intros Hm Hk. eapply runs_bind; [exact Hm|]. intros r n s [-> Hs]. by apply Hk. Qed.
Lemma runs_pure {A} (X : Prop) P (m : io S A) Q : (X -> runs P m Q) -> runs (fun s => X /\ P s) m Q.
Proof. intros H n s [HX Hs]. by apply H. Qed.
Lemma runs_weaken {A} (P P' : S -> Prop) (m : io S A) (Q Q' : A -> S -> Prop) :
  runs P' m Q' -> (forall s, P s -> P' s) -> (forall a s, Q' a s -> Q a s) -> runs P m Q.
Proof. intros Hm HP HQ n s Hs%HP. destruct (Hm n s Hs) as (a & n' & s' & E & Ha). exists a, n', s'. auto. Qed.
Lemma runs_act {A} (P : S -> Prop) (effect : S -> result failure A * S) (Q : result failure A -> S -> Prop) :
  (forall s, P s -> Q (fst (effect s)) (snd (effect s))) -> runs P (act alone faultless effect) Q.
Proof.
  intros HQ n s Hs. exists (fst (effect s)), (n + 1)%nat, (snd (effect s)). split; [|by apply HQ].
  unfold act, alone, faultless. by destruct (effect s).
Qed.
Lemma runs_now (P : S -> Prop) (Q : Z -> S -> Prop) : (forall t s, P s -> Q t s) -> runs P (now clock) Q.
Proof. intros HQ n s Hs. exists (clock n), (n + 1)%nat, s. auto. Qed.
(** What holds of every run holds of these. *)
Lemma runs_triple {A} P (m : io S A) (Q Q' : A -> S -> Prop) R :
  triple P m Q R -> runs P m Q' -> runs P m (fun a s => Q a s /\ Q' a s).
Proof.
  intros Ht Hr n s Hs. destruct (Hr n s Hs) as (a & n' & s' & E & Ha). exists a, n', s'. split; [done|].
  specialize (Ht n s Hs). by rewrite E in Ht.
Qed.
End faultless.

Notation "x ←? m ; k" := (io_try m (fun x => k)) (at level 20, m at level 100, k at level 200, right associativity).
Notation "' x ←? m ; k" := (io_try m (fun x : _ => let ' x := x in k))
  (at level 20, x pattern, m at level 100, k at level 200, right associativity).
