(* ===== verification/Writer.v ===== *)
(** The writer: admission of an upload, its reception into the archive, and the
    reconciliation of the uploads a stop interrupted
    ([src/internal/ingest/writer.go]). *)
From S2P Require Import Prelude GoTime GoString Model Policy Catalog RetentionMachine Deposit Store Io.

(** ** State

    The directories [incoming], [archives/backups] and [archives/quarantine] by
    file name; a file has its content, of other entries only the kind matters.
    [s_slots] counts the handler slots in use. *)
Inductive entry : Type := Regular (content : string) | Dir (empty : bool) | Special.
Record server : Type := Server {
  s_db : db; s_incoming : gmap string entry; s_published : gmap string entry; s_quarantine : gmap string entry;
  s_slots : Z }.
#[global] Instance eta_server : Settable server := fun r =>
  Server (s_db r) (s_incoming r) (s_published r) (s_quarantine r) (s_slots r).

Definition staging_name (b : backup) : string := (b_ID b ++ ".part")%string.
Definition final_name (b : backup) : string := (b_ID b ++ ".backup")%string.

(** ** Responses *)
Inductive response : Type :=
| Respond (status : Z) (message : string)
| ReceiptResponse (id : string) (size : Z) (digest receivedAt : string).

Definition storageError (operation : string) (e : failure) : response :=
  match e with
  | OsError ENOSPC => Respond 507 ("spazio disco esaurito durante " ++ operation)
  | _ => Respond 503 ("esito non confermato: " ++ operation ++ " non riuscita")
  end.

Definition ErrBusy : err := ErrText "server occupato".

(** The texts of the sentinel errors stay in the message; the status is the rest. *)
Definition AdmissionError (e : err) : Z :=
  if errors_is e ErrUnauthorized then 401
  else if errors_is e ErrQuota || errors_is e ErrRate || errors_is e ErrConcurrent then 429
  else if errors_is e ErrSize then 413
  else if errors_is e ErrDisk then 507
  else if errors_is e ErrIdempotencyConflict || errors_is e ErrIdempotencyInProgress then 409
  else if errors_is e ErrIdempotencyUnavailable then 410
  else 503.

(** ** Disk space

    [statfs] gives the block size and the available blocks. *)
Definition checkDisk (reserveFree : Z) (statfs : result err (Z * Z)) (reservedBytes : Z) : result err unit :=
  '(bsize, bavail) ← statfs;
  if (bsize <=? 0) || (reservedBytes <? 0) || (reserveFree <? 0) then Err (ErrText "contabilita spazio disco non valida")
  else if max_uint64 / bsize <? bavail then Err (ErrText "spazio disco non rappresentabile")
  else
    let free := umul bavail bsize in
    if (free <? reserveFree) || (usub free reserveFree <? reservedBytes) then Err ErrDisk else Ok tt.

(** ** The body of a request

    What each [Read] yields, whatever the room it is given: data cut to the room,
    and an end or an error. *)
Inductive read_error : Type := EOF | ReadFailure | NoProgress.
Definition reader : Type := list (string * option read_error).

(** [io.LimitedReader.Read] into a buffer of [room] bytes. *)
Definition read (body : reader) (room : Z) : string * option read_error * reader :=
  match body with
  | [] => (""%string, Some EOF, [])
  | (data, e) :: rest =>
    if len data <=? room then (data, e, rest) else (str_take room data, None, (str_drop room data, e) :: rest)
  end.

(** The whole stream, and how it ends. *)
Fixpoint delivered (body : reader) : string * read_error :=
  match body with
  | [] => (""%string, EOF)
  | (data, Some e) :: _ => (data, e)
  | (data, None) :: rest => ((data ++ fst (delivered rest))%string, snd (delivered rest))
  end.

Definition bufferSize : Z := 131072.

Section writer.
Context `{Platform} (env : nat -> server -> server) (fate_of : nat -> fate) (clock : nat -> Z) (short : nat -> option Z).

Abbreviation io := (Io.io server).
Abbreviation act := (Io.act env fate_of).

(** ** File operations *)
Definition create_file (name : string) (s : server) : result failure unit * server :=
  match s_incoming s !! name with
  | Some _ => (Err (OsError EEXIST), s)
  | None => (Ok tt, s <| s_incoming ::= <[name := Regular ""]> |>)
  end.
Definition append_to (name data : string) (s : server) : server :=
  match s_incoming s !! name with
  | Some (Regular content) => s <| s_incoming ::= <[name := Regular (content ++ data)]> |>
  | _ => s
  end.
(** Chmod, Sync, Close and the synchronization of a directory change no content. *)
Definition no_effect (s : server) : result failure unit * server := (Ok tt, s).
(** [os.Link]: the name must not exist. *)
Definition link_file (staging final : string) (s : server) : result failure unit * server :=
  match s_incoming s !! staging, s_published s !! final with
  | None, _ => (Err (OsError ENOENT), s)
  | _, Some _ => (Err (OsError EEXIST), s)
  | Some e, None => (Ok tt, s <| s_published ::= <[final := e]> |>)
  end.
(** [os.Remove], which refuses a directory that is not empty. *)
Definition remove_incoming (name : string) (s : server) : result failure unit * server :=
  match s_incoming s !! name with
  | None => (Err (OsError ENOENT), s)
  | Some (Dir false) => (Err (OsError (EOTHER "directory not empty")), s)
  | Some _ => (Ok tt, s <| s_incoming ::= delete name |>)
  end.

(** [Write] of a chunk: how much of it was written, and the error. *)
Definition write_file (name chunk : string) : io (Z * option failure) := fun '(n, s) =>
  let s := env n s in
  let written := match short n with Some k => Z.max 0 (Z.min k (len chunk)) | None => len chunk end in
  let s' := append_to name (str_take written chunk) s in
  match fate_of n with
  | Works => (Some (written, None), ((n + 1)%nat, s'))
  | Fails f => (Some (0, Some (fault_error f)), ((n + 1)%nat, s))
  | FailsLate f => (Some (written, Some (fault_error f)), ((n + 1)%nat, s'))
  | Stops => (None, ((n + 1)%nat, s))
  | StopsLate => (None, ((n + 1)%nat, s'))
  end.

(** A call of the store. *)
Definition on_store {A} (m : tx A) (s : server) : result failure A * server :=
  match commit m (s_db s) with
  | (Ok a, d) => (Ok a, s <| s_db := d |>)
  | (Err e, d) => (Err (Failed e), s <| s_db := d |>)
  end.

(** ** Copying *)
Definition ErrShortWrite : failure := Failed (ErrText "short write").

(** At most [N] more bytes; [hashed] is what went through the hash.  Each turn
    reads a byte at least or ends: [N] turns are enough. *)
Fixpoint copy_loop (fuel : nat) (name : string) (body : reader) (N : Z) (hashed : string)
    : io (Z * string * option read_error * option failure) :=
  match fuel with
  | O => mret (len hashed, sha256_hex hashed, None, None)
  | S fuel' =>
    if N <=? 0 then mret (len hashed, sha256_hex hashed, None, None)
    else
      let '(chunk, readErr, body') := read body (Z.min N bufferSize) in
      w ← (if len chunk =? 0 then mret (0, None) else write_file name chunk);
      let '(written, writeErr) := w in
      let hashed' := (hashed ++ str_take written chunk)%string in
      let ends r e := mret (len hashed', sha256_hex hashed', r, e) in
      match writeErr with
      | Some e => ends None (Some e)
      | None =>
        if negb (written =? len chunk) then ends None (Some ErrShortWrite)
        else
          match readErr with
          | Some EOF => ends None None
          | Some e => ends (Some e) None
          | None => if len chunk =? 0 then ends (Some NoProgress) None
                    else copy_loop fuel' name body' (N - len chunk) hashed'
          end
      end
  end.
Definition copyAndHash (name : string) (body : reader) (limit : Z) : io (Z * string * option read_error * option failure) :=
  copy_loop (Z.to_nat limit) name body limit "".

(** ** Reception *)
Definition first_error (r1 r2 : result failure unit) : result failure unit :=
  match r1 with Err e => Err e | Ok _ => r2 end.

(** From the publication on: the response, the file being in the archive. *)
Definition confirm_published (b : backup) : io response :=
  r ← act no_effect;                                        (* syncDir(final) *)
  match r with Err e => mret (storageError "sincronizzazione del backup pubblicato" e) | Ok _ =>
  r ← act (remove_incoming (staging_name b));
  match r with Err _ => mret (Respond 503 "esito non confermato") | Ok _ =>
  r ← act no_effect;                                        (* syncDir(staging) *)
  match r with Err e => mret (storageError "sincronizzazione dei temporanei" e) | Ok _ =>
  t ← now clock;
  r ← act (on_store (Complete (b_ID b) t));
  match r with
  | Err e => mret (storageError "persistenza del catalogo" e)
  | Ok _ => mret (ReceiptResponse (b_ID b) (b_Size b) (b_SHA256 b) (format_rfc3339nano t))
  end end end end.

(** The response and whether the file was published. *)
Definition receive_file (b : backup) (body : reader) : io (bool * response) :=
  f ← act (create_file (staging_name b));
  match f with Err e => mret (false, storageError "creazione del file temporaneo" e) | Ok _ =>
  c ← copyAndHash (staging_name b) body (b_Size b + 1);
  let '(n, calculatedDigest, readErr, writeErr) := c in
  match writeErr with
  | Some e => _ ← act no_effect; mret (false, storageError "scrittura del backup" e)
  | None =>
    if negb (match readErr with None => true | Some _ => false end) || negb (n =? b_Size b) then
      _ ← act no_effect; mret (false, Respond 400 "trasferimento incompleto o dimensione errata")
    else if negb (String.eqb calculatedDigest (b_SHA256 b)) then
      _ ← act no_effect; mret (false, Respond 422 "integrità del file non verificata")
    else
      chmod ← act no_effect;
      sync ← match chmod with Ok _ => act no_effect | Err _ => mret chmod end;
      close ← act no_effect;
      match first_error sync close with
      | Err e => mret (false, storageError "salvataggio del backup" e)
      | Ok _ =>
        l ← act (link_file (staging_name b) (final_name b));
        match l with
        | Err e => mret (false, storageError "pubblicazione del backup" e)
        | Ok _ => r ← confirm_published b; mret (true, r)
        end
      end
  end end.

(** Deferred: what was not published is removed and marked failed. *)
Definition cleanup (b : backup) (published : bool) : io unit :=
  if published then mret tt
  else
    _ ← act (remove_incoming (staging_name b));
    t ← now clock;
    _ ← act (on_store (Fail_ (b_ID b) "upload interrotto o non valido" t));
    mret tt.

Definition receive (b : backup) (body : reader) : io response :=
  r ← receive_file b body;
  _ ← cleanup b (fst r);
  mret (snd r).

(** ** Slots *)
Definition slot_capacity : Z := 32.
Record admission : Type := Admission { ad_Backup : backup; ad_released : bool }.

Definition modify (f : server -> server) : io unit := fun '(n, s) => (Some tt, (n, f s)).
Definition gets {A} (f : server -> A) : io A := fun '(n, s) => (Some (f s), (n, s)).

(** [sync.Once]: the slot goes back once. *)
Definition release (u : admission) : io admission :=
  if ad_released u then mret u
  else _ ← modify (fun s => s <| s_slots ::= (fun k => k - 1) |>); mret (Admission (ad_Backup u) true).

Definition Admit (token : string) (m : metadata) (size : Z) (digest idempotencyKey : string) (now : Z)
    (check : Z -> result err unit) (newID : string) : io (result failure admission) :=
  used ← gets s_slots;
  if slot_capacity <=? used then mret (Err (Failed ErrBusy))
  else
    _ ← modify (fun s => s <| s_slots ::= (fun k => k + 1) |>);
    r ← act (on_store (ReserveIdempotentChecked token m size digest idempotencyKey now (Some check) newID));
    match r with
    | Err e => _ ← modify (fun s => s <| s_slots ::= (fun k => k - 1) |>); mret (Err e)
    | Ok b =>
      let u := Admission b false in
      if has_status BackupComplete b then u ← release u; mret (Ok u) else mret (Ok u)
    end.

Definition Receive (u : admission) (body : reader) : io (response * admission) :=
  r ← receive (ad_Backup u) body;
  u ← release u;
  mret (r, u).

Definition Abort_ (u : admission) (reason : string) : io admission :=
  _ ← (if has_status BackupReceiving (ad_Backup u) then
         t ← now clock;
         _ ← act (on_store (Fail_ (b_ID (ad_Backup u)) reason t)); mret tt
       else mret tt);
  release u.
(** ** Reconciliation, before listening, under the exclusive writer lock *)
Definition lookup_entry (m : gmap string entry) (name : string) : result failure entry :=
  match m !! name with Some e => Ok e | None => Err (OsError ENOENT) end.
(** [os.Lstat] *)
Definition lstat_published (name : string) (s : server) : result failure entry * server := (lookup_entry (s_published s) name, s).
Definition lstat_incoming (name : string) (s : server) : result failure entry * server := (lookup_entry (s_incoming s) name, s).
(** [backupfile.VerifyContext]: the whole file is read. *)
Definition VerifyContext (m : gmap string entry) (name : string) (size : Z) (digest : string) : result failure unit :=
  match lookup_entry m name with
  | Ok (Regular content) =>
    if negb (len content =? size) || negb (String.eqb (sha256_hex content) digest)
    then Err (Failed (ErrText "dimensione o SHA-256 non corrispondenti")) else Ok tt
  | Ok _ => Err (OsError (EOTHER "not a regular file"))
  | Err e => Err e
  end.
Definition Verify (name : string) (size : Z) (digest : string) (s : server) : result failure unit * server :=
  (VerifyContext (s_published s) name size digest, s).
(** [os.Remove] that tolerates an absent name. *)
Definition ignore_absent (r : result failure unit) : result failure unit :=
  match r with Err (OsError ENOENT) => Ok tt | _ => r end.

(** An upload that was published is verified and completed; the others failed. *)
Definition reconcile_row (b : backup) (info : result failure entry) : io (result failure unit) :=
  match info with
  | Ok (Regular content) =>
    if negb (len content =? b_Size b) then
      mret (Err (Failed (ErrText ("backup " ++ b_ID b ++ " da verificare manualmente: file finale anomalo"))))
    else
      v ← act (Verify (final_name b) (b_Size b) (b_SHA256 b));
      match v with Err e => mret (Err e) | Ok _ =>
      r ← act no_effect;
      match r with Err e => mret (Err e) | Ok _ =>
      t ← now clock;
      act (on_store (Complete (b_ID b) t))
      end end
  | Ok _ => mret (Err (Failed (ErrText ("backup " ++ b_ID b ++ " da verificare manualmente: file finale anomalo"))))
  | Err (OsError ENOENT) =>
    t ← now clock;
    act (on_store (Fail_ (b_ID b) "invio interrotto dal riavvio" t))
  | Err e => mret (Err e)
  end.

Definition reconcile_upload (b : backup) : io (result failure unit) :=
  if negb (ValidID (b_ID b)) then mret (Err (Failed (ErrText "identificativo non valido nel catalogo")))
  else
    info ← act (lstat_published (final_name b));
    r ← reconcile_row b info;
    match r with
    | Err e => mret (Err e)
    | Ok _ => r ← act (remove_incoming (staging_name b)); mret (ignore_absent r)
    end.

(** A staging name: a valid identifier with the suffix. *)
Definition is_staging (name : string) : bool :=
  let id := trim_suffix ".part" name in negb (String.eqb id name) && ValidID id.

Definition sweep_entry (name : string) : io (result failure unit) :=
  if negb (is_staging name) then mret (Ok tt)
  else
    info ← act (lstat_incoming name);
    match info with
    | Err (OsError ENOENT) => mret (Ok tt)
    | Err e => mret (Err e)
    | Ok (Dir _) => mret (Err (Failed (ErrText ("temporaneo " ++ name ++ " anomalo: è una directory"))))
    | Ok _ => r ← act (remove_incoming name); mret (ignore_absent r)
    end.

(** [for _, x := range xs { if err := f(x); err != nil { return err } }] *)
Fixpoint each {A} (f : A -> io (result failure unit)) (l : list A) : io (result failure unit) :=
  match l with
  | [] => mret (Ok tt)
  | x :: l' => r ← f x; match r with Err e => mret (Err e) | Ok _ => each f l' end
  end.

Definition incoming_names (s : server) : list string := sort_strings (elements (dom (s_incoming s))).

Definition Reconcile : io (result failure unit) :=
  pending ← act (fun s => (Ok (Pending (s_db s)), s));
  match pending with Err e => mret (Err e) | Ok pending =>
  r ← each reconcile_upload pending;
  match r with Err e => mret (Err e) | Ok _ =>
  entries ← act (fun s => (Ok (incoming_names s), s));
  match entries with Err e => mret (Err e) | Ok entries =>
  r ← each sweep_entry entries;
  match r with Err e => mret (Err e) | Ok _ => act no_effect end
  end end end.
End writer.
