(* ===== verification/Custody.v ===== *)
(** Where the file of each deposit is: the directories of the archive against the
    rows of the catalogue, and why no step of the retention machine parts them
    ([src/internal/ingest/writer.go], [src/internal/maintenance/service.go]). *)
From S2P Require Import Prelude GoTime GoString Model Policy Catalog Retention RetentionMachine Deposit Store Archive Io Writer.

(** ** Places *)
Section places.
Context `{Platform}.

(** [archives/backups] and [archives/quarantine]. *)
Record dirs : Type := Dirs { d_published : gmap string entry; d_quarantine : gmap string entry }.

Definition matches (b : backup) (content : string) : Prop := len content = b_Size b /\ sha256_hex content = b_SHA256 b.
(** The directory has the file of the deposit, whole and intact, or has none. *)
Definition valid_in (m : gmap string entry) (b : backup) : Prop :=
  exists content, m !! final_name b = Some (Regular content) /\ matches b content.
Definition absent_in (m : gmap string entry) (b : backup) : Prop := m !! final_name b = None.

Definition in_archive (s : dirs) (b : backup) : Prop := valid_in (d_published s) b /\ absent_in (d_quarantine s) b.
Definition in_quarantine (s : dirs) (b : backup) : Prop := absent_in (d_published s) b /\ valid_in (d_quarantine s) b.
Definition in_both (s : dirs) (b : backup) : Prop := valid_in (d_published s) b /\ valid_in (d_quarantine s) b.
Definition nowhere (s : dirs) (b : backup) : Prop := absent_in (d_published s) b /\ absent_in (d_quarantine s) b.
(** Not published yet, or published and not declared yet. *)
Definition uploading (s : dirs) (b : backup) : Prop :=
  absent_in (d_quarantine s) b /\ (absent_in (d_published s) b \/ valid_in (d_published s) b).

(** The file of a deposit that no operation is moving. *)
Definition resting (st : backup_status)  : dirs -> backup -> Prop :=
  match st with
  | BackupReceiving | BackupFailed => uploading
  | BackupComplete | BackupDeleting => in_archive
  | BackupQuarantined | BackupPurging => in_quarantine
  | BackupDeleted => nowhere
  end.
(** Before and after the physical operation. *)
Definition source_place (kind : op_kind)  : dirs -> backup -> Prop :=
  match kind with OpQuarantine | OpCancel => in_archive | OpPurge | OpRecover => in_quarantine end.
Definition target_place (kind : op_kind)  : dirs -> backup -> Prop :=
  match kind with OpQuarantine | OpCancel => in_quarantine | OpPurge => nowhere | OpRecover => in_archive end.
(** While it is authorized: untouched until the final permission is committed.  A
    move by link and removal ([linked]: the kernel has no renameat2) may be caught
    between the two. *)
Definition moving (linked : bool) (kind : op_kind) (committed : bool) (s : dirs) (b : backup) : Prop :=
  source_place kind s b \/
  (committed = true /\ (target_place kind s b \/ (linked = true /\ kind <> OpPurge /\ in_both s b))).

Definition authorized_for (c : core) (id : string) (kind : op_kind) (committed : bool) : Prop :=
  exists o, In o (c_operations c) /\ o_BackupID o = id /\ o_State o = OpAuthorized /\ o_Kind o = kind /\
    o_ExecutionCommitted o = committed.

Record placed (linked : bool) (c : core) (s : dirs) (b : backup) : Prop := Placed {
  pl_moving : forall kind cm, authorized_for c (b_ID b) kind cm -> moving linked kind cm s b;
  pl_resting : (forall kind cm, ~ authorized_for c (b_ID b) kind cm) -> resting (b_Status b) s b }.

(** Every file of a deposit is in its place, and every file is of a deposit. *)
Record custody_of (linked : bool) (c : core) (s : dirs) : Prop := Custody {
  cu_placed : forall b, In b (c_backups c) -> placed linked c s b;
  cu_published : forall name, is_Some (d_published s !! name) -> exists b, In b (c_backups c) /\ name = final_name b;
  cu_quarantine : forall name, is_Some (d_quarantine s !! name) -> exists b, In b (c_backups c) /\ name = final_name b }.

(** What [backupfile.VerifyContext] finds. *)
Lemma verify_valid m b : is_ok (VerifyContext m (final_name b) (b_Size b) (b_SHA256 b)) = true <-> valid_in m b.
Proof.
  unfold VerifyContext, lookup_entry, valid_in, matches. destruct (m !! final_name b) as [[content| |]|];
    try (split; [done|]; by intros (? & [=] & _)).
  destruct (_ || _) eqn:E.
  - split; [done|]. intros (data & [= ->] & H1 & H2). apply orb_true_iff in E as [E|E];
      apply negb_true_iff in E; [apply Z.eqb_neq in E|apply String.eqb_neq in E]; done.
  - split; [intros _|done]. apply orb_false_iff in E as [E1%negb_false_iff%Z.eqb_eq E2%negb_false_iff%String.eqb_eq].
    by exists content.
Qed.

(** ** Deposits with the same file *)
Record same_file (b b' : backup) : Prop := SameFile {
  sf_id : b_ID b' = b_ID b; sf_size : b_Size b' = b_Size b; sf_digest : b_SHA256 b' = b_SHA256 b }.

Lemma final_name_inj b b' : final_name b = final_name b' -> b_ID b = b_ID b'.
Proof.
  unfold final_name. generalize (b_ID b) (b_ID b'). intros i j E. apply (f_equal (trim_suffix ".backup")) in E.
  by rewrite !trim_suffix_app in E.
Qed.
Lemma staging_name_inj b b' : staging_name b = staging_name b' -> b_ID b = b_ID b'.
Proof.
  unfold staging_name. generalize (b_ID b) (b_ID b'). intros i j E. apply (f_equal (trim_suffix ".part")) in E.
  by rewrite !trim_suffix_app in E.
Qed.

Section same.
Context (b b' : backup) (Hb : same_file b b').
Lemma same_final : final_name b' = final_name b.
Proof. unfold final_name. by rewrite (sf_id _ _ Hb). Qed.
Lemma same_valid m : valid_in m b -> valid_in m b'.
Proof.
  intros (content & Hc & Hl & Hd). exists content. rewrite same_final. split; [done|]. unfold matches.
  by rewrite (sf_size _ _ Hb), (sf_digest _ _ Hb).
Qed.
Lemma same_absent m : absent_in m b -> absent_in m b'.
Proof. unfold absent_in. by rewrite same_final. Qed.
Lemma same_resting st s : resting st s b -> resting st s b'.
Proof. pose proof same_valid as Hv. pose proof same_absent as Ha. destruct st; intros [H1 H2]; split; auto; destruct H2; auto. Qed.
Lemma same_source kind s : source_place kind s b -> source_place kind s b'.
Proof. destruct kind; [apply (same_resting BackupComplete)|apply (same_resting BackupQuarantined)..|apply (same_resting BackupComplete)]. Qed.
Lemma same_target kind s : target_place kind s b -> target_place kind s b'.
Proof.
  destruct kind; [apply (same_resting BackupQuarantined)|apply (same_resting BackupDeleted)|apply (same_resting BackupComplete)|
    apply (same_resting BackupQuarantined)].
Qed.
Lemma same_moving linked kind cm s : moving linked kind cm s b -> moving linked kind cm s b'.
Proof.
  intros [Hm|[Hc [Hm|(Hl & Hk & H1 & H2)]]]; [left; by apply same_source|right; split; [done|left; by apply same_target]|].
  right. split; [done|]. right. split; [done|]. split; [done|]. split; by apply same_valid.
Qed.
End same.

Lemma same_file_refl b : same_file b b.
Proof. done. Qed.
Lemma same_file_sym b b' : same_file b b' -> same_file b' b.
Proof. by intros []. Qed.
Lemma same_file_trans b b' b'' : same_file b b' -> same_file b' b'' -> same_file b b''.
Proof. intros [] []. split; congruence. Qed.
Lemma identity_file b b' : identity b' = identity b -> b_Size b' = b_Size b -> b_SHA256 b' = b_SHA256 b -> same_file b b'.
Proof. intros [= E _ _] H1 H2. by split. Qed.
Lemma follows_file b b' : follows b b' -> same_file b b'.
Proof. intros [[H1 H2 H3 _ _] _]. by apply identity_file. Qed.

(** What a deposit may become: the same, and received once it was. *)
Record descends (b b' : backup) : Prop := Descends {
  de_deposit : same_deposit b b'; de_received : deposited b = true -> deposited b' = true }.
Lemma descends_refl b : descends b b.
Proof. by split. Qed.
Lemma descends_trans b b' b'' : descends b b' -> descends b' b'' -> descends b b''.
Proof.
  intros [[] Hd] [[] Hd']. split; [split; try congruence|auto]. intros Hb. destruct (sd_times Hb), (sd_times0 (Hd Hb)). split; congruence.
Qed.
Lemma descends_file b b' : descends b b' -> same_file b b'.
Proof. intros [[H1 H2 H3 _ _] _]. by apply identity_file. Qed.
Lemma follows_descends b b' : follows b b' -> descends b b'.
Proof.
  intros [H1 H2]. split; [done|]. unfold deposited, has_status, status_edge in *. by destruct (b_Status b), (b_Status b').
Qed.

(** The statuses on either side of a request share a place. *)
Lemma resting_source kind s b : kind <> OpCancel -> resting (source_status kind) s b <-> source_place kind s b.
Proof. by destruct kind. Qed.
Lemma resting_pending kind s b : resting (pending_status kind) s b <-> source_place kind s b.
Proof. by destruct kind. Qed.
Lemma resting_finished kind now s b : kind <> OpCancel ->
  resting (b_Status (finish_backup kind now b)) s b <-> target_place kind s b.
Proof. by destruct kind. Qed.
End places.

(** ** Steps of the retention machine *)
Section steps.
Context `{Platform} (linked : bool).

Lemma placed_same c c' s b b' : same_file b b' ->
  (forall kind cm, authorized_for c' (b_ID b) kind cm <-> authorized_for c (b_ID b) kind cm) ->
  ((forall kind cm, ~ authorized_for c (b_ID b) kind cm) -> resting (b_Status b) s b -> resting (b_Status b') s b) ->
  placed linked c s b -> placed linked c' s b'.
Proof.
  intros Hf Ha Hr [H1 H2]. split; rewrite (sf_id _ _ Hf).
  - intros kind cm Hk. apply (same_moving _ _ Hf), H1. by apply Ha.
  - intros Hn. assert (forall kind cm, ~ authorized_for c (b_ID b) kind cm) as Hn' by (intros kind cm; rewrite <- Ha; apply Hn).
    apply (same_resting _ _ Hf). auto.
Qed.

(** The operation a copy is in the charge of. *)
Lemma authorized_unique c o kind cm : core_ok c -> In o (c_operations c) -> active_operation o = true ->
  authorized_for c (o_BackupID o) kind cm -> o_State o = OpAuthorized /\ o_Kind o = kind /\ o_ExecutionCommitted o = cm.
Proof.
  intros Hok Ho Ha (x & Hx & Hid & Hst & Hk).
  assert (x = o) as -> by (apply (ok_unique c Hok); [done..|by apply active_states; right|done|done]). done.
Qed.
Lemma requested_not_authorized c o kind cm : core_ok c -> In o (c_operations c) -> o_State o = OpRequested ->
  ~ authorized_for c (o_BackupID o) kind cm.
Proof.
  intros Hok Ho Hst Hauth. apply authorized_unique in Hauth as [E _]; [congruence|done..|]. by apply active_states; left.
Qed.
Lemma idle_not_authorized c b kind cm : core_ok c -> In b (c_backups c) -> (forall k, b_Status b <> pending_status k) ->
  ~ authorized_for c (b_ID b) kind cm.
Proof.
  intros Hok Hb Hst (o & Ho & Hid & Hos & _). apply (Hst (o_Kind o)), (active_copy c o b); try done. by apply active_states; right.
Qed.

(** A step that gives each deposit its place gives the archive its custody. *)
Lemma custody_of_step c c' s : custody_of linked c s ->
  (forall b, In b (c_backups c) -> exists b', In b' (c_backups c') /\ same_file b b') ->
  (forall b', In b' (c_backups c') -> placed linked c' s b') -> custody_of linked c' s.
Proof.
  intros [H1 H2 H3] Hkeep Hp. split; [done|..]; intros name Hn;
    [destruct (H2 name Hn) as (b & Hb & ->)|destruct (H3 name Hn) as (b & Hb & ->)];
    destruct (Hkeep b Hb) as (b' & Hb' & Hf); exists b'; (split; [done|by rewrite (same_final _ _ Hf)]).
Qed.
End steps.

Section machine.
Context `{Platform} (linked : bool) (e : event) (c : core) (s : dirs) (Hok : core_ok c) (Hcu : custody_of linked c s).

Lemma rows_same b b' : In b (c_backups c) -> In b' (c_backups c) -> b_ID b = b_ID b' -> b = b'.
Proof. apply (NoDup_map_in b_ID), Hok. Qed.

Lemma authorized_other c' p f o id kind cm : c_operations c' = update_where p f (c_operations c) ->
  (forall x, In x (c_operations c) -> p x = true -> x = o) -> o_BackupID (f o) = o_BackupID o -> id <> o_BackupID o ->
  authorized_for c' id kind cm <-> authorized_for c id kind cm.
Proof.
  intros E Hp Hf Hid. unfold authorized_for. rewrite E. split; intros (x & Hx & Hxid & Hrest).
  - apply (update_cases _ _ _ _ _ Hp) in Hx as [(-> & _ & _)|[Hx _]]; [congruence|by exists x].
  - exists x. split; [|done]. apply in_update_same; [done|]. apply not_true_iff_false. intros ->%Hp; [|done]. congruence.
Qed.
Lemma authorized_updated c' p f o kind cm : c_operations c' = update_where p f (c_operations c) ->
  (forall x, In x (c_operations c) -> p x = true -> x = o) -> In o (c_operations c) -> p o = true -> active_operation o = true ->
  o_BackupID (f o) = o_BackupID o ->
  authorized_for c' (o_BackupID o) kind cm <-> o_State (f o) = OpAuthorized /\ o_Kind (f o) = kind /\ o_ExecutionCommitted (f o) = cm.
Proof.
  intros E Hp Ho Hpo Ha Hf. unfold authorized_for. rewrite E. split.
  - intros (x & Hx & Hxid & Hst & Hk). apply (update_cases _ _ _ _ _ Hp) in Hx as [(-> & _ & _)|[Hx Hpx]]; [done|].
    assert (x = o) as -> by (apply (ok_unique c Hok); [done..|by apply active_states; right|done|done]). congruence.
  - intros [Hst Hk]. exists (f o). split; [by apply in_update_new|]. done.
Qed.

(** The copies a step leaves where they are in the catalogue. *)
Lemma placed_untouched c' b : In b (c_backups c) -> (forall kind cm, authorized_for c' (b_ID b) kind cm <-> authorized_for c (b_ID b) kind cm) ->
  placed linked c' s b.
Proof. intros Hb Ha. apply (placed_same linked c c' s b b (same_file_refl b) Ha); [done|by apply Hcu]. Qed.

(** A step that edits one operation and the status of its copy. *)
Lemma custody_close p f o fb :
  (forall x, In x (c_operations c) -> p x = true -> x = o) -> In o (c_operations c) -> p o = true -> active_operation o = true ->
  o_BackupID (f o) = o_BackupID o -> o_State (f o) <> OpAuthorized ->
  (forall b, same_file b (fb b)) ->
  (forall b, In b (c_backups c) -> b_ID b = o_BackupID o -> b_Status b = pending_status (o_Kind o) -> resting (b_Status (fb b)) s b) ->
  custody_of linked (Core (c_keys c) (update_where (backup_is (o_BackupID o) (pending_status (o_Kind o))) fb (c_backups c))
    (update_where p f (c_operations c)) (c_seq c)) s.
Proof.
  intros Hp Ho Hpo Ha Hf Hst Hfile Hrest. set (c' := Core _ _ _ _). apply (custody_of_step linked c c' s Hcu).
  - intros b Hb. destruct (backup_is (o_BackupID o) (pending_status (o_Kind o)) b) eqn:E; [exists (fb b)|exists b];
      (split; [|done]); [by apply in_update_new|by apply in_update_same].
  - intros b' (b & Hb & ->)%in_update_where.
    destruct (backup_is (o_BackupID o) (pending_status (o_Kind o)) b) eqn:E.
    + apply backup_is_iff in E as [Hid Hbst].
      assert (forall kind cm, ~ authorized_for c' (b_ID (fb b)) kind cm) as Hno.
      { intros kind cm. rewrite (sf_id _ _ (Hfile b)), Hid, (authorized_updated c' p f o) by done. by intros [? _]. }
      split; [by intros kind cm Hk; destruct (Hno kind cm)|]. intros _. apply (same_resting b); auto.
    + apply placed_untouched; [done|]. intros kind cm. apply (authorized_other c' p f o); try done. intros Hid.
      apply not_true_iff_false in E. apply E, backup_is_iff. split; [done|]. by apply (active_copy c o b).
Qed.

Lemma custody_finish o f :
  (forall b, In b (c_backups c) -> b_ID b = o_BackupID o -> target_place (o_Kind o) s b) ->
  In o (c_operations c) -> o_State o = OpAuthorized -> closes OpConfirmed f o ->
  custody_of linked (Core (c_keys c)
    (update_where (backup_is (o_BackupID o) (pending_status (o_Kind o))) (finish_backup (o_Kind o) (ev_now e)) (c_backups c))
    (update_where (fun x => operation_id_is (o_ID o) x && has_state OpAuthorized x) f (c_operations c)) (c_seq c)) s.
Proof.
  intros Hplace Ho Hst [H1 H2 H3 H4]. assert (active_operation o = true) as Ha by (by apply active_states; right).
  apply custody_close; try done.
  - intros x Hx [Hid%Z.eqb_eq _]%andb_true_iff. by apply (NoDup_map_in o_ID _ x o (ok_operation_ids c Hok)).
  - apply andb_true_iff. split; [apply Z.eqb_refl|]. unfold has_state. by rewrite bool_decide_true.
  - by rewrite H4.
  - intros b. by destruct (o_Kind o).
  - intros b Hb Hid _. apply resting_finished; [apply (ok_active c Hok o Ho Ha)|by apply Hplace].
Qed.

(** An operation not authorized, or reset after its copy was found untouched. *)
Definition untouched (o : operation) : Prop :=
  o_State o = OpRequested \/ forall b, In b (c_backups c) -> b_ID b = o_BackupID o -> source_place (o_Kind o) s b.

Lemma untouched_resting o b : untouched o -> In o (c_operations c) -> active_operation o = true ->
  In b (c_backups c) -> b_ID b = o_BackupID o -> source_place (o_Kind o) s b.
Proof.
  intros [Hst|Hu] Ho Ha Hb Hid; [|by apply Hu]. apply resting_pending. rewrite <- (active_copy c o b) by done.
  apply (pl_resting _ _ _ _ (cu_placed _ _ _ Hcu b Hb)). intros kind cm. rewrite Hid. by apply requested_not_authorized.
Qed.

Lemma custody_cancel o p f : untouched o -> In o (c_operations c) -> active_operation o = true -> o_Kind o <> OpRecover ->
  (forall x, In x (c_operations c) -> p x = true <-> x = o) -> closes OpCancelled f o ->
  custody_of linked (Core (c_keys c)
    (update_where (backup_is (o_BackupID o) (pending_status (o_Kind o))) (restore_backup (o_Kind o)) (c_backups c))
    (update_where p f (c_operations c)) (c_seq c)) s.
Proof.
  intros Hu Ho Ha Hk Hp [H1 H2 H3 H4]. apply custody_close; try done.
  - intros x Hx. by apply Hp.
  - by apply Hp.
  - by rewrite H4.
  - intros b Hb Hid _. cbn. apply resting_source; [apply (ok_active c Hok o Ho Ha)|by apply untouched_resting].
Qed.

Lemma custody_edit p f o : In o (c_operations c) -> active_operation o = true ->
  (forall x, In x (c_operations c) -> p x = true -> x = o) -> keeps_active e f o ->
  (ev_resets e = Some (o_ID o) -> untouched o) ->
  custody_of linked (Core (c_keys c) (c_backups c) (update_where p f (c_operations c)) (c_seq c)) s.
Proof.
  intros Ho Ha Hp [H1 H2 H3 H4 H5 Hcm _] Hreset. set (c' := Core _ _ _ _).
  destruct (p o) eqn:Hpo.
  2:{ assert (c' = c) as ->; [|done]. unfold c'. rewrite update_where_id; [by destruct c|].
      intros x Hx Hpx. apply Hp in Hpx as E; [|done]. congruence. }
  apply (custody_of_step linked c c' s Hcu); [by intros b Hb; exists b|]. intros b Hb.
  destruct (decide (b_ID b = o_BackupID o)) as [Hid|Hne].
  2:{ apply placed_untouched; [done|]. intros kind cm. by apply (authorized_other c' p f o). }
  pose proof (cu_placed _ _ _ Hcu b Hb) as [Hmv _].
  assert (forall kind cm, authorized_for c' (b_ID b) kind cm <->
    o_State (f o) = OpAuthorized /\ o_Kind (f o) = kind /\ o_ExecutionCommitted (f o) = cm) as Hauth.
  { intros kind cm. rewrite Hid. by apply (authorized_updated c' p f o). }
  assert (o_State o = OpAuthorized -> moving linked (o_Kind o) (o_ExecutionCommitted o) s b) as Hmoving.
  { intros Hst. apply Hmv. rewrite Hid. by exists o. }
  assert (untouched o -> source_place (o_Kind o) s b) as Hsource by (intros Hu; by apply untouched_resting).
  split.
  - intros kind cm (Hst & Hk & Hc)%Hauth. subst kind cm. rewrite H3. apply active_states in Ha as [Ha|Ha].
    + left. apply Hsource. by left.
    + destruct (Hmoving Ha) as [Hm|[Hc Hm]]; [by left|]. right. split; [by apply Hcm|done].
  - intros Hn. rewrite (active_copy c o b) by done. apply resting_pending.
    assert (o_State (f o) = OpRequested) as Hreq.
    { apply active_states in H4 as [?|Hst]; [done|]. by destruct (Hn (o_Kind (f o)) (o_ExecutionCommitted (f o))); apply Hauth. }
    apply Hsource. destruct H5 as [[_ Hr]|[E|[_ E]]]; [by apply Hreset|left; congruence|congruence].
Qed.
Lemma custody_request kind b origin actor reason revision : In b (c_backups c) -> b_Status b = source_status kind -> kind <> OpCancel ->
  custody_of linked (Core (c_keys c) (update_where (backup_is (b_ID b) (source_status kind)) (hold_backup kind) (c_backups c))
    (c_operations c ++ [requested (c_seq c + 1) (b_ID b) kind origin actor reason revision (ev_now e)]) (c_seq c + 1)) s.
Proof.
  intros Hb Hst Hk. set (c' := Core _ _ _ _).
  assert (forall id k cm, authorized_for c' id k cm <-> authorized_for c id k cm) as Hauth.
  { intros id k cm. unfold authorized_for. split; intros (o & Ho & Hrest).
    - apply in_app_iff in Ho as [Ho|[<-|[]]]; [by exists o|]. by destruct Hrest as (_ & ? & _).
    - exists o. split; [apply in_or_app; by left|done]. }
  apply (custody_of_step linked c c' s Hcu).
  - intros x Hx. destruct (backup_is (b_ID b) (source_status kind) x) eqn:E; [exists (hold_backup kind x)|exists x];
      (split; [|done]); [by apply in_update_new|by apply in_update_same].
  - intros x' (x & Hx & ->)%in_update_where. destruct (backup_is _ _ x) eqn:E; [|by apply placed_untouched].
    apply backup_is_iff in E as [_ Hxs].
    apply (placed_same linked c c' s x); [done|done| |by apply Hcu].
    intros _. rewrite Hxs. cbn. rewrite resting_source, resting_pending by done. done.
Qed.

Lemma custody_upload p f b : In b (c_backups c) -> (forall x, In x (c_backups c) -> p x = true -> x = b) -> upload_step e b (f b) ->
  (ev_completes e = Some (b_ID b) -> valid_in (d_published s) b) ->
  custody_of linked (Core (c_keys c) (update_where p f (c_backups c)) (c_operations c) (c_seq c)) s.
Proof.
  intros Hb Hp Hstep Hstored. set (c' := Core _ _ _ _).
  assert (same_file b (f b)) as Hf by (by destruct (upload_follows _ _ _ Hstep) as [[[= E _ _] ? ? _ _] _]; split).
  apply (custody_of_step linked c c' s Hcu).
  - intros x Hx. destruct (p x) eqn:E; [|exists x; split; [by apply in_update_same|done]].
    apply Hp in E as E'; [|done]. subst x. exists (f b). split; [by apply in_update_new|done].
  - intros x' [(-> & _ & _)|[Hx _]]%(update_cases _ _ _ _ _ Hp); [|by apply placed_untouched].
    apply (placed_same linked c c' s b); [done|done| |by apply Hcu]. intros _.
    destruct Hstep as [t Hst Hev|r Hst|t Hst]; rewrite Hst; cbn; try done. intros [Ha _]. split; [exact (Hstored Hev)|done].
Qed.

Lemma custody_deposit b : b_Status b = BackupReceiving -> ~ In (b_ID b) (map b_ID (c_backups c)) ->
  custody_of linked (Core (c_keys c) (c_backups c ++ [b]) (c_operations c) (c_seq c)) s.
Proof.
  intros Hst Hnew. set (c' := Core _ _ _ _).
  assert (forall m, (forall name, is_Some (m !! name) -> exists x, In x (c_backups c) /\ name = final_name x) -> absent_in m b) as Habs.
  { intros m Hm. unfold absent_in. destruct (m !! final_name b) eqn:E; [|done].
    destruct (Hm (final_name b)) as (x & Hx & Hn%final_name_inj); [by eexists|]. destruct Hnew. rewrite Hn. by apply in_map. }
  apply (custody_of_step linked c c' s Hcu); [intros x Hx; exists x; split; [apply in_or_app; by left|done]|].
  intros x [Hx|[<-|[]]]%in_app_iff; [by apply placed_untouched|]. split.
  - intros kind cm (o & Ho & Hid & Hos & _). exfalso. destruct (ok_active c Hok o Ho) as (_ & x & Hx & Hxid & _); [by apply active_states; right|].
    apply Hnew. rewrite <- Hid, <- Hxid. by apply in_map.
  - intros _. rewrite Hst. split; [apply Habs, Hcu|left; apply Habs, Hcu].
Qed.

Lemma custody_revoke id error :
  custody_of linked (Core (update_where (key_id_is id) (fun k => k <| k_Revoked := true |>) (c_keys c))
      (update_where (revoke_restores id c OpPurge) (fun b => b <| b_Status := BackupQuarantined |>)
        (update_where (revoke_restores id c OpQuarantine) (fun b => b <| b_Status := BackupComplete |>) (c_backups c)))
      (update_where (revoke_cancels id c) (cancel_operation (ev_now e) error) (c_operations c)) (c_seq c)) s.
Proof.
  rewrite revoke_backups. set (c' := Core _ _ _ _).
  assert (forall i k cm, authorized_for c' i k cm <-> authorized_for c i k cm) as Hauth.
  { intros i k cm. unfold authorized_for. split; intros (o & Ho & Hrest).
    - apply in_update_where in Ho as (x & Hx & ->). destruct (revoke_cancels id c x); [by destruct Hrest as (_ & ? & _)|by exists x].
    - exists o. split; [|done]. apply in_update_same; [done|]. apply not_true_iff_false. intros (Hst & _)%revoke_cancels_iff.
      destruct Hrest as (_ & ? & _). congruence. }
  assert (forall b, same_file b (revoke_backup id c b)) as Hf by (intros b; apply follows_file, revoke_follows).
  apply (custody_of_step linked c c' s Hcu).
  - intros b Hb. exists (revoke_backup id c b). split; [by apply in_map|done].
  - intros b' (b & <- & Hb)%in_map_iff. apply (placed_same linked c c' s b); [done|done| |by apply Hcu].
    intros _. unfold revoke_backup. destruct (revoke_restores id c OpQuarantine b) eqn:E1.
    + apply revoke_restores_iff in E1 as (_ & -> & _). done.
    + destruct (revoke_restores id c OpPurge b) eqn:E2; [|done]. by apply revoke_restores_iff in E2 as (_ & -> & _).
Qed.

(** What must be true of the files when a step records a physical fact. *)
Record physical : Prop := Physical {
  ph_completes : forall b, ev_completes e = Some (b_ID b) -> In b (c_backups c) -> valid_in (d_published s) b;
  ph_finishes : forall o b, ev_finishes e = Some (o_ID o) -> In o (c_operations c) -> o_State o = OpAuthorized ->
    In b (c_backups c) -> b_ID b = o_BackupID o -> target_place (o_Kind o) s b;
  ph_resets : forall o b, ev_resets e = Some (o_ID o) -> In o (c_operations c) -> o_State o = OpAuthorized ->
    In b (c_backups c) -> b_ID b = o_BackupID o -> source_place (o_Kind o) s b }.

Lemma rstep_custody c' : physical -> rstep e c c' -> custody_of linked c' s.
Proof.
  intros [Hc Hf Hr] Hstep.
  assert (forall o, In o (c_operations c) -> active_operation o = true -> ev_resets e = Some (o_ID o) -> untouched o) as Hun.
  { intros o Ho [?|Hst]%active_states He; [by left|]. right. intros b Hb Hid. by apply (Hr o b). }
  destruct Hstep as [ |k|p f|b|p f b ? ? ?|kind b|p f o|o f|o p f Ho Ha Hk Hs|id error].
  - done.
  - split; [|apply Hcu..]. intros b Hb. by apply placed_untouched.
  - split; [|apply Hcu..]. intros b Hb. by apply placed_untouched.
  - by apply custody_deposit.
  - apply (custody_upload p f b); auto.
  - by apply custody_request.
  - eapply custody_edit; eauto.
  - apply custody_finish; eauto.
  - apply custody_cancel; [|done..]. destruct Hs as [?|?]; [by left|by apply Hun].
  - apply custody_revoke.
Qed.
End machine.

(** ** Changes of the directories *)
Section directories.
Context `{Platform} (linked : bool).

(** The directories look the same for a deposit. *)
Definition same_place (fs fs' : dirs) (b : backup) : Prop :=
  d_published fs' !! final_name b = d_published fs !! final_name b /\
  d_quarantine fs' !! final_name b = d_quarantine fs !! final_name b.

Lemma resting_same_place st fs fs' b : same_place fs fs' b -> resting st fs b -> resting st fs' b.
Proof.
  intros [E1 E2]. destruct st; cbn; unfold uploading, in_archive, in_quarantine, nowhere, valid_in, absent_in; by rewrite E1, E2.
Qed.
Lemma placed_same_place c fs fs' b : same_place fs fs' b -> placed linked c fs b -> placed linked c fs' b.
Proof.
  intros Hs [Hm Hr]. split; [|intros Hn; by apply (resting_same_place _ fs), Hr].
  intros kind cm Hk. destruct Hs as [E1 E2]. generalize (Hm kind cm Hk).
  unfold moving, source_place, target_place, in_both, in_archive, in_quarantine, nowhere, valid_in, absent_in.
  destruct kind; by rewrite E1, E2.
Qed.

(** The file of one deposit changes place. *)
Lemma custody_of_move c fs fs' b : core_ok c -> custody_of linked c fs -> In b (c_backups c) ->
  (forall name, name <> final_name b -> d_published fs' !! name = d_published fs !! name) ->
  (forall name, name <> final_name b -> d_quarantine fs' !! name = d_quarantine fs !! name) ->
  placed linked c fs' b -> custody_of linked c fs'.
Proof.
  intros Hok [H1 H2 H3] Hb Hp Hq Hpl. split.
  - intros x Hx. destruct (decide (final_name x = final_name b)) as [E|Hn].
    + apply final_name_inj in E. by rewrite (NoDup_map_in b_ID _ x b (ok_backup_ids c Hok)).
    + apply (placed_same_place c fs); [split; [by apply Hp|by apply Hq]|by apply H1].
  - intros name Hn. destruct (decide (name = final_name b)) as [->|Hne]; [by exists b|]. rewrite Hp in Hn by done. by apply H2.
  - intros name Hn. destruct (decide (name = final_name b)) as [->|Hne]; [by exists b|]. rewrite Hq in Hn by done. by apply H3.
Qed.
End directories.

(** ** The server *)
Definition files (s : server) : dirs := Dirs (s_published s) (s_quarantine s).

Section server.
Context `{Platform} (linked : bool).

Record custody (s : server) : Prop := ServerCustody {
  cu_core : core_ok (core_of (s_db s)); cu_files : custody_of linked (core_of (s_db s)) (files s) }.

Lemma custody_same_files s s' : s_db s' = s_db s -> files s' = files s -> custody s -> custody s'.
Proof. intros E1 E2 [H1 H2]. split; [by rewrite E1|by rewrite E1, E2]. Qed.

(** A call of the store, whatever it does to the rest of the catalogue. *)
Lemma custody_store {A} (m : tx A) e s : custody s ->
  (forall a d', m (s_db s) = Ok (a, d') -> rstep e (core_of (s_db s)) (core_of d')) ->
  physical e (core_of (s_db s)) (files s) -> custody (snd (on_store m s)).
Proof.
  intros [Hok Hcu] Hm Hph. unfold on_store, commit. destruct (m (s_db s)) as [[a d']|er] eqn:E; cbn; [|by destruct s].
  pose proof (Hm a d' eq_refl) as Hstep.
  split; [exact (rstep_ok _ _ _ Hok Hstep)|exact (rstep_custody linked e _ _ Hok Hcu _ Hph Hstep)].
Qed.

(** A call that records no physical fact. *)
Lemma physical_none e c fs : ev_completes e = None -> ev_finishes e = None -> ev_resets e = None -> physical e c fs.
Proof. intros E1 E2 E3. split; intros *; [rewrite E1|rewrite E2|rewrite E3]; done. Qed.
Lemma custody_frame {A} (m : tx A) s : frame m -> custody s -> custody (snd (on_store m s)).
Proof.
  intros Hm Hs. apply (custody_store m (Event 0 None None None None)); [done| |by apply physical_none].
  intros a d' Hr. rewrite (Hm _ _ _ Hr). apply rs_skip.
Qed.

(** ** The deposits are kept *)
Definition has_row (b : backup) (s : server) : Prop := exists x, In x (d_backups (s_db s)) /\ descends b x.
(** The custody is kept, and so are the deposits of a snapshot. *)
Record keeps (rows : list backup) (s : server) : Prop := Keeps {
  ke_custody :> custody s; ke_rows : forall b, In b rows -> has_row b s }.
Lemma keeps_same_files rows s s' : s_db s' = s_db s -> files s' = files s -> keeps rows s -> keeps rows s'.
Proof. intros E1 E2 [H1 H2]. split; [by apply (custody_same_files s)|by unfold has_row; rewrite E1]. Qed.
Lemma row_follows e s d' b : core_ok (core_of (s_db s)) -> rstep e (core_of (s_db s)) (core_of d') -> has_row b s ->
  has_row b (s <| s_db := d' |>).
Proof.
  intros Hok Hstep (x & Hx & Hf). destruct (rstep_follows e _ _ x Hok Hstep Hx) as (x' & Hx' & Hf'%follows_descends).
  exists x'. split; [done|]. by apply (descends_trans _ x).
Qed.
Lemma keeps_store {A} rows (m : tx A) e s : keeps rows s ->
  (forall a d', m (s_db s) = Ok (a, d') -> rstep e (core_of (s_db s)) (core_of d')) ->
  physical e (core_of (s_db s)) (files s) -> keeps rows (snd (on_store m s)).
Proof.
  intros Hs Hm Hph. split; [by apply (custody_store m e _ (ke_custody _ _ Hs))|]. intros b Hb%(ke_rows rows s Hs). unfold on_store, commit.
  destruct (m (s_db s)) as [[a d']|er] eqn:E; cbn; [|by destruct s]. exact (row_follows e s d' b (cu_core _ Hs) (Hm a d' eq_refl) Hb).
Qed.
Lemma keeps_frame {A} rows (m : tx A) s : frame m -> keeps rows s -> keeps rows (snd (on_store m s)).
Proof.
  intros Hm Hs. apply (keeps_store rows m (Event 0 None None None None)); [done| |by apply physical_none].
  intros a d' Hr. rewrite (Hm _ _ _ Hr). apply rs_skip.
Qed.
End server.
