(* ===== verification/Reception.v ===== *)
(** The reception of an upload: what a receipt testifies, whatever fails, wherever
    the process stops, and whatever the rest of the system does meanwhile
    ([src/internal/ingest/writer.go]). *)
From S2P Require Import Prelude GoTime GoString Model Policy Catalog Retention RetentionMachine Deposit Store Archive Io Writer Custody.

(** ** Copying *)
Lemma read_delivered body room chunk e body' : 0 <= room -> read body room = (chunk, e, body') ->
  len chunk <= room /\
  match e with
  | Some e => delivered body = (chunk, e)
  | None => delivered body = ((chunk ++ fst (delivered body'))%string, snd (delivered body'))
  end.
Proof.
  intros Hroom. destruct body as [|[data e0] rest]; cbn [read]; [intros [= <- <- <-]; done|].
  destruct (len data <=? room) eqn:E.
  - intros [= <- <- <-]. split; [lia|]. by destruct e0.
  - intros [= <- <- <-]. split; [rewrite len_take by done; lia|]. cbn [delivered].
    destruct e0; cbn [fst snd]; [|rewrite <- str_app_assoc]; by rewrite str_take_drop.
Qed.

Definition staged (name content : string) (s : server) : Prop := s_incoming s !! name = Some (Regular content).

Section copying.
Context `{Platform} (env : nat -> server -> server) (fate_of : nat -> fate) (short : nat -> option Z).
Context (name : string) (I : server -> Prop).
Context (HI : forall s data, I s -> I (append_to name data s)).
Context `{!Stable env I, !forall content, Stable env (fun s => I s /\ staged name content s)}.

Lemma append_staged content data s : staged name content s -> staged name (content ++ data) (append_to name data s).
Proof. unfold staged, append_to. intros Hs. rewrite Hs. cbn. apply lookup_insert_eq. Qed.

Lemma triple_write chunk hashed :
  triple (fun s => I s /\ staged name hashed s) (write_file env fate_of short name chunk)
    (fun r s => I s /\ (snd r = None -> staged name (hashed ++ str_take (fst r) chunk) s)) I.
Proof.
  intros n s Hs. pose proof (stable (P := fun s => I s /\ staged name hashed s) env n s Hs) as [Hs' Hf]. clear Hs. rename Hs' into Hs. unfold write_file. cbv zeta.
  set (written := match short n with Some k => _ | None => _ end). destruct (fate_of n); cbn [fst snd];
    try done; try (by apply HI); (split; [try done; by apply HI|]); try done. intros _. by apply append_staged.
Qed.

Definition copied (body : reader) (N : Z) (hashed : string)
    (r : Z * string * option read_error * option failure) (s : server) : Prop :=
  let '(n, digest, readErr, writeErr) := r in
  readErr = None -> writeErr = None ->
  exists data, n = len hashed + len data /\ digest = sha256_hex (hashed ++ data) /\ staged name (hashed ++ data) s /\
    (delivered body = (data, EOF) \/ (len data = Z.max 0 N /\ data = str_take N (fst (delivered body)))).

Lemma copied_nothing body N hashed s : N <= 0 -> staged name hashed s ->
  copied body N hashed (len hashed, sha256_hex hashed, None, None) s.
Proof.
  intros HN Hs _ _. exists ""%string. rewrite str_app_nil_r. change (len "") with 0. split; [lia|]. split; [done|]. split; [done|].
  right. split; [lia|]. unfold str_take. by replace (Z.to_nat N) with 0%nat by lia.
Qed.

Lemma triple_copy fuel : forall body N hashed, (Z.to_nat N <= fuel)%nat ->
  triple (fun s => I s /\ staged name hashed s) (copy_loop env fate_of short fuel name body N hashed)
    (fun r s => I s /\ copied body N hashed r s) I.
Proof.
  induction fuel as [|fuel IH]; intros body N hashed Hfuel; cbn [copy_loop].
  - apply triple_ret. intros s [Hs Hf]. split; [done|]. apply copied_nothing; [lia|done].
  - destruct (N <=? 0) eqn:EN; [apply triple_ret; intros s [Hs Hf]; split; [done|apply copied_nothing; [lia|done]]|].
    destruct (read body (Z.min N bufferSize)) as [[chunk readErr] body'] eqn:Er.
    apply read_delivered in Er as [Hlen Hdel]; [|unfold bufferSize; lia].
    eapply (triple_bind _ _ _ _ (fun (r : Z * option failure) s => I s /\
      (snd r = None -> staged name (hashed ++ str_take (fst r) chunk) s))).
    { destruct (len chunk =? 0) eqn:E0; [|by apply triple_write]. apply triple_ret. intros s [Hs Hf]. split; [done|]. intros _.
      by rewrite (len_zero chunk), str_app_nil_r by lia. }
    intros [written writeErr]. cbn [fst snd].
    destruct writeErr as [e|]; [apply triple_ret; intros s [Hs _]; split; [done|by intros ? ?]|].
    destruct (negb (written =? len chunk)) eqn:Ew; [apply triple_ret; intros s [Hs _]; split; [done|by intros ? ?]|].
    apply negb_false_iff, Z.eqb_eq in Ew as ->. rewrite str_take_all by done.
    assert (forall s, I s /\ (@None failure = None -> staged name (hashed ++ chunk) s) ->
      delivered body = (chunk, EOF) -> I s /\ copied body N hashed (len (hashed ++ chunk), sha256_hex (hashed ++ chunk), None, None) s) as Hend.
    { intros s [Hs Hf] Hd. split; [done|]. intros _ _. exists chunk. rewrite len_app. repeat split; [by apply Hf|by left]. }
    destruct readErr as [[]|]; [apply triple_ret; intros s Hs; by apply Hend|
      apply triple_ret; intros s [Hs _]; split; [done|by intros ? ?]..|].
    destruct (len chunk =? 0) eqn:E0; [apply triple_ret; intros s [Hs _]; split; [done|by intros ? ?]|].
    eapply triple_weaken; [apply (IH body' (N - len chunk) (hashed ++ chunk)%string); pose proof (len_nonneg chunk); lia|..].
    + intros s [Hs Hf]. split; [done|by apply Hf].
    + intros [[[n d] re] we] s [Hs Hc]. split; [done|]. intros -> ->.
      destruct (Hc eq_refl eq_refl) as (data & -> & -> & Hf & Hcases). exists (chunk ++ data)%string.
      rewrite !len_app, <- !str_app_assoc. split; [lia|]. split; [done|]. split; [done|]. rewrite Hdel.
      destruct Hcases as [Hc1|[Hc1 ->]]; [left; by rewrite Hc1|right]. cbn [fst]. split; [lia|].
      by rewrite str_take_app by lia.
    + done.
Qed.
End copying.

(** ** The upload of a deposit *)
Section deposit.
Context `{Platform} (linked : bool) (rows : list backup) (b : backup).

(** The row of the upload, as the admission left it. *)
Definition receiving_row (s : server) : Prop :=
  exists x, In x (d_backups (s_db s)) /\ same_file b x /\ b_Status x = BackupReceiving.
Definition upload (s : server) : Prop := keeps linked rows s /\ receiving_row s.

(** What the rest of the system may do while the upload goes on: anything that keeps
    the custody of the archive, the deposits, this row as it is, and the files of
    this deposit. *)
Record respects (s s' : server) : Prop := Respects {
  re_custody : custody linked s';
  re_rows : forall x, In x (d_backups (s_db s)) -> has_row x s';
  re_receiving : receiving_row s -> receiving_row s';
  re_staging : s_incoming s' !! staging_name b = s_incoming s !! staging_name b;
  re_published : s_published s' !! final_name b = s_published s !! final_name b }.
Class Concurrent (env : nat -> server -> server) : Prop := concurrent : forall n s, custody linked s -> respects s (env n s).
#[export] Instance concurrent_alone : Concurrent alone.
Proof. intros n s Hs. split; [done|intros x Hx; exists x; split; [done|apply descends_refl]|done..]. Qed.

Lemma upload_incoming s f : upload s -> upload (s <| s_incoming ::= f |>).
Proof. intros [H1 H2]. split; [by apply (keeps_same_files linked rows s)|done]. Qed.
Lemma upload_append s name data : upload s -> upload (append_to name data s).
Proof. unfold append_to. intros Hs. destruct (_ !! _) as [[]|]; try exact Hs; by apply upload_incoming. Qed.
Lemma upload_create s name : upload s -> upload (snd (create_file name s)).
Proof. unfold create_file. intros Hs. destruct (_ !! _); try exact Hs; by apply upload_incoming. Qed.
Lemma upload_remove s name : upload s -> upload (snd (remove_incoming name s)).
Proof. unfold remove_incoming. intros Hs. destruct (_ !! _) as [[|[]|]|]; try exact Hs; by apply upload_incoming. Qed.

(** The rows of the deposit. *)
Lemma receiving_unique s x : upload s -> In x (d_backups (s_db s)) -> b_ID x = b_ID b ->
  same_file b x /\ b_Status x = BackupReceiving.
Proof.
  intros [[[Hok _] _] (y & Hy & Hf & Hst)] Hx Hid.
  rewrite (NoDup_map_in b_ID _ x y (ok_backup_ids _ Hok)); [done|done|done|]. by rewrite (sf_id _ _ Hf).
Qed.
Lemma receiving_place s x : upload s -> In x (d_backups (s_db s)) -> b_Status x = BackupReceiving ->
  uploading (files s) x /\ forall kind cm, ~ authorized_for (core_of (s_db s)) (b_ID x) kind cm.
Proof.
  intros [[[Hok Hcu] _] _] Hx Hst.
  assert (forall kind cm, ~ authorized_for (core_of (s_db s)) (b_ID x) kind cm) as Hn.
  { intros kind cm. apply idle_not_authorized; [done|done|]. intros k. rewrite Hst. by destruct k. }
  split; [|done]. pose proof (pl_resting _ _ _ _ (cu_placed _ _ _ Hcu x Hx) Hn) as Hr. by rewrite Hst in Hr.
Qed.

Definition published_data (data : string) (s : server) : Prop :=
  matches b data /\ s_published s !! final_name b = Some (Regular data).

(** The file is published, whole and intact. *)
Lemma upload_link s data : upload s -> staged (staging_name b) data s -> matches b data ->
  let r := link_file (staging_name b) (final_name b) s in
  upload (snd r) /\ (is_ok (fst r) = true -> published_data data (snd r)).
Proof.
  intros Hs Hst Hm. unfold link_file. rewrite Hst. destruct (s_published s !! final_name b) as [e|] eqn:E; [done|]. cbn.
  split; [|intros _; split; [done|]; apply lookup_insert_eq]. pose proof Hs as [[[Hok Hcu] Hrows] (x & Hx & Hf & Hxs)]. split; [|by exists x].
  split; [|exact Hrows]. split; [done|]. destruct (receiving_place s x Hs Hx Hxs) as [[Hq _] Hn]. unfold absent_in in Hq. rewrite (same_final _ _ Hf) in Hq.
  apply (custody_of_move linked _ (files s) _ x); [exact Hok|exact Hcu|exact Hx| |done|].
  - intros name Hne. cbn. rewrite lookup_insert_ne; [done|]. by rewrite <- (same_final _ _ Hf).
  - split; [by intros kind cm Hk; destruct (Hn kind cm)|]. intros _. rewrite Hxs. split; [unfold absent_in; by rewrite (same_final _ _ Hf)|].
    right. apply (same_valid _ _ Hf). exists data. split; [apply lookup_insert_eq|done].
Qed.

Lemma upload_complete_store s data t : upload s -> published_data data s ->
  let r := on_store (Complete (b_ID b) t) s in
  keeps linked rows (snd r) /\ (is_ok (fst r) = true ->
    exists x, In x (d_backups (s_db (snd r))) /\ same_file b x /\ b_Status x = BackupComplete).
Proof.
  intros Hs [Hm Hp]. pose proof Hs as [Hcu _]. cbv zeta. split.
  - apply (keeps_store linked rows _ (Event t None None None (Some (b_ID b)))); [done| |].
    + intros u d' Hr. exact (Complete_step (Event t None None None (Some (b_ID b))) _ _ _ _ _ (cu_core _ _ Hcu) eq_refl Hr).
    + split; [|done..]. intros x [= Hid] Hx. destruct (receiving_unique s x Hs Hx) as [Hf _]; [done|]. apply (same_valid _ _ Hf).
      by exists data.
  - unfold on_store, commit. destruct (Complete (b_ID b) t (s_db s)) as [[u d']|e] eqn:Hr; [|done]. intros _. cbn.
    apply Complete_inv in Hr as [(x & Hx & Hid & Hst) Hcore]. apply (f_equal c_backups) in Hcore. cbn in Hcore.
    destruct (receiving_unique s x Hs Hx Hid) as [Hf _].
    rewrite Hcore. eexists. split; [apply in_update_new; [exact Hx|by apply backup_is_iff]|by destruct Hf].
Qed.

Lemma keeps_fail s id reason t : keeps linked rows s -> keeps linked rows (snd (on_store (Fail_ id reason t) s)).
Proof.
  intros Hcu. apply (keeps_store linked rows _ (Event t None None None None)); [done| |by apply physical_none].
  intros u d' Hr. exact (Fail_step _ _ _ _ _ _ _ (cu_core _ _ Hcu) Hr).
Qed.
End deposit.

(** What a receipt testifies. *)
Definition receipt_ok `{Platform} (b : backup) (body : reader) (r : response) (s : server) : Prop :=
  match r with
  | ReceiptResponse id size digest _ =>
    id = b_ID b /\ size = b_Size b /\ digest = b_SHA256 b /\
    exists data, delivered body = (data, EOF) /\ published_data b data s /\
      exists x, In x (d_backups (s_db s)) /\ same_file b x /\ b_Status x = BackupComplete
  | Respond _ _ => True
  end.
Definition is_respond (r : response) : bool := match r with Respond _ _ => true | _ => false end.
Lemma storageError_respond op e : is_respond (storageError op e) = true.
Proof. by destruct e as [[]|]. Qed.

Section receiving.
Context `{Platform} (linked : bool) (rows : list backup) (b : backup) (body : reader).
Context (env : nat -> server -> server) (fate_of : nat -> fate) (clock : nat -> Z) (short : nat -> option Z).
Context `{!Concurrent linked b env}.

Abbreviation U := (upload linked rows b).
Abbreviation C := (keeps linked rows).

#[local] Instance stable_upload : Stable env U.
Proof.
  intros n s [[Hs Hrows] Hr]. destruct (concurrent linked b n s Hs) as [H1 H2 H3 _ _]. split; [|by apply H3]. split; [done|].
  intros x (y & Hy & Hf)%Hrows. destruct (H2 y Hy) as (y' & Hy' & Hf'). exists y'. split; [done|]. by apply (descends_trans _ y).
Qed.
#[local] Instance stable_staged content : Stable env (fun s => U s /\ staged (staging_name b) content s).
Proof.
  intros n s [Hs Hf]. destruct (concurrent linked b n s (ke_custody _ _ _ (proj1 Hs))) as [_ _ _ H4 _].
  split; [by apply stable_upload|]. unfold staged. by rewrite H4.
Qed.
#[local] Instance stable_published data : Stable env (fun s => U s /\ published_data b data s).
Proof.
  intros n s [Hs [Hm Hf]]. destruct (concurrent linked b n s (ke_custody _ _ _ (proj1 Hs))) as [_ _ _ _ H5].
  split; [by apply stable_upload|]. split; [done|]. by rewrite H5.
Qed.
Lemma upload_custody s : U s -> C s.
Proof. by intros []. Qed.

(** How a reception ends. *)
Definition ended (pr : bool * response) (s : server) : Prop :=
  if fst pr then C s /\ receipt_ok b body (snd pr) s else U s /\ is_respond (snd pr) = true.

Lemma ends_respond (published : bool) (P : server -> Prop) r : is_respond r = true -> (forall s, P s -> U s) ->
  triple P (mret (published, r)) ended C.
Proof.
  intros Hr HP. apply triple_ret. intros s Hs%HP. unfold ended. destruct published; cbn; [|done].
  split; [by apply upload_custody|by destruct r].
Qed.

(** An effect that changes nothing that matters. *)
Lemma triple_quiet {A} (P : server -> Prop) `{!Stable env P} (effect : server -> result failure A * server) :
  (forall s, P s -> U s) -> (forall s, P s -> P (snd (effect s))) -> triple P (act env fate_of effect) (fun _ => P) C.
Proof.
  intros HP He. eapply triple_weaken; [apply (triple_act_inv env fate_of P); exact He|done..|]. intros s Hs. by apply upload_custody, HP.
Qed.

Lemma triple_confirm_upload data : delivered body = (data, EOF) ->
  triple (fun s => U s /\ published_data b data s) (confirm_published env fate_of clock b) (fun r => ended (true, r)) C.
Proof.
  intros Hdata. set (J := fun s => U s /\ published_data b data s).
  assert (forall s, J s -> U s) as HJ by (by intros s []).
  assert (forall r, is_respond r = true -> triple J (mret r) (fun r => ended (true, r)) C) as Hrespond.
  { intros r Hr. apply triple_ret. intros s Hs%HJ. split; [by apply upload_custody|by destruct r]. }
  unfold confirm_published. eapply triple_bind; [by apply (triple_quiet J)|]. intros [[]|e]; [|apply Hrespond, storageError_respond].
  eapply triple_bind.
  { apply (triple_quiet J); [done|]. intros s [H1 H2]. split; [by apply upload_remove|]. unfold published_data, remove_incoming in *.
    by destruct (s_incoming s !! staging_name b) as [[|[]|]|]. }
  intros [[]|e]; [|by apply Hrespond]. eapply triple_bind; [by apply (triple_quiet J)|].
  intros [[]|e]; [|apply Hrespond, storageError_respond].
  eapply triple_bind; [by apply (triple_now clock J _ (fun _ => J))|]. intros t.
  eapply (triple_bind _ _ _ _ (fun r s => C s /\ (is_ok r = true -> published_data b data s /\
     exists x, In x (d_backups (s_db s)) /\ same_file b x /\ b_Status x = BackupComplete))).
  - apply triple_act; [apply stable_published|by intros s [Hs _]; apply upload_custody|]. intros s [Hs Hp].
    destruct (upload_complete_store linked rows b s data t Hs Hp) as [Hc Hx].
    split; [done|]. split; [|intros e; split; (split; [|done]); [by apply upload_custody|done]]. split; [done|]. intros Hok.
    split; [|by apply Hx]. destruct Hp as [Hm Hp]. split; [done|]. unfold on_store.
    by destruct (commit (Complete (b_ID b) t) (s_db s)) as [[]].
  - intros [[]|e]; [|unfold storageError; destruct e as [[]|]; apply triple_ret; intros s [Hs _]; done].
    apply triple_ret. intros s [Hs Hc]. split; [done|]. destruct (Hc eq_refl) as (Hp & Hx).
    repeat (split; [done|]). exists data. done.
Qed.

(** Saving and publishing what was received. *)
Lemma triple_publish data : delivered body = (data, EOF) -> matches b data ->
  triple (fun s => U s /\ staged (staging_name b) data s)
    (chmod ← act env fate_of no_effect;
     sync ← match chmod with Ok _ => act env fate_of no_effect | Err _ => mret chmod end;
     close ← act env fate_of no_effect;
     match first_error sync close with
     | Err e => mret (false, storageError "salvataggio del backup" e)
     | Ok _ =>
       l ← act env fate_of (link_file (staging_name b) (final_name b));
       match l with
       | Err e => mret (false, storageError "pubblicazione del backup" e)
       | Ok _ => r ← confirm_published env fate_of clock b; mret (true, r)
       end
     end) ended C.
Proof.
  intros Hdel Hm. set (J := fun s => U s /\ staged (staging_name b) data s).
  assert (forall s, J s -> U s) as HJ by (by intros s []).
  eapply triple_bind; [by apply (triple_quiet J)|]. intros chmod.
  eapply (triple_bind _ _ _ _ (fun _ => J)); [destruct chmod; [by apply (triple_quiet J)|by apply triple_ret]|]. intros sync.
  eapply triple_bind; [by apply (triple_quiet J)|]. intros close.
  destruct (first_error sync close) as [_|e]; [|apply ends_respond; [apply storageError_respond|done]].
  eapply (triple_bind _ _ _ _ (fun r s => U s /\ (is_ok r = true -> published_data b data s))).
  - apply triple_act; [apply stable_staged|by intros s [Hs _]; apply upload_custody|]. intros s [Hs Hf].
    destruct (upload_link linked rows b s data Hs Hf Hm) as [Hu Hp]. split; [by apply upload_custody|].
    split; [done|]. intros f. by split.
  - intros [[]|e]; [|apply ends_respond; [apply storageError_respond|by intros s []]].
    eapply triple_bind; [eapply triple_pre; [apply (triple_confirm_upload data Hdel)|intros s [Hs Hp]; split; [done|by apply Hp]]|].
    intros r. by apply triple_ret.
Qed.

Lemma triple_receive_file : triple U (receive_file env fate_of clock short b body) ended C.
Proof.
  unfold receive_file.
  eapply (triple_bind _ _ _ _ (fun r s => U s /\ (is_ok r = true -> staged (staging_name b) "" s))).
  { apply triple_act; [apply stable_upload|apply upload_custody|]. intros s Hs. pose proof (upload_create linked rows b s (staging_name b) Hs) as Hs'.
    split; [by apply upload_custody|]. split; [|by split]. split; [done|]. unfold create_file, staged in *.
    destruct (s_incoming s !! staging_name b); [done|]. intros _. cbn. apply lookup_insert_eq. }
  intros [[]|e]; [|apply ends_respond; [apply storageError_respond|by intros s []]].
  eapply triple_bind.
  { eapply triple_weaken; [apply (triple_copy env fate_of short (staging_name b) U) with (N := b_Size b + 1) (hashed := ""%string)|..].
    - intros s data. apply upload_append.
    - apply stable_staged.
    - done.
    - intros s [Hs Hf]. split; [done|by apply Hf].
    - intros a s Hs. exact Hs.
    - apply upload_custody. }
  intros [[[n digest] readErr] writeErr]. set (J := fun s => _ s /\ copied _ _ _ _ _ s).
  assert (forall r, is_respond r = true -> triple J (_ ← act env fate_of no_effect; mret (false, r)) ended C) as Hclose.
  { intros r Hr. eapply triple_bind; [eapply triple_pre; [by apply (triple_quiet U)|by intros s [Hs _]]|].
    intros ?. by apply ends_respond. }
  destruct writeErr as [e|]; [apply Hclose, storageError_respond|].
  destruct (negb _ || negb (n =? b_Size b)) eqn:E; [by apply Hclose|].
  apply orb_false_iff in E as [Er%negb_false_iff En%negb_false_iff%Z.eqb_eq].
  destruct readErr as [re|]; [done|]. destruct (negb (String.eqb digest (b_SHA256 b))) eqn:Ed; [by apply Hclose|].
  apply negb_false_iff, String.eqb_eq in Ed. clear Hclose.
  intros k s [Hs Hc]. destruct (Hc eq_refl eq_refl) as (data & Hn & Hd & Hf & Hcases). change (len "") with 0 in Hn.
  change ("" ++ data)%string with data in *. pose proof (len_nonneg data).
  apply (triple_publish data); [|split; [lia|congruence]|done]. destruct Hcases as [?|[Hlen _]]; [done|lia].
Qed.

Lemma triple_cleanup : triple U (cleanup env fate_of clock b false) (fun _ => C) C.
Proof.
  unfold cleanup. eapply triple_bind; [apply (triple_quiet U); [done|intros s; apply upload_remove]|]. intros ?.
  eapply triple_bind; [by apply (triple_now clock U _ (fun _ => U))|]. intros t.
  eapply (triple_bind _ _ _ _ (fun _ => C)); [|intros ?; by apply triple_ret].
  apply triple_act; [apply stable_upload|apply upload_custody|]. intros s Hs%upload_custody.
  pose proof (keeps_fail linked rows s (b_ID b) "upload interrotto o non valido" t Hs). done.
Qed.

Lemma triple_receive : triple U (receive env fate_of clock short b body) (fun r s => C s /\ receipt_ok b body r s) C.
Proof.
  unfold receive. eapply triple_bind; [apply triple_receive_file|]. intros [published r]. cbn [fst snd].
  destruct published; [by apply triple_ret; intros s|].
  intros k s [Hs Hr]. revert k s Hs.
  assert (triple U (_ ← cleanup env fate_of clock b false; mret r) (fun r s => C s /\ receipt_ok b body r s) C) as Ht; [|done].
  eapply triple_bind; [apply triple_cleanup|]. intros ?. apply triple_ret. intros s Hs. split; [done|by destruct r].
Qed.
End receiving.
