(* ===== verification/Accepting.v ===== *)
(** An upload that arrives whole is accepted: the reception run to its end, when
    nothing fails ([src/internal/ingest/writer.go]). *)
From S2P Require Import Prelude GoTime GoString Model Policy Catalog RetentionMachine Deposit Store Archive Io Writer Custody Reception.

(** Every read brings a byte, the end or an error. *)
Definition progressing (body : reader) : Prop := Forall (fun r => snd r = None -> fst r <> ""%string) body.

Lemma read_progress body room chunk e body' : 0 < room -> progressing body -> read body room = (chunk, e, body') ->
  progressing body' /\ (e = None -> 0 < len chunk).
Proof.
  intros Hroom Hp. destruct body as [|[data e0] rest]; cbn [read]; [by intros [= <- <- <-]|].
  apply Forall_cons in Hp as [Hd Hp]. cbn in Hd. destruct (len data <=? room) eqn:E; intros [= <- <- <-].
  - split; [done|]. intros He. specialize (Hd He). pose proof (len_nonneg data). pose proof (len_zero data). destruct (decide (len data = 0)); [tauto|lia].
  - split; [|intros _; rewrite len_take by lia; lia]. apply Forall_cons. split; [|done]. cbn. intros _ Hz.
    pose proof (f_equal len (str_take_drop room data)) as Hl. rewrite Hz, str_app_nil_r, len_take in Hl by lia. lia.
Qed.

Section accepting.
Context `{Platform} (clock : nat -> Z) (b : backup) (d : db).
Abbreviation whole := (fun _ : nat => @None Z).

(** Until the end the catalogue is untouched and the name is free. *)
Definition before (content : string) (s : server) : Prop :=
  s_db s = d /\ staged (staging_name b) content s /\ s_published s !! final_name b = None.

Lemma runs_write content chunk :
  runs (before content) (write_file alone faultless whole (staging_name b) chunk)
    (fun r s => r = (len chunk, None) /\ before (content ++ chunk) s).
Proof.
  intros n s (Hd & Hs & Hp). unfold write_file. cbv zeta. change (alone n s) with s. cbn [faultless]. exists (len chunk, None), (n + 1)%nat. eexists. split; [reflexivity|].
  split; [done|]. rewrite str_take_all by done. split; [|split].
  - unfold append_to. destruct (s_incoming s !! staging_name b) as [[]|]; exact Hd || exact Hp.
  - by apply append_staged.
  - unfold append_to. destruct (s_incoming s !! staging_name b) as [[]|]; exact Hd || exact Hp.
Qed.

Lemma runs_copy fuel : forall body N hashed data, (Z.to_nat N <= fuel)%nat -> progressing body ->
  delivered body = (data, EOF) -> len data < N ->
  runs (before hashed) (copy_loop alone faultless whole fuel (staging_name b) body N hashed)
    (fun r s => r = (len (hashed ++ data), sha256_hex (hashed ++ data), None, None) /\ before (hashed ++ data) s).
Proof.
  induction fuel as [|fuel IH]; intros body N hashed data Hf Hp Hd HN; pose proof (len_nonneg data); [lia|].
  cbn [copy_loop]. rewrite (proj2 (Z.leb_gt N 0)) by lia.
  destruct (read body (Z.min N bufferSize)) as [[chunk readErr] body'] eqn:Er.
  assert (0 < Z.min N bufferSize) as Hroom by (unfold bufferSize; lia).
  destruct (read_progress _ _ _ _ _ Hroom Hp Er) as [Hp' Hpos].
  apply read_delivered in Er as [Hlen Hdel]; [|lia].
  eapply (runs_bind _ _ _ _ (fun r s => r = (len chunk, None) /\ before (hashed ++ chunk) s)).
  { destruct (len chunk =? 0) eqn:E0; [|apply runs_write]. apply runs_ret. intros s Hs. rewrite (len_zero chunk) by lia.
    by rewrite str_app_nil_r. }
  intros [written writeErr] n s [[= -> ->] Hs]. rewrite Z.eqb_refl, str_take_all by done. cbn [negb].
  destruct readErr as [e|].
  - rewrite Hd in Hdel. injection Hdel as -> <-. by eapply runs_ret.
  - specialize (Hpos eq_refl). rewrite (proj2 (Z.eqb_neq (len chunk) 0)) by lia.
    rewrite Hd in Hdel. destruct (delivered body') as [data' e'] eqn:Hd'. cbn [fst snd] in Hdel. injection Hdel as -> <-.
    rewrite <- str_app_assoc. rewrite len_app in HN. apply IH; [lia|done|done|lia|done].
Qed.

(** The end: the catalogue records the upload, or refuses. *)
Definition accepted (r : response) : Prop :=
  (exists t u d', Complete (b_ID b) t d = Ok (u, d') /\ r = ReceiptResponse (b_ID b) (b_Size b) (b_SHA256 b) (format_rfc3339nano t)) \/
  (exists t er, Complete (b_ID b) t d = Err er /\ r = storageError "persistenza del catalogo" (Failed er)).

Lemma runs_confirm data : runs (fun s => s_db s = d /\ staged (staging_name b) data s)
  (confirm_published alone faultless clock b) (fun r _ => accepted r).
Proof.
  set (J := fun s => s_db s = d /\ _). unfold confirm_published.
  eapply (runs_bind _ _ _ _ (fun r s => r = Ok tt /\ J s)); [by apply runs_act|]. intros r n s [-> Hs]. revert n s Hs.
  eapply (runs_bind _ _ _ _ (fun r s => r = Ok tt /\ s_db s = d)).
  { apply runs_act. intros s [Hd Hst]. unfold remove_incoming. unfold staged in Hst. by rewrite Hst. }
  intros r n s [-> Hs]. revert n s Hs.
  eapply (runs_bind _ _ _ _ (fun r s => r = Ok tt /\ s_db s = d)); [by apply runs_act|]. intros r n s [-> Hs]. revert n s Hs.
  eapply runs_bind; [by apply (runs_now clock _ (fun _ s => s_db s = d))|]. intros t.
  eapply (runs_bind _ _ _ _ (fun r _ => match r with
    | Ok _ => exists u d', Complete (b_ID b) t d = Ok (u, d')
    | Err e => exists er, e = Failed er /\ Complete (b_ID b) t d = Err er end)).
  - apply runs_act. intros s Hd. unfold on_store, commit. rewrite Hd.
    destruct (Complete (b_ID b) t d) as [[u d']|er] eqn:E; [by exists u, d'|by exists er].
  - intros [u|e]; apply runs_ret; intros s Hr.
    + left. destruct Hr as (u' & d' & E). by exists t, u', d'.
    + right. destruct Hr as (er & -> & E). by exists t, er.
Qed.

Lemma runs_receive body data : delivered body = (data, EOF) -> progressing body -> matches b data ->
  runs (fun s => s_db s = d /\ s_incoming s !! staging_name b = None /\ s_published s !! final_name b = None)
    (receive alone faultless clock whole b body) (fun r _ => accepted r).
Proof.
  intros Hdel Hp [Hl Hh]. unfold receive.
  eapply (runs_bind _ _ _ _ (fun pr _ => fst pr = true /\ accepted (snd pr))).
  2:{ intros [[] r] n s [Hpub Hr]; [|done]. by eapply runs_ret with (P := fun _ => True). }
  unfold receive_file, copyAndHash. pose proof (len_nonneg data).
  eapply (runs_bind _ _ _ _ (fun r s => r = Ok tt /\ before "" s)).
  { apply runs_act. intros s (Hd & Hi & Hf). unfold create_file. rewrite Hi. split; [done|]. split; [done|]. split; [|done]. apply lookup_insert_eq. }
  intros r n s [-> Hs]. revert n s Hs.
  eapply runs_bind; [apply (runs_copy _ body (b_Size b + 1) "" data); [done|done|done|lia]|].
  intros r n s [-> Hs]. change ("" ++ data)%string with data in *. cbn [negb orb]. rewrite Hl, Hh, Z.eqb_refl, String.eqb_refl. cbn [negb orb].
  revert n s Hs.
  eapply (runs_bind _ _ _ _ (fun r s => r = Ok tt /\ before data s)); [by apply runs_act|]. intros r n s [-> Hs]. revert n s Hs.
  eapply (runs_bind _ _ _ _ (fun r s => r = Ok tt /\ before data s)); [by apply runs_act|]. intros r n s [-> Hs]. revert n s Hs.
  eapply (runs_bind _ _ _ _ (fun r s => r = Ok tt /\ before data s)); [by apply runs_act|]. intros r n s [-> Hs]. revert n s Hs.
  cbn [first_error].
  eapply (runs_bind _ _ _ _ (fun r s => r = Ok tt /\ s_db s = d /\ staged (staging_name b) data s)).
  { apply runs_act. intros s (Hd & Hst & Hf). unfold link_file. unfold staged in Hst. by rewrite Hst, Hf. }
  intros r n s [-> Hs]. revert n s Hs.
  eapply runs_bind; [apply runs_confirm|]. intros r. by apply runs_ret.
Qed.
End accepting.

(** C22. An upload that arrives whole is accepted: when nothing fails and its names
    are free, the reception of a body of the announced size and digest ends with the
    receipt, unless the catalogue itself refuses to record the completion. *)
Theorem upload_accepted `{Platform} clock b s body data n :
  s_incoming s !! staging_name b = None -> s_published s !! final_name b = None ->
  delivered body = (data, EOF) -> progressing body -> matches b data ->
  exists r n' s', receive alone faultless clock (fun _ => None) b body (n, s) = (Some r, (n', s')) /\
    ((exists t u d', Complete (b_ID b) t (s_db s) = Ok (u, d') /\
        r = ReceiptResponse (b_ID b) (b_Size b) (b_SHA256 b) (format_rfc3339nano t)) \/
     (exists t er, Complete (b_ID b) t (s_db s) = Err er /\ r = storageError "persistenza del catalogo" (Failed er))).
Proof.
  intros Hi Hf Hdel Hp Hm. destruct (runs_receive clock b (s_db s) body data Hdel Hp Hm n s) as (r & n' & s' & E & Ha); [done|].
  by exists r, n', s'.
Qed.

Module Arrival.
Import Scenario.
#[local] Existing Instance platform.

Definition arriving : backup := receiving_backup (backup_name "a") key_id "" document 10 digest (day 0).
Definition empty : server := Server initial_db ∅ ∅ ∅ 0.
Definition parcel : reader := [("01234", None); ("56789", Some EOF)]%string.

Lemma upload_accepted_witness :
  exists r n' s', receive alone faultless (fun _ => day 0) (fun _ => None) arriving parcel (0%nat, empty) = (Some r, (n', s')) /\
    ((exists t u d', Complete (b_ID arriving) t (s_db empty) = Ok (u, d') /\
        r = ReceiptResponse (b_ID arriving) (b_Size arriving) (b_SHA256 arriving) (format_rfc3339nano t)) \/
     (exists t er, Complete (b_ID arriving) t (s_db empty) = Err er /\ r = storageError "persistenza del catalogo" (Failed er))).
Proof.
  apply (upload_accepted (fun _ => day 0) arriving empty parcel "0123456789" 0%nat); [reflexivity..| |split; reflexivity].
  repeat constructor; discriminate.
Defined.
End Arrival.
