(* ===== verification/Slots.v ===== *)
(** The limits of the writer: its handler slots are conserved, the copy of a body
    ends, and the space on the disk is counted exactly
    ([src/internal/ingest/writer.go]). *)
From S2P Require Import Prelude GoTime GoString Model Policy Catalog RetentionMachine Deposit Store Archive Io Writer.

(** ** Slots *)
Section slots.
Context `{Platform} (env : nat -> server -> server) (fate_of : nat -> fate) (clock : nat -> Z) (short : nat -> option Z).

(** A reception uses no slot but its own. *)
Section walk.
Context (k : Z).
Abbreviation I := (fun s : server => s_slots s = k).
Context `{!Stable env I}.
Abbreviation quiet m := (triple I m (fun _ => I) I).

Lemma quiet_act {A} (effect : server -> result failure A * server) :
  (forall s, s_slots (snd (effect s)) = s_slots s) -> quiet (act env fate_of effect).
Proof. intros He. apply triple_act_inv; [done|]. intros s Hs. by rewrite He. Qed.
Lemma quiet_bind {A B} (m : io server A) (f : A -> io server B) : quiet m -> (forall a, quiet (f a)) -> quiet (m ≫= f).
Proof. intros Hm Hf. by eapply triple_bind. Qed.
Lemma quiet_ret {A} (a : A) : quiet (mret a).
Proof. by apply triple_ret. Qed.
Lemma quiet_now : quiet (now clock).
Proof. by apply triple_now. Qed.
Lemma quiet_store {A} (m : tx A) : quiet (act env fate_of (on_store m)).
Proof. apply quiet_act. intros s. unfold on_store. by destruct (commit m (s_db s)) as [[a|e] d]. Qed.
Lemma quiet_remove name : quiet (act env fate_of (remove_incoming name)).
Proof. apply quiet_act. intros s. unfold remove_incoming. by destruct (_ !! _) as [[|[]|]|]. Qed.
Lemma quiet_create name : quiet (act env fate_of (create_file name)).
Proof. apply quiet_act. intros s. unfold create_file. by destruct (_ !! _). Qed.
Lemma quiet_link staging final : quiet (act env fate_of (link_file staging final)).
Proof. apply quiet_act. intros s. unfold link_file. by destruct (s_incoming s !! staging), (s_published s !! final). Qed.
Lemma quiet_none : quiet (act env fate_of no_effect).
Proof. by apply quiet_act. Qed.
Lemma quiet_write name chunk : quiet (write_file env fate_of short name chunk).
Proof.
  intros n s Hs. pose proof (stable (P := I) env n s Hs) as Hst. clear Hs. rename Hst into Hs. unfold write_file. cbv zeta. set (s' := append_to _ _ _).
  assert (s_slots s' = k) as Hs' by (rewrite <- Hs; unfold s', append_to; by destruct (_ !! _) as [[]|]). by destruct (fate_of n).
Qed.

Ltac quiet_tac :=
  repeat first
    [ apply quiet_bind; [|intros ?] | apply quiet_ret | apply quiet_now | apply quiet_none | apply quiet_store | apply quiet_remove
    | apply quiet_create | apply quiet_link | apply quiet_write
    | match goal with
      | |- triple _ (if ?c then _ else _) _ _ => destruct c
      | |- triple _ (match ?r with _ => _ end) _ _ => destruct r
      end ].

Lemma quiet_copy fuel : forall name body N hashed, quiet (copy_loop env fate_of short fuel name body N hashed).
Proof.
  induction fuel as [|fuel IH]; intros name body N hashed; cbn [copy_loop]; [apply quiet_ret|].
  destruct (N <=? 0); [apply quiet_ret|]. destruct (read body (Z.min N bufferSize)) as [[chunk readErr] body'].
  quiet_tac; apply IH.
Qed.
Lemma quiet_receive b body : quiet (receive env fate_of clock short b body).
Proof.
  unfold receive, receive_file, confirm_published, cleanup, copyAndHash.
  apply quiet_bind; [|intros r; quiet_tac]. apply quiet_bind; [apply quiet_create|]. intros [?|?]; [|quiet_tac].
  apply quiet_bind; [apply quiet_copy|]. intros ?. quiet_tac.
Qed.
End walk.

(** *** The handlers in turn

    Each handler admits an upload, then receives its body or gives it up, perhaps
    more than once.  The others' uses of the slots are steps of their own. *)
Inductive use : Type :=
| UAdmit (token : string) (m : metadata) (size : Z) (digest idempotencyKey : string) (t : Z) (check : Z -> result err unit) (newID : string)
| UReceive (i : nat) (body : reader)
| UAbort (i : nat) (reason : string).

(** The admissions handed out, and the server; [None]: the process stopped, and its
    slots with it. *)
Definition desk : Type := list admission * server.
Definition hand (d : desk) (i : nat) (m : admission -> io server admission) (n : nat) : option desk :=
  match fst d !! i with
  | None => Some d
  | Some u => match m u (n, snd d) with (Some u', (_, s)) => Some (<[i := u']> (fst d), s) | (None, _) => None end
  end.
Definition use_run (a : use) (n : nat) (d : desk) : option desk :=
  match a with
  | UAdmit token m size digest ik t check newID =>
    match Admit env fate_of token m size digest ik t check newID (n, snd d) with
    | (Some (Ok u), (_, s)) => Some (fst d ++ [u], s)
    | (Some (Err _), (_, s)) => Some (fst d, s)
    | (None, _) => None
    end
  | UReceive i body => hand d i (fun u => r ← Receive env fate_of clock short u body; mret (snd r)) n
  | UAbort i reason => hand d i (fun u => Abort_ env fate_of clock u reason) n
  end.
Definition uses_run (l : list (use * nat)) (d : desk) : option desk :=
  foldl (fun d a => d ≫= use_run (fst a) (snd a)) (Some d) l.

Definition busy (held : list admission) : Z := count_where (fun u => negb (ad_released u)) held.
Definition accounted (d : desk) : Prop := s_slots (snd d) = busy (fst d) /\ 0 <= busy (fst d) <= slot_capacity.

Context (Henv : forall n s, s_slots (env n s) = s_slots s).
#[local] Instance stable_slots k : Stable env (fun s => s_slots s = k).
Proof. intros n s <-. apply Henv. Qed.

Definition weight (u : admission) : Z := if ad_released u then 0 else 1.
Lemma busy_nonneg held : 0 <= busy held.
Proof. apply count_where_nonneg. Qed.
Lemma busy_cons u held : busy (u :: held) = weight u + busy held.
Proof. unfold busy, weight. rewrite count_where_cons. by destruct (ad_released u). Qed.
Lemma busy_app held u : busy (held ++ [u]) = busy held + weight u.
Proof. induction held as [|v held IH]; cbn [app]; rewrite !busy_cons; [cbn; lia|]. rewrite IH. lia. Qed.
Lemma busy_insert held i u u' : held !! i = Some u -> busy (<[i := u']> held) = busy held - weight u + weight u'.
Proof.
  revert i. induction held as [|v held IH]; intros [|i]; [done..| |].
  - intros [= ->]. change (<[0%nat := u']> (u :: held)) with (u' :: held). rewrite !busy_cons. lia.
  - intros Hi. change (<[S i := u']> (v :: held)) with (v :: <[i := u']> held). rewrite !busy_cons, (IH i Hi). lia.
Qed.

(** A release gives back one slot at most, and only once. *)
Lemma triple_release_slots u k : triple (fun s => s_slots s = k) (release u)
  (fun u' s => ad_released u' = true /\ s_slots s = k - weight u) (fun s => s_slots s = k).
Proof.
  unfold release, weight. destruct (ad_released u) eqn:E; [apply triple_ret; intros s Hs; split; [done|lia]|].
  intros n s Hs. split; [done|]. cbn. lia.
Qed.
Lemma triple_Receive_slots u body k : triple (fun s => s_slots s = k) (Receive env fate_of clock short u body)
  (fun r s => ad_released (snd r) = true /\ s_slots s = k - weight u) (fun s => s_slots s = k).
Proof.
  unfold Receive. eapply triple_bind; [by apply quiet_receive, _|]. intros r.
  eapply triple_bind; [apply triple_release_slots|]. intros u'. by apply triple_ret.
Qed.
Lemma triple_Abort_slots u reason k : triple (fun s => s_slots s = k) (Abort_ env fate_of clock u reason)
  (fun u' s => ad_released u' = true /\ s_slots s = k - weight u) (fun s => s_slots s = k).
Proof.
  unfold Abort_. eapply (triple_bind _ _ _ _ (fun _ s => s_slots s = k)); [|intros ?; apply triple_release_slots].
  destruct (has_status _ _); [|apply quiet_ret]. apply quiet_bind; [apply quiet_now|]. intros t.
  apply quiet_bind; [apply quiet_store, _|]. intros r. apply quiet_ret.
Qed.

Lemma triple_Admit_slots token m size digest ik t check newID k : k <= slot_capacity ->
  triple (fun s => s_slots s = k) (Admit env fate_of token m size digest ik t check newID)
    (fun r s => match r with
                | Ok u => s_slots s = k + weight u /\ k < slot_capacity
                | Err _ => s_slots s = k
                end) (fun _ => True).
Proof.
  intros Hk. unfold Admit. apply (triple_bind _ _ _ _ (fun used s => used = k /\ s_slots s = k)); [by intros n s Hs|].
  intros used. apply triple_pure. intros ->. destruct (slot_capacity <=? k) eqn:E; [by apply triple_ret|].
  apply (triple_bind _ _ _ _ (fun _ s => s_slots s = k + 1)); [intros n s Hs; cbn; lia|]. intros _.
  eapply triple_bind; [eapply triple_weaken; [apply (quiet_store (k + 1))|done|intros r s Hs; exact Hs|done]|]. intros [b|e].
  - destruct (has_status BackupComplete b).
    + eapply triple_bind; [eapply triple_weaken; [apply (triple_release_slots _ (k + 1))|done|intros u s Hs; exact Hs|done]|]. intros u. apply triple_ret.
      intros s [Hr Hs]. unfold weight in *. rewrite Hr. cbn in Hs. lia.
    + apply triple_ret. intros s Hs. cbn. lia.
  - apply (triple_bind _ _ _ _ (fun _ s => s_slots s = k)); [intros n s Hs; cbn; lia|]. intros ?. by apply triple_ret.
Qed.

Lemma hand_accounted d i m n d' : accounted d ->
  (forall u k, triple (fun s => s_slots s = k) (m u) (fun u' s => ad_released u' = true /\ s_slots s = k - weight u) (fun s => True)) ->
  hand d i m n = Some d' -> accounted d'.
Proof.
  intros [Hs Hb] Hm. unfold hand. destruct (fst d !! i) as [u|] eqn:Ei; [|intros [= <-]; by split].
  specialize (Hm u _ n (snd d) Hs). destruct (m u (n, snd d)) as [[u'|] [n' s']]; [|done]. intros [= <-].
  destruct Hm as [Hr Hs']. unfold accounted. cbn [fst snd]. rewrite (busy_insert _ _ u u' Ei).
  assert (weight u' = 0) as -> by (unfold weight; by rewrite Hr). pose proof (busy_nonneg (<[i:=u']> (fst d))) as Hnn.
  rewrite (busy_insert _ _ u u' Ei) in Hnn. unfold weight in *. rewrite Hr in Hnn. destruct (ad_released u); lia.
Qed.
Lemma use_accounted a n d d' : accounted d -> use_run a n d = Some d' -> accounted d'.
Proof.
  intros Hd. destruct a as [token m size digest ik t check newID|i body|i reason]; cbn [use_run].
  - destruct Hd as [Hs Hb]. pose proof (triple_Admit_slots token m size digest ik t check newID _ (proj2 Hb) n (snd d) Hs) as Ht.
    destruct (Admit _ _ _ _ _ _ _ _ _ _ (n, snd d)) as [[[u|e]|] [n' s']]; [..|done]; intros [= <-]; unfold accounted; cbn [fst snd].
    + rewrite busy_app. destruct Ht as [Ht Hlt]. unfold weight in *. destruct (ad_released u); lia.
    + by rewrite Ht.
  - apply hand_accounted; [done|]. intros u k. eapply triple_bind; [eapply triple_weaken; [apply (triple_Receive_slots _ _ k)|done|intros r s Hs; exact Hs|done]|].
    intros r. by apply triple_ret.
  - apply hand_accounted; [done|]. intros u k. eapply triple_weaken; [apply (triple_Abort_slots _ _ k)|done..].
Qed.

(** C21. The slots are conserved: however handlers take, receive and abort uploads,
    in any order and any number of times, with any failures, the slots in use are
    exactly the admissions not released yet and never more than 32, and when all are
    in use the next admission is refused as busy, changing nothing. *)
Theorem slots_conserved l s0 held s : s_slots s0 = 0 -> uses_run l ([], s0) = Some (held, s) ->
  s_slots s = busy held /\ 0 <= s_slots s <= 32 /\
  (s_slots s = 32 -> forall token m size digest ik t check newID n,
     Admit env fate_of token m size digest ik t check newID (n, s) = (Some (Err (Failed ErrBusy)), (n, s))).
Proof.
  assert (forall d, accounted d -> uses_run l d = Some (held, s) -> accounted (held, s)) as Hl.
  { unfold uses_run. induction l as [|[a n] l' IH]; cbn; intros d Hd; [by intros [= ->]|].
    destruct (use_run a n d) as [d1|] eqn:E; [apply IH; by apply (use_accounted a n d)|].
    clear. by induction l'. }
  intros H0 [Hs Hb]%Hl; [|split; [done|vm_compute; by split]]. cbn [fst snd] in *. unfold slot_capacity in Hb.
  split; [done|]. split; [lia|]. intros E token m size digest ik t check newID n. unfold Admit, mbind, io_bind, gets. cbn.
  by rewrite E.
Qed.
End slots.

(** ** The space on the disk *)
Lemma fits_blocks bsize bavail : 0 < bsize -> (max_uint64 / bsize <? bavail) = false <-> bavail * bsize <= max_uint64.
Proof.
  intros Hb. rewrite Z.ltb_ge. split; intros Hle.
  - pose proof (Z.mul_div_le max_uint64 bsize Hb). nia.
  - apply Z.div_le_lower_bound; lia.
Qed.

(** The admission by free space is exact: with the block size and the available
    blocks of the file system, unsigned to 64 bits, an upload is admitted if and only
    if the reserve and the bytes to reserve fit together in the free space, counted
    without overflow; and it is refused for lack of space only when they do not. *)
Lemma checkDisk_exact reserveFree bsize bavail reservedBytes :
  is_int64 reserveFree -> is_int64 bsize -> is_uint64 bavail -> is_int64 reservedBytes ->
  (checkDisk reserveFree (Ok (bsize, bavail)) reservedBytes = Ok tt <->
     0 < bsize /\ 0 <= reserveFree /\ 0 <= reservedBytes /\ bavail * bsize <= max_uint64 /\
     reserveFree + reservedBytes <= bavail * bsize) /\
  (checkDisk reserveFree (Ok (bsize, bavail)) reservedBytes = Err ErrDisk ->
     bavail * bsize < reserveFree + reservedBytes).
Proof.
  intros H1 H2 H3 H4. unfold checkDisk. cbn [mbind result_bind].
  destruct (_ || _ || (reserveFree <? 0)) eqn:Eg.
  { split; [split; [done|lia]|done]. }
  destruct (max_uint64 / bsize <? bavail) eqn:Er.
  { split; [|done]. split; [done|]. intros (Hb & _ & _ & Hfit & _). apply fits_blocks in Hfit; [congruence|done]. }
  apply fits_blocks in Er; [|lia]. unfold is_uint64 in H3.
  assert (umul bavail bsize = bavail * bsize) as -> by (apply wrap64_small; unfold is_uint64; nia).
  assert (forall x, reserveFree <= x -> x <= max_uint64 -> usub x reserveFree = x - reserveFree) as Hsub.
  { intros x Hx Hm. apply wrap64_small. unfold is_uint64. lia. }
  destruct (bavail * bsize <? reserveFree) eqn:Ef; cbn [orb]; [split; [split; [done|lia]|lia]|]. rewrite Hsub by lia.
  destruct (_ <? reservedBytes) eqn:Es; (split; [split; [done || lia|done || lia]|done || lia]).
Qed.

(** ** The copy of a body *)
Section copy.
Context `{Platform} (env : nat -> server -> server) (fate_of : nat -> fate) (short : nat -> option Z) (name : string).

Lemma copy_fuel f1 : forall f2 body N hashed w, (Z.to_nat N <= f1)%nat -> (Z.to_nat N <= f2)%nat ->
  copy_loop env fate_of short f1 name body N hashed w = copy_loop env fate_of short f2 name body N hashed w.
Proof.
  assert (forall f body N hashed w, N <= 0 -> copy_loop env fate_of short f name body N hashed w =
    (Some (len hashed, sha256_hex hashed, None, None), w)) as Hend.
  { intros [|f] body N hashed w HN; [done|]. cbn [copy_loop]. by rewrite (proj2 (Z.leb_le _ _) HN). }
  induction f1 as [|f1 IH]; intros [|f2] body N hashed w H1 H2; try (rewrite !Hend by lia; done).
  cbn [copy_loop]. destruct (N <=? 0) eqn:EN; [done|].
  destruct (read body (Z.min N bufferSize)) as [[chunk readErr] body']. unfold mbind, io_bind.
  match goal with |- context [match ?m w with _ => _ end] => destruct (m w) as [[[written writeErr]|] w']; [|done] end.
  destruct writeErr; [done|]. destruct (negb (written =? len chunk)); [done|]. destruct readErr as [[]|]; [done..|].
  destruct (len chunk =? 0) eqn:E0; [done|]. pose proof (len_nonneg chunk). apply IH; lia.
Qed.

(** The copy of a body ends: each turn of the loop writes a byte at least or
    leaves, so that the limit bounds its turns; whatever the stream, the failures and
    the short writes, more turns change nothing. *)
Lemma copy_terminates fuel body limit w : (Z.to_nat limit <= fuel)%nat ->
  copy_loop env fate_of short fuel name body limit "" w = copyAndHash env fate_of short name body limit w.
Proof. intros Hf. by apply copy_fuel. Qed.
End copy.

(** ** At work *)
Module Desk.
Import Scenario.
#[local] Existing Instance platform.

Definition seconds (n : nat) : Z := day 0 + Z.of_nat n * Second.
Definition whole (n : nat) : option Z := None.

(** An upload admitted, received whole, then given up too late; another admitted. *)
Definition opened : server := Server (archive [CCreateKey "ufficio" "S" key_id "token"]) ∅ ∅ ∅ 0.
Definition asks (c : string) (n : nat) : use :=
  UAdmit "token" document 10 digest "" (day 0 + Z.of_nat n * Minute) (fun _ => Ok tt) (backup_name c).
Definition shift : list (use * nat) :=
  [ (asks "a" 0, 0%nat); (UReceive 0 [("0123456789", Some EOF)]%string, 1%nat); (UAbort 0 "tardi", 20%nat); (asks "b" 1, 60%nat) ].
Definition evening : desk := default ([], opened) (uses_run alone faultless seconds whole shift ([], opened)).

Lemma slots_conserved_witness :
  map ad_released (fst evening) = [true; false] /\
  (s_slots (snd evening) = busy (fst evening) /\ 0 <= s_slots (snd evening) <= 32 /\
   (s_slots (snd evening) = 32 -> forall token m size digest ik t check newID n,
      Admit alone faultless token m size digest ik t check newID (n, snd evening) =
        (Some (Err (Failed ErrBusy)), (n, snd evening)))).
Proof.
  split; [vm_compute; reflexivity|].
  refine (slots_conserved alone faultless seconds whole (fun _ _ => eq_refl) shift opened (fst evening) (snd evening) eq_refl _).
  vm_compute. reflexivity.
Defined.

End Desk.
