(* ===== verification/Recovery.v ===== *)
(** The recovery of the archive at the start: what [Reconcile] leaves, whatever
    fails and wherever the process stops, and why it never stumbles on what an
    interrupted upload left ([src/internal/ingest/writer.go]). *)
From S2P Require Import Prelude GoTime GoString Model Policy Catalog Retention RetentionMachine Deposit Store Archive Io Writer Custody.
From S2P Require Import Reception.

Section recovery.
Context `{Platform} (linked : bool) (rows : list backup).

(** The uploads left to reconcile. *)
Record pending (rest : list backup) (s : server) : Prop := IsPending {
  pe_custody : keeps linked rows s;
  pe_rows : forall x, (In x (d_backups (s_db s)) /\ b_Status x = BackupReceiving) <-> In x rest;
  pe_ids : NoDup (map b_ID rest) }.

Lemma pending_start s : keeps linked rows s -> pending (Pending (s_db s)) s.
Proof.
  intros Hcu. split; [done|..]; unfold Pending.
  - intros x. rewrite filter_In. by rewrite has_status_iff.
  - pose proof (ok_backup_ids _ (cu_core _ _ Hcu)) as Hnd. cbn in Hnd. revert Hnd. generalize (d_backups (s_db s)). intros l.
    induction l as [|x l IH]; cbn; [done|]. intros [Hx Hl]%NoDup_cons. destruct (has_status _ x); cbn; [|by apply IH].
    apply NoDup_cons. split; [|by apply IH]. intros E. apply Hx. apply list_elem_of_In, in_map_iff in E as (y & <- & Hy).
    apply list_elem_of_In, in_map. by apply filter_In in Hy as [].
Qed.

(** An update that ends the reception of the first. *)
Lemma pending_row b rest s d' f : pending (b :: rest) s ->
  core_of d' = Core (d_keys (s_db s)) (update_where (backup_is (b_ID b) BackupReceiving) f (d_backups (s_db s)))
    (d_operations (s_db s)) (d_operations_seq (s_db s)) ->
  (forall x, b_Status (f x) <> BackupReceiving) -> keeps linked rows (s <| s_db := d' |>) -> pending rest (s <| s_db := d' |>).
Proof.
  intros [Hcu Hrows [Hb Hids]%NoDup_cons] Hcore Hf Hc. apply (f_equal c_backups) in Hcore. cbn in Hcore. split; [done| |done].
  assert (forall x, In x rest -> b_ID x <> b_ID b) as Hne.
  { intros x Hx E. apply Hb, list_elem_of_In. rewrite <- E. by apply in_map. }
  intros x. cbn. rewrite Hcore. split.
  - intros [(y & Hy & ->)%in_update_where Hst]. destruct (backup_is (b_ID b) BackupReceiving y) eqn:E; [by destruct (Hf y)|].
    destruct (proj1 (Hrows y) (conj Hy Hst)) as [<-|?]; [|done]. apply not_true_iff_false in E. destruct E. by apply backup_is_iff.
  - intros Hx. destruct (proj2 (Hrows x) (or_intror Hx)) as [Hin Hst]. split; [|done]. apply in_update_same; [done|].
    apply not_true_iff_false. intros [E _]%backup_is_iff. by apply (Hne x Hx).
Qed.

Lemma pending_remove rest s name : pending rest s -> pending rest (snd (remove_incoming name s)).
Proof.
  intros Hp. unfold remove_incoming.
  destruct (_ !! _) as [[|[]|]|]; try exact Hp; destruct Hp as [H1 H2 H3]; (split; [by apply (keeps_same_files linked rows s)|done..]).
Qed.

(** The first upload, handled without error. *)
Definition settled (rest : list backup) (r : result failure unit) (s : server) : Prop :=
  keeps linked rows s /\ (is_ok r = true -> pending rest s).

Lemma pending_head b rest s : pending (b :: rest) s -> In b (d_backups (s_db s)) /\ b_Status b = BackupReceiving.
Proof. intros Hp. apply (pe_rows _ _ Hp). by left. Qed.
Lemma pending_upload b rest s : pending (b :: rest) s -> upload linked rows b s.
Proof. intros Hp. destruct (pending_head _ _ _ Hp). split; [apply Hp|]. by exists b. Qed.

Lemma settle_complete b rest s t : pending (b :: rest) s -> valid_in (s_published s) b ->
  settled rest (fst (on_store (Complete (b_ID b) t) s)) (snd (on_store (Complete (b_ID b) t) s)).
Proof.
  intros Hp (data & Hf & Hm). destruct (upload_complete_store linked rows b s data t (pending_upload _ _ _ Hp)) as [Hc _]; [by split|].
  split; [done|]. revert Hc. unfold on_store, commit. destruct (Complete (b_ID b) t (s_db s)) as [[u d']|e] eqn:E; [|done].
  cbn. intros Hc _. apply Complete_inv in E as [_ Hcore]. by eapply (pending_row _ _ _ _ _ Hp Hcore).
Qed.
Lemma settle_fail b rest s reason t : pending (b :: rest) s ->
  settled rest (fst (on_store (Fail_ (b_ID b) reason t) s)) (snd (on_store (Fail_ (b_ID b) reason t) s)).
Proof.
  intros Hp. pose proof (keeps_fail linked rows s (b_ID b) reason t (pe_custody _ _ Hp)) as Hc.
  split; [done|]. revert Hc. unfold on_store, commit. destruct (Fail_ (b_ID b) reason t (s_db s)) as [[u d']|e] eqn:E; [|done].
  cbn. intros Hc _. apply Fail_inv in E as [_ Hcore]. by eapply (pending_row _ _ _ _ _ Hp Hcore).
Qed.

(** ** Whatever fails *)
Section faults.
Context (fate_of : nat -> fate) (clock : nat -> Z).
Abbreviation C := (keeps linked rows).

Lemma triple_settle (P : server -> Prop) rest (effect : server -> result failure unit * server) :
  (forall s, P s -> C s) -> (forall s, P s -> settled rest (fst (effect s)) (snd (effect s))) ->
  triple P (act alone fate_of effect) (settled rest) C.
Proof.
  intros HP He. apply triple_act; [apply _|done|]. intros s Hs. destruct (He s Hs) as [H1 H2].
  split; [done|]. split; [done|]. intros f. split; (split; [auto|done]).
Qed.

Lemma triple_reconcile_row b rest info : triple (pending (b :: rest)) (reconcile_row alone fate_of clock b info) (settled rest) C.
Proof.
  assert (forall (P : server -> Prop) e, (forall s, P s -> C s) -> triple P (mret (Err e)) (settled rest) C) as Herr.
  { intros P e HP. apply triple_ret. intros s Hs. split; [by apply HP|done]. }
  assert (forall s, pending (b :: rest) s -> C s) as Hc by apply pe_custody.
  destruct info as [[content| |]|[[]|]]; cbn [reconcile_row]; try (by apply Herr).
  - destruct (negb (len content =? b_Size b)); [by apply Herr|].
    eapply (triple_bind _ _ _ _ (fun v s => pending (b :: rest) s /\ (is_ok v = true -> valid_in (s_published s) b))).
    { apply triple_act; [apply _|done|]. intros s Hs. split; [by apply Hc|]. split; [|by intros f; split].
      split; [done|]. by apply verify_valid. }
    intros [[]|e]; [|apply Herr; by intros s [Hs%Hc _]]. set (J := fun s => _ s /\ _).
    assert (forall s, J s -> C s) as HJ by (by intros s [Hs%Hc _]).
    eapply (triple_bind _ _ _ _ (fun _ => J)); [by eapply triple_weaken; [apply (triple_act_inv alone fate_of J no_effect)|..]|].
    intros [[]|e]; [|by apply Herr].
    eapply triple_bind; [by apply (triple_now clock J _ (fun _ => J))|]. intros t.
    apply triple_settle; [done|]. intros s [Hs Hv]. by apply settle_complete, Hv.
  - eapply triple_bind; [by apply (triple_now clock _ _ (fun _ => pending (b :: rest)))|]. intros t.
    apply triple_settle; [done|]. intros s Hs. by apply settle_fail.
Qed.

Lemma triple_reconcile_upload b rest : triple (pending (b :: rest)) (reconcile_upload alone fate_of clock b) (settled rest) C.
Proof.
  assert (forall s, pending (b :: rest) s -> C s) as Hc by apply pe_custody.
  unfold reconcile_upload. destruct (negb (ValidID (b_ID b))); [apply triple_ret; intros s Hs; by split; [apply Hc|]|].
  eapply triple_bind; [eapply triple_weaken; [apply (triple_act_inv alone fate_of (pending (b :: rest)) (lstat_published (final_name b)))|..]; done|].
  intros info. eapply triple_bind; [apply triple_reconcile_row|]. intros [[]|e]; [|by apply triple_ret].
  eapply (triple_bind _ _ _ _ (fun _ => pending rest)); [|intros r; apply triple_ret; intros s Hs; by split; [apply pe_custody in Hs|]].
  eapply triple_weaken; [apply (triple_act_inv alone fate_of (pending rest) (remove_incoming (staging_name b)))|..].
  - intros s. apply pending_remove.
  - intros s [_ Hs]. by apply Hs.
  - done.
  - apply pe_custody.
Qed.

(** A loop over elements that an invariant counts. *)
Lemma triple_each {A} (f : A -> io server (result failure unit)) (Inv : list A -> server -> Prop) l :
  (forall rest s, Inv rest s -> C s) ->
  (forall x rest, triple (Inv (x :: rest)) (f x) (fun r s => C s /\ (is_ok r = true -> Inv rest s)) C) ->
  triple (Inv l) (each f l) (fun r s => C s /\ (is_ok r = true -> Inv [] s)) C.
Proof.
  intros HC Hf. induction l as [|x rest IH]; cbn [each].
  - apply triple_ret. intros s Hs. split; [by apply (HC [])|done].
  - eapply triple_bind; [apply Hf|]. intros [[]|e].
    + eapply triple_pre; [exact IH|]. intros s [_ Hs]. by apply Hs.
    + apply triple_ret. intros s [Hs _]. by split.
Qed.

(** The staging files left to remove. *)
Definition swept (rest : list string) (s : server) : Prop :=
  pending [] s /\ forall name, is_staging name = true -> is_Some (s_incoming s !! name) -> In name rest.

Lemma swept_next name rest s : swept (name :: rest) s ->
  is_staging name = false \/ s_incoming s !! name = None -> swept rest s.
Proof.
  intros [Hs Hr] Hn. split; [done|]. intros x Hx Hin. destruct (Hr x Hx Hin) as [<-|?]; [|done].
  destruct Hin as [e He]. destruct Hn; congruence.
Qed.
Lemma swept_custody rest s : swept rest s -> C s.
Proof. intros [Hp _]. by apply pe_custody in Hp. Qed.

Lemma swept_remove name rest s : swept rest s -> swept rest (snd (remove_incoming name s)).
Proof.
  intros [Hs Hr]. split; [by apply pending_remove|]. intros x Hx Hin. apply Hr; [done|]. revert Hin.
  unfold remove_incoming. destruct (s_incoming s !! name) as [[|[]|]|]; try done; cbn; intros [e He];
    apply lookup_delete_Some in He as [_ He]; by exists e.
Qed.
Lemma removed_absent name s : is_ok (ignore_absent (fst (remove_incoming name s))) = true ->
  s_incoming (snd (remove_incoming name s)) !! name = None.
Proof.
  unfold remove_incoming. destruct (s_incoming s !! name) as [[|[]|]|] eqn:E; cbn; try done; intros _; apply lookup_delete_eq.
Qed.

Lemma triple_sweep name rest :
  triple (swept (name :: rest)) (sweep_entry alone fate_of name) (fun r s => C s /\ (is_ok r = true -> swept rest s)) C.
Proof.
  assert (forall s, swept (name :: rest) s -> C s) as Hc by apply swept_custody.
  unfold sweep_entry. destruct (is_staging name) eqn:En; cbn [negb].
  2:{ apply triple_ret. intros s Hs. split; [by apply Hc|]. intros _. apply (swept_next name); [done|by left]. }
  eapply (triple_bind _ _ _ _ (fun info s => swept (name :: rest) s /\ (info = Err (OsError ENOENT) -> s_incoming s !! name = None))).
  { apply triple_act; [apply _|done|]. intros s Hs. split; [by apply Hc|]. split.
    - split; [done|]. cbn. unfold lookup_entry. by destruct (s_incoming s !! name).
    - intros f. split; (split; [done|]); by destruct f. }
  assert (triple (swept (name :: rest)) (r ← act alone fate_of (remove_incoming name); mret (ignore_absent r))
    (fun r s => C s /\ (is_ok r = true -> swept rest s)) C) as Hremove.
  { eapply (triple_bind _ _ _ _ (fun r s => swept (name :: rest) s /\ (is_ok (ignore_absent r) = true -> s_incoming s !! name = None))).
    - apply triple_act; [apply _|done|]. intros s Hs. pose proof (swept_remove name _ s Hs) as Hs'. split; [by apply Hc|].
      split; [split; [done|apply removed_absent]|]. intros f. split; (split; [done|by destruct f]).
    - intros r. apply triple_ret. intros s [Hs Hr]. split; [by apply Hc|]. intros Hok. apply (swept_next name); [done|right; by apply Hr]. }
  intros [e|e].
  - destruct e; try (eapply triple_pre; [exact Hremove|by intros s [Hs _]]). apply triple_ret. by intros s [Hs%Hc _].
  - destruct e as [[]|]; apply triple_ret; intros s [Hs Hr]; (split; [by apply Hc|]); try done.
    intros _. apply (swept_next name); [done|right; by apply Hr].
Qed.

(** After a reconciliation without error nothing is receiving and no staging file
    is left. *)
Definition reconciled (s : server) : Prop :=
  (forall b, In b (d_backups (s_db s)) -> b_Status b <> BackupReceiving) /\
  (forall name, is_staging name = true -> s_incoming s !! name = None).

Lemma triple_Reconcile : triple C (Reconcile alone fate_of clock) (fun r s => C s /\ (is_ok r = true -> reconciled s)) C.
Proof.
  assert (forall (P : server -> Prop) e, (forall s, P s -> C s) ->
    triple P (mret (Err e)) (fun (r : result failure unit) s => C s /\ (is_ok r = true -> reconciled s)) C) as Herr.
  { intros P e HP. apply triple_ret. intros s Hs. split; [by apply HP|done]. }
  unfold Reconcile.
  eapply (triple_bind _ _ _ _ (fun r s => C s /\ (forall l, r = Ok l -> pending l s))).
  { apply triple_act; [apply _|done|]. intros s Hs. cbn. split; [done|]. split; [|by intros f; split].
    split; [done|]. intros l [= <-]. by apply pending_start. }
  intros [l|e]; [|apply Herr; by intros s [Hs _]].
  eapply triple_bind.
  { eapply triple_pre; [apply (triple_each (reconcile_upload alone fate_of clock) pending l)|intros s [_ Hs]; by apply Hs];
      [by intros rest s []|apply triple_reconcile_upload]. }
  intros [[]|e]; [|apply Herr; by intros s [Hs _]].
  eapply (triple_bind _ _ _ _ (fun r s => C s /\ (forall l, r = Ok l -> swept l s))).
  { apply triple_act; [apply _|by intros s [Hs _]|]. intros s [Hs Hp]. cbn. split; [done|]. split; [|by intros f; split].
    split; [done|]. intros names [= <-]. split; [by apply Hp|]. intros name _ Hin. unfold incoming_names.
    apply list_elem_of_In. unfold sort_strings. rewrite merge_sort_Permutation. apply elem_of_elements, elem_of_dom, Hin. }
  intros [names|e]; [|apply Herr; by intros s [Hs _]].
  eapply triple_bind.
  { eapply triple_pre; [apply (triple_each (sweep_entry alone fate_of) swept names)|intros s [_ Hs]; by apply Hs];
      [apply swept_custody|apply triple_sweep]. }
  intros [[]|e]; [|apply Herr; by intros s [Hs _]].
  apply triple_act; [apply _|by intros s [Hs _]|]. intros s [Hs Hsw]. cbn. split; [done|]. split; [|by intros f; split].
  split; [done|]. intros _. destruct (Hsw eq_refl) as [Hp Hin]. split.
  - intros b Hb Hst. by destruct (proj1 (pe_rows _ _ Hp b) (conj Hb Hst)).
  - intros name Hn. destruct (s_incoming s !! name) eqn:E; [|done]. destruct (Hin name Hn); by eexists.
Qed.
End faults.

(** ** When nothing fails *)
Section faultless.
Context (clock : nat -> Z).

(** [s0]: the archive before.  Since then no deposit came, none began to be received,
    and no directory appeared in the staging area. *)
Context (s0 : server).
Record within (s : server) : Prop := Within {
  wi_rows : forall x, In x (d_backups (s_db s)) -> b_Status x = BackupReceiving -> exists y, In y (d_backups (s_db s0)) /\ b_ID y = b_ID x /\ b_Status y = BackupReceiving;
  wi_dirs : forall name empty, s_incoming s !! name = Some (Dir empty) -> s_incoming s0 !! name = Some (Dir empty) }.

(** The store refused, in the catalogue [d], to record the end of an upload. *)
Definition store_refuses (d : db) (e : failure) : Prop :=
  exists b er t, e = Failed er /\ In b (d_backups d) /\ b_Status b = BackupReceiving /\
    (Complete (b_ID b) t d = Err er \/ exists reason, Fail_ (b_ID b) reason t d = Err er).
(** What no interruption leaves: an identifier that [model.NewID] does not make, a
    directory with the name of a staging file. *)
Definition foreign : Prop :=
  (exists x, In x (d_backups (s_db s0)) /\ b_Status x = BackupReceiving /\ ValidID (b_ID x) = false) \/
  (exists name empty, is_staging name = true /\ s_incoming s0 !! name = Some (Dir empty)).
Definition fine (r : result failure unit) (s : server) : Prop := match r with Ok _ => True | Err e => store_refuses (s_db s) e \/ foreign end.

Lemma within_remove name s : within s -> within (snd (remove_incoming name s)).
Proof.
  intros [H1 H2]. unfold remove_incoming. destruct (s_incoming s !! name) as [[|[]|]|]; try done; (split; [done|]);
    intros x empty E; cbn in E; apply lookup_delete_Some in E as [_ E]; by apply H2.
Qed.
Lemma within_row s d' p f : within s -> c_backups (core_of d') = update_where p f (d_backups (s_db s)) ->
  (forall x, b_Status (f x) <> BackupReceiving) -> within (s <| s_db := d' |>).
Proof.
  intros [H1 H2] Hcore Hf. cbn in Hcore. split; [|done]. intros x. cbn. rewrite Hcore. intros (y & Hy & ->)%in_update_where.
  destruct (p y); [by intros ?%Hf|by apply H1].
Qed.

Lemma runs_complete b s t : within s -> In b (d_backups (s_db s)) -> b_Status b = BackupReceiving ->
  let r := on_store (Complete (b_ID b) t) s in within (snd r) /\ fine (fst r) (snd r).
Proof.
  intros Hs Hb Hst. unfold on_store, commit. destruct (Complete (b_ID b) t (s_db s)) as [[u d']|e] eqn:E; cbn.
  - apply Complete_inv in E as [_ Hcore]. split; [|done]. apply (f_equal c_backups) in Hcore. by eapply (within_row s).
  - destruct s as [d i p q k]. split; [done|]. left. exists b, e, t. auto.
Qed.
Lemma runs_fail b s reason t : within s -> In b (d_backups (s_db s)) -> b_Status b = BackupReceiving ->
  let r := on_store (Fail_ (b_ID b) reason t) s in within (snd r) /\ fine (fst r) (snd r).
Proof.
  intros Hs Hb Hst. unfold on_store, commit. destruct (Fail_ (b_ID b) reason t (s_db s)) as [[u d']|e] eqn:E; cbn.
  - apply Fail_inv in E as [_ Hcore]. split; [|done]. apply (f_equal c_backups) in Hcore. by eapply (within_row s).
  - destruct s as [d i p q k]. split; [done|]. left. exists b, e, t. repeat (split; [done|]). right. by exists reason.
Qed.

Lemma staging_name_valid b : ValidID (b_ID b) = true -> is_staging (staging_name b) = true.
Proof.
  intros Hid. unfold is_staging, staging_name. rewrite trim_suffix_app, Hid, andb_true_r. apply negb_true_iff, String.eqb_neq.
  intros E. apply (f_equal len) in E. rewrite len_app in E. change (len ".part") with 5 in E. lia.
Qed.

Lemma remove_fine name s s' : within s -> is_staging name = true -> fine (ignore_absent (fst (remove_incoming name s))) s'.
Proof.
  intros [_ H2] Hn. unfold remove_incoming. destruct (s_incoming s !! name) as [[|empty|]|] eqn:E; try done. apply H2 in E.
  destruct empty; [done|]. right. right. by exists name, false.
Qed.

Abbreviation outcome := (fun (r : result failure unit) s => within s /\ fine r s).

Lemma runs_reconcile_row b rest info :
  runs (fun s => (pending (b :: rest) s /\ within s) /\ lookup_entry (s_published s) (final_name b) = info)
    (reconcile_row alone faultless clock b info) outcome.
Proof.
  set (J := fun s => _ /\ _).
  assert (forall s, J s -> absent_in (s_published s) b \/ valid_in (s_published s) b) as Hplace.
  { intros s [[Hp _] _]. destruct (pending_head _ _ _ Hp) as [Hb Hst].
    by destruct (receiving_place linked rows b s b (pending_upload _ _ _ Hp) Hb Hst) as [[_ Hu] _]. }
  assert (forall e s, J s -> Err e = info -> e = OsError ENOENT) as Hno.
  { intros e s [[_ _] Hi] <-. unfold lookup_entry in Hi. destruct (s_published s !! final_name b); congruence. }
  assert (forall e (r : result failure unit) s, J s -> Ok e = info -> exists content, e = Regular content /\ len content = b_Size b) as Hyes.
  { intros e r s Hs E. pose proof Hs as [_ Hi]. rewrite <- E in Hi. unfold lookup_entry in Hi.
    destruct (Hplace s Hs) as [Ha|(content & Hc & Hl & _)]; [unfold absent_in in Ha; by rewrite Ha in Hi|].
    rewrite Hc in Hi. exists content. split; [congruence|done]. }
  intros n s Hs. pose proof Hs as [[Hp Hcl] Hi]. destruct info as [e|e].
  - destruct (Hyes e (Ok tt) s Hs eq_refl) as (content & -> & Hl). cbn [reconcile_row]. rewrite (proj2 (Z.eqb_eq _ _) Hl). cbn [negb].
    clear Hp Hcl Hi. revert n s Hs. change (runs J (v ← act alone faultless (Verify (final_name b) (b_Size b) (b_SHA256 b));
      match v with Err e => mret (Err e) | Ok _ =>
      r ← act alone faultless no_effect;
      match r with Err e => mret (Err e) | Ok _ => t ← now clock; act alone faultless (on_store (Complete (b_ID b) t)) end end) outcome).
    eapply (runs_bind _ _ _ _ (fun v s => is_ok v = true /\ J s)).
    { apply runs_act. intros s Hs. split; [|exact Hs]. apply verify_valid. destruct (Hplace s Hs) as [Ha|?]; [|done].
      destruct Hs as [_ Hi]. unfold lookup_entry, absent_in in *. by rewrite Ha in Hi. }
    intros [[]|e]; [|by intros n s [? _]].
    eapply (runs_bind _ _ _ _ (fun v s => is_ok v = true /\ J s)); [apply runs_act; by intros s [_ Hs]|].
    intros [[]|e]; [|by intros n s [? _]].
    eapply runs_bind; [apply (runs_now clock _ (fun _ => J)); by intros t s [_ Hs]|]. intros t.
    apply runs_act. intros s [[Hp Hcl] _]. destruct (pending_head _ _ _ Hp). by apply runs_complete.
  - rewrite (Hno e s Hs eq_refl). cbn [reconcile_row].
    destruct (pending_head _ _ _ Hp). unfold mbind, io_bind, now. exists (fst (on_store (Fail_ (b_ID b) "invio interrotto dal riavvio" (clock n)) s)).
    unfold act, alone, faultless. destruct (runs_fail b s "invio interrotto dal riavvio" (clock n)) as [H3 H4]; [done..|].
    destruct (on_store (Fail_ (b_ID b) "invio interrotto dal riavvio" (clock n)) s) as [r s']. eauto.
Qed.

Lemma runs_reconcile_upload b rest :
  runs (fun s => pending (b :: rest) s /\ within s) (reconcile_upload alone faultless clock b) outcome.
Proof.
  unfold reconcile_upload. destruct (ValidID (b_ID b)) eqn:Hid; cbn [negb].
  2:{ apply runs_ret. intros s [Hp Hw]. split; [done|]. destruct (pending_head _ _ _ Hp) as [Hb Hst].
      destruct (wi_rows s Hw b Hb Hst) as (y & Hy & E & Hs). right. left. exists y. by rewrite E. }
  eapply (runs_bind _ _ _ _ (fun info s => (pending (b :: rest) s /\ within s) /\ lookup_entry (s_published s) (final_name b) = info));
    [by apply runs_act|].
  intros info. eapply runs_bind; [apply runs_reconcile_row|]. intros [[]|e]; [|by apply runs_ret].
  eapply (runs_bind _ _ _ _ (fun r s => within s /\ fine (ignore_absent r) s)); [|intros r; by apply runs_ret].
  apply runs_act. intros s [Hs _]. split; [by apply within_remove|]. by apply remove_fine, staging_name_valid.
Qed.

Lemma runs_sweep name : runs within (sweep_entry alone faultless name) outcome.
Proof.
  unfold sweep_entry. destruct (is_staging name) eqn:En; cbn [negb]; [|by apply runs_ret].
  eapply (runs_bind _ _ _ _ (fun info s => within s /\ lookup_entry (s_incoming s) name = info)); [by apply runs_act|].
  assert (runs within (r ← act alone faultless (remove_incoming name); mret (ignore_absent r)) outcome) as Hremove.
  { eapply (runs_bind _ _ _ _ (fun r s => within s /\ fine (ignore_absent r) s)); [|intros r; by apply runs_ret].
    apply runs_act. intros s Hs. split; [by apply within_remove|by apply remove_fine]. }
  intros [[content|empty|]|e].
  - eapply runs_weaken; [exact Hremove|by intros s []|done].
  - apply runs_ret. intros s [[Hr Hs] Hi]. split; [done|]. unfold lookup_entry in Hi. destruct (s_incoming s !! name) eqn:E; [|done]. injection Hi as ->.
    right. right. exists name, empty. split; [done|]. by apply Hs.
  - eapply runs_weaken; [exact Hremove|by intros s []|done].
  - intros n s [Hs Hi]. unfold lookup_entry in Hi. destruct (s_incoming s !! name) eqn:E; [done|]. injection Hi as <-. by eexists _, _, _.
Qed.

Lemma runs_each {A} (f : A -> io server (result failure unit)) (Inv : list A -> server -> Prop) l :
  (forall x rest, runs (fun s => Inv (x :: rest) s /\ within s) (f x) (fun r s => (is_ok r = true -> Inv rest s) /\ outcome r s)) ->
  runs (fun s => Inv l s /\ within s) (each f l) outcome.
Proof.
  intros Hf. induction l as [|x rest IH]; cbn [each]; [apply runs_ret; by intros s []|].
  eapply runs_bind; [apply Hf|]. intros [[]|e].
  - eapply runs_weaken; [exact IH| |done]. intros s (H1 & H2 & _). by split; [apply H1|].
  - apply runs_ret. by intros s (_ & ?).
Qed.

Lemma runs_Reconcile : runs (fun s => keeps linked rows s /\ within s) (Reconcile alone faultless clock) outcome.
Proof.
  unfold Reconcile.
  eapply (runs_bind _ _ _ _ (fun r s => within s /\ exists l, r = Ok l /\ pending l s)).
  { apply runs_act. intros s [Hcu Hcl]. split; [done|]. eexists. split; [done|]. by apply pending_start. }
  intros r n s (Hcl & l & -> & Hp). revert n s Hcl Hp.
  assert (runs (fun s => pending l s /\ within s)
    (r ← each (reconcile_upload alone faultless clock) l;
     match r with Err e => mret (Err e) | Ok _ =>
       entries ← act alone faultless (fun s => (Ok (incoming_names s), s));
       match entries with Err e => mret (Err e) | Ok entries =>
         r ← each (sweep_entry alone faultless) entries;
         match r with Err e => mret (Err e) | Ok _ => act alone faultless no_effect end
       end
     end) outcome) as Hrest; [|by intros n s Hcl Hp; apply Hrest].
  eapply runs_bind.
  { apply (runs_each _ pending). intros x rest.
    eapply runs_weaken with (Q' := fun r s => (keeps linked rows s /\ (is_ok r = true -> pending rest s)) /\ outcome r s);
      [|intros s Hs; exact Hs|by intros a s [[_ ?] ?]].
    eapply runs_triple; [|apply (runs_reconcile_upload x rest)].
    eapply triple_pre; [apply triple_reconcile_upload|]. by intros s []. }
  intros [[]|e]; [|by apply runs_ret].
  eapply (runs_bind _ _ _ _ (fun r s => within s /\ is_ok r = true)); [apply runs_act; by intros s []|].
  intros [names|e]; [|by intros n s [_ ?]].
  eapply runs_bind.
  { eapply runs_weaken; [apply (runs_each (sweep_entry alone faultless) (fun _ _ => True) names)|by intros s []|done].
    intros x rest. eapply runs_weaken; [apply runs_sweep|by intros s []|done]. }
  intros [[]|e]; [|by apply runs_ret]. apply runs_act. by intros s [].
Qed.
End faultless.
End recovery.
