(* ===== verification/Executor.v ===== *)
(** The physical side of retention: the writer's handlers that authorize, commit,
    confirm and reconcile an operation after looking at the files
    ([src/internal/localapi/api.go]), and the maintenance cycle that moves and
    removes them ([src/internal/maintenance/service.go]). *)
From S2P Require Import Prelude GoTime GoString Model Policy Catalog Anomalies Retention RetentionMachine Deposit Store Io Writer.

Inductive directory : Type := BackupsDir | QuarantineDir.

Definition errLeaseLost : err := ErrText "lease persa prima dell'operazione fisica".
Definition maintenanceLeaseDuration : Z := 10 * Minute.

(** [linked]: the kernel has no renameat2. [error_text]: the text of an error. *)
Section executor.
Context `{Platform} (linked : bool) (error_text : failure -> string).
Context (env : nat -> server -> server) (fate_of : nat -> fate) (clock : nat -> Z) (tokens : nat -> string).

Abbreviation io := (Io.io server).
Abbreviation act := (Io.act env fate_of).
Abbreviation rpc := (Io.rpc env fate_of).
Abbreviation now := (Io.now clock).

(** [model.NewToken] *)
Definition new_token : io string := fun '(n, s) => (Some (tokens n), ((n + 1)%nat, s)).
(** A check of [ctx.Err()]. *)
Definition ctx_err : io (result failure unit) := act no_effect.
(** A query of the store. *)
Definition query {A} (q : db -> result err A) : io (result failure A) :=
  act (fun s => (match q (s_db s) with Ok a => Ok a | Err e => Err (Failed e) end, s)).

(** ** Files *)
Definition entries (d : directory) (s : server) : gmap string entry :=
  match d with BackupsDir => s_published s | QuarantineDir => s_quarantine s end.
Definition lstat (d : directory) (b : backup) : io (result failure entry) :=
  act (fun s => (lookup_entry (entries d s) (final_name b), s)).
Definition missing (d : directory) (b : backup) : io bool :=
  r ← lstat d b;
  mret (match r with Err (OsError ENOENT) => true | _ => false end).
(** A regular file of the right size. *)
Definition regular_of (b : backup) (info : result failure entry) : bool :=
  match info with Ok (Regular content) => len content =? b_Size b | _ => false end.
(** [validBackupFileContext], [validFileContext] *)
Definition valid_file (d : directory) (b : backup) : io bool :=
  info ← lstat d b;
  if regular_of b info then
    r ← act (fun s => (VerifyContext (entries d s) (final_name b) (b_Size b) (b_SHA256 b), s));
    mret (is_ok r)
  else mret false.

(** ** The handlers of the writer *)
Definition handle_lease (owner : string) (generation duration : Z) : io (result failure lease) :=
  t ← now;
  act (on_store (AcquireMaintenanceLease owner generation t duration)).
Definition handle_authorize (id : Z) (l : lease) : io (result failure (operation * string)) :=
  t ← now;
  ticket ← new_token;
  act (on_store (AuthorizeOperation id l ticket t)).
Definition handle_validate (id : Z) (ticket : string) (l : lease) : io (result failure unit) :=
  t ← now;
  act (on_store (ValidateOperation id ticket l t)).

Definition unverified : err := ErrText "file assente, nella posizione errata o non corrispondente al catalogo".
Definition verifyCompletedOperation (id : Z) : io (result failure unit) :=
  op ← query (Operation_ id);
  match op with Err e => mret (Err e) | Ok op =>
  b ← query (Backup_ (o_BackupID op));
  match b with Err e => mret (Err e) | Ok b =>
  archiveOK ← valid_file BackupsDir b;
  quarantineOK ← valid_file QuarantineDir b;
  c ← ctx_err;
  match c with Err e => mret (Err e) | Ok _ =>
  archiveMissing ← missing BackupsDir b;
  quarantineMissing ← missing QuarantineDir b;
  match o_Kind op with
  | OpCancel => mret (Err (Failed (ErrText "tipo operazione non verificabile")))
  | kind =>
    if match kind with
       | OpQuarantine => archiveMissing && quarantineOK
       | OpRecover => archiveOK && quarantineMissing
       | _ => archiveMissing && quarantineMissing
       end
    then mret (Ok tt) else mret (Err (Failed unverified))
  end end end end.

Definition handle_confirm (id : Z) (ticket : string) (physicalDone : bool) (detail : string) (l : lease) : io (result failure unit) :=
  v ← (if physicalDone then verifyCompletedOperation id else mret (Ok tt));
  match v with Err e => mret (Err e) | Ok _ =>
  t ← now;
  act (on_store (ConfirmOperation id ticket physicalDone detail l t))
  end.

Inductive reconciliation : Type := ReConfirmed | ReReset | ReResume.

(** What the directories say of an authorized operation. *)
Definition reconcile_outcome (op : operation) (b : backup) (t : Z) (is_done is_untouched : bool) : io (result failure reconciliation) :=
  if is_done then
    r ← act (on_store (ReconcileAuthorized (o_ID op) t));
    mret (match r with Ok _ => Ok ReConfirmed | Err e => Err e end)
  else if is_untouched then
    r ← act (on_store (ResetAuthorized (o_ID op) t));
    mret (match r with Ok _ => Ok (if o_ExecutionCommitted op then ReResume else ReReset) | Err e => Err e end)
  else
    let detail := ("esito fisico incerto per operazione " ++ pretty (o_ID op) ++ " backup " ++ b_ID b)%string in
    _ ← act (on_store (openAnomaly (uncertain_key (o_ID op)) "maintenance" (b_KeyID b) (b_ID b) detail t));
    mret (Err (Failed (ErrText detail))).

Definition reconcileContext (id : Z) (l : lease) : io (result failure reconciliation) :=
  op ← query (Operation_ id);
  match op with Err e => mret (Err e) | Ok op =>
  if negb (has_state OpAuthorized op) then mret (Err (Failed ErrTicket))
  else
  b ← query (Backup_ (o_BackupID op));
  match b with Err e => mret (Err e) | Ok b =>
  if negb (ValidID (b_ID b)) then mret (Err (Failed (ErrText "ID backup non valido")))
  else
  archiveOK ← valid_file BackupsDir b;
  quarantineOK ← valid_file QuarantineDir b;
  archiveMissing ← missing BackupsDir b;
  quarantineMissing ← missing QuarantineDir b;
  c ← ctx_err;
  match c with Err e => mret (Err e) | Ok _ =>
  t ← now;
  v ← act (on_store (ValidateMaintenanceLease l t));
  match v with Err e => mret (Err e) | Ok _ =>
  match o_Kind op with
  | OpCancel => mret (Err (Failed (ErrText "operazione non riconciliabile")))
  | OpQuarantine => reconcile_outcome op b t (archiveMissing && quarantineOK) (archiveOK && quarantineMissing)
  | OpPurge => reconcile_outcome op b t (quarantineMissing && archiveMissing) (quarantineOK && archiveMissing)
  | OpRecover => reconcile_outcome op b t (archiveOK && quarantineMissing) (archiveMissing && quarantineOK)
  end end end end end.
(** [/v1/reconcile]. *)
Definition handle_reconcile (id : Z) (l : lease) : io (result failure reconciliation) :=
  t ← now;
  v ← act (on_store (ValidateMaintenanceLease l t));
  match v with Err e => mret (Err e) | Ok _ => reconcileContext id l end.

(** ** Moves *)
(** [renameat2] with [RENAME_NOREPLACE], or [os.Link]: the name must be free. *)
Definition set_entries (d : directory) (f : gmap string entry -> gmap string entry) (s : server) : server :=
  match d with BackupsDir => s <| s_published ::= f |> | QuarantineDir => s <| s_quarantine ::= f |> end.
Definition rename_entry (source destination : directory) (b : backup) (s : server) : result failure unit * server :=
  let name := final_name b in
  match entries source s !! name, entries destination s !! name with
  | None, _ => (Err (OsError ENOENT), s)
  | _, Some _ => (Err (OsError EEXIST), s)
  | Some e, None => (Ok tt, set_entries destination <[name := e]> (set_entries source (delete name) s))
  end.
Definition link_entry (source destination : directory) (b : backup) (s : server) : result failure unit * server :=
  let name := final_name b in
  match entries source s !! name, entries destination s !! name with
  | None, _ => (Err (OsError ENOENT), s)
  | _, Some _ => (Err (OsError EEXIST), s)
  | Some (Dir _), None => (Err (OsError (EOTHER "operation not permitted")), s)
  | Some e, None => (Ok tt, set_entries destination <[name := e]> s)
  end.
Definition remove_entry (d : directory) (b : backup) (s : server) : result failure unit * server :=
  let name := final_name b in
  match entries d s !! name with
  | None => (Err (OsError ENOENT), s)
  | Some (Dir false) => (Err (OsError (EOTHER "directory not empty")), s)
  | Some _ => (Ok tt, set_entries d (delete name) s)
  end.

Definition renameNoReplace (source destination : directory) (b : backup) : io (result failure unit) :=
  if negb linked then act (rename_entry source destination b)
  else
    r ← act (link_entry source destination b);
    match r with Err e => mret (Err e) | Ok _ =>
    r ← act no_effect;                                      (* syncDirectories *)
    match r with Err e => mret (Err e) | Ok _ => act (remove_entry source b) end
    end.

Definition source_invalid : failure := Failed (ErrText "file sorgente assente, simbolico o con identita errata").
Definition collision : failure := Failed (ErrText "collisione: file destinazione gia presente").
(** The destination must be free. *)
Definition verify_destination (destination : directory) (b : backup) : io (result failure unit) :=
  info ← lstat destination b;
  mret (match info with Ok _ => Err collision | Err (OsError ENOENT) => Ok tt | Err e => Err e end).
Definition verifyExclusiveSource (source destination : directory) (b : backup) : io (result failure unit) :=
  valid ← valid_file source b;
  if negb valid then
    c ← ctx_err;
    mret (match c with Err e => Err e | Ok _ => Err source_invalid end)
  else verify_destination destination b.
Definition verifyExclusiveSourceIdentity (source destination : directory) (b : backup) : io (result failure unit) :=
  info ← lstat source b;
  if negb (regular_of b info) then mret (Err source_invalid) else verify_destination destination b.

(** [unlinkVerifiedBeforeContext]; that the file is the one opened ([os.SameFile])
    is what the failures of [lstat] stand for. *)
Definition unlinkVerifiedBefore (d : directory) (b : backup) (beforeRemove : io (result failure unit)) : io (result failure unit) :=
  opened ← lstat d b;                                       (* os.Open *)
  match opened with Err e => mret (Err e) | Ok _ =>
  info ← lstat d b;
  if negb (regular_of b info) then mret (Err (Failed (ErrText "file da eliminare non valido")))
  else
  path ← lstat d b;
  match path with Err _ => mret (Err (Failed (ErrText "file sostituito durante la verifica"))) | Ok _ =>
  v ← act (fun s => (VerifyContext (entries d s) (final_name b) (b_Size b) (b_SHA256 b), s));
  match v with Err e => mret (Err e) | Ok _ =>
  v ← beforeRemove;
  match v with Err e => mret (Err e) | Ok _ =>
  current ← lstat d b;
  match current with Err _ => mret (Err (Failed (ErrText "file sostituito dopo la verifica"))) | Ok _ =>
  act (remove_entry d b)
  end end end end end.

(** ** The maintenance cycle *)
Definition lease_lost (e : failure) : failure := Failed (ErrWrap errLeaseLost (error_text e)).
Definition is_lease_lost (e : failure) : bool := match e with Failed e => errors_is e errLeaseLost | OsError _ => false end.

(** [leaseGuard.renew]: the lease of the guard keeps its owner and generation. *)
Definition renew (l : lease) : io (result failure unit) :=
  r ← rpc (handle_lease (l_Owner l) (l_Generation l) maintenanceLeaseDuration);
  mret (match r with
        | Err e => Err e
        | Ok renewed =>
          if negb (String.eqb (l_Owner renewed) (l_Owner l)) || negb (l_Generation renewed =? l_Generation l)
          then Err (Failed ErrLease) else Ok tt
        end).

(** The last check before a file is touched: the final permission. *)
Definition checkpoint (l : lease) (op : operation) (ticket : string) : io (result failure unit) :=
  if o_ExecutionCommitted op then mret (Ok tt)
  else
    r ← renew l;
    match r with Err e => mret (Err (lease_lost e)) | Ok _ =>
    v ← rpc (handle_validate (o_ID op) ticket l);
    mret (match v with Err e => Err (lease_lost e) | Ok _ => Ok tt end)
    end.

Definition move_file (source destination : directory) (b : backup) (check : io (result failure unit)) : io (result failure unit) :=
  v ← verifyExclusiveSource source destination b;
  match v with Err e => mret (Err e) | Ok _ =>
  v ← check;
  match v with Err e => mret (Err e) | Ok _ =>
  v ← verifyExclusiveSourceIdentity source destination b;
  match v with Err e => mret (Err e) | Ok _ =>
  r ← renameNoReplace source destination b;
  match r with Err e => mret (Err e) | Ok _ => act no_effect end
  end end end.
Definition unlink_file (b : backup) (check : io (result failure unit)) : io (result failure unit) :=
  v ← verifyExclusiveSource QuarantineDir BackupsDir b;
  match v with Err e => mret (Err e) | Ok _ =>
  r ← unlinkVerifiedBefore QuarantineDir b check;
  match r with Err e => mret (Err e) | Ok _ => act no_effect end
  end.

Definition executeLeased (l : lease) (op : operation) (ticket : string) (b : backup) : io (result failure unit) :=
  if negb (ValidID (b_ID b)) || negb (String.eqb (o_BackupID op) (b_ID b)) then
    mret (Err (Failed (ErrText "identita backup non valida")))
  else
    match o_Kind op with
    | OpQuarantine => move_file BackupsDir QuarantineDir b (checkpoint l op ticket)
    | OpRecover => move_file QuarantineDir BackupsDir b (checkpoint l op ticket)
    | OpPurge => unlink_file b (checkpoint l op ticket)
    | OpCancel => mret (Err (Failed (ErrText "tipo operazione fisica non valido")))
    end.

(** [processOperations], for one operation: whether to go on. *)
Definition process_operation (l : lease) (backups : list backup) (op : operation) : io (result failure unit) :=
  if negb (has_state OpRequested op) && negb (has_state OpAuthorized op && o_ExecutionCommitted op) then mret (Ok tt)
  else
    r ← renew l;
    match r with Err e => mret (Err (lease_lost e)) | Ok _ =>
    a ← rpc (handle_authorize (o_ID op) l);
    match a with
    | Err e => if o_ExecutionCommitted op then mret (Err e) else mret (Ok tt)
    | Ok (authorized, ticket) =>
      match find_where (backup_id_is (o_BackupID op)) backups with
      | None => mret (Err (Failed (ErrText "operazione riferita a backup assente dallo snapshot")))
      | Some b =>
        saved ← act no_effect;                              (* saveTicket *)
        match saved with Err e => mret (Err e) | Ok _ =>
        r ← executeLeased l authorized ticket b;
        match r with
        | Err e =>
          if is_lease_lost e then mret (Err e)
          else
            c ← rpc (handle_confirm (o_ID authorized) ticket false (error_text e) l);
            match c with Err e' => mret (Err e') | Ok _ => mret (Err e) end
        | Ok _ =>
          c ← rpc (handle_confirm (o_ID authorized) ticket true "" l);
          match c with Err e' => mret (Err e') | Ok _ => act no_effect (* clearTicket *) end
        end end
      end
    end end.
Definition processOperations (l : lease) (backups : list backup) (operations : list operation) : io (result failure unit) :=
  each (process_operation l backups) operations.

(** [reconcile]: every authorized operation of the snapshot. *)
Definition reconcile_operation (l : lease) (op : operation) : io (result failure unit) :=
  if negb (has_state OpAuthorized op) then mret (Ok tt)
  else r ← rpc (handle_reconcile (o_ID op) l); mret (match r with Ok _ => Ok tt | Err e => Err e end).
Definition reconcile (l : lease) (operations : list operation) : io (result failure unit) :=
  r ← each (reconcile_operation l) operations;
  match r with
  | Err e => mret (Err e)
  | Ok _ => if existsb (has_state OpAuthorized) operations then act no_effect else mret (Ok tt)
  end.
End executor.
