(* ===== verification/Execution.v ===== *)
(** The executor keeps the custody of the archive: no handler and no move, whatever
    fails and wherever a process stops, parts a deposit from its file
    ([src/internal/localapi/api.go], [src/internal/maintenance/service.go]). *)
From S2P Require Import Prelude GoTime GoString Model Policy Catalog Anomalies Retention RetentionMachine Deposit Store Archive Io Writer.
From S2P Require Import Custody Executor.

Definition dir (d : directory) (fs : dirs) : gmap string entry :=
  match d with BackupsDir => d_published fs | QuarantineDir => d_quarantine fs end.
Lemma dir_files d s : dir d (files s) = entries d s.
Proof. by destruct d. Qed.

Section bystanders.
Context `{Platform} (linked : bool).

(** What the rest of the system may do meanwhile: keep the custody, the deposits and
    the operations that are authorized, and leave the files of these alone.  Only
    the one executor authorizes operations. *)
Record tolerates (s s' : server) : Prop := Tolerates {
  to_custody : custody linked s';
  to_operations : forall o, o_State o = OpAuthorized -> In o (d_operations (s_db s)) <-> In o (d_operations (s_db s'));
  to_rows : forall b, In b (d_backups (s_db s)) -> has_row b s';
  to_files : forall b kind cm, authorized_for (core_of (s_db s)) (b_ID b) kind cm -> same_place (files s) (files s') b }.
Class Bystanders (env : nat -> server -> server) : Prop := bystanders : forall n s, custody linked s -> tolerates s (env n s).
#[export] Instance bystanders_alone : Bystanders alone.
Proof. intros n s Hs. split; [done|done|intros b Hb; exists b; split; [done|apply descends_refl]|done]. Qed.

Definition holds (op : operation) (s : server) : Prop := In op (d_operations (s_db s)) /\ o_State op = OpAuthorized.
(** The operation read from the catalogue, if it is authorized, is still [op]. *)
Definition known (op : operation) (s : server) : Prop :=
  forall o, In o (d_operations (s_db s)) -> o_ID o = o_ID op -> o_State o = OpAuthorized -> o = op.

Section snapshot.
Context (rows : list backup).
Abbreviation C := (keeps linked rows).

(** A fact about the files of [b], valid as long as [op] is authorized. *)
Class Local (b : backup) (P : dirs -> Prop) : Prop := local : forall fs fs', same_place fs fs' b -> P fs -> P fs'.
#[export] Instance local_and b P Q : Local b P -> Local b Q -> Local b (fun fs => P fs /\ Q fs).
Proof. intros HP HQ fs fs' Hs [H1 H2]. split; [by apply (HP fs)|by apply (HQ fs)]. Qed.
#[export] Instance local_impl b (A : Prop) P : Local b P -> Local b (fun fs => A -> P fs).
Proof. intros HP fs fs' Hs H1 Ha. by apply (HP fs), H1. Qed.
#[export] Instance local_true b : Local b (fun _ => True).
Proof. done. Qed.
#[export] Instance local_valid d b : Local b (fun fs => valid_in (dir d fs) b).
Proof. intros fs fs' [E1 E2]. unfold valid_in. destruct d; cbn; by rewrite ?E1, ?E2. Qed.
#[export] Instance local_absent d b : Local b (fun fs => absent_in (dir d fs) b).
Proof. intros fs fs' [E1 E2]. unfold absent_in. destruct d; cbn; by rewrite ?E1, ?E2. Qed.

Record fact (op : operation) (b : backup) (P : dirs -> Prop) (s : server) : Prop := Fact {
  fa_custody : C s; fa_row : has_row b s; fa_known : known op s; fa_fact : holds op s -> P (files s) }.

Section environment.
Context (env : nat -> server -> server) `{!Bystanders env}.

Lemma row_kept n s b : custody linked s -> has_row b s -> has_row b (env n s).
Proof.
  intros Hs (x & Hx & Hf). destruct (to_rows _ _ (bystanders n s Hs) x Hx) as (x' & Hx' & Hf'). exists x'. split; [done|].
  by apply (descends_trans _ x).
Qed.
#[export] Instance stable_custody : Stable env C.
Proof.
  intros n s Hs. split; [apply (bystanders n s Hs)|]. intros b Hb. apply row_kept; [exact Hs|by apply (ke_rows linked rows s Hs)].
Qed.
#[export] Instance stable_row b : Stable env (fun s => C s /\ has_row b s).
Proof. intros n s [Hs Hr]. split; [by apply stable_custody|by apply (row_kept _ _ _ Hs)]. Qed.

#[export] Instance stable_fact op b P : o_BackupID op = b_ID b -> Local b P -> Stable env (fact op b P).
Proof.
  intros Hop HP n s [Hs Hr Hk Hf]. destruct (bystanders n s Hs) as [H1 H2 H3 H4]. split; [by apply stable_custody|by apply (row_kept _ _ _ Hs)|..].
  - intros o Ho Hid Hst. apply Hk; [by apply H2|done..].
  - intros [Ho Hst]. assert (In op (d_operations (s_db s))) as Ho' by (by apply H2).
    apply (HP (files s)); [|by apply Hf]. apply (H4 b (o_Kind op) (o_ExecutionCommitted op)). by exists op.
Qed.

(** The final permission: the operation is authorized and committed. *)
Definition permitted (b : backup) (kind : op_kind) (s : server) : Prop :=
  C s /\ has_row b s /\ authorized_for (core_of (s_db s)) (b_ID b) kind true.
#[export] Instance stable_permitted b kind : Stable env (permitted b kind).
Proof.
  intros n s (Hs & Hr & o & Ho & Hrest). destruct (bystanders n s Hs) as [H1 H2 _ _]. split; [by apply stable_custody|]. split; [by apply (row_kept _ _ _ Hs)|].
  exists o. split; [|done]. apply H2; [apply Hrest|done].
Qed.
(** An operation the writer authorized, perhaps provisionally. *)
Definition granted (a : operation) (s : server) : Prop :=
  C s /\ exists o, In o (d_operations (s_db s)) /\ o_ID o = o_ID a /\ o_BackupID o = o_BackupID a /\ o_State o = OpAuthorized /\
    o_Kind o = o_Kind a /\ (o_ExecutionCommitted a = true -> o_ExecutionCommitted o = true).
#[export] Instance stable_granted a : Stable env (granted a).
Proof.
  intros n s (Hs & o & Ho & Hid & Hb & Hst & Hrest). destruct (bystanders n s Hs) as [H1 H2 _ _].
  split; [by apply stable_custody|]. exists o. split; [by apply H2|done].
Qed.
#[export] Instance stable_both b kind : Stable env (fun s => permitted b kind s /\ in_both (files s) b).
Proof.
  intros n s [Hp Hb]. split; [by apply stable_permitted|]. destruct Hp as (Hs & _ & Hauth).
  destruct (to_files _ _ (bystanders n s Hs) b kind true Hauth) as [E1 E2]. unfold in_both, valid_in in *. by rewrite E1, E2.
Qed.
End environment.

(** ** What the handlers do *)
Section handlers.
Context (env : nat -> server -> server) `{!Bystanders env} (fate_of : nat -> fate) (clock : nat -> Z) (tokens : nat -> string).
Abbreviation act := (Io.act env fate_of).

Lemma triple_store {A} (P : server -> Prop) `{!Stable env P} (m : tx A) :
  (forall s, P s -> C s) -> (forall s, P s -> C (snd (on_store m s))) -> triple P (act (on_store m)) (fun _ => C) C.
Proof. intros HP Hm. apply triple_act; [done..|]. intros s Hs. auto. Qed.

Lemma triple_ctx (P : server -> Prop) `{!Stable env P} : (forall s, P s -> C s) -> triple P (ctx_err env fate_of) (fun _ => P) C.
Proof. intros HP. eapply triple_weaken; [apply (triple_act_inv env fate_of P no_effect)|..]; auto. Qed.

(** Looking at the files. *)
Section looking.
Context (op : operation) (b : backup) (Hop : o_BackupID op = b_ID b).
Abbreviation F := (fact op b).
#[local] Instance stable_F P : Local b P -> Stable env (F P).
Proof. intros HP. by apply stable_fact. Qed.

Lemma fact_weaken P Q s : (forall fs, P fs -> Q fs) -> F P s -> F Q s.
Proof. intros HPQ [H1 H2 H3 H4]. split; [done..|]. intros Hh. by apply HPQ, H4. Qed.
Lemma fact_add (P Q : dirs -> Prop) s : F P s -> Q (files s) -> F (fun fs => P fs /\ Q fs) s.
Proof. intros [H1 H2 H3 H4] HQ. split; [done..|]. intros Hh. split; [by apply H4|done]. Qed.

Definition seen (d : directory) (info : result failure entry) (fs : dirs) : Prop :=
  match info with
  | Ok e => dir d fs !! final_name b = Some e
  | Err (OsError ENOENT) => absent_in (dir d fs) b
  | Err _ => True
  end.
Lemma triple_lstat d P `{!Local b P} : triple (F P) (lstat env fate_of d b) (fun info => F (fun fs => P fs /\ seen d info fs)) C.
Proof.
  apply triple_act; [apply _|by intros s []|]. intros s Hs. split; [by destruct Hs|]. split.
  - apply fact_add; [done|]. cbn. unfold lookup_entry, seen, absent_in. rewrite dir_files.
    by destruct (entries d s !! final_name b).
  - intros f. split; (apply fact_add; [done|by destruct f]).
Qed.
Lemma triple_missing d P `{!Local b P} :
  triple (F P) (missing env fate_of d b) (fun r => F (fun fs => P fs /\ (r = true -> absent_in (dir d fs) b))) C.
Proof.
  eapply triple_bind; [by apply triple_lstat|]. intros info. apply triple_ret. intros s.
  apply fact_weaken. intros fs [HP Hs]. split; [done|]. by destruct info as [|[[]|]].
Qed.
Lemma triple_valid_file d P `{!Local b P} :
  triple (F P) (valid_file env fate_of d b) (fun r => F (fun fs => P fs /\ (r = true -> valid_in (dir d fs) b))) C.
Proof.
  eapply (triple_bind _ _ _ _ (fun _ => F P)).
  { eapply triple_weaken; [apply (triple_lstat d P)|done| |done]. intros info s. by apply fact_weaken; intros fs []. }
  intros info. destruct (regular_of b info); [|apply triple_ret; intros s; by apply fact_weaken].
  eapply (triple_bind _ _ _ _ (fun r => F (fun fs => P fs /\ (is_ok r = true -> valid_in (dir d fs) b)))).
  - apply triple_act; [apply _|by intros s []|]. intros s Hs. split; [by destruct Hs|]. split.
    + apply fact_add; [done|]. cbn. rewrite dir_files. by apply verify_valid.
    + intros f. by split; apply fact_add.
  - intros r. by apply triple_ret.
Qed.

(** The four looks together. *)
Definition looked (archiveOK quarantineOK archiveMissing quarantineMissing : bool) (fs : dirs) : Prop :=
  (((True /\ (archiveOK = true -> valid_in (dir BackupsDir fs) b)) /\ (quarantineOK = true -> valid_in (dir QuarantineDir fs) b)) /\
   (archiveMissing = true -> absent_in (dir BackupsDir fs) b)) /\ (quarantineMissing = true -> absent_in (dir QuarantineDir fs) b).

(** What the directories show before and after an operation. *)
Definition done_when (kind : op_kind) (archiveOK quarantineOK archiveMissing quarantineMissing : bool) : bool :=
  match kind with
  | OpQuarantine => archiveMissing && quarantineOK
  | OpRecover => archiveOK && quarantineMissing
  | _ => archiveMissing && quarantineMissing
  end.
Definition untouched_when (kind : op_kind) (archiveOK quarantineOK archiveMissing quarantineMissing : bool) : bool :=
  match kind with OpQuarantine => archiveOK && quarantineMissing | _ => archiveMissing && quarantineOK end.
Lemma done_target a q am qm fs : o_Kind op <> OpCancel -> looked a q am qm fs -> done_when (o_Kind op) a q am qm = true ->
  target_place (o_Kind op) fs b.
Proof.
  intros Hk ((([_ H1] & H2) & H3) & H4). unfold done_when. destruct (o_Kind op); try done; intros [E1 E2]%andb_true_iff; split; auto.
Qed.
Lemma untouched_source a q am qm fs : o_Kind op <> OpCancel -> looked a q am qm fs -> untouched_when (o_Kind op) a q am qm = true ->
  source_place (o_Kind op) fs b.
Proof.
  intros Hk ((([_ H1] & H2) & H3) & H4). unfold untouched_when. destruct (o_Kind op); try done; intros [E1 E2]%andb_true_iff; split; auto.
Qed.

(** The record of a physical result that was seen. *)
Lemma custody_record {A} (m : tx A) e s : F (fun fs => match ev_finishes e, ev_resets e with
    | Some _, _ => target_place (o_Kind op) fs b | _, Some _ => source_place (o_Kind op) fs b | _, _ => True end) s ->
  ev_completes e = None -> (forall i, ev_finishes e = Some i -> i = o_ID op /\ ev_resets e = None) ->
  (forall i, ev_resets e = Some i -> i = o_ID op /\ ev_finishes e = None) ->
  (forall a d', m (s_db s) = Ok (a, d') -> rstep e (core_of (s_db s)) (core_of d')) -> C (snd (on_store m s)).
Proof.
  intros [Hs (x & Hx & Hf%descends_file) Hk Hfact] He1 He2 He3 Hm. apply (keeps_store linked rows m e); [done..|].
  assert (forall o y, In o (d_operations (s_db s)) -> o_ID o = o_ID op -> o_State o = OpAuthorized ->
    In y (d_backups (s_db s)) -> b_ID y = o_BackupID o -> o = op /\ holds op s /\ same_file b y) as Hsame.
  { intros o y Ho Hid Hst Hy Hyid. assert (o = op) as -> by (by apply Hk). split; [done|]. split; [done|].
    rewrite (NoDup_map_in b_ID _ y x (ok_backup_ids _ (cu_core _ _ Hs))); [done..|]. by rewrite Hyid, Hop, (sf_id _ _ Hf). }
  split.
  - intros y Hy. by rewrite He1 in Hy.
  - intros o y Hev Ho Hst Hy Hyid. destruct (He2 _ Hev) as [Hid Hr]. destruct (Hsame o y) as (-> & Hh & Hfy); [done..|].
    specialize (Hfact Hh). rewrite Hev in Hfact. by apply (same_target _ _ Hfy).
  - intros o y Hev Ho Hst Hy Hyid. destruct (He3 _ Hev) as [Hid Hr]. destruct (Hsame o y) as (-> & Hh & Hfy); [done..|].
    specialize (Hfact Hh). rewrite Hr, Hev in Hfact. by apply (same_source _ _ Hfy).
Qed.
End looking.

#[local] Instance local_target kind b : Local b (fun fs => target_place kind fs b).
Proof. intros fs fs' [E1 E2]. unfold target_place, in_quarantine, nowhere, in_archive, valid_in, absent_in. destruct kind; by rewrite ?E1, ?E2. Qed.
#[local] Instance local_source kind b : Local b (fun fs => source_place kind fs b).
Proof. intros fs fs' [E1 E2]. unfold source_place, in_quarantine, in_archive, valid_in, absent_in. destruct kind; by rewrite ?E1, ?E2. Qed.

(** Reading the operation, then its deposit. *)
#[local] Instance stable_known op : Stable env (fun s => C s /\ known op s).
Proof.
  intros n s [Hs Hk]. destruct (bystanders n s Hs) as [H1 H2 _ _]. split; [by apply stable_custody|]. intros o Ho Hid Hst. apply Hk; [by apply H2|done..].
Qed.
Lemma triple_Operation id :
  triple C (query env fate_of (Operation_ id)) (fun r s => C s /\ forall op, r = Ok op -> o_ID op = id /\ known op s) C.
Proof.
  apply triple_act; [apply _|done|]. intros s Hs. cbn. split; [done|]. split; [|by intros f; split]. split; [done|].
  intros op Hr. unfold Operation_ in Hr. destruct (find_operation (s_db s) id) as [o|] eqn:E; [|done]. injection Hr as ->.
  apply find_operation_in in E as [Ho Hid]. split; [done|]. intros o' Ho' Hid' _.
  by apply (NoDup_map_in o_ID _ o' op (ok_operation_ids _ (cu_core _ _ Hs))).
Qed.
Lemma triple_Backup op :
  triple (fun s => C s /\ known op s) (query env fate_of (Backup_ (o_BackupID op)))
    (fun r s => C s /\ forall b, r = Ok b -> o_BackupID op = b_ID b /\ fact op b (fun _ => True) s) C.
Proof.
  apply triple_act; [apply _|by intros s []|]. intros s [Hs Hk]. cbn. split; [done|]. split; [|by intros f; split]. split; [done|].
  intros b Hr. unfold Backup_ in Hr. destruct (find_backup (s_db s) (o_BackupID op)) as [x|] eqn:E; [|done]. injection Hr as ->.
  apply find_backup_in in E as [Hb Hid]. split; [done|]. split; [done|by exists b|done..].
Qed.

(** The confirmation of a physical result that the writer saw itself. *)
Definition verified (id : Z) (s : server) : Prop :=
  exists op b, o_ID op = id /\ o_BackupID op = b_ID b /\ fact op b (fun fs => target_place (o_Kind op) fs b) s.
#[local] Instance stable_verified id : Stable env (verified id).
Proof. intros n s (op & b & H1 & H2 & H3). exists op, b. split; [done|]. split; [done|]. by apply (stable_fact env op b _ H2 _). Qed.

Lemma triple_verifyCompleted id :
  triple C (verifyCompletedOperation env fate_of id) (fun r s => C s /\ (is_ok r = true -> verified id s)) C.
Proof.
  set (Q := fun r s => _ /\ _).
  assert (forall (P : server -> Prop) e, (forall s, P s -> C s) -> triple P (mret (Err e)) Q C) as Herr.
  { intros P e HP. apply triple_ret. intros s Hs%HP. done. }
  unfold verifyCompletedOperation. eapply triple_bind; [apply triple_Operation|]. intros [op|e]; [|by apply Herr; intros s []].
  apply (triple_pre _ (fun s => o_ID op = id /\ (C s /\ known op s))); [|intros s [Hs Hk]; by destruct (Hk op eq_refl)].
  apply triple_pure. intros Hid. eapply triple_bind; [apply triple_Backup|]. intros [b|e]; [|by apply Herr; intros s []].
  apply (triple_pre _ (fun s => o_BackupID op = b_ID b /\ fact op b (fun _ => True) s)); [|intros s [Hs Hk]; by apply Hk].
  apply triple_pure. intros Hop.
  eapply triple_bind; [by apply (triple_valid_file op b Hop), _|]. intros a.
  eapply triple_bind; [by apply (triple_valid_file op b Hop), _|]. intros q.
  eapply triple_bind; [apply triple_ctx; [by apply stable_fact, _|by intros s []]|]. intros [[]|e]; [|by apply Herr; intros s []].
  eapply triple_bind; [by apply (triple_missing op b Hop), _|]. intros am.
  eapply triple_bind; [by apply (triple_missing op b Hop), _|]. intros qm.
  assert (o_Kind op <> OpCancel -> triple (fact op b (looked b a q am qm))
    (if done_when (o_Kind op) a q am qm then mret (Ok tt) else mret (Err (Failed unverified))) Q C) as Hend.
  { intros Hk. destruct (done_when _ a q am qm) eqn:Ed; [|by apply Herr; intros s []]. apply triple_ret. intros s Hs.
    split; [by destruct Hs|]. intros _. exists op, b. split; [done|]. split; [done|].
    apply (fact_weaken op b _ _ s (fun fs HL => done_target op b a q am qm fs Hk HL Ed) Hs). }
  unfold done_when in Hend. destruct (o_Kind op); [by apply Hend..|by apply Herr; intros s []].
Qed.

Lemma triple_confirm id ticket physicalDone detail l :
  triple C (handle_confirm env fate_of clock id ticket physicalDone detail l) (fun _ => C) C.
Proof.
  unfold handle_confirm.
  eapply (triple_bind _ _ _ _ (fun r s => C s /\ (is_ok r = true -> physicalDone = true -> verified id s))).
  { destruct physicalDone; [|by apply triple_ret]. eapply triple_weaken; [apply triple_verifyCompleted|done| |done]. naive_solver. }
  intros [[]|e]; [|by apply triple_ret; intros s []].
  eapply triple_bind; [by apply (triple_now clock _ _ (fun _ s => C s /\ (physicalDone = true -> verified id s))); intros t s [? ?]; auto|].
  intros t. apply triple_store; [apply _|by intros s []|]. intros s [Hs Hv]. destruct physicalDone.
  - destruct (Hv eq_refl) as (op & b & <- & Hop & Hf).
    apply (custody_record op b Hop _ (Event t None (Some (o_ID op)) None None)); [done|done|by intros i [= <-]|done|].
    intros u d' Hr. exact (ConfirmOperation_step (Event t None (Some (o_ID op)) None None) _ _ _ _ _ _ _ _ (cu_core _ _ Hs) (fun _ => eq_refl) Hr).
  - apply (keeps_store linked rows _ (Event t None None None None)); [done| |by apply physical_none].
    intros u d' Hr. refine (ConfirmOperation_step (Event t None None None None) _ _ _ _ _ _ _ _ (cu_core _ _ Hs) _ Hr). done.
Qed.

(** The reconciliation of an operation by what the directories show. *)
Lemma triple_outcome op b t (is_done is_untouched : bool) : o_BackupID op = b_ID b ->
  triple (fact op b (fun fs => (is_done = true -> target_place (o_Kind op) fs b) /\ (is_untouched = true -> source_place (o_Kind op) fs b)))
    (reconcile_outcome env fate_of op b t is_done is_untouched) (fun _ => C) C.
Proof.
  intros Hop. unfold reconcile_outcome. set (P := fact op b _).
  assert (Stable env P) as HP by (by apply stable_fact, _).
  destruct is_done.
  - eapply triple_bind; [apply triple_store; [done|by intros s []|]|intros r; by apply triple_ret].
    intros s Hs. apply (custody_record op b Hop _ (Event t None (Some (o_ID op)) None None)); [|done|by intros i [= <-]|done|].
    + apply (fact_weaken op b _ _ s) with (2 := Hs); cbn; intros fs [H1 _]. auto.
    + intros u d' Hr. exact (ReconcileAuthorized_step (Event t None (Some (o_ID op)) None None) _ _ _ _ eq_refl Hr).
  - destruct is_untouched.
    + eapply triple_bind; [apply triple_store; [done|by intros s []|]|intros r; by apply triple_ret].
      intros s Hs. apply (custody_record op b Hop _ (Event t None None (Some (o_ID op)) None)); [|done|done|by intros i [= <-]|].
      * apply (fact_weaken op b _ _ s) with (2 := Hs); cbn; intros fs [_ H1]. auto.
      * intros u d' Hr. destruct Hs as [Hc _ _ _].
        exact (ResetAuthorized_step (Event t None None (Some (o_ID op)) None) _ _ _ _ _ (cu_core _ _ Hc) eq_refl Hr).
    + eapply triple_bind; [apply triple_store; [done|by intros s []|]|intros r; by apply triple_ret].
      intros s [Hs _ _ _]. apply keeps_frame; [|done]. apply frame_openAnomaly.
Qed.

Lemma triple_handle_reconcile id l : triple C (handle_reconcile env fate_of clock id l) (fun _ => C) C.
Proof.
  assert (forall (P : server -> Prop) e, (forall s, P s -> C s) -> triple P (mret (Err e)) (fun (_ : result failure reconciliation) => C) C) as Herr.
  { intros P e HP. by apply triple_ret. }
  assert (forall t P, Stable env P -> (forall s, P s -> C s) -> triple P (act (on_store (ValidateMaintenanceLease l t))) (fun _ => P) C) as Hlease.
  { intros t P HP HPC. assert (forall s, snd (on_store (ValidateMaintenanceLease l t) s) = s) as E.
    { intros s. unfold on_store, commit, ValidateMaintenanceLease, tx_gets, tx_guard. cbn.
      unfold mbind, tx_bind. destruct (negb (lease_holds l t (s_db s))); by destruct s. }
    apply triple_act; [done..|]. intros s Hs. rewrite E. auto. }
  unfold handle_reconcile, reconcileContext. eapply triple_bind; [by apply (triple_now clock C _ (fun _ => C))|]. intros t0.
  eapply triple_bind; [by apply Hlease; [apply _|]|]. intros [[]|e]; [|by apply Herr].
  eapply triple_bind; [apply triple_Operation|]. intros [op|e]; [|by apply Herr; intros s []].
  destruct (negb (has_state OpAuthorized op)); [by apply Herr; intros s []|].
  apply (triple_pre _ (fun s => C s /\ known op s)); [|intros s [Hs Hk]; by destruct (Hk op eq_refl)].
  eapply triple_bind; [apply triple_Backup|]. intros [b|e]; [|by apply Herr; intros s []].
  apply (triple_pre _ (fun s => o_BackupID op = b_ID b /\ fact op b (fun _ => True) s)); [|intros s [Hs Hk]; by apply Hk].
  apply triple_pure. intros Hop. destruct (negb (ValidID (b_ID b))); [by apply Herr; intros s []|].
  eapply triple_bind; [by apply (triple_valid_file op b Hop), _|]. intros a.
  eapply triple_bind; [by apply (triple_valid_file op b Hop), _|]. intros q.
  eapply triple_bind; [by apply (triple_missing op b Hop), _|]. intros am.
  eapply triple_bind; [by apply (triple_missing op b Hop), _|]. intros qm.
  apply (triple_pre _ (fact op b (looked b a q am qm))); [|intros s; by apply fact_weaken].
  eapply triple_bind; [apply triple_ctx; [by apply stable_fact, _|by intros s []]|]. intros [[]|e]; [|by apply Herr; intros s []].
  eapply triple_bind; [by apply (triple_now clock _ _ (fun _ => fact op b (looked b a q am qm)))|]. intros t.
  eapply triple_bind; [apply Hlease; [by apply stable_fact, _|by intros s []]|]. intros [[]|e]; [|by apply Herr; intros s []].
  assert (o_Kind op <> OpCancel -> forall x y, (x = true -> done_when (o_Kind op) a q am qm = true) ->
    (y = true -> untouched_when (o_Kind op) a q am qm = true) ->
    triple (fact op b (looked b a q am qm)) (reconcile_outcome env fate_of op b t x y) (fun _ => C) C) as Hend.
  { intros Hk x y Hx Hy. eapply triple_pre; [by apply (triple_outcome op b t x y)|]. intros s. apply fact_weaken. intros fs HL. split.
    - intros E%Hx. by apply (done_target op b a q am qm).
    - intros E%Hy. by apply (untouched_source op b a q am qm). }
  unfold done_when, untouched_when in Hend. destruct (o_Kind op); [..|by apply Herr; intros s []]; apply Hend; auto.
  - by rewrite andb_comm.
  - by rewrite andb_comm.
Qed.

Lemma triple_lease owner generation duration : triple C (handle_lease env fate_of clock owner generation duration) (fun _ => C) C.
Proof.
  unfold handle_lease. eapply triple_bind; [by apply (triple_now clock C _ (fun _ => C))|]. intros t.
  apply triple_store; [apply _|done|]. intros s Hs. apply keeps_frame; [apply frame_AcquireLease|done].
Qed.

Lemma triple_validate_keeps id ticket l : triple C (handle_validate env fate_of clock id ticket l) (fun _ => C) C.
Proof.
  unfold handle_validate. eapply triple_bind; [by apply (triple_now clock C _ (fun _ => C))|]. intros t.
  apply triple_store; [apply _|done|]. intros s Hs.
  apply (keeps_store linked rows _ (Event t None None None None)); [done| |by apply physical_none].
  intros u d' Hr. exact (ValidateOperation_step _ _ _ _ _ _ _ _ (cu_core _ _ Hs) Hr).
Qed.

(** ** Moves *)
(** Where the permitted operation may have got to. *)
Lemma permitted_moving b kind s : permitted b kind s -> moving linked kind true (files s) b.
Proof.
  intros (Hs & (x & Hx & Hf%descends_file) & Hauth). apply (same_moving _ _ (same_file_sym _ _ Hf)).
  apply (pl_moving _ _ _ _ (cu_placed _ _ _ (cu_files _ _ Hs) x Hx)). by rewrite (sf_id _ _ Hf).
Qed.
(** The executor changes nothing but the entries of the deposit, and takes it from
    its source to its target. *)
Lemma permitted_move b kind s s' : permitted b kind s -> s_db s' = s_db s ->
  (forall d name, name <> final_name b -> entries d s' !! name = entries d s !! name) ->
  moving linked kind true (files s') b -> permitted b kind s'.
Proof.
  intros (Hs & (x & Hx & Hde) & Hauth) Hdb Hother Hm. pose proof (descends_file _ _ Hde) as Hf.
  unfold permitted, has_row. rewrite Hdb. split; [|by eauto].
  destruct Hs as [[Hok Hcu] Hrows]. split; [|by unfold has_row; rewrite Hdb]. split; rewrite Hdb; [done|].
  apply (custody_of_move linked _ (files s) _ x Hok Hcu Hx).
  - intros name. rewrite (same_final _ _ Hf). apply (Hother BackupsDir).
  - intros name. rewrite (same_final _ _ Hf). apply (Hother QuarantineDir).
  - split.
    + intros k cm Hk. rewrite (sf_id _ _ Hf) in Hk. destruct Hauth as (o & Ho & Hid & Hst & <- & Hcm). rewrite <- Hid in Hk.
      apply (authorized_unique _ o) in Hk as (_ & <- & <-); [|done|done|by apply active_states; right].
      rewrite Hcm. by apply (same_moving _ _ Hf).
    + intros Hn. destruct (Hn kind true). by rewrite (sf_id _ _ Hf).
Qed.

(** The directories of a move. *)
Definition route (kind : op_kind) : option (directory * directory) :=
  match kind with OpQuarantine => Some (BackupsDir, QuarantineDir) | OpRecover => Some (QuarantineDir, BackupsDir) | _ => None end.

Lemma rename_permitted b kind source destination s : route kind = Some (source, destination) -> permitted b kind s ->
  permitted b kind (snd (rename_entry source destination b s)).
Proof.
  intros Hroute Hp. unfold rename_entry. destruct (entries source s !! final_name b) as [e|] eqn:Es; [|done].
  destruct (entries destination s !! final_name b) as [e'|] eqn:Ed; [done|]. cbn [snd].
  pose proof (permitted_moving _ _ _ Hp) as Hm. apply (permitted_move b kind s); [done|..].
  - by destruct source, destination.
  - intros d name Hne. destruct kind; try done; injection Hroute as <- <-; destruct d; cbn;
      rewrite ?lookup_insert_ne, ?lookup_delete_ne by done; done.
  - destruct kind; try done; injection Hroute as <- <-; cbn in Es, Ed; right; (split; [done|]); left; cbn;
      unfold in_archive, in_quarantine, valid_in, absent_in in *; cbn;
      rewrite lookup_delete_eq, lookup_insert_eq;
      destruct Hm as [Hm|[_ [Hm|(_ & _ & Hm)]]]; cbn in Hm;
      unfold in_archive, in_quarantine, in_both, valid_in, absent_in in Hm; cbn in Hm; rewrite Es, Ed in Hm; naive_solver.
Qed.
Lemma link_permitted b kind source destination s : route kind = Some (source, destination) -> linked = true -> permitted b kind s ->
  permitted b kind (snd (link_entry source destination b s)) /\
  (is_ok (fst (link_entry source destination b s)) = true -> in_both (files (snd (link_entry source destination b s))) b).
Proof.
  intros Hroute Hl Hp. unfold link_entry. destruct (entries source s !! final_name b) as [e|] eqn:Es; [|done].
  destruct (entries destination s !! final_name b) as [e'|] eqn:Ed; [by destruct e|].
  pose proof (permitted_moving _ _ _ Hp) as Hm.
  assert (exists content, e = Regular content /\ matches b content) as (content & -> & Hc).
  { destruct kind; try done; injection Hroute as <- <-; cbn in Es, Ed;
      destruct Hm as [Hm|[_ [Hm|(_ & _ & Hm)]]]; cbn in Hm;
      unfold in_archive, in_quarantine, in_both, valid_in, absent_in in Hm; cbn in Hm; rewrite Es, Ed in Hm; naive_solver. }
  cbn [fst snd]. assert (in_both (files (set_entries destination <[final_name b := Regular content]> s)) b) as Hboth.
  { destruct kind; try done; injection Hroute as <- <-; cbn in Es, Ed |- *;
      (split; exists content; cbn; rewrite ?lookup_insert_eq, ?Es; done). }
  split; [|done]. apply (permitted_move b kind s); [done|..].
  - by destruct destination.
  - intros d name Hne. destruct kind; try done; injection Hroute as <- <-; destruct d; cbn;
      rewrite ?lookup_insert_ne by done; done.
  - right. split; [done|]. right. split; [done|]. split; [by destruct kind|done].
Qed.
Lemma unlink_permitted b kind source destination s : route kind = Some (source, destination) ->
  permitted b kind s /\ in_both (files s) b -> permitted b kind (snd (remove_entry source b s)).
Proof.
  intros Hroute [Hp [H1 H2]]. unfold remove_entry. destruct (entries source s !! final_name b) as [e|] eqn:Es; [|done].
  assert (permitted b kind (set_entries source (delete (final_name b)) s)) as Hd.
  { apply (permitted_move b kind s); [done|by destruct source|..].
    - intros d name Hne. destruct source, d; cbn; rewrite ?lookup_delete_ne by done; done.
    - right. split; [done|]. left. destruct kind; try done; injection Hroute as <- <-; cbn; unfold in_archive, in_quarantine, absent_in;
        cbn; rewrite lookup_delete_eq; done. }
  by destruct e as [|[]|].
Qed.
Lemma remove_permitted b s : permitted b OpPurge s -> permitted b OpPurge (snd (remove_entry QuarantineDir b s)).
Proof.
  intros Hp. unfold remove_entry. destruct (entries QuarantineDir s !! final_name b) as [e|] eqn:Es; [|done]. cbn in Es.
  pose proof (permitted_moving _ _ _ Hp) as Hm.
  assert (absent_in (s_published s) b) as Ha by (by destruct Hm as [Hm|[_ [Hm|(_ & ? & _)]]]; [apply Hm..|]).
  assert (permitted b OpPurge (set_entries QuarantineDir (delete (final_name b)) s)) as Hd.
  { apply (permitted_move b OpPurge s); [done|done|..].
    - intros d name Hne. destruct d; cbn; rewrite ?lookup_delete_ne by done; done.
    - right. split; [done|]. left. split; [exact Ha|]. unfold absent_in. cbn. apply lookup_delete_eq. }
  by destruct e as [|[]|].
Qed.

(** Looking keeps whatever the bystanders keep. *)
Section keeping.
Context (P : server -> Prop) `{!Stable env P} (HP : forall s, P s -> C s).
Lemma triple_look {A} (effect : server -> result failure A * server) : (forall s, snd (effect s) = s) ->
  triple P (act effect) (fun _ => P) C.
Proof. intros He. eapply triple_weaken; [apply (triple_act_inv env fate_of P)|..]; [by intros s; rewrite He|auto..]. Qed.
Lemma keep_lstat d b : triple P (lstat env fate_of d b) (fun _ => P) C.
Proof. by apply triple_look. Qed.
Lemma keep_valid_file d b : triple P (valid_file env fate_of d b) (fun _ => P) C.
Proof.
  eapply triple_bind; [apply keep_lstat|]. intros info. destruct (regular_of b info); [|by apply triple_ret].
  eapply triple_bind; [by apply triple_look|]. intros r. by apply triple_ret.
Qed.
Lemma keep_destination d b : triple P (verify_destination env fate_of d b) (fun _ => P) C.
Proof. eapply triple_bind; [apply keep_lstat|]. intros info. by apply triple_ret. Qed.
Lemma keep_exclusive d d' b : triple P (verifyExclusiveSource env fate_of d d' b) (fun _ => P) C.
Proof.
  eapply triple_bind; [apply keep_valid_file|]. intros [|]; cbn [negb]; [apply keep_destination|].
  eapply triple_bind; [by apply triple_ctx|]. intros c. by apply triple_ret.
Qed.
Lemma keep_identity d d' b : triple P (verifyExclusiveSourceIdentity env fate_of d d' b) (fun _ => P) C.
Proof.
  eapply triple_bind; [apply keep_lstat|]. intros info. destruct (negb (regular_of b info)); [by apply triple_ret|apply keep_destination].
Qed.
End keeping.

(** An error, or success with what a later step needs. *)
Definition yields (Q : server -> Prop) (r : result failure unit) (s : server) : Prop := C s /\ (is_ok r = true -> Q s).
Lemma yields_err (P : server -> Prop) Q e : (forall s, P s -> C s) -> triple P (mret (Err e)) (yields Q) C.
Proof. intros HP. apply triple_ret. intros s Hs. split; [auto|done]. Qed.
Lemma permitted_custody b kind s : permitted b kind s -> C s.
Proof. by intros []. Qed.

Lemma triple_rename b kind source destination : route kind = Some (source, destination) ->
  triple (permitted b kind) (renameNoReplace linked env fate_of source destination b) (fun _ => C) C.
Proof.
  intros Hroute. pose proof (permitted_custody b kind) as HC. unfold renameNoReplace. destruct (negb linked) eqn:El.
  - eapply triple_weaken; [apply (triple_act_inv env fate_of (permitted b kind))|done|intros r; apply HC|apply HC].
    intros s. by apply rename_permitted.
  - apply negb_false_iff in El. set (J := fun s => permitted b kind s /\ in_both (files s) b).
    eapply (triple_bind _ _ _ _ (fun r s => permitted b kind s /\ (is_ok r = true -> in_both (files s) b))).
    { apply triple_act; [apply _|apply HC|]. intros s Hs. destruct (link_permitted b kind source destination s Hroute El Hs) as [H1 H2].
      split; [by apply HC|]. split; [done|]. by intros f. }
    intros [[]|e]; [|apply triple_ret; intros s [Hs _]; by apply HC].
    apply (triple_pre _ J); [|intros s [H1 H2]; split; auto].
    eapply (triple_bind _ _ _ _ (fun _ => J)).
    { eapply triple_weaken; [apply (triple_act_inv env fate_of J no_effect)|..]; [done|done|done|intros s [Hs _]; by apply HC]. }
    intros [[]|e]; [|apply triple_ret; intros s [Hs _]; by apply HC].
    apply triple_act; [apply _|intros s [Hs _]; by apply HC|]. intros s Hs.
    pose proof (unlink_permitted b kind source destination s Hroute Hs) as H'. destruct Hs as [Hs _].
    split; [by apply HC|]. split; [by apply HC|]. intros f. split; by apply HC.
Qed.

(** A move, and a removal, once the check yields the final permission. *)
Lemma triple_move_file (P : server -> Prop) `{!Stable env P} b kind source destination check : (forall s, P s -> C s) ->
  route kind = Some (source, destination) -> triple P check (yields (permitted b kind)) C ->
  triple P (move_file linked env fate_of source destination b check) (fun _ => C) C.
Proof.
  intros HP Hroute Hcheck. pose proof (permitted_custody b kind) as HC. unfold move_file.
  eapply triple_bind; [by apply keep_exclusive|]. intros [[]|e]; [|by apply triple_ret].
  eapply triple_bind; [exact Hcheck|]. intros [[]|e]; [|by apply triple_ret; intros s []].
  apply (triple_pre _ (permitted b kind)); [|intros s [_ Hs]; auto].
  eapply triple_bind; [by apply keep_identity; [apply _|]|]. intros [[]|e]; [|by apply triple_ret].
  eapply triple_bind; [by apply (triple_rename b kind)|]. intros [[]|e]; [|by apply triple_ret].
  eapply triple_weaken; [apply (triple_act_inv env fate_of C no_effect)|..]; auto.
Qed.
Lemma triple_unlink_file (P : server -> Prop) `{!Stable env P} b check : (forall s, P s -> C s) ->
  triple P check (yields (permitted b OpPurge)) C -> triple P (unlink_file env fate_of b check) (fun _ => C) C.
Proof.
  intros HP Hcheck. pose proof (permitted_custody b OpPurge) as HC. unfold unlink_file.
  eapply triple_bind; [by apply keep_exclusive|]. intros [[]|e]; [|by apply triple_ret].
  eapply (triple_bind _ _ _ _ (fun _ => C)).
  2:{ intros [[]|e]; [|by apply triple_ret]. eapply triple_weaken; [apply (triple_act_inv env fate_of C no_effect)|..]; auto. }
  unfold unlinkVerifiedBefore. eapply triple_bind; [by apply (keep_lstat P)|]. intros [?|e]; [|by apply triple_ret].
  eapply triple_bind; [by apply (keep_lstat P)|]. intros info. destruct (negb (regular_of b info)); [by apply triple_ret|].
  eapply triple_bind; [by apply (keep_lstat P)|]. intros [?|e]; [|by apply triple_ret].
  eapply triple_bind; [by apply (triple_look P)|]. intros [[]|e]; [|by apply triple_ret].
  eapply triple_bind; [exact Hcheck|]. intros [[]|e]; [|by apply triple_ret; intros s []].
  apply (triple_pre _ (permitted b OpPurge)); [|intros s [_ Hs]; auto].
  eapply triple_bind; [by apply (keep_lstat (permitted b OpPurge))|]. intros [?|e]; [|by apply triple_ret].
  apply triple_act; [apply _|apply HC|]. intros s Hs. pose proof (remove_permitted b s Hs) as H'.
  split; [by apply HC|]. split; [by apply HC|]. intros f. split; by apply HC.
Qed.

(** ** The cycle *)
(** What depends on the core and the files only. *)
Class CoreBased (P : server -> Prop) : Prop :=
  core_based : forall s s', core_of (s_db s') = core_of (s_db s) -> files s' = files s -> P s -> P s'.
#[local] Instance core_row b : CoreBased (has_row b).
Proof. intros s s' E1 _ (x & Hx & Hf). apply (f_equal c_backups) in E1. cbn in E1. exists x. by rewrite E1. Qed.
#[local] Instance core_custody : CoreBased C.
Proof.
  intros s s' E1 E2 [[H1 H2] H3]. split; [split; [by rewrite E1|by rewrite E1, E2]|]. intros b Hb. by apply (core_row b s), H3.
Qed.
#[local] Instance core_granted a : CoreBased (granted a).
Proof.
  intros s s' E1 E2 [Hs (o & Ho & Hrest)]. split; [by apply (core_custody s)|]. apply (f_equal c_operations) in E1. cbn in E1.
  exists o. by rewrite E1.
Qed.
#[local] Instance core_and P Q : CoreBased P -> CoreBased Q -> CoreBased (fun s => P s /\ Q s).
Proof. intros HP HQ s s' E1 E2 [H1 H2]. split; [by apply (HP s)|by apply (HQ s)]. Qed.

Lemma frame_core_based {A} (m : tx A) P s : frame m -> CoreBased P -> P s -> P (snd (on_store m s)).
Proof.
  intros Hm HP Hs. unfold on_store, commit. destruct (m (s_db s)) as [[a d']|e] eqn:E; cbn; apply (HP s); try done.
  exact (Hm _ _ _ E).
Qed.

#[local] Instance stable_granted_row a b : Stable env (fun s => granted a s /\ has_row b s).
Proof. intros n s [Hg Hr]. split; [by apply stable_granted|]. apply row_kept; [done|apply Hg|done]. Qed.

Lemma triple_renew (P : server -> Prop) `{!Stable env P, !CoreBased P} l : (forall s, P s -> C s) ->
  triple P (renew env fate_of clock l) (fun _ => P) C.
Proof.
  intros HP. unfold renew.
  eapply (triple_bind _ _ _ _ (fun _ => P)); [|intros r; by apply triple_ret].
  eapply triple_weaken; [apply (triple_rpc env fate_of P (handle_lease env fate_of clock (l_Owner l) (l_Generation l) maintenanceLeaseDuration) (fun _ => P) P P)|..];
    [|done..|by intros r s [Hs|[_ Hs]]|done].
  unfold handle_lease. eapply triple_bind; [by apply (triple_now clock P _ (fun _ => P))|]. intros t.
  apply triple_act_inv; [done|]. intros s. apply frame_core_based; [apply frame_AcquireLease|done].
Qed.

Lemma triple_validate a b ticket l : o_BackupID a = b_ID b ->
  triple (fun s => granted a s /\ has_row b s) (handle_validate env fate_of clock (o_ID a) ticket l)
    (yields (permitted b (o_Kind a))) C.
Proof.
  intros Hab. unfold handle_validate. eapply triple_bind.
  { by apply (triple_now clock _ _ (fun _ s => granted a s /\ has_row b s)). }
  intros t. apply triple_act; [apply _|by intros s [[Hs _] _]|]. intros s [[Hs (o & Ho & Hid & Hob & Hst & Hk & Hcm)] Hrow].
  assert (C (snd (on_store (ValidateOperation (o_ID a) ticket l t) s))) as HC.
  { apply (keeps_store linked rows _ (Event t None None None None)); [done| |by apply physical_none].
    intros u d' Hr. exact (ValidateOperation_step _ _ _ _ _ _ _ _ (cu_core _ _ Hs) Hr). }
  split; [done|]. split; [split; [done|]|by intros f]. intros Hok. split; [done|]. revert Hok.
  unfold on_store, commit. destruct (ValidateOperation (o_ID a) ticket l t (s_db s)) as [[u d']|e] eqn:Hr; [intros _; cbn|done].
  apply ValidateOperation_inv in Hr as (op & Hop & _ & _ & _ & Hcases). rewrite <- Hid in Hop.
  rewrite (find_operation_of _ o (cu_core _ _ Hs) Ho) in Hop. injection Hop as <-.
  destruct Hcases as [[Hc ->]|(_ & _ & _ & Hcore)].
  - split; [done|]. exists o. by rewrite Hob.
  - pose proof (f_equal c_backups Hcore) as Hcb. pose proof (f_equal c_operations Hcore) as Hco. cbn in Hcb, Hco.
    split; [by unfold has_row; cbn; rewrite Hcb|]. exists (commit_execution o). cbn. rewrite Hco. split; [|by rewrite Hob].
    apply in_update_new; [done|]. apply andb_true_iff. split; [by apply Z.eqb_eq|by apply selected_state].
Qed.

Lemma triple_checkpoint a b ticket l error_text : o_BackupID a = b_ID b ->
  triple (fun s => granted a s /\ has_row b s) (checkpoint error_text env fate_of clock l a ticket)
    (yields (permitted b (o_Kind a))) C.
Proof.
  intros Hab. set (G := fun s => granted a s /\ has_row b s). assert (forall s, G s -> C s) as HG by (by intros s [[Hs _] _]).
  unfold checkpoint. destruct (o_ExecutionCommitted a) eqn:Ec.
  - apply triple_ret. intros s [[Hs (o & Ho & Hid & Hob & Hst & Hk & Hcm)] Hrow]. split; [done|]. intros _. split; [done|].
    split; [done|]. exists o. rewrite <- Hab. repeat (split; [done|]). by apply Hcm.
  - eapply triple_bind; [by apply (triple_renew G)|]. intros [[]|e]; [|by apply yields_err].
    eapply (triple_bind _ _ _ _ (yields (permitted b (o_Kind a)))).
    + eapply triple_weaken; [apply (triple_rpc env fate_of G _ (yields (permitted b (o_Kind a))) C C)|..];
        [by apply triple_validate|done|by intros r s []|done|done| |done].
      intros r s [Hs|[Hr Hs]]; [done|]. split; [done|]. by rewrite Hr.
    + intros [[]|e]; [by apply triple_ret|apply yields_err; by intros s []].
Qed.

Lemma triple_execute a b ticket l error_text :
  triple (fun s => granted a s /\ has_row b s) (executeLeased linked error_text env fate_of clock l a ticket b) (fun _ => C) C.
Proof.
  set (G := fun s => granted a s /\ has_row b s). assert (forall s, G s -> C s) as HG by (by intros s [[Hs _] _]).
  unfold executeLeased. destruct (_ || _) eqn:E; [by apply triple_ret|]. apply orb_false_iff in E as [_ Hab%negb_false_iff%String.eqb_eq].
  pose proof (triple_checkpoint a b ticket l error_text Hab) as Hcheck.
  destruct (o_Kind a); [| | |by apply triple_ret].
  - by apply (triple_move_file G b OpQuarantine).
  - by apply (triple_unlink_file G).
  - by apply (triple_move_file G b OpRecover).
Qed.
Lemma triple_authorize id l :
  triple C (handle_authorize env fate_of clock tokens id l)
    (fun r s => C s /\ forall a ticket, r = Ok (a, ticket) -> granted a s) C.
Proof.
  unfold handle_authorize. eapply triple_bind; [by apply (triple_now clock C _ (fun _ => C))|]. intros t.
  eapply (triple_bind _ _ _ _ (fun _ => C)); [by intros n s Hs|]. intros ticket.
  apply triple_act; [apply _|done|]. intros s Hs.
  assert (C (snd (on_store (AuthorizeOperation id l ticket t) s))) as HC.
  { apply (keeps_store linked rows _ (Event t (Some id) None None None)); [done| |by apply physical_none].
    intros r d' Hr. exact (AuthorizeOperation_step (Event t (Some id) None None None) _ _ _ _ _ _ _ (cu_core _ _ Hs) eq_refl Hr). }
  split; [done|]. split; [|by intros f; split]. split; [done|]. intros a ticket' Hok. split; [done|]. revert Hok.
  unfold on_store, commit. destruct (AuthorizeOperation id l ticket t (s_db s)) as [[r d']|e] eqn:Hr; [|done]. cbn. intros [= ->].
  apply AuthorizeOperation_inv in Hr as (op & Hop & _ & (_ & Hid & Hb & Hk & Hc) & Hcases); [|apply (cu_core _ _ Hs)].
  apply find_operation_in in Hop as [Hop <-]. cbn in *.
  assert (forall p f, p op = true -> c_operations (core_of d') = update_where p f (d_operations (s_db s)) ->
    In (f op) (d_operations d')) as Hin by (intros p f Hp E; cbn in E; rewrite E; by apply in_update_new).
  destruct Hcases as [(Hst & Hco & Hth & Hcore)|(Hst & _ & _ & _ & Hcore)]; apply (f_equal c_operations) in Hcore.
  - exists (reissue ticket l op). split; [|by rewrite Hid, Hb, Hk, Hc]. apply (Hin _ _) in Hcore; [done|].
    unfold operation_id_is. by rewrite Z.eqb_refl, Hco, Hth, (proj2 (selected_state _ _) Hst).
  - exists (authorize ticket l t op). split; [|by rewrite Hid, Hb, Hk, Hc]. apply (Hin _ _) in Hcore; [done|].
    unfold operation_id_is. by rewrite Z.eqb_refl, (proj2 (selected_state _ _) Hst).
Qed.

(** A call that ends, whatever its answer. *)
Lemma triple_call {A} (P : server -> Prop) `{!Stable env P} (handler : io server (result failure A)) : (forall s, P s -> C s) ->
  triple P handler (fun _ => C) C -> triple P (rpc env fate_of handler) (fun _ => C) C.
Proof.
  intros HP Hh. eapply triple_weaken; [apply (triple_rpc env fate_of P handler (fun _ => C) C C); [exact Hh|done..]|done| |done].
  by intros r s [Hs|[_ Hs]].
Qed.

Context (error_text : failure -> string) (snapshot : list backup) (Hsnapshot : forall b, In b snapshot -> In b rows).

Lemma triple_process l op : triple C (process_operation linked error_text env fate_of clock tokens l snapshot op) (fun _ => C) C.
Proof.
  unfold process_operation. destruct (_ && _); [by apply triple_ret|].
  eapply triple_bind; [by apply (triple_renew C)|]. intros [[]|e]; [|by apply triple_ret].
  eapply triple_bind.
  { apply (triple_rpc env fate_of C _ (fun r s => C s /\ forall a ticket, r = Ok (a, ticket) -> granted a s) C C);
      [apply triple_authorize|done|by intros r s []|done]. }
  intros [[a ticket]|e]; [|destruct (o_ExecutionCommitted op); apply triple_ret; by intros s [[Hs _]|[_ Hs]]].
  apply (triple_pre _ (granted a)); [|intros s [[_ Hs]|[? _]]; [by apply (Hs a ticket)|done]].
  assert (forall s, granted a s -> C s) as HG by (by intros s []).
  destruct (find_where (backup_id_is (o_BackupID op)) snapshot) as [b|] eqn:Eb; [|by apply triple_ret].
  apply find_some in Eb as [Hb _].
  eapply triple_bind; [by apply (triple_ctx (granted a))|]. intros [[]|e]; [|by apply triple_ret].
  apply (triple_pre _ (fun s => granted a s /\ has_row b s)); [|intros s Hs; split; [done|by apply (ke_rows linked rows s (HG s Hs)), Hsnapshot]].
  eapply triple_bind; [by apply triple_execute|]. intros [[]|e].
  - eapply triple_bind; [apply (triple_call C); [done|by apply triple_confirm]|]. intros [?|e]; [|by apply triple_ret].
    eapply triple_weaken; [apply (triple_act_inv env fate_of C no_effect)|..]; auto.
  - destruct (is_lease_lost e); [by apply triple_ret|].
    eapply triple_bind; [apply (triple_call C); [done|by apply triple_confirm]|]. by intros [?|?]; apply triple_ret.
Qed.

Lemma triple_each_keep {A} (f : A -> io server (result failure unit)) l :
  (forall x, triple C (f x) (fun _ => C) C) -> triple C (each f l) (fun _ => C) C.
Proof.
  intros Hf. induction l as [|x l IH]; cbn [each]; [by apply triple_ret|].
  eapply triple_bind; [apply Hf|]. intros [[]|e]; [exact IH|by apply triple_ret].
Qed.
Lemma triple_processOperations l operations :
  triple C (processOperations linked error_text env fate_of clock tokens l snapshot operations) (fun _ => C) C.
Proof. apply triple_each_keep. intros op. apply triple_process. Qed.
Lemma triple_reconcile l operations : triple C (reconcile env fate_of clock l operations) (fun _ => C) C.
Proof.
  unfold reconcile. eapply triple_bind.
  { apply triple_each_keep. intros op. unfold reconcile_operation. destruct (negb _); [by apply triple_ret|].
    eapply triple_bind; [apply (triple_call C); [done|by apply triple_handle_reconcile]|]. intros r. by apply triple_ret. }
  intros [[]|e]; [|by apply triple_ret]. destruct (existsb _ _); [|by apply triple_ret].
  eapply triple_weaken; [apply (triple_act_inv env fate_of C no_effect)|..]; auto.
Qed.
End handlers.
End snapshot.
End bystanders.
