(* ===== verification/Watch.v ===== *)
(** The watch over the archive: the check of the files against the catalogue, and the
    requests of the maintenance process to quarantine and purge
    ([src/internal/maintenance/service.go]). *)
From S2P Require Import Prelude GoTime GoString Model Policy Schedule Catalog Anomalies Automation Retention RetentionMachine Deposit Mail Store Archive.
From S2P Require Import Io Writer Custody Executor Execution.

(** ** Findings *)
Definition catalog_finding (key kind keyID backupID detail : string) : finding := Finding key kind keyID backupID detail zero_time.
Definition directory_name (d : directory) : string := match d with BackupsDir => "backups" | QuarantineDir => "quarantine" end.
Definition relative (d : directory) (name : string) : string := (directory_name d ++ "/" ++ name)%string.

(** The directory that should have the file of a deposit. *)
Definition kept_in (b : backup) : option directory :=
  match b_Status b with
  | BackupComplete | BackupDeleting => Some BackupsDir
  | BackupQuarantined | BackupPurging => Some QuarantineDir
  | BackupReceiving | BackupFailed | BackupDeleted => None
  end.
(** The directory where its name is no surprise: an upload may be publishing. *)
Definition expected_in (b : backup) : option directory :=
  if has_status BackupReceiving b then Some BackupsDir else kept_in b.
Definition expected_names (backups : list backup) : list string :=
  omap (fun b => d ← expected_in b; Some (relative d (final_name b))) backups.

Section watch.
Context `{Platform} (error_text : failure -> string).
Context (env : nat -> server -> server) (fate_of : nat -> fate) (clock : nat -> Z).

Abbreviation io := (Io.io server).
Abbreviation act := (Io.act env fate_of).
Abbreviation rpc := (Io.rpc env fate_of).
Abbreviation now := (Io.now clock).
Abbreviation lstat := (Executor.lstat env fate_of).
Abbreviation valid_file := (Executor.valid_file env fate_of).
Abbreviation ctx_err := (Executor.ctx_err env fate_of).

Definition row_findings (acknowledged : list string) (b : backup) (d : directory) : io (list finding) :=
  info ← lstat d b;
  match info with
  | Err (OsError ENOENT) =>
    mret (if existsb (String.eqb (b_ID b)) acknowledged then []
          else [catalog_finding ("file-missing:" ++ b_ID b) "file_missing" (b_KeyID b) (b_ID b)
                  "file registrato nel catalogo ma fisicamente assente"])
  | Err _ => mret [catalog_finding ("catalog-file:" ++ b_ID b) "catalog" (b_KeyID b) (b_ID b) "catalogo e file non concordano"]
  | Ok _ =>
    valid ← valid_file d b;
    mret (if (valid : bool) then []
          else [catalog_finding ("catalog-file:" ++ b_ID b) "catalog" (b_KeyID b) (b_ID b) "catalogo e file non concordano"])
  end%string.

(** [None]: the context was cancelled, and what was found so far is returned. *)
Fixpoint rows_findings (acknowledged : list string) (backups : list backup) : io (bool * list finding) :=
  match backups with
  | [] => mret (true, [])
  | b :: rest =>
    c ← ctx_err;
    match c with
    | Err _ => mret (false, [])
    | Ok _ =>
      found ← match kept_in b with Some d => row_findings acknowledged b d | None => mret [] end;
      r ← rows_findings acknowledged rest;
      mret (fst r, found ++ snd r)
    end
  end.

Definition unexpected (expected : list string) (d : directory) (name : string) : list finding :=
  let path := relative d name in
  if existsb (String.eqb path) expected then []
  else [catalog_finding ("unexpected-file:" ++ path) "catalog" "" "" ("file inatteso o nella posizione errata: " ++ path)]%string.
(** [os.ReadDir], sorted by name. *)
Definition directory_names (d : directory) (s : server) : list string := sort_strings (elements (dom (entries d s))).
Definition directory_findings (expected : list string) (d : directory) : io (list finding) :=
  names ← act (fun s => (Ok (directory_names d s), s));
  mret (match names with
        | Err e => [catalog_finding ("catalog-directory:" ++ directory_name d) "catalog" "" "" (error_text e)]%string
        | Ok names => flat_map (unexpected expected d) names
        end).

(** [fileFindingsContext], on the deposits of a snapshot. *)
Definition fileFindings (backups : list backup) (acknowledged : list string) : io (list finding) :=
  r ← rows_findings acknowledged backups;
  if negb (fst r) then mret (snd r)
  else
    in_backups ← directory_findings (expected_names backups) BackupsDir;
    in_quarantine ← directory_findings (expected_names backups) QuarantineDir;
    mret (snd r ++ in_backups ++ in_quarantine).

(** The last deposit of a snapshot that a path names. *)
Definition named_by (path : string) (backups : list backup) : option (directory * backup) :=
  find_where (fun p => String.eqb (relative (fst p) (final_name (snd p))) path)
    (rev (omap (fun b => d ← expected_in b; Some (d, b)) backups)).
(** [verifyUnexpectedFilesContext]: a file that arrived during the check is not
    unexpected if a later snapshot names it and it is whole. *)
Fixpoint verifyUnexpectedFiles (findings : list finding) (backups : list backup) : io (list finding) :=
  match findings with
  | [] => mret []
  | f :: rest =>
    c ← ctx_err;
    match c with
    | Err _ => mret []
    | Ok _ =>
      kept ← (if negb (String.eqb (f_Kind f) "catalog") || negb (has_prefix "unexpected-file:" (f_StableKey f)) then mret true
              else match named_by (trim_prefix "unexpected-file:" (f_StableKey f)) backups with
                   | None => mret true
                   | Some (d, b) => valid ← valid_file d b; mret (negb valid)
                   end);
      result ← verifyUnexpectedFiles rest backups;
      mret (if (kept : bool) then f :: result else result)
    end
  end.

(** ** Observations and anomalies *)
Definition recoverableBackups (acknowledged : list string) (backups : list backup) : list backup :=
  List.filter (fun b => negb (existsb (String.eqb (b_ID b)) acknowledged)) backups.

Definition excluded_observation (exclusions : list anomaly_exclusion) (b : backup) (at_ : Z) : bool :=
  existsb (fun e => String.eqb (e_KeyID e) (b_KeyID b) && (e_StartsAt e <=? unix at_) && (unix at_ <=? e_EndsAt e)) exclusions.
Definition observations (backups : list backup) (exclusions : list anomaly_exclusion) : list observation :=
  omap (fun b =>
    if String.eqb (b_ReceivedAt b) "" || has_status BackupReceiving b || has_status BackupFailed b then None
    else at_ ← parse_rfc3339 (b_ReceivedAt b);
         if excluded_observation exclusions b at_ then None
         else Some (Observation (b_ID b) (b_KeyID b) at_ (b_Size b))) backups.

(** The kinds the monitoring opens; some of them are closed by the writer only. *)
Definition monitored_kind (kind : string) : bool :=
  existsb (String.eqb kind) ["schedule_missing"; "file_missing"; "extra"; "size"; "catalog"; "filesystem"; "model"; "capacity"]%string.
Definition lasting_kind (kind : string) : bool := existsb (String.eqb kind) ["schedule_missing"; "file_missing"; "extra"]%string.
Definition to_resolve (findings : list finding) (a : anomaly) : bool :=
  monitored_kind (a_Kind a) && negb (existsb (fun f => String.eqb (f_StableKey f) (a_StableKey a)) findings) &&
  negb (lasting_kind (a_Kind a)).
Definition recordFindings (findings : list finding) (anomalies : list anomaly) : io (result failure unit) :=
  each (fun a =>
    if negb (to_resolve findings a) then mret (Ok tt)
    else
      r ← rpc (t ← now; act (on_store (ResolveAnomaly (a_StableKey a) t)));
      mret (match r with Err e => Err e | Ok _ => Ok tt end)) anomalies.

(** ** Requests *)

Definition purge_due (revoked : string -> bool) (t : Z) (b : backup) : bool :=
  has_status BackupQuarantined b && negb (revoked (b_KeyID b)) && negb (b_PurgeNotBefore b =? 0) && negb (unix t <? b_PurgeNotBefore b).
Definition schedulePurges (owner : string) (status : automation_status) (revoked : string -> bool) (acknowledged : list string)
    (backups : list backup) (t : Z) : io (result failure unit) :=
  each (fun b =>
    if negb (purge_due revoked t b) then mret (Ok tt)
    else
      match RetentionProtected LoadLocation b t (as_Timezone status) (RetentionDaysForKey status (b_KeyID b)) with
      | (_, Some e) => mret (Err (Failed e))
      | (true, None) => mret (Ok tt)
      | (false, None) =>
        r ← rpc (t ← now; act (on_store (RequestPurge (b_ID b) "automatic" owner "quarantena minima completata" t)));
        mret (match r with
              | Err e => if contains "UNIQUE" (error_text e) then Ok tt else Err e
              | Ok _ => Ok tt
              end)
      end) (recoverableBackups acknowledged backups).

(** What the pending purges will free. *)
Definition leaving (b : backup) : bool := has_status BackupDeleting b || has_status BackupQuarantined b || has_status BackupPurging b.
Fixpoint pending_bytes (status : automation_status) (revoked : string -> bool) (t pending : Z) (backups : list backup) : result failure Z :=
  match backups with
  | [] => Ok pending
  | b :: rest =>
    if negb (leaving b) then pending_bytes status revoked t pending rest
    else
      match RetentionProtected LoadLocation b t (as_Timezone status) (RetentionDaysForKey status (b_KeyID b)) with
      | (_, Some e) => Err (Failed e)
      | (protected, None) =>
        pending_bytes status revoked t
          (if negb protected && negb (revoked (b_KeyID b)) then uadd pending (wrap64 (b_Size b)) else pending) rest
      end
  end.

(** The selection of a cycle, with what is already leaving. *)
Definition automatic_selection (status : automation_status) (fs : filesystem) (revokedKeys : gmap string bool)
    (acknowledged : list string) (backups : list backup) (expected48h t : Z) : result failure selection :=
  let recoverable := recoverableBackups acknowledged backups in
  let revoked k := default false (revokedKeys !! k) in
  match pending_bytes status revoked t 0 recoverable with
  | Err e => Err e
  | Ok pending =>
    match Select LoadLocation (SelectionInput t (as_Timezone status) fs (as_ThresholdBasis status) (as_RetentionDays status)
                    (as_KeyRetentionDays status) expected48h pending recoverable revokedKeys) with
    | Err e => Err (Failed e)
    | Ok selection => Ok selection
    end
  end.
Definition scheduleAutomatic (owner : string) (status : automation_status) (fs : filesystem) (revokedKeys : gmap string bool)
    (acknowledged : list string) (backups : list backup) (expected48h t : Z) (day : string) : io (result failure unit) :=
    match automatic_selection status fs revokedKeys acknowledged backups expected48h t with
    | Err e => mret (Err e)
    | Ok selection =>
      r ← each (fun b =>
            r ← rpc (t ← now; act (on_store (RequestQuarantine (b_ID b) "automatic" owner
                  "filesystem almeno all'80%; lotto minimo 10%; giorno completo oltre il minimo della chiave" t)));
            mret (match r with Err e => Err e | Ok _ => Ok tt end)) (Candidates selection);
      match r with Err e => mret (Err e) | Ok _ =>
      if (ShortfallBytes selection =? 0)%Z then mret (Ok tt)
      else
        rpc (t ← now; act (on_store (QueueReport ("retention-shortfall:" ++ day) "OnlyBackup: anomalia spazio liberabile insufficiente"
          ("La retention richiede " ++ pretty (BytesNeeded selection) ++ " byte, puo selezionarne " ++ pretty (SelectedBytes selection) ++
           " e ne mancano " ++ pretty (ShortfallBytes selection) ++
           ". Tutti i candidati consentiti sono stati richiesti; nessun backup protetto e stato toccato.") t)))
      end
    end%string.
End watch.

(** ** The check of the files finds what is amiss *)
Lemma relative_inj d d' name name' : relative d name = relative d' name' -> d = d' /\ name = name'.
Proof.
  unfold relative. destruct d, d'; cbn; try (intros E; discriminate); intros E; (split; [done|]); by injection E.
Qed.
Lemma expected_names_iff backups d name : In (relative d name) (expected_names backups) <->
  exists b, In b backups /\ expected_in b = Some d /\ name = final_name b.
Proof.
  unfold expected_names. rewrite <- list_elem_of_In, list_elem_of_omap. split.
  - intros (b & Hb%list_elem_of_In & E). exists b. destruct (expected_in b) as [d'|]; [|done]. cbn in E.
    injection E as E. symmetry in E. apply relative_inj in E as [-> ->]. done.
  - intros (b & Hb & Hd & ->). exists b. split; [by apply list_elem_of_In|]. by rewrite Hd.
Qed.

Section findings.
Context `{Platform} (error_text : failure -> string) (acknowledged : list string) (s0 : server).

(** The file of a deposit is where it should be, or known to be lost. *)
Definition in_order (b : backup) (d : directory) : Prop :=
  valid_in (entries d s0) b \/ (absent_in (entries d s0) b /\ In (b_ID b) acknowledged).
Definition names (b : backup) (l : list finding) : Prop := exists f, In f l /\ f_BackupID f = b_ID b.

Lemma runs_valid_file d b : runs (eq s0) (Executor.valid_file alone faultless d b)
  (fun r s => s0 = s /\ (r = true <-> valid_in (entries d s0) b)).
Proof.
  unfold Executor.valid_file, Executor.lstat.
  eapply (runs_bind _ _ _ _ (fun info s => s0 = s /\ info = lookup_entry (entries d s0) (final_name b))); [by apply runs_act; intros s <-|].
  intros info n s [<- ->]. destruct (regular_of b _) eqn:Er.
  - eapply (runs_bind (eq s0) _ _ _ (fun r s => s0 = s /\ r = VerifyContext (entries d s0) (final_name b) (b_Size b) (b_SHA256 b)));
      [by apply runs_act; intros s <-| |done].
    intros r. apply runs_ret. intros s [<- ->]. split; [done|]. apply verify_valid.
  - refine (runs_ret _ (eq s0) _ _ n s0 eq_refl). intros s <-. split; [done|]. split; [done|]. intros (content & E & Hl & _).
    unfold lookup_entry, regular_of in Er. rewrite E, Hl, Z.eqb_refl in Er. done.
Qed.

Lemma acknowledged_iff b : existsb (String.eqb (b_ID b)) acknowledged = true <-> In (b_ID b) acknowledged.
Proof. rewrite existsb_exists. setoid_rewrite String.eqb_eq. split; [by intros (x & Hx & ->)|by exists (b_ID b)]. Qed.

Lemma in_order_dec b d : in_order b d \/ ~ in_order b d.
Proof.
  unfold in_order. rewrite <- verify_valid, <- acknowledged_iff. unfold absent_in.
  destruct (is_ok _), (entries d s0 !! final_name b), (existsb _ acknowledged); naive_solver.
Qed.
Lemma runs_row b d : runs (eq s0) (row_findings alone faultless acknowledged b d)
  (fun l s => s0 = s /\ (in_order b d -> l = []) /\ (~ in_order b d -> names b l)).
Proof.
  unfold row_findings, Executor.lstat.
  eapply (runs_bind _ _ _ _ (fun info s => s0 = s /\ info = lookup_entry (entries d s0) (final_name b))); [by apply runs_act; intros s <-|].
  intros info n s [<- ->]. unfold lookup_entry. destruct (entries d s0 !! final_name b) as [e|] eqn:E.
  - assert (runs (eq s0) (valid ← Executor.valid_file alone faultless d b;
      mret (if (valid : bool) then [] else [catalog_finding ("catalog-file:" ++ b_ID b) "catalog" (b_KeyID b) (b_ID b) "catalogo e file non concordano"%string]))
      (fun l s => s0 = s /\ (in_order b d -> l = []) /\ (~ in_order b d -> names b l))) as Hr; [|by apply Hr].
    eapply runs_bind; [apply runs_valid_file|]. intros valid. apply runs_ret. intros s [<- Hv]. split; [done|].
    destruct valid; (split; intros Ho).
    + done.
    + destruct Ho. left. by apply Hv.
    + destruct Ho as [Ho%Hv|[Ha _]]; [done|]. unfold absent_in in Ha. congruence.
    + eexists. split; [by left|done].
  - refine (runs_ret _ (eq s0) _ _ n s0 eq_refl). intros s <-. split; [done|].
    destruct (existsb _ acknowledged) eqn:Ea; (split; intros Ho).
    + done.
    + destruct Ho. right. split; [done|]. by apply acknowledged_iff.
    + destruct Ho as [(c & Hc & _)|[_ Hk%acknowledged_iff]]; congruence.
    + eexists. split; [by left|done].
Qed.

Lemma runs_rows backups : runs (eq s0) (rows_findings alone faultless acknowledged backups)
  (fun r s => s0 = s /\ fst r = true /\
     ((forall b d, In b backups -> kept_in b = Some d -> in_order b d) -> snd r = []) /\
     (forall b d, In b backups -> kept_in b = Some d -> ~ in_order b d -> names b (snd r))).
Proof.
  induction backups as [|b rest IH]; cbn [rows_findings]; [by apply runs_ret; intros s <-|].
  eapply (runs_bind _ _ _ _ (fun r s => r = Ok tt /\ s0 = s)); [by apply runs_act; intros s <-|]. intros c n s [-> <-].
  revert n. enough (runs (eq s0) (found ← match kept_in b with Some d => row_findings alone faultless acknowledged b d | None => mret [] end;
      r ← rows_findings alone faultless acknowledged rest; mret (fst r, found ++ snd r))
    (fun r s => s0 = s /\ fst r = true /\
     ((forall x d, In x (b :: rest) -> kept_in x = Some d -> in_order x d) -> snd r = []) /\
     (forall x d, In x (b :: rest) -> kept_in x = Some d -> ~ in_order x d -> names x (snd r)))) as Hr by (intros n; by apply Hr).
  eapply (runs_bind _ _ _ _ (fun l s => s0 = s /\ ((forall d, kept_in b = Some d -> in_order b d) -> l = []) /\
     (forall d, kept_in b = Some d -> ~ in_order b d -> names b l))).
  { destruct (kept_in b) as [d|]; [|by apply runs_ret; intros s <-]. eapply runs_weaken; [apply runs_row|done|].
    intros l s (<- & H1 & H2). split; [done|]. split; [intros Ho; by apply H1, Ho|by intros d' [= <-]]. }
  intros found n s (<- & Hf & Hn). revert n.
  enough (runs (eq s0) (r ← rows_findings alone faultless acknowledged rest; mret (fst r, found ++ snd r))
    (fun r s => s0 = s /\ fst r = true /\
     ((forall x d, In x (b :: rest) -> kept_in x = Some d -> in_order x d) -> snd r = []) /\
     (forall x d, In x (b :: rest) -> kept_in x = Some d -> ~ in_order x d -> names x (snd r)))) as Hr by (intros n; by apply Hr).
  eapply runs_bind; [exact IH|]. intros [ok l]. apply runs_ret. cbn [fst snd]. intros s (<- & -> & Hl & Hln). split; [done|]. split; [done|]. split.
  - intros Ho. rewrite Hf, Hl; [done|..]; [intros x d Hx; apply Ho; by right|intros d; apply Ho; by left].
  - intros x d [<-|Hx] Hk Hno.
    + destruct (Hn d Hk Hno) as (f & Hin & Hid). exists f. split; [|done]. apply in_or_app. by left.
    + destruct (Hln x d Hx Hk Hno) as (f & Hin & Hid). exists f. split; [|done]. apply in_or_app. by right.
Qed.

Definition foreseen (backups : list backup) (d : directory) (name : string) : Prop :=
  exists b, In b backups /\ expected_in b = Some d /\ name = final_name b.

Lemma unexpected_nil backups d name : unexpected (expected_names backups) d name = [] <-> foreseen backups d name.
Proof.
  unfold unexpected, foreseen. rewrite <- expected_names_iff. destruct (existsb _ _) eqn:E.
  - apply existsb_exists in E as (x & Hx & ->%String.eqb_eq). done.
  - split; [done|]. intros Hin. apply not_true_iff_false in E. destruct E. apply existsb_exists.
    exists (relative d name). split; [done|apply String.eqb_refl].
Qed.
Lemma runs_directory backups d : runs (eq s0) (directory_findings error_text alone faultless (expected_names backups) d)
  (fun l s => s0 = s /\ (l = [] <-> forall name, is_Some (entries d s0 !! name) -> foreseen backups d name)).
Proof.
  unfold directory_findings.
  eapply (runs_bind _ _ _ _ (fun r s => s0 = s /\ r = Ok (directory_names d s0))); [by apply runs_act; intros s <-|].
  intros r n s [<- ->]. refine (runs_ret _ (eq s0) _ _ n s0 eq_refl). intros s <-. split; [done|].
  assert (forall name, In name (directory_names d s0) <-> is_Some (entries d s0 !! name)) as Hnames.
  { intros name. unfold directory_names, sort_strings. rewrite <- list_elem_of_In, merge_sort_Permutation, elem_of_elements. apply elem_of_dom. }
  setoid_rewrite <- Hnames. generalize (directory_names d s0). intros l. induction l as [|x l IH]; cbn [flat_map]; [by split|].
  split.
  - intros [Hx Hl]%app_eq_nil name [<-|Hin]; [by apply unexpected_nil|by apply IH].
  - intros Hall. rewrite (proj2 (unexpected_nil backups d x)); [|apply Hall; by left]. apply IH. intros name Hin. apply Hall. by right.
Qed.

(** C23. The check of the files is exact: when nothing fails it reports no finding if
    and only if every copy that the catalogue has in the archive or in the quarantine
    is there, whole and intact, or is acknowledged as lost and absent, and every
    name in the two directories is that of a deposit expected there; and every copy
    that is not in order is named by a finding. *)
Theorem fileFindings_exact backups n : exists l n',
  fileFindings error_text alone faultless backups acknowledged (n, s0) = (Some l, (n', s0)) /\
  (l = [] <-> (forall b d, In b backups -> kept_in b = Some d -> in_order b d) /\
              (forall d name, is_Some (entries d s0 !! name) -> foreseen backups d name)) /\
  (forall b d, In b backups -> kept_in b = Some d -> ~ in_order b d -> names b l).
Proof.
  assert (runs (eq s0) (fileFindings error_text alone faultless backups acknowledged) (fun l s => s0 = s /\
    (l = [] <-> (forall b d, In b backups -> kept_in b = Some d -> in_order b d) /\
                (forall d name, is_Some (entries d s0 !! name) -> foreseen backups d name)) /\
    (forall b d, In b backups -> kept_in b = Some d -> ~ in_order b d -> names b l))) as Hr.
  2:{ destruct (Hr n s0 eq_refl) as (l & n' & s & E & <- & H1 & H2). by exists l, n'. }
  unfold fileFindings. eapply runs_bind; [apply runs_rows|]. intros [ok l] m s (<- & Hok & Hl & Hn). cbn [fst snd] in *. subst ok.
  revert m. cbn [negb]. enough (runs (eq s0) (in_backups ← directory_findings error_text alone faultless (expected_names backups) BackupsDir;
    in_quarantine ← directory_findings error_text alone faultless (expected_names backups) QuarantineDir;
    mret (l ++ in_backups ++ in_quarantine)) (fun l s => s0 = s /\
    (l = [] <-> (forall b d, In b backups -> kept_in b = Some d -> in_order b d) /\
                (forall d name, is_Some (entries d s0 !! name) -> foreseen backups d name)) /\
    (forall b d, In b backups -> kept_in b = Some d -> ~ in_order b d -> names b l))) as Hr by (intros m; by apply Hr).
  eapply runs_bind; [apply runs_directory|]. intros l1 m s [<- H1]. revert m.
  enough (runs (eq s0) (in_quarantine ← directory_findings error_text alone faultless (expected_names backups) QuarantineDir;
    mret (l ++ l1 ++ in_quarantine)) (fun l s => s0 = s /\
    (l = [] <-> (forall b d, In b backups -> kept_in b = Some d -> in_order b d) /\
                (forall d name, is_Some (entries d s0 !! name) -> foreseen backups d name)) /\
    (forall b d, In b backups -> kept_in b = Some d -> ~ in_order b d -> names b l))) as Hr by (intros m; by apply Hr).
  eapply runs_bind; [apply runs_directory|]. intros l2. apply runs_ret. intros s [<- H2]. split; [done|]. split.
  - split.
    + intros [-> [E1 E2]%app_eq_nil]%app_eq_nil. split; [|intros []; [by apply H1|by apply H2]].
      intros b d Hb Hk. destruct (in_order_dec b d) as [?|Hno]; [done|]. by destruct (Hn b d Hb Hk Hno) as (f & [] & _).
    + intros [Ho Hu]. rewrite Hl, (proj2 H1), (proj2 H2); [done|apply Hu..|exact Ho].
  - intros b d Hb Hk Hno. destruct (Hn b d Hb Hk Hno) as (f & Hf & Hid). exists f. split; [|done]. apply in_or_app. by left.
Qed.
End findings.
