(* ===== verification/Api.v ===== *)
(** The local interface of the writer: the requests of the administrator and of the
    maintenance process on the Unix socket, decoded, routed, checked and carried out
    ([src/internal/localapi/api.go]). *)
From S2P Require Import Prelude GoTime GoString Model Policy Schedule Catalog Anomalies Automation Retention Deposit Checks Mail Store Io Writer Executor.
From Stdlib Require Import Ascii String.

(** ** Requests *)
Inductive http_method : Type := GET | POST | OtherMethod.

(** What [decode] puts in the structure of a command, all of their fields together:
    an absent field is zero. *)
Record fields : Type := Fields {
  f_ID : Z; f_Owner : string; f_Generation : Z; f_Seconds : Z; f_Ticket : string; f_Done : bool; f_Error : string;
  f_Outcome : string; f_Summary : string; f_State : string; f_Revision : Z; f_Findings : list finding;
  f_Backup : string; f_Origin : string; f_Actor : string; f_Reason : string; f_Key : string; f_Days : Z;
  f_Finding : finding; f_Timezone : string; f_Model : string; f_Reliable : bool; f_Review : bool;
  f_StableID : string; f_Subject : string; f_Text : string; f_Periodic : bool; f_ConfigVersion : Z;
  f_Settings : mail_settings; f_Mode : string; f_Confirmation : string; f_StartsAt : Z; f_EndsAt : Z;
  f_Kinds : list string }.

Record request : Type := HttpRequest {
  rq_Protocol : string; rq_Method : http_method; rq_Path : string; rq_Query : string -> string; rq_Peer : bool;
  rq_Body : string }.

(** ** Replies *)
Record snapshot : Type := Snapshot {
  sn_Status : automation_status; sn_Settings : mail_settings; sn_Keys : list key; sn_Quotas : list quota;
  sn_Backups : list backup; sn_Operations : list operation; sn_Anomalies : list anomaly;
  sn_Exclusions : list anomaly_exclusion; sn_AcknowledgedMissingBackupIDs : list string;
  sn_Models : list (string * string); sn_NextBackupID : string; sn_BackupsThrough : Z }.

(** The texts that [writeError] puts before that of an error are left out. *)
Inductive payload : Type :=
| PError (e : failure)
| PStatus (text : string)
| PFlag (name : string) (value : bool)
| PSettings (status : automation_status)
| PInventory (status : automation_status) (keys : list key) (backups : list backup) (models : list (string * string))
| PBackups (backups : list backup)
| PPage (page : backup_page)
| PSnapshot (value : snapshot)
| PAnomalies (anomalies : list anomaly)
| PExclusions (exclusions : list anomaly_exclusion)
| PChecks (checks : list (check * list check_model))
| PMail (messages : list mail_message)
| POperation (op : operation) (ticket : string)
| PLease (l : lease).
Record reply : Type := Reply { re_Status : Z; re_Payload : payload }.
Definition fault (status : Z) (text : string) : reply := Reply status (PError (Failed (ErrText text))).
Definition said (status : Z) (text : string) : reply := Reply status (PStatus text).

(** The confirmations of the administrator. *)
Definition ConfirmRetentionEnable : string := "ABILITA".
Definition ConfirmRetentionPause : string := "SOSPENDI".
Definition ConfirmRetentionResume : string := "RIPRENDI".
Definition ConfirmRetentionResumeWhenReady : string := "PRENOTA".

(** [strconv.ParseInt] in base 10, to 64 bits. *)
Fixpoint parse_decimal (acc : Z) (s : string) : option Z :=
  match s with
  | EmptyString => Some acc
  | String c s' => d ← digit_val c; parse_decimal (acc * 10 + d) s'
  end.
Definition parse_int64 (s : string) : option Z :=
  let '(sign, digits) := match s with
    | String "-"%char s' => (-1, s') | String "+"%char s' => (1, s') | _ => (1, s) end in
  if String.eqb digits "" then None
  else v ← parse_decimal 0 digits;
       let v := sign * v in
       if (- 2^63 <=? v) && (v <=? max_int64) then Some v else None.

Definition ProtocolVersion : string := "1".

(** [decode]: the JSON of a body, in the structure of the command of a path;
    [tokens]: [model.NewToken]. *)
Section api.
Context `{Platform} (decode : string -> string -> result err fields).
Context (env : nat -> server -> server) (fate_of : nat -> fate) (clock : nat -> Z) (tokens : nat -> string).

Abbreviation io := (Io.io server).
Abbreviation act := (Io.act env fate_of).
Abbreviation now := (Io.now clock).
Abbreviation query := (Executor.query env fate_of).

(** A read of the store that has no error of its own. *)
Definition reads {A} (f : db -> A) : io (result failure A) := query (fun d => Ok (f d)).

(** The result of a command, or its error with a status. *)
Definition answer {A} (status : Z) (m : io (result failure A)) (ok : A -> reply) : io reply :=
  r ← m;
  mret (match r with Ok a => ok a | Err e => Reply status (PError e) end).
(** [if err != nil { writeError(w, 500, …); return }] *)
Definition required {A} (m : io (result failure A)) (k : A -> io reply) : io reply :=
  r ← m;
  match r with Ok a => k a | Err e => mret (Reply 500 (PError e)) end.
Definition with_body (r : request) (k : fields -> io reply) : io reply :=
  match decode (rq_Path r) (rq_Body r) with
  | Err e => mret (Reply 400 (PError (Failed e)))
  | Ok f => k f
  end.
(** [requireAdminConfirmation] *)
Definition requireAdminConfirmation (f : fields) (expected : string) (k : io reply) : io reply :=
  if String.eqb (f_Confirmation f) expected then k
  else mret (fault 409 ("conferma esplicita richiesta: " ++ expected)).

(** The entry of a path in a table of commands. *)
Definition route (path : string) (table : list (string * io reply)) : option (io reply) :=
  snd <$> find_where (fun entry => String.eqb (fst entry) path) table.
Definition dispatch (path : string) (table : list (string * io reply)) (unknown : io reply) : io reply :=
  default unknown (route path table).

(** ** The administrator *)
Definition in_quarantine_status (b : backup) : bool :=
  has_status BackupDeleting b || has_status BackupQuarantined b || has_status BackupPurging b.

(** The commands that read. *)
Definition admin_reads (r : request) : list (string * io reply) :=
  [ ("/v1/status", answer 500 (reads read_status) (fun s => Reply 200 (PSettings s)));
    ("/v1/quarantine", answer 500 (reads SnapshotBackups) (fun bs => Reply 200 (PBackups (List.filter in_quarantine_status bs))));
    ("/v1/inventory", required (reads read_status) (fun status =>
          required (reads Keys) (fun keys =>
          required (query (Backups (rq_Query r "key") 10000)) (fun backups =>
          required (reads LoadModels) (fun models =>
          mret (Reply 200 (PInventory status keys backups models)))))));
    ("/v1/anomalies", answer 500 (reads (Anomalies (negb (String.eqb (rq_Query r "active") "false")))) (fun l => Reply 200 (PAnomalies l)));
    ("/v1/anomaly-exclusions", answer 500 (reads AnomalyExclusions) (fun l => Reply 200 (PExclusions l)));
    ("/v1/monitoring-checks", let value := rq_Query r "limit" in
    match (if String.eqb value "" then Some 20 else parse_int64 value) with
          | None => mret (fault 400 "limite controlli non valido")
          | Some limit => answer 400 (query (MonitoringChecks limit)) (fun l => Reply 200 (PChecks l))
          end) ]%string.

(** The commands that change the settings, the monitoring or a copy; [t] is the clock at
    the request. *)
Definition admin_settings (r : request) (t : Z) : list (string * io reply) :=
  [ ("/v1/automation/setup", with_body r (fun f =>
      requireAdminConfirmation f (ConfirmAutomationSetup (f_Mode f))
        (answer 400 (act (on_store (SetupAutomationMode (f_Settings f) (f_Timezone f) (f_Mode f) t))) (fun _ => said 200 "configured"))));
    ("/v1/automation/enable", with_body r (fun f =>
      requireAdminConfirmation f ConfirmRetentionEnable
        (answer 409 (act (on_store EnableAutomation)) (fun _ => said 200 "enabled"))));
    ("/v1/retention/minimum", with_body r (fun f =>
      answer 400 (act (on_store (SetKeyRetentionDays (f_Key f) (f_Days f)))) (fun _ => said 200 "configured")));
    ("/v1/retention/pause", with_body r (fun f =>
      requireAdminConfirmation f ConfirmRetentionPause
        (answer 500 (act (on_store (PauseRetention (f_Reason f)))) (fun _ => said 200 "paused"))));
    ("/v1/retention/resume", with_body r (fun f =>
      requireAdminConfirmation f ConfirmRetentionResume
        (answer 409 (act (on_store (ResumeRetention t))) (fun _ => said 200 "resumed"))));
    ("/v1/retention/resume-when-ready", with_body r (fun f =>
      requireAdminConfirmation f ConfirmRetentionResumeWhenReady
        (answer 500 (act (on_store (RequestRetentionResume t))) (fun _ => said 200 "resume_pending"))));
    ("/v1/monitoring/relearn", answer 500 (act (on_store BeginRelearn)) (fun _ => said 200 "learning"));
    ("/v1/monitoring/acknowledge", with_body r (fun f =>
      answer 409 (act (on_store (AcknowledgeMissingAnomaly (f_ID f) t))) (fun _ => said 200 "acknowledged")));
    ("/v1/monitoring/exclude", with_body r (fun f =>
      answer 409 (act (on_store (CreateAnomalyExclusion (f_ID f) (f_StartsAt f * Second) (f_EndsAt f * Second)
                                   (f_Actor f) (f_Reason f) (f_Kinds f) t))) (fun e => Reply 201 (PExclusions [e])))) ]%string.
Definition admin_requests (r : request) (t : Z) : list (string * io reply) :=
  [ ("/v1/retention/request", with_body r (fun f =>
      answer 409 (act (on_store (RequestQuarantine (f_Backup f) "manual" (f_Actor f) (f_Reason f) t))) (fun op => Reply 201 (POperation op ""))));
    ("/v1/retention/cancel", with_body r (fun f =>
      answer 409 (act (on_store (CancelQuarantineRequest (f_Backup f) (f_Actor f) t))) (fun _ => said 200 "cancelled")));
    ("/v1/retention/recover", with_body r (fun f =>
      answer 409 (act (on_store (RequestRecovery (f_Backup f) (f_Actor f) (f_Reason f) t))) (fun op => Reply 201 (POperation op ""))));
    ("/v1/mail/test", answer 500 (act (on_store (QueueReport ("mail-test:" ++ pretty (unix t)) "OnlyBackup: mail di prova"
                                   "La configurazione mail di OnlyBackup funziona." t))) (fun _ => said 202 "queued")) ]%string.
Definition admin_commands (r : request) (t : Z) : list (string * io reply) := admin_settings r t ++ admin_requests r t.

Definition serveAdmin (r : request) : io reply :=
  match (match rq_Method r with GET => route (rq_Path r) (admin_reads r) | _ => None end) with
  | Some m => m
  | None =>
    match rq_Method r with
    | POST =>
      if negb (rq_Peer r) then mret (fault 403 "identita Unix del chiamante non disponibile")
      else
        t ← now;
        dispatch (rq_Path r) (admin_commands r t) (mret (fault 404 "comando amministrativo inesistente"))
    | _ => mret (fault 405 "metodo non consentito")
    end
  end.

(** ** The maintenance process *)
Definition all_ok {A B} (f : A -> io (result failure B)) : list A -> io (result failure (list B)) :=
  fix go l :=
    match l with
    | [] => mret (Ok [])
    | x :: l' =>
      r ← f x;
      match r with Err e => mret (Err e) | Ok b =>
      r ← go l';
      match r with Err e => mret (Err e) | Ok bs => mret (Ok (b :: bs)) end
      end
    end.
Definition key_quota (k : key) : io (result failure quota) := t ← now; query (Quota (k_ID k) t).

Definition maintenance_snapshot (paged : bool) : io reply :=
  required (reads read_status) (fun status =>
  required (reads read_mail_settings) (fun settings =>
  required (reads Keys) (fun keys =>
  required (if paged then query (GetBackupPage "" 0)
            else query (fun d => Ok (BackupPage (SnapshotBackups d) "" 0))) (fun page =>
  required (reads SnapshotOperations) (fun operations =>
  required (reads (Anomalies true)) (fun anomalies =>
  required (reads AnomalyExclusions) (fun exclusions =>
  required (reads AcknowledgedMissingBackupIDs) (fun acknowledgedMissing =>
  required (reads LoadModels) (fun models =>
  required (all_ok key_quota keys) (fun quotas =>
  mret (Reply 200 (PSnapshot (Snapshot status settings keys quotas (bp_Backups page) operations anomalies exclusions
    acknowledgedMissing models (bp_Next page) (bp_Through page)))))))))))))).

(** Pages after the first name the last row they saw and the one they stop at. *)
Definition maintenance_page (r : request) (after : string) : io reply :=
  match parse_int64 (rq_Query r "through") with
  | None => mret (fault 400 "cursore catalogo non valido")
  | Some through =>
    if (through <=? 0) || negb (ValidID after) then mret (fault 400 "cursore catalogo non valido")
    else answer 500 (query (GetBackupPage after through)) (fun page => Reply 200 (PPage page))
  end.

Definition maintenance_reads (r : request) : list (string * io reply) :=
  [ ("/v1/snapshot", let paged := String.eqb (rq_Query r "paged") "1" in
    let after := rq_Query r "after" in
    (if paged && negb (String.eqb after "") then maintenance_page r after else maintenance_snapshot paged));
    ("/v1/mail/due", t ← now; answer 500 (query (DueMail t 20)) (fun l => Reply 200 (PMail l))) ]%string.

Definition outcome_of (s : string) : check_status :=
  if String.eqb s "completed_clean" then CheckClean else if String.eqb s "completed_with_anomalies" then CheckAnomalies else CheckFailed.
Definition lease_of (f : fields) : lease := Lease (f_Owner f) (f_Generation f) 0.
Definition reconciliation_text (r : reconciliation) : string :=
  match r with ReConfirmed => "confirmed" | ReReset => "reset" | ReResume => "resume" end.

(** The commands that look at files or whose handler reads the clock itself. *)
Definition maintenance_handlers (r : request) : list (string * io reply) :=
  [ ("/v1/lease", with_body r (fun f =>
      answer 409 (handle_lease env fate_of clock (f_Owner f) (f_Generation f) (wrap_int64 (f_Seconds f * Second))) (fun l => Reply 200 (PLease l))));
    ("/v1/authorize", with_body r (fun f =>
      answer 409 (handle_authorize env fate_of clock tokens (f_ID f) (lease_of f)) (fun a => Reply 200 (POperation (fst a) (snd a)))));
    ("/v1/confirm", with_body r (fun f =>
      answer 409 (handle_confirm env fate_of clock (f_ID f) (f_Ticket f) (f_Done f) (f_Text f) (lease_of f)) (fun _ => said 200 "confirmed")));
    ("/v1/validate", with_body r (fun f =>
      answer 409 (handle_validate env fate_of clock (f_ID f) (f_Ticket f) (lease_of f)) (fun _ => said 200 "valid")));
    ("/v1/reconcile", with_body r (fun f =>
      answer 409 (handle_reconcile env fate_of clock (f_ID f) (lease_of f)) (fun result => said 200 (reconciliation_text result)))) ]%string.

(** The others; [t] is the clock at the request. *)
Definition maintenance_checks (r : request) (t : Z) : list (string * io reply) :=
  [ ("/v1/check/start", answer 500 (act (on_store (StartMonitoringCheck t))) (fun c => Reply 201 (PChecks [(c, [])])));
    ("/v1/check/plan", with_body r (fun f =>
      answer 409 (act (on_store (PlanMonitoringCheck (f_ID f) t))) (fun c => Reply 200 (PChecks [c]))));
    ("/v1/check/complete", with_body r (fun f =>
      answer 409 (act (on_store (CompleteMonitoringCheck (f_ID f) (outcome_of (f_Outcome f)) (f_Summary f) (f_State f) (f_Revision f)
                                   (f_Findings f) t))) (fun _ => said 200 "completed")));
    ("/v1/check/fail", with_body r (fun f =>
      answer 500 (act (on_store (FailMonitoringCheck (f_ID f) (f_Summary f) t))) (fun _ => said 200 "failed")));
    ("/v1/lease/release", with_body r (fun f =>
      answer 409 (act (on_store (ReleaseMaintenanceLease (lease_of f)))) (fun _ => said 200 "released"))) ]%string.
Definition maintenance_requests (r : request) (t : Z) : list (string * io reply) :=
  [ ("/v1/maintenance-block/clear", with_body r (fun f =>
      answer 409 (act (on_store (TryClearResolvedMaintenanceBlock (f_ID f) t))) (fun cleared => Reply 200 (PFlag "cleared" cleared))));
    ("/v1/purge/request", with_body r (fun f =>
      answer 409 (act (on_store (RequestPurge (f_Backup f) (f_Origin f) (f_Actor f) (f_Reason f) t))) (fun op => Reply 201 (POperation op ""))));
    ("/v1/quarantine/request", with_body r (fun f =>
      answer 409 (act (on_store (RequestQuarantine (f_Backup f) (f_Origin f) (f_Actor f) (f_Reason f) t))) (fun op => Reply 201 (POperation op ""))));
    ("/v1/anomaly/open", with_body r (fun f =>
      let finding := f_Finding f in
      let eventAt := if (f_At finding =? zero_time)%Z then t else f_At finding in
      answer 400 (act (on_store (openAnomalyAt (f_StableKey finding) (f_Kind finding) (f_KeyID finding) (f_BackupID finding)
                                   (f_Detail finding) eventAt t))) (fun created => Reply 200 (PFlag "created" created))));
    ("/v1/anomaly/resolve", with_body r (fun f =>
      answer 400 (act (on_store (ResolveAnomaly (f_StableID f) t))) (fun resolved => Reply 200 (PFlag "resolved" resolved))));
    ("/v1/model/save", with_body r (fun f =>
      answer 400 (act (on_store (SaveModel (f_Key f) (f_Revision f) (f_Timezone f) (f_Days f) (f_Model f) (f_Reliable f) (f_Review f) t)))
        (fun _ => said 200 "saved")));
    ("/v1/check/state", with_body r (fun f =>
      answer 400 (act (on_store (SetCheckState (f_State f) (f_Revision f) t))) (fun _ => said 200 "recorded")));
    ("/v1/report/queue", with_body r (fun f =>
      answer 400 (if f_Periodic f then act (on_store (QueuePeriodicReport (f_StableID f) (f_Subject f) (f_Text f) t))
                  else act (on_store (QueueReport (f_StableID f) (f_Subject f) (f_Text f) t))) (fun _ => said 202 "queued")));
    ("/v1/mail/confirm", with_body r (fun f =>
      answer 400 (act (on_store (ConfirmMail (f_ID f) (f_Error f) (f_ConfigVersion f) t))) (fun _ => said 200 "recorded"))) ]%string.
Definition maintenance_commands (r : request) (t : Z) : list (string * io reply) := maintenance_checks r t ++ maintenance_requests r t.

Definition serveMaintenance (r : request) : io reply :=
  match (match rq_Method r with GET => route (rq_Path r) (maintenance_reads r) | _ => None end) with
  | Some m => m
  | None =>
    match rq_Method r with
    | POST =>
      match route (rq_Path r) (maintenance_handlers r) with
      | Some m => m
      | None =>
        t ← now;
        dispatch (rq_Path r) (maintenance_commands r t)
          (mret (fault 404 ("comando manutenzione inesistente: " ++ rq_Path r)))
      end
    | _ => mret (fault 405 "metodo non consentito")
    end
  end.

(** Both sockets first require the version of the protocol.  That the write
    deadline is lifted for the commands that read whole files has no counterpart. *)
Definition handler (admin : bool) (r : request) : io reply :=
  if negb (String.eqb (rq_Protocol r) ProtocolVersion) then mret (fault 412 "versione protocollo locale incompatibile")
  else if admin then serveAdmin r else serveMaintenance r.
End api.
