(* ===== verification/Serving.v ===== *)
(** The custody of the archive under the requests of the administrator and of the
    maintenance process, whatever they hold ([src/internal/localapi/api.go]). *)
From S2P Require Import Prelude GoTime GoString Model Policy Schedule Catalog Anomalies Automation Retention RetentionMachine Deposit Checks Mail.
From S2P Require Import Store Archive Io Writer Custody Executor Execution Api.

(** A call that records no physical fact: those are recorded by the writer after it
    has looked at the files. *)
Definition records_fact (c : call) : bool :=
  match c with
  | CComplete _ _ | CConfirmOperation _ _ true _ _ _ | CReconcileAuthorized _ _ | CResetAuthorized _ _ => true
  | _ => false
  end.

Section calls.
Context `{Platform} (linked : bool) (rows : list backup).
Abbreviation C := (keeps linked rows).

Lemma keeps_request c s : records_fact c = false -> C s -> C (s <| s_db := exec c (s_db s) |>).
Proof.
  intros Hc Hs. assert (physical (event_of c) (core_of (s_db s)) (files s)) as Hph.
  { apply physical_none; destruct c; try done; by destruct physicalDone. }
  destruct Hs as [[Hok Hcu] Hrows]. pose proof (store_step_rstep c (s_db s) Hok) as Hstep. split.
  - split; [exact (rstep_ok _ _ _ Hok Hstep)|exact (rstep_custody linked _ _ _ Hok Hcu _ Hph Hstep)].
  - intros b Hb. exact (row_follows _ _ _ _ Hok Hstep (Hrows b Hb)).
Qed.

(** A store call of the interface is a call of the histories. *)
Definition as_call {A} (m : tx A) (c : call) : Prop := forall d, snd (commit m d) = exec c d.
Lemma as_run c : as_call (run c) c.
Proof. done. Qed.
Lemma as_ignored {A} (m : tx A) c : run c = ignore m -> as_call m c.
Proof. intros E d. unfold exec, commit. rewrite E. unfold ignore, mbind, tx_bind. by destruct (m d) as [[a d']|e]. Qed.

Lemma keeps_call {A} (m : tx A) c s : as_call m c -> records_fact c = false -> C s -> C (snd (on_store m s)).
Proof.
  intros Hm Hc Hs. pose proof (keeps_request c s Hc Hs) as Hk. rewrite <- Hm in Hk. unfold on_store.
  by destruct (commit m (s_db s)) as [[a|e] d'].
Qed.
End calls.

(** ** The requests *)
Section serving.
Context `{Platform} (linked : bool) (rows : list backup) (decode : string -> string -> result err fields).
Context (env : nat -> server -> server) `{!Bystanders linked env}.
Context (fate_of : nat -> fate) (clock : nat -> Z) (tokens : nat -> string).
Abbreviation C := (keeps linked rows).
Abbreviation kept m := (triple C m (fun _ => C) C).

Lemma kept_call {A} (m : tx A) c : as_call m c -> records_fact c = false -> kept (Io.act env fate_of (on_store m)).
Proof. intros Hm Hc. apply triple_act_inv; [by apply stable_custody|]. intros s Hs. by apply (keeps_call linked rows m c). Qed.
Lemma kept_query {A} (q : db -> result err A) : kept (Executor.query env fate_of q).
Proof. apply triple_act_inv; [by apply stable_custody|done]. Qed.
Lemma kept_ret {A} (a : A) : kept (mret a).
Proof. by apply triple_ret. Qed.
Lemma kept_now {A} (f : Z -> Io.io server A) : (forall t, kept (f t)) -> kept (t ← Io.now clock; f t).
Proof. intros Hf. eapply triple_bind; [by apply (triple_now clock C _ (fun _ => C))|exact Hf]. Qed.
Lemma kept_answer {A} status (m : Io.io server (result failure A)) ok : kept m -> kept (answer status m ok).
Proof. intros Hm. eapply triple_bind; [exact Hm|]. intros r. apply kept_ret. Qed.
Lemma kept_required {A} (m : Io.io server (result failure A)) k : kept m -> (forall a, kept (k a)) -> kept (required m k).
Proof. intros Hm Hk. eapply triple_bind; [exact Hm|]. intros [a|e]; [apply Hk|apply kept_ret]. Qed.
Lemma kept_body r k : (forall f, kept (k f)) -> kept (with_body decode r k).
Proof. intros Hk. unfold with_body. destruct (decode _ _); [apply Hk|apply kept_ret]. Qed.
Lemma kept_confirmation f expected k : kept k -> kept (requireAdminConfirmation f expected k).
Proof. intros Hk. unfold requireAdminConfirmation. destruct (String.eqb _ _); [done|apply kept_ret]. Qed.
Lemma kept_all_ok {A B} (f : A -> Io.io server (result failure B)) l : (forall x, kept (f x)) -> kept (all_ok f l).
Proof.
  intros Hf. induction l as [|x l IH]; cbn; [apply kept_ret|]. eapply triple_bind; [apply Hf|]. intros [b|e]; [|apply kept_ret].
  eapply triple_bind; [exact IH|]. intros [bs|e]; apply kept_ret.
Qed.
Lemma kept_route path (table : list (string * Io.io server reply)) m :
  Forall (fun entry => kept (snd entry)) table -> route path table = Some m -> kept m.
Proof.
  intros Ht. unfold route. destruct (find_where _ table) as [[p m']|] eqn:E; [|done]. intros [= <-].
  apply find_some in E as [Hin _]. rewrite Forall_forall in Ht. by apply (Ht (p, m')), list_elem_of_In.
Qed.
Lemma kept_dispatch path (table : list (string * Io.io server reply)) unknown :
  Forall (fun entry => kept (snd entry)) table -> kept unknown -> kept (dispatch path table unknown).
Proof.
  intros Ht Hu. unfold dispatch. destruct (route path table) as [m|] eqn:E; [by apply (kept_route path table)|done].
Qed.

Ltac called c := apply (kept_call _ c); [first [exact (as_run c)|exact (as_ignored _ c eq_refl)]|done].
Ltac kept_tac :=
  repeat match goal with
  | |- Forall _ [] => constructor
  | |- Forall _ (_ :: _) => constructor; cbn [snd]
  | |- forall _, _ => intros ?
  | |- triple _ (answer _ _ _) _ _ => apply kept_answer
  | |- triple _ (required _ _) _ _ => apply kept_required
  | |- triple _ (with_body _ _ _) _ _ => apply kept_body
  | |- triple _ (requireAdminConfirmation _ _ _) _ _ => apply kept_confirmation
  | |- triple _ (Executor.query _ _ _) _ _ => apply kept_query
  | |- triple _ (reads _ _ _) _ _ => apply kept_query
  | |- triple _ (mret _) _ _ => apply kept_ret
  | |- triple _ (if ?c then _ else _) _ _ => destruct c
  | |- triple _ (match ?r with _ => _ end) _ _ => destruct r
  end.

Lemma kept_admin_commands r t : Forall (fun entry => kept (snd entry)) (admin_commands decode env fate_of r t).
Proof.
  unfold admin_commands, admin_settings, admin_requests. cbn [app]. kept_tac.
  - called (CSetupAutomationMode (f_Settings f) (f_Timezone f) (f_Mode f) t).
  - called CEnableAutomation.
  - called (CSetKeyRetentionDays (f_Key f) (f_Days f)).
  - called (CPauseRetention (f_Reason f)).
  - called (CResumeRetention t).
  - called (CRequestRetentionResume t).
  - called CBeginRelearn.
  - called (CAcknowledge (f_ID f) t).
  - called (CCreateExclusion (f_ID f) (f_StartsAt f * Second) (f_EndsAt f * Second) (f_Actor f) (f_Reason f) (f_Kinds f) t).
  - called (CRequestQuarantine (f_Backup f) "manual" (f_Actor f) (f_Reason f) t).
  - called (CCancelQuarantineRequest (f_Backup f) (f_Actor f) t).
  - called (CRequestRecovery (f_Backup f) (f_Actor f) (f_Reason f) t).
  - called (CQueueReport ("mail-test:" ++ pretty (unix t)) "OnlyBackup: mail di prova" "La configurazione mail di OnlyBackup funziona." t).
Qed.
Lemma kept_admin r : kept (serveAdmin decode env fate_of clock r).
Proof.
  unfold serveAdmin. destruct (match rq_Method r with GET => _ | _ => None end) as [m|] eqn:E.
  - destruct (rq_Method r); try done. apply kept_route in E; [done|]. unfold admin_reads. kept_tac.
  - destruct (rq_Method r); [apply kept_ret| |apply kept_ret]. destruct (negb (rq_Peer r)); [apply kept_ret|].
    apply kept_now. intros t. apply kept_dispatch; [apply kept_admin_commands|apply kept_ret].
Qed.

Lemma kept_maintenance_commands r t : Forall (fun entry => kept (snd entry)) (maintenance_commands decode env fate_of r t).
Proof.
  unfold maintenance_commands, maintenance_checks, maintenance_requests. cbn [app]. kept_tac.
  - called (CStartCheck t).
  - called (CPlanCheck (f_ID f) t).
  - called (CCompleteCheck (f_ID f) (outcome_of (f_Outcome f)) (f_Summary f) (f_State f) (f_Revision f) (f_Findings f) t).
  - called (CFailCheck (f_ID f) (f_Summary f) t).
  - called (CReleaseLease (lease_of f)).
  - called (CTryClear (f_ID f) t).
  - called (CRequestPurge (f_Backup f) (f_Origin f) (f_Actor f) (f_Reason f) t).
  - called (CRequestQuarantine (f_Backup f) (f_Origin f) (f_Actor f) (f_Reason f) t).
  - called (COpenAnomalyAt (f_StableKey (f_Finding f)) (f_Kind (f_Finding f)) (f_KeyID (f_Finding f)) (f_BackupID (f_Finding f))
      (f_Detail (f_Finding f)) (if f_At (f_Finding f) =? zero_time then t else f_At (f_Finding f)) t).
  - called (CResolveAnomaly (f_StableID f) t).
  - called (CSaveModel (f_Key f) (f_Revision f) (f_Timezone f) (f_Days f) (f_Model f) (f_Reliable f) (f_Review f) t).
  - called (CSetCheckState (f_State f) (f_Revision f) t).
  - called (CQueuePeriodicReport (f_StableID f) (f_Subject f) (f_Text f) t).
  - called (CQueueReport (f_StableID f) (f_Subject f) (f_Text f) t).
  - called (CConfirmMail (f_ID f) (f_Error f) (f_ConfigVersion f) t).
Qed.
Lemma kept_maintenance r : kept (serveMaintenance decode env fate_of clock tokens r).
Proof.
  unfold serveMaintenance. destruct (match rq_Method r with GET => _ | _ => None end) as [m|] eqn:E.
  - destruct (rq_Method r); try done. apply kept_route in E; [done|]. unfold maintenance_reads. kept_tac.
    + unfold maintenance_page. kept_tac.
    + unfold maintenance_snapshot. kept_tac. apply kept_all_ok. intros k. apply kept_now. kept_tac.
    + apply kept_now. kept_tac.
  - destruct (rq_Method r); [apply kept_ret| |apply kept_ret].
    destruct (route (rq_Path r) (maintenance_handlers _ _ _ _ _ r)) as [m|] eqn:Eh.
    + apply kept_route in Eh; [done|]. unfold maintenance_handlers. kept_tac.
      * by apply triple_lease.
      * eapply triple_weaken; [by apply (triple_authorize linked rows)|done|by intros a s []|done].
      * by apply triple_confirm.
      * by apply (triple_validate_keeps linked rows).
      * by apply triple_handle_reconcile.
    + apply kept_now. intros t. apply kept_dispatch; [apply kept_maintenance_commands|apply kept_ret].
Qed.
Lemma triple_handler admin r : kept (handler decode env fate_of clock tokens admin r).
Proof. unfold handler. destruct (negb _); [apply kept_ret|]. destruct admin; [apply kept_admin|apply kept_maintenance]. Qed.
End serving.

(** ** Consent *)
(** What the administrator must confirm, by command. *)
Definition confirmation_of (path : string) (f : fields) : option string :=
  snd <$> find_where (fun entry => String.eqb (fst entry) path)
    [ ("/v1/automation/setup", ConfirmAutomationSetup (f_Mode f)); ("/v1/automation/enable", "ABILITA");
      ("/v1/retention/pause", "SOSPENDI"); ("/v1/retention/resume", "RIPRENDI");
      ("/v1/retention/resume-when-ready", "PRENOTA") ]%string.

(** C24. The writer itself enforces consent: on the administrator's socket a request
    of another protocol version, a command whose sender is unknown, and a command
    that configures, enables, pauses or resumes the retention without the exact
    confirmation text are refused, and change neither catalogue nor files. *)
Theorem consent_enforced `{Platform} decode env fate_of clock tokens r n s :
  let run := handler decode env fate_of clock tokens true r (n, s) in
  (rq_Protocol r <> ProtocolVersion -> exists reply, run = (Some reply, (n, s)) /\ re_Status reply = 412) /\
  (rq_Protocol r = ProtocolVersion -> rq_Method r = POST -> rq_Peer r = false ->
     exists reply, run = (Some reply, (n, s)) /\ re_Status reply = 403) /\
  (forall f text, rq_Protocol r = ProtocolVersion -> rq_Method r = POST -> decode (rq_Path r) (rq_Body r) = Ok f ->
     confirmation_of (rq_Path r) f = Some text -> f_Confirmation f <> text ->
     exists reply n', run = (Some reply, (n', s)) /\ (re_Status reply = 403 \/ re_Status reply = 409)).
Proof.
  cbv zeta. unfold handler. split; [|split].
  - intros Hv%String.eqb_neq. rewrite Hv. by eexists.
  - intros -> Hm Hp. cbn [String.eqb]. unfold serveAdmin. rewrite Hm, Hp. by eexists.
  - intros f text -> Hm Hdec Hconf Hne%String.eqb_neq. unfold serveAdmin. rewrite Hm. cbn.
    destruct (rq_Peer r); [|eexists _, n; by auto]. cbn.
    unfold confirmation_of in Hconf. destruct (find_where _ _) as [[path expected]|] eqn:E; [|done]. cbn in Hconf. injection Hconf as ->.
    apply find_some in E as [Hin Hpath%String.eqb_eq]. cbn in Hpath. subst path.
    assert (forall expected m, expected = text -> exists reply n', (requireAdminConfirmation f expected m) ((n + 1)%nat, s) = (Some reply, (n', s)) /\
      (re_Status reply = 403 \/ re_Status reply = 409)) as Href.
    { intros expected m ->. unfold requireAdminConfirmation. rewrite Hne. eexists _, _. by auto. }
    cbn in Hin. unfold mbind, io_bind, Io.now, dispatch, route.
    repeat destruct Hin as [[= Hp Ht]|Hin]; [..|done]; rewrite <- Hp in Hdec |- *; cbn; unfold with_body; rewrite <- Hp, Hdec; by apply Href.
Qed.

Module Consent.
Import Scenario.
#[local] Existing Instance platform.

Definition nothing : finding := Finding "" "" "" "" "" 0.
Definition unconfirmed : fields :=
  Fields 0 "" 0 0 "" false "" "" "" "" 0 [] "" "" "" "manutenzione" "" 0 nothing "" "" false false "" "" "" false 0
    (MailSettings 0 "" 0 false "" "") "" "si" 0 0 [].
Definition decode (path body : string) : result err fields := Ok unconfirmed.
Definition resume : request := HttpRequest "1" POST "/v1/retention/resume" (fun _ => ""%string) true "{}".
Definition empty : server := Server initial_db ∅ ∅ ∅ 0.

Lemma consent_enforced_witness :
  exists reply n', handler decode alone faultless (fun _ => day 0) (fun _ => ticket) true resume (0%nat, empty) = (Some reply, (n', empty)) /\
    (re_Status reply = 403 \/ re_Status reply = 409).
Proof.
  destruct (consent_enforced decode alone faultless (fun _ => day 0) (fun _ => ticket) resume 0%nat empty) as (_ & _ & Hc).
  apply (Hc unconfirmed "RIPRENDI"%string); [reflexivity..|discriminate].
Defined.
End Consent.
