(* ===== verification/Files.v ===== *)
(** The file system of a computer that runs the client or the recovery tool: names
    that share inodes ([os.Link]), the calls of [os] the code makes, and [io.Copy].
    Open files keep their inode whatever becomes of the name. *)
From S2P Require Import Prelude GoTime GoString Model Catalog Io Writer.

Record fs : Type := Fs { fs_names : gmap string Z; fs_inodes : gmap Z entry }.
#[global] Instance eta_fs : Settable fs := fun s => Fs (fs_names s) (fs_inodes s).

(** ** Calls *)
Definition inode_of (s : fs) (path : string) : result failure (Z * entry) :=
  match fs_names s !! path with
  | Some i => match fs_inodes s !! i with Some e => Ok (i, e) | None => Err (OsError ENOENT) end
  | None => Err (OsError ENOENT)
  end.
Definition lstat (path : string) (s : fs) : result failure (Z * entry) * fs := (inode_of s path, s).
Definition open_file (path : string) (s : fs) : result failure Z * fs :=
  (match inode_of s path with Ok (i, _) => Ok i | Err e => Err e end, s).
Definition fstat (fd : Z) (s : fs) : result failure entry * fs :=
  (match fs_inodes s !! fd with Some e => Ok e | None => Err (OsError ENOENT) end, s).
Definition entry_size (e : entry) : Z := match e with Regular content => len content | _ => 0 end.
Definition is_regular (e : entry) : bool := match e with Regular _ => true | _ => false end.

(** [File.Read] at an offset; the empty string is the end of the file. *)
Definition read_at (fd off room : Z) (s : fs) : result failure string * fs :=
  (match fs_inodes s !! fd with
   | Some (Regular content) => Ok (str_take room (str_drop off content))
   | _ => Err (OsError (EOTHER "not a regular file"))
   end, s).

(** The whole of an open file. *)
Definition read_all (fd : Z) (s : fs) : result failure string * fs :=
  (match fs_inodes s !! fd with
   | Some (Regular content) => Ok content
   | _ => Err (OsError (EOTHER "not a regular file"))
   end, s).

Definition new_inode (s : fs) : Z := fresh (dom (fs_inodes s) ∪ map_img (fs_names s) : gset Z).
Definition create_at (path : string) (s : fs) : fs :=
  let i := new_inode s in s <| fs_names ::= <[path := i]> |> <| fs_inodes ::= <[i := Regular ""]> |>.
(** [os.CreateTemp] tries random names, [candidates], until one is free. *)
Definition create_temp (candidates : list string) (s : fs) : result failure (string * Z) * fs :=
  match filter (fun path => fs_names s !! path = None) candidates with
  | path :: _ => (Ok (path, new_inode s), create_at path s)
  | [] => (Err (OsError EEXIST), s)
  end.
(** [os.OpenFile] with [O_CREATE|O_EXCL]. *)
Definition create_exclusive (path : string) (s : fs) : result failure Z * fs :=
  match fs_names s !! path with
  | Some _ => (Err (OsError EEXIST), s)
  | None => (Ok (new_inode s), create_at path s)
  end.
(** [os.Link] *)
Definition link_path (old new : string) (s : fs) : result failure unit * fs :=
  match fs_names s !! old, fs_names s !! new with
  | None, _ => (Err (OsError ENOENT), s)
  | _, Some _ => (Err (OsError EEXIST), s)
  | Some i, None => (Ok tt, s <| fs_names ::= <[new := i]> |>)
  end.
(** [os.Remove] *)
Definition remove_path (path : string) (s : fs) : result failure unit * fs :=
  match inode_of s path with
  | Err e => (Err e, s)
  | Ok (_, Dir false) => (Err (OsError (EOTHER "directory not empty")), s)
  | Ok _ => (Ok tt, s <| fs_names ::= delete path |>)
  end.
Definition append_inode (fd : Z) (data : string) (s : fs) : fs :=
  match fs_inodes s !! fd with
  | Some (Regular content) => s <| fs_inodes ::= <[fd := Regular (content ++ data)]> |>
  | _ => s
  end.
(** Permissions, synchronization, seeking, closing. *)
Definition unseen (s : fs) : result failure unit * fs := (Ok tt, s).

Section files.
Context (env : nat -> fs -> fs) (fate_of : nat -> fate) (short : nat -> option Z).
Abbreviation io := (Io.io fs).
Abbreviation act := (Io.act env fate_of).

(** [File.Write] to a file of its own, which it extends. *)
Definition write_inode (fd : Z) (chunk : string) : io (Z * option failure) := fun '(n, s) =>
  let s := env n s in
  let written := match short n with Some k => Z.max 0 (Z.min k (len chunk)) | None => len chunk end in
  let s' := append_inode fd (str_take written chunk) s in
  match fate_of n with
  | Works => (Some (written, None), ((n + 1)%nat, s'))
  | Fails f => (Some (0, Some (fault_error f)), ((n + 1)%nat, s))
  | FailsLate f => (Some (written, Some (fault_error f)), ((n + 1)%nat, s'))
  | Stops => (None, ((n + 1)%nat, s))
  | StopsLate => (None, ((n + 1)%nat, s'))
  end.

(** ** [io.Copy]

    A loop that goes on is a run that does not end. *)
Definition goes_on {A} : io A := fun w => (None, w).
Definition copyBuffer : Z := 32768.
Definition room_of (limit : option Z) : Z := match limit with Some N => Z.min N copyBuffer | None => copyBuffer end.
Definition spent (limit : option Z) : bool := match limit with Some N => N <=? 0 | None => false end.

(** From the open file [fd], by an [io.LimitReader] if there is a limit, to a writer
    of state [W]; the context is asked before each read.  It yields the bytes
    copied, the state of the writer and the error. *)
Fixpoint copy {W} (write : W -> string -> io (W * option failure)) (fd : Z) (turns : nat) (off : Z) (limit : option Z)
    (n : Z) (w : W) : io (Z * W * option failure) :=
  match turns with
  | O => goes_on
  | S turns' =>
    if spent limit then mret (n, w, None)
    else
      chunk ← act (read_at fd off (room_of limit));
      match chunk with
      | Err e => mret (n, w, Some e)
      | Ok chunk =>
        if len chunk =? 0 then mret (n, w, None)
        else
          r ← write w chunk;
          let '(w', e) := r in
          match e with
          | Some e => mret (n, w', Some e)
          | None => copy write fd turns' (off + len chunk) ((fun N => N - len chunk) <$> limit) (n + len chunk) w'
          end
      end
  end.

(** From a reader of the library to an open file. *)
Fixpoint copy_reader (fd : Z) (turns : nat) (body : reader) : io (option failure) :=
  match turns with
  | O => goes_on
  | S turns' =>
    live ← act unseen;
    match live with
    | Err e => mret (Some e)
    | Ok _ =>
      let '(chunk, e, body') := read body copyBuffer in
      w ← (if len chunk =? 0 then mret (0, None) else write_inode fd chunk);
      let '(written, writeErr) := w in
      match writeErr with
      | Some e => mret (Some e)
      | None =>
        if negb (written =? len chunk) then mret (Some ErrShortWrite)
        else match e with
             | Some EOF => mret None
             | Some _ => mret (Some (Failed (ErrText "read error")))
             | None => copy_reader fd turns' body'
             end
      end
    end
  end.
End files.
