(* ===== verification/Cryptfile.v ===== *)
(** Encryption of a file before it is sent, verification and recovery of what was
    archived ([src/internal/cryptfile/cryptfile.go], [open_linux.go]).  The texts that
    [%w] puts before the error of a call are left out. *)
From S2P Require Import Prelude GoTime GoString Model Catalog Io Writer Files.

(** ** The library [filippo.io/age]

    [age_Encrypt] writes a header to the destination and yields a stream; [age_Write]
    and [age_Close] may write more.  [age_Decrypt] reads the whole file and yields a
    reader of the contents. *)
Class Age : Type := {
  age_recipient : Type;
  age_identity : Type;
  age_stream : Type;
  ParseX25519Recipient : string -> result err age_recipient;
  ParseIdentities : string -> result err (list age_identity);
  GenerateX25519Identity : string -> string * string;    (* from randomness: the identity and its recipient *)
  age_Encrypt : string -> age_recipient -> list string * age_stream;
  age_Write : age_stream -> string -> list string * age_stream;
  age_Close : age_stream -> list string;
  age_Decrypt : list age_identity -> string -> result err reader }.

Definition ErrCiphertextLimit : failure := Failed (ErrText "il file cifrato supera il limite temporaneo configurato").
Definition DefaultMaxCiphertextBytes : Z := 2^40.
Definition maxIdentityBytes : Z := 65536.
Definition maxArchivedBytes : Z := 2^60.
Definition failed (message : string) : failure := Failed (ErrText message).

Record prepared : Type := Prepared { pr_File : Z; pr_Path : string; pr_Size : Z; pr_SHA256 : string }.

Definition validateExpected (size : Z) (digest : string) : result failure unit :=
  if (size <=? 0) || (maxArchivedBytes <? size) then Err (failed "dimensione archiviata non valida")
  else if negb (ValidDigest digest) then Err (failed "SHA-256 archiviato non valido")
  else Ok tt.

Section cryptfile.
Context `{Platform, Age}.
Context (env : nat -> fs -> fs) (fate_of : nat -> fate) (short : nat -> option Z) (turns : nat).
Abbreviation io := (Io.io fs).
Abbreviation act := (Io.act env fate_of).

(** ** Opening *)
Definition OpenRegular (path : string) : io (result failure Z) :=
  before ←? act (lstat path);
  if negb (is_regular (snd before)) then mret (Err (failed "richiesto un file regolare non simbolico"))
  else
    fd ←? act (open_file path);
    after ←? act (fstat fd);
    if negb (is_regular after) || negb (fst before =? fd)
    then mret (Err (failed "il file e cambiato durante l'apertura"))
    else mret (Ok fd).

(** ** Encryption

    [cappedWriter] over [io.MultiWriter(temp, hash)]: the bytes it may still take and
    those that went through the hash. *)
Record sink : Type := Sink { k_remaining : Z; k_hashed : string }.
Definition capped_write (fd : Z) (k : sink) (p : string) : io (sink * option failure) :=
  if k_remaining k <? len p then mret (k, Some ErrCiphertextLimit)
  else
    w ← write_inode env fate_of short fd p;
    let '(n, e) := w in
    match e with
    | Some e => mret (Sink (k_remaining k - n) (k_hashed k), Some e)
    | None =>
      if negb (n =? len p) then mret (Sink (k_remaining k - n) (k_hashed k), Some ErrShortWrite)
      else mret (Sink (k_remaining k - n) (k_hashed k ++ p), None)
    end.

(** What the library writes, until a write fails. *)
Fixpoint write_each (fd : Z) (k : sink) (ps : list string) : io (sink * option failure) :=
  match ps with
  | [] => mret (k, None)
  | p :: ps' =>
    w ← capped_write fd k p;
    let '(k, e) := w in
    match e with Some e => mret (k, Some e) | None => write_each fd k ps' end
  end.
Definition encrypt_write (fd : Z) (w : age_stream * sink) (chunk : string) : io (age_stream * sink * option failure) :=
  let '(ps, stream) := age_Write (fst w) chunk in
  r ← write_each fd (snd w) ps;
  mret (stream, fst r, snd r).

(** The part that a deferred [Remove] guards. *)
Definition encrypt_into (random : string) (recipient : age_recipient) (source fd : Z) (path : string) (maxBytes : Z)
    : io (result failure prepared) :=
  _ ←? act unseen;                                            (* Chmod(0600) *)
  let '(header, stream) := age_Encrypt random recipient in
  h ← write_each fd (Sink maxBytes "") header;
  match snd h with
  | Some e => mret (Err e)
  | None =>
    c ← copy env fate_of (encrypt_write fd) source turns 0 None 0 (stream, fst h);
    let '(_, (stream, k), copyErr) := c in
    cl ← write_each fd k (age_Close stream);
    match copyErr, snd cl with
    | Some e, _ | None, Some e => mret (Err e)
    | None, None =>
      _ ←? act unseen;                                        (* Sync *)
      info ←? act (fstat fd);
      if (entry_size info <=? 0) || (maxBytes <? entry_size info) then mret (Err ErrCiphertextLimit)
      else
        _ ←? act unseen;                                      (* Seek *)
        mret (Ok (Prepared fd path (entry_size info) (sha256_hex (k_hashed (fst cl)))))
    end
  end.

(** [Prepared.Remove] *)
Definition Prepared_Remove (path : string) : io unit := _ ← act unseen; _ ← act (remove_path path); mret tt.

Definition EncryptToTemp (random : string) (candidates : list string) (sourcePath recipientText : string) (maxBytes : Z)
    : io (result failure prepared) :=
  if maxBytes <=? 0 then mret (Err (failed "il limite del temporaneo cifrato deve essere positivo"))
  else
    match ParseX25519Recipient (trim_space recipientText) with
    | Err e => mret (Err (Failed (ErrWrap e "destinatario age non valido")))
    | Ok recipient =>
      source ←? OpenRegular sourcePath;
      info ←? act (fstat source);
      if entry_size info <=? 0
      then mret (Err (failed "richiesto un file regolare non vuoto; streaming non ancora disponibile"))
      else
        temp ←? act (create_temp candidates);
        r ← encrypt_into random recipient source (snd temp) (fst temp) maxBytes;
        match r with
        | Ok p => mret (Ok p)
        | Err e => _ ← Prepared_Remove (fst temp); mret (Err e)
        end
    end.

(** ** Identities *)
Definition ReadIdentities (path : string) : io (result failure (list age_identity)) :=
  fd ←? OpenRegular path;
  info ←? act (fstat fd);
  _ ←? act unseen;                                            (* CheckPrivate *)
  if maxIdentityBytes <? entry_size info then mret (Err (failed "file identita troppo grande"))
  else
    text ←? act (read_at fd 0 (maxIdentityBytes + 1));
    match ParseIdentities text with
    | Err e => mret (Err (Failed (ErrWrap e "file identita age non valido")))
    | Ok [] => mret (Err (failed "il file non contiene identita age"))
    | Ok identities => mret (Ok identities)
    end.

(** The deferred removal is not needed after a success. *)
Definition GenerateIdentity (random path : string) : io (result failure string) :=
  let '(identity, recipient) := GenerateX25519Identity random in
  fd ←? act (create_exclusive path);
  r ← (_ ←? act unseen;                                       (* RestrictPrivate *)
       w ← write_inode env fate_of short fd ("# created by onlybackup-recover" ++ newline ++ identity ++ newline);
       match snd w with
       | Some e => mret (Err e)
       | None => _ ←? act unseen; _ ←? act unseen; act unseen (* Sync, Close, syncDir *)
       end);
  match r with
  | Err e => _ ← act (remove_path path); mret (Err e)
  | Ok _ => mret (Ok recipient)
  end.

(** ** Verification and recovery *)
Definition hash_write (hashed chunk : string) : io (string * option failure) := mret ((hashed ++ chunk)%string, None).
Definition tampered : failure := failed "verifica integrita del contenuto archiviato fallita".

Definition Verify (sourcePath : string) (expectedSize : Z) (expectedSHA256 : string) : io (result failure unit) :=
  match validateExpected expectedSize expectedSHA256 with
  | Err e => mret (Err e)
  | Ok _ =>
    f ←? OpenRegular sourcePath;
    c ← copy env fate_of hash_write f turns 0 (Some (expectedSize + 1)) 0 ""%string;
    let '(n, hashed, copyErr) := c in
    match copyErr with
    | Some e => mret (Err e)
    | None =>
      if negb (n =? expectedSize) || negb (String.eqb (sha256_hex hashed) expectedSHA256) then mret (Err tampered) else mret (Ok tt)
    end
  end.

(** [io.MultiWriter(verified, hash)] *)
Definition verified_write (fd : Z) (hashed chunk : string) : io (string * option failure) :=
  w ← write_inode env fate_of short fd chunk;
  let '(n, e) := w in
  match e with
  | Some e => mret (hashed, Some e)
  | None => if negb (n =? len chunk) then mret (hashed, Some ErrShortWrite) else mret ((hashed ++ chunk)%string, None)
  end.

Definition publish (stagedPath outputPath : string) : io (result failure unit) :=
  l ← act (link_path stagedPath outputPath);
  match l with
  | Err (OsError EEXIST) => mret (Err (failed "il file di destinazione esiste gia"))
  | Err e => mret (Err e)
  | Ok _ => act unseen                                        (* syncDir *)
  end.

(** A temporary file, closed and removed at the end. *)
Definition with_temp {A} (candidates : list string) (body : string -> Z -> io (result failure A)) : io (result failure A) :=
  temp ←? act (create_temp candidates);
  r ← body (fst temp) (snd temp);
  _ ← act (remove_path (fst temp));
  mret r.

(** The archived bytes, copied to a file of its own and verified. *)
Definition copy_verified (sourcePath : string) (verified expectedSize : Z) (expectedSHA256 : string) : io (result failure unit) :=
  _ ←? act unseen;                                            (* RestrictPrivate *)
  source ←? OpenRegular sourcePath;
  c ← copy env fate_of (verified_write verified) source turns 0 (Some (expectedSize + 1)) 0 ""%string;
  let '(n, hashed, copyErr) := c in
  closeErr ← act unseen;
  match copyErr, closeErr with
  | Some e, _ | None, Err e => mret (Err e)
  | None, Ok _ =>
    if negb (n =? expectedSize) || negb (String.eqb (sha256_hex hashed) expectedSHA256) then mret (Err tampered)
    else _ ←? act unseen; act unseen                          (* Sync, Seek *)
  end.

(** The contents, decrypted to a second file and published. *)
Definition decrypt_to (identities : list age_identity) (verified plain : Z) (plainPath outputPath : string) : io (result failure unit) :=
  _ ←? act unseen;                                            (* RestrictPrivate *)
  content ←? act (read_all verified);
  match age_Decrypt identities content with
  | Err e => mret (Err (Failed (ErrWrap e "decifratura age")))
  | Ok decrypted =>
    e ← copy_reader env fate_of short plain turns decrypted;
    match e with
    | Some e => mret (Err e)
    | None => _ ←? act unseen; _ ←? act unseen; publish plainPath outputPath   (* Sync, Close *)
    end
  end.

Definition Recover (sourcePath outputPath : string) (expectedSize : Z) (expectedSHA256 identityFile : string)
    (verifiedNames plainNames : list string) : io (result failure unit) :=
  if String.eqb outputPath "" then mret (Err (failed "file di destinazione obbligatorio"))
  else
    match validateExpected expectedSize expectedSHA256 with
    | Err e => mret (Err e)
    | Ok _ =>
      identities ←? (if String.eqb identityFile "" then mret (Ok []) else ReadIdentities identityFile);
      with_temp verifiedNames (fun verifiedPath verified =>
        _ ←? copy_verified sourcePath verified expectedSize expectedSHA256;
        match identities with
        | [] => _ ←? act unseen; publish verifiedPath outputPath               (* Close *)
        | _ => with_temp plainNames (fun plainPath plain => decrypt_to identities verified plain plainPath outputPath)
        end)
    end.
End cryptfile.
