(* ===== verification/Encryption.v ===== *)
(** What encryption and recovery leave on the disk, whatever fails
    ([src/internal/cryptfile]). *)
From S2P Require Import Prelude GoTime GoString Model Catalog Io Writer Custody Reception Accepting Files Cryptfile.

(** ** Names and inodes *)
Definition named (path : string) (i : Z) (e : entry) (s : fs) : Prop :=
  fs_names s !! path = Some i /\ fs_inodes s !! i = Some e.
Definition holds_file (path content : string) (s : fs) : Prop := exists i, named path i (Regular content) s.

(** The others leave these files alone. *)
Class Apart (paths : list string) (env : nat -> fs -> fs) : Prop :=
  apart : forall path i e n s, In path paths -> named path i e s -> named path i e (env n s).
#[export] Instance apart_alone paths : Apart paths alone.
Proof. by intros path i e n s _ Hs. Qed.

Lemma new_inode_fresh s : fs_inodes s !! new_inode s = None /\ forall path, fs_names s !! path <> Some (new_inode s).
Proof.
  assert (new_inode s ∉ (dom (fs_inodes s) ∪ map_img (fs_names s) : gset Z)) as Hn by (unfold new_inode; apply is_fresh).
  split; [apply not_elem_of_dom|intros path Hp; eapply (elem_of_map_img_2 (SA := gset Z)) in Hp]; set_solver.
Qed.

Lemma create_at_named path s : named path (new_inode s) (Regular "") (create_at path s).
Proof. split; apply lookup_insert_eq. Qed.
Lemma create_at_other path s path' i e : fs_names s !! path = None -> named path' i e s ->
  path' <> path /\ i <> new_inode s /\ named path' i e (create_at path s).
Proof.
  intros Hfree [Hp Hi]. destruct (new_inode_fresh s) as [Hn Hns].
  assert (path' <> path) as H1 by congruence. assert (i <> new_inode s) as H2 by (intros ->; by destruct (Hns path')).
  split; [done|]. split; [done|]. by split; cbn; rewrite lookup_insert_ne by done.
Qed.
Lemma create_temp_cases candidates s :
  match create_temp candidates s with
  | (Ok (path, fd), s') => In path candidates /\ fs_names s !! path = None /\ fd = new_inode s /\ s' = create_at path s
  | (Err _, s') => s' = s
  end.
Proof.
  unfold create_temp. destruct (filter _ candidates) as [|path rest] eqn:E; [done|].
  assert (path ∈ filter (fun p => fs_names s !! p = None) candidates) as Hp by (rewrite E; set_solver).
  apply list_elem_of_filter in Hp as [Hfree Hin]. split; [by apply list_elem_of_In|done].
Qed.
Lemma append_named fd data path content s : named path fd (Regular content) s ->
  named path fd (Regular (content ++ data)) (append_inode fd data s).
Proof. intros [Hp Hi]. unfold append_inode. rewrite Hi. split; [done|apply lookup_insert_eq]. Qed.
Lemma append_other fd data path i e s : i <> fd -> named path i e s -> named path i e (append_inode fd data s).
Proof.
  intros Hne [Hp Hi]. unfold append_inode. destruct (fs_inodes s !! fd) as [[]|]; try done.
  split; [done|]. cbn. by rewrite lookup_insert_ne.
Qed.
Lemma remove_other path path' i e s : path' <> path -> named path' i e s -> named path' i e (snd (remove_path path s)).
Proof.
  intros Hne [Hp Hi]. unfold remove_path. destruct (inode_of s path) as [[? [|[]|]]|]; try done; (split; [|done]); cbn;
    by rewrite lookup_delete_ne.
Qed.
Lemma link_other old new path i e s : named path i e s -> named path i e (snd (link_path old new s)).
Proof.
  intros [Hp Hi]. unfold link_path. destruct (fs_names s !! old), (fs_names s !! new) eqn:E; try done.
  split; [|done]. cbn. rewrite lookup_insert_ne; congruence.
Qed.

(** ** What the calls keep

    [N]: a property of the files that others keep, and that writing to the inodes in
    [other] does not touch. *)
Section still.
Context `{Platform, Age} (env : nat -> fs -> fs) (fate_of : nat -> fate) (short : nat -> option Z).
Context (N : fs -> Prop) `{!Stable env N} (other : Z -> Prop).
Context (N_append : forall fd data s, other fd -> N s -> N (append_inode fd data s)).
Abbreviation still m := (triple N m (fun _ => N) N).

Lemma still_act {A} (effect : fs -> result failure A * fs) : (forall s, N s -> N (snd (effect s))) -> still (act env fate_of effect).
Proof. by apply triple_act_inv. Qed.
Lemma still_look {A} (effect : fs -> result failure A * fs) : (forall s, snd (effect s) = s) -> still (act env fate_of effect).
Proof. intros He. apply still_act. intros s. by rewrite He. Qed.
Lemma still_ret {A} (a : A) : still (mret a).
Proof. by apply triple_ret. Qed.
Lemma still_try {A B} (m : io fs (result failure A)) (k : A -> io fs (result failure B)) :
  still m -> (forall a, still (k a)) -> still (x ←? m; k x).
Proof. intros Hm Hk. by apply (triple_try _ _ _ _ (fun _ => N)). Qed.
Lemma still_then {A B} (m : io fs A) (k : A -> io fs B) : still m -> (forall a, still (k a)) -> still (m ≫= k).
Proof. intros Hm Hk. by eapply triple_bind. Qed.

(** Step by step; [known] proves the calls it knows. *)
Ltac keeping_by known := repeat first
  [ known | apply still_ret | apply still_look; reflexivity | assumption
  | apply still_try; [|intros ?] | apply still_then; [|intros ?] | progress cbv beta
  | match goal with |- context [match ?x with _ => _ end] => destruct x end ].

Lemma still_write fd chunk : other fd -> still (write_inode env fate_of short fd chunk).
Proof.
  intros Hne n s Hs. apply (stable (P := N) env n) in Hs. unfold write_inode. cbv zeta. assert (forall data, N (append_inode fd data (env n s))) by (intros; by apply N_append).
  by destruct (fate_of n).
Qed.
Lemma still_copy {W} (write : W -> string -> io fs (W * option failure)) fd fuel : (forall w chunk, still (write w chunk)) ->
  forall off limit n w, still (copy env fate_of write fd fuel off limit n w).
Proof.
  intros Hw. induction fuel as [|fuel IH]; intros off limit n w; cbn [copy]; [by intros k s Hs|].
  destruct (spent limit); [apply still_ret|]. keeping_by ltac:(apply IH || apply Hw).
Qed.
Lemma still_copy_reader fd fuel : other fd -> forall body, still (copy_reader env fate_of short fd fuel body).
Proof.
  intros Hne. induction fuel as [|fuel IH]; intros body; cbn [copy_reader]; [by intros k s Hs|].
  keeping_by ltac:(apply IH || by apply still_write).
Qed.
Lemma still_open p : still (OpenRegular env fate_of p).
Proof. unfold OpenRegular. keeping_by fail. Qed.
Lemma still_identities p : still (ReadIdentities env fate_of p).
Proof. unfold ReadIdentities. keeping_by ltac:(apply still_open). Qed.
Lemma still_copy_verified turns source fd size digest : other fd -> still (copy_verified env fate_of short turns source fd size digest).
Proof.
  intros Hfd. unfold copy_verified. keeping_by ltac:(apply still_open || apply still_copy). intros hashed chunk. unfold verified_write.
  keeping_by ltac:(by apply still_write).
Qed.
End still.

(** ** Nothing else is touched

    Whatever fails, and wherever the process stops, a file that was there stays as
    it was. *)
Section untouched.
Context `{Platform, Age} (env : nat -> fs -> fs) (fate_of : nat -> fate) (short : nat -> option Z) (turns : nat).
Context (path : string) (i : Z) (e : entry) `{!Apart [path] env}.
Abbreviation N := (named path i e).
Abbreviation keeps_file m := (triple N m (fun _ => N) N).

#[local] Instance stable_named : Stable env N.
Proof. intros n s Hs. apply apart; [by left|done]. Qed.
Lemma named_append fd data s : i <> fd -> N s -> N (append_inode fd data s).
Proof. apply append_other. Qed.
Lemma keeps_act {A} (effect : fs -> result failure A * fs) : (forall s, N s -> N (snd (effect s))) -> keeps_file (act env fate_of effect).
Proof. by apply still_act, stable_named. Qed.
Lemma keeps_look {A} (effect : fs -> result failure A * fs) : (forall s, snd (effect s) = s) -> keeps_file (act env fate_of effect).
Proof. by apply still_look, stable_named. Qed.
Lemma keeps_ret {A} (a : A) : keeps_file (mret a).
Proof. apply still_ret. Qed.
Lemma keeps_try {A B} (m : io fs (result failure A)) (k : A -> io fs (result failure B)) :
  keeps_file m -> (forall a, keeps_file (k a)) -> keeps_file (x ←? m; k x).
Proof. apply still_try. Qed.
Lemma keeps_then {A B} (m : io fs A) (k : A -> io fs B) : keeps_file m -> (forall a, keeps_file (k a)) -> keeps_file (m ≫= k).
Proof. apply still_then. Qed.

(** Step by step; [known] proves the calls it knows. *)
Ltac keeping_by known := repeat first
  [ known | apply keeps_ret | apply keeps_look; reflexivity | assumption
  | apply keeps_try; [|intros ?] | apply keeps_then; [|intros ?] | progress cbv beta
  | match goal with |- context [match ?x with _ => _ end] => destruct x end ].
Ltac keeping := keeping_by fail.

Lemma keeps_write fd chunk : i <> fd -> keeps_file (write_inode env fate_of short fd chunk).
Proof. apply (still_write env fate_of short N _ named_append). Qed.
Lemma keeps_copy {W} (write : W -> string -> io fs (W * option failure)) fd fuel : (forall w chunk, keeps_file (write w chunk)) ->
  forall off limit n w, keeps_file (copy env fate_of write fd fuel off limit n w).
Proof. by apply still_copy, stable_named. Qed.
Lemma keeps_copy_reader fd fuel : i <> fd -> forall body, keeps_file (copy_reader env fate_of short fd fuel body).
Proof. apply (still_copy_reader env fate_of short N _ named_append). Qed.
Lemma keeps_open p : keeps_file (OpenRegular env fate_of p).
Proof. apply still_open, stable_named. Qed.
Lemma keeps_identities p : keeps_file (ReadIdentities env fate_of p).
Proof. apply still_identities, stable_named. Qed.
Lemma keeps_publish p q : keeps_file (publish env fate_of p q).
Proof. unfold publish. keeping. apply keeps_act. intros s. apply link_other. Qed.

(** A temporary file is another file. *)
Lemma keeps_temp_name candidates {B} (k : string * Z -> io fs (result failure B)) :
  (forall p fd, path <> p -> i <> fd -> keeps_file (k (p, fd))) ->
  keeps_file (temp ←? act env fate_of (create_temp candidates); k temp).
Proof.
  intros Hk. apply (triple_try _ _ _ _ (fun r s => N s /\ match r with Ok (p, fd) => path <> p /\ i <> fd | Err _ => True end)).
  - apply triple_act; [apply stable_named|done|]. intros s Hs. pose proof (create_temp_cases candidates s) as Hc.
    destruct (create_temp candidates s) as [[[p fd]|er] s']; cbn.
    + destruct Hc as (_ & Hfree & -> & ->). by destruct (create_at_other p s path i e Hfree Hs) as (? & ? & ?).
    + by subst.
  - intros [p fd] n s [Hs [H1 H2]]. by apply Hk.
  - by intros er s [Hs _].
Qed.
Lemma keeps_with_temp {A} candidates (body : string -> Z -> io fs (result failure A)) :
  (forall p fd, path <> p -> i <> fd -> keeps_file (body p fd)) -> keeps_file (with_temp env fate_of candidates body).
Proof.
  intros Hb. apply keeps_temp_name. intros p fd Hp Hfd. keeping; cbn [fst snd]; [by apply Hb|].
  apply keeps_act. intros s. by apply remove_other.
Qed.

Lemma keeps_recover source output size digest identityFile verifiedNames plainNames :
  keeps_file (Recover env fate_of short turns source output size digest identityFile verifiedNames plainNames).
Proof.
  unfold Recover. destruct (String.eqb output ""); [apply keeps_ret|]. destruct (validateExpected size digest); [|apply keeps_ret].
  apply keeps_try; [destruct (String.eqb identityFile ""); [apply keeps_ret|apply keeps_identities]|]. intros identities.
  apply keeps_with_temp. intros p fd Hp Hfd. apply keeps_try.
  - by apply (still_copy_verified env fate_of short N _ named_append).
  - intros _. destruct identities; [keeping_by ltac:(apply keeps_publish)|]. apply keeps_with_temp. intros p' fd' Hp' Hfd'.
    unfold decrypt_to. keeping_by ltac:(apply keeps_publish || by apply keeps_copy_reader).
Qed.

Lemma keeps_write_each fd : i <> fd -> forall ps k, keeps_file (write_each env fate_of short fd k ps).
Proof.
  intros Hne. induction ps as [|p ps IH]; intros k; cbn [write_each]; [apply keeps_ret|].
  unfold capped_write. keeping_by ltac:(apply IH || by apply keeps_write).
Qed.
Lemma keeps_encrypt random candidates source recipientText maxBytes :
  keeps_file (EncryptToTemp env fate_of short turns random candidates source recipientText maxBytes).
Proof.
  unfold EncryptToTemp. destruct (maxBytes <=? 0); [apply keeps_ret|]. destruct (ParseX25519Recipient _); [|apply keeps_ret].
  apply keeps_try; [apply keeps_open|]. intros src. apply keeps_try; [by apply keeps_look|]. intros info.
  destruct (entry_size info <=? 0); [apply keeps_ret|]. apply keeps_temp_name. intros p fd Hp Hfd. cbn [fst snd].
  apply keeps_then.
  - unfold encrypt_into. keeping_by ltac:(apply keeps_copy || by apply keeps_write_each). intros w chunk. unfold encrypt_write.
    keeping_by ltac:(by apply keeps_write_each).
  - intros r. unfold Prepared_Remove. keeping. apply keeps_act. intros s. by apply remove_other.
Qed.
End untouched.

(** Looking at a file that stays. *)
Section looking.
Context (env : nat -> fs -> fs) (fate_of : nat -> fate) (path : string) (i : Z) (content : string) `{!Apart [path] env}.
Abbreviation N := (named path i (Regular content)).

Lemma triple_look_file {A} (effect : fs -> result failure A * fs) (Q : A -> Prop) :
  (forall s, N s -> snd (effect s) = s /\ forall a, fst (effect s) = Ok a -> Q a) ->
  triple N (act env fate_of effect) (fun r s => match r with Ok a => Q a /\ N s | Err _ => True end) (fun _ => True).
Proof.
  intros He. apply triple_act; [by apply stable_named|done|]. intros s Hs. split; [done|]. split; [|by intros f]. destruct (He s Hs) as [Ee Ha].
  rewrite Ee. destruct (fst (effect s)) as [a|]; [|done]. split; [by apply Ha|done].
Qed.
Lemma triple_open : triple N (OpenRegular env fate_of path) (fun r s => match r with Ok fd => fd = i /\ N s | Err _ => True end) (fun _ => True).
Proof.
  unfold OpenRegular. eapply triple_try; [apply (triple_look_file (lstat path) (fun _ => True)); by intros|intros before; apply triple_pure; intros _|done].
  destruct (negb _); [by apply triple_ret|].
  eapply triple_try; [apply (triple_look_file (open_file path) (fun fd => fd = i))|intros fd; apply triple_pure; intros ->|done].
  { intros s [Hn Hi]. split; [done|]. intros fd. unfold open_file, inode_of. rewrite Hn, Hi. by intros [= <-]. }
  eapply triple_try; [apply (triple_look_file (fstat i) (fun _ => True)); by intros|intros after; apply triple_pure; intros _|done].
  by destruct (_ || _); apply triple_ret.
Qed.
End looking.

(** ** Copies *)
Definition cut (limit : option Z) (data : string) : string := match limit with Some N => str_take N data | None => data end.

Lemma str_drop_drop a b s : 0 <= a -> 0 <= b -> str_drop b (str_drop a s) = str_drop (a + b) s.
Proof.
  intros Ha Hb. unfold str_drop. rewrite Z2Nat.inj_add by done. generalize (Z.to_nat a) (Z.to_nat b). clear. intros m n.
  revert s. induction m as [|m IH]; intros [|c s]; cbn [string_drop Nat.add]; try done. by destruct n.
Qed.
Lemma len_drop n s : 0 <= n -> len (str_drop n s) = Z.max 0 (len s - n).
Proof.
  intros Hn. pose proof (f_equal len (str_take_drop n s)) as E. rewrite len_app, len_take in E by done. pose proof (len_nonneg s). lia.
Qed.
Lemma room_cut limit data chunk : spent limit = false -> chunk = str_take (room_of limit) data -> len chunk <> 0 ->
  cut limit data = (chunk ++ cut ((fun N => (N - len chunk)%Z) <$> limit) (str_drop (len chunk) data))%string.
Proof.
  intros Hs -> Hne. set (room := room_of limit) in *. assert (0 <= room) as Hroom by (subst room; destruct limit; unfold room_of, copyBuffer in *; cbn in *; lia).
  assert (str_drop (len (str_take room data)) data = str_drop room data) as ->.
  { rewrite len_take by done. destruct (Z.min_spec room (len data)) as [[_ ->]|[Hl ->]]; [done|].
    rewrite !(len_zero (str_drop _ data)); [done|rewrite len_drop; lia|rewrite len_drop; pose proof (len_nonneg data); lia]. }
  destruct limit as [N|]; cbn [cut fmap option_fmap option_map]; [|by rewrite str_take_drop].
  rewrite <- str_take_app, str_take_drop; [done|]. rewrite len_take by done. subst room. cbn. lia.
Qed.

Lemma copied_empty limit data : spent limit = false -> len (str_take (room_of limit) data) = 0 ->
  str_take (room_of limit) data = cut limit data.
Proof.
  intros Hs Hl. rewrite (len_zero _ Hl). symmetry. apply len_zero. pose proof (len_nonneg data).
  destruct limit as [N|]; cbn [cut room_of spent] in *; rewrite len_take in Hl by (unfold copyBuffer; lia).
  - rewrite len_take by lia. unfold copyBuffer in Hl. lia.
  - unfold copyBuffer in Hl. lia.
Qed.

Section copies.
Context (env : nat -> fs -> fs) (fate_of : nat -> fate) {W : Type} (write : W -> string -> io fs (W * option failure)) (fd : Z).
Context (J : string -> W -> fs -> Prop) (known : option string).
Context `{!forall data w, Stable env (J data w)}.
Hypothesis Hknown : forall content, known = Some content -> forall data w s, J data w s -> fs_inodes s !! fd = Some (Regular content).

(** What was copied after [data]: all there was, if the source is known. *)
Definition gone_through (off : Z) (limit : option Z) (n : Z) (data : string) (r : Z * W * option failure) (s : fs) : Prop :=
  snd r = None -> exists rest, J (data ++ rest) (snd (fst r)) s /\ fst (fst r) = n + len rest /\
    forall content, known = Some content -> rest = cut limit (str_drop off content).

Lemma triple_copied turns :
  (forall data w chunk, triple (J data w) (write w chunk) (fun r s => snd r = None -> J (data ++ chunk)%string (fst r) s) (fun _ => True)) ->
  forall off limit n data w, 0 <= off ->
  triple (J data w) (copy env fate_of write fd turns off limit n w) (gone_through off limit n data) (fun _ => True).
Proof.
  intros Hw. induction turns as [|turns IH]; intros off limit n data w Hoff; cbn [copy]; [by intros k s Hs|].
  assert (forall rest, (forall content, known = Some content -> rest = cut limit (str_drop off content)) -> rest = ""%string ->
    triple (J data w) (mret (n, w, @None failure)) (gone_through off limit n data) (fun _ => True)) as Hend.
  { intros rest Hr ->. apply triple_ret. intros s Hs _. exists ""%string. rewrite str_app_nil_r. cbn. split; [done|]. split; [change (len "") with 0; lia|done]. }
  destruct (spent limit) eqn:Es.
  { apply (Hend ""%string); [|done]. intros content _. destruct limit as [N|]; [|done]. cbn in *. unfold str_take.
    by replace (Z.to_nat N) with 0%nat by lia. }
  eapply (triple_bind _ _ _ _ (fun r s => match r with
    | Ok chunk => J data w s /\ forall content, known = Some content -> chunk = str_take (room_of limit) (str_drop off content)
    | Err _ => True end)).
  { apply triple_act; [done..|]. intros s Hs. split; [done|]. split; [|by intros f]. cbn.
    destruct (fs_inodes s !! fd) as [[content| |]|] eqn:E; try done. split; [done|]. intros content' Hk.
    pose proof (Hknown _ Hk _ _ _ Hs) as E'. congruence. }
  intros [chunk|er]; [|apply triple_ret; by intros s _].
  apply (triple_pre _ (fun s => (forall content, known = Some content -> chunk = str_take (room_of limit) (str_drop off content)) /\ J data w s)).
  2:{ by intros s [? ?]. }
  apply triple_pure. intros Hchunk. destruct (len chunk =? 0) eqn:E0.
  { apply (Hend chunk); [|by apply len_zero; lia]. intros content Hk. specialize (Hchunk content Hk).
    subst chunk. apply copied_empty; [done|lia]. }
  eapply triple_bind; [apply Hw|]. intros [w' [er|]]; cbn [fst snd]; [apply triple_ret; by intros s _|].
  eapply triple_weaken; [apply (IH (off + len chunk) ((fun N => N - len chunk) <$> limit) (n + len chunk) (data ++ chunk)%string w')|by intros s Hs; apply Hs| |done].
  { pose proof (len_nonneg chunk). lia. }
  intros [[n' w''] er] s Hr Hnone. destruct (Hr Hnone) as (rest & Hs & Hn & Hrest). cbn [fst snd] in *.
  exists (chunk ++ rest)%string. rewrite len_app, <- str_app_assoc. split; [done|]. split; [lia|]. intros content Hk.
  rewrite (room_cut limit (str_drop off content) chunk Es (Hchunk content Hk)) by lia. f_equal.
  rewrite str_drop_drop by (pose proof (len_nonneg chunk); lia). by apply Hrest.
Qed.
End copies.

(** A file being written is its own. *)
Section own_file.
Context (env : nat -> fs -> fs) (fate_of : nat -> fate) (short : nat -> option Z) (path : string) (fd : Z).
Context (I : fs -> Prop) (HI : forall data s, I s -> I (append_inode fd data s)).
Context `{!Stable env I, !Apart [path] env}.
Definition written_so_far (data : string) (s : fs) : Prop := I s /\ named path fd (Regular data) s.
#[export] Instance stable_written data : Stable env (written_so_far data).
Proof. intros n s [Hs Hf]. split; [by apply (stable (P := I) env n)|]. by apply apart; [left|]. Qed.

Lemma triple_write_inode data chunk :
  triple (written_so_far data) (write_inode env fate_of short fd chunk)
    (fun r s => snd r = None -> written_so_far (data ++ str_take (fst r) chunk) s) (fun _ => True).
Proof.
  intros n s Hs. apply (stable (P := written_so_far data) env n) in Hs as [Hs Hf]. unfold write_inode. cbv zeta.
  destruct (fate_of n); cbn; try done. intros _. split; [by apply HI|by apply append_named].
Qed.

Lemma triple_copy_reader turns : forall body data,
  triple (written_so_far data) (copy_reader env fate_of short fd turns body)
    (fun e s => e = None -> exists rest, delivered body = (rest, EOF) /\ written_so_far (data ++ rest) s) (fun _ => True).
Proof.
  induction turns as [|turns IH]; intros body data; cbn [copy_reader]; [by intros k s Hs|].
  eapply (triple_bind _ _ _ _ (fun r => written_so_far data)).
  { by eapply triple_weaken; [apply (triple_act_inv env fate_of (written_so_far data))|..]. }
  intros [[]|er]; [|by apply triple_ret]. destruct (read body copyBuffer) as [[chunk e] body'] eqn:Er.
  apply read_delivered in Er as [Hlen Hdel]; [|done].
  eapply (triple_bind _ _ _ _ (fun r s => snd r = None -> written_so_far (data ++ str_take (fst r) chunk) s)).
  { destruct (len chunk =? 0) eqn:E0; [|apply triple_write_inode]. apply triple_ret. intros s Hs _. cbn [fst].
    by rewrite (len_zero chunk), str_app_nil_r by lia. }
  intros [written [er|]]; cbn [fst snd]; [by apply triple_ret|].
  destruct (negb (written =? len chunk)) eqn:Ew; [by apply triple_ret|]. apply negb_false_iff, Z.eqb_eq in Ew as ->.
  rewrite str_take_all by done. destruct e as [[]|]; [apply triple_ret|by apply triple_ret..|].
  - intros s Hs _. exists chunk. split; [done|by apply Hs].
  - eapply triple_weaken; [apply (IH body' (data ++ chunk)%string)|by intros s Hs; apply Hs| |done].
    intros er s Hr Hnone. destruct (Hr Hnone) as (rest & Hd & Hs). rewrite Hd in Hdel. exists (chunk ++ rest)%string. by rewrite <- str_app_assoc.
Qed.
End own_file.

(** ** Encryption *)
Fixpoint joined (chunks : list string) : string :=
  match chunks with [] => ""%string | c :: chunks' => (c ++ joined chunks')%string end.
Lemma joined_app l l' : joined (l ++ l') = (joined l ++ joined l')%string.
Proof. induction l as [|c l IH]; [done|]. cbn. by rewrite IH, str_app_assoc. Qed.

Section ciphertext.
Context `{Age}.
(** What the stream writes for some chunks, and the whole file. *)
Fixpoint age_feed (stream : age_stream) (chunks : list string) : list string * age_stream :=
  match chunks with
  | [] => ([], stream)
  | c :: chunks' =>
    let '(ps, stream') := age_Write stream c in let '(ps', stream'') := age_feed stream' chunks' in (ps ++ ps', stream'')
  end.
Definition age_file (random : string) (recipient : age_recipient) (chunks : list string) : string :=
  let '(header, stream) := age_Encrypt random recipient in
  let '(ps, stream') := age_feed stream chunks in joined (header ++ ps ++ age_Close stream').
Lemma age_feed_snoc stream chunks c :
  age_feed stream (chunks ++ [c]) =
    let '(ps, stream') := age_feed stream chunks in let '(ps', stream'') := age_Write stream' c in (ps ++ ps', stream'').
Proof.
  revert stream. induction chunks as [|c' chunks IH]; intros stream; cbn.
  - destruct (age_Write stream c). by rewrite app_nil_r.
  - destruct (age_Write stream c') as [ps stream']. rewrite IH. destruct (age_feed stream' chunks) as [ps' s2], (age_Write s2 c).
    by rewrite app_assoc.
Qed.
End ciphertext.

Section encryption.
Context `{Platform, Age} (env : nat -> fs -> fs) (fate_of : nat -> fate) (short : nat -> option Z) (turns : nat).
Context (source : string) (si : Z) (content : string) (candidates : list string) `{!Apart (source :: candidates) env}.
Abbreviation anything := (fun _ : fs => True).
Abbreviation I := (named source si (Regular content)).

#[local] Instance stable_source : Stable env I.
Proof. intros n s Hs. apply apart; [by left|done]. Qed.

Section temporary.
Context (path : string) (fd : Z) (Hpath : In path candidates) (Hfd : fd <> si).
#[local] Instance apart_temp : Apart [path] env.
Proof. intros q i e n s [<-|[]] Hs. apply apart; [by right|done]. Qed.
Abbreviation W := (written_so_far path fd I).
#[local] Instance stable_W cipher : Stable env (W cipher).
Proof. eapply (stable_written env); [apply stable_source|apply apart_temp]. Qed.

Lemma append_source data s : I s -> I (append_inode fd data s).
Proof. apply append_other. congruence. Qed.
Lemma triple_write_each ps : forall cipher k,
  triple (fun s => W cipher s /\ k_hashed k = cipher) (write_each env fate_of short fd k ps)
    (fun r s => snd r = None -> W (cipher ++ joined ps) s /\ k_hashed (fst r) = (cipher ++ joined ps)%string) anything.
Proof.
  induction ps as [|p ps IH]; intros cipher k; cbn [write_each joined].
  - apply triple_ret. intros s Hs _. cbn. by rewrite str_app_nil_r.
  - apply (triple_pre _ (fun s => k_hashed k = cipher /\ W cipher s)); [|by intros s []]. apply triple_pure. intros <-.
    eapply (triple_bind _ _ _ _ (fun r s => snd r = None -> W (k_hashed k ++ p) s /\ k_hashed (fst r) = (k_hashed k ++ p)%string)).
    { unfold capped_write. destruct (k_remaining k <? len p); [by apply triple_ret|].
      eapply triple_bind; [apply (triple_write_inode env fate_of short path fd I append_source)|].
      intros [n [er|]]; cbn [fst snd]; [by apply triple_ret|]. destruct (negb (n =? len p)) eqn:En; [by apply triple_ret|].
      apply negb_false_iff, Z.eqb_eq in En as ->. rewrite str_take_all by done. apply triple_ret. intros s Hs _. split; [by apply Hs|done]. }
    intros [k' [er|]]; [by apply triple_ret|]. rewrite <- str_app_assoc. eapply triple_pre; [apply IH|]. cbn. intros s Hs. by apply Hs.
Qed.

(** What the temporary file holds after some of the source. *)
Definition so_far (header : list string) (stream : age_stream) (data : string) (w : age_stream * sink) (s : fs) : Prop :=
  exists chunks ps, joined chunks = data /\ age_feed stream chunks = (ps, fst w) /\
    W (joined (header ++ ps)) s /\ k_hashed (snd w) = joined (header ++ ps).
#[local] Instance stable_so_far header stream data w : Stable env (so_far header stream data w).
Proof. apply stable_ex. intros chunks. apply stable_ex. intros ps.
  apply stable_and; [apply _|]. apply stable_and; [apply _|]. apply stable_and; [apply stable_W|apply _].
Qed.

Lemma triple_encrypt_write header stream data w chunk :
  triple (so_far header stream data w) (encrypt_write env fate_of short fd w chunk)
    (fun r s => snd r = None -> so_far header stream (data ++ chunk) (fst r) s) anything.
Proof.
  intros n s (chunks & ps & Hd & Hf & Hs & Hk). revert n s Hs.
  enough (triple (W (joined (header ++ ps))) (encrypt_write env fate_of short fd w chunk)
    (fun r s => snd r = None -> so_far header stream (data ++ chunk) (fst r) s) anything) as Ht by apply Ht.
  unfold encrypt_write. destruct (age_Write (fst w) chunk) as [ps' stream'] eqn:Ew.
  eapply triple_bind; [eapply triple_pre; [apply (triple_write_each ps' (joined (header ++ ps)) (snd w))|by intros s Hs]|].
  intros [k' er]. apply triple_ret. cbn. intros s Hs Hnone. destruct (Hs Hnone) as [Hs' Hk'].
  exists (chunks ++ [chunk]), (ps ++ ps'). rewrite joined_app, Hd, age_feed_snoc, Hf, Ew. cbn. rewrite str_app_nil_r, app_assoc, joined_app.
  repeat (split; [done|]). done.
Qed.

(** The finished file. *)
Definition encrypted (random : string) (recipient : age_recipient) (maxBytes : Z) (p : prepared) (s : fs) : Prop :=
  exists chunks, joined chunks = content /\ let cipher := age_file random recipient chunks in
    named (pr_Path p) (pr_File p) (Regular cipher) s /\ pr_Size p = len cipher /\ pr_SHA256 p = sha256_hex cipher /\
    0 < len cipher <= maxBytes.

(** The end of the file is written and its size taken. *)
Lemma triple_finish random recipient maxBytes before chunks k stream : joined chunks = content ->
  age_file random recipient chunks = joined (before ++ age_Close stream) ->
  triple (fun s => W (joined before) s /\ k_hashed k = joined before)
    (cl ← write_each env fate_of short fd k (age_Close stream);
     match snd cl with
     | Some e => mret (Err e)
     | None =>
       _ ←? act env fate_of unseen;
       info ←? act env fate_of (fstat fd);
       if (entry_size info <=? 0) || (maxBytes <? entry_size info) then mret (Err ErrCiphertextLimit)
       else _ ←? act env fate_of unseen; mret (Ok (Prepared fd path (entry_size info) (sha256_hex (k_hashed (fst cl)))))
     end)
    (fun r s => match r with Ok p => pr_Path p = path /\ encrypted random recipient maxBytes p s | Err _ => True end) anything.
Proof.
  intros Hc Hfile. set (cipher := age_file random recipient chunks).
  assert (triple (W cipher) (act env fate_of unseen) (fun _ => W cipher) anything) as Hun.
  { eapply triple_weaken; [by apply (triple_act_inv env fate_of (W cipher))|done..]. }
  eapply triple_bind; [apply triple_write_each|]. intros [k' [er|]]; cbn [fst snd]; [by apply triple_ret|].
  rewrite <- joined_app, <- Hfile. apply (triple_pre _ (fun s => k_hashed k' = cipher /\ W cipher s)); [|intros s Hs; by destruct (Hs eq_refl)].
  apply triple_pure. intros Hk. eapply triple_try; [exact Hun|intros []|done].
  eapply (triple_try _ _ _ _ (fun r s => match r with Ok e => e = Regular cipher /\ W cipher s | Err _ => True end)); [|intros info; apply triple_pure; intros ->|done].
  { apply triple_act; [apply stable_W|done|]. intros s Hs. split; [done|]. split; [|by intros f]. cbn. destruct Hs as [Hs [Hn Hi]]. by rewrite Hi. }
  destruct ((entry_size _ <=? 0) || _) eqn:E; [by apply triple_ret|]. apply orb_false_iff in E as [E1%Z.leb_gt E2%Z.ltb_ge]. cbn in E1, E2.
  eapply triple_try; [exact Hun|intros []|done]. apply triple_ret. intros s [_ Hs]. split; [done|]. exists chunks. rewrite Hk. cbn. done.
Qed.

Lemma triple_encrypt_into random recipient maxBytes :
  triple (W "") (encrypt_into env fate_of short turns random recipient si fd path maxBytes)
    (fun r s => match r with Ok p => pr_Path p = path /\ encrypted random recipient maxBytes p s | Err _ => True end) anything.
Proof.
  unfold encrypt_into. destruct (age_Encrypt random recipient) as [header stream] eqn:Ee.
  eapply (triple_try _ _ _ _ (fun _ => W "")); [|intros []|done].
  { eapply triple_weaken; [apply (triple_act_inv env fate_of (W "")); done|done..]. }
  eapply triple_bind; [eapply triple_pre; [apply (triple_write_each header "" (Sink maxBytes ""))|by intros s Hs]|].
  intros [k [er|]]; cbn [fst snd]; [by apply triple_ret|]. change ("" ++ joined header)%string with (joined header).
  eapply triple_bind.
  { eapply triple_pre; [apply (triple_copied env fate_of (encrypt_write env fate_of short fd) si (so_far header stream) (Some content)) with (data := ""%string); [|apply triple_encrypt_write|done]|].
    - intros c [= <-] data w s (chunks & ps & _ & _ & [[_ Hi] _] & _). exact Hi.
    - intros s Hs. destruct (Hs eq_refl) as [Hw Hk]. exists [], []. rewrite app_nil_r. done. }
  intros [[n [stream' k']] [er|]].
  { eapply (triple_bind _ _ _ _ (fun _ => anything)); [|by intros [? ?]; apply triple_ret]. intros m s _. by destruct (write_each _ _ _ _ _ _ _) as [[] []]. }
  unfold gone_through. cbn [fst snd]. intros m s Hs. destruct (Hs eq_refl) as (rest & (chunks & ps & Hj & Hf & Hw & Hk) & _ & Hrest).
  specialize (Hrest content eq_refl). cbn in Hrest. change (str_drop 0 content) with content in Hrest. rewrite Hrest in Hj. cbn [fst snd] in *.
  refine (triple_finish random recipient maxBytes (header ++ ps) chunks k' stream' Hj _ m s (conj Hw Hk)).
  unfold age_file. by rewrite Ee, Hf, app_assoc.
Qed.
End temporary.

Lemma triple_EncryptToTemp random recipientText maxBytes :
  triple I (EncryptToTemp env fate_of short turns random candidates source recipientText maxBytes)
    (fun r s => match r with
     | Ok p => exists recipient, ParseX25519Recipient (trim_space recipientText) = Ok recipient /\
         In (pr_Path p) candidates /\ pr_Path p <> source /\ encrypted random recipient maxBytes p s
     | Err _ => True end) anything.
Proof.
  unfold EncryptToTemp. destruct (maxBytes <=? 0); [by apply triple_ret|].
  destruct (ParseX25519Recipient _) as [recipient|]; [|by apply triple_ret].
  assert (Apart [source] env) as Hap by (intros q i e n s [<-|[]]; by apply apart; left).
  eapply (triple_try _ _ _ _ (fun r s => match r with Ok fd => fd = si /\ I s | Err _ => True end)); [|intros src; apply triple_pure; intros ->|done].
  { by apply triple_open. }
  eapply (triple_try _ _ _ _ (fun _ => I)); [eapply triple_weaken; [by apply keeps_look|done..]|intros info|done].
  destruct (entry_size info <=? 0); [by apply triple_ret|].
  eapply (triple_try _ _ _ _ (fun r s => match r with
    | Ok (p, fd) => (In p candidates /\ p <> source /\ fd <> si) /\ written_so_far p fd I "" s | Err _ => True end)); [| |by intros er s].
  - apply triple_act; [apply stable_source|done|]. intros s Hs. split; [done|]. split; [|by intros f]. pose proof (create_temp_cases candidates s) as Hc.
    destruct (create_temp candidates s) as [[[p fd]|er] s']; [|done]. destruct Hc as (Hin & Hfree & -> & ->).
    destruct (create_at_other p s source si _ Hfree Hs) as (H1 & H2 & H3). repeat split; try done; try congruence; try apply H3; apply create_at_named.
  - intros [p fd]. apply triple_pure. intros (Hin & Hne & Hfd). cbn [fst snd].
    eapply triple_bind; [by apply triple_encrypt_into|]. intros [pr|er].
    + apply triple_ret. intros s [<- Hs]. by exists recipient.
    + eapply (triple_bind _ _ _ _ (fun _ => anything)); [|by intros ?; apply triple_ret]. intros m s _. by destruct (Prepared_Remove _ _ _ _) as [[] []].
Qed.
End encryption.
