(* ===== verification/Private.v ===== *)
(** The private files of the maintenance process: a file is written beside the old one
    and takes its name when it is whole ([atomicPrivateFile] of
    [src/internal/maintenance/service.go]). *)
From S2P Require Import Prelude GoTime GoString Model Catalog Io Writer Custody Files Cryptfile Encryption.

(** [os.Rename]: the name that was there is replaced. *)
Definition rename_path (old new : string) (s : fs) : result failure unit * fs :=
  match fs_names s !! old, inode_of s new with
  | None, _ => (Err (OsError ENOENT), s)
  | _, Ok (_, Dir _) => (Err (OsError (EOTHER "is a directory")), s)
  | Some i, _ => (Ok tt, s <| fs_names ::= fun names => <[new := i]> (delete old names) |>)
  end.
Definition temporary (path : string) : string := (path ++ ".tmp")%string.

Section private.
Context (fate_of : nat -> fate) (short : nat -> option Z).
Abbreviation io := (Io.io fs).
Abbreviation act := (Io.act alone fate_of).

(** The temporary file; one that an interrupted write left is replaced. *)
Definition open_temporary (temp : string) : io (result failure Z) :=
  first ← act (create_exclusive temp);
  match first with
  | Err (OsError EEXIST) => _ ← act (remove_path temp); act (create_exclusive temp)
  | _ => mret first
  end.
(** Write, synchronize, close. *)
Definition fill (fd : Z) (data : string) : io (result failure unit) :=
  w ← write_inode alone fate_of short fd data;
  e ← match w with
      | (written, None) => if written =? len data then act unseen else mret (Err ErrShortWrite)
      | (_, Some e) => mret (Err e)
      end;
  closed ← act unseen;
  mret (match e with Ok _ => closed | Err e => Err e end).
Definition publish (fd : Z) (path data : string) : io (result failure unit) :=
  _ ←? fill fd data;
  _ ←? act (rename_path (temporary path) path);
  act unseen.
Definition atomicPrivateFile (path data : string) : io (result failure unit) :=
  fd ←? open_temporary (temporary path);
  r ← publish fd path data;
  match r with
  | Ok _ => mret (Ok tt)
  | Err e => _ ← act (remove_path (temporary path)); mret (Err e)
  end.
End private.

Lemma temporary_ne path : path <> temporary path.
Proof. intros E%(f_equal len). unfold temporary in E. rewrite len_app in E. change (len ".tmp") with 4 in E. lia. Qed.

(** ** What is on the disk *)
Section disk.
Context (path data : string) (s0 : fs) (fate_of : nat -> fate) (short : nat -> option Z).
Abbreviation temp := (temporary path).
Abbreviation act := (Io.act alone fate_of).

(** The files of [s0] with other names than these. *)
Definition same_but (names : list string) (s : fs) : Prop := forall p, ~ In p names ->
  fs_names s !! p = fs_names s0 !! p /\ (forall i, fs_names s0 !! p = Some i -> fs_inodes s !! i = fs_inodes s0 !! i).
Definition waiting : fs -> Prop := same_but [temp].
Record filled (fd : Z) (content : string) (s : fs) : Prop := Filled {
  fl_same : waiting s;
  fl_named : named temp fd (Regular content) s;
  fl_own : forall p, p <> temp -> fs_names s !! p <> Some fd }.
Definition replaced (s : fs) : Prop := same_but [temp; path] s /\ holds_file path data s.
Definition either (s : fs) : Prop := waiting s \/ replaced s.

Lemma waiting_create s : waiting s -> fs_names s !! temp = None -> filled (new_inode s) "" (create_at temp s).
Proof.
  intros Hs Hfree. destruct (new_inode_fresh s) as [Hn Hns]. split; [|apply create_at_named|].
  - intros p Hp. destruct (Hs p Hp) as [E1 E2]. assert (p <> temp) by (intros ->; apply Hp; by left). cbn. rewrite lookup_insert_ne by done. split; [done|].
    intros i Hi. rewrite lookup_insert_ne; [by apply E2|]. intros <-. apply (Hns p). by rewrite E1.
  - intros p Hp. cbn. rewrite lookup_insert_ne by done. apply Hns.
Qed.
Lemma waiting_remove s : waiting s -> waiting (snd (remove_path temp s)).
Proof.
  intros Hs p Hp. assert (p <> temp) by (intros ->; apply Hp; by left). destruct (Hs p Hp) as [E1 E2].
  unfold remove_path. destruct (inode_of s temp) as [[? [|[]|]]|]; try done; cbn; by rewrite lookup_delete_ne.
Qed.
Lemma replaced_remove s : replaced s -> replaced (snd (remove_path temp s)).
Proof.
  intros [Hs (i & Hp & Hi)]. assert (forall s', (forall p, p <> temp -> fs_names s' !! p = fs_names s !! p) -> fs_inodes s' = fs_inodes s -> replaced s') as Hr.
  { intros s' H1 H2. split.
    - intros p Hne. rewrite H1 by (intros ->; apply Hne; by left). rewrite H2. by apply Hs.
    - exists i. split; [rewrite H1 by apply temporary_ne; done|by rewrite H2]. }
  unfold remove_path. destruct (inode_of s temp) as [[? [|[]|]]|]; try done; apply Hr; try done; cbn; intros p Hne; by rewrite lookup_delete_ne.
Qed.
Lemma either_remove s : either s -> either (snd (remove_path temp s)).
Proof. intros [Hs|Hs]; [left; by apply waiting_remove|right; by apply replaced_remove]. Qed.
Lemma filled_append fd content chunk s : filled fd content s -> filled fd (content ++ chunk) (append_inode fd chunk s).
Proof.
  intros [Hs Hn Hown]. destruct (append_named fd chunk temp content s Hn) as [Hp Hi]. unfold append_inode in *. destruct Hn as [Hp0 Hi0]. rewrite Hi0 in *.
  split; [|by split|done]. intros p Hne. destruct (Hs p Hne) as [E1 E2]. split; [done|]. intros i Ei. cbn.
  rewrite lookup_insert_ne; [by apply E2|]. intros <-. apply (Hown p); [intros ->; apply Hne; by left|congruence].
Qed.
Lemma filled_rename s fd : filled fd data s ->
  match rename_path temp path s with (Ok _, s') => replaced s' | (Err _, s') => s' = s end.
Proof.
  intros [Hs [Hp Hi] Hown]. pose proof (temporary_ne path) as Hne. unfold rename_path. rewrite Hp.
  assert (replaced (s <| fs_names ::= fun names => <[path := fd]> (delete temp names) |>)) as Hr.
  { split.
    - intros p Hout. assert (p <> temp /\ p <> path) as [H1 H2] by (split; intros ->; apply Hout; cbn; auto).
      destruct (Hs p) as [E1 E2]; [intros [E|[]]; done|]. cbn. by rewrite lookup_insert_ne, lookup_delete_ne by done.
    - exists fd. split; [apply lookup_insert_eq|done]. }
  destruct (inode_of s path) as [[? [| |]]|]; done.
Qed.

(** *** The steps *)
Definition filling (fd : Z) (s : fs) : Prop := exists content, filled fd content s.
Lemma filling_waiting fd s : filling fd s -> waiting s.
Proof. intros (content & Hs). apply Hs. Qed.
Lemma triple_fill fd : triple (filled fd "") (fill fate_of short fd data)
  (fun r s => exists content, filled fd content s /\ (r = Ok tt -> content = data)) (filling fd).
Proof.
  unfold fill. eapply (triple_bind _ _ _ _ (fun w s => exists content, filled fd content s /\ (snd w = None -> fst w = len data -> content = data))).
  { intros n s Hs. unfold write_inode. change (alone n s) with s. cbv zeta.
    set (written := match short n with Some k => _ | None => _ end). set (s' := append_inode fd (str_take written data) s).
    assert (filled fd (str_take written data) s') as Hs' by exact (filled_append fd "" (str_take written data) s Hs).
    destruct (fate_of n); cbn [fst snd].
    - exists (str_take written data). split; [done|]. intros _ ->. by apply str_take_all.
    - by exists ""%string.
    - by exists (str_take written data).
    - by exists ""%string.
    - by exists (str_take written data). }
  intros [written [e|]]; cbn [fst snd].
  - eapply (triple_bind _ _ _ _ (fun r s => r = Err e /\ filling fd s)).
    { apply triple_ret. intros s (content & Hs & _). split; [done|by exists content]. }
    intros r. eapply (triple_bind _ _ _ _ (fun _ s => r = Err e /\ filling fd s)).
    + apply triple_act; [apply _|by intros s []|]. by intros s [Hr Hs].
    + intros closed. apply triple_ret. intros s (-> & content & Hs). by exists content.
  - set (Q := fun (r : result failure unit) s => exists content, filled fd content s /\ (r = Ok tt -> content = data)).
    assert (forall r s, Q r s -> filling fd s) as HQ by (intros r s (content & Hs & _); by exists content).
    eapply (triple_bind _ _ _ _ Q).
    { apply triple_if; intros E; [apply Z.eqb_eq in E|].
      - apply triple_act; [apply _|by intros s (content & Hs & _); exists content|]. intros s (content & Hs & Hc).
        split; [by exists content|]. split; [exists content; split; [done|by intros _; apply Hc]|]. intros f. by split; exists content.
      - apply triple_ret. intros s (content & Hs & _). by exists content. }
    intros r. eapply (triple_bind _ _ _ _ (fun _ => Q r)).
    + apply triple_act; [apply _|apply HQ|]. intros s Hs. pose proof (HQ r s Hs). done.
    + intros closed. apply triple_ret. intros s (content & Hs & Hc). exists content. split; [done|]. intros Hr. apply Hc. by destruct r as [[]|].
Qed.
Lemma triple_private fd : triple (filled fd "") (publish fate_of short fd path data)
  (fun r s => either s /\ (r = Ok tt -> replaced s)) either.
Proof.
  unfold publish. eapply triple_try; [eapply triple_weaken; [apply triple_fill|done|intros r s Hr; exact Hr|by intros s Hs%filling_waiting; left]|intros []|].
  - eapply triple_try.
    + apply (triple_act alone fate_of _ _ (fun r s => match r with Ok _ => replaced s | Err _ => either s end) either).
      * intros s (content & Hs & _). left. apply Hs.
      * intros s (content & Hs & Hc). rewrite (Hc eq_refl) in Hs. pose proof (filled_rename s fd Hs) as Hr. pose proof (fl_same _ _ _ Hs) as Hw.
        destruct (rename_path temp path s) as [[[]|e] s']; cbn [fst snd].
        { split; [by right|]. split; [done|]. by split; [left|right]. }
        subst s'. split; [by left|]. split; [by left|]. by split; left.
    + intros []. apply triple_act; [apply _|by right|]. intros s Hs. assert (either s) by by right. done.
    + intros e s Hs. by split.
  - intros e s (content & Hs & _). split; [left; apply Hs|done].
Qed.

Lemma triple_open_temporary : triple waiting (open_temporary fate_of temp)
  (fun r s => match r with Ok fd => filled fd "" s | Err _ => waiting s end) waiting.
Proof.
  assert (triple waiting (act (create_exclusive temp)) (fun r s => match r with Ok fd => filled fd "" s | Err _ => waiting s end) waiting) as Hc.
  { apply triple_act; [apply _|done|]. intros s Hs. unfold create_exclusive. destruct (fs_names s !! temp) eqn:E; cbn; [done|].
    pose proof (waiting_create s Hs E) as Hf. split; [apply Hf|]. split; [exact Hf|]. intros f. split; [exact Hs|apply Hf]. }
  unfold open_temporary. eapply triple_bind; [exact Hc|]. intros [fd|e]; [by apply triple_ret|].
  assert (triple waiting (_ ← act (remove_path temp); act (create_exclusive temp))
    (fun r s => match r with Ok fd => filled fd "" s | Err _ => waiting s end) waiting) as Hagain.
  { eapply (triple_bind _ _ _ _ (fun _ => waiting)); [|by intros _].
    apply triple_act_inv; [apply _|apply waiting_remove]. }
  destruct e as [[]|]; try (by apply triple_ret). exact Hagain.
Qed.
Lemma triple_atomic : triple waiting (atomicPrivateFile fate_of short path data) (fun r s => either s /\ (r = Ok tt -> replaced s)) either.
Proof.
  unfold atomicPrivateFile. eapply triple_try; [eapply triple_weaken; [apply triple_open_temporary|done|intros r s Hr; exact Hr|by left]|intros fd|].
  - eapply triple_bind; [apply triple_private|]. intros [[]|e]; [by apply triple_ret|].
    eapply (triple_bind _ _ _ _ (fun _ => either)); [|intros _; by apply triple_ret].
    eapply triple_pre; [apply triple_act_inv; [apply _|apply either_remove]|by intros s []].
  - intros e s Hs. split; [by left|done].
Qed.
End disk.

(** What a name stands for. *)
Definition file_at (path : string) (s : fs) : option entry := match inode_of s path with Ok (_, e) => Some e | Err _ => None end.
Lemma same_file s0 names s p : same_but s0 names s -> ~ In p names -> file_at p s = file_at p s0.
Proof.
  intros Hs Hp. destruct (Hs p Hp) as [E1 E2]. unfold file_at, inode_of. rewrite E1. destruct (fs_names s0 !! p) as [i|]; [|done].
  by rewrite (E2 i eq_refl).
Qed.
Lemma holds_file_at path content s : holds_file path content s -> file_at path s = Some (Regular content).
Proof. intros (i & Hp & Hi). unfold file_at, inode_of. by rewrite Hp, Hi. Qed.

(** C27. A private file is replaced whole or not at all: whatever fails and wherever
    the process stops, the file has its old content or all of the new one, never a
    part; after a success it has the new one; and no other file is touched, but for
    the temporary one. *)
Theorem private_file_atomic fate_of short path data n s :
  let '(r, (_, s')) := atomicPrivateFile fate_of short path data (n, s) in
  (file_at path s' = file_at path s \/ file_at path s' = Some (Regular data)) /\
  (r = Some (Ok tt) -> file_at path s' = Some (Regular data)) /\
  (forall p, p <> path -> p <> temporary path -> file_at p s' = file_at p s).
Proof.
  assert (waiting path s s) as Hw by done. pose proof (triple_atomic path data s fate_of short n s Hw) as Ht.
  assert (forall s', either path data s s' ->
    (file_at path s' = file_at path s \/ file_at path s' = Some (Regular data)) /\
    (forall p, p <> path -> p <> temporary path -> file_at p s' = file_at p s)) as Heither.
  { intros s' [Hs|[Hs Hh]]; split.
    - left. apply (same_file _ _ _ _ Hs). intros [E|[]]. by apply (temporary_ne path).
    - intros p H1 H2. apply (same_file _ _ _ _ Hs). intros [E|[]]. done.
    - right. by apply holds_file_at.
    - intros p H1 H2. apply (same_file _ _ _ _ Hs). intros [E|[E|[]]]; done. }
  destruct (atomicPrivateFile fate_of short path data (n, s)) as [[r|] [n' s']].
  - destruct Ht as [Hs Hr]. destruct (Heither s' Hs) as [H1 H2]. split; [done|]. split; [|done]. intros [= ->]. by apply holds_file_at, Hr.
  - destruct (Heither s' Ht). by repeat split.
Qed.

(** ** An interrupted write does not hinder the next *)
Definition temp_ok (path : string) (s : fs) : Prop :=
  fs_names s !! temporary path = None \/ exists content, holds_file (temporary path) content s.
Definition replaceable (path : string) (s : fs) : Prop := forall b, file_at path s <> Some (Dir b).

Section again.
(** Every write is complete. *)
Definition whole_writes : nat -> option Z := fun _ => None.
Context (path data : string) (s0 : fs).
Abbreviation act := (Io.act alone faultless).

Lemma runs_open_temporary : temp_ok path s0 -> runs (eq s0) (open_temporary faultless (temporary path))
  (fun r s => exists fd, r = Ok fd /\ filled path s0 fd "" s).
Proof.
  intros Hok n s <-.
  assert (forall n s, waiting path s0 s -> fs_names s !! temporary path = None ->
    exists n', act (create_exclusive (temporary path)) (n, s) = (Some (Ok (new_inode s)), (n', create_at (temporary path) s)) /\
      filled path s0 (new_inode s) "" (create_at (temporary path) s)) as Hc.
  { intros k s Hs Hf. exists (k + 1)%nat. split; [|by apply waiting_create]. unfold Io.act, create_exclusive. cbv zeta. change (alone k s) with s. by rewrite Hf. }
  assert (waiting path s0 s0) as Hw by done. unfold open_temporary, mbind, io_bind. destruct Hok as [Hfree|(content & i & Hp & Hi)].
  - destruct (Hc n s0 Hw Hfree) as (n' & E & Hf). rewrite E. by eexists _, _, _; split; [|eexists].
  - assert (act (create_exclusive (temporary path)) (n, s0) = (Some (Err (OsError EEXIST)), ((n + 1)%nat, s0))) as ->.
    { unfold Io.act, create_exclusive. cbv zeta. change (alone n s0) with s0. by rewrite Hp. }
    assert (act (remove_path (temporary path)) ((n + 1)%nat, s0) = (Some (Ok tt), ((n + 1 + 1)%nat, s0 <| fs_names ::= delete (temporary path) |>))) as ->.
    { unfold Io.act, remove_path, inode_of. cbv zeta. change (alone (n + 1)%nat s0) with s0. by rewrite Hp, Hi. }
    set (s1 := s0 <| fs_names ::= _ |>). assert (waiting path s0 s1) as Hw1.
    { intros p Hne. split; [|done]. unfold s1. cbn. rewrite lookup_delete_ne; [done|]. intros <-. apply Hne. by left. }
    destruct (Hc (n + 1 + 1)%nat s1 Hw1) as (n' & E & Hf); [apply lookup_delete_eq|]. rewrite E. by eexists _, _, _; split; [|eexists].
Qed.
Lemma runs_fill fd : runs (filled path s0 fd "") (fill faultless whole_writes fd data) (fun r s => r = Ok tt /\ filled path s0 fd data s).
Proof.
  intros n s Hs. unfold fill, mbind, io_bind, write_inode. change (alone n s) with s. cbv beta iota zeta delta [faultless].
  rewrite str_take_all, Z.eqb_refl by done. eexists _, _, _. split; [reflexivity|]. split; [done|]. exact (filled_append path s0 fd "" data s Hs).
Qed.
Lemma runs_private fd : replaceable path s0 -> runs (filled path s0 fd "") (publish faultless whole_writes fd path data)
  (fun r s => r = Ok tt /\ replaced path data s0 s /\ fs_names s !! temporary path = None).
Proof.
  intros Hrep. unfold publish. eapply runs_try; [apply runs_fill|]. apply (runs_try _ _ _ tt _ (fun s => replaced path data s0 s /\ fs_names s !! temporary path = None)).
  - apply runs_act. intros s Hs. pose proof (filled_rename path data s0 s fd Hs) as Hr. destruct Hs as [Hw [Hp Hi] Hown].
    assert (replaceable path s) as Hrs by (unfold replaceable; rewrite (same_file _ _ _ _ Hw); [done|intros [E|[]]; by apply (temporary_ne path)]).
    unfold rename_path, replaceable, file_at in *. rewrite Hp in *. pose proof (temporary_ne path) as Hne.
    destruct (inode_of s path) as [[j [c|b|]]|]; cbn in *; try (by destruct (Hrs b)).
    all: split; [done|]; split; [exact Hr|]; rewrite lookup_insert_ne by done; apply lookup_delete_eq.
  - apply runs_act. by intros s Hs.
Qed.
End again.


(** What a name of the temporary file may be, whatever happens. *)
Section leftover.
Context (path data : string) (s0 : fs) (fate_of : nat -> fate) (short : nat -> option Z).
Abbreviation act := (Io.act alone fate_of).
Abbreviation T := (temp_ok path).

Lemma filled_ok fd content s : filled path s0 fd content s -> T s.
Proof. intros [_ Hn _]. right. by exists content, fd. Qed.
Lemma remove_ok s : T s -> T (snd (remove_path (temporary path) s)).
Proof.
  intros [Hs|(content & i & Hp & Hi)]; unfold remove_path, inode_of; [rewrite Hs; by left|]. rewrite Hp, Hi. left. apply lookup_delete_eq.
Qed.
Lemma create_ok s : T s -> T (snd (create_exclusive (temporary path) s)).
Proof.
  intros Hs. unfold create_exclusive. destruct (fs_names s !! temporary path); [done|]. right. cbn [snd].
  exists "", (new_inode s). apply create_at_named.
Qed.
Lemma triple_open_ok : triple T (open_temporary fate_of (temporary path)) (fun _ => T) T.
Proof.
  unfold open_temporary. eapply (triple_bind _ _ _ _ (fun _ => T)); [apply triple_act_inv; [apply _|apply create_ok]|]. intros r.
  destruct r as [fd|[[]|]]; try (by apply triple_ret).
  eapply (triple_bind _ _ _ _ (fun _ => T)); [|intros _; apply triple_act_inv; [apply _|apply create_ok]].
  apply triple_act_inv; [apply _|apply remove_ok].
Qed.
Lemma triple_publish_ok fd : triple (filled path s0 fd "") (publish fate_of short fd path data) (fun _ => T) T.
Proof.
  assert (forall s, filling path s0 fd s -> T s) as Hf by (intros s (content & Hs); by apply (filled_ok fd content)).
  unfold publish. eapply triple_try.
  - eapply triple_weaken; [apply (triple_fill path data s0 fate_of short fd)|done|intros r s Hr; exact Hr|exact Hf].
  - intros []. eapply (triple_try _ _ _ _ (fun _ => T)); [|intros _; by apply triple_act_inv; [apply _|]|done].
    apply triple_act; [apply _|by intros s (content & Hs & _); apply Hf; exists content|]. intros s (content & Hs & _).
    assert (T s) as Hs1 by (apply Hf; by exists content).
    assert (T (snd (rename_path (temporary path) path s))) as Hs2; [|done].
    unfold rename_path. destruct (fs_names s !! temporary path); [|done]. destruct (inode_of s path) as [[? []]|]; try done; left; cbn;
      (rewrite lookup_insert_ne by apply temporary_ne; apply lookup_delete_eq).
  - intros e s (content & Hs & _). apply Hf. by exists content.
Qed.
End leftover.
Lemma triple_conj {S A} P (m : io S A) Q R Q' R' : triple P m Q R -> triple P m Q' R' ->
  triple P m (fun a s => Q a s /\ Q' a s) (fun s => R s /\ R' s).
Proof.
  intros H1 H2 n s Hs. specialize (H1 n s Hs). specialize (H2 n s Hs). by destruct (m (n, s)) as [[a|] [n' s']].
Qed.
Lemma triple_atomic_ok path data fate_of short : triple (temp_ok path) (atomicPrivateFile fate_of short path data) (fun _ => temp_ok path) (temp_ok path).
Proof.
  intros n s Hs. assert (triple (fun s' => waiting path s s' /\ temp_ok path s') (atomicPrivateFile fate_of short path data)
    (fun _ => temp_ok path) (temp_ok path)) as Ht; [|by apply (Ht n s)].
  unfold atomicPrivateFile. eapply triple_try; [|intros fd|].
  - eapply triple_weaken; [apply (triple_conj (fun s' => waiting path s s' /\ temp_ok path s'));
      [eapply triple_pre; [apply (triple_open_temporary path s fate_of)|by intros s' []]
      |eapply triple_pre; [apply (triple_open_ok path fate_of)|by intros s' []]]|done|intros r s' Hr; exact Hr|by intros s' []].
  - eapply triple_bind; [eapply triple_pre; [apply (triple_publish_ok path data s)|by intros s' []]|].
    intros [[]|e]; [by apply triple_ret|]. eapply (triple_bind _ _ _ _ (fun _ => temp_ok path)); [|intros _; by apply triple_ret].
    apply triple_act_inv; [apply _|apply remove_ok].
  - by intros e s' [].
Qed.

(** An interrupted write does not hinder the next: if the temporary file is absent
    or a file, as it is after any number of attempts, whatever failed in them, an
    attempt in which nothing fails succeeds. *)
Lemma private_file_rewritten attempts path data s :
  temp_ok path s -> replaceable path s ->
  let s' := fold_left (fun s '(fate_of, short, data) => snd (snd (atomicPrivateFile fate_of short path data (0%nat, s)))) attempts s in
  exists n s'', atomicPrivateFile faultless whole_writes path data (0%nat, s') = (Some (Ok tt), (n, s'')) /\
    file_at path s'' = Some (Regular data).
Proof.
  intros Ht Hr s'. assert (temp_ok path s' /\ replaceable path s') as [Ht' Hr'].
  { subst s'. revert s Ht Hr. induction attempts as [|[[fate_of short] data1] attempts IH]; intros s Ht Hr; cbn [fold_left]; [done|].
    apply IH.
    - pose proof (triple_atomic_ok path data1 fate_of short 0%nat s Ht) as H. by destruct (atomicPrivateFile fate_of short path data1 (0%nat, s)) as [[r|] [n s1]].
    - pose proof (triple_atomic path data1 s fate_of short 0%nat s (fun p _ => conj eq_refl (fun i _ => eq_refl))) as H.
      assert (forall s1, either path data1 s s1 -> replaceable path s1) as Hrep.
      { intros s1 [Hw|[_ Hh%holds_file_at]] b; [|by rewrite Hh]. rewrite (same_file _ _ _ _ Hw); [apply Hr|]. intros [E|[]]. by apply (temporary_ne path). }
      destruct (atomicPrivateFile fate_of short path data1 (0%nat, s)) as [[r|] [n s1]]; cbn [snd]; apply Hrep; [apply H|exact H]. }
  clearbody s'. destruct (runs_open_temporary path s' Ht' 0%nat s' eq_refl) as (r & n1 & s1 & E1 & fd & -> & Hf).
  destruct (runs_private path data s' fd Hr' n1 s1 Hf) as (r & n2 & s2 & E2 & -> & [_ Hh] & _).
  exists n2, s2. split; [|by apply holds_file_at]. unfold atomicPrivateFile, io_try, mbind, io_bind. by rewrite E1, E2.
Qed.
