(* ===== verification/Snapshot.v ===== *)
(** The maintenance process reads the catalogue in pages through the socket of the
    writer, while deposits go on ([src/internal/localclient/client.go]). *)
From S2P Require Import Prelude GoTime GoString Model Policy Schedule Catalog Anomalies Automation Retention RetentionMachine Deposit Checks Mail.
From S2P Require Import Store Archive Io Writer Custody Executor Execution Api Serving.
From Stdlib Require Import Ascii.

(** ** The client of the local protocol

    [encode]: the JSON of a request of a path; what the server decodes it to is up to
    [decode]. *)
Section client.
Context `{Platform} (error_text : failure -> string) (decode : string -> string -> result err fields).
Context (encode : string -> fields -> string).
Context (env : nat -> server -> server) (fate_of : nat -> fate) (clock : nat -> Z) (tokens : nat -> string) (turns : nat).
Abbreviation io := (Io.io server).

(** The part of [Client.do] after the exchange. *)
Definition accepted (r : reply) : result failure payload :=
  if (200 <=? re_Status r) && (re_Status r <? 300) then Ok (re_Payload r)
  else Err (Failed (ErrText match re_Payload r with
         | PError e => error_text e
         | _ => "writer locale: HTTP " ++ pretty (re_Status r)
         end))%string.
Definition do (method : http_method) (path : string) (query : string -> string) (body : string) : io (result failure payload) :=
  rpc env fate_of (
    r ← handler decode env fate_of clock tokens false (HttpRequest ProtocolVersion method path query true body);
    mret (accepted r)).
Definition no_query (name : string) : string := "".
Definition post (path : string) (f : fields) : io (result failure payload) := do POST path no_query (encode path f).

Definition undecodable : failure := Failed (ErrText "risposta del writer locale non valida").
Definition paged_query (name : string) : string := if String.eqb name "paged" then "1" else "".
Definition page_query (after : string) (through : Z) (name : string) : string :=
  if String.eqb name "paged" then "1" else if String.eqb name "after" then after
  else if String.eqb name "through" then pretty through else "".
Definition first_page : io (result failure snapshot) :=
  p ←? do GET "/v1/snapshot" paged_query "";
  mret (match p with PSnapshot v => Ok v | _ => Err undecodable end).
Definition next_page (after : string) (through : Z) : io (result failure backup_page) :=
  p ←? do GET "/v1/snapshot" (page_query after through) "";
  mret (match p with PPage page => Ok page | _ => Err undecodable end).

Definition with_backups (v : snapshot) (backups : list backup) (next : string) : snapshot :=
  Snapshot (sn_Status v) (sn_Settings v) (sn_Keys v) (sn_Quotas v) backups (sn_Operations v) (sn_Anomalies v) (sn_Exclusions v)
    (sn_AcknowledgedMissingBackupIDs v) (sn_Models v) next (sn_BackupsThrough v).
Definition page_invalid (after : string) (through : Z) (page : backup_page) : bool :=
  negb (bp_Through page =? through) ||
  (negb (String.eqb (bp_Next page) "") && (negb (ValidID (bp_Next page)) || String.leb (bp_Next page) after)).

(** What the unpaged request answers, the reference for the pages. *)
Definition unpaged_snapshot : io (result failure snapshot) :=
  p ←? do GET "/v1/snapshot" no_query "";
  mret (match p with PSnapshot v => Ok v | _ => Err undecodable end).

(** The loop of [readSnapshot]; a loop that goes on is a run that does not end. *)
Fixpoint read_pages (turns : nat) (v : snapshot) : io (result failure snapshot) :=
  if String.eqb (sn_NextBackupID v) "" then mret (Ok v)
  else
    match turns with
    | O => fun w => (None, w)
    | S turns' =>
      let after := sn_NextBackupID v in
      if negb (ValidID after) || (sn_BackupsThrough v <=? 0) then mret (Err (Failed (ErrText "cursore catalogo del writer non valido")))
      else
        page ←? next_page after (sn_BackupsThrough v);
        if page_invalid after (sn_BackupsThrough v) page then mret (Err (Failed (ErrText "pagina catalogo del writer non valida")))
        else read_pages turns' (with_backups v (sn_Backups v ++ bp_Backups page) (bp_Next page))
    end.
Definition readSnapshot : io (result failure snapshot) :=
  v ←? first_page;
  v ←? read_pages turns v;
  mret (Ok (with_backups v (sort_by latest_first (sn_Backups v)) (sn_NextBackupID v))).
End client.

(** ** Orders *)
Lemma string_compare_trans s t u c : String.compare s t = c -> String.compare t u = c -> String.compare s u = c.
Proof.
  revert t u. induction s as [|a s IH]; intros [|b t] [|d u]; cbn; try congruence.
  unfold Ascii.compare. destruct (N.compare_spec (N_of_ascii a) (N_of_ascii b)), (N.compare_spec (N_of_ascii b) (N_of_ascii d)),
    (N.compare_spec (N_of_ascii a) (N_of_ascii d)); intros E1 E2; try congruence; try lia; by apply (IH t).
Qed.
Definition before (a b : string) : Prop := String.ltb a b = true.
Lemma before_compare a b : before a b <-> String.compare a b = Lt.
Proof. unfold before, String.ltb. by destruct (String.compare a b). Qed.
#[export] Instance before_trans : Transitive before.
Proof. intros a b c. rewrite !before_compare. apply string_compare_trans. Qed.
Lemma before_irrefl a : ~ before a a.
Proof. rewrite before_compare. pose proof (String.compare_antisym a a) as H. destruct (String.compare a a); cbn in H; congruence. Qed.
Lemma before_total a b : before a b \/ a = b \/ before b a.
Proof.
  rewrite !before_compare. rewrite (String.compare_antisym b a). destruct (String.compare a b) eqn:E; cbn; auto.
  right. left. by apply String.compare_eq_iff.
Qed.
Lemma not_before a b : String.ltb a b = false <-> a = b \/ before b a.
Proof.
  destruct (String.ltb a b) eqn:E; split; try done.
  - intros [->|H]; [by destruct (before_irrefl b)|]. destruct (before_irrefl b). by trans a.
  - intros _. destruct (before_total a b) as [H|[?|?]]; auto. by rewrite H in E.
Qed.

(** Sorting by a strict order that is total on the elements. *)
Section strict.
Context {A : Type} (less : A -> A -> bool).
Definition precedes (a b : A) : Prop := less a b = true.
Context `{!Transitive precedes}.
Lemma insert_by_strict x l : (forall y, In y l -> less y x = false -> less x y = true) ->
  StronglySorted precedes l -> StronglySorted precedes (insert_by less x l).
Proof.
  intros Ht Hl. induction Hl as [|y l Hl IH Hall]; cbn; [repeat constructor|]. destruct (less y x) eqn:E.
  - constructor; [apply IH; intros z Hz; apply Ht; by right|]. rewrite Forall_forall in *. intros z Hz%list_elem_of_In.
    apply (Permutation_in _ (insert_by_perm less x l)) in Hz as [<-|Hz]; [done|]. by apply Hall, list_elem_of_In.
  - pose proof (Ht y (or_introl eq_refl) E) as Hxy. constructor; [by constructor|]. constructor; [done|].
    eapply Forall_impl; [exact Hall|]. intros z Hz. by trans y.
Qed.
Lemma sort_by_strict l : (forall x y, In x l -> In y l -> x <> y -> less x y = false -> less y x = true) -> NoDup l ->
  StronglySorted precedes (sort_by less l).
Proof.
  intros Ht Hnd. induction Hnd as [|x l Hx Hnd IH]; cbn; [constructor|]. apply insert_by_strict.
  - intros y Hy%in_sort_by Hyx. apply (Ht y x); [by right|by left|intros ->; by rewrite <- list_elem_of_In in Hy|done].
  - apply IH. intros y z Hy Hz. apply Ht; by right.
Qed.
End strict.

(** ** Pages

    [I]: the identifiers of the rows up to the last one of the first page's moment. *)
Lemma map_filter_on {A B} (f : A -> B) (p : B -> bool) l : map f (List.filter (fun x => p (f x)) l) = List.filter p (map f l).
Proof. induction l as [|x l IH]; cbn; [done|]. destruct (p (f x)); cbn; by rewrite IH. Qed.
Lemma map_sort_on {A B} (f : A -> B) (less : B -> B -> bool) l :
  map f (sort_by (fun x y => less (f x) (f y)) l) = sort_by less (map f l).
Proof.
  set (on := fun x y => less (f x) (f y)). induction l as [|x l IH]; [done|].
  change (map f (insert_by on x (sort_by on l)) = insert_by less (f x) (sort_by less (map f l))). rewrite <- IH. generalize (sort_by on l). clear IH l.
  induction l as [|y l IH]; cbn; [done|]. unfold on at 1. destruct (less (f y) (f x)); cbn; by rewrite ?IH.
Qed.
Lemma filter_sorted {A} (R : A -> A -> Prop) (p : A -> bool) l : StronglySorted R l -> StronglySorted R (List.filter p l).
Proof.
  induction 1 as [|x l Hl IH Hall]; cbn; [constructor|]. destruct (p x); [|done]. constructor; [done|].
  rewrite Forall_forall in *. intros y Hy%list_elem_of_In%filter_In. apply Hall, list_elem_of_In, Hy.
Qed.
Lemma filter_perm {A} (p : A -> bool) l l' : Permutation l l' -> Permutation (List.filter p l) (List.filter p l').
Proof.
  induction 1 as [|x l l' _ IH|x y l|]; cbn; [done| | |by etrans].
  - destruct (p x); [by constructor|done].
  - destruct (p x), (p y); try done. apply perm_swap.
Qed.

Definition in_order_ids (I : list string) : list string := sort_by String.ltb I.
Lemma ids_sorted I : NoDup I -> StronglySorted before (in_order_ids I).
Proof. apply (sort_by_strict String.ltb). intros x y _ _ Hne [->|H]%not_before; [done|exact H]. Qed.
Lemma sorted_unique l l' : StronglySorted before l -> StronglySorted before l' -> Permutation l l' -> l = l'.
Proof.
  apply (StronglySorted_unique_strong before). intros x y _ _ H1 H2. destruct (before_irrefl x). by trans y.
Qed.
Lemma filter_ids p I : NoDup I -> in_order_ids (List.filter p I) = List.filter p (in_order_ids I).
Proof.
  intros Hnd. apply sorted_unique.
  - apply ids_sorted. rewrite NoDup_ListNoDup in *. by apply List.NoDup_filter.
  - by apply filter_sorted, ids_sorted.
  - unfold in_order_ids. rewrite sort_by_perm. apply filter_perm. symmetry. apply sort_by_perm.
Qed.

Definition ids (d : db) : list string := map b_ID (d_backups d).
Lemma page_ids after d I more : ids d = I ++ more -> NoDup I ->
  let page := page_of after (Z.of_nat (length I)) d in
  let rest := List.filter (String.ltb after) (in_order_ids I) in
  map b_ID (bp_Backups page) = take BackupPageSize rest /\ bp_Through page = Z.of_nat (length I) /\
  bp_Next page = if (BackupPageSize <? length rest)%nat then List.last (take BackupPageSize rest) "" else "".
Proof.
  intros Hids Hnd. cbv zeta. unfold page_of. rewrite Nat2Z.id.
  set (rows := sort_by _ _). set (rest := List.filter _ _).
  assert (map b_ID rows = rest) as Hrows.
  { subst rows rest. rewrite (map_sort_on b_ID String.ltb), (map_filter_on b_ID (String.ltb after)), <- filter_ids by done.
    unfold in_order_ids. do 2 f_equal. change (b_ID <$> take (length I) (d_backups d) = I). rewrite fmap_take. change (b_ID <$> d_backups d) with (ids d).
    rewrite Hids. by rewrite take_app_length. }
  rewrite <- Hrows, length_map, length_take. clearbody rows. clear Hrows rest.
  destruct (Nat.ltb_spec BackupPageSize (S BackupPageSize `min` length rows)%nat) as [Hlt|Hge].
  - replace (BackupPageSize <? length rows)%nat with true by (symmetry; apply Nat.ltb_lt; lia).
    cbn [bp_Backups bp_Next bp_Through]. rewrite take_take, Nat.min_l by lia. change (map b_ID (take BackupPageSize rows)) with (b_ID <$> take BackupPageSize rows). rewrite fmap_take. done.
  - replace (BackupPageSize <? length rows)%nat with false by (symmetry; apply Nat.ltb_ge; lia).
    cbn [bp_Backups bp_Next bp_Through]. rewrite !take_ge by (rewrite ?length_map; lia). done.
Qed.

(** ** Nothing is left out *)
(** Deposits are added at the end of the catalogue, with valid identifiers, and none
    is removed or renamed. *)
Definition appends (s s' : server) : Prop :=
  exists more, ids (s_db s') = ids (s_db s) ++ more /\ Forall (fun id => ValidID id = true) more.
Class Appending `{Platform} (linked : bool) (env : nat -> server -> server) : Prop :=
  appending : forall n s, custody linked s -> appends s (env n s).
#[export] Instance appending_alone `{Platform} linked : Appending linked alone.
Proof. intros n s _. exists []. by rewrite app_nil_r. Qed.
Definition valid_ids (I : list string) : Prop := Forall (fun id => ValidID id = true) I.

Section reading.
Context `{Platform} (linked : bool) (error_text : failure -> string) (decode : string -> string -> result err fields).
Context (encode : string -> fields -> string).
Context (env : nat -> server -> server) (fate_of : nat -> fate) (clock : nat -> Z) (tokens : nat -> string).
Context (rows : list backup) `{!Bystanders linked env, !Appending linked env}.

(** The catalogue has these deposits, and [I] are the first identifiers of its rows. *)
Definition catalogued (s : server) : Prop := keeps linked rows s /\ valid_ids (ids (s_db s)).
Definition starting (I : list string) (s : server) : Prop := catalogued s /\ exists more, ids (s_db s) = I ++ more.
#[export] Instance stable_catalogued : Stable env catalogued.
Proof.
  intros n s [Hs Hv]. split; [by apply stable_custody|]. destruct (appending n s Hs) as (more & -> & Hm). by apply Forall_app.
Qed.
#[export] Instance stable_starting I : Stable env (starting I).
Proof.
  intros n s [Hs [more E]]. split; [by apply stable_catalogued|]. destruct Hs as [Hs _].
  destruct (appending n s Hs) as (more' & -> & _). exists (more ++ more'). by rewrite E, app_assoc.
Qed.

(** What has been read is whole up to the cursor. *)
Record collected (I : list string) (backups : list backup) (next : string) (s : server) : Prop := Collected {
  co_start : starting I s;
  co_distinct : NoDup I;
  co_rows : forall b, In b rows -> In (b_ID b) I;
  co_ids : if String.eqb next "" then map b_ID backups = in_order_ids I
           else map b_ID backups ++ List.filter (String.ltb next) (in_order_ids I) = in_order_ids I;
  co_read : forall x, In x backups -> has_row x s;
  co_old : forall x b, In x backups -> In b rows -> b_ID x = b_ID b -> descends b x }.
#[export] Instance stable_collected I backups next : Stable env (collected I backups next).
Proof.
  intros n s [H1 H2 H3 H4 H5 H6]. split; [by apply stable_starting|done..| |done].
  intros x Hx. apply (row_kept linked env); [destruct H1 as [[Hs _] _]; exact Hs|by apply H5].
Qed.

Lemma row_descends s x b : keeps linked rows s -> In x (d_backups (s_db s)) -> In b rows -> b_ID x = b_ID b -> descends b x.
Proof.
  intros Hs Hx Hb Hid. destruct (ke_rows linked rows s Hs b Hb) as (y & Hy & Hd). pose proof (descends_file _ _ Hd) as [Hyid _ _].
  assert (x = y) as ->; [|done]. pose proof (cu_core _ _ Hs) as Hok. apply (NoDup_map_in b_ID _ x y (ok_backup_ids _ Hok)); [done..|congruence].
Qed.
Lemma page_rows after through d x : In x (bp_Backups (page_of after through d)) -> In x (d_backups d).
Proof.
  unfold page_of. intros Hx.
  assert (In x (sort_by (fun a b => String.ltb (b_ID a) (b_ID b)) (List.filter (fun b => String.ltb after (b_ID b)) (take (Z.to_nat through) (d_backups d))))) as Hin.
  { assert (forall n (l : list backup), In x (take n l) -> In x l) as Htake by (intros n l Hin; rewrite <- (take_drop n l); apply in_app_iff; by left).
    destruct (_ <? _)%nat; cbn in Hx; repeat apply Htake in Hx; exact Hx. }
  apply in_sort_by, filter_In in Hin as [Hin _]. rewrite <- (take_drop (Z.to_nat through) (d_backups d)). apply in_app_iff. by left.
Qed.
Lemma filter_after l1 l2 d : StronglySorted before (l1 ++ l2) -> l1 <> [] ->
  List.filter (String.ltb (List.last l1 d)) (l1 ++ l2) = l2.
Proof.
  intros Hs Hne. destruct (exists_last Hne) as (l & x & ->). rewrite List.last_last, <- app_assoc in *. cbn [app] in *.
  rewrite List.filter_app. cbn. assert (String.ltb x x = false) as -> by (apply not_true_iff_false, before_irrefl).
  apply StronglySorted_app in Hs as (Hl & _ & Hx). apply StronglySorted_inv in Hx as [_ Hx].
  assert (forall y, In y l -> String.ltb x y = false) as Hbefore.
  { intros y Hy. apply not_before. right. apply Hl; [by apply list_elem_of_In|by left]. }
  assert (forall m, (forall y, In y m -> String.ltb x y = false) -> List.filter (String.ltb x) m = []) as Hnone.
  { induction m as [|y m IH]; intros Hm; [done|]. cbn. rewrite (Hm y) by (by left). apply IH. intros z Hz. apply Hm. by right. }
  rewrite (Hnone l Hbefore). cbn. clear -Hx. induction Hx as [|y l2 Hy _ IH]; [done|]. cbn. by rewrite Hy, IH.
Qed.
Lemma page_extends I s backups after : starting I s -> NoDup I -> (forall b, In b rows -> In (b_ID b) I) ->
  map b_ID backups ++ List.filter (String.ltb after) (in_order_ids I) = in_order_ids I ->
  (forall x, In x backups -> has_row x s) -> (forall x b, In x backups -> In b rows -> b_ID x = b_ID b -> descends b x) ->
  let page := page_of after (Z.of_nat (length I)) (s_db s) in
  collected I (backups ++ bp_Backups page) (bp_Next page) s.
Proof.
  intros Hst Hnd Hrows Hids Hread Hold. cbv zeta. pose proof Hst as [[Hs Hv] [more E]].
  destruct (page_ids after _ _ _ E Hnd) as (Hp & Ht & Hn). set (page := page_of after (Z.of_nat (length I)) (s_db s)) in *.
  set (rest := List.filter (String.ltb after) (in_order_ids I)) in *.
  assert (forall x, In x (bp_Backups page) -> In x (d_backups (s_db s))) as Hin by (intros x; apply page_rows).
  split; [done..| | |].
  - rewrite map_app, Hp, Hn. destruct (Nat.ltb_spec BackupPageSize (length rest)) as [Hlong|Hshort].
    + assert (take BackupPageSize rest <> []) as Hne.
      { intros E0%(f_equal length). rewrite length_take in E0. cbn [length] in E0. assert (0 < BackupPageSize)%nat by (apply Nat.ltb_lt; reflexivity). lia. }
      assert (in_order_ids I = (map b_ID backups ++ take BackupPageSize rest) ++ drop BackupPageSize rest) as Hsplit.
      { by rewrite <- app_assoc, take_drop. }
      assert (List.last (map b_ID backups ++ take BackupPageSize rest) "" = List.last (take BackupPageSize rest) ""%string) as Hlast.
      { destruct (exists_last Hne) as (l & x & ->). by rewrite app_assoc, !List.last_last. }
      assert (String.eqb (List.last (take BackupPageSize rest) "") "" = false) as ->.
      { apply String.eqb_neq. intros E0. destruct (exists_last Hne) as (l & x & El). rewrite El, List.last_last in E0. subst x.
        assert (In ""%string I) as Hin0.
        { apply (in_sort_by String.ltb). fold (in_order_ids I). rewrite Hsplit, El. apply in_app_iff. left. apply in_app_iff. right. apply in_app_iff. right. by left. }
        unfold valid_ids in Hv. rewrite Forall_forall in Hv. specialize (Hv ""%string). rewrite E in Hv. cbn in Hv.
        discriminate Hv. apply list_elem_of_In, in_app_iff. by left. }
      rewrite <- Hlast. rewrite Hsplit at 1 2. rewrite filter_after; [done| |]; rewrite <- ?Hsplit.
      * by apply ids_sorted.
      * intros [_ E0]%app_eq_nil. done.
    + cbn [String.eqb]. rewrite take_ge by lia. exact Hids.
  - intros x [Hx|Hx]%in_app_iff; [by apply Hread|]. exists x. split; [by apply Hin|apply descends_refl].
  - intros x b [Hx|Hx]%in_app_iff Hb Hid; [by apply (Hold x)|]. apply (row_descends s); [done|by apply Hin|done..].
Qed.

(** *** The requests *)
Lemma handler_first : handler decode env fate_of clock tokens false (HttpRequest ProtocolVersion GET "/v1/snapshot" paged_query true "") =
  maintenance_snapshot env fate_of clock true.
Proof. reflexivity. Qed.
Lemma handler_next after through : after <> ""%string ->
  handler decode env fate_of clock tokens false (HttpRequest ProtocolVersion GET "/v1/snapshot" (page_query after through) true "") =
  maintenance_page env fate_of (HttpRequest ProtocolVersion GET "/v1/snapshot" (page_query after through) true "") after.
Proof.
  intros Hne%String.eqb_neq. unfold handler, serveMaintenance. cbn [rq_Protocol rq_Method rq_Path]. unfold route, maintenance_reads. cbn.
  by rewrite Hne.
Qed.

(** A query, when nothing but what the others do changes the state. *)
Lemma triple_query {A} (q : db -> result err A) P `{!Stable env P} :
  triple P (Executor.query env fate_of q) (fun r s => P s /\ match r with Ok a => q (s_db s) = Ok a | Err _ => True end) P.
Proof.
  apply triple_act; [done..|]. intros s Hs. cbn. split; [done|]. split; [|done]. split; [done|]. by destruct (q (s_db s)).
Qed.
Lemma triple_required {A} (q : db -> result err A) k P Q R `{!Stable env P} :
  (forall a, triple (fun s => P s /\ q (s_db s) = Ok a) (k a) Q R) -> (forall e s, P s -> Q (Reply 500 (PError e)) s) ->
  (forall s, P s -> R s) -> triple P (required (Executor.query env fate_of q) k) Q R.
Proof.
  intros Hk Hq HR. unfold required. eapply triple_bind.
  - eapply triple_weaken; [by apply (triple_query q P)|done|by intros r s Hr; exact Hr|exact HR].
  - intros [a|e]; [exact (Hk a)|]. apply triple_ret. intros s [Hs _]. by apply Hq.
Qed.
Lemma triple_quotas P `{!Stable env P} keys : triple P (all_ok (key_quota env fate_of clock) keys) (fun _ => P) P.
Proof.
  induction keys as [|k keys IH]; cbn; [by apply triple_ret|]. eapply (triple_bind _ _ _ _ (fun _ => P)).
  - unfold key_quota. eapply triple_bind; [by apply (triple_now clock P _ (fun _ => P))|]. intros t.
    eapply triple_weaken; [by apply (triple_query _ P)|done|by intros r s []|done].
  - intros [b|e]; [|by apply triple_ret]. eapply (triple_bind _ _ _ _ (fun _ => P)); [exact IH|]. by intros [bs|e]; apply triple_ret.
Qed.

(** What the server answers. *)
Definition read_up_to (v : snapshot) (s : server) : Prop :=
  exists I, collected I (sn_Backups v) (sn_NextBackupID v) s /\ sn_BackupsThrough v = Z.of_nat (length I).
Definition answers (good : payload -> server -> Prop) (r : reply) (s : server) : Prop :=
  match accepted error_text r with Ok p => good p s | Err _ => catalogued s end.
Definition snapshot_payload (p : payload) (s : server) : Prop :=
  match p with PSnapshot v => read_up_to v s | _ => catalogued s end.

Lemma first_collected s page : catalogued s -> GetBackupPage "" 0 (s_db s) = Ok page ->
  collected (ids (s_db s)) (bp_Backups page) (bp_Next page) s /\ bp_Through page = Z.of_nat (length (ids (s_db s))).
Proof.
  intros [Hs Hv] [= <-]. cbn [String.eqb]. rewrite <- (length_map b_ID). fold (ids (s_db s)). split.
  - change (bp_Backups ?p) with ([] ++ bp_Backups p). pose proof (cu_core _ _ Hs) as Hok. apply page_extends; try done.
    + split; [done|]. exists []. by rewrite app_nil_r.
    + apply (ok_backup_ids _ Hok).
    + intros b Hb. destruct (ke_rows linked rows s Hs b Hb) as (x & Hx & Hd%descends_file). destruct Hd as [<- _ _]. by apply in_map.
    + cbn. assert (forall l, (forall x, In x l -> In x (ids (s_db s))) -> List.filter (String.ltb "") l = l) as Hall.
      { induction l as [|x l IH]; intros Hl; [done|]. cbn. rewrite IH by (intros y Hy; apply Hl; by right).
        unfold valid_ids in Hv. rewrite Forall_forall in Hv. specialize (Hv x ltac:(apply list_elem_of_In, Hl; by left)). by destruct x. }
      apply Hall. intros x. apply in_sort_by.
  - destruct (page_ids "" (s_db s) (ids (s_db s)) []) as (_ & Ht & _); [by rewrite app_nil_r|apply (ok_backup_ids _ (cu_core _ _ Hs))|exact Ht].
Qed.

#[export] Instance stable_read_up_to v : Stable env (read_up_to v).
Proof. apply stable_ex. intros I. apply stable_and; apply _. Qed.
#[export] Instance stable_payload p : Stable env (snapshot_payload p).
Proof. destruct p; apply _. Qed.
Lemma read_catalogued v s : read_up_to v s -> catalogued s.
Proof. intros (I & Hc & _). apply (co_start _ _ _ _ Hc). Qed.
Lemma payload_catalogued p s : snapshot_payload p s -> catalogued s.
Proof. destruct p; try done. apply read_catalogued. Qed.

Lemma triple_maintenance_snapshot :
  triple catalogued (maintenance_snapshot env fate_of clock true) (answers snapshot_payload) catalogued.
Proof.
  unfold maintenance_snapshot.
  do 3 (apply triple_required; [apply _|intros ?; apply (triple_pre _ catalogued); [|by intros s []]|done..]).
  apply triple_required; [apply _|intros page|done..].
  set (Q := fun s => exists I, collected I (bp_Backups page) (bp_Next page) s /\ bp_Through page = Z.of_nat (length I)).
  assert (Stable env Q) as HQ by (apply stable_ex; intros I; apply stable_and; apply _).
  assert (forall s, Q s -> catalogued s) as HQC by (intros s (I & Hc & _); apply (co_start _ _ _ _ Hc)).
  apply (triple_pre _ Q); [|intros s [Hs Hp]; exists (ids (s_db s)); by apply first_collected].
  do 5 (apply triple_required; [apply _|intros ?; apply (triple_pre _ Q); [|by intros s []]|by intros; apply HQC..]).
  unfold required. eapply (triple_bind _ _ _ _ (fun _ => Q)).
  - eapply triple_weaken; [by apply (triple_quotas Q)|done..|exact HQC].
  - intros [quotas|e]; apply triple_ret; intros s Hs; [exact Hs|by apply HQC].
Qed.

(** A request of the client whose handler keeps an invariant. *)
Lemma triple_do P (Q : payload -> server -> Prop) method path query body `{HP : !Stable env P} `{HQ : !forall p, Stable env (Q p)} :
  triple P (handler decode env fate_of clock tokens false (HttpRequest ProtocolVersion method path query true body))
    (fun r s => match accepted error_text r with Ok p => Q p s | Err _ => P s end) P ->
  (forall p s, Q p s -> P s) ->
  triple P (do error_text decode env fate_of clock tokens method path query body)
    (fun r s => match r with Ok p => Q p s | Err _ => P s end) P.
Proof.
  intros Hh HQP. unfold do.
  set (QQ := fun (r : result failure payload) s => match r with Ok p => Q p s | Err _ => P s end).
  assert (forall r, Stable env (QQ r)) as HQQ by (intros [p|e]; [exact (HQ p)|exact HP]).
  assert (forall r s, QQ r s -> P s) as HPQ by (intros [p|e] s; [apply HQP|done]).
  eapply triple_weaken; [apply (triple_rpc env fate_of P _ QQ P P); [|done|exact HPQ|done]|done| |done].
  - eapply triple_bind; [exact Hh|]. intros r. apply triple_ret. intros s Hs. unfold QQ. by destruct (accepted error_text r).
  - intros [p|e] s [Hs|[Hf Hs]]; done.
Qed.

Lemma triple_first_page :
  triple catalogued (first_page error_text decode env fate_of clock tokens)
    (fun r s => match r with Ok v => read_up_to v s | Err _ => catalogued s end) catalogued.
Proof.
  unfold first_page. eapply (triple_try _ _ _ _ (fun r s => match r with Ok p => snapshot_payload p s | Err _ => catalogued s end)); [|intros p|done].
  - apply (triple_do catalogued snapshot_payload); [apply _|apply _|rewrite handler_first; apply triple_maintenance_snapshot|apply payload_catalogued].
  - apply triple_ret. intros s Hs. destruct p; try exact Hs; by apply (payload_catalogued _ _ Hs).
Qed.

(** A page, after what has been read. *)
Definition page_payload (I : list string) (backups : list backup) (after : string) (p : payload) (s : server) : Prop :=
  match p with
  | PPage page => bp_Through page = Z.of_nat (length I) -> collected I (backups ++ bp_Backups page) (bp_Next page) s
  | _ => True
  end.
Lemma triple_next_page I backups after through : after <> ""%string ->
  triple (collected I backups after) (next_page error_text decode env fate_of clock tokens after through)
    (fun r s => catalogued s /\ match r with
     | Ok page => bp_Through page = Z.of_nat (length I) -> collected I (backups ++ bp_Backups page) (bp_Next page) s
     | Err _ => True end) catalogued.
Proof.
  intros Hne. set (P := collected I backups after). set (Q := fun p s => P s /\ page_payload I backups after p s).
  assert (forall s, P s -> catalogued s) as HPC by (intros s Hs; apply (co_start _ _ _ _ Hs)).
  assert (forall page, Stable env (fun s => bp_Through page = Z.of_nat (length I) -> collected I (backups ++ bp_Backups page) (bp_Next page) s)) as HS
    by (intros page; apply stable_impl, _).
  assert (forall p, Stable env (Q p)) as HQ by (intros p; apply stable_and; [apply _|]; destruct p; try exact (stable_pure env True); exact (HS _)).
  unfold next_page. eapply (triple_try _ _ _ _ (fun r s => match r with Ok p => Q p s | Err _ => P s end)).
  - eapply triple_weaken; [apply (triple_do P Q); [apply _|exact HQ|..]|done|intros r s Hr; exact Hr|exact HPC].
    + rewrite handler_next by done. unfold maintenance_page. destruct (parse_int64 _) as [t|]; [|by apply triple_ret].
      destruct (_ || _); [by apply triple_ret|]. unfold answer. eapply triple_bind; [by apply (triple_query _ P)|].
      intros [page|e]; apply triple_ret; intros s [Hs Hq]; [|exact Hs]. split; [exact Hs|]. intros Ht.
      unfold GetBackupPage in Hq. destruct (_ || _); [done|]. rewrite (proj2 (String.eqb_neq _ _) Hne) in Hq. injection Hq as <-.
      assert (t = Z.of_nat (length I)) as ->.
      { rewrite <- Ht. unfold page_of. by destruct (_ <? _)%nat. }
      destruct Hs as [H1 H2 H3 H4 H5 H6]. rewrite (proj2 (String.eqb_neq _ _) Hne) in H4. by apply page_extends.
    + by intros p s [Hs _].
  - intros p. apply triple_ret. intros s [Hs Hp]. split; [by apply HPC|]. by destruct p.
  - intros e s Hs. split; [by apply HPC|done].
Qed.

Lemma triple_read_pages n : forall v,
  triple (read_up_to v) (read_pages error_text decode env fate_of clock tokens n v)
    (fun r s => match r with Ok v' => read_up_to v' s /\ sn_NextBackupID v' = ""%string | Err _ => catalogued s end) catalogued.
Proof.
  induction n as [|n IH]; intros v; cbn [read_pages]; (destruct (String.eqb (sn_NextBackupID v) "") eqn:En; [by apply triple_ret; apply String.eqb_eq in En|]).
  { intros k s Hs. by apply (read_catalogued v). }
  apply String.eqb_neq in En. destruct (_ || _); [by apply triple_ret, read_catalogued|].
  intros k s (I & Hc & Ht). revert k s Hc.
  enough (triple (collected I (sn_Backups v) (sn_NextBackupID v)) (page ←? next_page error_text decode env fate_of clock tokens (sn_NextBackupID v) (sn_BackupsThrough v);
    if page_invalid (sn_NextBackupID v) (sn_BackupsThrough v) page then mret (Err (Failed (ErrText "pagina catalogo del writer non valida")))
    else read_pages error_text decode env fate_of clock tokens n (with_backups v (sn_Backups v ++ bp_Backups page) (bp_Next page)))
    (fun r s => match r with Ok v' => read_up_to v' s /\ sn_NextBackupID v' = ""%string | Err _ => catalogued s end) catalogued) as Hn by exact Hn.
  eapply triple_try; [by apply (triple_next_page I (sn_Backups v))|intros page|by intros e s []].
  destruct (page_invalid _ _ _) eqn:Ei; [by apply triple_ret; intros s []|].
  unfold page_invalid in Ei. apply orb_false_iff in Ei as [Ei%negb_false_iff%Z.eqb_eq _]. rewrite Ht in Ei.
  eapply triple_pre; [apply IH|]. intros s [_ Hs]. exists I. split; [by apply Hs|exact Ht].
Qed.
End reading.

(** *** The deposits of a snapshot

    Without a word on what is added meanwhile: they are of the catalogue. *)
Section known.
Context `{Platform} (linked : bool) (error_text : failure -> string) (decode : string -> string -> result err fields).
Context (env : nat -> server -> server) (fate_of : nat -> fate) (clock : nat -> Z) (tokens : nat -> string).
Context (rows : list backup) `{!Bystanders linked env}.
Abbreviation K more := (keeps linked (rows ++ more)).

Lemma known_more more s : keeps linked rows s -> (forall b, In b more -> has_row b s) -> K more s.
Proof. intros Hs Hm. split; [exact Hs|]. intros b [Hb|Hb]%in_app_iff; [by apply (ke_rows linked rows s Hs)|by apply Hm]. Qed.
Lemma keeps_fewer more s : K more s -> keeps linked rows s.
Proof. intros Hs. split; [exact Hs|]. intros b Hb. apply (ke_rows _ _ _ Hs), in_app_iff. by left. Qed.
Lemma keeps_page more after through s : K more s -> K (more ++ bp_Backups (page_of after through (s_db s))) s.
Proof.
  intros Hs. apply known_more; [by apply (keeps_fewer more)|]. intros b [Hb|Hb]%in_app_iff.
  - apply (ke_rows _ _ _ Hs), in_app_iff. by right.
  - exists b. split; [by apply (page_rows after through)|apply descends_refl].
Qed.
#[local] Instance stable_K more : Stable env (K more).
Proof. by apply stable_custody. Qed.

Definition known_payload (more : list backup) (p : payload) (s : server) : Prop :=
  match p with
  | PSnapshot v => K (more ++ sn_Backups v) s
  | PPage page => K (more ++ bp_Backups page) s
  | _ => K more s
  end.
#[local] Instance stable_known_payload more p : Stable env (known_payload more p).
Proof. destruct p; exact (stable_K _). Qed.
Lemma known_fewer more p s : known_payload more p s -> K more s.
Proof.
  assert (forall more', K (more ++ more') s -> K more s) as Hm.
  { intros more' Hs. split; [exact Hs|]. intros b Hb. apply (ke_rows _ _ _ Hs). rewrite !in_app_iff in *. tauto. }
  destruct p; try done; apply Hm.
Qed.

Lemma known_first_page : triple (keeps linked rows) (first_page error_text decode env fate_of clock tokens)
  (fun r s => match r with Ok v => K (sn_Backups v) s | Err _ => keeps linked rows s end) (keeps linked rows).
Proof.
  assert (Stable env (keeps linked rows)) as HC by by apply stable_custody.
  unfold first_page. eapply (triple_try _ _ _ _ (fun r s => match r with Ok p => match p with PSnapshot v => K (sn_Backups v) s | _ => keeps linked rows s end | Err _ => keeps linked rows s end)); [| |done].
  - apply (triple_do error_text decode env fate_of clock tokens (keeps linked rows) (fun p s => match p with PSnapshot v => K (sn_Backups v) s | _ => keeps linked rows s end)).
    + done.
    + intros []; first [exact HC|apply stable_K].
    + rewrite handler_first. unfold maintenance_snapshot.
      do 3 (apply triple_required; [exact HC|intros ?; apply (triple_pre _ (keeps linked rows)); [|by intros s []]|done..]).
      apply triple_required; [exact HC|intros page|done..].
      apply (triple_pre _ (K (bp_Backups page))); [|intros s [Hs Hp]; unfold GetBackupPage in Hp; cbn in Hp; injection Hp as <-;
        apply (keeps_page []); apply known_more; [done|by intros b []]].
      do 5 (apply triple_required; [apply stable_K|intros ?; apply (triple_pre _ (K (bp_Backups page))); [|by intros s []]|intros; by apply (keeps_fewer (bp_Backups page))..]).
      unfold required. eapply (triple_bind _ _ _ _ (fun _ => K (bp_Backups page))).
      * eapply triple_weaken; [by apply (triple_quotas env fate_of clock (K (bp_Backups page)))|done..|apply keeps_fewer].
      * intros [quotas|e]; apply triple_ret; intros s Hs; [exact Hs|by apply (keeps_fewer (bp_Backups page))].
    + intros [] s Hs; first [exact Hs|by apply (keeps_fewer _ _ Hs)].
  - intros p. apply triple_ret. intros s Hs. by destruct p.
Qed.
Lemma known_next_page more after through : after <> ""%string -> triple (K more) (next_page error_text decode env fate_of clock tokens after through)
  (fun r s => match r with Ok page => K (more ++ bp_Backups page) s | Err _ => K more s end) (K more).
Proof.
  intros Hne. unfold next_page. eapply (triple_try _ _ _ _ (fun r s => match r with Ok p => known_payload more p s | Err _ => K more s end)); [| |done].
  - apply (triple_do error_text decode env fate_of clock tokens (K more) (known_payload more)); [apply _|apply _| |apply known_fewer].
    rewrite handler_next by done. unfold maintenance_page. destruct (parse_int64 _) as [t|]; [|by apply triple_ret].
    destruct (_ || _); [by apply triple_ret|]. unfold answer. eapply triple_bind; [by apply (triple_query env fate_of _ (K more))|].
    intros [page|e]; apply triple_ret; intros s [Hs Hq]; [|exact Hs]. unfold GetBackupPage in Hq. destruct (_ || _); [done|]. injection Hq as <-.
    by apply keeps_page.
  - intros p. apply triple_ret. intros s Hs. destruct p; try (by apply (known_fewer more _ s Hs)). exact Hs.
Qed.
Lemma known_read_pages n : forall v, triple (K (sn_Backups v)) (read_pages error_text decode env fate_of clock tokens n v)
  (fun r s => match r with Ok v' => K (sn_Backups v') s | Err _ => keeps linked rows s end) (keeps linked rows).
Proof.
  induction n as [|n IH]; intros v; cbn [read_pages]; (destruct (String.eqb (sn_NextBackupID v) "") eqn:En; [by apply triple_ret|]).
  { intros k s Hs. by apply (keeps_fewer (sn_Backups v)). }
  apply String.eqb_neq in En. destruct (_ || _); [apply triple_ret; by apply keeps_fewer|].
  eapply triple_try.
  - eapply triple_weaken; [by apply (known_next_page (sn_Backups v))|done|intros r s Hr; exact Hr|apply keeps_fewer].
  - intros page. destruct (page_invalid _ _ _); [apply triple_ret; intros s Hs; by apply (keeps_fewer _ _ Hs)|].
    eapply triple_pre; [apply IH|done].
  - intros e s Hs. by apply (keeps_fewer _ _ Hs).
Qed.
Lemma known_snapshot turns : triple (keeps linked rows) (readSnapshot error_text decode env fate_of clock tokens turns)
  (fun r s => match r with Ok v => K (sn_Backups v) s | Err _ => keeps linked rows s end) (keeps linked rows).
Proof.
  unfold readSnapshot. eapply triple_try; [apply known_first_page|intros v1|done].
  eapply triple_try; [apply known_read_pages|intros v2|done]. apply triple_ret. intros s Hs. apply known_more; [by apply (keeps_fewer _ _ Hs)|].
  intros b Hb%in_sort_by. apply (ke_rows _ _ _ Hs), in_app_iff. by right.
Qed.
End known.

(** The order of the snapshots is strict on deposits with distinct identifiers. *)
#[export] Instance latest_first_trans : Transitive (precedes latest_first).
Proof.
  intros a b c. unfold precedes, latest_first. rewrite !orb_true_iff, !andb_true_iff, !Z.ltb_lt, !Z.eqb_eq.
  intros [?|[? H1]] [?|[? H2]]; [left; lia..|]. right. split; [lia|]. exact (before_trans _ _ _ H2 H1).
Qed.
Lemma latest_first_sorted l : NoDup (map b_ID l) -> StronglySorted (precedes latest_first) (sort_by latest_first l).
Proof.
  intros Hnd. apply (sort_by_strict latest_first); [|by apply (NoDup_fmap_1 b_ID)].
  intros x y Hx Hy Hne. unfold latest_first. rewrite orb_false_iff, orb_true_iff, !andb_true_iff, !andb_false_iff, !Z.ltb_lt, !Z.ltb_ge, !Z.eqb_eq, !Z.eqb_neq.
  intros [H1 H2]. destruct (decide (b_StartedAt x = b_StartedAt y)) as [E|?]; [right|left; lia]. split; [done|].
  destruct H2 as [?|[H2|H2]%not_before]; [done|..|exact H2]. destruct Hne. by apply (NoDup_map_in b_ID l).
Qed.
Lemma latest_first_unique l l' : NoDup (map b_ID l) -> Permutation l l' -> sort_by latest_first l = sort_by latest_first l'.
Proof.
  intros Hnd Hp. apply (StronglySorted_unique_strong (precedes latest_first)).
  - intros x y _ _ H1 H2. pose proof (latest_first_trans x y x H1 H2) as H3. exfalso. unfold precedes, latest_first in H3.
    rewrite orb_true_iff, andb_true_iff, Z.ltb_lt in H3. destruct H3 as [?|[_ H3]]; [lia|by apply before_irrefl in H3].
  - by apply latest_first_sorted.
  - apply latest_first_sorted. by rewrite <- Hp.
  - by rewrite !sort_by_perm.
Qed.

(** C12. A snapshot is never partial: while deposits are received, completed, moved
    and removed between one page and the next, whatever requests fail, a snapshot that
    the client returns has every deposit that was in the catalogue when the reading
    began, once, as it was at some moment since, in the order of the unpaged
    snapshot; and nothing that is not in the catalogue. *)
Theorem snapshot_complete `{Platform} linked error_text decode env fate_of clock tokens turns n s v n' s' :
  Bystanders linked env -> Appending linked env -> custody linked s -> valid_ids (ids (s_db s)) ->
  readSnapshot error_text decode env fate_of clock tokens turns (n, s) = (Some (Ok v), (n', s')) ->
  NoDup (map b_ID (sn_Backups v)) /\ StronglySorted (precedes latest_first) (sn_Backups v) /\
  (forall b, In b (d_backups (s_db s)) -> exists x, In x (sn_Backups v) /\ descends b x) /\
  (forall x, In x (sn_Backups v) -> has_row x s').
Proof.
  intros Hby Happ Hs Hv Hrun. set (rows := d_backups (s_db s)).
  assert (catalogued linked rows s) as Hc.
  { split; [split; [exact Hs|]|done]. intros b Hb. exists b. split; [done|apply descends_refl]. }
  assert (triple (catalogued linked rows) (readSnapshot error_text decode env fate_of clock tokens turns)
    (fun r s => match r with
     | Ok v => exists l, sn_Backups v = sort_by latest_first l /\ exists I, collected linked rows I l "" s
     | Err _ => True end) (fun _ => True)) as Ht.
  { unfold readSnapshot. eapply triple_try; [eapply triple_weaken; [by apply (triple_first_page linked)|done|intros r s1 Hr; exact Hr|done]|intros v1|done].
    eapply triple_try; [eapply triple_weaken; [by apply (triple_read_pages linked)|done|intros r s1 Hr; exact Hr|done]|intros v2|done].
    apply triple_ret. intros s1 ((I & Hcol & _) & Hn). exists (sn_Backups v2). split; [done|]. exists I. by rewrite <- Hn. }
  specialize (Ht n s Hc). rewrite Hrun in Ht. destruct Ht as (l & -> & I & Hcol).
  pose proof (co_ids _ _ _ _ _ _ Hcol) as Hids. cbn in Hids.
  assert (NoDup (map b_ID l)) as Hnd by (rewrite Hids; unfold in_order_ids; rewrite sort_by_perm; apply (co_distinct _ _ _ _ _ _ Hcol)).
  split; [by rewrite sort_by_perm|]. split; [by apply latest_first_sorted|]. split.
  - intros b Hb. assert (In (b_ID b) (map b_ID l)) as (x & Hid & Hx)%in_map_iff.
    { rewrite Hids. apply in_sort_by. by apply (co_rows _ _ _ _ _ _ Hcol). }
    exists x. split; [by apply in_sort_by|]. by apply (co_old _ _ _ _ _ _ Hcol).
  - intros x Hx%in_sort_by. by apply (co_read _ _ _ _ _ _ Hcol).
Qed.

(** ** The pages make the unpaged snapshot *)
(** A cursor is printed and read back. *)
Lemma parse_decimal_char k s acc : (k < 10)%N ->
  parse_decimal acc (String (pretty_N_char k) s) = parse_decimal (acc * 10 + Z.of_N k) s.
Proof.
  intros Hk. assert (k = 0 \/ k = 1 \/ k = 2 \/ k = 3 \/ k = 4 \/ k = 5 \/ k = 6 \/ k = 7 \/ k = 8 \/ k = 9)%N as Hc by lia.
  by repeat destruct Hc as [->|Hc]; [..|subst k].
Qed.
Lemma parse_pretty_go x : forall s, parse_decimal 0 (pretty_N_go x s) = parse_decimal (Z.of_N x) s.
Proof.
  induction (N.lt_wf_0 x) as [x _ IH]. intros s. destruct (decide (x = 0)%N) as [->|Hx]; [done|].
  assert (x `div` 10 < x)%N by (apply N.div_lt; lia). assert (x `mod` 10 < 10)%N by (apply N.mod_lt; lia).
  rewrite pretty_N_go_step by lia. rewrite IH by done. rewrite parse_decimal_char by done. f_equal.
  rewrite N2Z.inj_div, N2Z.inj_mod. pose proof (Z.div_mod (Z.of_N x) 10). lia.
Qed.
Lemma pretty_go_head x : forall s, (0 < x)%N -> exists k s', (k < 10)%N /\ pretty_N_go x s = String (pretty_N_char k) s'.
Proof.
  induction (N.lt_wf_0 x) as [x _ IH]. intros s Hx. rewrite pretty_N_go_step by done.
  destruct (decide (x `div` 10 = 0)%N) as [->|Hd]; [|apply IH; [by apply N.div_lt|by apply N.neq_0_lt_0]].
  exists (x `mod` 10)%N, s. split; [apply N.mod_lt; lia|done].
Qed.
Lemma parse_pretty t : 0 < t <= max_int64 -> parse_int64 (pretty t) = Some t.
Proof.
  intros Ht. destruct t as [|p|p]; try lia. change (pretty (Z.pos p)) with (pretty_N_go (Npos p) "").
  destruct (pretty_go_head (Npos p) "" eq_refl) as (k & s & Hk & E). pose proof (parse_pretty_go (Npos p) "") as Hp. rewrite E in *.
  assert (parse_int64 (String (pretty_N_char k) s) = (v ← parse_decimal 0 (String (pretty_N_char k) s);
    let v := 1 * v in if (- 2^63 <=? v) && (v <=? max_int64) then Some v else None)) as ->.
  { assert (k = 0 \/ k = 1 \/ k = 2 \/ k = 3 \/ k = 4 \/ k = 5 \/ k = 6 \/ k = 7 \/ k = 8 \/ k = 9)%N as Hc by lia.
    by repeat destruct Hc as [->|Hc]; [..|subst k]. }
  rewrite Hp. cbn [parse_decimal mbind option_bind Z.of_N]. rewrite Z.mul_1_l.
  assert (- 2^63 <= Z.pos p) as H1%Z.leb_le by lia. destruct Ht as [_ H2%Z.leb_le]. by rewrite H1, H2.
Qed.

(** Two computations that go the same way, on a state that nothing changes. *)
Section alone.
Context `{Platform} (error_text : failure -> string) (decode : string -> string -> result err fields) (clock : nat -> Z) (tokens : nat -> string).
Context (s : server).
Abbreviation io := (Io.io server).
Definition alike {A B} (Q : A -> B -> Prop) (m : io A) (m' : io B) : Prop :=
  forall n, exists a b n', m (n, s) = (Some a, (n', s)) /\ m' (n, s) = (Some b, (n', s)) /\ Q a b.
Lemma alike_ret {A B} (Q : A -> B -> Prop) a b : Q a b -> alike Q (mret a) (mret b).
Proof. intros HQ n. by exists a, b, n. Qed.
Lemma alike_bind {A B A' B'} (Q : A -> B -> Prop) (Q' : A' -> B' -> Prop) m m' f f' :
  alike Q m m' -> (forall a b, Q a b -> alike Q' (f a) (f' b)) -> alike Q' (m ≫= f) (m' ≫= f').
Proof.
  intros Hm Hf n. destruct (Hm n) as (a & b & n1 & E1 & E2 & HQ). destruct (Hf a b HQ n1) as (c & d & n2 & E3 & E4 & HQ').
  exists c, d, n2. unfold mbind, io_bind. by rewrite E1, E2.
Qed.
Lemma alike_query {A B} (q : db -> result err A) (q' : db -> result err B) :
  alike (fun r r' => r = match q (s_db s) with Ok a => Ok a | Err e => Err (Failed e) end /\
    r' = match q' (s_db s) with Ok a => Ok a | Err e => Err (Failed e) end) (Executor.query alone faultless q) (Executor.query alone faultless q').
Proof. intros n. by eexists _, _, _. Qed.
Lemma alike_required {A B} (q : db -> result err A) (q' : db -> result err B) k k' (Q : reply -> reply -> Prop) a b :
  q (s_db s) = Ok a -> q' (s_db s) = Ok b -> alike Q (k a) (k' b) ->
  alike Q (required (Executor.query alone faultless q) k) (required (Executor.query alone faultless q') k').
Proof.
  intros Ha Hb Hk. eapply alike_bind; [apply alike_query|]. intros r r' [-> ->]. by rewrite Ha, Hb.
Qed.
Lemma alike_rpc {A B} (Q : result failure A -> result failure B -> Prop) m m' :
  alike Q m m' -> alike Q (rpc alone faultless m) (rpc alone faultless m').
Proof.
  intros Hm n. destruct (Hm (n + 1)%nat) as (a & b & n1 & E1 & E2 & HQ). exists a, b, (n1 + 1)%nat.
  unfold rpc, act, alone, faultless. by rewrite E1, E2.
Qed.
Lemma alike_quotas keys : alike eq (all_ok (key_quota alone faultless clock) keys) (all_ok (key_quota alone faultless clock) keys).
Proof.
  induction keys as [|k keys IH]; [by apply alike_ret|]. cbn. eapply (alike_bind eq).
  - intros n. unfold key_quota, mbind, io_bind, Io.now, Executor.query, act, alone, faultless. by eexists _, _, _.
  - intros r _ <-. destruct r as [b|e]; [|by apply alike_ret]. eapply (alike_bind eq); [exact IH|].
    intros r _ <-. by destruct r; apply alike_ret.
Qed.

(** The first page and the unpaged snapshot. *)
Definition with_page (v : snapshot) (page : backup_page) : snapshot :=
  Snapshot (sn_Status v) (sn_Settings v) (sn_Keys v) (sn_Quotas v) (bp_Backups page) (sn_Operations v) (sn_Anomalies v) (sn_Exclusions v)
    (sn_AcknowledgedMissingBackupIDs v) (sn_Models v) (bp_Next page) (bp_Through page).
Definition through_of (d : db) : Z := Z.of_nat (length (d_backups d)).
Definition first_of (r r' : result failure snapshot) : Prop :=
  match r, r' with
  | Ok v, Ok u => v = with_page u (page_of "" (through_of (s_db s)) (s_db s)) /\
      u = with_page u (BackupPage (SnapshotBackups (s_db s)) "" 0)
  | Err e, Err e' => e = e'
  | _, _ => False
  end.
Lemma first_and_unpaged :
  alike (fun r r' => first_of (match accepted error_text r with Ok (PSnapshot v) => Ok v | Ok _ => Err undecodable | Err e => Err e end)
                              (match accepted error_text r' with Ok (PSnapshot v) => Ok v | Ok _ => Err undecodable | Err e => Err e end))
    (maintenance_snapshot alone faultless clock true) (maintenance_snapshot alone faultless clock false).
Proof.
  unfold maintenance_snapshot, reads.
  do 9 (eapply alike_required; [reflexivity..|]). eapply (alike_bind eq); [apply alike_quotas|]. intros r _ <-.
  by destruct r as [quotas|e]; apply alike_ret.
Qed.

(** A page that the client asks for is the page of the catalogue. *)
Lemma next_page_alone after n : after <> ""%string -> ValidID after = true -> 0 < through_of (s_db s) <= max_int64 ->
  exists n', next_page error_text decode alone faultless clock tokens after (through_of (s_db s)) (n, s) =
    (Some (Ok (page_of after (through_of (s_db s)) (s_db s))), (n', s)).
Proof.
  intros Hne Hv Ht. unfold next_page, do. rewrite handler_next by done. unfold maintenance_page. cbn [rq_Query].
  change (page_query after (through_of (s_db s)) "through") with (pretty (through_of (s_db s))). rewrite parse_pretty by done.
  assert (through_of (s_db s) <=? 0 = false) as -> by (apply Z.leb_gt; lia). rewrite Hv. cbn [negb orb].
  set (page := page_of after (through_of (s_db s)) (s_db s)).
  assert (GetBackupPage after (through_of (s_db s)) (s_db s) = Ok page) as Hpage.
  { unfold GetBackupPage. apply String.eqb_neq in Hne. rewrite Hne, Hv.
    assert (through_of (s_db s) <? 0 = false) as -> by (apply Z.ltb_ge; lia).
    assert (through_of (s_db s) =? 0 = false) as -> by (apply Z.eqb_neq; lia). done. }
  cbv beta iota delta [answer mbind io_bind io_ret io_try mret rpc Executor.query act alone faultless].
  cbv beta iota zeta. rewrite Hpage. by eexists.
Qed.

Definition to_read (v : snapshot) : list string :=
  if String.eqb (sn_NextBackupID v) "" then [] else List.filter (String.ltb (sn_NextBackupID v)) (in_order_ids (ids (s_db s))).
(** What the loop has read, as rows of the catalogue. *)
Record reading (linked : bool) (v : snapshot) : Prop := Reading {
  rd_collected : collected linked [] (ids (s_db s)) (sn_Backups v) (sn_NextBackupID v) s;
  rd_rows : forall x, In x (sn_Backups v) -> In x (d_backups (s_db s));
  rd_through : sn_BackupsThrough v = through_of (s_db s);
  rd_next : sn_NextBackupID v <> ""%string -> In (sn_NextBackupID v) (ids (s_db s)) /\ (0 < length (to_read v))%nat }.
Lemma next_of_page after : NoDup (ids (s_db s)) -> let page := page_of after (through_of (s_db s)) (s_db s) in
  bp_Through page = through_of (s_db s) /\
  (bp_Next page = ""%string \/ In (bp_Next page) (ids (s_db s)) /\ before after (bp_Next page) /\ length (bp_Backups page) = BackupPageSize /\
     (BackupPageSize < length (List.filter (String.ltb after) (in_order_ids (ids (s_db s)))))%nat).
Proof.
  intros Hnd. cbv zeta. assert (through_of (s_db s) = Z.of_nat (length (ids (s_db s)))) as -> by (unfold ids; by rewrite length_map).
  destruct (page_ids after (s_db s) (ids (s_db s)) []) as (Hp & Ht & Hn); [by rewrite app_nil_r|done|]. split; [done|].
  rewrite Hn. destruct (Nat.ltb_spec BackupPageSize (length (List.filter (String.ltb after) (in_order_ids (ids (s_db s)))))) as [Hlong|]; [right|by left].
  set (rest := List.filter _ _) in *. set (m := take BackupPageSize rest) in *.
  assert (length m = BackupPageSize) as Hm by (unfold m; rewrite length_take; lia).
  assert (In (List.last m "") m) as Hin.
  { assert (m <> []) as Hne by (intros E; rewrite E in Hm; discriminate Hm). destruct (exists_last Hne) as (l & x & ->). rewrite List.last_last. apply in_app_iff. right. by left. }
  assert (In (List.last m "") rest) as [Hin' Hb]%filter_In by (unfold m in Hin at 2; rewrite <- (take_drop BackupPageSize rest); apply in_app_iff; by left).
  split; [by apply in_sort_by in Hin'|]. split; [done|]. split; [by rewrite <- Hm, <- Hp, length_map|exact Hlong].
Qed.
Lemma reading_next linked v : reading linked v -> sn_NextBackupID v <> ""%string ->
  let page := page_of (sn_NextBackupID v) (through_of (s_db s)) (s_db s) in
  let v' := with_backups v (sn_Backups v ++ bp_Backups page) (bp_Next page) in
  page_invalid (sn_NextBackupID v) (sn_BackupsThrough v) page = false /\ reading linked v' /\
  (length (to_read v') <= length (to_read v) - BackupPageSize)%nat.
Proof.
  intros [Hc Hrows Ht Hn] Hne page v'. pose proof Hc as [Hst Hnd _ Hids Hread Hold]. pose proof Hst as [[Hs Hv] _].
  destruct (next_of_page (sn_NextBackupID v) Hnd) as [Hpt Hpn]. fold page in Hpt, Hpn.
  rewrite (proj2 (String.eqb_neq _ _) Hne) in Hids.
  assert (collected linked [] (ids (s_db s)) (sn_Backups v ++ bp_Backups page) (bp_Next page) s) as Hc'.
  { unfold page, through_of. rewrite <- (length_map b_ID). fold (ids (s_db s)). apply page_extends; try done. }
  assert (bp_Next page <> ""%string -> length (to_read v') = (length (to_read v) - BackupPageSize)%nat /\ (BackupPageSize < length (to_read v))%nat) as Hleft.
  { intros En. unfold to_read. cbn [sn_NextBackupID with_backups v']. rewrite !(proj2 (String.eqb_neq _ _)) by done.
    pose proof (co_ids _ _ _ _ _ _ Hc') as Hids'. rewrite (proj2 (String.eqb_neq _ _) En) in Hids'.
    destruct Hpn as [E|(_ & _ & Hl & Hlong)]; [done|]. split; [|exact Hlong].
    apply (f_equal length) in Hids, Hids'. rewrite !length_app, !length_map, ?length_app in *. lia. }
  split; [|split].
  - unfold page_invalid. rewrite Hpt, Ht, Z.eqb_refl. cbn [negb orb]. destruct Hpn as [->|(Hin & Hb & _)]; [done|].
    apply andb_false_iff. right. apply orb_false_iff. unfold valid_ids in Hv. rewrite Forall_forall in Hv.
    split; [apply negb_false_iff, Hv; by apply list_elem_of_In|]. apply before_compare in Hb. unfold String.leb. rewrite String.compare_antisym. by rewrite Hb.
  - split; [done| |done|]; cbn.
    + intros x [Hx|Hx]%in_app_iff; [by apply Hrows|by apply (page_rows _ _ _ _ Hx)].
    + intros En. destruct (Hleft En) as [Hl ?]. split; [destruct Hpn as [?|[? _]]; done|fold v'; lia].
  - destruct (decide (bp_Next page = ""%string)) as [E|En]; [|apply Hleft in En; lia]. unfold to_read at 1. cbn [sn_NextBackupID with_backups v']. rewrite E. cbn. lia.
Qed.
Lemma read_pages_alone linked turns : forall v n, reading linked v -> (length (to_read v) <= turns * BackupPageSize)%nat ->
  through_of (s_db s) <= max_int64 ->
  exists l n', read_pages error_text decode alone faultless clock tokens turns v (n, s) =
    (Some (Ok (with_backups v l "")), (n', s)) /\ reading linked (with_backups v l "").
Proof.
  induction turns as [|turns IH]; intros v n Hv Hl Hmax; cbn [read_pages]; destruct (String.eqb (sn_NextBackupID v) "") eqn:En.
  1, 3: apply String.eqb_eq in En; exists (sn_Backups v), n; destruct v; cbn in *; subst; by split.
  { apply String.eqb_neq in En. destruct (rd_next _ _ Hv En) as [_ Hlt]. cbn [Nat.mul] in Hl. lia. }
  apply String.eqb_neq in En. destruct (reading_next _ _ Hv En) as (Hok & Hv' & Hl'). destruct Hv as [Hc _ Ht Hn]. destruct (Hn En) as [Hin _].
  pose proof (co_start _ _ _ _ _ _ Hc) as [[_ Hval] _].
  assert (ValidID (sn_NextBackupID v) = true) as Hid by (unfold valid_ids in Hval; rewrite Forall_forall in Hval; by apply Hval, list_elem_of_In).
  assert (0 < through_of (s_db s)) as Hpos.
  { unfold through_of. rewrite <- (length_map b_ID). fold (ids (s_db s)). destruct (ids (s_db s)); [destruct Hin|cbn; lia]. }
  rewrite Hid, Ht. assert (through_of (s_db s) <=? 0 = false) as -> by (apply Z.leb_gt; lia). cbn [negb orb].
  destruct (next_page_alone (sn_NextBackupID v) n) as (n1 & E); [done..|]. unfold io_try, mbind, io_bind. rewrite E.
  rewrite Ht in Hok. rewrite Hok. destruct (IH _ n1 Hv') as (l & n2 & El & Hr); [|done|]; [rewrite Nat.mul_succ_l in Hl; lia|].
  exists l, n2. rewrite El. by split.
Qed.

Lemma first_page_alone n : exists r r' n',
  first_page error_text decode alone faultless clock tokens (n, s) = (Some r, (n', s)) /\
  unpaged_snapshot error_text decode alone faultless clock tokens (n, s) = (Some r', (n', s)) /\ first_of r r'.
Proof.
  assert (alike first_of (first_page error_text decode alone faultless clock tokens) (unpaged_snapshot error_text decode alone faultless clock tokens)) as Ha.
  { unfold first_page, unpaged_snapshot, do. rewrite handler_first.
    change (handler decode alone faultless clock tokens false (HttpRequest ProtocolVersion GET "/v1/snapshot" no_query true ""))
      with (maintenance_snapshot alone faultless clock false).
    set (read := fun r : result failure payload => match r with Ok (PSnapshot v) => Ok v | Ok _ => Err undecodable | Err e => Err e end).
    apply (alike_bind (fun r r' => first_of (read r) (read r'))).
    - apply alike_rpc. eapply alike_bind; [apply first_and_unpaged|]. intros r r' Hr. by apply alike_ret.
    - intros r r' Hr. destruct r as [p|e], r' as [p'|e']; try (by apply alike_ret); destruct p; try done; by apply alike_ret. }
  destruct (Ha n) as (r & r' & n' & ?). by exists r, r', n'.
Qed.
Lemma first_reading linked u turns : custody linked s -> valid_ids (ids (s_db s)) ->
  (length (d_backups (s_db s)) <= BackupPageSize * S turns)%nat ->
  let v := with_page u (page_of "" (through_of (s_db s)) (s_db s)) in
  reading linked v /\ (length (to_read v) <= turns * BackupPageSize)%nat.
Proof.
  intros Hs Hv Hl v. set (page := page_of "" (through_of (s_db s)) (s_db s)) in *.
  assert (catalogued linked [] s) as Hc by (split; [split; [exact Hs|by intros b []]|done]).
  destruct (first_collected linked [] s page Hc eq_refl) as [Hcol _].
  destruct (next_of_page "" (co_distinct _ _ _ _ _ _ Hcol)) as [Ht Hn]. fold page in Ht, Hn.
  assert (sn_NextBackupID v <> ""%string -> (length (to_read v) + BackupPageSize = length (d_backups (s_db s)))%nat /\
    In (sn_NextBackupID v) (ids (s_db s)) /\ (BackupPageSize < length (d_backups (s_db s)))%nat) as Hleft.
  { intros En. destruct Hn as [?|(Hin & _ & Hsize & Hlong)]; [done|]. pose proof (co_ids _ _ _ _ _ _ Hcol) as Hids.
    unfold to_read. cbn [sn_NextBackupID with_page v] in En |- *. rewrite !(proj2 (String.eqb_neq _ _) En) in *.
    assert (length (in_order_ids (ids (s_db s))) = length (d_backups (s_db s))) as Hall.
    { unfold in_order_ids. rewrite (Permutation_length (sort_by_perm _ _)). apply length_map. }
    pose proof (filter_length_le (String.ltb "") (in_order_ids (ids (s_db s)))) as Hle.
    apply (f_equal length) in Hids. rewrite length_app, length_map in Hids. split; [|split; [exact Hin|]]; lia. }
  split.
  - split; [exact Hcol|intros x; apply (page_rows "" (through_of (s_db s)))|exact Ht|].
    intros En. destruct (Hleft En) as (? & ? & ?). split; [done|lia].
  - destruct (decide (sn_NextBackupID v = ""%string)) as [E|En]; [|destruct (Hleft En); lia].
    unfold to_read. rewrite E. cbn. lia.
Qed.
Lemma reading_all linked v : reading linked v -> sn_NextBackupID v = ""%string ->
  sort_by latest_first (sn_Backups v) = SnapshotBackups (s_db s).
Proof.
  intros [Hc Hrows _ _] En. pose proof (co_ids _ _ _ _ _ _ Hc) as Hids. rewrite En in Hids. cbn [String.eqb] in Hids.
  pose proof (co_distinct _ _ _ _ _ _ Hc) as Hnd.
  assert (Permutation (map b_ID (sn_Backups v)) (ids (s_db s))) as Hp by (rewrite Hids; apply sort_by_perm).
  assert (NoDup (map b_ID (sn_Backups v))) as Hnd' by by rewrite Hp.
  apply latest_first_unique; [done|]. apply NoDup_Permutation.
  - by apply (NoDup_fmap_1 b_ID).
  - by apply (NoDup_fmap_1 b_ID).
  - intros x. rewrite !list_elem_of_In. split; [apply Hrows|]. intros Hx.
    assert (In (b_ID x) (map b_ID (sn_Backups v))) as (y & Hid & Hy)%in_map_iff.
    { apply (Permutation_in _ (symmetry Hp)). by apply in_map. }
    by rewrite <- (NoDup_map_in b_ID (d_backups (s_db s)) y x Hnd (Hrows y Hy) Hx Hid).
Qed.
End alone.

(** Reading the catalogue in pages is reading it at once: with nothing running
    beside it and no failure, [readSnapshot] ends after as many pages as it takes, and
    answers the unpaged snapshot, or its error, with the row it stopped at. *)
Lemma snapshot_unpaged `{Platform} linked error_text decode clock tokens turns n s :
  custody linked s -> valid_ids (ids (s_db s)) -> through_of (s_db s) <= max_int64 ->
  (length (d_backups (s_db s)) <= BackupPageSize * S turns)%nat ->
  exists r n' r' n'',
    readSnapshot error_text decode alone faultless clock tokens turns (n, s) = (Some r, (n', s)) /\
    unpaged_snapshot error_text decode alone faultless clock tokens (n, s) = (Some r', (n'', s)) /\
    match r, r' with
    | Ok v, Ok u => sn_Backups u = SnapshotBackups (s_db s) /\ v = with_page u (BackupPage (sn_Backups u) "" (through_of (s_db s)))
    | Err e, Err e' => e = e'
    | _, _ => False
    end.
Proof.
  intros Hs Hv Hmax Hl. destruct (first_page_alone error_text decode clock tokens s n) as (r & r' & n1 & E & E' & Hr).
  unfold readSnapshot, io_try at 1, mbind, io_bind. rewrite E. destruct r as [v|e], r' as [u|e']; try done.
  - destruct Hr as [-> Hu]. destruct (first_reading s linked u turns Hs Hv Hl) as [Hread Hleft].
    destruct (read_pages_alone error_text decode clock tokens s linked turns _ n1 Hread Hleft Hmax) as (l & n2 & El & Hr).
    eexists (Ok _), n2, (Ok u), n1. unfold io_try, mbind, io_bind. rewrite El. split; [reflexivity|]. split; [done|].
    rewrite Hu. split; [done|]. cbn [sn_Backups with_page bp_Backups]. rewrite <- (reading_all s linked _ Hr eq_refl). pose proof (rd_through _ _ _ Hr) as Ht. cbn [sn_BackupsThrough with_backups with_page] in Ht. unfold with_backups, with_page. cbn. by rewrite Ht.
  - exists (Err e), n1, (Err e'), n1. by repeat split.
Qed.
