(* ===== verification/Report.v ===== *)
(** The periodic report that the maintenance process mails to the administrator, and
    its advice ([src/internal/maintenance/mail_report.go]). *)
From S2P Require Import Prelude GoTime GoFloat GoString Model Policy Schedule Catalog Anomalies Automation Retention RetentionMachine Deposit Mail Store Archive.
From S2P Require Import Io Writer Executor Api.
From Stdlib Require SpecFloat.

(** ** Numbers *)
(** [%.1f] of a value that is not negative: the exact value to the nearest tenth, ties
    to even. *)
Definition half_even (num den : Z) : Z :=
  let q := num / den in
  let r := num mod den in
  if 2 * r <? den then q else if den <? 2 * r then q + 1 else if Z.even q then q else q + 1.
Definition tenths (x : float64) : Z :=
  match x with
  | SpecFloat.S754_finite _ m e => if 0 <=? e then 10 * Z.pos m * 2 ^ e else half_even (10 * Z.pos m) (2 ^ (- e))
  | _ => 0
  end.
Definition format_tenths (x : float64) : string :=
  match x with
  | SpecFloat.S754_nan => "NaN"
  | SpecFloat.S754_infinity _ => "+Inf"
  | _ => (pretty (tenths x / 10)%Z ++ "." ++ pretty (tenths x mod 10)%Z)%string
  end.

Definition formatEmailBytes (size : Z) : string :=
  if 2 ^ 30 <=? size then (format_tenths (f_div (f_of_int size) (f_of_int (2 ^ 30))) ++ " GiB")%string
  else if 2 ^ 20 <=? size then (format_tenths (f_div (f_of_int size) (f_of_int (2 ^ 20))) ++ " MiB")%string
  else (pretty (Z.quot (size + 1023) 1024) ++ " KiB")%string.

(** ** The advice *)
Definition margin_warning (a : anomaly) : bool := IsQuarantineMarginWarning (a_Kind a) (a_StableKey a).
Definition onlyQuarantineMarginWarnings (v : snapshot) (findings : list finding) : bool :=
  forallb (fun a => negb (open_anomaly a) || margin_warning a) (sn_Anomalies v) &&
  (count_where open_anomaly (sn_Anomalies v) =? as_ActiveAnomalies (sn_Status v)) &&
  forallb (fun f => IsQuarantineMarginWarning (f_Kind f) (f_StableKey f)) findings.

Definition reportCanSuggestResume (v : snapshot) (findings : list finding) (now : Z) : bool :=
  let status := sn_Status v in
  if as_ActivationPending status || as_ResumePending status || negb (as_LastCheckRegular status) || negb (as_Enabled status) ||
     negb (as_MailTested status) || negb (as_DeletionBlocked status) || negb (onlyQuarantineMarginWarnings v findings) ||
     (negb (String.eqb (as_MonitoringState status) MonitoringRegular) && negb (String.eqb (as_MonitoringState status) MonitoringPaused)) ||
     (as_ModelRevision status =? 0) || (as_LastCheckAt status =? 0) || (unix now + 1 <? as_LastCheckAt status) ||
     (600 <? unix now - as_LastCheckAt status)
  then false
  else negb (existsb (has_state OpAuthorized) (sn_Operations v)).

(** ** The text *)
Definition complete_of (k : key) (b : backup) : bool := String.eqb (b_KeyID b) (k_ID k) && has_status BackupComplete b.
Definition active_keys (v : snapshot) : list key := List.filter (fun k => negb (k_Revoked k)) (sn_Keys v).
Definition keysWithoutCopy (v : snapshot) : Z := count_where (fun k => negb (existsb (complete_of k) (sn_Backups v))) (active_keys v).

Definition report_problem (v : snapshot) (findings : list finding) : bool :=
  let status := sn_Status v in
  (0 <? as_ActiveAnomalies status) || negb (Nat.eqb (length findings) 0) || negb (as_Enabled status) || negb (as_MailTested status) ||
  as_ManualPaused status || Nat.eqb (length (active_keys v)) 0 || (0 <? keysWithoutCopy v) ||
  (negb (String.eqb (as_MonitoringState status) MonitoringLearning) && negb (String.eqb (as_MonitoringState status) MonitoringRegular)) ||
  (String.eqb (as_MonitoringState status) MonitoringRegular && as_DeletionBlocked status).

Definition retention_phrase (status : automation_status) : string :=
  (if as_ResumePending status then "ripresa prenotata al prossimo controllo valido; cancellazioni sospese"
   else if as_ManualPaused status then "pausa amministrativa; cancellazioni sospese"
   else if negb (as_Enabled status) then "da abilitare; cancellazioni sospese"
   else if as_ActivationPending status then
     "attivazione automatica in attesa dei requisiti di sicurezza" ++ (if negb (as_MailTested status) then "; prova mail richiesta" else "")
   else if String.eqb (as_MonitoringState status) MonitoringLearning then "in apprendimento; cancellazioni sospese"
   else if as_DeletionBlocked status then "bloccata; cancellazioni sospese"
   else "attiva") ++
  (if as_DeletionBlocked status && negb (String.eqb (as_BlockReason status) "") && negb (String.eqb (as_MonitoringState status) MonitoringLearning)
   then " (" ++ as_BlockReason status ++ ")" else "").

Definition disk_percent (fs : filesystem) : float64 :=
  match Filesystem_Bytes fs with
  | Ok (total, used, _) =>
    if 0 <? total then f_div (f_mul (f_of_int 100) (f_of_int used)) (f_of_int total) else f_zero
  | Err _ => f_zero
  end.

(** [at.In(zone).Format("02/01/2006 15:04")] *)
Definition day_minute_text (zone : location) (t : Z) : string :=
  let '(y, m, d) := local_date zone t in
  (pad2 d ++ "/" ++ pad2 m ++ "/" ++ year_text y ++ " " ++ pad2 (local_hour zone t) ++ ":" ++ pad2 (local_minute zone t))%string.
(** The last complete copy received of a key; of two at one instant, the first. *)
Definition latest_copy (v : snapshot) (k : key) : option backup :=
  fold_left (fun latest b =>
    if complete_of k b && match latest with None => true | Some l => String.ltb (b_ReceivedAt l) (b_ReceivedAt b) end then Some b else latest)
    (sn_Backups v) None.
Definition copy_line (zone : location) (v : snapshot) (k : key) : string :=
  "- " ++ k_Name k ++ ": " ++
  match latest_copy v k with
  | None => "nessuna copia completa"
  | Some b =>
    match parse_rfc3339 (b_ReceivedAt b) with
    | Some t => day_minute_text zone t
    | None => b_ReceivedAt b
    end ++ " · " ++ formatEmailBytes (b_Size b)
  end.

Definition report_action (v : snapshot) (findings : list finding) (now : Z) : string :=
  let status := sn_Status v in
  let canResume := reportCanSuggestResume v findings now in
  let troubled := (0 <? as_ActiveAnomalies status) || negb (Nat.eqb (length findings) 0) in
  let regular := String.eqb (as_MonitoringState status) MonitoringRegular in
  if troubled && negb canResume then
    if as_Enabled status && negb (as_DeletionBlocked status) && regular && onlyQuarantineMarginWarnings v findings
    then "verifica lo spazio disponibile; la retention continua nel rispetto delle protezioni delle copie"
    else "leggi gli avvisi di anomalia e verifica il client interessato"
  else if Nat.eqb (length (active_keys v)) 0 then "configura almeno un client di backup"
  else if (0 <? keysWithoutCopy v)%Z then "verifica i client senza copie complete"
  else if negb (as_Enabled status) then "verifica la configurazione della retention"
  else if negb (as_MailTested status) then "verifica la consegna della prova mail prima dell'attivazione"
  else if as_ResumePending status then "ripresa prenotata: attendi il prossimo controllo valido; nessun altro comando richiesto"
  else if as_ActivationPending status && negb (as_ManualPaused status) then
    "attivazione automatica prenotata: attendi apprendimento e controllo valido"
  else if canResume then
    "controllo regolare. Cancellazione sospesa: esegui onlybackup-admin retention resume per riattivarla" ++
    (if troubled then "; avviso sul margine di spazio ancora attivo" else "")
  else if as_ManualPaused status then "pausa amministrativa: per riprendere esegui onlybackup-admin retention resume --when-ready"
  else if as_DeletionBlocked status && (regular || String.eqb (as_MonitoringState status) MonitoringPaused) then
    "attendi un controllo regolare prima di riattivare la cancellazione"
  else if negb regular && negb (String.eqb (as_MonitoringState status) MonitoringLearning) then "verifica lo stato del monitoraggio"
  else "nessuna oggi".

Section report.
Context `{Platform}.
Definition report_zone (v : snapshot) : location := match LoadLocation (as_Timezone (sn_Status v)) with Ok zone => zone | Err _ => UTC end.
Definition named_before (a b : key) : bool := String.ltb (k_Name a) (k_Name b).
Definition report_head (v : snapshot) (fs : filesystem) (findings : list finding) : list string :=
  let status := sn_Status v in
  [ "Esito: " ++ (if report_problem v findings then "ATTENZIONE" else "OK");
    "Monitoraggio: " ++ as_MonitoringState status;
    "Copie conservate: " ++ pretty (count_where (fun b => has_status BackupComplete b || has_status BackupQuarantined b) (sn_Backups v));
    "Anomalie attive: " ++ pretty (as_ActiveAnomalies status);
    "Disco occupato: " ++ format_tenths (disk_percent fs) ++ "%";
    "Retention: " ++ retention_phrase status;
    "Ultime copie:" ]%string.
Definition buildEmailReport (v : snapshot) (fs : filesystem) (findings : list finding) (now : Z) : string :=
  let zone := report_zone v in
  String.concat newline
    (report_head v fs findings ++
     map (copy_line zone v) (List.filter (fun k => negb (k_Revoked k)) (sort_by named_before (sn_Keys v))) ++
     (if Nat.eqb (length (sn_Keys v)) 0 then ["- Nessun client configurato"%string] else []) ++
     [ "Azione: " ++ report_action v findings now; "Generato: " ++ local_time_text zone now ]%string).
End report.

(** ** What the advice is worth *)
(** The snapshot that the writer answers, but for the quotas, that need the clock. *)
Definition snapshot_of (d : db) (quotas : list quota) : snapshot :=
  Snapshot (read_status d) (read_mail_settings d) (Keys d) quotas (SnapshotBackups d) (SnapshotOperations d) (Anomalies true d)
    (AnomalyExclusions d) (AcknowledgedMissingBackupIDs d) (LoadModels d) "" 0.

Lemma count_where_zero {A} (p : A -> bool) l : (forall x, In x l -> p x = false) -> count_where p l = 0.
Proof.
  intros Hl. pose proof (count_where_nonneg p l). destruct (decide (0 < count_where p l)) as [Hc|]; [|lia].
  apply count_where_pos in Hc as (x & Hx & Hp). by rewrite (Hl x Hx) in Hp.
Qed.
Lemma forallb_sort {A} (less : A -> A -> bool) p l : forallb p (sort_by less l) = forallb p l.
Proof.
  apply eq_true_iff_eq. rewrite !forallb_forall. split; intros Hl x Hx; apply Hl; by apply (in_sort_by less).
Qed.
Lemma margin_only d quotas findings : onlyQuarantineMarginWarnings (snapshot_of d quotas) findings = true ->
  (forall now, blockingAnomalyCount d now = 0) /\ Forall (fun f => IsQuarantineMarginWarning (f_Kind f) (f_StableKey f) = true) findings.
Proof.
  unfold onlyQuarantineMarginWarnings, snapshot_of. cbn [sn_Anomalies sn_Status]. rewrite !andb_true_iff. intros [[Ha _] Hf]. split.
  - intros now. apply count_where_zero. intros a Hin. unfold Anomalies in Ha. rewrite forallb_sort, forallb_forall in Ha. cbn [negb orb] in Ha.
    unfold blocking_anomaly. destruct (open_anomaly a) eqn:Ho; [|done]. cbn [andb].
    specialize (Ha a). rewrite filter_In in Ha. specialize (Ha (conj Hin Ho)). rewrite Ho in Ha. cbn in Ha.
    unfold margin_warning, IsQuarantineMarginWarning in Ha. by rewrite Ha.
  - rewrite Forall_forall. intros f Hin. rewrite forallb_forall in Hf. by apply Hf, list_elem_of_In.
Qed.
Lemma no_authorized d : existsb (has_state OpAuthorized) (SnapshotOperations d) = false -> authorized_operations d = 0.
Proof.
  intros Hno. apply count_where_zero. intros o Ho. apply not_true_iff_false. intros Hs.
  apply not_true_iff_false in Hno. apply Hno, existsb_exists. exists o. split; [|done]. unfold SnapshotOperations. apply filter_In. split; [done|].
  unfold active_operation. by rewrite Hs, !orb_true_r.
Qed.

(** The advice of the report is sound: if the report of a snapshot suggests
    [retention resume], that command succeeds on the catalogue of the snapshot, at
    any time until ten minutes after the last check, and lifts every hold. *)
Lemma advice_succeeds d quotas findings now later :
  reportCanSuggestResume (snapshot_of d quotas) findings now = true ->
  now <= later -> unix later <= au_LastCheckAt (d_automation d) + 600 ->
  exists d', ResumeRetention later d = Ok (tt, d') /\ d_automation d' = lift_holds (d_automation d) /\
    au_DeletionBlocked (d_automation d') = false /\ au_ManualPaused (d_automation d') = false.
Proof.
  unfold reportCanSuggestResume. destruct (_ || _) eqn:Eg; [done|]. rewrite !orb_false_iff, !negb_false_iff in Eg.
  destruct Eg as [[[[[[[[[[[_ _] Hreg] He] Hm] _] Hmargin] _] Hrev] Hl0] Hfuture] _]. intros Hops%negb_true_iff Hnow Hlate.
  cbn [sn_Status sn_Operations snapshot_of] in *. apply margin_only in Hmargin as [Hblock _].
  apply no_authorized in Hops. cbn in He, Hm, Hrev, Hl0, Hfuture, Hreg.
  assert (check_stale (au_LastCheckAt (d_automation d)) later = false) as Hstale.
  { unfold check_stale, unix in *. rewrite Hl0. apply Z.ltb_ge in Hfuture. assert (now / Second <= later / Second) by (apply Z.div_le_mono; [done|lia]).
    apply orb_false_iff. split; [apply Z.ltb_ge|apply Z.ltb_ge]; lia. }
  unfold ResumeRetention. unfold tx_get, mbind, tx_bind. rewrite He, Hm, Hblock, Hops, Hrev, Hstale, Hreg. cbn.
  eexists. split; [reflexivity|]. done.
Qed.

(** ** A pause after a regular check *)
Module Paused.
Import Scenario.
Definition paused : db := execs [CPauseRetention "pausa"] (archive opening).
End Paused.
