(* ===== verification/Monitor.v ===== *)
(** The monitoring of one maintenance cycle: the models that are learned, the periods
    that are checked, and whether quota, retention minima and the margin for the
    quarantine fit in the space ([monitor], [RunOnce] and [findingsSummary] of
    [src/internal/maintenance/service.go]). *)
From S2P Require Import Prelude GoTime GoFloat GoString Model Policy Schedule Forecast Catalog Anomalies Automation Retention RetentionMachine Deposit Checks Mail.
From S2P Require Import Store Archive Admission Io Writer Executor Api Watch.

(** ** The space *)
Definition capacity_finding (key keyID detail : string) : finding := catalog_finding key "capacity" keyID "" detail.
Definition counted_bytes (b : backup) : bool :=
  has_status BackupReceiving b || has_status BackupComplete b || has_status BackupDeleting b ||
  has_status BackupQuarantined b || has_status BackupPurging b.
Definition catalog_bytes (backups : list backup) : Z :=
  fold_left (fun n b => if counted_bytes b then uadd n (wrap64 (b_Size b)) else n) backups 0.
Definition otherUsed (used catalogBytes : Z) : Z := if catalogBytes <? used then usub used catalogBytes else 0.
(** Whether the minima fit: [total] less what is not of the archive, less the reserve. *)
Definition retention_fits (total other reserve required : Z) : bool :=
  negb ((total <=? other) || (usub total other <=? reserve) || (usub (usub total other) reserve <? required)).
Definition margin_fits (available expected48h reserve : Z) : bool :=
  negb ((usub (2^64 - 1) reserve <? expected48h) || (available <? uadd expected48h reserve)).
Definition window_finding : finding := capacity_finding "capacity:retention-window" ""
  "spazio insufficiente per i minimi di conservazione impostati per chiave, giorno corrente, quarantena e riserva; intervento amministrativo richiesto".
Definition margin_finding : finding := capacity_finding QuarantineMarginAnomalyKey ""
  "spazio disponibile insufficiente per 48 ore di depositi e riserva durante la quarantena".
Definition capacity_findings (fs : filesystem) (v : snapshot) (expected48h required : Z) : result failure (list finding) :=
  match Filesystem_Bytes fs with
  | Err e => Err (Failed e)
  | Ok (total, used, available) =>
    let reserve := wrap64 (as_ReserveFree (sn_Status v)) in
    let other := otherUsed used (catalog_bytes (recoverableBackups (sn_AcknowledgedMissingBackupIDs v) (sn_Backups v))) in
    Ok ((if retention_fits total other reserve required then [] else [window_finding]) ++
        (if margin_fits available expected48h reserve then [] else [margin_finding]))
  end.

(** ** The summary *)
Definition findingsSummary (findings : list finding) : string :=
  match findings with
  | [] => "nessuna anomalia"
  | _ =>
    let kinds := sort_strings (remove_dups (map f_Kind findings)) in
    pretty (Z.of_nat (length findings)) ++ " anomalie: " ++
    String.concat ", " (map (fun kind => kind ++ "=" ++ pretty (count_where (fun f => String.eqb (f_Kind f) kind) findings)) kinds)
  end%string.

(** ** Monitoring *)
Section monitor.
Context `{Platform, Trigonometry}.
(** [marshal_model]: the JSON of a model. *)
Context (marshal_model : key_model -> string).
Context (env : nat -> server -> server) (fate_of : nat -> fate) (clock : nat -> Z).
Abbreviation io := (Io.io server).
Abbreviation act := (Io.act env fate_of).
Abbreviation rpc := (Io.rpc env fate_of).
Abbreviation now := (Io.now clock).

(** A command of the maintenance socket that reads the clock. *)
Definition call {A} (m : Z -> tx A) : io (result failure A) := rpc (t ← now; act (on_store (m t))).

Definition saved_models (v : snapshot) : gmap string key_model :=
  list_to_map (omap (fun '(keyID, raw) => match json_model raw with Ok m => Some (keyID, m) | Err _ => None end) (sn_Models v)).
Definition revision_of (v : snapshot) (t : Z) : Z :=
  if as_ModelRevision (sn_Status v) =? 0 then t else as_ModelRevision (sn_Status v).
Definition usable (m : key_model) : bool := km_Reliable m && negb (km_ReviewRequired m).

(** The keys in use that have no model learn one. *)
Fixpoint learn_missing (v : snapshot) (t : Z) (keys : list key) (models : gmap string key_model) : io (result failure (gmap string key_model)) :=
  match keys with
  | [] => mret (Ok models)
  | k :: rest =>
    if k_Revoked k then learn_missing v t rest models
    else
      match models !! k_ID k with
      | Some _ => learn_missing v t rest models
      | None =>
        let status := sn_Status v in
        match Learn LoadLocation (k_ID k) (as_Timezone status) (observations (sn_Backups v) (sn_Exclusions v)) t with
        | Err e => mret (Err (Failed e))
        | Ok learned =>
          _ ←? call (SaveModel (k_ID k) (revision_of v t) (as_Timezone status) (Z.max (RetentionDaysForKey status (k_ID k)) MinimumDays)
                       (marshal_model learned) (km_Reliable learned) (km_ReviewRequired learned));
          learn_missing v t rest (<[k_ID k := learned]> models)
        end
      end
  end.
Definition keys_in_use (v : snapshot) : list key := List.filter (fun k => negb (k_Revoked k)) (sn_Keys v).
Definition model_of (models : gmap string key_model) (k : key) : key_model :=
  default (KeyModel "" "" zero_time ∅ false false "") (models !! k_ID k).
Definition all_reliable (v : snapshot) (models : gmap string key_model) : bool :=
  forallb (fun k => usable (model_of models k)) (keys_in_use v) && negb (Nat.eqb (length (keys_in_use v)) 0).

(** The answer to a plan carries the model of each scope. *)
Definition raw_model (d : db) (cm : check_model) : string :=
  match find_where (fun m => String.eqb (mm_KeyID m) (cm_KeyID cm) && (mm_Revision m =? cm_Revision cm)) (d_models d) with
  | Some m => mm_JSON m
  | None => ""
  end.
Definition planned_models (id t : Z) : tx (list (check_model * string)) :=
  planned ← PlanMonitoringCheck id t;
  d ← tx_get;
  mret (map (fun cm => (cm, raw_model d cm)) (snd planned)).
Fixpoint period_findings (all : list observation) (t : Z) (scopes : list (check_model * string)) : result failure (list finding) :=
  match scopes with
  | [] => Ok []
  | (cm, raw) :: rest =>
    match json_model raw with
    | Err e => Err (Failed e)
    | Ok learned =>
      let found := CheckPeriod LoadLocation learned all (of_unix (cm_CoveredFrom cm)) (of_unix (cm_CoveredTo cm)) t in
      match period_findings all t rest with Ok more => Ok (found ++ more) | Err e => Err e end
    end
  end.

(** The quota of a key against its next deposit. *)
Definition quota_available (q : quota) : Z := wrap_int64 (wrap_int64 (TotalBytes (q_Profile q) - q_Used q) - q_Reserved q).
Definition quota_finding (k : key) (available nextSize : Z) : finding :=
  capacity_finding ("quota:" ++ k_ID k)%string (k_ID k)
    ("quota insufficiente per il prossimo backup previsto: chiave " ++ k_ID k ++ ", disponibili " ++ pretty available ++
     " byte, previsti " ++ pretty nextSize ++ " byte")%string.
Definition quota_fits (available nextSize : Z) : bool := negb ((available <? 0) || (wrap64 available <? nextSize)).
Definition quota_findings (quotas : list quota) (k : key) (nextSize : Z) : list finding :=
  match find_where (fun q => String.eqb (q_KeyID q) (k_ID k)) (rev quotas) with
  | None => []
  | Some q => if quota_fits (quota_available q) nextSize then [] else [quota_finding k (quota_available q) nextSize]
  end.
Fixpoint next_findings (v : snapshot) (all : list observation) (t : Z) (models : gmap string key_model) (keys : list key)
    : result failure (list finding) :=
  match keys with
  | [] => Ok []
  | k :: rest =>
    let learned := model_of models k in
    if negb (usable learned) then next_findings v all t models rest
    else
      match ForecastNextBackup LoadLocation learned t all with
      | Err e => Err (Failed e)
      | Ok nextSize =>
        match next_findings v all t models rest with
        | Ok more => Ok (quota_findings (sn_Quotas v) k nextSize ++ more)
        | Err e => Err e
        end
      end
  end.

(** What the minima of the keys need, each for its days and three more. *)
Fixpoint required_bytes (status : automation_status) (t required : Z) (models : list key_model) : result failure Z :=
  match models with
  | [] => Ok required
  | learned :: rest =>
    match Forecast48Hours LoadLocation [learned] t with
    | Err e => Err (Failed e)
    | Ok forecast =>
      let daily := DailyRequirement forecast in
      let days := RetentionDaysForKey status (km_KeyID learned) in
      if (days <? MinimumDays) || (365000 <? days) then Err (Failed (ErrText "minimo di conservazione non valido"))
      else
        let span := wrap64 (days + 3) in
        if usub (2^64 - 1) required / span <? daily then Err (Failed (ErrText "previsione spazio non rappresentabile"))
        else required_bytes status t (uadd required (umul daily span)) rest
    end
  end.

Record monitored : Type := Monitored { mo_Findings : list finding; mo_Reliable : bool; mo_Expected48h : Z; mo_Required : Z }.
(** The part after the plan, which asks the writer nothing more. *)
Definition assess (v : snapshot) (t : Z) (models : gmap string key_model) (scopes : list (check_model * string)) : result failure monitored :=
  let all := observations (sn_Backups v) [] in
  match period_findings all t scopes with
  | Err e => Err e
  | Ok found =>
    match next_findings v all t models (keys_in_use v) with
    | Err e => Err e
    | Ok quotas =>
      if negb (all_reliable v models) then Ok (Monitored (found ++ quotas) false 0 0)
      else
        let forecastModels := map (model_of models) (keys_in_use v) in
        match required_bytes (sn_Status v) t 0 forecastModels with
        | Err e => Err e
        | Ok required =>
          match Forecast48Hours LoadLocation forecastModels t with
          | Err e => Err (Failed e)
          | Ok expected48h => Ok (Monitored (found ++ quotas) true expected48h required)
          end
        end
    end
  end.
Definition monitor (v : snapshot) (checkID t : Z) : io (result failure monitored) :=
  if String.eqb (as_Timezone (sn_Status v)) "" then mret (Ok (Monitored [] false 0 0))
  else
    models ←? learn_missing v t (sn_Keys v) (saved_models v);
    scopes ←? call (planned_models checkID);
    mret (assess v t models scopes).
End monitor.

(** ** The arithmetic of the space *)
Lemma wrap64_id z : 0 <= z < 2^64 -> wrap64 z = z.
Proof. intros Hz. apply wrap64_small. unfold is_uint64, max_uint64. lia. Qed.
Lemma usub_exact a b : 0 <= b <= a -> a < 2^64 -> usub a b = a - b.
Proof. intros Hb Ha. unfold usub. apply wrap64_id. lia. Qed.
Lemma otherUsed_exact used catalog : 0 <= catalog -> 0 <= used < 2^64 -> otherUsed used catalog = Z.max 0 (used - catalog).
Proof. intros Hc Hu. unfold otherUsed. destruct (Z.ltb_spec catalog used); [rewrite usub_exact by lia|]; lia. Qed.
Lemma retention_fits_exact total other reserve required :
  0 <= total < 2^64 -> 0 <= other -> 0 <= reserve -> 0 <= required ->
  retention_fits total other reserve required = true <-> other + reserve + Z.max 1 required <= total.
Proof.
  intros Ht Ho Hr Hn. unfold retention_fits. rewrite negb_true_iff, !orb_false_iff, Z.leb_gt, Z.leb_gt, Z.ltb_ge.
  destruct (decide (other <= total)) as [Hle|]; [|lia]. rewrite (usub_exact total other) by lia.
  destruct (decide (reserve <= total - other)) as [Hle2|]; [|lia]. rewrite usub_exact by lia. lia.
Qed.
Lemma margin_fits_exact available expected reserve :
  0 <= available < 2^64 -> 0 <= expected < 2^64 -> 0 <= reserve < 2^64 ->
  margin_fits available expected reserve = true <-> expected + reserve <= available.
Proof.
  intros Ha He Hr. unfold margin_fits. rewrite negb_true_iff, orb_false_iff, !Z.ltb_ge, usub_exact by lia.
  destruct (decide (expected + reserve < 2^64)) as [Hs|]; [|lia]. unfold uadd. rewrite wrap64_id by lia. lia.
Qed.
Lemma catalog_bytes_exact backups n :
  Forall (fun b => 0 <= b_Size b) backups -> 0 <= n -> n + sum_by b_Size (List.filter counted_bytes backups) < 2^64 ->
  fold_left (fun n b => if counted_bytes b then uadd n (wrap64 (b_Size b)) else n) backups n = n + sum_by b_Size (List.filter counted_bytes backups).
Proof.
  intros Hb. revert n. induction Hb as [|b rest Hs Hrest IH]; intros n Hn Hsum; cbn [fold_left List.filter].
  - unfold sum_by. cbn. lia.
  - assert (0 <= sum_by b_Size (List.filter counted_bytes rest)) as Hpos.
    { clear -Hrest. induction Hrest as [|x l Hx _ IH]; cbn [List.filter]; [done|]. destruct (counted_bytes x); [|done]. rewrite sum_by_cons. lia. }
    cbn [List.filter] in Hsum. destruct (counted_bytes b); [|by apply IH]. rewrite sum_by_cons in *. rewrite (wrap64_id (b_Size b)) by lia.
    unfold uadd. rewrite wrap64_id by lia. rewrite IH; lia.
Qed.

(** What a key needs: its days and three more, of half its forecast. *)
Section needs.
Context `{Platform} (status : automation_status) (t : Z).
Definition daily_need (m : key_model) : Z := match Forecast48Hours LoadLocation [m] t with Ok f => DailyRequirement f | Err _ => 0 end.
Definition key_need (m : key_model) : Z := daily_need m * (RetentionDaysForKey status (km_KeyID m) + 3).
Lemma daily_need_range m : 0 <= daily_need m < 2^64.
Proof.
  unfold daily_need, DailyRequirement, uadd. destruct (Forecast48Hours _ _ _) as [f|]; [|lia].
  pose proof (wrap64_range (f / 2 + f mod 2)) as Hr. unfold is_uint64, max_uint64 in Hr. lia.
Qed.
Lemma required_bytes_exact models : forall n r, 0 <= n < 2^64 -> required_bytes status t n models = Ok r ->
  r = n + sum_by key_need models /\ 0 <= r < 2^64 /\ Forall (fun m => 7 <= RetentionDaysForKey status (km_KeyID m) <= 365000) models.
Proof.
  induction models as [|m models IH]; intros n r Hn; cbn [required_bytes].
  - intros [= <-]. unfold sum_by. cbn. split; [lia|done].
  - pose proof (daily_need_range m) as Hd. rewrite sum_by_cons. unfold key_need at 1, daily_need at 1. unfold daily_need in Hd.
    destruct (Forecast48Hours LoadLocation [m] t) as [f|]; [|done].
    destruct (_ || _) eqn:Edays; [done|]. apply orb_false_iff in Edays as [Hlo%Z.ltb_ge Hhi%Z.ltb_ge]. unfold MinimumDays in Hlo.
    set (days := RetentionDaysForKey status (km_KeyID m)) in *. set (daily := DailyRequirement f) in *.
    rewrite (wrap64_id (days + 3)) by lia. destruct (Z.ltb_spec (usub (2^64 - 1) n / (days + 3)) daily) as [|Hfit]; [done|].
    rewrite usub_exact in Hfit by lia. assert (daily * (days + 3) <= 2^64 - 1 - n) as Hmul.
    { pose proof (Z.mul_div_le (2^64 - 1 - n) (days + 3)). nia. }
    unfold umul, uadd. rewrite (wrap64_id (daily * (days + 3))) by nia. rewrite (wrap64_id (n + daily * (days + 3))) by nia.
    intros Hr. apply IH in Hr as (-> & Hrange & Hall); [|nia]. split; [lia|]. split; [lia|]. by constructor.
Qed.
End needs.
Lemma window_sum_range start events : forall sum v, is_uint64 sum -> window_sum start events sum = Ok v -> is_uint64 v.
Proof.
  induction events as [|e events IH]; intros sum v Hs; cbn [window_sum]; [by intros [= <-]|].
  destruct (negb _); [by apply IH|]. destruct (_ <? _); [done|]. apply IH, wrap64_range.
Qed.
Lemma largest_sum_range starts events : forall largest v, is_uint64 largest -> largest_sum starts events largest = Ok v -> is_uint64 v.
Proof.
  induction starts as [|start starts IH]; intros largest v Hl; cbn [largest_sum]; [by intros [= <-]|].
  destruct (window_sum start events 0) as [sum|] eqn:E; [|done]. cbn. apply IH. destruct (_ <? _); [|done].
  by apply (window_sum_range start events 0).
Qed.
Lemma forecast_range `{Platform} models t v : Forecast48Hours LoadLocation models t = Ok v -> 0 <= v < 2^64.
Proof.
  unfold Forecast48Hours. destruct (forecast_events _ _ _) as [events|]; [|done]. cbn.
  destruct (window_sum t events 0) as [sum|] eqn:E; [|done]. cbn. intros Hv%largest_sum_range; [unfold is_uint64, max_uint64 in Hv; lia|].
  destruct (_ <? _); [|done]. by apply (window_sum_range t events 0).
Qed.

(** The judgement on the space is exact: when every model is reliable and the
    measure of the filesystem is valid, the missing retention window is reported if and
    only if what is not of the archive, the reserve, and for every key in use its
    days of retention and three more of half its forecast exceed the filesystem, and
    the missing margin if and only if the forecast of 48 hours and the reserve exceed
    what is available; no sum of 64 bits overflows. *)
Lemma space_judged `{Platform, Trigonometry} v t models scopes found expected required fs total used available :
  assess v t models scopes = Ok (Monitored found true expected required) ->
  Filesystem_Bytes fs = Ok (total, used, available) ->
  0 <= as_ReserveFree (sn_Status v) < 2^63 ->
  let kept := recoverableBackups (sn_AcknowledgedMissingBackupIDs v) (sn_Backups v) in
  Forall (fun b => 0 <= b_Size b) kept -> sum_by b_Size (List.filter counted_bytes kept) < 2^64 ->
  exists findings, capacity_findings fs v expected required = Ok findings /\
    required = sum_by (fun k => key_need (sn_Status v) t (model_of models k)) (keys_in_use v) /\
    let others := Z.max 0 (used - sum_by b_Size (List.filter counted_bytes kept)) in
    (In window_finding findings <-> total < others + as_ReserveFree (sn_Status v) + Z.max 1 required) /\
    (In margin_finding findings <-> available < expected + as_ReserveFree (sn_Status v)).
Proof.
  intros Ha Hfs Hres kept Hsizes Hsum. unfold assess in Ha.
  destruct (period_findings _ _ _) as [periods|]; [|done]. destruct (next_findings _ _ _ _ _) as [quotas|]; [|done].
  destruct (negb _); [by injection Ha|].
  destruct (required_bytes _ _ _ _) as [r|] eqn:Er; [|done]. destruct (Forecast48Hours _ _ _) as [e|] eqn:Ee; [|done].
  injection Ha as <- <- <-. apply required_bytes_exact in Er as (-> & Hr & _); [|lia]. rewrite Z.add_0_l in *.
  apply forecast_range in Ee. rewrite sum_by_map in *.
  assert (0 <= total < 2^64 /\ 0 <= used < 2^64 /\ 0 <= available < 2^64) as (Ht & Hu & Hav).
  { unfold Filesystem_Bytes in Hfs. destruct (UsedBasisPoints fs); [|done]. cbn in Hfs. destruct (_ || _); [done|]. injection Hfs as <- <- <-.
    unfold umul. repeat match goal with |- context [wrap64 ?x] => let H := fresh in pose proof (wrap64_range x) as H; unfold is_uint64, max_uint64 in H; generalize dependent (wrap64 x); intros end. lia. }
  unfold capacity_findings. rewrite Hfs. fold kept. unfold catalog_bytes. rewrite catalog_bytes_exact by (done || lia). rewrite Z.add_0_l.
  assert (0 <= sum_by b_Size (List.filter counted_bytes kept)) as Hpos.
  { clear -Hsizes. induction Hsizes as [|x l Hx _ IH]; cbn [List.filter]; [done|]. destruct (counted_bytes x); [|done]. rewrite sum_by_cons. lia. }
  rewrite otherUsed_exact, (wrap64_id (as_ReserveFree _)) by lia. eexists. split; [reflexivity|]. split; [done|].
  pose proof (retention_fits_exact total (Z.max 0 (used - sum_by b_Size (List.filter counted_bytes kept))) (as_ReserveFree (sn_Status v))
    (sum_by (fun k => key_need (sn_Status v) t (model_of models k)) (keys_in_use v)) Ht) as Hw.
  pose proof (margin_fits_exact available e (as_ReserveFree (sn_Status v)) Hav Ee) as Hm.
  assert (window_finding <> margin_finding) as Hne by done.
  split; rewrite in_app_iff.
  - destruct (retention_fits _ _ _ _); [assert (~ (true = false)) by done|]; destruct (margin_fits _ _ _); cbn; intuition (try lia; try congruence).
  - destruct (retention_fits _ _ _ _); destruct (margin_fits _ _ _); cbn; intuition (try lia; try congruence).
Qed.

(** ** A filesystem that is nearly full *)
Module Space.
#[local] Existing Instance Scenario.platform.
#[local] Existing Instance History.constant.
Definition seen : snapshot :=
  Snapshot (read_status (archive Scenario.opening)) (MailSettings 0 "" 0 false "" "") [Key "k" "ufficio" "" "S" false] [] [] [] [] [] [] [] "" 0.
Definition models : gmap string key_model := {[ "k" := Growth.weekly ]}.
Definition full : filesystem := Filesystem 4 1 1 1000.
End Space.
