(* ===== verification/Cycle.v ===== *)
(** The maintenance cycle as a whole: the lock, the lease, the check, what each part
    leaves to the next, and what is done at the end whatever happened; the mail and
    the local record of the writer's outages ([RunOnce] and its parts,
    [src/internal/maintenance/service.go]). *)
From S2P Require Import Prelude GoTime GoFloat GoString Model Policy Schedule Forecast Catalog Anomalies Automation Retention RetentionMachine Deposit Checks Mail.
From S2P Require Import Store Archive Io Writer Custody Executor Execution Watch Api Serving Files Private Snapshot Report Monitor.

(** ** The computer of the maintenance process

    The archive that it shares with the writer, its own directory, the messages that a
    mail server took, the lock. *)
Record node : Type := Node {
  n_server : server; n_files : fs; n_outbox : list (mail_settings * mail_message); n_locked : bool }.
#[global] Instance eta_node : Settable node := fun s => Node (n_server s) (n_files s) (n_outbox s) (n_locked s).
Definition on_server {A} (m : io server A) : io node A := fun '(n, s) =>
  let '(r, (n', v)) := m (n, n_server s) in (r, (n', s <| n_server := v |>)).
Definition on_files {A} (m : io fs A) : io node A := fun '(n, s) =>
  let '(r, (n', v)) := m (n, n_files s) in (r, (n', s <| n_files := v |>)).

Record localState : Type := LocalState {
  lo_Settings : mail_settings; lo_UpdatedAt : Z; lo_WriterFailureOpened : Z; lo_WriterFailureMailed : Z }.
#[global] Instance eta_local : Settable localState := fun s =>
  LocalState (lo_Settings s) (lo_UpdatedAt s) (lo_WriterFailureOpened s) (lo_WriterFailureMailed s).
Definition no_settings : mail_settings := MailSettings 0 "" 0 false "" "".
Definition no_state : localState := LocalState no_settings 0 0 0.
Definition state_path : string := "maintenance/state.json".

Record statfs_t : Type := Statfs { st_Blocks : Z; st_Bfree : Z; st_Bavail : Z; st_Bsize : Z }.
Definition stat_filesystem (stat : statfs_t) : result failure filesystem :=
  if st_Bsize stat <=? 0 then Err (Failed (ErrText "dimensione blocco filesystem non valida"))
  else Ok (Filesystem (st_Blocks stat) (st_Bfree stat) (st_Bavail stat) (st_Bsize stat)).

(** What the deferred calls of [RunOnce] look at. *)
Record captured : Type := Captured { cp_settings : option mail_settings; cp_completed : bool }.
Definition part (A : Type) : Type := captured -> io node (captured * result failure A).
#[global] Instance part_ret : MRet part := fun A a c => mret (c, Ok a).
#[global] Instance part_bind : MBind part := fun A B f m c =>
  r ← m c;
  match r with (c', Ok a) => f a c' | (c', Err e) => mret (c', Err e) end.
(** [if err := m(); err != nil { return err }] *)
Definition doing {A} (m : io node (result failure A)) : part A := fun c => r ← m; mret (c, r).
Definition noting (f : captured -> captured) : part unit := fun c => mret (f c, Ok tt).
Definition snapshot_taken (v : snapshot) : part unit := noting (fun c => Captured (Some (sn_Settings v)) (cp_completed c)).
Definition check_done : part unit := noting (fun c => Captured (cp_settings c) true).

(** [owner]: of the lease; [mail]: whether there is a sender; [stat]: statfs(2). *)
Section cycle.
Context `{Platform, Trigonometry} (linked : bool) (error_text : failure -> string) (decode : string -> string -> result err fields).
Context (marshal_model : key_model -> string) (state_json : localState -> string) (parse_state : string -> localState * option err).
Context (owner : string) (mail : bool) (stat : nat -> statfs_t).
Context (env : nat -> server -> server) (fate_of : nat -> fate) (clock : nat -> Z) (tokens : nat -> string) (short : nat -> option Z) (turns : nat).

Abbreviation io := (Io.io node).
Abbreviation call := (Monitor.call env fate_of clock).
Abbreviation local m := (on_files m).

(** *** The local state *)
Definition read_state (s : fs) : result failure string * fs :=
  match inode_of s state_path with
  | Ok (_, Regular content) => (Ok content, s)
  | Ok _ => (Err (OsError (EOTHER "is a directory")), s)
  | Err e => (Err e, s)
  end.
Definition loadLocalState : io (localState * option failure) :=
  r ← local (Io.act alone fate_of read_state);
  mret (match r with
        | Err e => (no_state, Some e)
        | Ok data => let '(state, e) := parse_state data in (state, Failed <$> e)
        end).
Definition write_state (state : localState) : io (result failure unit) :=
  local (atomicPrivateFile fate_of short state_path (state_json state)).
Definition saveLocalState (settings : mail_settings) : io (result failure unit) :=
  _ ←? local (Io.act alone fate_of unseen);                     (* os.MkdirAll *)
  loaded ← loadLocalState;
  t ← Io.now clock;
  write_state ((fst loaded) <| lo_Settings := settings |> <| lo_UpdatedAt := unix t |>).

(** *** Requests to the writer *)
Definition openFinding (f : finding) : io (result failure bool) :=
  on_server (call (fun t => openAnomalyAt (f_StableKey f) (f_Kind f) (f_KeyID f) (f_BackupID f) (f_Detail f)
                              (if f_At f =? zero_time then t else f_At f) t)).
Definition resolve (stableKey : string) : io (result failure bool) := on_server (call (ResolveAnomaly stableKey)).
Definition queueReport (stableID subject body : string) (periodic : bool) : io (result failure unit) :=
  on_server (call (if periodic then QueuePeriodicReport stableID subject body else QueueReport stableID subject body)).
Definition snapshot_now : io (result failure snapshot) :=
  on_server (readSnapshot error_text decode env fate_of clock tokens turns).

(** *** Mail *)
(** [Sender.Send]: the mail server takes the message, or not. *)
Definition Send (settings : mail_settings) (m : mail_message) : io (result failure unit) :=
  Io.act alone fate_of (fun s => (Ok tt, s <| n_outbox ::= fun sent => sent ++ [(settings, m)] |>)).
Definition delivery_finding (detail : string) : finding := catalog_finding "smtp:delivery" "smtp" "" "" detail.
Fixpoint deliver (settings : mail_settings) (messages : list mail_message) : io (result failure unit) :=
  match messages with
  | [] => mret (Ok tt)
  | m :: rest =>
    r ← Send settings m;
    _ ←? on_server (call (ConfirmMail (m_ID m) (match r with Ok _ => "" | Err e => error_text e end) (ms_ConfigVersion settings)));
    _ ← match r with
        | Err e => openFinding (delivery_finding (error_text e))
        | Ok _ => resolve "smtp:delivery"
        end;
    deliver settings rest
  end.
Definition due_mail : io (result failure (list mail_message)) :=
  on_server (Io.rpc env fate_of (t ← Io.now clock; Executor.query env fate_of (DueMail t 20))).
Definition deliverMail (settings : mail_settings) : io (result failure unit) :=
  if negb mail || String.eqb (ms_Host settings) "" then mret (Ok tt)
  else messages ←? due_mail; deliver settings messages.

(** *** The outages of the writer *)
Definition outage_message (opened : Z) (detail : string) : mail_message :=
  MailMessage 0 ("writer-down:" ++ pretty opened) "anomaly" "OnlyBackup: writer non disponibile" detail 0 0 0 0 "".
Definition a_day : Z := 24 * 3600.
Definition NotifyWriterFailure (detail : string) : io (result failure unit) :=
  if negb mail then mret (Ok tt)
  else
    loaded ← loadLocalState;
    match loaded with
    | (_, Some e) => mret (Err e)
    | (state, None) =>
      t ← Io.now clock;
      let state := if lo_WriterFailureOpened state =? 0 then state <| lo_WriterFailureOpened := unix t |> else state in
      if negb (lo_WriterFailureMailed state =? 0) && (unix t - lo_WriterFailureMailed state <? a_day) then mret (Ok tt)
      else
        _ ←? Send (lo_Settings state) (outage_message (lo_WriterFailureOpened state) detail);
        write_state (state <| lo_WriterFailureMailed := unix t |>)
    end.
Definition outage_finding (opened : Z) : finding :=
  catalog_finding ("writer-unavailable:" ++ pretty opened) "service" "" ""
    "writer non disponibile durante il periodo registrato dallo stato locale maintenance".
Definition reconcileWriterFailure : io (result failure unit) :=
  loaded ← loadLocalState;
  match loaded with
  | (_, Some _) => mret (Ok tt)
  | (state, None) =>
    if lo_WriterFailureOpened state =? 0 then mret (Ok tt)
    else
      _ ←? openFinding (outage_finding (lo_WriterFailureOpened state));
      _ ←? resolve (f_StableKey (outage_finding (lo_WriterFailureOpened state)));
      write_state (state <| lo_WriterFailureOpened := 0 |> <| lo_WriterFailureMailed := 0 |>)
  end.

(** *** The cycle *)
Definition StatFilesystem : io (result failure filesystem) := fun '(n, s) =>
  Io.act alone fate_of (fun s => (stat_filesystem (stat n), s)) (n, s).
Definition filesystem_finding (detail : string) : finding := catalog_finding "filesystem:archive" "filesystem" "" "" detail.
(** [err := ctx.Err()] *)
Definition live : io (result failure unit) := on_server (Executor.ctx_err env fate_of).
Definition executing (l : lease) (v : snapshot) (operations : list operation) : part unit :=
  doing (on_server (processOperations linked error_text env fate_of clock tokens l (sn_Backups v) operations)).
Definition committed (op : operation) : bool := has_state OpAuthorized op && o_ExecutionCommitted op.
(** [if err := s.call(ctx, "GET", "/v1/snapshot", nil, &snapshot)] *)
Definition refresh : part snapshot := v ← doing snapshot_now; _ ← snapshot_taken v; mret v.
(** What is left of earlier cycles: the operations in doubt, those with the final
    permission, the outages of the writer. *)
Definition recover_work (l : lease) : part snapshot :=
  v ← refresh;
  _ ← doing (saveLocalState (sn_Settings v));
  _ ← doing reconcileWriterFailure;
  _ ← doing (on_server (reconcile env fate_of clock l (sn_Operations v)));
  v ← refresh;
  let operations := List.filter committed (sn_Operations v) in
  _ ← executing l v operations;
  if Nat.eqb (length operations) 0 then mret v else refresh.

(** What is amiss with the files, as a later snapshot has it. *)
Definition watch_files (v : snapshot) : part (snapshot * list finding) :=
  found ← doing (r ← on_server (fileFindings error_text env fate_of (sn_Backups v) (sn_AcknowledgedMissingBackupIDs v)); mret (Ok r));
  _ ← doing live;
  verified ← doing snapshot_now;
  found ← doing (r ← on_server (verifyUnexpectedFiles env fate_of found (sn_Backups verified)); mret (Ok r));
  _ ← doing live;
  _ ← snapshot_taken verified;
  mret (verified, found).

Definition measure : part filesystem := fun c =>
  r ← StatFilesystem;
  match r with
  | Ok fs => mret (c, Ok fs)
  | Err e => _ ← openFinding (filesystem_finding (error_text e)); mret (c, Err e)
  end.
Definition complete_check (id : Z) (v : snapshot) (t : Z) (reliable : bool) (findings : list finding) : io (result failure unit) :=
  on_server (call (CompleteMonitoringCheck id (if Nat.eqb (length findings) 0 then CheckClean else CheckAnomalies)
    (findingsSummary findings) (if reliable then MonitoringRegular else MonitoringLearning) (revision_of v t) findings)).
Definition clear_blocks (operations : list operation) : io (result failure unit) :=
  on_server (each (fun op => r ← call (TryClearResolvedMaintenanceBlock (o_ID op)); mret (match r with Ok _ => Ok tt | Err e => Err e end)) operations).
(** The check of a cycle, to its completion. *)
Definition check_all (id t : Z) (fs : filesystem) (v : snapshot) : part (snapshot * list finding * monitored) :=
  watched ← watch_files v;
  let '(v, found) := watched in
  seen ← doing (on_server (monitor marshal_model env fate_of clock v id t));
  capacity ← doing (mret (if mo_Reliable seen then capacity_findings fs v (mo_Expected48h seen) (mo_Required seen) else Ok []));
  let findings := found ++ mo_Findings seen ++ capacity in
  _ ← doing (complete_check id v t (mo_Reliable seen) findings);
  _ ← check_done;
  mret (v, findings, seen).

(** The mail about the anomalies: a reminder a day, a report every three days. *)
Definition reminder_lines (t : Z) (anomalies : list anomaly) : list string :=
  sort_strings (map (fun a => a_StableKey a ++ ": " ++ a_Detail a)%string (List.filter (fun a => a_day <=? unix t - a_OpenedAt a) anomalies)).
Definition remind (t : Z) (v : snapshot) : part unit :=
  match reminder_lines t (sn_Anomalies v) with
  | [] => mret tt
  | lines => doing (queueReport ("reminder:" ++ pretty (Z.quot (unix t) a_day)) "OnlyBackup: promemoria anomalie attive" (String.concat newline lines) false)
  end.
Definition report_due (t : Z) (v : snapshot) : bool :=
  (as_NextReportAt (sn_Status v) =? 0) || (as_NextReportAt (sn_Status v) <=? unix t).
Definition report (t : Z) (fs : filesystem) (v : snapshot) (operations : list operation) (findings : list finding) : part unit :=
  if negb (report_due t v) then mret tt
  else
    now ← doing (now ← Io.now clock; mret (Ok now));
    let shown := Snapshot (sn_Status v) (sn_Settings v) (sn_Keys v) (sn_Quotas v) (sn_Backups v) operations (sn_Anomalies v) (sn_Exclusions v)
      (sn_AcknowledgedMissingBackupIDs v) (sn_Models v) (sn_NextBackupID v) (sn_BackupsThrough v) in
    doing (queueReport ("report:" ++ pretty (Z.quot (unix t) (3 * a_day))) "OnlyBackup: report periodico" (buildEmailReport shown fs findings now) true).
Definition revoked_map (v : snapshot) : gmap string bool := list_to_map (rev (map (fun k => (k_ID k, k_Revoked k)) (sn_Keys v))).
Definition deletions_open (v : snapshot) : bool :=
  as_Enabled (sn_Status v) && negb (as_DeletionBlocked (sn_Status v)) && String.eqb (as_MonitoringState (sn_Status v)) MonitoringRegular.
(** The requests of the automation. *)
Definition schedule (t : Z) (fs : filesystem) (v : snapshot) (expected48h : Z) : part unit :=
  if negb (deletions_open v) then mret tt
  else
    _ ← doing (on_server (schedulePurges error_text env fate_of clock owner (sn_Status v) (fun k => default false (revoked_map v !! k))
                 (sn_AcknowledgedMissingBackupIDs v) (sn_Backups v) t));
    doing (on_server (scheduleAutomatic env fate_of clock owner (sn_Status v) fs (revoked_map v)
             (sn_AcknowledgedMissingBackupIDs v) (sn_Backups v) expected48h t (date_key UTC t))).

Definition with_refreshed (v refreshed : snapshot) : snapshot :=
  Snapshot (sn_Status refreshed) (sn_Settings v) (sn_Keys v) (sn_Quotas v) (sn_Backups v) (sn_Operations v) (sn_Anomalies refreshed) (sn_Exclusions v)
    (sn_AcknowledgedMissingBackupIDs v) (sn_Models v) (sn_NextBackupID v) (sn_BackupsThrough v).
Definition work (l : lease) (id t : Z) : part unit :=
  v ← recover_work l;
  fs ← measure;
  checked ← check_all id t fs v;
  let '(v, findings, seen) := checked in
  _ ← doing (clear_blocks (sn_Operations v));
  _ ← doing (on_server (recordFindings env fate_of clock findings (sn_Anomalies v)));
  refreshed ← doing snapshot_now;
  let v := with_refreshed v refreshed in
  _ ← remind t v;
  _ ← report t fs v (sn_Operations refreshed) findings;
  _ ← schedule t fs v (mo_Expected48h seen);
  v ← refresh;
  executing l v (sn_Operations v).

(** *** What is done at the end *)
Definition result_text (r : result failure unit) : string := match r with Ok _ => "controllo interrotto" | Err e => error_text e end.
Definition fail_check (id : Z) (r : result failure unit) : io (result failure unit) := on_server (call (FailMonitoringCheck id (result_text r))).
Definition release (l : lease) : io (result failure unit) := on_server (call (fun _ => ReleaseMaintenanceLease l)).
(** With the lease: the check is started, and failed if it was not completed. *)
Definition with_lease (l : lease) : io (captured * result failure unit) :=
  started ← on_server (call StartMonitoringCheck);
  match started with
  | Err e => mret (Captured None false, Err e)
  | Ok check =>
    done ← work l (c_ID check) (of_unix (c_StartedAt check)) (Captured None false);
    _ ← (if cp_completed (fst done) then mret (Ok tt) else fail_check (c_ID check) (snd done));
    mret done
  end.
(** With the lock. *)
Definition with_lock : io (result failure unit) :=
  acquired ← on_server (Io.rpc env fate_of (handle_lease env fate_of clock owner 0 maintenanceLeaseDuration));
  match acquired with
  | Err e => mret (Err e)
  | Ok l =>
    done ← with_lease l;
    _ ← release l;
    match cp_settings (fst done) with
    | None => mret (snd done)
    | Some settings =>
      sent ← deliverMail settings;
      mret (match snd done with Ok _ => sent | Err e => Err e end)
    end
  end.
Definition ErrExecutorActive : err := ErrText "un altro ciclo maintenance e gia attivo".
Definition lockExecution : io (result failure unit) := Io.act alone fate_of (fun s =>
  if n_locked s then (Err (Failed ErrExecutorActive), s) else (Ok tt, s <| n_locked := true |>)).
Definition unlockExecution : io unit := fun '(n, s) => (Some tt, (n, s <| n_locked := false |>)).
Definition RunOnce : io (result failure unit) :=
  _ ←? lockExecution;
  r ← with_lock;
  _ ← unlockExecution;
  mret r.
End cycle.

(** A cycle on an archive: the parameters of the process, its own directory, the mail
    sent before. *)
Record maintenance : Type := Maintenance {
  mt_math : Trigonometry; mt_model : key_model -> string; mt_state : localState -> string; mt_parse : string -> localState * option err;
  mt_owner : string; mt_mail : bool; mt_stat : nat -> statfs_t; mt_turns : nat; mt_files : fs; mt_outbox : list (mail_settings * mail_message) }.
#[global] Arguments Maintenance {_}.
Definition cycle_on `{Platform} (linked : bool) (error_text : failure -> string) (decode : string -> string -> result err fields) (m : maintenance)
    (env : nat -> server -> server) (fate_of : nat -> fate) (clock : nat -> Z) (tokens : nat -> string) (short : nat -> option Z) : io server (result failure unit) :=
  fun '(n, s) =>
    let '(r, (n', v)) := RunOnce (H0 := mt_math m) linked error_text decode (mt_model m) (mt_state m) (mt_parse m) (mt_owner m) (mt_mail m) (mt_stat m)
      env fate_of clock tokens short (mt_turns m) (n, Node s (mt_files m) (mt_outbox m) false) in
    (r, (n', n_server v)).
