(* ===== verification/Cycling.v ===== *)
(** The custody of the archive through a whole maintenance cycle, whatever fails in it
    and whatever else goes on; and what a cycle leaves behind when it returns
    ([RunOnce], [src/internal/maintenance/service.go]). *)
From S2P Require Import Prelude GoTime GoFloat GoString Model Policy Schedule Forecast Catalog Anomalies Automation Retention RetentionMachine Deposit Checks Mail.
From S2P Require Import Store Archive Io Writer Custody Executor Execution Watch Api Serving Files Private Snapshot Report Monitor Cycle.

(** ** Computations of the two parts of a node *)
Lemma triple_node_server {A} P (m : io server A) Q R :
  triple P m Q R -> triple (fun s => P (n_server s)) (on_server m) (fun a s => Q a (n_server s)) (fun s => R (n_server s)).
Proof. intros Hm n s Hs. specialize (Hm n (n_server s) Hs). unfold on_server. by destruct (m (n, n_server s)) as [[a|] [n' v]]. Qed.
Lemma triple_node_files {A} (P : server -> Prop) (m : io fs A) :
  triple (fun s => P (n_server s)) (on_files m) (fun _ s => P (n_server s)) (fun s => P (n_server s)).
Proof. intros n s Hs. unfold on_files. by destruct (m (n, n_files s)) as [[a|] [n' v]]. Qed.

Section custody.
Context `{Platform, Trigonometry} (linked : bool) (error_text : failure -> string) (decode : string -> string -> result err fields).
Context (marshal_model : key_model -> string) (state_json : localState -> string) (parse_state : string -> localState * option err).
Context (owner : string) (mail : bool) (stat : nat -> statfs_t).
Context (env : nat -> server -> server) `{!Bystanders linked env}.
Context (fate_of : nat -> fate) (clock : nat -> Z) (tokens : nat -> string) (short : nat -> option Z) (turns : nat).
Context (rows : list backup).
Abbreviation C := (keeps linked rows).
Abbreviation N := (fun s : node => C (n_server s)).
Abbreviation on m := (triple N m (fun _ => N) N).
Abbreviation kept m := (triple C m (fun _ => C) C).
Abbreviation call := (Monitor.call env fate_of clock).

Lemma stable_C : Stable env C.
Proof. by apply stable_custody. Qed.
Lemma kept_rpc {A} (m : Io.io server (result failure A)) : kept m -> kept (Io.rpc env fate_of m).
Proof. intros Hm. pose proof stable_C. by apply (triple_call linked rows env fate_of C). Qed.
Lemma kept_bind {A B} (m : Io.io server A) (f : A -> Io.io server B) : kept m -> (forall a, kept (f a)) -> kept (m ≫= f).
Proof. intros Hm Hf. by eapply triple_bind. Qed.
Lemma kept_request {A} (m : Z -> tx A) : (forall t, exists c, as_call (m t) c /\ records_fact c = false) -> kept (call m).
Proof.
  intros Hm. apply kept_rpc, kept_now. intros t. destruct (Hm t) as (c & Hc & Hf). by apply (kept_call linked rows env fate_of (m t) c).
Qed.
(** Effects that only look. *)
Lemma kept_look {A} (effect : server -> result failure A * server) : (forall s, snd (effect s) = s) -> kept (Io.act env fate_of effect).
Proof. intros He. apply triple_act_inv; [apply stable_C|]. intros s Hs. by rewrite He. Qed.
Lemma on_kept {A} (m : Io.io server A) : kept m -> on (on_server m).
Proof. apply triple_node_server. Qed.

Lemma on_bind {A B} (m : Io.io node A) (f : A -> Io.io node B) : on m -> (forall a, on (f a)) -> on (m ≫= f).
Proof. intros Hm Hf. by eapply triple_bind. Qed.
Lemma on_try {A B} (m : Io.io node (result failure A)) (f : A -> Io.io node (result failure B)) : on m -> (forall a, on (f a)) -> on (io_try m f).
Proof. intros Hm Hf. apply on_bind; [done|]. intros [a|e]; [apply Hf|by apply triple_ret]. Qed.
Lemma on_ret {A} (a : A) : on (mret a).
Proof. by apply triple_ret. Qed.
Lemma on_now : on (Io.now clock).
Proof. by apply (triple_now clock N N (fun _ => N)). Qed.
Lemma on_local {A} (m : Io.io fs A) : on (on_files m).
Proof. apply triple_node_files. Qed.
(** Effects of the node that are not on the archive. *)
Lemma on_apart {A} (effect : node -> result failure A * node) : (forall s, n_server (snd (effect s)) = n_server s) -> on (Io.act alone fate_of effect).
Proof. intros He. apply triple_act_inv; [apply _|]. intros s Hs. by rewrite He. Qed.

Lemma on_openFinding f : on (openFinding env fate_of clock f).
Proof.
  unfold openFinding. apply on_kept, kept_request. intros t.
  exists (COpenAnomalyAt (f_StableKey f) (f_Kind f) (f_KeyID f) (f_BackupID f) (f_Detail f) (if f_At f =? zero_time then t else f_At f) t).
  split; [by apply as_ignored|done].
Qed.
Lemma on_resolve k : on (resolve env fate_of clock k).
Proof. unfold resolve. apply on_kept, kept_request. intros t. exists (CResolveAnomaly k t). split; [by apply as_ignored|done]. Qed.
Lemma on_report i u b p : on (queueReport env fate_of clock i u b p).
Proof.
  unfold queueReport. apply on_kept, kept_request. intros t. destruct p.
  - exists (CQueuePeriodicReport i u b t). by split.
  - exists (CQueueReport i u b t). by split.
Qed.
Lemma on_confirm_mail id e v : on (on_server (call (ConfirmMail id e v))).
Proof. apply on_kept, kept_request. intros t. exists (CConfirmMail id e v t). by split. Qed.
Lemma on_fail id r : on (fail_check error_text env fate_of clock id r).
Proof. apply on_kept, kept_request. intros t. exists (CFailCheck id (result_text error_text r) t). by split. Qed.
Lemma on_release l : on (release env fate_of clock l).
Proof. apply on_kept, kept_request. intros t. exists (CReleaseLease l). by split. Qed.
Lemma on_complete id v t reliable found : on (complete_check env fate_of clock id v t reliable found).
Proof. apply on_kept, kept_request. intros t'. eexists (CCompleteCheck id _ _ _ _ _ t'). by split. Qed.
Lemma on_start : on (on_server (call StartMonitoringCheck)).
Proof. apply on_kept, kept_request. intros t. exists (CStartCheck t). split; [by apply as_ignored|done]. Qed.
Lemma as_planned id t : as_call (planned_models id t) (CPlanCheck id t).
Proof.
  intros d. change (exec (CPlanCheck id t) d) with (snd (commit (ignore (PlanMonitoringCheck id t)) d)).
  unfold commit, planned_models, ignore, tx_get, mbind, tx_bind. by destruct (PlanMonitoringCheck id t d) as [[a d']|e].
Qed.

(** *** The parts *)
Ltac on_step := first
  [ apply on_ret | apply on_now | apply on_local | apply on_openFinding | apply on_resolve | apply on_report
  | apply on_confirm_mail | apply on_try; [|intros ?] | apply on_bind; [|intros ?]
  | match goal with
    | |- triple _ (if ?c then _ else _) _ _ => destruct c
    | |- triple _ (match ?r with _ => _ end) _ _ => destruct r
    end ].
Lemma on_load : on (loadLocalState parse_state fate_of).
Proof. unfold loadLocalState. repeat on_step. Qed.
Lemma on_save settings : on (saveLocalState state_json parse_state fate_of clock short settings).
Proof. unfold saveLocalState, write_state. on_step; [on_step|]. on_step; [apply on_load|]. repeat on_step. Qed.
Lemma on_outages : on (reconcileWriterFailure state_json parse_state env fate_of clock short).
Proof. unfold reconcileWriterFailure, write_state. on_step; [apply on_load|]. repeat on_step. Qed.
Lemma on_deliver settings messages : on (deliver error_text env fate_of clock settings messages).
Proof.
  induction messages as [|m messages IH]; cbn [deliver]; [apply on_ret|]. on_step; [by apply on_apart|].
  repeat (on_step || exact IH).
Qed.
Lemma on_deliverMail settings : on (deliverMail error_text mail env fate_of clock settings).
Proof.
  unfold deliverMail. on_step; [apply on_ret|]. on_step; [|apply on_deliver].
  apply on_kept, kept_rpc, kept_now. intros t. by apply (kept_query linked rows env fate_of).
Qed.
Lemma kept_each {A} (f : A -> Io.io server (result failure unit)) l : (forall x, kept (f x)) -> kept (each f l).
Proof. by apply (triple_each_keep linked rows). Qed.

Ltac kept_step := lazymatch goal with
  | |- triple _ (mret _) _ _ => by apply triple_ret
  | |- triple _ (Io.act _ _ _) _ _ => apply kept_look; reflexivity
  | |- triple _ (each _ _) _ _ => apply kept_each; intros ?
  | |- triple _ (_ ≫= _) _ _ => apply kept_bind; [|intros ?]
  | |- triple _ (if ?c then _ else _) _ _ => destruct c
  | |- triple _ (match ?r with _ => _ end) _ _ => destruct r
  end.
Lemma kept_valid_file d b : kept (Executor.valid_file env fate_of d b).
Proof. unfold Executor.valid_file, Executor.lstat. repeat kept_step. Qed.
Lemma kept_fileFindings backups acknowledged : kept (fileFindings error_text env fate_of backups acknowledged).
Proof.
  assert (kept (rows_findings env fate_of acknowledged backups)) as Hr.
  { induction backups as [|b backups IH]; cbn [rows_findings]; unfold row_findings, Executor.lstat, Executor.ctx_err; repeat (kept_step || apply kept_valid_file || exact IH). }
  unfold fileFindings, directory_findings. repeat (exact Hr || kept_step).
Qed.
Lemma kept_verifyUnexpected found backups : kept (verifyUnexpectedFiles env fate_of found backups).
Proof.
  induction found as [|f found IH]; cbn [verifyUnexpectedFiles]; unfold Executor.ctx_err; repeat (kept_step || apply kept_valid_file || exact IH).
Qed.
Lemma kept_recordFindings found anomalies : kept (recordFindings env fate_of clock found anomalies).
Proof.
  unfold recordFindings. repeat kept_step. apply kept_rpc, kept_now. intros t.
  apply (kept_call linked rows env fate_of _ (CResolveAnomaly (a_StableKey x) t)); [by apply as_ignored|done].
Qed.
Lemma kept_schedulePurges status revoked acknowledged backups t :
  kept (schedulePurges error_text env fate_of clock owner status revoked acknowledged backups t).
Proof.
  unfold schedulePurges. repeat kept_step. apply kept_rpc, kept_now. intros t'.
  apply (kept_call linked rows env fate_of _ (CRequestPurge (b_ID x) "automatic" owner "quarantena minima completata" t')); [by apply as_ignored|done].
Qed.
Lemma kept_scheduleAutomatic status fs revoked acknowledged backups expected48h t day :
  kept (scheduleAutomatic env fate_of clock owner status fs revoked acknowledged backups expected48h t day).
Proof.
  unfold scheduleAutomatic. destruct (automatic_selection _ _ _ _ _ _ _) as [selection|]; [|by apply triple_ret].
  repeat kept_step.
  - apply kept_rpc, kept_now. intros t'. eapply (kept_call linked rows env fate_of _ (CRequestQuarantine (b_ID x) "automatic" owner _ t')); [by apply as_ignored|done].
  - apply kept_rpc, kept_now. intros t'. eapply (kept_call linked rows env fate_of _ (CQueueReport _ _ _ t')); [exact (as_run (CQueueReport _ _ _ t'))|done].
Qed.
Lemma kept_try {A B} (m : Io.io server (result failure A)) (f : A -> Io.io server (result failure B)) : kept m -> (forall a, kept (f a)) -> kept (io_try m f).
Proof. intros Hm Hf. apply kept_bind; [done|]. intros [a|e]; [apply Hf|by apply triple_ret]. Qed.
Lemma kept_monitor v id t : kept (monitor marshal_model env fate_of clock v id t).
Proof.
  unfold monitor. destruct (String.eqb _ _); [by apply triple_ret|]. apply kept_try.
  - generalize (saved_models v). induction (sn_Keys v) as [|k keys IH]; intros models; cbn [learn_missing]; [by apply triple_ret|].
    destruct (k_Revoked k); [apply IH|]. destruct (models !! k_ID k); [apply IH|]. destruct (Learn _ _ _ _ _) as [learned|]; [|by apply triple_ret].
    apply kept_try; [|intros _; apply IH]. apply kept_request. intros t'. by eexists (CSaveModel _ _ _ _ _ _ _ t').
  - intros models. apply kept_try; [|intros scopes; by apply triple_ret]. apply kept_request. intros t'. exists (CPlanCheck id t'). split; [apply as_planned|done].
Qed.
Lemma kept_clear_blocks operations : kept (each (fun op => r ← call (TryClearResolvedMaintenanceBlock (o_ID op)); mret (match r with Ok _ => Ok tt | Err e => Err e end)) operations).
Proof.
  repeat kept_step. apply kept_request. intros t. exists (CTryClear (o_ID x) t). split; [by apply as_ignored|done].
Qed.
End custody.

(** *** The cycle *)
Section whole.
Context `{Platform, Trigonometry} (linked : bool) (error_text : failure -> string) (decode : string -> string -> result err fields).
Context (marshal_model : key_model -> string) (state_json : localState -> string) (parse_state : string -> localState * option err).
Context (owner : string) (mail : bool) (stat : nat -> statfs_t).
Context (env : nat -> server -> server) `{!Bystanders linked env}.
Context (fate_of : nat -> fate) (clock : nat -> Z) (tokens : nat -> string) (short : nat -> option Z) (turns : nat).
Context (rows : list backup).
Abbreviation N := (fun s : node => keeps linked rows (n_server s)).
Abbreviation on m := (triple N m (fun _ => N) N).
(** The deposits of a snapshot are known too. *)
Abbreviation NV v := (fun s : node => keeps linked (rows ++ sn_Backups v) (n_server s)).

Definition inside {A} (p : part A) : Prop := forall c, on (p c).
Lemma inside_ret {A} (a : A) : inside (mret a).
Proof. intros c. by apply triple_ret. Qed.
Lemma inside_bind {A B} (p : part A) (f : A -> part B) : inside p -> (forall a, inside (f a)) -> inside (p ≫= f).
Proof. intros Hp Hf c. eapply triple_bind; [apply Hp|]. intros [c' [a|e]]; [apply Hf|by apply triple_ret]. Qed.
Lemma inside_doing {A} (m : Io.io node (result failure A)) : on m -> inside (doing m).
Proof. intros Hm c. eapply triple_bind; [exact Hm|]. intros r. by apply triple_ret. Qed.
Lemma inside_noting f : inside (noting f).
Proof. intros c. by apply triple_ret. Qed.

Lemma known_now : triple N (snapshot_now error_text decode env fate_of clock tokens turns)
  (fun r s => match r with Ok v => NV v s | Err _ => N s end) N.
Proof.
  unfold snapshot_now.
  eapply triple_weaken; [apply triple_node_server; apply (known_snapshot linked error_text decode env fate_of clock tokens rows turns)|done| |done].
  by intros [v|e].
Qed.
Lemma known_before v s : NV v s -> N s.
Proof. apply keeps_fewer. Qed.
Lemma on_snapshot : on (snapshot_now error_text decode env fate_of clock tokens turns).
Proof. eapply triple_weaken; [apply known_now|done| |done]. intros [v|e] s Hs; [by apply (known_before v)|done]. Qed.
Lemma known_refresh c : triple N (refresh error_text decode env fate_of clock tokens turns c)
  (fun r s => match snd r with Ok v => NV v s | Err _ => N s end) N.
Proof.
  unfold refresh. eapply (triple_bind _ _ _ _ (fun r s => match snd r with Ok v => NV v s | Err _ => N s end)).
  - eapply triple_bind; [apply known_now|]. intros r. by apply triple_ret.
  - intros [c' [v|e]]; by apply triple_ret.
Qed.
Lemma inside_refresh : inside (refresh error_text decode env fate_of clock tokens turns).
Proof. intros c. eapply triple_weaken; [apply known_refresh|done| |done]. intros [c' [v|e]] s Hs; [by apply (known_before v)|done]. Qed.
Lemma known_executing l v operations c :
  triple (NV v) (executing linked error_text env fate_of clock tokens l v operations c) (fun _ => N) N.
Proof.
  unfold executing, doing. eapply (triple_bind _ _ _ _ (fun _ => N)); [|intros r; by apply triple_ret].
  eapply triple_weaken; [apply triple_node_server; apply (triple_processOperations linked (rows ++ sn_Backups v))|done|..].
  - done.
  - intros b Hb. apply in_app_iff. by right.
  - intros r. apply known_before.
  - apply known_before.
Qed.
(** What follows a snapshot. *)
Lemma inside_known {B} (f : snapshot -> part B) : (forall v c, triple (NV v) (f v c) (fun _ => N) N) ->
  inside (v ← refresh error_text decode env fate_of clock tokens turns; f v).
Proof. intros Hf c. eapply triple_bind; [apply known_refresh|]. intros [c' [v|e]]; [apply Hf|by apply triple_ret]. Qed.

Lemma inside_recover l : inside (recover_work linked error_text decode state_json parse_state env fate_of clock tokens short turns l).
Proof.
  unfold recover_work. apply inside_bind; [apply inside_refresh|]. intros v.
  apply inside_bind; [apply inside_doing, on_save|]. intros _. apply inside_bind; [by apply inside_doing, (on_outages linked)|]. intros _.
  apply inside_bind; [by apply inside_doing, on_kept, triple_reconcile|]. intros _.
  apply inside_known. intros v2 c. eapply triple_bind; [apply known_executing|]. intros [c' [[]|e]]; [|by apply triple_ret].
  destruct (Nat.eqb _ _); [by apply triple_ret|apply inside_refresh].
Qed.
Lemma inside_watch v : inside (watch_files error_text decode env fate_of clock tokens turns v).
Proof.
  assert (on (live env fate_of)) as Hlive by (apply on_kept; unfold Executor.ctx_err; by apply (kept_look linked)).
  unfold watch_files. apply inside_bind.
  { apply inside_doing, on_bind; [by apply on_kept, (kept_fileFindings linked)|]. intros found. by apply on_ret. }
  intros found. apply inside_bind; [by apply inside_doing|]. intros _. apply inside_bind; [apply inside_doing, on_snapshot|]. intros verified.
  apply inside_bind.
  { apply inside_doing, on_bind; [by apply on_kept, (kept_verifyUnexpected linked)|]. intros found2. by apply on_ret. }
  intros found2. apply inside_bind; [by apply inside_doing|]. intros _. apply inside_bind; [apply inside_noting|]. intros _. apply inside_ret.
Qed.
Lemma inside_measure : inside (measure error_text stat env fate_of clock).
Proof.
  intros c. unfold measure. eapply (triple_bind _ _ _ _ (fun _ => N)).
  - intros n s Hs. unfold StatFilesystem. by apply (on_apart linked fate_of rows (fun s => (stat_filesystem (stat n), s)) (fun s => eq_refl) n s).
  - intros [fs|e]; [by apply triple_ret|]. apply on_bind; [by apply (on_openFinding linked)|]. intros _. by apply triple_ret.
Qed.
Lemma inside_check id t fs v : inside (check_all error_text decode marshal_model env fate_of clock tokens turns id t fs v).
Proof.
  unfold check_all. apply inside_bind; [apply inside_watch|]. intros [v2 found].
  apply inside_bind; [by apply inside_doing, on_kept, (kept_monitor linked)|]. intros seen.
  apply inside_bind; [apply inside_doing, on_ret|]. intros capacity. apply inside_bind; [by apply inside_doing, (on_complete linked)|]. intros _.
  apply inside_bind; [apply inside_noting|]. intros _. apply inside_ret.
Qed.
Lemma inside_remind t v : inside (remind env fate_of clock t v).
Proof. unfold remind. destruct (reminder_lines _ _); [apply inside_ret|by apply inside_doing, (on_report linked)]. Qed.
Lemma inside_report t fs v operations found : inside (report env fate_of clock t fs v operations found).
Proof.
  unfold report. destruct (negb _); [apply inside_ret|]. apply inside_bind.
  { apply inside_doing, on_bind; [apply on_now|]. intros now. apply on_ret. }
  intros now. by apply inside_doing, (on_report linked).
Qed.
Lemma inside_schedule t fs v expected48h : inside (schedule error_text owner env fate_of clock t fs v expected48h).
Proof.
  unfold schedule. destruct (negb _); [apply inside_ret|]. apply inside_bind; [by apply inside_doing, on_kept, (kept_schedulePurges linked)|].
  intros _. by apply inside_doing, on_kept, (kept_scheduleAutomatic linked).
Qed.
Lemma inside_work l id t :
  inside (work linked error_text decode marshal_model state_json parse_state owner stat env fate_of clock tokens short turns l id t).
Proof.
  unfold work. apply inside_bind; [apply inside_recover|]. intros v. apply inside_bind; [apply inside_measure|]. intros fs.
  apply inside_bind; [apply inside_check|]. intros [[v2 found] seen].
  apply inside_bind; [by apply inside_doing, on_kept, (kept_clear_blocks linked)|]. intros _.
  apply inside_bind; [by apply inside_doing, on_kept, (kept_recordFindings linked)|]. intros _.
  apply inside_bind; [apply inside_doing, on_snapshot|]. intros refreshed.
  apply inside_bind; [apply inside_remind|]. intros _. apply inside_bind; [apply inside_report|]. intros _.
  apply inside_bind; [apply inside_schedule|]. intros _. apply inside_known. intros v3 c. apply known_executing.
Qed.
Lemma on_with_lease l :
  on (with_lease linked error_text decode marshal_model state_json parse_state owner stat env fate_of clock tokens short turns l).
Proof.
  unfold with_lease. apply on_bind; [by apply (on_start linked)|]. intros [check|e]; [|by apply triple_ret].
  apply on_bind; [apply inside_work|]. intros done. apply on_bind; [|intros _; by apply triple_ret].
  destruct (cp_completed (fst done)); [by apply triple_ret|by apply (on_fail linked)].
Qed.
Lemma triple_RunOnce :
  on (RunOnce linked error_text decode marshal_model state_json parse_state owner mail stat env fate_of clock tokens short turns).
Proof.
  unfold RunOnce. apply on_try; [apply on_apart; intros s; by destruct (n_locked s)|]. intros _. apply on_bind; [|intros r; apply on_bind; [|intros _; by apply triple_ret]].
  - unfold with_lock. apply on_bind; [apply on_kept, (kept_rpc linked), triple_lease; done|]. intros [l|e]; [|by apply triple_ret].
    apply on_bind; [apply on_with_lease|]. intros done. apply on_bind; [by apply (on_release linked)|]. intros _.
    destruct (cp_settings (fst done)); [|by apply triple_ret]. apply on_bind; [by apply (on_deliverMail linked)|]. intros sent. by apply triple_ret.
  - by intros n s Hs.
Qed.
End whole.
Lemma triple_cycle_on `{Platform} linked error_text decode m env fate_of clock tokens short rows : Bystanders linked env ->
  triple (keeps linked rows) (cycle_on linked error_text decode m env fate_of clock tokens short) (fun _ => keeps linked rows) (keeps linked rows).
Proof.
  intros Hby n s Hs. unfold cycle_on.
  pose proof (triple_RunOnce (H0 := mt_math m) linked error_text decode (mt_model m) (mt_state m) (mt_parse m) (mt_owner m) (mt_mail m) (mt_stat m)
    env fate_of clock tokens short (mt_turns m) rows n (Node s (mt_files m) (mt_outbox m) false) Hs) as Hr.
  by destruct (RunOnce _ _ _ _ _ _ _ _ _ _ _ _ _ _ _ _) as [[a|] [n' v]].
Qed.
