(* ===== verification/System.v ===== *)
(** The archive as a whole: the writer, the reception of uploads, the restart and
    the maintenance cycle act in turn on one catalogue and its directories, each
    with failures and stops of its own and with the others at work meanwhile; what
    holds of every life of the system. *)
From S2P Require Import Cycle Cycling.
From S2P Require Import Prelude GoTime GoString Model Policy Catalog Anomalies Retention RetentionMachine Deposit Store Archive Io Writer.
From S2P Require Import Custody Reception Recovery Executor Execution Api Serving.

(** ** Lives of the system *)
Section system.
Context `{Platform} (linked : bool) (error_text : failure -> string) (decode : string -> string -> result err fields).

(** The circumstances of a run: the others at work, what fails, the clock, the
    random tokens, the writes that are cut short. *)
Record circumstances : Type := Circumstances {
  w_env : nat -> server -> server; w_fates : nat -> fate; w_clock : nat -> Z; w_tokens : nat -> string;
  w_short : nat -> option Z }.

(** [Request]: a call of the store by a command line or by an admission.  [Serve]: a
    request on one of the two sockets of the writer, whatever it holds.  [Upload]: the
    reception of an admitted upload.  [Restart]: the reconciliation before listening.
    [Cycle]: a whole cycle of the maintenance process.  [Maintain], [Settle]: the work
    of a cycle on operations, on the snapshot it was given. *)
Inductive activity : Type :=
| Request (c : call)
| Serve (admin : bool) (r : request)
| Upload (u : admission) (body : reader)
| Abandon (u : admission) (reason : string)
| Restart
| Cycle (m : maintenance)
| Maintain (l : lease) (rows : list backup) (operations : list operation)
| Settle (l : lease) (operations : list operation).

(** The state a run leaves, ended or stopped. *)
Definition leaves {A} (m : io server A) (s : server) : server := snd (snd (m (0%nat, s))).
Definition perform (a : activity) (w : circumstances) (s : server) : server :=
  match a with
  | Request c => s <| s_db := exec c (s_db s) |>
  | Serve admin r => leaves (handler decode (w_env w) (w_fates w) (w_clock w) (w_tokens w) admin r) s
  | Upload u body => leaves (Receive (w_env w) (w_fates w) (w_clock w) (w_short w) u body) s
  | Abandon u reason => leaves (Abort_ (w_env w) (w_fates w) (w_clock w) u reason) s
  | Restart => leaves (Reconcile (w_env w) (w_fates w) (w_clock w)) s
  | Cycle m => leaves (cycle_on linked error_text decode m (w_env w) (w_fates w) (w_clock w) (w_tokens w) (w_short w)) s
  | Maintain l rows ops =>
      leaves (processOperations linked error_text (w_env w) (w_fates w) (w_clock w) (w_tokens w) l rows ops) s
  | Settle l ops => leaves (reconcile (w_env w) (w_fates w) (w_clock w) l ops) s
  end.

(** When an activity may start: an upload was admitted, the restart is alone, a
    cycle works on deposits of the catalogue. *)
Definition admitted (a : activity) (w : circumstances) (s : server) : Prop :=
  match a with
  | Request c => records_fact c = false
  | Serve _ _ => Bystanders linked (w_env w)
  | Upload u _ => receiving_row (ad_Backup u) s /\ Concurrent linked (ad_Backup u) (w_env w)
  | Abandon _ _ => Bystanders linked (w_env w)
  | Restart => w_env w = alone
  | Cycle _ => Bystanders linked (w_env w)
  | Maintain _ rows _ => Bystanders linked (w_env w) /\ forall b, In b rows -> has_row b s
  | Settle _ _ => Bystanders linked (w_env w)
  end.

(** One activity; what may come after a state; what may come at all. *)
Inductive step (s : server) : server -> Prop :=
| step_activity a w : admitted a w s -> step s (perform a w s).
Definition later : server -> server -> Prop := rtc step.
Definition empty_server : server := Server initial_db ∅ ∅ ∅ 0.
Definition reachable (s : server) : Prop := later empty_server s.

(** *** The custody in every life *)
Lemma triple_leaves {A} P (m : io server A) (Q : A -> server -> Prop) R s :
  triple P m Q R -> P s -> (forall a s, Q a s -> R s) -> R (leaves m s).
Proof. intros Hm Hs HQ. specialize (Hm 0%nat s Hs). unfold leaves. destruct (m (0%nat, s)) as [[a|] [n s']]; cbn; eauto. Qed.

Lemma custody_empty : custody linked empty_server.
Proof.
  split; [apply initial_core_ok|]. split; [done|..]; intros name [x Hx]; cbn in Hx; by rewrite lookup_empty in Hx.
Qed.

Lemma triple_release (P : server -> Prop) u : (forall s k, P s -> P (s <| s_slots ::= k |>)) ->
  triple P (release u) (fun _ => P) P.
Proof. intros HP. unfold release. destruct (ad_released u); [by apply triple_ret|]. intros n s Hs. exact (HP s (fun k => k - 1) Hs). Qed.

Section rows.
Context (rows : list backup).
Abbreviation C := (keeps linked rows).

Lemma triple_Receive u body env fate_of clock short : Concurrent linked (ad_Backup u) env ->
  triple (upload linked rows (ad_Backup u)) (Receive env fate_of clock short u body)
    (fun r s => C s /\ receipt_ok (ad_Backup u) body (fst r) s) C.
Proof.
  intros Hconc. unfold Receive. eapply triple_bind; [by apply (triple_receive linked rows)|]. intros r.
  eapply (triple_bind _ _ _ _ (fun _ s => C s /\ receipt_ok (ad_Backup u) body r s)); [|by intros u'; apply triple_ret].
  eapply triple_weaken; [apply (triple_release (fun s => C s /\ receipt_ok (ad_Backup u) body r s))|done|done|by intros s []].
  intros s k [Hs Hr]. split; [by apply (keeps_same_files linked rows s)|]. by destruct r.
Qed.

Lemma triple_Abort u reason env fate_of clock : Bystanders linked env ->
  triple C (Abort_ env fate_of clock u reason) (fun _ => C) C.
Proof.
  intros Hby. unfold Abort_. eapply (triple_bind _ _ _ _ (fun _ => C)).
  - destruct (has_status _ _); [|by apply triple_ret]. eapply triple_bind; [by apply (triple_now clock C _ (fun _ => C))|]. intros t.
    eapply (triple_bind _ _ _ _ (fun _ => C)); [|by intros r; apply triple_ret].
    apply triple_act_inv; [by apply stable_custody|]. intros s Hs. by apply keeps_fail.
  - intros _. apply triple_release. intros s k Hs. by apply (keeps_same_files linked rows s).
Qed.
End rows.

Lemma perform_keeps rows a w s : keeps linked rows s -> admitted a w s -> keeps linked rows (perform a w s).
Proof.
  destruct a as [c|admin r|u body|u reason| |m|l snapshot ops|l ops]; cbn [perform admitted]; intros Hs Ha.
  - by apply keeps_request.
  - by apply (triple_leaves _ _ _ _ _ (triple_handler linked rows decode _ (w_fates w) (w_clock w) (w_tokens w) admin r)).
  - destruct Ha as [Hrow Hconc].
    by apply (triple_leaves _ _ _ _ _ (triple_Receive rows u body _ (w_fates w) (w_clock w) (w_short w) Hconc)); [split|intros r s' []].
  - by apply (triple_leaves _ _ _ _ _ (triple_Abort rows u reason _ (w_fates w) (w_clock w) Ha)).
  - rewrite Ha. by apply (triple_leaves _ _ _ _ _ (triple_Reconcile linked rows (w_fates w) (w_clock w))); [|intros r s' []].
  - by apply (triple_leaves _ _ _ _ _ (triple_cycle_on linked error_text decode m _ (w_fates w) (w_clock w) (w_tokens w) (w_short w) rows Ha)).
  - destruct Ha as [Hby Hrows]. assert (keeps linked (rows ++ snapshot) s) as Hs'.
    { split; [exact Hs|]. intros b [Hb|Hb]%in_app_iff; [by apply (ke_rows linked rows s Hs)|by apply Hrows]. }
    assert (forall x, In x snapshot -> In x (rows ++ snapshot)) as Hsub by (intros x Hx; apply in_or_app; by right).
    pose proof (triple_leaves _ _ _ _ s (triple_processOperations linked (rows ++ snapshot) _ (w_fates w) (w_clock w) (w_tokens w)
      error_text snapshot Hsub l ops) Hs' (fun _ s H => H)) as [H1 H2].
    split; [exact H1|]. intros b Hb. apply H2, in_or_app. by left.
  - by apply (triple_leaves _ _ _ _ _ (triple_reconcile linked rows _ (w_fates w) (w_clock w) l ops)).
Qed.

Lemma later_keeps rows s s' : later s s' -> keeps linked rows s -> keeps linked rows s'.
Proof. induction 1 as [|s s1 s' [a w Ha] _ IH]; [done|]. intros Hs. by apply IH, perform_keeps. Qed.
Lemma reachable_custody s : reachable s -> custody linked s.
Proof. intros Hs. apply (ke_custody linked []), (later_keeps [] _ _ Hs). split; [apply custody_empty|done]. Qed.

(** *** Where the deposits are *)
Definition stored (fs : dirs) (b : backup) : Prop := valid_in (d_published fs) b \/ valid_in (d_quarantine fs) b.
(** The purge of the deposit has the final permission. *)
Definition purge_permitted (s : server) (id : string) : Prop := authorized_for (core_of (s_db s)) id OpPurge true.
Lemma purge_permitted_iff s id : purge_permitted s id <->
  existsb (fun o => String.eqb (o_BackupID o) id && has_state OpAuthorized o && has_kind OpPurge o && o_ExecutionCommitted o)
    (d_operations (s_db s)) = true.
Proof.
  unfold purge_permitted, authorized_for, has_state, has_kind. rewrite existsb_exists. cbn.
  setoid_rewrite andb_true_iff. setoid_rewrite andb_true_iff. setoid_rewrite andb_true_iff.
  setoid_rewrite String.eqb_eq. setoid_rewrite bool_decide_eq_true. naive_solver.
Qed.
#[export] Instance purge_permitted_dec s id : Decision (purge_permitted s id).
Proof. refine (cast_if (decide (existsb _ (d_operations (s_db s)) = true))); by rewrite purge_permitted_iff. Defined.

Lemma authorized_dec c id : (exists kind cm, authorized_for c id kind cm) \/ (forall kind cm, ~ authorized_for c id kind cm).
Proof.
  destruct (existsb (fun o => String.eqb (o_BackupID o) id && has_state OpAuthorized o) (c_operations c)) eqn:E; [left|right].
  - apply existsb_exists in E as (o & Ho & [Hid%String.eqb_eq Hst%selected_state]%andb_true_iff).
    by exists (o_Kind o), (o_ExecutionCommitted o), o.
  - intros kind cm (o & Ho & Hid & Hst & _). apply not_true_iff_false in E. apply E, existsb_exists. exists o. split; [done|].
    by rewrite Hid, String.eqb_refl, (proj2 (selected_state _ _) Hst).
Qed.
Lemma moving_stored kind cm fs b : moving linked kind cm fs b -> ~ (kind = OpPurge /\ cm = true) -> stored fs b.
Proof.
  unfold moving, stored, in_both. intros [Hm|[-> [Hm|(_ & _ & ? & _)]]] Hk; [..|by left]; destruct kind; destruct Hm; auto; by destruct Hk.
Qed.
Lemma custody_stored s b : custody linked s -> In b (d_backups (s_db s)) -> deposited b = true -> b_Status b <> BackupDeleted ->
  ~ purge_permitted s (b_ID b) -> stored (files s) b.
Proof.
  intros Hs Hb Hd Hnd Hp. destruct (cu_placed _ _ _ (cu_files _ _ Hs) b Hb) as [Hm Hr].
  destruct (authorized_dec (core_of (s_db s)) (b_ID b)) as [(kind & cm & Ha)|Hn].
  - apply (moving_stored kind cm); [by apply Hm|]. intros [-> ->]. done.
  - specialize (Hr Hn). unfold deposited, has_status in Hd. destruct (b_Status b); try done; destruct Hr; [by left|by left|by right|by right].
Qed.
Lemma custody_status s b : custody linked s -> In b (d_backups (s_db s)) -> b_Status b = BackupComplete \/ b_Status b = BackupDeleted ->
  resting (b_Status b) (files s) b.
Proof.
  intros [Hok Hcu] Hb Hst. apply (pl_resting _ _ _ _ (cu_placed _ _ _ Hcu b Hb)). intros kind cm (o & Ho & Hid & Hs & _).
  assert (active_operation o = true) as Ha by (by apply active_states; right).
  destruct (ok_active _ Hok o Ho Ha) as (Hk & x & Hx & Hxid & Hxst).
  assert (x = b) as -> by (by apply (NoDup_map_in b_ID _ x b (ok_backup_ids _ Hok)); [done..|congruence]).
  rewrite Hxst in Hst. by destruct (o_Kind o), Hst.
Qed.

(** C1. No deposit is lost: in every life of the system, whatever calls fail before
    or after their effect and wherever a process stops, a complete copy is whole in
    the archive, a copy received and not deleted is whole in the archive or in the
    quarantine unless the final permission to purge it was recorded, a deleted copy
    is in neither, and the two directories hold files of deposits only. *)
Theorem no_deposit_lost s : reachable s ->
  (forall b, In b (d_backups (s_db s)) ->
     (b_Status b = BackupComplete -> in_archive (files s) b) /\
     (deposited b = true -> b_Status b <> BackupDeleted -> ~ purge_permitted s (b_ID b) -> stored (files s) b) /\
     (b_Status b = BackupDeleted -> nowhere (files s) b)) /\
  (forall d name, is_Some (entries d s !! name) -> exists b, In b (d_backups (s_db s)) /\ name = final_name b).
Proof.
  intros Hs%reachable_custody. split.
  - intros b Hb. split; [|split; [by apply custody_stored|]]; intros Hst;
      (pose proof (custody_status s b Hs Hb) as Hr; rewrite Hst in Hr; apply Hr; auto).
  - intros [] name Hn; [by apply (cu_published _ _ _ (cu_files _ _ Hs))|by apply (cu_quarantine _ _ _ (cu_files _ _ Hs))].
Qed.

(** What a reception that answered with a receipt leaves: the row of the deposit. *)
Lemma receipt_row u body w id size digest at_ n s1 u' s : reachable s -> admitted (Upload u body) w s ->
  Receive (w_env w) (w_fates w) (w_clock w) (w_short w) u body (0%nat, s) = (Some (ReceiptResponse id size digest at_, u'), (n, s1)) ->
  exists y, keeps linked [y] s1 /\ In y (d_backups (s_db s1)) /\ b_Status y = BackupComplete /\
    b_ID y = id /\ b_Size y = size /\ b_SHA256 y = digest /\
    exists data, delivered body = (data, EOF) /\ published_data (ad_Backup u) data s1 /\ same_file (ad_Backup u) y.
Proof.
  intros Hs%reachable_custody [Hrow Hconc] Hrun.
  pose proof (triple_Receive [] u body _ (w_fates w) (w_clock w) (w_short w) Hconc 0%nat s) as Hr. rewrite Hrun in Hr. cbn in Hr.
  destruct Hr as (Hk & -> & -> & -> & data & Hd & Hp & y & Hy & Hf & Hst); [by split; [split|]|]. exists y. split.
  { split; [exact Hk|]. intros b [<-|[]]. exists y. split; [done|apply descends_refl]. }
  pose proof Hf as [Hid Hsz Hdg]. repeat (split; [done|]). by exists data.
Qed.
(** A row that was complete, in any later state. *)
Lemma complete_row_later y s' : keeps linked [y] s' -> b_Status y = BackupComplete ->
  exists x, In x (d_backups (s_db s')) /\ b_ID x = b_ID y /\ b_Size x = b_Size y /\ b_SHA256 x = b_SHA256 y /\
    (b_Status x = BackupDeleted \/ purge_permitted s' (b_ID y) \/ stored (files s') x).
Proof.
  intros [Hcu Hrows] Hst. destruct (Hrows y (or_introl eq_refl)) as (x & Hx & Hde). pose proof (descends_file _ _ Hde) as [Hid Hsz Hdg].
  exists x. repeat (split; [done|]). destruct (decide (b_Status x = BackupDeleted)) as [?|Hnd]; [by left|right].
  destruct (decide (purge_permitted s' (b_ID x))) as [Hp|Hp]; [left; by rewrite <- Hid|right]. apply custody_stored; [done..| |done|done].
  apply (de_received _ _ Hde). unfold deposited, has_status. by rewrite Hst.
Qed.

(** C2. A receipt is final: once the reception of an upload has answered with a
    receipt, in every later life of the system the catalogue has that deposit with
    the size and digest of the receipt, and its file is whole in the archive or in
    the quarantine, unless it was deleted or the final permission to purge it was
    recorded. *)
Theorem receipt_durable s u body w id size digest at_ n s1 u' s' :
  reachable s -> admitted (Upload u body) w s ->
  Receive (w_env w) (w_fates w) (w_clock w) (w_short w) u body (0%nat, s) = (Some (ReceiptResponse id size digest at_, u'), (n, s1)) ->
  later s1 s' ->
  exists x, In x (d_backups (s_db s')) /\ b_ID x = id /\ b_Size x = size /\ b_SHA256 x = digest /\
    (b_Status x = BackupDeleted \/ purge_permitted s' id \/ stored (files s') x).
Proof.
  intros Hs Ha Hrun Hlater. destruct (receipt_row _ _ _ _ _ _ _ _ _ _ _ Hs Ha Hrun) as (y & Hk & Hy & Hst & <- & <- & <- & _).
  by apply complete_row_later; [apply (later_keeps _ _ _ Hlater)|].
Qed.

(** C3. A receipt testifies to the very file that was sent: the body was delivered
    to its end, it has the size and the digest announced, and the archive has it,
    byte for byte, under the name of the deposit, whose row is complete; whatever
    failed before the receipt and whatever the others did meanwhile. *)
Theorem receipt_means_stored s u body w id size digest at_ n s1 u' :
  reachable s -> admitted (Upload u body) w s ->
  Receive (w_env w) (w_fates w) (w_clock w) (w_short w) u body (0%nat, s) = (Some (ReceiptResponse id size digest at_, u'), (n, s1)) ->
  exists data, delivered body = (data, EOF) /\ len data = size /\ sha256_hex data = digest /\
    s_published s1 !! (id ++ ".backup")%string = Some (Regular data) /\
    exists b, In b (d_backups (s_db s1)) /\ b_ID b = id /\ b_Status b = BackupComplete.
Proof.
  intros Hs Ha Hrun. destruct (receipt_row _ _ _ _ _ _ _ _ _ _ _ Hs Ha Hrun) as (y & _ & Hy & Hst & <- & <- & <- & data & Hd & [[Hl Hh] Hp] & [Hid Hsz Hdg]).
  exists data. rewrite Hid, Hsz, Hdg. repeat (split; [done|]). by exists y.
Qed.

(** C4. A restart recovers from any interruption: from every state a life of the
    system can reach, whatever was failing or stopped when, a reconciliation that
    meets no new fault ends, with every deposit in its place; it leaves nothing
    receiving and no staging file, or it says that the store refuses, in the catalogue
    that it leaves, to record the end of an upload; or there was before it what no
    interruption leaves, an upload whose identifier [model.NewID] does not make or a
    directory with the name of a staging file. *)
Theorem restart_recovers s clock : reachable s ->
  exists r n s', Reconcile alone faultless clock (0%nat, s) = (Some r, (n, s')) /\ custody linked s' /\
    match r with
    | Ok _ => reconciled s'
    | Err e => store_refuses (s_db s') e \/ foreign s
    end.
Proof.
  intros Hs%reachable_custody. assert (keeps linked [] s) as Hk by done. assert (within s s) as Hw by (split; [intros x Hx Hr; by exists x|done]).
  destruct (runs_triple _ _ _ _ _ (triple_pre _ _ _ _ _ (triple_Reconcile linked [] faultless clock) (fun s H => proj1 H))
    (runs_Reconcile linked [] clock s) 0%nat s (conj Hk Hw)) as (r & n & s' & E & ([Hk' Hr] & _ & Hf)).
  exists r, n, s'. split; [done|]. split; [exact Hk'|]. destruct r; [by apply Hr|done].
Qed.
End system.

(** ** A life *)
Module Life.
Import Scenario.
#[local] Existing Instance platform.

Definition error_text (f : failure) : string := "errore".
Definition decode (path body : string) : result err fields := Err (ErrText "EOF").
Definition calm : circumstances :=
  Circumstances alone faultless (fun n => day 0 + Z.of_nat n * Second) (fun _ => ticket) (fun _ => None).

Lemma after_requests linked s cs : forallb (fun c => negb (records_fact c)) cs = true ->
  later linked error_text decode s (s <| s_db := execs cs (s_db s) |>).
Proof.
  unfold later. revert s. induction cs as [|c cs IH]; cbn [forallb]; intros s Hcs; [by destruct s|].
  apply andb_true_iff in Hcs as [Hc%negb_true_iff Hcs].
  eapply rtc_l; [exact (step_activity linked error_text decode s (Request c) calm Hc)|].
  exact (IH (s <| s_db := exec c (s_db s) |>) Hcs).
Qed.

(** A key, and an upload admitted. *)
Definition admission_requests : list call :=
  [ CCreateKey "ufficio" "S" key_id "token"; CReserve "token" document 10 digest "" (day 0) None (backup_name "a") ].
Definition before_upload : server := empty_server <| s_db := archive admission_requests |>.
Definition upload_row : backup := default (receiving_backup "" "" "" document 0 "" 0) (find_backup (s_db before_upload) (backup_name "a")).
Definition body : reader := [("01234", None); ("56789", Some EOF)]%string.
Definition slot : admission := Admission upload_row false.
Definition received : option (response * admission) * (nat * server) :=
  Receive alone faultless (w_clock calm) (w_short calm) slot body (0%nat, before_upload).
Definition after_upload : server := snd (snd received).

Lemma before_reachable : reachable true error_text decode before_upload.
Proof. by apply (after_requests true empty_server). Qed.
Lemma upload_admitted : admitted true (Upload slot body) calm before_upload.
Proof.
  split; [|apply concurrent_alone]. exists upload_row. split; [vm_compute; by left|]. split; [done|]. vm_compute. reflexivity.
Qed.
Lemma after_reachable : reachable true error_text decode after_upload.
Proof.
  eapply rtc_r; [apply before_reachable|]. exact (step_activity true error_text decode before_upload (Upload slot body) calm upload_admitted).
Qed.

(** The writer stops just after it published the file. *)
Definition stopping : circumstances :=
  Circumstances alone (fun n => if Nat.eqb n 6 then StopsLate else Works) (w_clock calm) (w_tokens calm) (w_short calm).
Definition interrupted : server := perform true error_text decode (Upload slot body) stopping before_upload.
Lemma interrupted_reachable : reachable true error_text decode interrupted.
Proof.
  eapply rtc_r; [apply before_reachable|]. exact (step_activity true error_text decode before_upload (Upload slot body) stopping upload_admitted).
Qed.
Lemma no_deposit_lost_witness :
  d_backups (s_db after_upload) = [upload_row <| b_Status := BackupComplete |> <| b_ReceivedAt := "2023-12-09T08:00:10Z" |>] /\
  ((forall b, In b (d_backups (s_db after_upload)) ->
     (b_Status b = BackupComplete -> in_archive (files after_upload) b) /\
     (deposited b = true -> b_Status b <> BackupDeleted -> ~ purge_permitted after_upload (b_ID b) -> stored (files after_upload) b) /\
     (b_Status b = BackupDeleted -> nowhere (files after_upload) b)) /\
   (forall d name, is_Some (entries d after_upload !! name) -> exists b, In b (d_backups (s_db after_upload)) /\ name = final_name b)).
Proof. split; [vm_compute; reflexivity|exact (no_deposit_lost true error_text decode after_upload after_reachable)]. Defined.

Lemma receipt_durable_witness :
  exists x, In x (d_backups (s_db (after_upload <| s_db := execs setup (s_db after_upload) |>))) /\ b_ID x = backup_name "a" /\
    b_Size x = 10 /\ b_SHA256 x = digest /\
    (b_Status x = BackupDeleted \/ purge_permitted (after_upload <| s_db := execs setup (s_db after_upload) |>) (backup_name "a") \/
     stored (files (after_upload <| s_db := execs setup (s_db after_upload) |>)) x).
Proof.
  refine (receipt_durable true error_text decode before_upload slot body calm _ _ _ _ _ after_upload _ _ before_reachable upload_admitted _ _).
  - vm_compute. reflexivity.
  - apply after_requests. reflexivity.
Defined.

Lemma receipt_means_stored_witness :
  exists data, delivered body = (data, EOF) /\ len data = 10 /\ sha256_hex data = digest /\
    s_published after_upload !! (backup_name "a" ++ ".backup")%string = Some (Regular data) /\
    exists b, In b (d_backups (s_db after_upload)) /\ b_ID b = backup_name "a" /\ b_Status b = BackupComplete.
Proof.
  refine (receipt_means_stored true error_text decode before_upload slot body calm _ _ _ _ _ after_upload _ before_reachable upload_admitted _).
  vm_compute. reflexivity.
Defined.

Lemma restart_recovers_witness :
  s_published interrupted !! final_name upload_row = Some (Regular "0123456789") /\
  exists r n s', Reconcile alone faultless (w_clock calm) (0%nat, interrupted) = (Some r, (n, s')) /\ custody true s' /\
    match r with
    | Ok _ => reconciled s'
    | Err e => store_refuses (s_db s') e \/ foreign interrupted
    end.
Proof.
  split; [vm_compute; reflexivity|exact (restart_recovers true error_text decode interrupted (w_clock calm) interrupted_reachable)].
Defined.
End Life.
