(* ===== verification/Lifecycle.v ===== *)
(** The end of a server: no request is admitted once the shutdown starts, and what
    the process owns is closed after the last handler has left
    ([src/internal/lifecycle/lifecycle.go]). *)
From S2P Require Import Prelude Model.

(** ** The tracker

    A channel is a number; [t_closed] are those closed.  [t_drained] is the current
    one.  [NewTracker] makes channel 0 and closes it. *)
Record tracker : Type := Tracker { t_active : Z; t_stopping : bool; t_drained : nat; t_made : nat; t_closed : gset nat }.
#[global] Instance eta_tracker : Settable tracker := fun t =>
  Tracker (t_active t) (t_stopping t) (t_drained t) (t_made t) (t_closed t).

Definition NewTracker : tracker := Tracker 0 false 0 1 {[0%nat]}.

Definition Enter (t : tracker) : bool * tracker :=
  if t_stopping t then (false, t)
  else
    let t := if t_active t =? 0 then t <| t_drained := t_made t |> <| t_made ::= S |> else t in
    (true, t <| t_active ::= (fun k => k + 1) |>).
(** [None] is the panic. *)
Definition Leave (t : tracker) : option tracker :=
  if t_active t =? 0 then None
  else
    let t := t <| t_active ::= (fun k => k - 1) |> in
    Some (if t_active t =? 0 then t <| t_closed ::= (fun c => {[t_drained t]} ∪ c) |> else t).
Definition Stop (t : tracker) : tracker := t <| t_stopping := true |>.
(** Before it waits, [Wait] stops the admissions and takes the channel. *)
Definition Wait_begin (t : tracker) : nat * tracker := (t_drained t, t <| t_stopping := true |>).
Definition Wait_over (channel : nat) (t : tracker) : Prop := channel ∈ t_closed t.

(** ** A server

    The threads of control: the handlers, where each is, and [Serve].  A request that
    reaches [Handler] enters, serves and leaves, or is refused. *)
Inductive handler_state : Type := Arriving | Serving | Refused | Finished.
#[global] Instance handler_state_eq_dec : EqDecision handler_state.
Proof. solve_decision. Defined.

(** What [Serve] does: it waits for the listener to fail or the context to end,
    stops the admissions, asks for an orderly shutdown or closes, waits for the
    handlers, collects the listener's error and returns. *)
Inductive serve_state : Type :=
| Selecting
| Failed_                        (* the listener ended: tracker.Stop() comes next *)
| Closing                        (* server.Close() *)
| Cancelled                      (* the context ended: tracker.Stop() *)
| ShuttingDown                   (* server.Shutdown *)
| Forcing                        (* server.Close() after the grace *)
| Draining (forced : bool) (joining : bool) (* tracker.Wait(), before its lock *)
| Waiting (forced joining : bool) (channel : nat)
| Joining (forced : bool)        (* <-serveDone *)
| Returned (forced : bool).

Record process : Type := Process {
  p_tracker : tracker; p_handlers : list handler_state; p_serve : serve_state; p_listening : bool }.
#[global] Instance eta_process : Settable process := fun p => Process (p_tracker p) (p_handlers p) (p_serve p) (p_listening p).
Definition start : process := Process NewTracker [] Selecting true.

Definition set_handler (i : nat) (h : handler_state) (p : process) : process := p <| p_handlers ::= <[i := h]> |>.

Inductive step : process -> process -> Prop :=
(* the connections *)
| st_request p : step p (p <| p_handlers ::= (fun l => l ++ [Arriving]) |>)
| st_enter p i t : p_handlers p !! i = Some Arriving -> Enter (p_tracker p) = (true, t) ->
    step p (set_handler i Serving (p <| p_tracker := t |>))
| st_refuse p i t : p_handlers p !! i = Some Arriving -> Enter (p_tracker p) = (false, t) ->
    step p (set_handler i Refused (p <| p_tracker := t |>))
| st_leave p i t : p_handlers p !! i = Some Serving -> Leave (p_tracker p) = Some t ->
    step p (set_handler i Finished (p <| p_tracker := t |>))
(* the listener ends by itself or because the server was closed *)
| st_listener p : step p (p <| p_listening := false |>)
(* Serve *)
| st_fails p : p_serve p = Selecting -> p_listening p = false -> step p (p <| p_serve := Failed_ |>)
| st_cancelled p : p_serve p = Selecting -> step p (p <| p_serve := Cancelled |>)
| st_stop_failed p : p_serve p = Failed_ -> step p (p <| p_tracker ::= Stop |> <| p_serve := Closing |>)
| st_close p : p_serve p = Closing -> step p (p <| p_serve := Draining false false |>)
| st_stop p : p_serve p = Cancelled -> step p (p <| p_tracker ::= Stop |> <| p_serve := ShuttingDown |>)
| st_shut_down p : p_serve p = ShuttingDown -> step p (p <| p_serve := Draining false true |>)
| st_grace_over p : p_serve p = ShuttingDown -> step p (p <| p_serve := Forcing |>)
| st_force p : p_serve p = Forcing -> step p (p <| p_serve := Draining true true |>)
| st_wait p forced joining c t : p_serve p = Draining forced joining -> Wait_begin (p_tracker p) = (c, t) ->
    step p (p <| p_tracker := t |> <| p_serve := Waiting forced joining c |>)
| st_waited p forced joining c : p_serve p = Waiting forced joining c -> Wait_over c (p_tracker p) ->
    step p (p <| p_serve := if joining then Joining forced else Returned forced |>)
| st_joined p forced : p_serve p = Joining forced -> p_listening p = false -> step p (p <| p_serve := Returned forced |>).

Definition reachable (p : process) : Prop := rtc step start p.

(** ** The invariant *)
Definition serving (l : list handler_state) : Z := count_where (fun h => bool_decide (h = Serving)) l.
Record tracker_ok (t : tracker) : Prop := TrackerOk {
  to_active : 0 <= t_active t;
  to_channel : (t_drained t < t_made t)%nat;
  to_fresh : forall c, c ∈ t_closed t -> (c < t_made t)%nat;
  to_drained : t_drained t ∈ t_closed t <-> t_active t = 0 }.
(** After the admissions have stopped; after [Wait] took the channel; at the end. *)
Definition stopped (s : serve_state) : bool := match s with Selecting | Failed_ | Cancelled => false | _ => true end.
Definition serve_ok (p : process) : Prop :=
  (stopped (p_serve p) = true -> t_stopping (p_tracker p) = true) /\
  match p_serve p with
  | Waiting _ _ c => c = t_drained (p_tracker p)
  | Joining _ | Returned _ => t_active (p_tracker p) = 0
  | _ => True
  end.
Record process_ok (p : process) : Prop := ProcessOk {
  po_tracker : tracker_ok (p_tracker p);
  po_handlers : serving (p_handlers p) = t_active (p_tracker p);
  po_serve : serve_ok p }.

Lemma new_tracker_ok : tracker_ok NewTracker.
Proof. split; cbn; [lia|lia| |set_solver]. intros c Hc%elem_of_singleton. lia. Qed.
Lemma Enter_ok t t' : tracker_ok t -> Enter t = (true, t') ->
  tracker_ok t' /\ t_stopping t = false /\ t_stopping t' = false /\ t_active t' = t_active t + 1.
Proof.
  intros [H1 H2 H3 H4]. unfold Enter. destruct (t_stopping t) eqn:Es; [done|]. destruct (t_active t =? 0) eqn:Ea; intros [= <-]; cbn.
  - repeat split; cbn; try done; try lia.
    + intros c Hc%H3. lia.
    + intros Hc%H3. lia.
  - repeat split; cbn; try done; try lia. intros Hc%H4. lia.
Qed.
Lemma Enter_refused t t' : Enter t = (false, t') -> t' = t /\ t_stopping t = true.
Proof. unfold Enter. by destruct (t_stopping t); [intros [= <-]|]. Qed.
Lemma Leave_ok t t' : tracker_ok t -> Leave t = Some t' ->
  tracker_ok t' /\ t_stopping t' = t_stopping t /\ t_active t' = t_active t - 1 /\ t_drained t' = t_drained t /\ 0 < t_active t.
Proof.
  intros [H1 H2 H3 H4]. unfold Leave. destruct (t_active t =? 0) eqn:Ea; [done|]. cbn. destruct (t_active t - 1 =? 0) eqn:E1; intros [= <-]; cbn.
  - repeat split; cbn; try done; try lia; set_solver by lia.
  - repeat split; cbn; try done; try lia. intros Hc%H4. lia.
Qed.

(** A handler that moves changes the count by what it was and what it becomes. *)
Definition weight (h : handler_state) : Z := match h with Serving => 1 | _ => 0 end.
Lemma serving_app l h : serving (l ++ [h]) = serving l + weight h.
Proof. unfold serving, weight. rewrite count_where_app, count_where_cons, count_where_nil. by destruct h. Qed.
Lemma serving_insert l i h h' : l !! i = Some h -> serving (<[i := h']> l) = serving l - weight h + weight h'.
Proof.
  intros Hi. unfold serving. rewrite (count_where_insert _ _ _ h) by done. by destruct h, h'.
Qed.

Lemma serve_ok_same p t l : serve_ok p -> t_stopping t = t_stopping (p_tracker p) -> t_drained t = t_drained (p_tracker p) ->
  (t_active (p_tracker p) = 0 -> t_active t = 0) -> serve_ok (Process t l (p_serve p) (p_listening p)).
Proof. intros [H1 H2] Es Ed Ea. split; cbn; [by rewrite Es|]. destruct (p_serve p); try done; [congruence|auto..]. Qed.

Lemma step_ok p p' : process_ok p -> step p p' -> process_ok p'.
Proof.
  intros [Ht Hh Hs] Hstep. destruct Hstep as [p|p i t Hi He|p i t Hi He|p i t Hi He|p|p Hp Hl|p Hp|p Hp|p Hp|p Hp|p Hp|p Hp|p Hp|p fo jo c t Hp Hw|p fo jo c Hp Hw|p fo Hp Hl].
  - split; [done| |done]. cbn [set_with p_handlers p_tracker]. rewrite serving_app. cbn [weight]. lia.
  - apply (Enter_ok _ _ Ht) in He as (Ht' & Hns & Hns' & Ha). split; [done| |].
    + cbn. rewrite (serving_insert _ _ _ _ Hi). cbn. lia.
    + destruct Hs as [H1 H2]. unfold serve_ok. cbn. destruct (p_serve p); cbn in *; try done; by rewrite H1 in Hns.
  - apply Enter_refused in He as [-> _]. split; [done| |done]. cbn. rewrite (serving_insert _ _ _ _ Hi). cbn. lia.
  - apply (Leave_ok _ _ Ht) in He as (Ht' & Hst & Ha & Hd & Hpos). split; [done| |].
    + cbn. rewrite (serving_insert _ _ _ _ Hi). cbn. lia.
    + apply (serve_ok_same p); [done..|lia].
  - by split.
  - split; [done..|]. by split.
  - split; [done..|]. by split.
  - split; [by destruct Ht|done|by split].
  - split; [done..|]. split; [|done]. intros _. apply Hs. by rewrite Hp.
  - split; [by destruct Ht|done|by split].
  - split; [done..|]. split; [|done]. intros _. apply Hs. by rewrite Hp.
  - split; [done..|]. split; [|done]. intros _. apply Hs. by rewrite Hp.
  - split; [done..|]. split; [|done]. intros _. apply Hs. by rewrite Hp.
  - unfold Wait_begin in Hw. injection Hw as <- <-. split; [by destruct Ht|done|by split].
  - assert (t_active (p_tracker p) = 0) as Ha.
    { destruct Hs as [_ H2]. rewrite Hp in H2. subst c. by apply (to_drained _ Ht). }
    split; [done..|]. split; [intros _; apply Hs; by rewrite Hp|]. cbn. by destruct jo.
  - split; [done..|]. destruct Hs as [H1 H2]. rewrite Hp in H1, H2. by split.
Qed.
Lemma reachable_ok p : reachable p -> process_ok p.
Proof.
  intros Hr. assert (process_ok start) as Hstart.
  { split; [apply new_tracker_ok|done|]. by split. }
  revert Hstart. induction Hr as [|p p1 p2 Hstep _ IH]; [done|]. intros Hp. by apply IH, (step_ok p).
Qed.
(** Once [Serve] has returned it stays so, and nobody is serving. *)
Lemma returned_stays p p' : rtc step p p' -> forall forced, p_serve p = Returned forced -> p_serve p' = Returned forced.
Proof.
  induction 1 as [|p p1 p2 Hstep _ IH]; intros forced Hp; [done|]. apply IH. destruct Hstep; cbn; congruence.
Qed.

(** C14. The shutdown waits exactly for the handlers that were admitted: in every
    interleaving of requests, handlers, listener and [Serve], a handler that was
    admitted can leave without panic; the channel [Serve] waits on is closed if and
    only if no handler is serving, so it neither returns early nor waits for ever;
    and after it has returned no handler serves, then or later, so that the caller may
    close what the handlers use. *)
Theorem shutdown_drains p : reachable p ->
  (forall i, p_handlers p !! i = Some Serving -> is_Some (Leave (p_tracker p))) /\
  (forall forced joining c, p_serve p = Waiting forced joining c ->
     Wait_over c (p_tracker p) <-> forall i, p_handlers p !! i <> Some Serving) /\
  (forall forced p', p_serve p = Returned forced -> rtc step p p' -> forall i, p_handlers p' !! i <> Some Serving).
Proof.
  assert (forall q, process_ok q -> t_active (p_tracker q) = 0 <-> forall i, p_handlers q !! i <> Some Serving) as Hnone.
  { intros q [Ht Hh _]. rewrite <- Hh. split.
    - intros Hz i Hi. assert (0 < serving (p_handlers q)); [|lia]. apply count_where_pos. exists Serving. split; [|done].
      apply list_elem_of_In. by apply (list_elem_of_lookup_2 _ i).
    - intros Hno. pose proof (count_where_nonneg (fun h => bool_decide (h = Serving)) (p_handlers q)).
      destruct (decide (serving (p_handlers q) = 0)) as [?|Hne]; [done|]. exfalso.
      assert (0 < serving (p_handlers q)) as (h & Hin & Hs%bool_decide_eq_true)%count_where_pos by (unfold serving in *; lia). subst h.
      apply list_elem_of_In, list_elem_of_lookup in Hin as [i Hi]. by apply (Hno i). }
  intros Hr. pose proof (reachable_ok p Hr) as Hp. split; [|split].
  - intros i Hi. unfold Leave. destruct (t_active (p_tracker p) =? 0) eqn:Ea; [|by eexists]. apply Z.eqb_eq, (Hnone p Hp) with (i := i) in Ea. done.
  - intros forced joining c Hw. rewrite <- (Hnone p Hp). pose proof (po_serve p Hp) as [_ Hs]. rewrite Hw in Hs. subst c.
    apply (to_drained _ (po_tracker p Hp)).
  - intros forced p' Hret Hlater. assert (reachable p') as Hr' by (unfold reachable in *; by transitivity p). pose proof (reachable_ok p' Hr') as Hp'.
    apply (Hnone p' Hp'). pose proof (po_serve p' Hp') as [_ Hs]. by rewrite (returned_stays _ _ Hlater _ Hret) in Hs.
Qed.

(** A shutdown with one handler at work, and a request that comes too late. *)
Module Shutdown.
Definition closing : process :=
  Process (Tracker 1 true 1 2 {[0%nat]}) [Serving; Refused] (Waiting false true 1) true.
Lemma closing_reachable : reachable closing.
Proof.
  unfold reachable.
  eapply rtc_l; [apply st_request|]. eapply rtc_l; [by eapply (st_enter _ 0)|]. eapply rtc_l; [by apply st_cancelled|].
  eapply rtc_l; [by apply st_stop|]. eapply rtc_l; [apply st_request|]. eapply rtc_l; [by eapply (st_refuse _ 1)|].
  eapply rtc_l; [by apply st_shut_down|]. eapply rtc_l; [by eapply st_wait|]. apply rtc_refl.
Qed.
Lemma shutdown_drains_witness :
  (forall i, p_handlers closing !! i = Some Serving -> is_Some (Leave (p_tracker closing))) /\
  (forall forced joining c, p_serve closing = Waiting forced joining c ->
     Wait_over c (p_tracker closing) <-> forall i, p_handlers closing !! i <> Some Serving) /\
  (forall forced p', p_serve closing = Returned forced -> rtc step closing p' -> forall i, p_handlers p' !! i <> Some Serving).
Proof. exact (shutdown_drains closing closing_reachable). Defined.
End Shutdown.
