(* ===== verification/Restoration.v ===== *)
(** What the recovery of a deposit puts on the disk ([src/internal/cryptfile]). *)
From S2P Require Import Prelude GoTime GoString Model Catalog Archive Io Writer Custody Reception Accepting Files Cryptfile Encryption.

(** ** Recovery *)
Section recovery.
Context `{Platform, Age} (env : nat -> fs -> fs) (fate_of : nat -> fate) (short : nat -> option Z) (turns : nat).
Context (output : string) (names : list string) `{!Apart (output :: names) env}.
Abbreviation anything := (fun _ : fs => True).

#[local] Instance apart_member path : In path (output :: names) -> Apart [path] env.
Proof. intros Hp q i e n s [<-|[]] Hs. by apply apart. Qed.
Definition busy (path : string) (s : fs) : Prop := exists i e, named path i e s.
#[local] Instance stable_busy path : In path (output :: names) -> Stable env (busy path).
Proof. intros Hp n s (i & e & Hs). exists i, e. by apply apart. Qed.
#[local] Instance stable_named_in path i e : In path (output :: names) -> Stable env (named path i e).
Proof. intros Hp n s Hs. by apply apart. Qed.
#[local] Instance stable_holds content : Stable env (holds_file output content).
Proof. intros n s (i & Hs). exists i. apply apart; [by left|done]. Qed.

Lemma triple_unseen P `{!Stable env P} : triple P (act env fate_of unseen) (fun _ => P) anything.
Proof. by eapply triple_weaken; [apply (triple_act_inv env fate_of P)|..]. Qed.

(** The output is a new name for the staged file. *)
Lemma triple_publish_output p fd content q : In p (output :: names) -> In q (output :: names) ->
  triple (fun s => named p fd (Regular content) s /\ busy q s) (publish env fate_of p output)
    (fun r s => is_ok r = true -> p <> output /\ q <> output /\ holds_file output content s) anything.
Proof.
  intros Hp Hq. unfold publish.
  set (P := fun r s => is_ok r = true -> p <> output /\ q <> output /\ holds_file output content s).
  eapply (triple_bind _ _ _ _ P).
  - apply triple_act; [apply stable_and; [by apply stable_named_in|by apply stable_busy]|done|]. intros s [[Hn Hi] (j & e & Hj & _)].
    split; [done|]. split; [|by intros f]. unfold P, link_path. rewrite Hn. destruct (fs_names s !! output) eqn:Eo; [done|]. intros _. cbn.
    split; [congruence|]. split; [congruence|]. exists fd. split; [apply lookup_insert_eq|done].
  - intros [[]|[[]|]]; try (by apply triple_ret). unfold P. intros n s Hs. destruct (Hs eq_refl) as (H1 & H2 & H3). revert n s H3 Hs.
    enough (triple (holds_file output content) (act env fate_of unseen) P anything) as Ht by (intros n s H3 _; by apply Ht).
    apply triple_act; [apply stable_holds|done|]. intros s Hs. split; [done|]. split; [done|]. by intros f.
Qed.

(** What the output may contain, according to [X]. *)
Definition put (X : string -> Prop) (r : result failure unit) (s : fs) : Prop :=
  is_ok r = true -> exists content, X content /\ holds_file output content s.

Lemma triple_with_temp candidates body (P : fs -> Prop) (F : string -> Z -> Prop) X `{!Stable env P} :
  (forall p s, P s -> fs_names s !! p = None -> P (create_at p s) /\ F p (new_inode s)) ->
  (forall p fd, In p candidates -> F p fd -> triple (fun s => P s /\ named p fd (Regular "") s) (body p fd)
    (fun r s => put X r s /\ (is_ok r = true -> p <> output)) anything) ->
  incl candidates names ->
  triple P (with_temp env fate_of candidates body) (put X) anything.
Proof.
  intros Hcreate Hbody Hincl. unfold with_temp.
  eapply (triple_try _ _ _ _ (fun r s => match r with
    | Ok (p, fd) => (In p candidates /\ F p fd) /\ P s /\ named p fd (Regular "") s | Err _ => True end)); [| |by intros er s].
  - apply triple_act; [done..|]. intros s Hs. split; [done|]. split; [|by intros f]. pose proof (create_temp_cases candidates s) as Hc.
    destruct (create_temp candidates s) as [[[p fd]|er] s']; [|done]. destruct Hc as (Hin & Hfree & -> & ->).
    destruct (Hcreate p s Hs Hfree). split; [done|]. split; [done|]. apply create_at_named.
  - intros [p fd]. apply triple_pure. intros [Hin HF]. cbn [fst snd]. eapply triple_bind; [by apply Hbody|]. intros r.
    eapply (triple_bind _ _ _ _ (fun _ => put X r)); [|by intros ?; apply triple_ret].
    destruct r as [[]|er]; [|by intros n s _; destruct (act _ _ _ _) as [[]]; destruct p0]. intros n s [Hput Hne]. specialize (Hne eq_refl).
    revert n s Hput. apply triple_act; [|done|].
    + intros n s Hs Hok. destruct (Hs Hok) as (c & HX & Hc). exists c. split; [done|]. by apply (stable (P := holds_file output c) env n).
    + intros s Hs. split; [done|]. split; [|intros f; split; [done|]]; intros Hok; destruct (Hs Hok) as (c & HX & i & Hc); exists c; (split; [done|]);
        exists i; by apply remove_other.
Qed.

(** The bytes of the archive, if they are those expected. *)
Lemma triple_copy_verified source p fd size digest : In p names ->
  triple (named p fd (Regular "")) (copy_verified env fate_of short turns source fd size digest)
    (fun r s => is_ok r = true -> exists content, len content = size /\ sha256_hex content = digest /\ named p fd (Regular content) s) anything.
Proof.
  intros Hp. set (Q := fun r s => is_ok r = true -> _). pose proof (apart_member p (or_intror Hp)) as Hapart.
  assert (forall r s, is_ok r = false -> Q r s) as Herr by (unfold Q; by intros [] s).
  set (J := fun data hashed s => written_so_far p fd anything data s /\ hashed = data).
  assert (forall data hashed, Stable env (J data hashed)) as HJ by (intros; apply stable_and; apply _).
  assert (Stable env (named p fd (Regular ""))) as HS by (apply stable_named_in; by right).
  unfold copy_verified. eapply (triple_try _ _ _ _ (fun _ => named p fd (Regular ""))); [by apply triple_unseen| |by intros; apply Herr]. intros _.
  eapply (triple_try _ _ _ _ (fun _ => named p fd (Regular ""))); [|intros src|by intros; apply Herr].
  { eapply triple_weaken; [by apply keeps_open|done..]. }
  eapply triple_bind.
  { eapply triple_pre; [apply (triple_copied env fate_of (verified_write env fate_of short fd) src J None) with (data := ""%string)|by intros s Hs]; [done| |done].
    intros data hashed chunk. unfold verified_write. apply (triple_pre _ (fun s => hashed = data /\ written_so_far p fd anything data s)); [|by intros s []].
    apply triple_pure. intros ->.
    eapply triple_bind; [by apply (triple_write_inode env fate_of short p fd anything)|]. intros [n [er|]]; cbn [fst snd]; [by apply triple_ret|].
    destruct (negb (n =? len chunk)) eqn:En; [by apply triple_ret|]. apply negb_false_iff, Z.eqb_eq in En as ->.
    rewrite str_take_all by done. apply triple_ret. intros s Hs _. split; [by apply Hs|done]. }
  intros [[n hashed] copyErr]. unfold gone_through. cbn [fst snd].
  set (K := fun s => copyErr = None -> exists content, named p fd (Regular content) s /\ n = len content /\ hashed = content).
  assert (Stable env K) as HK.
  { apply stable_impl, stable_ex. intros content. apply stable_and; [apply stable_named_in; by right|apply _]. }
  apply (triple_pre _ K).
  2:{ intros s Hs Hn. destruct (Hs Hn) as (rest & [[_ Hf] Hh] & Hl & _). exists rest. done. }
  eapply triple_bind; [by apply (triple_unseen K)|]. intros closeErr.
  destruct copyErr as [er|]; [by apply triple_ret; intros; apply Herr|]. destruct closeErr as [[]|er]; [|by apply triple_ret; intros; apply Herr].
  destruct (negb (n =? size) || negb (String.eqb (sha256_hex hashed) digest)) eqn:E; [by apply triple_ret; intros; apply Herr|].
  apply orb_false_iff in E as [En%negb_false_iff%Z.eqb_eq Eh%negb_false_iff%String.eqb_eq].
  assert (forall r s, K s -> Q r s) as HKQ.
  { intros r s Hs _. destruct (Hs eq_refl) as (content & Hf & -> & ->). by exists content. }
  eapply (triple_try _ _ _ _ (fun _ => K)); [by apply (triple_unseen K)| |by intros; apply HKQ].
  intros _. eapply triple_weaken; [by apply (triple_unseen K)|done|intros r s; apply HKQ|done].
Qed.

(** The contents of the verified bytes. *)
Definition opened (identities : list age_identity) (content plain : string) : Prop :=
  exists body, age_Decrypt identities content = Ok body /\ delivered body = (plain, EOF).

Lemma triple_decrypt identities content q vfd p fd : In p names -> In q names -> fd <> vfd ->
  triple (fun s => named q vfd (Regular content) s /\ named p fd (Regular "") s)
    (decrypt_to env fate_of short turns identities vfd fd p output)
    (fun r s => put (opened identities content) r s /\ (is_ok r = true -> p <> output /\ q <> output)) anything.
Proof.
  intros Hp Hq Hne. set (I := named q vfd (Regular content)). set (Q := fun r s => put _ r s /\ _).
  pose proof (apart_member p (or_intror Hp)) as Hapart.
  assert (forall r s, is_ok r = false -> Q r s) as Herr by (unfold Q, put; by intros [] s).
  assert (Stable env I) as HI by (apply stable_named_in; by right).
  set (J := written_so_far p fd I). assert (forall data, Stable env (J data)) as HJ by (intros data; by apply stable_written).
  assert (forall data, triple (J data) (act env fate_of unseen) (fun _ => J data) anything) as Hunseen by (intros; by apply triple_unseen).
  unfold decrypt_to. eapply (triple_try _ _ _ _ (fun _ => J "")); [apply Hunseen| |by intros; apply Herr]. intros _.
  eapply (triple_try _ _ _ _ (fun r s => r = Ok content /\ J "" s \/ is_ok r = false)).
  { apply triple_act; [done..|]. intros s Hs. split; [done|]. split; [|intros f; split; by right]. left. split; [|done]. unfold read_all.
    destruct Hs as [[_ Hs] _]. by rewrite Hs. }
  2:{ intros er s _. by apply Herr. }
  intros c. apply (triple_pre _ (fun s => c = content /\ J "" s)); [apply triple_pure; intros ->|by intros s [[[= ->] Hs]|]].
  destruct (age_Decrypt identities content) as [decrypted|er] eqn:Ed; [|by apply triple_ret; intros; apply Herr].
  eapply triple_bind.
  { apply (triple_copy_reader env fate_of short p fd I) with (data := ""%string); [|done..].
    intros data s. by apply append_other. }
  intros [er|]; [by apply triple_ret; intros; apply Herr|].
  apply (triple_pre _ (fun s => exists rest, delivered decrypted = (rest, EOF) /\ J rest s)); [|by intros s Hs; apply Hs].
  intros n s (plain & Hplain & Hs). revert n s Hs.
  enough (triple (J plain) (_ ←? act env fate_of unseen; _ ←? act env fate_of unseen; publish env fate_of p output) Q anything) as Ht by apply Ht.
  eapply (triple_try _ _ _ _ (fun _ => J plain)); [apply Hunseen|intros _|by intros; apply Herr].
  eapply (triple_try _ _ _ _ (fun _ => J plain)); [apply Hunseen|intros _|by intros; apply Herr].
  eapply triple_weaken; [apply (triple_publish_output p fd plain q); by right|..].
  - intros s [Hs Hf]. split; [done|]. by exists vfd, (Regular content).
  - intros r s Hr. split; [|intros Hok; by destruct (Hr Hok) as (? & ? & ?)]. intros Hok. exists plain.
    destruct (Hr Hok) as (_ & _ & Hs'). split; [by exists decrypted|done].
  - done.
Qed.

(** The identities are those of the file. *)
Lemma triple_identities path i text : In path names ->
  triple (named path i (Regular text)) (ReadIdentities env fate_of path)
    (fun r _ => match r with Ok ids => ids <> [] /\ ParseIdentities (str_take (maxIdentityBytes + 1) text) = Ok ids | Err _ => True end) anything.
Proof.
  intros Hp. set (N := named path i (Regular text)). assert (Stable env N) as HN by (apply stable_named_in; by right).
  pose proof (apart_member path (or_intror Hp)) as Hap. pose proof (fun A => @triple_look_file env fate_of path i text Hap A) as Hlook.
  unfold ReadIdentities. eapply triple_try; [by apply triple_open|intros fd; apply triple_pure; intros ->|done].
  eapply triple_try; [apply (Hlook _ (fstat i) (fun _ => True)); by intros|intros info; apply triple_pure; intros _|done].
eapply triple_try; [apply (Hlook _ unseen (fun _ => True)); by intros|intros []; apply triple_pure; intros _|done].
    destruct (_ <? _); [by apply triple_ret|].
  eapply triple_try; [apply (Hlook _ (read_at i 0 (maxIdentityBytes + 1)) (fun t => t = str_take (maxIdentityBytes + 1) text))| |done].
    { intros s [Hn Hi]. split; [done|]. intros t. unfold read_at. rewrite Hi. cbn [fst]. intros [= <-]. by destruct text. }
    intros t. apply triple_pure. intros ->. destruct (ParseIdentities _) as [[|id ids]|]; by apply triple_ret.
Qed.

(** The verified bytes, or their contents, at the output. *)
Lemma triple_deliver ids content p fd plainNames : In p names -> incl plainNames names ->
  triple (named p fd (Regular content))
    (match ids with
     | [] => _ ←? act env fate_of unseen; publish env fate_of p output
     | _ => with_temp env fate_of plainNames (fun plainPath plain => decrypt_to env fate_of short turns ids fd plain plainPath output)
     end)
    (fun r s => put (fun plain => match ids with [] => plain = content | _ => opened ids content plain end) r s /\ (is_ok r = true -> p <> output)) anything.
Proof.
  intros Hp Hpl. assert (Stable env (named p fd (Regular content))) as HS by (apply stable_named_in; by right).
  destruct ids as [|id ids].
  - eapply triple_try; [by apply (triple_unseen (named p fd (Regular content)))|intros []|by intros].
    eapply triple_weaken; [apply (triple_publish_output p fd content p); by right|..]; [|intros r s Hr|done].
    { intros s Hs. split; [done|]. by exists fd, (Regular content). }
    split; [|intros Hok; by destruct (Hr Hok)]. intros Hok. destruct (Hr Hok) as (_ & _ & Ho). by exists content.
  - eapply triple_weaken; [apply (triple_with_temp plainNames _ (named p fd (Regular content)) (fun _ fd' => fd' <> fd)
      (fun plain => opened (id :: ids) content plain /\ p <> output)); [| |done]|done|intros r s Hr|done].
    + intros q s Hs Hfree. destruct (create_at_other q s p fd _ Hfree Hs) as (_ & Hne & Hs'). by split; [|apply not_eq_sym].
    + intros q fd' Hq Hne. eapply triple_weaken; [apply (triple_decrypt (id :: ids) content p fd q fd'); [by apply Hpl|done..]|done| |done].
      intros r s [Hput Hout]. split; [|intros Hok; by destruct (Hout Hok)]. intros Hok. destruct (Hput Hok) as (plain & Hx & Hs).
      exists plain. split; [|done]. split; [done|]. by destruct (Hout Hok).
    + split; intros Hok; destruct (Hr Hok) as (plain & [Hx Hne] & Hs); [by exists plain|done].
Qed.

(** What [Recover] may put at the output. *)
Definition recovered (size : Z) (digest identityFile text plain : string) : Prop :=
  exists content, len content = size /\ sha256_hex content = digest /\
    if String.eqb identityFile "" then plain = content
    else exists ids, ids <> [] /\ ParseIdentities (str_take (maxIdentityBytes + 1) text) = Ok ids /\ opened ids content plain.

Lemma triple_Recover source size digest identityFile i text verifiedNames plainNames :
  incl verifiedNames names -> incl plainNames names -> (identityFile <> ""%string -> In identityFile names) ->
  triple (fun s => identityFile <> ""%string -> named identityFile i (Regular text) s)
    (Recover env fate_of short turns source output size digest identityFile verifiedNames plainNames)
    (put (recovered size digest identityFile text)) anything.
Proof.
  intros Hv Hpl Hid. unfold Recover. destruct (String.eqb output ""); [by apply triple_ret|].
  destruct (validateExpected size digest); [|by apply triple_ret].
  set (read_ids := fun ids : list age_identity => if String.eqb identityFile "" then ids = []
    else ids <> [] /\ ParseIdentities (str_take (maxIdentityBytes + 1) text) = Ok ids).
  eapply (triple_try _ _ _ _ (fun r s => match r with Ok ids => read_ids ids /\ True | Err _ => True end)); [|intros ids; apply triple_pure; intros Hids|done].
  { subst read_ids. destruct (String.eqb identityFile "") eqn:E; [by apply triple_ret|]. apply String.eqb_neq in E.
    eapply triple_weaken; [apply (triple_identities identityFile i text); by apply Hid|intros s Hs; by apply Hs| |done]. by intros [] s. }
  assert (Stable env anything) by done. apply (triple_with_temp verifiedNames _ anything (fun _ _ => True)); [done|done| |done]. intros p fd Hin _.
  apply (triple_pre _ (named p fd (Regular ""))); [|by intros s []].
  eapply triple_try; [apply triple_copy_verified; by apply Hv| |by intros]. intros [] n s Hs.
  destruct (Hs eq_refl) as (content & Hlen & Hsha & Hf).
  refine (triple_weaken _ _ _ _ _ _ _ (triple_deliver ids content p fd plainNames (Hv _ Hin) Hpl) (fun _ H => H) _ (fun _ H => H) n s Hf).
  intros r s' [Hput Hout]. split; [|done].
  intros Hok. destruct (Hput Hok) as (plain & Hx & Ho). exists plain. split; [|done]. exists content. do 2 (split; [done|]).
  subst read_ids. cbv beta in Hids. destruct (String.eqb identityFile ""); [by rewrite Hids in Hx|]. exists ids. destruct Hids as [Hne Hp].
  by destruct ids.
Qed.
End recovery.

(** ** Never unverified

    Others do not create a file with this name. *)
Class Vacant (path : string) (env : nat -> fs -> fs) : Prop := vacant : forall n s, fs_names s !! path = None -> fs_names (env n s) !! path = None.
#[export] Instance vacant_alone path : Vacant path alone.
Proof. by intros n s. Qed.
Lemma triple_both {S A} P1 P2 (m : Io.io S A) Q1 Q2 R1 R2 : triple P1 m Q1 R1 -> triple P2 m Q2 R2 ->
  triple (fun s => P1 s /\ P2 s) m (fun a s => Q1 a s /\ Q2 a s) (fun s => R1 s /\ R2 s).
Proof. intros H1 H2 n s [Hs1 Hs2]. specialize (H1 n s Hs1). specialize (H2 n s Hs2). by destruct (m (n, s)) as [[a|] [n' s']]. Qed.

Section vacancy.
Context `{Platform, Age} (env : nat -> fs -> fs) (fate_of : nat -> fate) (short : nat -> option Z) (turns : nat).
Context (output : string) (names : list string) `{!Apart (output :: names) env, !Vacant output env} (Hnames : ~ In output names) (X : string -> Prop).
Abbreviation anything := (fun _ : fs => True).

(** The output is not there, or has what it may have. *)
Definition unmade (s : fs) : Prop := fs_names s !! output = None.
Definition sound (s : fs) : Prop := unmade s \/ exists content, X content /\ holds_file output content s.
#[local] Instance stable_unmade : Stable env unmade.
Proof. intros n s. apply vacant. Qed.
#[local] Instance stable_sound : Stable env sound.
Proof.
  intros n s [Hs|(content & Hx & i & Hs)]; [left; by apply vacant|]. right. exists content. split; [done|]. exists i. apply apart; [by left|done].
Qed.
#[local] Instance stable_file path i e : In path names -> Stable env (named path i e).
Proof. intros Hp n s Hs. apply apart; [by right|done]. Qed.
Lemma unmade_sound s : unmade s -> sound s.
Proof. by left. Qed.
Lemma unmade_append fd data s : True -> unmade s -> unmade (append_inode fd data s).
Proof. intros _. unfold append_inode. by destruct (fs_inodes s !! fd) as [[]|]. Qed.
Abbreviation quiet m := (triple unmade m (fun _ => unmade) unmade).
Abbreviation good m P := (triple P m (fun _ => sound) sound).

Lemma good_unseen : good (act env fate_of unseen) sound.
Proof. by apply triple_act_inv; [apply stable_sound|]. Qed.
(** The only call that makes the output, from a file that was verified. *)
Lemma good_publish p fd content : In p names -> X content ->
  good (publish env fate_of p output) (fun s => named p fd (Regular content) s /\ unmade s).
Proof.
  intros Hp Hx. unfold publish. eapply (triple_bind _ _ _ _ (fun _ => sound)).
  - apply triple_act; [apply stable_and; [by apply stable_file|apply stable_unmade]|by intros s []; left|]. intros s [[Hn Hi] Hu].
    assert (sound (snd (link_path p output s))) as Hs.
    { right. exists content. split; [done|]. exists fd. unfold link_path. rewrite Hn, Hu. split; [apply lookup_insert_eq|done]. }
    split; [done|]. split; [done|]. intros f. split; [by left|done].
  - intros [[]|[[]|]]; try (by apply triple_ret). apply good_unseen.
Qed.
Lemma good_removed p : p <> output -> good (act env fate_of (remove_path p)) sound.
Proof.
  intros Hp. apply triple_act_inv; [apply stable_sound|]. intros s [Hs|(content & Hx & i & Hs)].
  - left. unfold unmade, remove_path in *. destruct (inode_of s p) as [[? [|[]|]]|]; try done; cbn; apply lookup_delete_None; by right.
  - right. exists content. split; [done|]. exists i. by apply remove_other; [apply not_eq_sym|].
Qed.
Lemma good_with_temp {A} candidates (body : string -> Z -> Io.io fs (result failure A)) (P : fs -> Prop) (F : string -> Z -> Prop) `{!Stable env P} :
  (forall p s, P s -> fs_names s !! p = None -> P (create_at p s) /\ F p (new_inode s)) ->
  (forall p fd, In p candidates -> F p fd -> good (body p fd) (fun s => (P s /\ named p fd (Regular "") s) /\ unmade s)) ->
  incl candidates names -> good (with_temp env fate_of candidates body) (fun s => P s /\ unmade s).
Proof.
  intros Hcreate Hbody Hincl. assert (forall p, In p candidates -> p <> output) as Hne by (intros p Hin ->; by apply Hnames, Hincl). unfold with_temp.
  eapply (triple_try _ _ _ _ (fun r s => match r with
    | Ok (p, fd) => (In p candidates /\ F p fd) /\ (P s /\ named p fd (Regular "") s) /\ unmade s | Err _ => sound s end)); [| |by intros er s].
  - apply triple_act; [apply stable_and; apply _|by intros s [_ Hu]; left|]. intros s [Hs Hu]. pose proof (create_temp_cases candidates s) as Hc.
    destruct (create_temp candidates s) as [[[p fd]|er] s']; [|subst; by split; [left|split; [left|intros f; split; left]]].
    destruct Hc as (Hin & Hfree & -> & ->). destruct (Hcreate p s Hs Hfree). assert (unmade (create_at p s)) as Hu'.
    { unfold unmade, create_at. cbn. rewrite lookup_insert_ne; [done|]. by apply Hne. }
    split; [by left|]. split; [split_and!; try done; apply create_at_named|]. intros f. split; by left.
  - intros [p fd]. apply triple_pure. intros [Hin HF]. cbn [fst snd]. eapply triple_bind; [by apply Hbody|]. intros r.
    eapply (triple_bind _ _ _ _ (fun _ => sound)); [apply good_removed; by apply Hne|]. intros ?. by apply triple_ret.
Qed.

Lemma good_decrypt identities content q vfd p fd : In p names -> In q names -> fd <> vfd -> (forall plain, opened identities content plain -> X plain) ->
  good (decrypt_to env fate_of short turns identities vfd fd p output)
    (fun s => (named q vfd (Regular content) s /\ named p fd (Regular "") s) /\ unmade s).
Proof.
  intros Hp Hq Hne HX. set (I := named q vfd (Regular content)). assert (Apart [p] env) as Hapart by (intros x i e n s [<-|[]] Hs; apply apart; [by right|done]).
  assert (Stable env I) as HI by (by apply stable_file).
  set (J := written_so_far p fd I). assert (forall data, Stable env (J data)) as HJ by (intros data; by apply stable_written).
  set (K := fun data s => J data s /\ unmade s). assert (forall data, Stable env (K data)) as HK by (intros data; apply stable_and; apply _).
  assert (forall data s, K data s -> sound s) as Hsound by (by intros data s [_ Hu]; left).
  assert (forall data, triple (K data) (act env fate_of unseen) (fun _ => K data) sound) as Hunseen.
  { intros data. eapply triple_weaken; [by apply (triple_act_inv env fate_of (K data))|done|done|apply Hsound]. }
  unfold decrypt_to. apply (triple_try _ _ _ _ (fun _ => K ""%string)); [exact (Hunseen _)|intros _|by intros er s ?%Hsound].
  apply (triple_try _ _ _ _ (fun r s => K ""%string s /\ forall c, r = Ok c -> c = content)); [| |by intros er s [?%Hsound _]].
  { apply triple_act; [apply HK|apply Hsound|]. intros s Hs. split; [by apply Hsound in Hs|]. split; [|by intros f]. split; [done|]. unfold read_all.
    destruct Hs as [[[_ Hs] _] _]. rewrite Hs. by intros c [= <-]. }
  intros c n s [Hs Hc]. rewrite (Hc c eq_refl). clear Hc. revert n s Hs.
  assert (triple (K ""%string) (match age_Decrypt identities content with
    | Err e => mret (Err (Failed (ErrWrap e "decifratura age")))
    | Ok decrypted => e ← copy_reader env fate_of short fd turns decrypted;
        match e with Some e => mret (Err e) | None => _ ←? act env fate_of unseen; _ ←? act env fate_of unseen; publish env fate_of p output end
    end) (fun _ => sound) sound) as Ht; [|intros n s Hs; exact (Ht n s Hs)].
  destruct (age_Decrypt identities content) as [decrypted|er] eqn:Ed; [|apply triple_ret; apply Hsound].
  eapply triple_bind.
  { pose proof (triple_copy_reader env fate_of short p fd I ltac:(intros data s; by apply append_other) turns decrypted ""%string) as Hcopied.
    pose proof (still_copy_reader env fate_of short unmade _ unmade_append fd turns Logic.I decrypted) as Hunmade.
    eapply triple_weaken; [exact (triple_both _ _ _ _ _ _ _ Hcopied Hunmade)|by intros s Hs|intros a s Hs; exact Hs|by intros s [_ Hu]; left]. }
  intros [er|]; [by apply triple_ret; intros s [_ Hu]; left|].
  intros n s [Hs Hu]. destruct (Hs eq_refl) as (plain & Hplain & Hf).
  assert (triple (K plain) (_ ←? act env fate_of unseen; _ ←? act env fate_of unseen; publish env fate_of p output) (fun _ => sound) sound) as Ht; [|by apply Ht].
  apply (triple_try _ _ _ _ (fun _ => K plain)); [apply Hunseen|intros _|intros er t; apply Hsound].
  apply (triple_try _ _ _ _ (fun _ => K plain)); [apply Hunseen|intros _|intros er t; apply Hsound].
  eapply triple_pre; [apply (good_publish p fd plain); [done|apply HX; by exists decrypted]|]. intros t [[_ Ht] Hu']. by split.
Qed.

Lemma good_deliver ids content p fd plainNames : In p names -> incl plainNames names ->
  (forall plain, match ids with [] => plain = content | _ => opened ids content plain end -> X plain) ->
  good (match ids with
        | [] => _ ←? act env fate_of unseen; publish env fate_of p output
        | _ => with_temp env fate_of plainNames (fun plainPath plain => decrypt_to env fate_of short turns ids fd plain plainPath output)
        end) (fun s => named p fd (Regular content) s /\ unmade s).
Proof.
  intros Hp Hpl HX. assert (Stable env (named p fd (Regular content))) as HS by (by apply stable_file). destruct ids as [|id ids].
  - apply (triple_try _ _ _ _ (fun _ s => named p fd (Regular content) s /\ unmade s)); [|intros _; apply good_publish; [done|by apply HX]|by intros er s [_ Hu]; left].
    eapply triple_weaken; [apply (triple_act_inv env fate_of (fun s => named p fd (Regular content) s /\ unmade s)); done|done|done|by intros s [_ Hu]; left].
  - apply (good_with_temp plainNames _ (named p fd (Regular content)) (fun _ fd' => fd' <> fd)); [| |done].
    + intros q s Hs Hfree. destruct (create_at_other q s p fd _ Hfree Hs) as (_ & Hne & Hs'). by split; [|apply not_eq_sym].
    + intros q fd' Hq Hne. by apply (good_decrypt (id :: ids) content p fd q fd'); [apply Hpl|..].
Qed.
End vacancy.

Lemma good_Recover `{Platform, Age} env fate_of short turns output names `{!Apart (output :: names) env, !Vacant output env}
    source size digest identityFile i text verifiedNames plainNames :
  ~ In output names -> incl verifiedNames names -> incl plainNames names -> (identityFile <> ""%string -> In identityFile names) ->
  let X := recovered size digest identityFile text in
  triple (fun s => (identityFile <> ""%string -> named identityFile i (Regular text) s) /\ unmade output s)
    (Recover env fate_of short turns source output size digest identityFile verifiedNames plainNames) (fun _ => sound output X) (sound output X).
Proof.
  intros Hout Hv Hpl Hid X. assert (forall s, unmade output s -> sound output X s) as Hsound by (by intros s; left).
  assert (Stable env (unmade output)) as HS by (intros n s; apply vacant).
  unfold Recover. destruct (String.eqb output ""); [by apply triple_ret; intros s [_ Hu]; left|].
  destruct (validateExpected size digest); [|by apply triple_ret; intros s [_ Hu]; left].
  set (read_ids := fun ids : list age_identity => if String.eqb identityFile "" then ids = []
    else ids <> [] /\ ParseIdentities (str_take (maxIdentityBytes + 1) text) = Ok ids).
  apply (triple_try _ _ _ _ (fun r s => (forall ids, r = Ok ids -> read_ids ids) /\ unmade output s)); [| |by intros er s [_ Hu]; left].
  { subst read_ids. destruct (String.eqb identityFile "") eqn:E; [apply triple_ret; intros s [_ Hu]; by split; [intros ids [= <-]|]|]. apply String.eqb_neq in E.
    eapply triple_weaken; [apply triple_both; [apply (triple_identities env fate_of output names identityFile i text); by apply Hid|apply (still_identities env fate_of (unmade output))]|..].
    - intros s [Hs Hu]. split; [by apply Hs|exact Hu].
    - intros r s [Hr Hu]. split; [|done]. by intros ids ->.
    - by intros s [_ Hu]; left. }
  intros ids n s [Hids Hu]. specialize (Hids ids eq_refl). revert n s Hu.
  match goal with |- forall n s, _ -> match ?m (n, s) with _ => _ end => assert (triple (fun s => True /\ unmade output s) m (fun _ => sound output X) (sound output X)) as Ht; [|intros n s Hu; exact (Ht n s (conj I Hu))] end.
  apply (good_with_temp env fate_of output names Hout X verifiedNames _ (fun _ => True) (fun _ _ => True)); [done| |done]. intros p fd Hin _.
  apply (triple_try _ _ _ _ (fun r s => (r = Ok tt -> exists content, len content = size /\ sha256_hex content = digest /\ named p fd (Regular content) s) /\ unmade output s));
    [| |by intros er s [_ Hu]; left].
  { eapply triple_weaken; [apply triple_both; [apply (triple_copy_verified env fate_of short turns output names source p fd size digest); by apply Hv|
      apply (still_copy_verified env fate_of short (unmade output) _ (unmade_append output))]|..]; [done|by intros s [[_ Hs] Hu]| |by intros s [_ Hu]; left].
    intros r s [Hr Hu]. split; [|done]. intros ->. by apply Hr. }
  intros [] n s [Hs Hu]. destruct (Hs eq_refl) as (content & Hlen & Hsha & Hf).
  refine (good_deliver env fate_of short turns output names Hout X ids content p fd plainNames (Hv _ Hin) Hpl _ n s (conj Hf Hu)).
  intros plain Hx. exists content. do 2 (split; [done|]). subst read_ids. cbv beta in Hids. destruct (String.eqb identityFile ""); [by rewrite Hids in Hx|].
  exists ids. destruct Hids as [Hne Hp]. by destruct ids.
Qed.

(** ** When nothing fails

    [stage names files]: exactly these names, and at least these inodes. *)
Definition stage (names : gmap string Z) (files : gmap Z entry) (s : fs) : Prop :=
  fs_names s = names /\ files ⊆ fs_inodes s.
Lemma stage_file names files s i e : stage names files s -> files !! i = Some e -> fs_inodes s !! i = Some e.
Proof. intros [_ Hf] Hi. by eapply lookup_weaken. Qed.
Lemma stage_inode names files s path i e : stage names files s -> names !! path = Some i -> files !! i = Some e -> inode_of s path = Ok (i, e).
Proof. intros Hs Hn Hf. unfold inode_of. rewrite (proj1 Hs), Hn. by rewrite (stage_file _ _ _ _ _ Hs Hf). Qed.

Section faultless_files.
Context `{Platform, Age} (turns : nat).
Abbreviation whole := (fun _ : nat => @None Z).
Abbreviation act := (Io.act alone faultless).

Lemma runs_unseen P : runs P (act unseen) (fun r s => r = Ok tt /\ P s).
Proof. by apply runs_act. Qed.
Lemma runs_fstat names files fd e : files !! fd = Some e ->
  runs (stage names files) (act (fstat fd)) (fun r s => r = Ok e /\ stage names files s).
Proof. intros Hf. apply runs_act. intros s Hs. split; [|done]. unfold fstat. cbn. by rewrite (stage_file _ _ _ _ _ Hs Hf). Qed.
Lemma runs_open names files path i content : names !! path = Some i -> files !! i = Some (Regular content) ->
  runs (stage names files) (OpenRegular alone faultless path) (fun r s => r = Ok i /\ stage names files s).
Proof.
  intros Hn Hf. unfold OpenRegular. eapply (runs_try _ _ _ (i, Regular content)).
  { apply runs_act. intros s Hs. split; [|exact Hs]. cbn. by apply (stage_inode names files). }
  cbn [is_regular negb snd fst]. eapply (runs_try _ _ _ i).
  { apply runs_act. intros s Hs. split; [|exact Hs]. unfold open_file. cbn. by rewrite (stage_inode names files s path i _ Hs Hn Hf). }
  eapply runs_try; [by apply runs_fstat|]. cbn. rewrite Z.eqb_refl. cbn. by apply runs_ret.
Qed.

Lemma runs_create names files candidates : (exists p, In p candidates /\ names !! p = None) ->
  runs (stage names files) (act (create_temp candidates)) (fun r s => exists p fd, r = Ok (p, fd) /\ In p candidates /\
    names !! p = None /\ files !! fd = None /\ stage (<[p := fd]> names) (<[fd := Regular ""]> files) s).
Proof.
  intros (q & Hq & Hfree). apply runs_act. intros s Hs. pose proof (create_temp_cases candidates s) as Hc. unfold create_temp in *.
  destruct (filter _ candidates) as [|p rest] eqn:E.
  - assert (q ∈ filter (fun p => fs_names s !! p = None) candidates) as Hin; [|rewrite E in Hin; set_solver].
    apply list_elem_of_filter. split; [by rewrite (proj1 Hs)|by apply list_elem_of_In].
  - destruct Hc as (Hin & Hp & _ & _). destruct (new_inode_fresh s) as [Hi _]. destruct Hs as [Hn Hsub]. exists p, (new_inode s). rewrite <- Hn at 1.
    repeat (split; [done|]). split; [eapply lookup_weaken_None; [exact Hi|exact Hsub]|].
    split; cbn; [by rewrite Hn|by apply insert_mono].
Qed.
Lemma runs_write_inode names files fd data chunk :
  runs (stage names (<[fd := Regular data]> files)) (write_inode alone faultless whole fd chunk)
    (fun r s => r = (len chunk, None) /\ stage names (<[fd := Regular (data ++ chunk)]> files) s).
Proof.
  intros n s Hs. unfold write_inode. change (alone n s) with s. cbn [faultless]. eexists _, _, _. split; [reflexivity|].
  split; [done|]. rewrite str_take_all by done. unfold append_inode.
  rewrite (stage_file _ _ _ fd (Regular data) Hs) by apply lookup_insert_eq. destruct Hs as [Hn Hsub]. split; [done|]. cbn.
  rewrite <- (insert_insert_eq files fd _ (Regular data)). by apply insert_mono.
Qed.
Lemma runs_remove names files path i content : names !! path = Some i -> files !! i = Some (Regular content) ->
  runs (stage names files) (act (remove_path path)) (fun r s => r = Ok tt /\ stage (delete path names) files s).
Proof.
  intros Hn Hf. apply runs_act. intros s Hs. unfold remove_path. rewrite (stage_inode names files s path i _ Hs Hn Hf). split; [done|].
  destruct Hs as [<- Hsub]. by split.
Qed.
Lemma runs_publish names files staged output i : names !! staged = Some i -> names !! output = None ->
  runs (stage names files) (publish alone faultless staged output) (fun r s => r = Ok tt /\ stage (<[output := i]> names) files s).
Proof.
  intros Hn Ho. unfold publish. eapply (runs_bind _ _ _ _ (fun r s => r = Ok tt /\ stage (<[output := i]> names) files s)).
  - apply runs_act. intros s [<- Hsub]. unfold link_path. rewrite Hn, Ho. by split.
  - intros r n s [-> Hs]. by apply (runs_unseen (stage (<[output := i]> names) files)).
Qed.

(** A copy ends when it has as many turns as bytes, and one. *)
Lemma runs_copied {W} (write : W -> string -> io fs (W * option failure)) fd (J : string -> W -> fs -> Prop) content :
  (forall data w s, J data w s -> fs_inodes s !! fd = Some (Regular content)) ->
  (forall data w chunk, runs (J data w) (write w chunk) (fun r s => snd r = None /\ J (data ++ chunk)%string (fst r) s)) ->
  forall fuel off limit n data w, 0 <= off -> len (cut limit (str_drop off content)) < Z.of_nat fuel ->
  runs (J data w) (copy alone faultless write fd fuel off limit n w) (fun r s => snd r = None /\
    fst (fst r) = n + len (cut limit (str_drop off content)) /\ J (data ++ cut limit (str_drop off content))%string (snd (fst r)) s).
Proof.
  intros Hfile Hw. induction fuel as [|fuel IH]; intros off limit n data w Hoff Hfuel; [pose proof (len_nonneg (cut limit (str_drop off content))); lia|].
  cbn [copy]. assert (forall rest, rest = ""%string -> rest = cut limit (str_drop off content) ->
    runs (J data w) (mret (n, w, @None failure)) (fun r s => snd r = None /\
      fst (fst r) = n + len (cut limit (str_drop off content)) /\ J (data ++ cut limit (str_drop off content))%string (snd (fst r)) s)) as Hend.
  { intros rest Hr Hc. rewrite <- Hc, Hr, str_app_nil_r. apply runs_ret. intros s Hs. cbn. change (len "") with 0. split; [done|]. split; [lia|done]. }
  destruct (spent limit) eqn:Es.
  { apply (Hend ""%string); [done|]. destruct limit as [N|]; [|done]. cbn in *. unfold str_take. by replace (Z.to_nat N) with 0%nat by lia. }
  set (chunk := str_take (room_of limit) (str_drop off content)).
  eapply (runs_bind _ _ _ _ (fun r s => r = Ok chunk /\ J data w s)).
  { apply runs_act. intros s Hs. split; [|exact Hs]. unfold read_at. cbn. by rewrite (Hfile _ _ _ Hs). }
  intros r k s [-> Hs]. revert k s Hs. destruct (len chunk =? 0) eqn:E0.
  { apply (Hend chunk); [by apply len_zero; lia|]. apply (copied_empty limit); [done|by apply Z.eqb_eq]. }
  pose proof (len_nonneg chunk). pose proof (room_cut limit (str_drop off content) chunk Es eq_refl ltac:(lia)) as Hcut.
  rewrite str_drop_drop in Hcut by lia. rewrite Hcut in Hfuel |- *. rewrite len_app in Hfuel |- *.
  eapply runs_bind; [apply Hw|]. intros [w' e] k s [He Hs]. cbn [fst snd] in He, Hs. subst e. revert k s Hs.
  eapply runs_weaken; [apply (IH (off + len chunk) ((fun N => N - len chunk) <$> limit) (n + len chunk) (data ++ chunk)%string w'); lia|done|].
  intros r s (? & ? & ?). rewrite <- str_app_assoc. split; [done|]. split; [lia|done].
Qed.

Lemma runs_copy_reader fuel : forall names files fd data body plain, progressing body -> delivered body = (plain, EOF) ->
  len plain < Z.of_nat fuel ->
  runs (stage names (<[fd := Regular data]> files)) (copy_reader alone faultless whole fd fuel body)
    (fun e s => e = None /\ stage names (<[fd := Regular (data ++ plain)]> files) s).
Proof.
  induction fuel as [|fuel IH]; intros names files fd data body plain Hp Hd Hfuel; pose proof (len_nonneg plain); [lia|].
  cbn [copy_reader]. eapply runs_bind; [by apply runs_unseen|]. intros r n s [-> Hs]. revert n s Hs.
  destruct (read body copyBuffer) as [[chunk e] body'] eqn:Er.
  destruct (read_progress body copyBuffer chunk e body' ltac:(done) Hp Er) as [Hp' Hpos].
  apply read_delivered in Er as [Hlen Hdel]; [|done].
  eapply (runs_bind _ _ _ _ (fun r s => r = (len chunk, None) /\ stage names (<[fd := Regular (data ++ chunk)]> files) s)).
  { destruct (len chunk =? 0) eqn:E0; [|apply runs_write_inode]. apply runs_ret. intros s Hs. rewrite (len_zero chunk) by lia.
    by rewrite str_app_nil_r. }
  intros [written writeErr] n s [[= -> ->] Hs]. rewrite Z.eqb_refl. cbn [negb]. revert n s Hs. rewrite Hd in Hdel.
  destruct e as [e|].
  - injection Hdel as -> <-. apply runs_ret. done.
  - specialize (Hpos eq_refl). destruct (delivered body') as [plain' e'] eqn:Hd'. cbn [fst snd] in Hdel. injection Hdel as -> <-.
    rewrite len_app in Hfuel. rewrite <- str_app_assoc. apply IH; [done|done|lia].
Qed.

Lemma runs_identities names files path i text ids : names !! path = Some i -> files !! i = Some (Regular text) ->
  len text <= maxIdentityBytes -> ParseIdentities text = Ok ids -> ids <> [] ->
  runs (stage names files) (ReadIdentities alone faultless path) (fun r s => r = Ok ids /\ stage names files s).
Proof.
  intros Hn Hf Hlen Hids Hne. unfold ReadIdentities. eapply runs_try; [by eapply runs_open|].
  eapply runs_try; [by apply runs_fstat|]. eapply runs_try; [apply runs_unseen|]. cbn [entry_size]. rewrite (proj2 (Z.ltb_ge _ _)) by lia.
  eapply (runs_try _ _ _ text).
  { apply runs_act. intros s Hs. split; [|exact Hs]. unfold read_at. cbn. rewrite (stage_file _ _ _ _ _ Hs Hf).
    change (str_drop 0 text) with text. rewrite str_take_all; [done|]. unfold maxIdentityBytes in *. lia. }
  rewrite Hids. destruct ids; [done|]. by apply runs_ret.
Qed.

Lemma runs_copy_verified names files source si content fd size digest : names !! source = Some si ->
  files !! si = Some (Regular content) -> si <> fd -> len content = size -> sha256_hex content = digest -> size < Z.of_nat turns ->
  runs (stage names (<[fd := Regular ""]> files)) (copy_verified alone faultless whole turns source fd size digest)
    (fun r s => r = Ok tt /\ stage names (<[fd := Regular content]> files) s).
Proof.
  intros Hn Hf Hne Hsize Hsha Hturns. unfold copy_verified. eapply runs_try; [apply runs_unseen|].
  eapply runs_try; [eapply (runs_open _ _ source si content); [done|by rewrite lookup_insert_ne]|].
  set (J := fun data hashed s => hashed = data /\ stage names (<[fd := Regular data]> files) s).
  assert (cut (Some (size + 1)) (str_drop 0 content) = content) as Hcut.
  { change (str_drop 0 content) with content. cbn. apply str_take_all. lia. }
  eapply runs_bind.
  { eapply runs_weaken; [apply (runs_copied (verified_write alone faultless whole fd) si J content) with (data := ""%string) (w := ""%string) (n := 0)| |intros r s Hr; exact Hr].
    - intros data w s [_ Hs]. eapply (stage_file _ _ _ _ _ Hs). by rewrite lookup_insert_ne.
    - intros data w chunk. apply runs_pure. intros ->. unfold verified_write. eapply runs_bind; [apply runs_write_inode|].
      intros [k e] n s [[= -> ->] Hs]. rewrite Z.eqb_refl. cbn [negb]. revert n s Hs. by apply runs_ret.
    - done.
    - rewrite Hcut. lia.
    - by intros s Hs. }
  rewrite Hcut. intros [[n hashed] e] k s (He & Hl & Hh & Hs). cbn [fst snd] in *. subst e hashed n. change (0 + len content) with (len content).
  change ("" ++ content)%string with content in *. revert k s Hs. eapply runs_bind; [apply runs_unseen|]. intros r k s [-> Hs]. revert k s Hs.
  rewrite Hsize, Hsha, Z.eqb_refl, String.eqb_refl. cbn [negb orb]. eapply runs_try; [apply runs_unseen|]. apply runs_unseen.
Qed.

Lemma runs_decrypt names files ids content body plain vfd fd p output : files !! vfd = Some (Regular content) -> vfd <> fd ->
  names !! p = Some fd -> names !! output = None ->
  age_Decrypt ids content = Ok body -> progressing body -> delivered body = (plain, EOF) -> len plain < Z.of_nat turns ->
  runs (stage names (<[fd := Regular ""]> files)) (decrypt_to alone faultless whole turns ids vfd fd p output)
    (fun r s => r = Ok tt /\ stage (<[output := fd]> names) (<[fd := Regular plain]> files) s).
Proof.
  intros Hf Hne Hp Ho Hd Hprog Hdel Hturns. unfold decrypt_to. eapply runs_try; [apply runs_unseen|].
  eapply (runs_try _ _ _ content).
  { apply runs_act. intros s Hs. split; [|exact Hs]. unfold read_all. rewrite (stage_file _ _ _ vfd (Regular content) Hs); [done|].
    by rewrite lookup_insert_ne. }
  rewrite Hd. eapply runs_bind; [by eapply runs_copy_reader|]. intros e n s [-> Hs]. revert n s Hs.
  eapply runs_try; [apply runs_unseen|]. eapply runs_try; [apply runs_unseen|]. by apply runs_publish.
Qed.

(** With a temporary file: its name is free before and after. *)
Lemma runs_with_temp names files candidates (body : string -> Z -> io fs (result failure unit)) (Q : gmap string Z -> gmap Z entry -> Prop) :
  (exists p, In p candidates /\ names !! p = None) ->
  (forall p fd, In p candidates -> names !! p = None -> files !! fd = None ->
    runs (stage (<[p := fd]> names) (<[fd := Regular ""]> files)) (body p fd)
      (fun r s => exists names' files' data, r = Ok tt /\ stage (<[p := fd]> names') files' s /\ names' !! p = None /\
        files' !! fd = Some (Regular data) /\ Q names' files')) ->
  runs (stage names files) (with_temp alone faultless candidates body)
    (fun r s => exists names' files', r = Ok tt /\ stage names' files' s /\ Q names' files').
Proof.
  intros Hfree Hbody. unfold with_temp, io_try. eapply runs_bind; [by apply runs_create|].
  intros r n s (p & fd & -> & Hin & Hp & Hfd & Hs). cbn [fst snd]. revert n s Hs.
  eapply runs_bind; [by apply Hbody|]. intros r n s (names' & files' & data & -> & Hs & Hp' & Hd & HQ). revert n s Hs.
  eapply runs_bind; [eapply runs_remove; [apply lookup_insert_eq|exact Hd]|]. intros r n s [_ Hs]. exists (Ok tt), n, s. split; [done|].
  rewrite delete_insert_id in Hs by done. by exists names', files'.
Qed.

Lemma runs_contents names files ids content body plain vfd output plainNames : files !! vfd = Some (Regular content) ->
  names !! output = None -> ~ In output plainNames -> (exists p, In p plainNames /\ names !! p = None) ->
  age_Decrypt ids content = Ok body -> progressing body -> delivered body = (plain, EOF) -> len plain < Z.of_nat turns ->
  runs (stage names files)
    (with_temp alone faultless plainNames (fun plainPath fd => decrypt_to alone faultless whole turns ids vfd fd plainPath output))
    (fun r s => exists names' files', r = Ok tt /\ stage names' files' s /\ exists i, names' = <[output := i]> names /\
      files' !! i = Some (Regular plain) /\ files' !! vfd = Some (Regular content)).
Proof.
  intros Hvfd Hout Hplain Hp Hd Hprog Hdel Hturns. apply (runs_with_temp names files plainNames _ (fun names' files' =>
    exists i, names' = <[output := i]> names /\ files' !! i = Some (Regular plain) /\ files' !! vfd = Some (Regular content))); [done|].
  intros pp fd Hpin Hpfree Hfd. assert (vfd <> fd) as Hvf by congruence. assert (pp <> output) as Hpo by (by intros ->).
  eapply runs_weaken; [apply (runs_decrypt (<[pp := fd]> names) files ids content body plain vfd fd pp output); try done|done|].
  - apply lookup_insert_eq.
  - by rewrite lookup_insert_ne.
  - intros r s [-> Hs]. exists (<[output := fd]> names), (<[fd := Regular plain]> files), plain.
    split; [done|]. rewrite insert_insert_ne by done. split; [done|]. split; [by rewrite lookup_insert_ne|]. split; [apply lookup_insert_eq|].
    exists fd. split; [done|]. split; [apply lookup_insert_eq|]. by rewrite lookup_insert_ne.
Qed.

(** What is delivered: the bytes, or their contents. *)
Definition delivers (identityFile : string) (ids : list age_identity) (content plain : string) : Prop :=
  if String.eqb identityFile "" then plain = content
  else ids <> [] /\ exists body, age_Decrypt ids content = Ok body /\ progressing body /\ delivered body = (plain, EOF).

Lemma runs_Recover names files source si content output size digest identityFile ii text ids plain verifiedNames plainNames :
  output <> ""%string -> validateExpected size digest = Ok tt ->
  names !! source = Some si -> files !! si = Some (Regular content) -> len content = size -> sha256_hex content = digest ->
  (identityFile <> ""%string -> names !! identityFile = Some ii /\ files !! ii = Some (Regular text) /\
     len text <= maxIdentityBytes /\ ParseIdentities text = Ok ids) ->
  delivers identityFile ids content plain ->
  names !! output = None -> (forall p, In p verifiedNames -> p <> output /\ ~ In p plainNames) -> ~ In output plainNames ->
  (exists p, In p verifiedNames /\ names !! p = None) -> (exists p, In p plainNames /\ names !! p = None) ->
  size < Z.of_nat turns -> len plain < Z.of_nat turns ->
  runs (stage names files) (Recover alone faultless whole turns source output size digest identityFile verifiedNames plainNames)
    (fun r s => exists names' files', r = Ok tt /\ stage names' files' s /\
      exists i, names' = <[output := i]> names /\ files' !! i = Some (Regular plain)).
Proof.
  intros Hout Hval Hsrc Hsi Hsize Hsha Hid Hdel Hfree Hverified Hplain Hv Hp Hturns Hturns'.
  unfold Recover. rewrite (proj2 (String.eqb_neq _ _) Hout), Hval.
  eapply (runs_try _ _ _ (if String.eqb identityFile "" then [] else ids) _ (stage names files)).
  { destruct (String.eqb identityFile "") eqn:E; [by apply runs_ret|]. apply String.eqb_neq in E. destruct (Hid E) as (H1 & H2 & H3 & H4).
    eapply runs_identities; [done..|]. unfold delivers in Hdel. rewrite (proj2 (String.eqb_neq _ _) E) in Hdel. by destruct Hdel. }
  apply (runs_with_temp names files verifiedNames _ (fun names' files' => exists i, names' = <[output := i]> names /\ files' !! i = Some (Regular plain))); [done|].
  intros vp vfd Hvin Hvfree Hvfd. destruct (Hverified vp Hvin) as [Hvo Hvp].
  assert (si <> vfd) as Hne by congruence. assert (source <> vp) as Hsv by congruence.
  eapply runs_try; [apply (runs_copy_verified _ files source si content vfd size digest); [by rewrite lookup_insert_ne|done..]|].
  unfold delivers in Hdel. destruct (String.eqb identityFile "") eqn:E.
  - subst plain. eapply runs_try; [apply runs_unseen|].
    eapply runs_weaken; [eapply (runs_publish _ _ vp output vfd); [apply lookup_insert_eq|by rewrite lookup_insert_ne]|done|].
    intros r s [-> Hs]. exists (<[output := vfd]> names), (<[vfd := Regular content]> files), content. split; [done|].
    rewrite insert_insert_ne by done. split; [done|]. split; [by rewrite lookup_insert_ne|]. split; [apply lookup_insert_eq|].
    exists vfd. split; [done|apply lookup_insert_eq].
  - destruct Hdel as [Hne' (body & Hd & Hprog & Hdeliv)]. destruct ids as [|id ids]; [done|].
    eapply runs_weaken; [apply (runs_contents (<[vp := vfd]> names) (<[vfd := Regular content]> files) (id :: ids) content body plain vfd output plainNames); try done|done|].
    + apply lookup_insert_eq.
    + by rewrite lookup_insert_ne.
    + destruct Hp as (q & Hq & Hqf). exists q. split; [done|]. rewrite lookup_insert_ne; [done|]. by intros ->.
    + intros r s (names' & files' & -> & Hs & i & -> & Hi & Hvi). exists (<[output := i]> names), files', content. split; [done|].
      rewrite insert_insert_ne by done. split; [done|]. split; [by rewrite lookup_insert_ne|]. split; [done|]. by exists i.
Qed.
End faultless_files.

(** C7. Recovery writes what it was asked for, or nothing, and spares the rest:
    whatever fails and wherever the process stops, [Recover] reports success only
    when the output is a file with the bytes of the expected size and SHA-256 or, if
    there are identities, with the whole contents they decrypt to; if the name of the
    output was free, then afterwards, with success, failure or a stop, it is free or
    such a file, never one that was not verified, as long as nobody else makes it and
    it is not one of the temporary names; and no file that was there is replaced,
    changed or removed. *)
Theorem recover_safe `{Platform, Age} env fate_of short turns source output size digest identityFile verifiedNames plainNames ii text n s :
  Apart (output :: identityFile :: verifiedNames ++ plainNames) env ->
  (identityFile <> ""%string -> named identityFile ii (Regular text) s) ->
  let '(r, (_, s')) := Recover env fate_of short turns source output size digest identityFile verifiedNames plainNames (n, s) in
  (r = Some (Ok tt) -> exists plain, recovered size digest identityFile text plain /\ holds_file output plain s') /\
  (fs_names s !! output = None -> Vacant output env -> ~ In output (identityFile :: verifiedNames ++ plainNames) ->
     fs_names s' !! output = None \/ exists plain, recovered size digest identityFile text plain /\ holds_file output plain s') /\
  (forall path i e, Apart [path] env -> named path i e s -> named path i e s').
Proof.
  intros Hap Hid.
  assert (fs_names s !! output = None -> Vacant output env -> ~ In output (identityFile :: verifiedNames ++ plainNames) ->
    match Recover env fate_of short turns source output size digest identityFile verifiedNames plainNames (n, s) with
    | (_, (_, s')) => sound output (recovered size digest identityFile text) s' end) as Hsound.
  { intros Hfree Hvac Hout. pose proof (good_Recover env fate_of short turns output (identityFile :: verifiedNames ++ plainNames) source size digest identityFile ii text
      verifiedNames plainNames Hout ltac:(intros p Hp; right; apply in_app_iff; by left) ltac:(intros p Hp; right; apply in_app_iff; by right) ltac:(by left) n s (conj Hid Hfree)) as Hg.
    by destruct (Recover _ _ _ _ _ _ _ _ _ _ _ _) as [[r|] [n' s']]. }
  assert (forall path i e, Apart [path] env -> named path i e s ->
    match Recover env fate_of short turns source output size digest identityFile verifiedNames plainNames (n, s) with
    | (_, (_, s')) => named path i e s' end) as Hkeep.
  { intros path i e Hp Hs. pose proof (keeps_recover env fate_of short turns path i e source output size digest identityFile verifiedNames plainNames n s Hs) as Hk.
    by destruct (Recover _ _ _ _ _ _ _ _ _ _ _ _) as [[r|] [n' s']]. }
  pose proof (triple_Recover env fate_of short turns output (identityFile :: verifiedNames ++ plainNames) source size digest identityFile ii text
    verifiedNames plainNames) as Ht.
  specialize (Ht ltac:(intros p Hp; right; apply in_app_iff; by left) ltac:(intros p Hp; right; apply in_app_iff; by right) ltac:(by left) n s Hid).
  destruct (Recover _ _ _ _ _ _ _ _ _ _ _ _) as [[r|] [n' s']]; (split; [|split; [exact Hsound|exact Hkeep]]); [|done]. intros [= ->]. by apply Ht.
Qed.

(** ** A library that puts two bytes before the contents and two after *)
Module Bracket.
Import Archive.Scenario.
#[local] Existing Instance platform.
#[export] Instance bracket : Age := {|
  age_recipient := unit; age_identity := unit; age_stream := unit;
  ParseX25519Recipient s := if String.eqb s "age1" then Ok tt else Err (ErrText "age");
  ParseIdentities s := if String.eqb s "AGE-SECRET-KEY" then Ok [tt] else Err (ErrText "age");
  GenerateX25519Identity _ := ("AGE-SECRET-KEY", "age1")%string;
  age_Encrypt _ _ := (["01"%string], tt); age_Write st c := ([c], st); age_Close _ := ["89"%string];
  age_Decrypt _ s := Ok [(str_take (len s - 4) (str_drop 2 s), Some EOF)] |}.

Lemma feed_all st chunks : age_feed st chunks = (chunks, st).
Proof. induction chunks as [|c chunks IH]; [done|]. cbn. by rewrite IH. Qed.
Lemma unbracket j : str_take (len ("01" ++ j ++ "89") - 4) (str_drop 2 ("01" ++ j ++ "89")) = j.
Proof.
  change (str_drop 2 ("01" ++ j ++ "89")) with (j ++ "89")%string. rewrite !len_app. change (len "01") with 2. change (len "89") with 2.
  rewrite str_take_app by lia. replace (2 + (len j + 2) - 4 - len j) with 0 by lia. apply str_app_nil_r.
Qed.

(** A recovery that cannot remove a temporary file. *)
Definition disk : fs :=
  Fs {[ "/copia"%string := 1; "/id"%string := 2 ]} {[ 1 := Regular "0123456789"; 2 := Regular "AGE-SECRET-KEY" ]}.
Definition stuck (n : nat) : fate := if Nat.eqb n 26 then Fails (Broken "EPERM") else Works.
Lemma recover_safe_witness :
  named "/id" 2 (Regular "AGE-SECRET-KEY") disk /\
  let '(r, (_, s')) := Recover alone stuck (fun _ => None) 20 "/copia" "/ritorno" 10 digest "/id" ["/v"%string] ["/p"%string] (0%nat, disk) in
  (r = Some (Ok tt) -> exists plain, recovered 10 digest "/id" "AGE-SECRET-KEY" plain /\ holds_file "/ritorno" plain s') /\
  (fs_names disk !! "/ritorno"%string = None -> Vacant "/ritorno" alone -> ~ In "/ritorno"%string ["/id"; "/v"; "/p"]%string ->
     fs_names s' !! "/ritorno"%string = None \/ exists plain, recovered 10 digest "/id" "AGE-SECRET-KEY" plain /\ holds_file "/ritorno" plain s') /\
  (forall path i e, Apart [path] alone -> named path i e disk -> named path i e s').
Proof.
  split; [by split; vm_compute|]. apply (recover_safe alone stuck (fun _ => None) 20 "/copia" "/ritorno" 10 digest "/id" ["/v"%string] ["/p"%string] 2 "AGE-SECRET-KEY").
  - apply _.
  - intros _. by split; vm_compute.
Defined.
End Bracket.
