(* ===== verification/Front.v ===== *)
(** The HTTP fronts of an upload: the writer's checks of a request before it is
    admitted ([ServeHTTP] of [src/internal/ingest/writer.go]) and the receiver that
    forwards it ([src/internal/gateway/gateway.go]). *)
From S2P Require Import Prelude GoTime GoString Model Catalog Deposit Store Io Writer.

(** ** Codecs

    base64 without padding, and JSON into a [Metadata] without unknown fields; the
    boolean tells that something follows it. *)
Class Codec : Type := {
  base64_decode : string -> option string;
  base64_encode : string -> string;
  json_metadata : string -> option (metadata * bool);
  metadata_json : metadata -> string }.

Section codec.
Context `{Codec}.
Definition EncodeMetadata (m : metadata) : result err string :=
  _ ← Metadata_Validate m; Ok (base64_encode (metadata_json m)).
Definition DecodeMetadata (s : string) : result err metadata :=
  if 12288 <? len s then Err (ErrText "metadati troppo grandi")
  else
    match base64_decode s with
    | None => Err (ErrText "metadati non validi")
    | Some b =>
      match json_metadata b with
      | None => Err (ErrText "metadati non validi")
      | Some (_, true) => Err (ErrText "metadati aggiuntivi non consentiti")
      | Some (m, false) => _ ← Metadata_Validate m; Ok m
      end
    end.
End codec.

(** ** Requests

    A header has its values in order; [Get] takes the first. *)
Record http_request : Type := HttpRequest {
  q_Path : string; q_RawQuery : string; q_Method : string; q_Header : string -> list string;
  q_ContentLength : Z; q_Body : reader }.
#[global] Instance eta_http_request : Settable http_request := fun r =>
  HttpRequest (q_Path r) (q_RawQuery r) (q_Method r) (q_Header r) (q_ContentLength r) (q_Body r).
Definition header_get (r : http_request) (name : string) : string :=
  match q_Header r name with [] => ""%string | v :: _ => v end.
Definition MetadataHeader : string := "X-Onlybackup-Metadata".
Definition DigestHeader : string := "X-Onlybackup-Sha256".
Definition IdempotencyHeader : string := "X-Onlybackup-Idempotency-Key".
Definition single_headers : list string :=
  ["Authorization"; "Content-Type"; "Content-Encoding"; MetadataHeader; DigestHeader; IdempotencyHeader]%string.
Definition duplicate_header (r : http_request) : bool :=
  existsb (fun name => (1 <? length (q_Header r name))%nat) single_headers.

(** [Error()] of the errors of the model. *)
Definition sentinel_text (e : err) : string :=
  match e with
  | ErrUnauthorized => "chiave non valida o revocata"
  | ErrQuota => "spazio disponibile per la chiave insufficiente"
  | ErrSize => "dimensione del backup non consentita"
  | ErrRate => "numero massimo di invii nelle ultime 24 ore raggiunto"
  | ErrConcurrent => "numero massimo di upload simultanei raggiunto"
  | ErrDisk => "spazio libero del server insufficiente"
  | ErrIdempotencyConflict => "chiave di idempotenza gia usata per un deposito diverso"
  | ErrIdempotencyInProgress => "deposito con la stessa chiave di idempotenza ancora in corso"
  | ErrIdempotencyUnavailable => "deposito gia sottoposto a retention e non piu disponibile; usare una nuova chiave di idempotenza"
  | ErrText message => message
  | _ => ""
  end.
(** [AdmissionError]: the status, and the text unless it is the default. *)
Definition refusal (e : failure) : response :=
  match e with
  | Failed e =>
    if (AdmissionError e =? 503) && negb (errors_is e ErrBusy) then Respond 503 "impossibile prenotare lo spazio"
    else Respond (AdmissionError e) (sentinel_text e)
  | OsError _ => Respond 503 "impossibile prenotare lo spazio"
  end.

Definition token_of (r : http_request) : option string :=
  let auth := header_get r "Authorization" in
  if has_prefix "Bearer " auth && ValidToken (trim_prefix "Bearer " auth) then Some (trim_prefix "Bearer " auth) else None.

(** What the writer takes of a request that is in order, or the refusal. *)
Record upload_request : Type := UploadRequest { ur_Token : string; ur_Metadata : metadata; ur_Digest : string; ur_Key : string }.
Definition inspect `{Codec} (r : http_request) : response + upload_request :=
  if negb (ValidUploadPath (q_Path r)) || negb (String.eqb (q_RawQuery r) "") then inl (Respond 404 "operazione inesistente")
  else if negb (String.eqb (q_Method r) "POST") then inl (Respond 405 "è consentito soltanto l'invio")
  else if duplicate_header r then inl (Respond 400 "header duplicato")
  else
    match token_of r with
    | None => inl (Respond 401 (sentinel_text ErrUnauthorized))
    | Some token =>
      if q_ContentLength r <=? 0 then inl (Respond 411 "richiesto un file non vuoto con dimensione nota")
      else if negb (String.eqb (header_get r "Content-Type") "application/octet-stream") || negb (String.eqb (header_get r "Content-Encoding") "")
      then inl (Respond 415 "inviare il contenuto grezzo del file")
      else
        match DecodeMetadata (header_get r MetadataHeader) with
        | Err e => inl (Respond 400 (sentinel_text e))
        | Ok m =>
          let digest := header_get r DigestHeader in
          let key := header_get r IdempotencyHeader in
          if negb (ValidDigest digest) then inl (Respond 400 "SHA-256 richiesto e non valido")
          else if String.eqb (q_Path r) UploadPath && String.eqb key "" then inl (Respond 400 "chiave di idempotenza richiesta")
          else if negb (String.eqb key "") && negb (ValidIdempotencyKey key) then inl (Respond 400 "chiave di idempotenza non valida")
          else inr (UploadRequest token m digest key)
        end
    end.

Section writer_front.
Context `{Platform, Codec}.
Context (env : nat -> server -> server) (fate_of : nat -> fate) (clock : nat -> Z) (short : nat -> option Z).
Context (check : Z -> result err unit) (ids : nat -> string).

(** [model.NewID] *)
Definition draw_id : Io.io server string := fun '(n, s) => (Some (ids n), ((n + 1)%nat, s)).

Definition ServeHTTP (r : http_request) : Io.io server response :=
  match inspect r with
  | inl refused => mret refused
  | inr q =>
    t ← now clock;
    id ← draw_id;
    u ← Admit env fate_of (ur_Token q) (ur_Metadata q) (q_ContentLength r) (ur_Digest q) (ur_Key q) t check id;
    match u with
    | Err e => mret (refusal e)
    | Ok upload =>
      let b := ad_Backup upload in
      if has_status BackupComplete b then mret (ReceiptResponse (b_ID b) (b_Size b) (b_SHA256 b) (b_ReceivedAt b))
      else
        answer ← Receive env fate_of clock short upload (q_Body r);
        mret (fst answer)
    end
  end.
End writer_front.

(** ** The receiver

    It has slots of its own and forwards to the writer what it lists.  What becomes
    of the body on its way is up to [transmit]. *)
Record net : Type := Net { n_server : server; n_gateway : Z }.
#[global] Instance eta_net : Settable net := fun s => Net (n_server s) (n_gateway s).

(** What the others do to the writer, and to the slots of the receiver. *)
Definition net_env (env : nat -> server -> server) (others : nat -> Z -> Z) (n : nat) (s : net) : net :=
  Net (env n (n_server s)) (others n (n_gateway s)).

(** A program of a part of the state. *)
Definition lift_io {S T A} (get : T -> S) (set : S -> T -> T) (m : Io.io S A) : Io.io T A := fun '(n, t) =>
  let '(r, (n', s)) := m (n, get t) in (r, (n', set s t)).
Definition on_server {A} : Io.io server A -> Io.io net A := lift_io n_server (fun s t => t <| n_server := s |>).

Definition gateway_capacity : Z := 32.

Section gateway.
Context (env : nat -> net -> net) (fate_of : nat -> fate) (transmit : nat -> reader -> reader).
(** The writer's [ServeHTTP]. *)
Context (writer : http_request -> Io.io server response).

Definition gateway_slots (f : Z -> Z) : Io.io net unit := fun '(n, s) => (Some tt, (n, s <| n_gateway ::= f |>)).
Definition gateway_used : Io.io net Z := fun '(n, s) => (Some (n_gateway s), (n, s)).
Definition carry (body : reader) : Io.io net reader := fun '(n, s) => (Some (transmit n body), ((n + 1)%nat, s)).

Definition forwarded (r : http_request) (body : reader) : http_request :=
  HttpRequest (q_Path r) "" "POST" (fun name =>
      if existsb (String.eqb name) single_headers then [header_get r name]
      else if String.eqb name "Expect" then ["100-continue"%string] else [])
    (q_ContentLength r) body.

(** [RoundTrip] and the reading of the response, which may be lost after it was made. *)
Definition forward (r : http_request) : Io.io net response :=
  body ← carry (q_Body r);
  result ← rpc env fate_of (answer ← on_server (writer (forwarded r body)); mret (Ok answer));
  match result with
  | Err _ => mret (Respond 502 "esito non confermato: writer non disponibile")
  | Ok response =>
    received ← act env fate_of (fun s => (Ok tt, s));
    match received with
    | Err _ => mret (Respond 502 "esito non confermato: risposta writer non valida")
    | Ok _ => mret response
    end
  end.

Definition Gateway_ServeHTTP (r : http_request) : Io.io net response :=
  if negb (ValidUploadPath (q_Path r)) || negb (String.eqb (q_RawQuery r) "") then mret (Respond 404 "operazione inesistente")
  else if negb (String.eqb (q_Method r) "POST") then mret (Respond 405 "è consentito soltanto l'invio")
  else
    used ← gateway_used;
    if gateway_capacity <=? used then mret (Respond 503 "server occupato")
    else
      _ ← gateway_slots (fun k => k + 1);
      answer ← (if q_ContentLength r <=? 0 then mret (Respond 411 "richiesto un file non vuoto con dimensione nota")
                else if duplicate_header r then mret (Respond 400 "header duplicato")
                else forward r);
      _ ← gateway_slots (fun k => k - 1);
      mret answer.
End gateway.
