(* ===== verification/Client.v ===== *)
(** The client that sends a file, encrypted or not, and retries with the same
    idempotency key ([src/internal/client/client.go]).  Its progress messages are
    left out. *)
From S2P Require Import Prelude GoTime GoString Model Catalog Deposit Store Io Writer Files Cryptfile Front.

Record options : Type := Options {
  op_URL : string; op_KeyFile : string; op_CAFile : string; op_EncryptTo : string; op_Plaintext : bool;
  op_EncryptedTempLimitBytes : Z; op_EncryptedTempDir : string }.

(** [net/url] and [crypto/x509]. *)
Record url : Type := Url { u_Scheme : string; u_Host : string; u_User : bool; u_RawQuery : string; u_Fragment : string; u_Path : string }.
Class Web : Type := {
  url_Parse : string -> option url;
  AppendCertsFromPEM : string -> bool }.

Record receipt : Type := MkReceipt { rc_ID : string; rc_Size : Z; rc_SHA256 : string; rc_ReceivedAt : string }.

(** The computer of the client and the rest. *)
Record world : Type := World { w_files : fs; w_net : net }.
#[global] Instance eta_world : Settable world := fun w => World (w_files w) (w_net w).
Definition on_files {A} : Io.io fs A -> Io.io world A := lift_io w_files (fun s w => w <| w_files := s |>).
Definition on_net {A} : Io.io net A -> Io.io world A := lift_io w_net (fun s w => w <| w_net := s |>).

(** The checks of the options; the format of the contents. *)
Definition content_format (o : options) (m : metadata) : result err metadata :=
  let encrypted := negb (String.eqb (op_EncryptTo o) "") in
  if encrypted && op_Plaintext o then Err (ErrText "encrypt_to e plaintext non possono essere usati insieme")
  else if encrypted then
    if negb (String.eqb (ContentFormat m) "") && negb (String.eqb (ContentFormat m) ContentFormatAgeV1)
    then Err (ErrText "formato contenuto incompatibile con --encrypt-to")
    else if op_EncryptedTempLimitBytes o <? 0 then Err (ErrText "il limite del temporaneo cifrato non puo essere negativo")
    else Ok (Metadata (Description m) (OriginalName m) ContentFormatAgeV1)
  else if negb (op_Plaintext o) then Err (ErrText "cifratura richiesta: configurare encrypt_to oppure scegliere esplicitamente plaintext")
  else if negb (String.eqb (ContentFormat m) "") then Err (ErrText "content_format richiede la cifratura configurata")
  else if negb (op_EncryptedTempLimitBytes o =? 0) || negb (String.eqb (op_EncryptedTempDir o) "") then Err (ErrText "le opzioni del temporaneo cifrato richiedono encrypt_to")
  else Ok m.

Definition url_accepted `{Web} (text : string) : bool :=
  match url_Parse text with
  | None => false
  | Some u =>
    String.eqb (u_Scheme u) "https" && negb (String.eqb (u_Host u) "") && negb (u_User u) && String.eqb (u_RawQuery u) "" &&
    String.eqb (u_Fragment u) "" && (String.eqb (u_Path u) "" || String.eqb (u_Path u) "/")
  end.

Section client.
Context `{Platform, Age, Codec, Web}.
Context (fs_env : nat -> fs -> fs) (net_env : nat -> net -> net) (fate_of : nat -> fate) (short : nat -> option Z) (turns : nat).
(** The receiver, at the other end of the connection. *)
Context (receiver : http_request -> Io.io net response).
Abbreviation fs_act := (Io.act fs_env fate_of).

Definition ReadSecret (path : string) : Io.io fs (result failure string) :=
  fd ←? OpenRegular fs_env fate_of path;
  info ←? fs_act (fstat fd);
  if negb (is_regular info) then mret (Err (failed "il file della chiave deve essere regolare"))
  else
    _ ←? fs_act unseen;                                       (* CheckPrivate *)
    b ←? fs_act (read_at fd 0 257);
    let token := trim_space b in
    if (256 <? len b) || negb (ValidToken token) then mret (Err (failed "file della chiave non valido")) else mret (Ok token).

Definition HTTPClient (caFile : string) : Io.io fs (result failure unit) :=
  if String.eqb caFile "" then mret (Ok tt)
  else
    fd ←? fs_act (open_file caFile);
    pem ←? fs_act (read_all fd);
    if AppendCertsFromPEM pem then mret (Ok tt) else mret (Err (failed "certificato CA non valido")).

(** The file to send: open, its size and digest, and the temporary file to remove. *)
Record sending : Type := Sending { sd_File : Z; sd_Size : Z; sd_SHA256 : string; sd_Temp : option string }.

Definition prepare_plain (path : string) : Io.io fs (result failure sending) :=
  fd ←? fs_act (open_file path);
  info ←? fs_act (fstat fd);
  if negb (is_regular info) || (entry_size info <=? 0)
  then mret (Err (failed "richiesto un file regolare non vuoto; streaming non ancora disponibile"))
  else
    c ← copy fs_env fate_of hash_write fd turns 0 None 0 ""%string;
    let '(_, hashed, copyErr) := c in
    match copyErr with
    | Some e => mret (Err e)
    | None => _ ←? fs_act unseen; mret (Ok (Sending fd (entry_size info) (sha256_hex hashed) None))   (* Seek *)
    end.
(** [candidates]: the random names of a directory. *)
Definition prepare (o : options) (random : string) (candidates : string -> list string) (path : string) : Io.io fs (result failure sending) :=
  if String.eqb (op_EncryptTo o) "" then prepare_plain path
  else
    let limit := if op_EncryptedTempLimitBytes o =? 0 then DefaultMaxCiphertextBytes else op_EncryptedTempLimitBytes o in
    p ←? EncryptToTemp fs_env fate_of short turns random (candidates (op_EncryptedTempDir o)) path (op_EncryptTo o) limit;
    mret (Ok (Sending (pr_File p) (pr_Size p) (pr_SHA256 p) (Some (pr_Path p)))).

(** ** Attempts *)
Definition request_headers (token encoded digest key : string) (name : string) : list string :=
  if String.eqb name "Authorization" then [("Bearer " ++ token)%string]
  else if String.eqb name "Content-Type" then ["application/octet-stream"%string]
  else if String.eqb name MetadataHeader then [encoded]
  else if String.eqb name DigestHeader then [digest]
  else if String.eqb name IdempotencyHeader then [key]
  else if String.eqb name "Expect" then ["100-continue"%string]
  else [].
(** The transport sends no more than [ContentLength], and no proper end before it. *)
Definition http_post (f : sending) (token encoded key content : string) : http_request :=
  HttpRequest UploadPath "" "POST" (request_headers token encoded (sd_SHA256 f) key) (sd_Size f)
    [(str_take (sd_Size f) content, Some (if len content <? sd_Size f then ReadFailure else EOF))].

(** What an attempt ends with: the answer of [Send], or the error the next attempt
    replaces. *)
Inductive verdict : Type := Done (r : result failure receipt) | Retry (e : failure).

Definition receipt_coherent (f : sending) (id : string) (size : Z) (digest : string) : bool :=
  ValidID id && (size =? sd_Size f) && String.eqb digest (sd_SHA256 f).
Definition judge (f : sending) (answer : response) : verdict :=
  match answer with
  | Respond status message =>
    let e := failed message in
    if status =? 201 then Retry (failed "esito non confermato: ricevuta incoerente")
    else if (status =? 502) || (status =? 503) || ((status =? 409) && String.eqb message (sentinel_text ErrIdempotencyInProgress))
    then Retry e else Done (Err e)
  | ReceiptResponse id size digest receivedAt =>
    if negb (receipt_coherent f id size digest) then Retry (failed "esito non confermato: ricevuta incoerente")
    else
      match parse_rfc3339 receivedAt with
      | None => Retry (failed "esito non confermato: data ricevuta non valida")
      | Some _ => Done (Ok (MkReceipt id size digest receivedAt))
      end
  end.

(** [httpClient.Do] may lose the request or the answer; the answer may be cut. *)
Definition attempt (f : sending) (token encoded key : string) : Io.io world verdict :=
  seek ← on_files (fs_act unseen);
  match seek with
  | Err e => mret (Done (Err e))
  | Ok _ =>
    content ← on_files (fs_act (read_all (sd_File f)));
    result ← match content with
      | Err e => mret (Err e)
      | Ok content => on_net (rpc net_env fate_of (answer ← receiver (http_post f token encoded key content); mret (Ok answer)))
      end;
    match result with
    | Err e =>
      live ← on_files (fs_act unseen);                        (* ctx.Err() *)
      match live with Err _ => mret (Done (Err e)) | Ok _ => mret (Retry e) end
    | Ok answer =>
      received ← on_net (act net_env fate_of (fun s => (Ok tt, s)));
      match received with Err _ => mret (Retry (failed "esito non confermato: ricevuta non valida")) | Ok _ => mret (judge f answer) end
    end
  end.

(** [for attempt := 0; attempt < 3; attempt++], with a pause before all but the first. *)
Fixpoint attempts (l : list nat) (f : sending) (token encoded key : string) (lastErr : failure) : Io.io world (result failure receipt) :=
  match l with
  | [] => mret (Err lastErr)
  | k :: l' =>
    live ← (if Nat.eqb k 0 then mret (Ok tt) else on_files (fs_act unseen));
    match live with
    | Err e => mret (Err e)
    | Ok _ =>
      v ← attempt f token encoded key;
      match v with Done r => mret r | Retry e => attempts l' f token encoded key e end
    end
  end.

Definition deliver (f : sending) (token key : string) (m : metadata) : Io.io world (result failure receipt) :=
  _ ←? on_files (fs_act unseen);                              (* ctx.Err() *)
  match EncodeMetadata m with
  | Err e => mret (Err (Failed e))
  | Ok encoded => attempts [0; 1; 2]%nat f token encoded key (failed "")
  end.

(** [random] and [key]: what the encryption and [model.NewIdempotencyKey] draw. *)
Definition Send (o : options) (path : string) (m : metadata) (random key : string) (candidates : string -> list string)
    : Io.io world (result failure receipt) :=
  match content_format o m with
  | Err e => mret (Err (Failed e))
  | Ok m =>
    match Metadata_Validate m with
    | Err e => mret (Err (Failed e))
    | Ok _ =>
      if negb (url_accepted (op_URL o)) then mret (Err (failed "URL richiesta: https://host:porta, senza credenziali o percorso"))
      else
        token ←? on_files (ReadSecret (op_KeyFile o));
        _ ←? on_files (HTTPClient (op_CAFile o));
        f ←? on_files (prepare o random candidates path);
        r ← deliver f token key m;
        match sd_Temp f with
        | None => mret r
        | Some temp => _ ← on_files (Prepared_Remove fs_env fate_of temp); mret r
        end
    end
  end.
End client.
