(* ===== verification/Sending.v ===== *)
(** A deposit from the client to the archive: what the receipt that [Send] returns
    testifies, whatever is lost on the way ([src/internal/client/client.go],
    [src/internal/gateway/gateway.go], [src/internal/ingest/writer.go]). *)
From S2P Require Import Prelude GoTime GoString Model Policy Catalog Retention RetentionMachine Deposit Store Archive Io Writer.
From S2P Require Import Custody Reception Accepting Execution Api Serving System Files Cryptfile Encryption Front Client.

(** ** The writer's front *)
Section front.
Context `{Platform, Codec} (linked : bool) (rows : list backup) (env : nat -> server -> server).
Context (fate_of : nat -> fate) (clock : nat -> Z) (short : nat -> option Z) (check : Z -> result err unit) (ids : nat -> string).
Abbreviation C := (keeps linked rows).

(** The others keep the deposits, and spare the uploads with this idempotency key. *)
Class Sparing (key : string) : Prop := {
  sparing_keeps rows' :: Stable env (keeps linked rows');
  sparing_uploads b : b_IdempotencyKey b = key -> Concurrent linked b env }.

(** A reservation: the row of the receipt, or one that is being received. *)
Lemma reserve_outcome token m size digest key t newID s : C s ->
  let r := on_store (ReserveIdempotentChecked token m size digest key t (Some check) newID) s in
  C (snd r) /\ match fst r with
    | Ok b => b_IdempotencyKey b = key /\ b_Size b = size /\ b_SHA256 b = digest /\
        (b_Status b = BackupComplete /\ In b (d_backups (s_db (snd r))) \/ b_Status b = BackupReceiving /\ receiving_row b (snd r))
    | Err _ => True end.
Proof.
  intros Hs. cbv zeta. split.
  - apply (keeps_store linked rows _ (Event t None None None None)); [done| |by apply physical_none].
    intros b d' Hr. exact (Reserve_step _ _ _ _ _ _ _ _ _ _ _ _ (cu_core _ _ Hs) Hr).
  - unfold on_store, commit. destruct (ReserveIdempotentChecked _ _ _ _ _ _ _ _ _) as [[b d']|e] eqn:Hr; [|done]. cbn.
    apply Reserve_inv in Hr as (_ & _ & _ & _ & k & p & state & _ & Hst & [[-> ->]|(Hno & _ & _ & -> & _ & Hcore & _)]).
    + apply check_idempotency_receipt in Hst as (He & Hc & Hsz & Hdg & _). destruct (String.eqb key ""); [done|].
      apply idempotent_backup_some in He as (Hin & _ & Hk). repeat (split; [done|]). by left.
    + repeat (split; [done|]). right. split; [done|]. apply (f_equal c_backups) in Hcore. cbn in Hcore. unfold receiving_row. cbn. rewrite Hcore.
      destruct state as [|id|x]; [|..|by destruct (Hno x)]; cbn.
      * eexists. split; [apply in_app_iff; right; by left|]. split; [|done]. apply same_file_refl.
      * apply check_idempotency_resume in Hst as (x & He & <- & Hf & Hsz & Hdg & _). destruct (String.eqb key ""); [done|].
        apply idempotent_backup_some in He as (Hin & _ & _). eexists. split; [apply in_update_new; [exact Hin|by apply backup_is_iff]|]. by split.
Qed.

(** What an answer testifies about the size and digest of a request. *)
Definition testifies (size : Z) (digest : string) (answer : response) (s : server) : Prop :=
  match answer with
  | ReceiptResponse id size' digest' _ => size' = size /\ digest' = digest /\
      exists y, keeps linked (y :: rows) s /\ b_Status y = BackupComplete /\ b_ID y = id /\ b_Size y = size /\ b_SHA256 y = digest
  | Respond _ _ => C s
  end.
Lemma keeps_more y s : C s -> In y (d_backups (s_db s)) -> keeps linked (y :: rows) s.
Proof. intros Hs Hy. split; [exact Hs|]. intros b [<-|Hb]; [exists y; split; [done|apply descends_refl]|by apply (ke_rows linked rows s Hs)]. Qed.
Lemma testifies_keeps size digest answer s : testifies size digest answer s -> C s.
Proof.
  destruct answer; [done|]. intros (_ & _ & y & Hy & _). split; [exact Hy|]. intros b Hb. apply (ke_rows linked _ s Hy). by right.
Qed.

Section upload.
Context (key : string) `{!Sparing key}.
#[export] Instance stable_testifies size digest answer : Stable env (testifies size digest answer).
Proof.
  destruct answer; [apply sparing_keeps|]. do 2 (apply stable_and; [apply _|]). apply stable_ex. intros y.
  apply stable_and; [apply sparing_keeps|apply _].
Qed.

Lemma triple_Admit token m size digest t newID :
  triple C (Admit env fate_of token m size digest key t check newID)
    (fun r s => match r with
     | Ok u => let b := ad_Backup u in b_IdempotencyKey b = key /\ b_Size b = size /\ b_SHA256 b = digest /\
         (b_Status b = BackupComplete /\ keeps linked (b :: rows) s \/ b_Status b = BackupReceiving /\ upload linked rows b s)
     | Err _ => C s end) C.
Proof.
  assert (forall rs s f, keeps linked rs s -> keeps linked rs (s <| s_slots ::= f |>)) as Hslots by (intros rs s f; by apply keeps_same_files).
  unfold Admit. eapply (triple_bind _ _ _ _ (fun _ => C)); [by intros n s Hs|]. intros used.
  destruct (slot_capacity <=? used); [by apply triple_ret|].
  eapply (triple_bind _ _ _ _ (fun _ => C)); [intros n s Hs; by apply Hslots|]. intros _.
  eapply triple_bind.
  { apply (triple_act env fate_of C _ (fun r s => C s /\ match r with
      | Ok b => b_IdempotencyKey b = key /\ b_Size b = size /\ b_SHA256 b = digest /\
        (b_Status b = BackupComplete /\ In b (d_backups (s_db s)) \/ b_Status b = BackupReceiving /\ receiving_row b s)
      | Err _ => True end)); [done|]. intros s Hs. pose proof (reserve_outcome token m size digest key t newID s Hs) as [H1 H2].
    split; [done|]. split; [done|]. by intros f. }
  intros [b|e].
  - destruct (has_status BackupComplete b) eqn:Eb.
    + assert (b_Status b = BackupComplete) as Hb by (by apply has_status_iff).
      intros n s (Hs & Hk & Hsz & Hdg & [[_ Hin]|[Hst _]]); [|congruence]. cbn. split; [done|]. split; [done|]. split; [done|]. left. split; [done|].
      exact (Hslots _ s (fun k => k - 1) (keeps_more b s Hs Hin)).
    + apply triple_ret. intros s (Hs & Hk & Hsz & Hdg & [[Hst _]|[Hst Hrow]]).
      * apply has_status_iff in Hst. congruence.
      * cbn. repeat (split; [done|]). right. done.
  - intros n s [Hs _]. exact (Hslots _ s (fun k => k - 1) Hs).
Qed.

Lemma triple_ServeHTTP r : header_get r IdempotencyHeader = key ->
  triple C (ServeHTTP env fate_of clock short check ids r) (testifies (q_ContentLength r) (header_get r DigestHeader)) C.
Proof.
  intros Hkey. unfold ServeHTTP. destruct (inspect r) as [refused|q] eqn:Ei.
  - apply triple_ret. intros s Hs. unfold inspect in Ei. destruct refused; [done|]. repeat case_match; discriminate.
  - assert (ur_Digest q = header_get r DigestHeader /\ ur_Key q = key) as [<- Hq].
    { unfold inspect in Ei. repeat (case_match; [discriminate|]). destruct (token_of r); [|discriminate].
      repeat case_match; try discriminate. by injection Ei as <-. }
    eapply triple_bind; [by apply (triple_now clock C _ (fun _ => C))|]. intros t.
    eapply (triple_bind _ _ _ _ (fun _ => C)); [by intros n s Hs|]. intros id. rewrite Hq.
    eapply triple_bind; [apply triple_Admit|]. intros [u|e].
    2:{ apply triple_ret. intros s Hs. unfold refusal. destruct e; [done|]. by destruct (_ && _). }
    cbv zeta. destruct (has_status BackupComplete (ad_Backup u)) eqn:Eb.
    + apply has_status_iff in Eb. apply triple_ret. intros s (_ & <- & <- & [[_ Hs]|[Hst _]]); [|congruence].
      split; [done|]. split; [done|]. by exists (ad_Backup u).
    + intros n s (Hk & Hsz & Hdg & [[Hst _]|[_ Hup]]); [apply has_status_iff in Hst; congruence|].
      pose proof (sparing_uploads _ Hk) as Hconc. revert n s Hup.
      enough (triple (upload linked rows (ad_Backup u)) (answer ← Receive env fate_of clock short u (q_Body r); mret (fst answer))
        (testifies (q_ContentLength r) (ur_Digest q)) C) as Ht by apply Ht.
      eapply triple_bind; [by apply (triple_Receive linked rows)|]. intros [answer u']. apply triple_ret. cbn [fst]. intros s [Hs Hr].
      destruct answer as [|id' size' digest' at_]; [done|]. destruct Hr as (-> & -> & -> & data & _ & _ & y & Hy & [Hid Hsz' Hdg'] & Hst).
      split; [done|]. split; [done|]. exists y. split; [by apply keeps_more|]. rewrite Hid, Hsz', Hdg'. done.
Qed.
End upload.
End front.
#[export] Instance sparing_alone `{Platform} linked key : Sparing linked alone key.
Proof. split; [intros rows'; apply stable_alone|]. intros b _. apply concurrent_alone. Qed.

(** ** Parts of the state *)
Lemma triple_lift {S T A} (get : T -> S) (set : S -> T -> T) (F : T -> Prop) P (m : io S A) Q R :
  (forall s t, get (set s t) = s) -> (forall s t, F t -> F (set s t)) ->
  triple P m Q R -> triple (fun t => P (get t) /\ F t) (lift_io get set m) (fun a t => Q a (get t) /\ F t) (fun t => R (get t) /\ F t).
Proof.
  intros Hget HF Hm n t [Ht Hf]. specialize (Hm n (get t) Ht). unfold lift_io. destruct (m (n, get t)) as [[a|] [n' s']]; rewrite Hget; auto.
Qed.
Lemma triple_on_server {A} P (m : io server A) Q R :
  triple P m Q R -> triple (fun s => P (n_server s)) (on_server m) (fun a s => Q a (n_server s)) (fun s => R (n_server s)).
Proof.
  intros Hm. eapply triple_weaken; [by apply (triple_lift n_server _ (fun _ => True) P m Q R)|done|by intros a s []|by intros s []].
Qed.
Lemma triple_on_files {A} G P (m : io fs A) Q R :
  triple P m Q R -> triple (fun w => P (w_files w) /\ G (w_net w)) (on_files m) (fun a w => Q a (w_files w) /\ G (w_net w))
    (fun w => R (w_files w) /\ G (w_net w)).
Proof. intros Hm. by apply (triple_lift w_files _ (fun w => G (w_net w))). Qed.
Lemma triple_on_net {A} P (m : io net A) Q R :
  triple P m Q R -> triple (fun w => P (w_net w)) (on_net m) (fun a w => Q a (w_net w)) (fun w => R (w_net w)).
Proof.
  intros Hm. eapply triple_weaken; [by apply (triple_lift w_net _ (fun _ => True) P m Q R)|done|by intros a s []|by intros s []].
Qed.

(** ** The receiver *)
Section receiver.
Context `{Platform, Codec} (linked : bool) (rows : list backup) (env : nat -> server -> server) (others : nat -> Z -> Z).
Context (fate_of : nat -> fate) (clock : nat -> Z) (short : nat -> option Z) (check : Z -> result err unit) (ids : nat -> string).
Context (transmit : nat -> reader -> reader) (key : string) `{!Sparing linked env key}.
Abbreviation C := (fun s => keeps linked rows (n_server s)).
Abbreviation T size digest := (fun answer s => testifies linked rows size digest answer (n_server s)).
Definition writer_front : http_request -> io server response := ServeHTTP env fate_of clock short check ids.

#[export] Instance stable_net P : Stable env P -> Stable (net_env env others) (fun s => P (n_server s)).
Proof. intros HP n s Hs. by apply HP. Qed.

Lemma triple_forward r : header_get r IdempotencyHeader = key ->
  triple C (forward (net_env env others) fate_of transmit writer_front r) (T (q_ContentLength r) (header_get r DigestHeader)) C.
Proof.
  intros Hkey. unfold forward. eapply (triple_bind _ _ _ _ (fun _ => C)); [by intros n s Hs|]. intros body.
  assert (Stable env (keeps linked rows)) as HC by apply (sparing_keeps linked env (key := key)).
  set (Q := fun (answer : result failure response) s => match answer with
    | Ok a => T (q_ContentLength r) (header_get r DigestHeader) a s | Err _ => C s end).
  assert (forall a, Stable (net_env env others) (Q a)) as HQ by (intros [a|e]; [apply stable_net, (stable_testifies linked rows env key)|by apply stable_net]).
  eapply triple_bind.
  - apply (triple_rpc (net_env env others) fate_of C _ Q C C); [|done| |done].
    + eapply triple_bind; [apply triple_on_server, (triple_ServeHTTP linked rows env fate_of clock short check ids key); exact Hkey|].
      intros answer. apply triple_ret. by intros s Hs.
    + intros [a|e] s Hs; [by eapply testifies_keeps|exact Hs].
  - intros [a|e]; [|apply triple_ret; by intros s [Hs|[_ Hs]]].
    apply (triple_pre _ (Q (Ok a))); [|by intros s [Hs|[]]].
    eapply (triple_bind _ _ _ _ (fun _ => Q (Ok a))).
    + apply triple_act; [apply HQ|by intros s Hs; eapply testifies_keeps|]. intros s Hs. split; [by eapply testifies_keeps|]. done.
    + intros [[]|e]; apply triple_ret; [done|]. intros s Hs. by eapply testifies_keeps.
Qed.

Lemma triple_Gateway r : header_get r IdempotencyHeader = key ->
  triple C (Gateway_ServeHTTP (net_env env others) fate_of transmit writer_front r) (T (q_ContentLength r) (header_get r DigestHeader)) C.
Proof.
  intros Hkey. unfold Gateway_ServeHTTP. destruct (_ || _); [by apply triple_ret|]. destruct (negb _); [by apply triple_ret|].
  eapply (triple_bind _ _ _ _ (fun _ => C)); [by intros n s Hs|]. intros used.
  destruct (gateway_capacity <=? used); [by apply triple_ret|].
  eapply (triple_bind _ _ _ _ (fun _ => C)); [by intros n s Hs|]. intros _.
  set (M := T (q_ContentLength r) (header_get r DigestHeader)).
  apply (triple_bind _ _ _ _ M); [|intros answer; apply (triple_bind _ _ _ _ (fun _ => M answer)); [by intros n s Hs|intros _; by apply triple_ret]].
  destruct (_ <=? 0); [by apply triple_ret|]. destruct (duplicate_header r); [by apply triple_ret|]. by apply triple_forward.
Qed.
End receiver.

(** ** The client *)
Section client.
Context `{Platform, Age, Codec, Web} (linked : bool) (rows : list backup) (env : nat -> server -> server) (others : nat -> Z -> Z).
Context (fs_env : nat -> fs -> fs) (fate_of : nat -> fate) (clock : nat -> Z) (short : nat -> option Z) (turns : nat).
Context (check : Z -> result err unit) (ids : nat -> string) (transmit : nat -> reader -> reader) (key : string) `{!Sparing linked env key}.
Abbreviation receiver := (Gateway_ServeHTTP (net_env env others) fate_of transmit (writer_front env fate_of clock short check ids)).
Abbreviation C := (fun w => keeps linked rows (n_server (w_net w))).
Abbreviation anything := (fun _ : fs => True).

(** What [Send] returns. *)
Definition receipted (size : Z) (digest : string) (r : result failure receipt) (w : world) : Prop :=
  match r with
  | Ok rc => rc_Size rc = size /\ rc_SHA256 rc = digest /\
      exists y, keeps linked (y :: rows) (n_server (w_net w)) /\ b_Status y = BackupComplete /\ b_ID y = rc_ID rc /\ b_Size y = size /\ b_SHA256 y = digest
  | Err _ => C w
  end.

(** What the client does on its own disk. *)
Lemma triple_local {A} (m : io fs A) : triple C (on_files m) (fun _ => C) C.
Proof.
  eapply triple_weaken; [apply (triple_on_files (fun s => keeps linked rows (n_server s)) anything m (fun _ => anything) anything)|done|by intros a w []|by intros w []].
  intros n s _. by destruct (m (n, s)) as [[a|] [n' s']].
Qed.

Lemma triple_attempt f token encoded :
  triple C (attempt fs_env (net_env env others) fate_of receiver f token encoded key)
    (fun v w => match v with Done r => receipted (sd_Size f) (sd_SHA256 f) r w | Retry _ => C w end) C.
Proof.
  assert (forall P, Stable env P -> Stable (net_env env others) (fun s => P (n_server s))) as Hnet by (intros; by apply stable_net).
  assert (Stable env (keeps linked rows)) as HC by apply (sparing_keeps linked env (key := key)).
  unfold attempt. eapply triple_bind; [apply triple_local|]. intros [[]|e]; [|by apply triple_ret].
  eapply triple_bind; [apply triple_local|]. intros content.
  set (T := fun answer w => testifies linked rows (sd_Size f) (sd_SHA256 f) answer (n_server (w_net w))).
  set (Q := fun (answer : result failure response) s => match answer with
    | Ok a => testifies linked rows (sd_Size f) (sd_SHA256 f) a (n_server s) | Err _ => keeps linked rows (n_server s) end).
  assert (forall a, Stable (net_env env others) (Q a)) as HQ by (intros [a|e]; [apply Hnet, (stable_testifies linked rows env key)|by apply Hnet]).
  assert (forall a s, Q a s -> keeps linked rows (n_server s)) as HQC by (intros [a|e] s Hs; [by eapply testifies_keeps|exact Hs]).
  eapply (triple_bind _ _ _ _ (fun a w => Q a (w_net w))).
  { destruct content as [content|e]; [|by apply triple_ret].
    eapply triple_weaken; [apply triple_on_net, (triple_rpc (net_env env others) fate_of (fun s => keeps linked rows (n_server s)) _ Q
      (fun s => keeps linked rows (n_server s)) (fun s => keeps linked rows (n_server s))); [|done|apply HQC|done]|done|..|done].
    - eapply triple_bind; [by apply (triple_Gateway linked rows env others fate_of clock short check ids transmit key)|]. intros a. apply triple_ret. by intros s Hs.
    - intros [a|e] w [Hs|[Hf Hs]]; done. }
  intros [answer|e].
  - eapply (triple_bind _ _ _ _ (fun _ => T answer)).
    + eapply triple_weaken; [apply triple_on_net, (triple_act (net_env env others) fate_of (Q (Ok answer)) _ (fun _ => Q (Ok answer)) (fun s => keeps linked rows (n_server s)))|..]; try done; [apply HQC|].
      intros s Hs. split; [exact (HQC _ _ Hs)|]. done.
    + intros [[]|e]; apply triple_ret; intros w Hw; [|by eapply testifies_keeps]. unfold judge. destruct answer as [status message|id size digest at_].
      * destruct (status =? 201); [done|]. by destruct (_ || (status =? 503) || _).
      * destruct Hw as (-> & -> & y & Hy & Hrest). unfold receipt_coherent.
        assert (C w) as HCw by (apply (testifies_keeps linked rows (sd_Size f) (sd_SHA256 f) (ReceiptResponse id (sd_Size f) (sd_SHA256 f) "")); split; [done|]; split; [done|]; by exists y).
        destruct (negb _); [done|]. destruct (parse_rfc3339 at_); [|done]. split; [done|]. split; [done|]. by exists y.
  - eapply triple_bind; [apply triple_local|]. by intros [[]|e']; apply triple_ret.
Qed.

Lemma triple_attempts l : forall f token encoded lastErr,
  triple C (attempts fs_env (net_env env others) fate_of receiver l f token encoded key lastErr) (receipted (sd_Size f) (sd_SHA256 f)) C.
Proof.
  induction l as [|k l IH]; intros f token encoded lastErr; cbn [attempts]; [by apply triple_ret|].
  eapply (triple_bind _ _ _ _ (fun _ => C)); [destruct (Nat.eqb k 0); [by apply triple_ret|apply triple_local]|].
  intros [[]|e]; [|by apply triple_ret]. eapply triple_bind; [apply triple_attempt|]. intros [r|e]; [by apply triple_ret|apply IH].
Qed.

(** *** The file to send *)
Context (path : string) (si : Z) (content : string).
Abbreviation N := (named path si (Regular content)).

(** The file, or its encryption. *)
Definition bytes_sent (o : options) (random sent : string) : Prop :=
  if String.eqb (op_EncryptTo o) "" then sent = content
  else exists recipient chunks, ParseX25519Recipient (trim_space (op_EncryptTo o)) = Ok recipient /\ joined chunks = content /\
    sent = age_file random recipient chunks.
Definition sends (o : options) (random : string) (size : Z) (digest : string) : Prop :=
  exists sent, bytes_sent o random sent /\ size = len sent /\ digest = sha256_hex sent.

Section disk.
Context `{!Apart [path] fs_env}.

Lemma keeps_secret keyFile : triple N (ReadSecret fs_env fate_of keyFile) (fun _ => N) N.
Proof.
  unfold ReadSecret. apply keeps_try; [by apply keeps_open|]. intros fd. apply keeps_try; [by apply keeps_look|]. intros info.
  destruct (negb _); [by apply triple_ret|]. apply keeps_try; [by apply keeps_look|]. intros _. apply keeps_try; [by apply keeps_look|].
  intros b. by destruct (_ || _); apply triple_ret.
Qed.
Lemma keeps_http caFile : triple N (HTTPClient fs_env fate_of caFile) (fun _ => N) N.
Proof.
  unfold HTTPClient. destruct (String.eqb caFile ""); [by apply triple_ret|]. apply keeps_try; [by apply keeps_look|]. intros fd.
  apply keeps_try; [by apply keeps_look|]. intros pem. by destruct (AppendCertsFromPEM pem); apply triple_ret.
Qed.

Lemma triple_prepare_plain :
  triple N (prepare_plain fs_env fate_of turns path)
    (fun r _ => match r with Ok f => sd_Size f = len content /\ sd_SHA256 f = sha256_hex content | Err _ => True end) anything.
Proof.
  unfold prepare_plain.
  eapply triple_try; [apply (triple_look_file fs_env fate_of path si content (open_file path) (fun fd => fd = si))|intros fd; apply triple_pure; intros ->|done].
  { intros s [Hn Hi]. split; [done|]. intros fd. unfold open_file, inode_of. rewrite Hn, Hi. by intros [= <-]. }
  eapply triple_try; [apply (triple_look_file fs_env fate_of path si content (fstat si) (fun e => e = Regular content))|intros info; apply triple_pure; intros ->|done].
  { intros s [Hn Hi]. split; [done|]. intros e. unfold fstat. rewrite Hi. by intros [= <-]. }
  destruct (negb _ || _); [by apply triple_ret|].
  set (J := fun (data hashed : string) (s : fs) => hashed = data /\ N s).
  assert (forall data hashed, Stable fs_env (J data hashed)) as HJ by (intros; apply stable_and; [apply _|by apply stable_named]).
  eapply triple_bind.
  { eapply triple_pre; [apply (triple_copied fs_env fate_of hash_write si J (Some content)) with (data := ""%string); [| |done]|by intros s Hs].
    - intros c [= <-] data w s [_ [_ Hi]]. exact Hi.
    - intros data w chunk. apply triple_ret. by intros s [-> Hs] _. }
  intros [[n hashed] [e|]]; [by apply triple_ret|]. unfold gone_through. cbn [fst snd].
  apply (triple_pre _ (fun _ : fs => hashed = content)).
  2:{ intros s Hs. destruct (Hs eq_refl) as (rest & [-> _] & _ & Hrest). by rewrite (Hrest content eq_refl). }
  eapply (triple_try _ _ _ _ (fun (_ : result failure unit) (_ : fs) => hashed = content)); [|intros []; apply triple_ret; by intros s ->|done].
  eapply triple_weaken; [by apply (triple_act_inv fs_env fate_of (fun _ : fs => hashed = content))|done..].
Qed.
End disk.

Lemma triple_prepare o random candidates : Apart (path :: candidates (op_EncryptedTempDir o)) fs_env ->
  triple N (prepare fs_env fate_of short turns o random candidates path)
    (fun r _ => match r with Ok f => sends o random (sd_Size f) (sd_SHA256 f) | Err _ => True end) anything.
Proof.
  intros Hap. unfold prepare, sends, bytes_sent. destruct (String.eqb (op_EncryptTo o) "").
  - assert (Apart [path] fs_env) as Hap1 by (intros q i e n s [<-|[]] Hs; apply apart; [by left|done]).
    eapply triple_weaken; [by apply triple_prepare_plain|done| |done]. intros [f|e] s Hs; [by exists content|done].
  - eapply (triple_try _ _ _ _ _); [apply (triple_EncryptToTemp fs_env fate_of short turns path si content (candidates (op_EncryptedTempDir o)))| |by intros].
    intros p. apply triple_ret. intros s (recipient & Hp & _ & _ & chunks & Hj & _ & Hsz & Hdg & _). cbn.
    eexists. split; [by exists recipient, chunks|done].
Qed.

Lemma triple_deliver_file f token m :
  triple C (deliver fs_env (net_env env others) fate_of receiver f token key m) (receipted (sd_Size f) (sd_SHA256 f)) C.
Proof.
  unfold deliver. eapply (triple_try _ _ _ _ (fun _ => C)); [apply triple_local|intros []|done].
  destruct (EncodeMetadata m); [apply triple_attempts|by apply triple_ret].
Qed.

(** The whole of [Send]. *)
Lemma triple_Send o m random candidates : Apart (path :: candidates (op_EncryptedTempDir o)) fs_env ->
  triple (fun w => N (w_files w) /\ C w)
    (Send fs_env (net_env env others) fate_of short turns receiver o path m random key candidates)
    (fun r w => match r with
     | Ok rc => exists size digest, sends o random size digest /\ receipted size digest (Ok rc) w
     | Err _ => C w end) C.
Proof.
  intros Hap. assert (Apart [path] fs_env) as Hap1 by (intros q i e n s [<-|[]] Hs; apply apart; [by left|done]).
  set (G := fun s => keeps linked rows (n_server s)).
  assert (forall {A} (mm : io fs A), triple N mm (fun _ => N) N -> triple (fun w => N (w_files w) /\ C w) (on_files mm) (fun _ w => N (w_files w) /\ C w) C) as Hkeep.
  { intros A mm Hm. eapply triple_weaken; [apply (triple_on_files G); exact Hm|done|done|by intros w []]. }
  unfold Send. destruct (content_format o m) as [m'|]; [|by apply triple_ret; intros w []]. destruct (Metadata_Validate m'); [|by apply triple_ret; intros w []].
  destruct (negb _); [by apply triple_ret; intros w []|].
  eapply (triple_try _ _ _ _ (fun _ w => N (w_files w) /\ C w)); [apply Hkeep; by apply keeps_secret|intros token|by intros e w []].
  eapply (triple_try _ _ _ _ (fun _ w => N (w_files w) /\ C w)); [apply Hkeep; by apply keeps_http|intros []|by intros e w []].
  eapply (triple_try _ _ _ _ (fun r w => match r with Ok f => sends o random (sd_Size f) (sd_SHA256 f) | Err _ => True end /\ C w)); [|intros f; apply triple_pure; intros Hf|by intros e w []].
  { eapply triple_weaken; [apply (triple_on_files G); by apply triple_prepare|done|done|by intros w []]. }
  eapply triple_bind; [apply triple_deliver_file|]. intros r.
  assert (triple (receipted (sd_Size f) (sd_SHA256 f) r) (mret r) (fun r w => match r with
     | Ok rc => exists size digest, sends o random size digest /\ receipted size digest (Ok rc) w | Err _ => C w end) C) as Hret.
  { apply triple_ret. intros w Hw. destruct r; [|done]. by exists (sd_Size f), (sd_SHA256 f). }
  assert (forall w, receipted (sd_Size f) (sd_SHA256 f) r w -> C w) as HC.
  { intros w Hw. destruct r as [rc|e]; [|exact Hw]. destruct Hw as (_ & _ & y & Hy & _). split; [exact Hy|]. intros b Hb. apply (ke_rows linked _ _ Hy). by right. }
  destruct (sd_Temp f) as [temp|]; [|exact Hret].
  eapply (triple_bind _ _ _ _ (fun _ => receipted (sd_Size f) (sd_SHA256 f) r)); [|intros ?; exact Hret].
  set (G' := fun s => receipted (sd_Size f) (sd_SHA256 f) r (World (Fs ∅ ∅) s)).
  eapply triple_weaken; [apply (triple_on_files G' anything _ (fun _ => anything) anything)|..].
  - intros n s _. by destruct (Prepared_Remove _ _ _ _) as [[] []].
  - intros w Hw. split; [done|]. by destruct r.
  - intros [] w [_ Hw]. by destruct r.
  - intros w [_ Hw]. apply HC. by destruct r.
Qed.
End client.
