(* ===== verification/Closing.v ===== *)
(** What a maintenance cycle leaves open when it returns: nothing.  The check that it
    started is completed or failed, the lease is released, the lock is free
    ([RunOnce], [src/internal/maintenance/service.go]). *)
From S2P Require Import Prelude GoTime GoFloat GoString Model Policy Schedule Forecast Catalog Anomalies Automation Retention RetentionMachine Deposit Checks Mail.
From S2P Require Import Store Archive Io Writer Executor Watch Api Files Private Snapshot Report Monitor Cycle.

(** ** What the work of a cycle leaves alone in the catalogue *)
Definition closing (d : db) : lease * list check * nat := (d_lease d, d_checks d, length (d_backups d)).
Definition calm {A} (m : tx A) : Prop := keeps closing m.

Create HintDb calm.
Section calm.
Lemma calm_bind {A B} (m : tx A) (f : A -> tx B) : calm m -> (forall a, calm (f a)) -> calm (m ≫= f).
Proof. intros Hm Hf d b d' (a & d1 & E1 & E2)%bind_ok. rewrite (Hf a _ _ _ E2). by apply (Hm _ _ _ E1). Qed.
Lemma calm_ret {A} (a : A) : calm (mret a).
Proof. by intros d b d' [= _ <-]. Qed.
Lemma calm_fail {A} e : calm (tx_fail (A:=A) e).
Proof. by intros d b d' H. Qed.
Lemma calm_get : calm (tx_get (S:=db) (E:=err)).
Proof. by intros d b d' [= _ <-]. Qed.
Lemma calm_gets {A} (f : db -> A) : calm (tx_gets f).
Proof. by intros d b d' [= _ <-]. Qed.
Lemma calm_guard c e : calm (tx_guard c e).
Proof. intros d b d' [_ ->]%guard_ok. done. Qed.
Lemma calm_query {A} (o : option A) : calm (query_row o).
Proof. by intros d b d' [_ ->]%query_ok. Qed.
Lemma calm_lift {A} (r : result err A) : calm (tx_lift r).
Proof. intros d b d' H. unfold tx_lift in H. destruct r; [by injection H as _ <-|done]. Qed.
Lemma calm_automation f : calm (update_automation f).
Proof. by intros d b d' [= _ <-]. Qed.
Lemma calm_anomalies p f : calm (update_anomalies p f).
Proof. by intros d b d' [= _ <-]. Qed.
Lemma calm_mail p f : calm (update_mail p f).
Proof. by intros d b d' [= _ <-]. Qed.
Lemma calm_operations p f : calm (update_operations p f).
Proof. by intros d b d' [= _ <-]. Qed.
Lemma calm_backups p f : calm (update_backups p f).
Proof. intros d b d' [= _ <-]. unfold closing. cbn. unfold update_where. by rewrite length_map. Qed.
Lemma calm_insert_anomaly a : calm (insert_anomaly a).
Proof. intros d b d' H. unfold insert_anomaly in H. destruct (_ && _); [done|by injection H as _ <-]. Qed.
Lemma calm_insert_mail s k u b n : calm (insert_mail s k u b n).
Proof. intros d x d' H. unfold insert_mail in H. destruct (mail_queued s d); [done|by injection H as _ <-]. Qed.
Lemma calm_insert_mail_or_ignore s k u b n : calm (insert_mail_or_ignore s k u b n).
Proof. intros d x d' [= _ <-]. by destruct (mail_queued s d). Qed.
Lemma calm_select_backup id : calm (select_backup id).
Proof. by intros d b d' [_ ->]%select_backup_ok. Qed.
Lemma calm_select_operation id : calm (select_operation id).
Proof. by intros d b d' [_ ->]%select_operation_ok. Qed.
Lemma calm_select_backup_key id : calm (select_backup_key id).
Proof.
  intros d b d' H. unfold select_backup_key in H. destruct (find_backup d id) as [x|]; [|done].
  destruct (find_key d (b_KeyID x)); [by injection H as _ <-|done].
Qed.
End calm.
#[export] Hint Resolve calm_ret calm_fail calm_get calm_gets calm_guard calm_query calm_lift calm_automation calm_anomalies calm_mail
  calm_operations calm_backups calm_insert_anomaly calm_insert_mail calm_insert_mail_or_ignore calm_select_backup
  calm_select_operation calm_select_backup_key : calm.
Ltac calm :=
  repeat first
    [ solve [auto with calm]
    | apply calm_bind; [|let a := fresh "a" in intros a; cbn beta iota]
    | match goal with
      | |- calm (if ?c then _ else _) => destruct c
      | |- calm (match ?x with _ => _ end) => destruct x
      end ].

Section calls.
Context `{Platform}.
Lemma calm_insert_operation b k o a r v t : calm (insert_operation b k o a r v t).
Proof. intros d x d' Hr. unfold insert_operation in Hr. repeat (destruct (_ : bool) in Hr; [done|]). by injection Hr as _ <-. Qed.
Lemma calm_openAnomalyAt s k i b t e n : calm (openAnomalyAt s k i b t e n).
Proof. unfold openAnomalyAt, blockForAnomaly, recordExcludedAnomaly. calm. Qed.
Lemma calm_ResolveAnomaly s n : calm (ResolveAnomaly s n).
Proof. unfold ResolveAnomaly. calm. Qed.
Lemma calm_resolveMaintenance i n f : calm (resolveMaintenanceOperation i n f).
Proof. unfold resolveMaintenanceOperation. calm. Qed.
Lemma calm_TryClear i n : calm (TryClearResolvedMaintenanceBlock i n).
Proof. unfold TryClearResolvedMaintenanceBlock. calm. Qed.
Lemma calm_QueueReport s u b n : calm (QueueReport s u b n).
Proof. unfold QueueReport. calm. Qed.
Lemma calm_QueuePeriodicReport s u b n : calm (QueuePeriodicReport s u b n).
Proof. unfold QueuePeriodicReport. calm. Qed.
Lemma calm_ConfirmMail i e c n : calm (ConfirmMail i e c n).
Proof. unfold ConfirmMail. calm. Qed.
Lemma calm_SaveModel k r z t v a b n : calm (SaveModel k r z t v a b n).
Proof. unfold SaveModel. calm. intros d x d' [= _ <-]. by destruct (exists_where _ _). Qed.
Lemma calm_minimum b n : calm (checkRetentionMinimum b n).
Proof. unfold checkRetentionMinimum. calm. Qed.
Lemma calm_RequestQuarantine b o a r n : calm (RequestQuarantine b o a r n).
Proof. unfold RequestQuarantine, blocked_guard. pose proof calm_minimum. pose proof calm_insert_operation. calm. Qed.
Lemma calm_RequestPurge b o a r n : calm (RequestPurge b o a r n).
Proof. unfold RequestPurge, blocked_guard. pose proof calm_minimum. pose proof calm_insert_operation. calm. Qed.
Lemma calm_destructive o n m : calm (destructive_checks o n m).
Proof. unfold destructive_checks. pose proof calm_minimum. calm. Qed.
Lemma calm_Authorize i l k n : calm (AuthorizeOperation i l k n).
Proof. unfold AuthorizeOperation, validateMaintenanceLeaseTx, receiving_guard, changed. pose proof calm_destructive. calm. Qed.
Lemma calm_Validate i k l n : calm (ValidateOperation i k l n).
Proof. unfold ValidateOperation, validateMaintenanceLeaseTx, receiving_guard, changed. pose proof calm_destructive. calm. Qed.
Lemma calm_complete u k b n : calm (complete_transition u k b n).
Proof. unfold complete_transition. calm. Qed.
Lemma calm_Confirm i k p e l n : calm (ConfirmOperation i k p e l n).
Proof.
  unfold ConfirmOperation, validateMaintenanceLeaseTx, refresh_hold, openAnomaly.
  pose proof calm_complete. pose proof calm_openAnomalyAt. pose proof calm_resolveMaintenance. calm.
Qed.
Lemma calm_Reconcile i n : calm (ReconcileAuthorized i n).
Proof. unfold ReconcileAuthorized. pose proof calm_complete. pose proof calm_resolveMaintenance. calm. Qed.
Lemma calm_Reset i n : calm (ResetAuthorized i n).
Proof. unfold ResetAuthorized, changed. pose proof calm_resolveMaintenance. pose proof calm_openAnomalyAt. calm. Qed.
End calls.

(** ** Runs in which nothing fails *)
(** What stays true of the catalogue: a fact about the lease, whose check may still be
    running, the number of deposits. *)
Record open_work (L : lease -> Prop) (allowed : Z -> Prop) (size : nat) (d : db) : Prop := OpenWork {
  ow_lease : L (d_lease d);
  ow_checks : forall c, In c (d_checks d) -> c_Status c = CheckRunning -> allowed (c_ID c);
  ow_size : length (d_backups d) = size }.
Lemma calm_open {A} L allowed size (m : tx A) d a d' : calm m -> open_work L allowed size d -> m d = Ok (a, d') -> open_work L allowed size d'.
Proof. intros Hm [H1 H2 H3] E. pose proof (Hm _ _ _ E) as Ec. unfold closing in Ec. injection Ec as E1 E2 E3. split; [by rewrite E1|by rewrite E2|by rewrite E3]. Qed.

(** Files are moved, not the catalogue. *)
Lemma db_set d f s : s_db (set_entries d f s) = s_db s.
Proof. by destruct d. Qed.
Lemma db_rename a b x s : s_db (snd (rename_entry a b x s)) = s_db s.
Proof. unfold rename_entry. destruct (entries a s !! final_name x), (entries b s !! final_name x); cbn; by rewrite ?db_set. Qed.
Lemma db_link a b x s : s_db (snd (link_entry a b x s)) = s_db s.
Proof. unfold link_entry. destruct (entries a s !! final_name x) as [[]|], (entries b s !! final_name x); cbn; by rewrite ?db_set. Qed.
Lemma db_remove d x s : s_db (snd (remove_entry d x s)) = s_db s.
Proof. unfold remove_entry. destruct (entries d s !! final_name x) as [[|[]|]|]; cbn; by rewrite ?db_set. Qed.
#[export] Hint Resolve db_rename db_link db_remove : calm.

Section runs.
Context `{Platform, Trigonometry} (linked : bool) (error_text : failure -> string) (decode : string -> string -> result err fields).
Context (clock : nat -> Z) (tokens : nat -> string).
Context (L : lease -> Prop) (allowed : Z -> Prop) (size : nat).
Abbreviation J := (open_work L allowed size).
Abbreviation W := (fun s : server => J (s_db s)).
Abbreviation up m := (runs W m (fun _ => W)).
Abbreviation act := (Io.act alone faultless).

Definition steady {A} (m : tx A) : Prop := forall d a d', J d -> m d = Ok (a, d') -> J d'.
Lemma steady_calm {A} (m : tx A) : calm m -> steady m.
Proof. intros Hm d a d' HJ. by apply calm_open. Qed.
Lemma up_ret {A} (a : A) : up (mret a).
Proof. by apply runs_ret. Qed.
Lemma up_bind {A B} (m : Io.io server A) (f : A -> Io.io server B) : up m -> (forall a, up (f a)) -> up (m ≫= f).
Proof. intros Hm Hf. by eapply runs_bind. Qed.
Lemma up_now : up (Io.now clock).
Proof. intros n s Hs. by eexists _, _, _. Qed.
Lemma up_token : up (new_token tokens).
Proof. intros n s Hs. by eexists _, _, _. Qed.
Lemma up_files {A} (effect : server -> result failure A * server) : (forall s, s_db (snd (effect s)) = s_db s) -> up (act effect).
Proof. intros He. apply runs_act. intros s Hs. by rewrite He. Qed.
Lemma up_query {A} (q : db -> result err A) : up (Executor.query alone faultless q).
Proof. by apply up_files. Qed.
Lemma up_store {A} (m : tx A) : steady m -> up (act (on_store m)).
Proof.
  intros Hm. apply runs_act. intros s Hs. unfold on_store, commit. destruct (m (s_db s)) as [[a d']|e] eqn:E; [|done]. by apply (Hm _ _ _ Hs E).
Qed.
Lemma up_rpc {A} (m : Io.io server (result failure A)) : up m -> up (Io.rpc alone faultless m).
Proof.
  intros Hm n s Hs. destruct (Hm (n + 1)%nat s Hs) as (a & n' & s' & E & Hs'). exists a, (n' + 1)%nat, s'. split; [|done].
  unfold Io.rpc, Io.act, alone, faultless. by rewrite E.
Qed.
Lemma up_each {A} (f : A -> Io.io server (result failure unit)) l : (forall x, up (f x)) -> up (each f l).
Proof. intros Hf. induction l as [|x l IH]; cbn [each]; [apply up_ret|]. apply up_bind; [apply Hf|]. intros [[]|e]; [exact IH|apply up_ret]. Qed.
Lemma up_call {A} (m : Z -> tx A) : (forall t, steady (m t)) -> up (Monitor.call alone faultless clock m).
Proof. intros Hm. apply up_rpc, up_bind; [apply up_now|]. intros t. by apply up_store. Qed.

(** Step by step; [known] proves the calls and parts it knows. *)
Ltac up_step known := lazymatch goal with
  | |- runs _ (mret _) _ => apply up_ret
  | |- runs _ (Io.now _) _ => apply up_now
  | |- runs _ (new_token _) _ => apply up_token
  | |- runs _ (Executor.query _ _ _) _ => apply up_query
  | |- runs _ (Io.act _ _ (on_store _)) _ => apply up_store; first [solve [known]|apply steady_calm; solve [known]]
  | |- runs _ (Io.act _ _ _) _ => apply up_files; intros ?; first [reflexivity|solve [auto with calm]]
  | |- runs _ (Io.rpc _ _ _) _ => apply up_rpc
  | |- runs _ (Monitor.call _ _ _ _) _ => apply up_call; intros ?; first [solve [known]|apply steady_calm; solve [known]]
  | |- runs _ (each _ _) _ => apply up_each; intros ?
  | |- runs _ (_ ≫= _) _ => apply up_bind; [|intros ?]
  | |- runs _ (io_try _ _) _ => apply up_bind; [|intros [?|?]; [|apply up_ret]]
  | |- runs _ (if ?c then _ else _) _ => destruct c
  | |- runs _ (match ?r with _ => _ end) _ => destruct r
  | |- _ => known
  end.
Ltac up known := repeat up_step known.

Lemma calm_openAnomaly s k i b t n : calm (openAnomaly s k i b t n).
Proof. unfold openAnomaly. pose proof calm_openAnomalyAt. calm. Qed.
Lemma calm_lease_check l t : calm (ValidateMaintenanceLease l t).
Proof. unfold ValidateMaintenanceLease. calm. Qed.
Lemma up_authorize id l : up (handle_authorize alone faultless clock tokens id l).
Proof. unfold handle_authorize. up ltac:(apply calm_Authorize). Qed.
Lemma up_validate id k l : up (handle_validate alone faultless clock id k l).
Proof. unfold handle_validate. up ltac:(apply calm_Validate). Qed.
Lemma up_lstat d b : up (Executor.lstat alone faultless d b).
Proof. unfold Executor.lstat. up fail. Qed.
Lemma up_valid d b : up (Executor.valid_file alone faultless d b).
Proof. unfold Executor.valid_file. up ltac:(apply up_lstat). Qed.
Lemma up_missing d b : up (Executor.missing alone faultless d b).
Proof. unfold Executor.missing. up ltac:(apply up_lstat). Qed.
Lemma up_confirm id k p e l : up (handle_confirm alone faultless clock id k p e l).
Proof.
  unfold handle_confirm, verifyCompletedOperation, Executor.ctx_err. up ltac:(first [apply up_valid|apply up_missing|apply calm_Confirm]).
Qed.
Lemma up_reconcile id l : up (handle_reconcile alone faultless clock id l).
Proof.
  unfold handle_reconcile, reconcileContext, reconcile_outcome, Executor.ctx_err.
  up ltac:(first [apply up_valid|apply up_missing|apply calm_lease_check|apply calm_Reconcile|apply calm_Reset|apply calm_openAnomaly]).
Qed.

(** *** The work on the operations, under a lease *)
Section lease.
Context (l : lease) (Hgen : l_Generation l <> 0) (HL : forall x e, L x -> L (Lease (l_Owner x) (l_Generation x) e)).
Lemma steady_renewal t d : steady (AcquireMaintenanceLease (l_Owner l) (l_Generation l) t d).
Proof.
  intros d0 a d' [H1 H2 H3] E. unfold AcquireMaintenanceLease in E. apply Z.eqb_neq in Hgen. rewrite Hgen in E.
  apply bind_ok in E as (u_ & d1 & [_ ->]%guard_ok & E). apply bind_ok in E as (u2 & d2 & [_ ->]%guard_ok & E).
  apply bind_ok in E as (lx & d3 & [-> ->]%gets_ok & E). apply bind_ok in E as (u4 & d4 & [_ ->]%guard_ok & E).
  apply bind_ok in E as (u5 & d5 & [= _ <-] & E). apply gets_ok in E as [_ ->]. by split; [apply HL|..].
Qed.
Lemma up_renew : up (renew alone faultless clock l).
Proof. unfold renew, handle_lease. up ltac:(apply steady_renewal). Qed.
Lemma up_checkpoint op ticket : up (checkpoint error_text alone faultless clock l op ticket).
Proof. unfold checkpoint. up ltac:(first [apply up_renew|apply up_validate]). Qed.
Lemma up_execute op ticket b : up (executeLeased linked error_text alone faultless clock l op ticket b).
Proof.
  unfold executeLeased, move_file, unlink_file, unlinkVerifiedBefore, Executor.verifyExclusiveSource, verifyExclusiveSourceIdentity, verify_destination,
    renameNoReplace, Executor.ctx_err.
  up ltac:(first [apply up_valid|apply up_lstat|apply up_checkpoint]).
Qed.
Lemma up_process backups op : up (process_operation linked error_text alone faultless clock tokens l backups op).
Proof. unfold process_operation. up ltac:(first [apply up_renew|apply up_authorize|apply up_execute|apply up_confirm]). Qed.
Lemma up_processOperations backups operations : up (processOperations linked error_text alone faultless clock tokens l backups operations).
Proof. apply up_each. intros op. apply up_process. Qed.
Lemma up_reconcile_all operations : up (Executor.reconcile alone faultless clock l operations).
Proof. unfold Executor.reconcile, reconcile_operation. up ltac:(apply up_reconcile). Qed.
End lease.

(** *** The rest of the work *)
Lemma up_fileFindings backups acknowledged : up (fileFindings error_text alone faultless backups acknowledged).
Proof.
  assert (up (rows_findings alone faultless acknowledged backups)) as Hr.
  { induction backups as [|b backups IH]; cbn [rows_findings]; unfold row_findings, Executor.ctx_err; up ltac:(first [apply up_valid|apply up_lstat|exact IH]). }
  unfold fileFindings, directory_findings. up ltac:(exact Hr).
Qed.
Lemma up_verifyUnexpected found backups : up (verifyUnexpectedFiles alone faultless found backups).
Proof.
  induction found as [|f found IH]; cbn [verifyUnexpectedFiles]; unfold Executor.ctx_err; up ltac:(first [apply up_valid|exact IH]).
Qed.
Lemma up_recordFindings found anomalies : up (recordFindings alone faultless clock found anomalies).
Proof. unfold recordFindings. up ltac:(apply calm_ResolveAnomaly). Qed.
Lemma up_schedulePurges owner status revoked acknowledged backups t :
  up (schedulePurges error_text alone faultless clock owner status revoked acknowledged backups t).
Proof. unfold schedulePurges. up ltac:(apply calm_RequestPurge). Qed.
Lemma up_scheduleAutomatic owner status fs revoked acknowledged backups expected48h t day :
  up (scheduleAutomatic alone faultless clock owner status fs revoked acknowledged backups expected48h t day).
Proof. unfold scheduleAutomatic. up ltac:(first [apply calm_RequestQuarantine|apply calm_QueueReport]). Qed.
Lemma up_clear_blocks operations : up (each (fun op => r ← Monitor.call alone faultless clock (TryClearResolvedMaintenanceBlock (o_ID op));
  mret (match r with Ok _ => Ok tt | Err e => Err e end)) operations).
Proof. up ltac:(apply calm_TryClear). Qed.

Lemma steady_bind {A B} (m : tx A) (f : A -> tx B) : steady m -> (forall a, steady (f a)) -> steady (m ≫= f).
Proof. intros Hm Hf d b d' HJ (a & d1 & E1 & E2)%bind_ok. exact (Hf a d1 b d' (Hm d a d1 HJ E1) E2). Qed.
Lemma steady_checks p f : (forall c, c_ID (f c) = c_ID c /\ c_Status (f c) = c_Status c) -> steady (update_checks p f).
Proof.
  intros Hf d a d' [H1 H2 H3] [= _ <-]. split; [done| |done]. cbn. intros c Hc Hr. unfold update_where in Hc.
  apply in_map_iff in Hc as (x & <- & Hx). destruct (Hf x) as [E1 E2]. destruct (p x); [rewrite E1; rewrite E2 in Hr|]; by apply H2.
Qed.
Lemma calm_insert_scope cm : calm (insert_scope cm).
Proof. intros d x d' Hr. unfold insert_scope in Hr. destruct (_ || _); [done|by injection Hr as _ <-]. Qed.
Lemma calm_iter {A} (f : A -> tx unit) l : (forall x, calm (f x)) -> calm (tx_iter f l).
Proof. intros Hf. induction l as [|x l IH]; cbn [tx_iter]; [apply calm_ret|]. apply calm_bind; [apply Hf|by intros _]. Qed.
Lemma calm_plan_keys id v e d keys : calm (plan_keys id v e d keys).
Proof.
  induction keys as [|k keys IH]; cbn [plan_keys]; [apply calm_ret|]. apply calm_bind; [apply calm_lift|]. intros scopes.
  apply calm_bind; [apply calm_iter, calm_insert_scope|]. intros _. apply calm_bind; [exact IH|]. intros more. apply calm_ret.
Qed.
Lemma steady_planned id t : steady (planned_models id t).
Proof.
  unfold planned_models, PlanMonitoringCheck. apply steady_bind.
  - apply steady_bind; [apply steady_calm, calm_get|]. intros d. apply steady_bind; [apply steady_calm, calm_query|]. intros c.
    cbv zeta. apply steady_bind; [apply steady_calm, calm_plan_keys|]. intros scopes.
    apply steady_bind; [by apply steady_checks; intros []|]. intros n. apply steady_calm, calm_ret.
  - intros planned. apply steady_calm. calm.
Qed.
Lemma up_monitor marshal_model v id t : up (monitor marshal_model alone faultless clock v id t).
Proof.
  unfold monitor. destruct (String.eqb _ _); [apply up_ret|]. apply up_bind.
  - generalize (saved_models v). induction (sn_Keys v) as [|k keys IH]; intros models; cbn [learn_missing]; up ltac:(first [apply calm_SaveModel|apply IH]).
  - intros [models|e]; [|apply up_ret]. up ltac:(apply steady_planned).
Qed.

(** *** The snapshot *)
Lemma page_advances after through s page : page = page_of after through (s_db s) -> bp_Next page <> ""%string ->
  (length (List.filter (fun b => String.ltb (bp_Next page) (b_ID b)) (d_backups (s_db s))) <
   length (List.filter (fun b => String.ltb after (b_ID b)) (d_backups (s_db s))))%nat.
Proof.
  intros -> Hne. unfold page_of in *. set (less := fun a b : backup => String.ltb (b_ID a) (b_ID b)) in *.
  set (l := sort_by less _) in *. destruct (Nat.ltb_spec BackupPageSize (length (take (S BackupPageSize) l))) as [Hlong|]; [|done].
  cbn [bp_Next] in *. set (m := take BackupPageSize (take (S BackupPageSize) l)) in *.
  assert (In (List.last (map b_ID m) "") (map b_ID m)) as (x & Ex & Hx)%in_map_iff.
  { destruct (map b_ID m) as [|y m'] eqn:Em; [done|]. rewrite <- Em. destruct (@exists_last _ (map b_ID m)) as (l1 & z & ->); [by rewrite Em|].
    rewrite List.last_last. apply in_app_iff. right. by left. }
  assert (In x (d_backups (s_db s)) /\ String.ltb after (b_ID x) = true) as [Hin Hafter].
  { assert (forall n (k : list backup), In x (take n k) -> In x k) as Htake by (intros n k Hk; rewrite <- (take_drop n k); apply in_app_iff; by left).
    unfold m in Hx. apply Htake, Htake in Hx. unfold l in Hx. apply in_sort_by, filter_In in Hx as [Hx ?]. by apply Htake in Hx. }
  rewrite <- Ex. clear -Hin Hafter.
  assert (forall rows, (length (List.filter (fun b => String.ltb (b_ID x) (b_ID b)) rows) <= length (List.filter (fun b => String.ltb after (b_ID b)) rows))%nat) as Hle.
  { induction rows as [|b rows IH]; cbn; [done|]. destruct (String.ltb (b_ID x) (b_ID b)) eqn:E.
    - assert (String.ltb after (b_ID b) = true) as -> by exact (before_trans _ _ _ Hafter E). cbn. lia.
    - destruct (String.ltb after (b_ID b)); cbn; lia. }
  induction (d_backups (s_db s)) as [|b rows IH]; [done|]. cbn [List.filter]. destruct Hin as [->|Hin].
  - rewrite Hafter. assert (String.ltb (b_ID x) (b_ID x) = false) as -> by (apply not_true_iff_false, before_irrefl). cbn. specialize (Hle rows). lia.
  - specialize (IH Hin). destruct (String.ltb (b_ID x) (b_ID b)) eqn:E.
    + assert (String.ltb after (b_ID b) = true) as -> by exact (before_trans _ _ _ Hafter E). cbn. lia.
    + destruct (String.ltb after (b_ID b)); cbn; lia.
Qed.
Lemma next_page_returns after through n s : after <> ""%string -> exists r n',
  next_page error_text decode alone faultless clock tokens after through (n, s) = (Some r, (n', s)) /\
  forall page, r = Ok page -> exists t, page = page_of after t (s_db s).
Proof.
  intros Hne. unfold next_page, do. rewrite handler_next by done. unfold maintenance_page.
  assert (forall m : Io.io server reply, (exists r n', m ((n + 1)%nat, s) = (Some r, (n', s)) /\
      forall page, accepted error_text r = Ok (PPage page) -> exists t, page = page_of after t (s_db s)) ->
    exists r n', (p ←? rpc alone faultless (r ← m; mret (accepted error_text r));
      mret (match p with PPage page => Ok page | _ => Err undecodable end)) (n, s) = (Some r, (n', s)) /\
      forall page, r = Ok page -> exists t, page = page_of after t (s_db s)) as Hm.
  { intros m (r & n' & E & Hr). cbv beta iota zeta delta [mbind io_bind io_ret io_try mret rpc Io.act alone faultless]. rewrite E.
    destruct (accepted error_text r) as [p|e]; [|by eexists _, _]. destruct p; eexists _, _; (split; [reflexivity|]); try done.
    intros page1 [= <-]. by apply Hr. }
  destruct (parse_int64 _) as [t|]; [|apply Hm; by eexists _, _]. destruct (_ || _); [apply Hm; by eexists _, _|]. apply Hm.
  unfold answer, mbind, io_bind, Executor.query, Io.act, alone, faultless. unfold GetBackupPage. destruct (_ || _); [by eexists _, _|].
  eexists _, _. split; [reflexivity|]. intros page [= <-]. by eexists.
Qed.
Lemma read_pages_return s fuel : forall v n, sn_NextBackupID v = ""%string \/
    (length (List.filter (fun b => String.ltb (sn_NextBackupID v) (b_ID b)) (d_backups (s_db s))) < fuel)%nat ->
  exists r n', read_pages error_text decode alone faultless clock tokens fuel v (n, s) = (Some r, (n', s)).
Proof.
  induction fuel as [|fuel IH]; intros v n Hv; cbn [read_pages]; (destruct (String.eqb (sn_NextBackupID v) "") eqn:En; [by eexists _, _|]);
    apply String.eqb_neq in En; (destruct Hv as [?|Hlt]; [done|]); [lia|]. destruct (_ || _); [by eexists _, _|].
  destruct (next_page_returns (sn_NextBackupID v) (sn_BackupsThrough v) n s En) as (r & n1 & E & Hr).
  unfold io_try, mbind, io_bind. rewrite E. destruct r as [page|e]; [|by eexists _, _]. destruct (page_invalid _ _ _); [by eexists _, _|].
  apply IH. cbn [sn_NextBackupID with_backups]. destruct (Hr page eq_refl) as (t & Et).
  destruct (decide (bp_Next page = ""%string)) as [|Hne]; [by left|right]. pose proof (page_advances _ _ _ _ Et Hne). lia.
Qed.
Lemma up_snapshot turns : (size <= turns)%nat -> up (readSnapshot error_text decode alone faultless clock tokens turns).
Proof.
  intros Hsize n s Hs. destruct (first_page_alone error_text decode clock tokens s n) as (r & r' & n1 & E & _ & Hr).
  unfold readSnapshot, io_try at 1, mbind, io_bind. rewrite E. destruct r as [v|e]; [|by eexists _, _, _].
  destruct r' as [u|e]; [|done]. destruct Hr as [-> _].
  destruct (read_pages_return s turns (with_page u (page_of "" (through_of (s_db s)) (s_db s))) n1) as (r & n2 & E2).
  { cbn [sn_NextBackupID with_page]. destruct (decide (bp_Next (page_of "" (through_of (s_db s)) (s_db s)) = ""%string)) as [|Hne]; [by left|right].
    pose proof (page_advances "" _ s _ eq_refl Hne). pose proof (filter_length_le (fun b => String.ltb "" (b_ID b)) (d_backups (s_db s))).
    rewrite (ow_size _ _ _ _ Hs) in *. lia. }
  unfold io_try, mbind, io_bind. rewrite E2. by destruct r as [v|e]; eexists _, _, _.
Qed.
End runs.

(** ** The check *)
Section check.
Context `{Platform} (L : lease -> Prop) (size : nat).
Abbreviation J allowed := (open_work L allowed size).
Definition nothing (i : Z) : Prop := False.

Lemma ends_check id f d n d' : (forall c, c_Status (f c) <> CheckRunning) -> J (eq id) d ->
  update_checks (check_running id) f d = Ok (n, d') -> J nothing d'.
Proof.
  intros Hf [H1 H2 H3] [= _ <-]. split; [done| |done]. cbn. intros c Hc Hr. unfold update_where in Hc.
  apply in_map_iff in Hc as (x & <- & Hx). destruct (check_running id x) eqn:E; [by apply Hf in Hr|].
  specialize (H2 x Hx Hr). unfold check_running in E. rewrite <- H2, Z.eqb_refl, bool_decide_true in E by done. done.
Qed.
Lemma weaken_nothing allowed d : J nothing d -> J allowed d.
Proof. intros [H1 H2 H3]. split; [done| |done]. intros c Hc Hr. by destruct (H2 c Hc Hr). Qed.
Lemma calm_record_findings found t : calm (record_findings found t).
Proof. unfold record_findings. apply calm_iter. intros f. pose proof calm_openAnomalyAt. calm. Qed.
Lemma calm_activate : calm activateRetentionAfterCheck.
Proof. unfold activateRetentionAfterCheck. calm. Qed.
Lemma cleanup_keeps allowed cutoff d a d' : J allowed d -> cleanupMonitoringChecks cutoff d = Ok (a, d') -> J allowed d'.
Proof.
  intros [H1 H2 H3] [= _ <-]. split; [done| |done]. cbn. intros c Hc. unfold delete_where in Hc. apply filter_In in Hc as [Hc _]. by apply H2.
Qed.
Lemma complete_ends id outcome summary state revision found t d a d' : J (eq id) d ->
  CompleteMonitoringCheck id outcome summary state revision found t d = Ok (a, d') -> J nothing d'.
Proof.
  intros Hd. unfold CompleteMonitoringCheck. intros E.
  apply bind_ok in E as (u1 & d1 & [Ho ->]%guard_ok & E). apply bind_ok in E as (u2 & d2 & [_ ->]%guard_ok & E).
  apply bind_ok in E as (u3 & d3 & [_ ->]%guard_ok & E). apply bind_ok in E as (u4 & d4 & [_ ->]%guard_ok & E).
  apply bind_ok in E as (n1 & d5 & [_ ->]%gets_ok & E). apply bind_ok in E as (u6 & d6 & [_ ->]%guard_ok & E).
  apply bind_ok in E as (r1 & d7 & [_ ->]%gets_ok & E). apply bind_ok in E as (u8 & d8 & [_ ->]%guard_ok & E).
  apply bind_ok in E as (u9 & d9 & Ef & E). apply (calm_open L (eq id) size _ _ _ _ (calm_record_findings found t) Hd) in Ef as Hd9.
  apply bind_ok in E as (n2 & d10 & [_ ->]%gets_ok & E). apply bind_ok in E as (u11 & d11 & Ea & E).
  apply (calm_open L (eq id) size _ _ _ _ (calm_automation _) Hd9) in Ea as Hd11.
  apply bind_ok in E as (n3 & d12 & Ec & E). apply (ends_check id) in Ec as Hd12; [|intros c; cbn; intros Er; rewrite Er in Ho; discriminate Ho|done].
  apply bind_ok in E as (u13 & d13 & [_ ->]%guard_ok & E). apply bind_ok in E as (u14 & d14 & Eac & E).
  apply (calm_open L nothing size _ _ _ _ calm_activate Hd12) in Eac as Hd14. exact (cleanup_keeps nothing _ _ _ _ Hd14 E).
Qed.
Lemma fail_ends id summary t d a d' : J (eq id) d -> FailMonitoringCheck id summary t d = Ok (a, d') -> J nothing d'.
Proof.
  intros Hd. unfold FailMonitoringCheck. intros (n & d1 & E1 & [_ ->]%ret_ok)%bind_ok. by apply (ends_check id) in E1; [|intros c|].
Qed.
Lemma start_begins t d c d' : J (fun _ => True) d -> StartMonitoringCheck t d = Ok (c, d') -> J (eq (c_ID c)) d'.
Proof.
  intros [H1 H2 H3]. unfold StartMonitoringCheck, fail_running_checks. intros (u & d1 & E1 & E)%bind_ok.
  apply bind_ok in E1 as (n & d2 & [= _ <-] & [_ ->]%ret_ok). apply bind_ok in E as (i & d3 & [= <- <-] & [-> ->]%ret_ok).
  split; [done| |done]. cbn. intros x [Hx|[<-|[]]]%in_app_iff Hr; [|done]. unfold update_where in Hx.
  apply in_map_iff in Hx as (y & <- & Hy). destruct (bool_decide (c_Status y = CheckRunning)) eqn:E; [done|]. by apply bool_decide_eq_false in E.
Qed.
End check.

(** ** The node *)
Definition total {S A} (m : io S A) : Prop := forall w, exists a w', m w = (Some a, w').
Lemma total_ret {S A} (a : A) : total (mret (M:=io S) a).
Proof. intros w. by eexists _, _. Qed.
Lemma total_bind {S A B} (m : io S A) (f : A -> io S B) : total m -> (forall a, total (f a)) -> total (m ≫= f).
Proof. intros Hm Hf w. destruct (Hm w) as (a & w' & E). destruct (Hf a w') as (b & w'' & E'). exists b, w''. unfold mbind, io_bind. by rewrite E. Qed.
Lemma total_act {S A} (effect : S -> result failure A * S) : total (Io.act alone faultless effect).
Proof. intros [n s]. unfold Io.act, alone, faultless. destruct (effect s) as [r s']. by eexists _, _. Qed.
Lemma total_write short fd data : total (write_inode alone faultless short fd data).
Proof. intros [n s]. by eexists _, _. Qed.
Ltac total_step := lazymatch goal with
  | |- total (mret _) => apply total_ret
  | |- total (Io.act _ _ _) => apply total_act
  | |- total (write_inode _ _ _ _ _) => apply total_write
  | |- total (_ ≫= _) => apply total_bind; [|intros ?]
  | |- total (io_try _ _) => apply total_bind; [|intros [?|?]; [|apply total_ret]]
  | |- total (if ?c then _ else _) => destruct c
  | |- total (match ?r with _ => _ end) => destruct r
  end.
Lemma total_private short path data : total (atomicPrivateFile faultless short path data).
Proof. unfold atomicPrivateFile, open_temporary, publish, fill. repeat total_step. Qed.

Section node.
Context `{Platform, Trigonometry} (linked : bool) (error_text : failure -> string) (decode : string -> string -> result err fields).
Context (marshal_model : key_model -> string) (state_json : localState -> string) (parse_state : string -> localState * option err).
Context (owner : string) (mail : bool) (stat : nat -> statfs_t).
Context (clock : nat -> Z) (tokens : nat -> string) (short : nat -> option Z) (turns : nat).
Context (size : nat) (Hsize : (size <= turns)%nat).

Section standing.
Context (L : lease -> Prop).
Section steps.
Context (allowed : Z -> Prop).
Abbreviation G := (fun s : node => open_work L allowed size (s_db (n_server s))).
Abbreviation up m := (runs G m (fun _ => G)).
Lemma node_server {A} (m : Io.io server A) :
  runs (fun s => open_work L allowed size (s_db s)) m (fun _ s => open_work L allowed size (s_db s)) -> up (on_server m).
Proof.
  intros Hm n s Hs. destruct (Hm n (n_server s) Hs) as (a & n' & v & E & Hv). exists a, n', (s <| n_server := v |>). split; [|done].
  unfold on_server. by rewrite E.
Qed.
Lemma node_files {A} (m : Io.io fs A) : total m -> up (on_files m).
Proof.
  intros Hm n s Hs. destruct (Hm (n, n_files s)) as (a & [n' v] & E). exists a, n', (s <| n_files := v |>). split; [|done].
  unfold on_files. by rewrite E.
Qed.
Lemma node_act {A} (effect : node -> result failure A * node) : (forall s, n_server (snd (effect s)) = n_server s) -> up (Io.act alone faultless effect).
Proof. intros He. apply runs_act. intros s Hs. by rewrite He. Qed.
Lemma node_ret {A} (a : A) : up (mret a).
Proof. by apply runs_ret. Qed.
Lemma node_bind {A B} (m : Io.io node A) (f : A -> Io.io node B) : up m -> (forall a, up (f a)) -> up (m ≫= f).
Proof. intros Hm Hf. by eapply runs_bind. Qed.
Lemma node_now : up (Io.now clock).
Proof. intros n s Hs. by eexists _, _, _. Qed.
Lemma node_call {A} (m : Z -> tx A) : (forall t, calm (m t)) -> up (on_server (Monitor.call alone faultless clock m)).
Proof. intros Hm. apply node_server, up_call. intros t. by apply steady_calm. Qed.

Ltac node_step known := lazymatch goal with
  | |- runs _ (mret _) _ => apply node_ret
  | |- runs _ (Io.now _) _ => apply node_now
  | |- runs _ (on_files (Io.act _ _ _)) _ => apply node_files, total_act
  | |- runs _ (on_files (atomicPrivateFile _ _ _ _)) _ => apply node_files, total_private
  | |- runs _ (on_server (Monitor.call _ _ _ _)) _ => apply node_call; intros ?; known
  | |- runs _ (Io.act _ _ _) _ => apply node_act; intros ?; reflexivity
  | |- runs _ (_ ≫= _) _ => apply node_bind; [|intros ?]
  | |- runs _ (io_try _ _) _ => apply node_bind; [|intros [?|?]; [|apply node_ret]]
  | |- runs _ (if ?c then _ else _) _ => destruct c
  | |- runs _ (match ?r with _ => _ end) _ => destruct r
  | |- _ => known
  end.
Ltac node known := repeat node_step known.
Lemma node_load : up (loadLocalState parse_state faultless).
Proof. unfold loadLocalState. node fail. Qed.
Lemma node_save settings : up (saveLocalState state_json parse_state faultless clock short settings).
Proof. unfold saveLocalState, write_state. node ltac:(apply node_load). Qed.
Lemma node_openFinding f : up (openFinding alone faultless clock f).
Proof. unfold openFinding. node ltac:(apply calm_openAnomalyAt). Qed.
Lemma node_resolve k : up (resolve alone faultless clock k).
Proof. unfold resolve. node ltac:(apply calm_ResolveAnomaly). Qed.
Lemma node_report i u b p : up (queueReport alone faultless clock i u b p).
Proof. unfold queueReport. node ltac:(destruct p; [apply calm_QueuePeriodicReport|apply calm_QueueReport]). Qed.
Lemma node_outages : up (reconcileWriterFailure state_json parse_state alone faultless clock short).
Proof. unfold reconcileWriterFailure, write_state. node ltac:(first [apply node_load|apply node_openFinding|apply node_resolve]). Qed.
Lemma node_deliverMail settings : up (deliverMail error_text mail alone faultless clock settings).
Proof.
  unfold deliverMail. destruct (_ || _); [apply node_ret|]. apply node_bind.
  - unfold due_mail. apply node_server, up_rpc, up_bind; [apply up_now|]. intros t. apply up_query.
  - intros [messages|e]; [|apply node_ret]. induction messages as [|m messages IH]; cbn [deliver]; [apply node_ret|].
    unfold Send. node ltac:(first [apply calm_ConfirmMail|apply node_openFinding|apply node_resolve|exact IH]).
Qed.
Lemma node_snapshot : up (snapshot_now error_text decode alone faultless clock tokens turns).
Proof. by apply node_server, up_snapshot. Qed.
End steps.

(** *** With the lease and the check *)
Section work.
Context (l : lease) (Hgen : l_Generation l <> 0) (HL : forall x e, L x -> L (Lease (l_Owner x) (l_Generation x) e)) (id : Z).
(** Only the check of the cycle may be running, until it is completed. *)
Definition still (c : captured) : Z -> Prop := fun i => i = id /\ cp_completed c = false.
Definition going (c : captured) (s : node) : Prop := open_work L (still c) size (s_db (n_server s)).
Definition goes {A} (p : part A) : Prop := forall c, runs (going c) (p c) (fun r s => going (fst r) s).
Lemma goes_ret {A} (a : A) : goes (mret a).
Proof. intros c. by apply runs_ret. Qed.
Lemma goes_bind {A B} (p : part A) (f : A -> part B) : goes p -> (forall a, goes (f a)) -> goes (p ≫= f).
Proof. intros Hp Hf c. eapply runs_bind; [apply Hp|]. intros [c' [a|e]]; [apply Hf|by apply runs_ret]. Qed.
Lemma goes_doing {A} (m : Io.io node (result failure A)) :
  (forall allowed, runs (fun s => open_work L allowed size (s_db (n_server s))) m (fun _ s => open_work L allowed size (s_db (n_server s)))) -> goes (doing m).
Proof. intros Hm c. eapply runs_bind; [apply (Hm (still c))|]. intros r. by apply runs_ret. Qed.
Lemma goes_taken v : goes (snapshot_taken v).
Proof. intros c. by apply runs_ret. Qed.
Lemma goes_refresh : goes (refresh error_text decode alone faultless clock tokens turns).
Proof. unfold refresh. apply goes_bind; [apply goes_doing; intros allowed; apply node_snapshot|]. intros v. apply goes_bind; [apply goes_taken|]. intros _. apply goes_ret. Qed.
Lemma goes_executing v operations : goes (executing linked error_text alone faultless clock tokens l v operations).
Proof. apply goes_doing. intros allowed. by apply node_server, up_processOperations. Qed.
Lemma goes_recover : goes (recover_work linked error_text decode state_json parse_state alone faultless clock tokens short turns l).
Proof.
  unfold recover_work. apply goes_bind; [apply goes_refresh|]. intros v. apply goes_bind; [apply goes_doing; intros allowed; apply node_save|]. intros _.
  apply goes_bind; [apply goes_doing; intros allowed; apply node_outages|]. intros _.
  apply goes_bind; [apply goes_doing; intros allowed; by apply node_server, up_reconcile_all|]. intros _.
  apply goes_bind; [apply goes_refresh|]. intros v2. apply goes_bind; [apply goes_executing|]. intros _.
  destruct (Nat.eqb _ _); [apply goes_ret|apply goes_refresh].
Qed.
Lemma goes_measure : goes (measure error_text stat alone faultless clock).
Proof.
  intros c. unfold measure. eapply (runs_bind _ _ _ _ (fun _ => going c)).
  - intros n s Hs. exact (node_act (still c) (fun s => (stat_filesystem (stat n), s)) (fun s => eq_refl) n s Hs).
  - intros [fs|e]; [by apply runs_ret|]. eapply runs_bind; [apply (node_openFinding (still c))|]. intros opened. by apply runs_ret.
Qed.
Lemma goes_live : goes (doing (live alone faultless)).
Proof. apply goes_doing. intros allowed. apply node_server. by apply up_files. Qed.
Lemma goes_watch v : goes (watch_files error_text decode alone faultless clock tokens turns v).
Proof.
  unfold watch_files. apply goes_bind.
  { apply goes_doing. intros allowed. apply node_bind; [apply node_server, up_fileFindings|]. intros found. apply node_ret. }
  intros found. apply goes_bind; [apply goes_live|]. intros _. apply goes_bind; [apply goes_doing; intros allowed; apply node_snapshot|]. intros verified.
  apply goes_bind.
  { apply goes_doing. intros allowed. apply node_bind; [apply node_server, up_verifyUnexpected|]. intros found2. apply node_ret. }
  intros found2. apply goes_bind; [apply goes_live|]. intros _. apply goes_bind; [apply goes_taken|]. intros _. apply goes_ret.
Qed.

(** A request whose answer is known. *)
Lemma call_answers {A} (m : Z -> tx A) (P : db -> Prop) (Q : A -> db -> Prop) :
  (forall t d a d', P d -> m t d = Ok (a, d') -> Q a d') ->
  runs (fun s => P (s_db (n_server s))) (on_server (Monitor.call alone faultless clock m))
    (fun r s => match r with Ok a => Q a (s_db (n_server s)) | Err _ => P (s_db (n_server s)) end).
Proof.
  intros Hm n s Hs. unfold on_server, Monitor.call, Io.rpc, mbind, io_bind, Io.now, Io.act, alone, faultless, on_store, commit.
  destruct (m (clock (n + 1)%nat) (s_db (n_server s))) as [[a d']|e] eqn:E; eexists _, _, _; (split; [reflexivity|]); cbn; [by apply (Hm _ _ _ _ Hs E)|done].
Qed.
Lemma goes_complete {A} v t reliable found (x : A) :
  goes (_ ← doing (complete_check alone faultless clock id v t reliable found); _ ← check_done; mret x).
Proof.
  intros c. eapply (runs_bind _ _ _ _ (fun r s => fst r = c /\ match snd r with
    | Ok _ => open_work L nothing size (s_db (n_server s)) | Err _ => going c s end)).
  - eapply runs_bind; [|intros r; apply runs_ret; intros s Hs; split; [done|exact Hs]].
    unfold complete_check. destruct (cp_completed c) eqn:Ec.
    + eapply runs_weaken; [apply (call_answers _ (open_work L nothing size) (fun _ => open_work L nothing size))|..].
      * intros t' d a d' Hd. apply complete_ends. by apply weaken_nothing.
      * intros s [H1 H2 H3]. split; [done| |done]. intros k Hk Hr. destruct (H2 k Hk Hr) as [_ E]. by rewrite Ec in E.
      * intros [[]|e] s Hs; [done|]. by apply weaken_nothing.
    + eapply runs_weaken; [apply (call_answers _ (open_work L (eq id) size) (fun _ => open_work L nothing size))|..].
      * intros t' d a d' Hd. by apply complete_ends.
      * intros s [H1 H2 H3]. split; [done| |done]. intros k Hk Hr. by destruct (H2 k Hk Hr) as [-> _].
      * intros [[]|e] s Hs; [done|]. destruct Hs as [H1 H2 H3]. split; [done| |done]. intros k Hk Hr. split; [by rewrite (H2 k Hk Hr)|done].
  - intros [c' [[]|e]]; cbn [fst snd]; [|apply runs_ret; by intros s [-> Hs]].
    intros n s [_ Hs]. eexists _, _, _. split; [reflexivity|]. by apply weaken_nothing.
Qed.
Lemma goes_check t fs v : goes (check_all error_text decode marshal_model alone faultless clock tokens turns id t fs v).
Proof.
  unfold check_all. apply goes_bind; [apply goes_watch|]. intros [v2 found].
  apply goes_bind; [apply goes_doing; intros allowed; apply node_server, up_monitor|]. intros seen.
  apply goes_bind; [apply goes_doing; intros allowed; apply node_ret|]. intros capacity. apply goes_complete.
Qed.
Lemma goes_work t :
  goes (work linked error_text decode marshal_model state_json parse_state owner stat alone faultless clock tokens short turns l id t).
Proof.
  unfold work. apply goes_bind; [apply goes_recover|]. intros v. apply goes_bind; [apply goes_measure|]. intros fs.
  apply goes_bind; [apply goes_check|]. intros [[v2 found] seen].
  apply goes_bind; [apply goes_doing; intros allowed; apply node_server, up_clear_blocks|]. intros _.
  apply goes_bind; [apply goes_doing; intros allowed; apply node_server, up_recordFindings|]. intros _.
  apply goes_bind; [apply goes_doing; intros allowed; apply node_snapshot|]. intros refreshed.
  apply goes_bind.
  { unfold remind. destruct (reminder_lines _ _); [apply goes_ret|]. apply goes_doing. intros allowed. apply node_report. }
  intros _. apply goes_bind.
  { unfold report. destruct (negb _); [apply goes_ret|]. apply goes_bind.
    - apply goes_doing. intros allowed. apply node_bind; [apply node_now|]. intros now. apply node_ret.
    - intros now. apply goes_doing. intros allowed. apply node_report. }
  intros _. apply goes_bind.
  { unfold schedule. destruct (negb _); [apply goes_ret|]. apply goes_bind; [apply goes_doing; intros allowed; apply node_server, up_schedulePurges|].
    intros _. apply goes_doing. intros allowed. apply node_server, up_scheduleAutomatic. }
  intros _. apply goes_bind; [apply goes_refresh|]. intros v3. apply goes_executing.
Qed.
End work.
End standing.

(** *** Around the work *)
Lemma answered {A} (m : Z -> tx A) (P Q : db -> Prop) : (forall t d, P d -> exists a d', m t d = Ok (a, d') /\ Q d') ->
  runs (fun s => P (s_db (n_server s))) (on_server (Monitor.call alone faultless clock m)) (fun r s => (exists a, r = Ok a) /\ Q (s_db (n_server s))).
Proof.
  intros Hm n s Hs. unfold on_server, Monitor.call, Io.rpc, mbind, io_bind, Io.now, Io.act, alone, faultless, on_store, commit.
  destruct (Hm (clock (n + 1)%nat) _ Hs) as (a & d' & E & HQ). rewrite E. eexists _, _, _. split; [reflexivity|]. cbn. by split; [exists a|].
Qed.
Definition held_by (l x : lease) : Prop := l_Owner x = l_Owner l /\ l_Generation x = l_Generation l.
Definition freed (l x : lease) : Prop := l_Owner x = ""%string /\ l_Generation x = l_Generation l /\ l_ExpiresAt x = 0.
Definition anything (i : Z) : Prop := True.
Abbreviation stands L allowed := (fun s : node => open_work L allowed size (s_db (n_server s))).

Lemma closes_check l : l_Generation l <> 0 -> runs (stands (held_by l) anything)
  (with_lease linked error_text decode marshal_model state_json parse_state owner stat alone faultless clock tokens short turns l)
  (fun _ => stands (held_by l) nothing).
Proof.
  intros Hgen. unfold with_lease. set (d0 := open_work (held_by l)).
  eapply (runs_bind _ _ _ _ (fun r s => exists c, r = Ok c /\ open_work (held_by l) (eq (c_ID c)) size (s_db (n_server s)))).
  { intros n s Hs. unfold on_server, Monitor.call, Io.rpc, mbind, io_bind, Io.now, Io.act, alone, faultless, on_store, commit.
    destruct (StartMonitoringCheck _ (s_db (n_server s))) as [[c d']|e] eqn:E; [|discriminate E].
    eexists _, _, _. split; [reflexivity|]. cbn. exists c. split; [done|]. by apply (start_begins _ _ _ _ _ _ Hs E). }
  intros r n s (c & -> & Hs). revert n s Hs. apply (runs_bind _ _ _ _ (fun r s => going (held_by l) (c_ID c) (fst r) s)).
  - eapply runs_weaken; [apply (goes_work (held_by l) l Hgen ltac:(done) (c_ID c) (of_unix (c_StartedAt c)) (Captured None false))| |by intros ? ? H1].
    intros s [H1 H2 H3]. split; [done| |done]. intros k Hk Hr. split; [by rewrite (H2 k Hk Hr)|done].
  - intros [cap r]. cbn [fst snd]. apply (runs_bind _ _ _ _ (fun _ => stands (held_by l) nothing)); [|intros _; by apply runs_ret].
    destruct (cp_completed cap) eqn:Ec.
    + apply runs_ret. intros s [H1 H2 H3]. split; [done| |done]. intros k Hk Hr. destruct (H2 k Hk Hr) as [_ E]. cbn in E. by rewrite Ec in E.
    + eapply runs_weaken; [apply (answered _ (open_work (held_by l) (eq (c_ID c)) size) (open_work (held_by l) nothing size))| |by intros r' s [_ Hs]].
      * intros t d Hd. destruct (FailMonitoringCheck (c_ID c) (result_text error_text r) t d) as [[u d']|e] eqn:E; [|discriminate E].
        exists u, d'. split; [done|]. by apply (fail_ends _ _ _ _ _ _ _ _ Hd E).
      * intros s [H1 H2 H3]. split; [done| |done]. intros k Hk Hr. by destruct (H2 k Hk Hr) as [-> _].
Qed.
Lemma closes_lease l : runs (stands (held_by l) nothing) (release alone faultless clock l) (fun _ => stands (freed l) nothing).
Proof.
  eapply runs_weaken; [apply (answered _ (open_work (held_by l) nothing size) (open_work (freed l) nothing size))|done|by intros r s [_ Hs]].
  intros _ d [[H1 H1'] H2 H3]. eexists tt, _. split; [reflexivity|]. rewrite H1, H1', String.eqb_refl, Z.eqb_refl. by split.
Qed.

Lemma acquired t d l d' : 0 <= l_Generation (d_lease d) -> AcquireMaintenanceLease owner 0 t maintenanceLeaseDuration d = Ok (l, d') ->
  d' = d <| d_lease := l |> /\ l_Owner l = owner /\ l_Generation l = l_Generation (d_lease d) + 1.
Proof.
  intros Hg E. unfold AcquireMaintenanceLease in E. apply bind_ok in E as (u1 & d1 & [_ ->]%guard_ok & E).
  apply bind_ok in E as (u2 & d2 & [_ ->]%guard_ok & E). apply bind_ok in E as (lx & d3 & [-> ->]%gets_ok & E).
  apply bind_ok in E as (u4 & d4 & [_ ->]%guard_ok & E). apply bind_ok in E as (u5 & d5 & [= _ <-] & E). by apply gets_ok in E as [-> ->].
Qed.
Lemma lease_asked n s : 0 <= l_Generation (d_lease (s_db (n_server s))) -> length (d_backups (s_db (n_server s))) = size ->
  exists r n' s', on_server (Io.rpc alone faultless (handle_lease alone faultless clock owner 0 maintenanceLeaseDuration)) (n, s) = (Some r, (n', s')) /\
  match r with
  | Ok l => l_Generation l = l_Generation (d_lease (s_db (n_server s))) + 1 /\ open_work (held_by l) anything size (s_db (n_server s'))
  | Err f => exists t e, f = Failed e /\ AcquireMaintenanceLease owner 0 t maintenanceLeaseDuration (s_db (n_server s)) = Err e /\ n_server s' = n_server s
  end.
Proof.
  intros Hg Hlen. unfold on_server, Io.rpc, handle_lease, Io.now, mbind, io_bind, Io.act, alone, faultless, on_store, commit. cbn beta iota zeta.
  destruct (AcquireMaintenanceLease _ _ _ _ _) as [[l d']|e] eqn:E; eexists _, _, _; (split; [reflexivity|]).
  - destruct (acquired _ _ _ _ Hg E) as (-> & Ho & Hgl). by split.
  - eexists _, e. split_and!; [done|exact E|]. by destruct s as [[] ? ? ?].
Qed.
(** With the lock: the lease is refused, or the cycle closes. *)
Lemma closes_locked n s : 0 <= l_Generation (d_lease (s_db (n_server s))) -> length (d_backups (s_db (n_server s))) = size ->
  exists r n' s', with_lock linked error_text decode marshal_model state_json parse_state owner mail stat alone faultless clock tokens short turns (n, s)
    = (Some r, (n', s')) /\
  ((exists t e, AcquireMaintenanceLease owner 0 t maintenanceLeaseDuration (s_db (n_server s)) = Err e /\ r = Err (Failed e) /\ n_server s' = n_server s) \/
   (exists l, l_Generation l = l_Generation (d_lease (s_db (n_server s))) + 1 /\ open_work (freed l) nothing size (s_db (n_server s')))).
Proof.
  intros Hg Hlen. destruct (lease_asked n s Hg Hlen) as (r & n1 & s1 & E & Hr). unfold with_lock. unfold mbind at 1, io_bind at 1. rewrite E. cbn beta iota.
  destruct r as [l|f].
  - destruct Hr as [Hgl Hs]. assert (l_Generation l <> 0) as Hne by lia.
    enough (runs (stands (held_by l) anything) (done ← with_lease linked error_text decode marshal_model state_json parse_state owner stat alone faultless clock tokens short turns l;
      _ ← release alone faultless clock l;
      match cp_settings (fst done) with
      | None => mret (snd done)
      | Some settings => sent ← deliverMail error_text mail alone faultless clock settings; mret (match snd done with Ok _ => sent | Err e => Err e end)
      end) (fun _ => stands (freed l) nothing)) as Hw.
    { destruct (Hw n1 s1 Hs) as (r & n2 & s2 & E2 & H2). exists r, n2, s2. split; [exact E2|]. right. by exists l. }
    eapply (runs_bind _ _ _ _ (fun _ => stands (held_by l) nothing)); [by apply closes_check|]. intros [c r].
    eapply (runs_bind _ _ _ _ (fun _ => stands (freed l) nothing)); [apply closes_lease|]. intros _. cbn [fst snd].
    destruct (cp_settings c); [|by apply runs_ret]. eapply (runs_bind _ _ _ _ (fun _ => stands (freed l) nothing)); [apply node_deliverMail|].
    intros sent. by apply runs_ret.
  - destruct Hr as (t & e & -> & Ea & Es). eexists _, n1, s1. split; [reflexivity|]. left. by exists t, e.
Qed.

(** C11. A cycle returns, whatever it finds and whatever its work ends with, in a run
    where no call fails; the lock is free again.  Either the lease was refused and the
    archive is as it was, or the generation of the lease is the next one, nobody holds
    the lease, and no check is left running: the one started is completed or failed. *)
Theorem cycle_closes n s : n_locked s = false -> 0 <= l_Generation (d_lease (s_db (n_server s))) -> length (d_backups (s_db (n_server s))) = size ->
  exists r n' s', RunOnce linked error_text decode marshal_model state_json parse_state owner mail stat alone faultless clock tokens short turns (n, s)
    = (Some r, (n', s')) /\ n_locked s' = false /\
  ((exists t e, AcquireMaintenanceLease owner 0 t maintenanceLeaseDuration (s_db (n_server s)) = Err e /\ r = Err (Failed e) /\ n_server s' = n_server s) \/
   (let d := s_db (n_server s') in
    l_Generation (d_lease d) = l_Generation (d_lease (s_db (n_server s))) + 1 /\ l_ExpiresAt (d_lease d) = 0 /\
    Forall (fun c => c_Status c <> CheckRunning) (d_checks d))).
Proof.
  intros Hfree Hg Hlen. pose (v := s <| n_locked := true |>). destruct (closes_locked (n + 1)%nat v Hg Hlen) as (r & n' & s' & E & Hr).
  exists r, n', (s' <| n_locked := false |>). split_and!; [|done|].
  - unfold RunOnce, io_try. unfold mbind at 1, io_bind at 1.
    assert (lockExecution faultless (n, s) = (Some (Ok tt), ((n + 1)%nat, s <| n_locked := true |>))) as ->.
    { unfold lockExecution, Io.act, faultless, alone. by rewrite Hfree. }
    cbn beta iota. by rewrite (bind_returns _ _ _ _ _ E).
  - destruct Hr as [Hr|(l & Hgl & [H1 H2 _])]; [by left|right]. cbn. destruct H1 as (_ & -> & He). split_and!; [done|done|].
    apply Forall_forall. intros c Hc Hrun. exact (H2 c (proj1 (list_elem_of_In _ _) Hc) Hrun).
Qed.
End node.
