(* ===== verification/Mailing.v ===== *)
(** The mail of the maintenance process: what the catalogue has as sent was taken by the
    mail server, and what is due is sent ([deliverMail],
    [src/internal/maintenance/service.go]). *)
From S2P Require Import Prelude GoTime GoFloat GoString Model Policy Schedule Catalog Anomalies Automation Retention RetentionMachine Deposit Checks Mail.
From S2P Require Import Store Archive Io Writer Executor Watch Api Files Private Snapshot Report Monitor Cycle Cycling.

(** ** The messages that the catalogue has as sent *)
Definition sent_id (d : db) (i : Z) : Prop := exists m, In m (d_mail d) /\ m_ID m = i /\ m_SentAt m <> 0.
Definition taken (s : node) (i : Z) : Prop := exists settings m, In (settings, m) (n_outbox s) /\ m_ID m = i.
Definition accounted (s : node) : Prop := forall i, sent_id (s_db (n_server s)) i -> taken s i.

(** Transactions that mark no message but those of [marked]. *)
Definition honest {A} (marked : Z -> Prop) (m : tx A) : Prop :=
  forall d a d', m d = Ok (a, d') -> forall i, sent_id d' i -> sent_id d i \/ marked i.
Section honest.
Context (marked : Z -> Prop).
Abbreviation honest := (honest marked).
Lemma honest_mail {A} (m : tx A) : keeps d_mail m -> honest m.
Proof. intros Hm d a d' E i. unfold sent_id. rewrite (Hm d a d' E). by left. Qed.
Lemma honest_bind {A B} (m : tx A) (f : A -> tx B) : honest m -> (forall a, honest (f a)) -> honest (m ≫= f).
Proof. intros Hm Hf d b d' (a & d1 & E1 & E2)%bind_ok i Hi. destruct (Hf a d1 b d' E2 i Hi) as [Hi1|]; [|by right]. by apply (Hm _ _ _ E1). Qed.
Lemma honest_insert s k u b n : honest (insert_mail s k u b n).
Proof.
  intros d x d' H i. unfold insert_mail in H. destruct (mail_queued s d); [done|injection H as _ <-].
  intros (m & [Hm|[<-|[]]]%in_app_iff & Hi & Hs); [left; by exists m|done].
Qed.
Lemma honest_mark i v : marked i -> honest (update_mail (fun m => mail_is i m && (m_SentAt m =? 0)) (fun m => m <| m_SentAt := v |> <| m_LastError := "" |>)).
Proof.
  intros Hi d x d' [= _ <-] j (m & (y & <- & Hy)%in_map_iff & <- & Hs). destruct (mail_is i y && (m_SentAt y =? 0)) eqn:E; [|left; by exists y].
  right. apply andb_true_iff in E as [Ei%Z.eqb_eq _]. cbn. by rewrite Ei.
Qed.
Lemma honest_postpone p f : (forall m, m_ID (f m) = m_ID m /\ m_SentAt (f m) = m_SentAt m) -> honest (update_mail p f).
Proof.
  intros Hf d x d' [= _ <-] j (m & (y & <- & Hy)%in_map_iff & <- & Hs). destruct (Hf y) as [E1 E2]. destruct (p y); [rewrite E1; rewrite E2 in Hs|]; left; by exists y.
Qed.
End honest.
Lemma same_mail_automation f : keeps d_mail (update_automation f).
Proof. by intros d a d' [= _ <-]. Qed.
Lemma same_mail_anomalies p f : keeps d_mail (update_anomalies p f).
Proof. by intros d a d' [= _ <-]. Qed.
Lemma same_mail_get {A} (f : db -> A) : keeps d_mail (tx_gets f).
Proof. by intros d a d' [= _ <-]. Qed.
Lemma same_mail_guard c e : keeps d_mail (tx_guard c e).
Proof. intros d a d' [_ ->]%guard_ok. done. Qed.
Lemma same_mail_ret {A} (a : A) : keeps d_mail (mret a).
Proof. by intros d b d' [= _ <-]. Qed.
Lemma same_mail_insert_anomaly a : keeps d_mail (insert_anomaly a).
Proof. intros d b d' H. unfold insert_anomaly in H. destruct (_ && _); [done|by injection H as _ <-]. Qed.
Lemma same_mail_query {A} (o : option A) : keeps d_mail (query_row o).
Proof. by intros d b d' [_ ->]%query_ok. Qed.
#[local] Hint Resolve same_mail_automation same_mail_anomalies same_mail_get same_mail_guard same_mail_ret same_mail_insert_anomaly same_mail_query
  honest_insert : honest.
Ltac honest := repeat first
  [ solve [auto with honest] | apply honest_mail; solve [auto with honest]
  | apply honest_bind; [|let a := fresh "a" in intros a; cbn beta iota]
  | match goal with |- honest _ (if ?c then _ else _) => destruct c | |- honest _ (match ?x with _ => _ end) => destruct x end ].
Lemma honest_openAnomalyAt `{Platform} marked s k i b t e n : honest marked (openAnomalyAt s k i b t e n).
Proof. unfold openAnomalyAt, blockForAnomaly, recordExcludedAnomaly. honest. Qed.
Lemma honest_ResolveAnomaly marked s n : honest marked (ResolveAnomaly s n).
Proof. unfold ResolveAnomaly. honest. Qed.
Lemma honest_ConfirmMail marked id e v t : (e = ""%string -> marked id) -> honest marked (ConfirmMail id e v t).
Proof.
  intros Hm. unfold ConfirmMail. apply honest_bind; [honest|]. intros mail. apply honest_bind; [honest|]. intros m.
  destruct (negb _); [honest|]. destruct (String.eqb e "") eqn:E.
  - apply String.eqb_eq in E. apply honest_bind; [by apply honest_mark, Hm|]. intros n. honest.
  - apply honest_bind; [by apply honest_postpone|]. intros n. honest.
Qed.

(** ** Sending *)
(** The others mark no message as sent. *)
Class Quiet (env : nat -> server -> server) : Prop := quiet : forall n s i, sent_id (s_db (env n s)) i -> sent_id (s_db s) i.
#[global] Instance quiet_alone : Quiet alone.
Proof. by intros n s i. Qed.

Section sending.
Context `{Platform} (error_text : failure -> string) (Htext : forall e, error_text e <> ""%string).
Context (env : nat -> server -> server) `{!Quiet env} (fate_of : nat -> fate) (clock : nat -> Z).
Definition within (T : Z -> Prop) (s : server) : Prop := forall i, sent_id (s_db s) i -> T i.
Abbreviation quietly T m := (triple (within T) m (fun _ => within T) (within T)).
Lemma stable_within T : Stable env (within T).
Proof. intros n s Hs i Hi. by apply Hs, (quiet n s). Qed.
Lemma quietly_query {A} T (q : db -> result err A) : quietly T (Executor.query env fate_of q).
Proof. apply triple_act_inv; [apply stable_within|]. by intros s Hs. Qed.
Lemma quietly_store {A} T (m : tx A) : honest T m -> quietly T (Io.act env fate_of (on_store m)).
Proof.
  intros Hm. apply triple_act_inv; [apply stable_within|]. intros s Hs. unfold on_store, commit.
  destruct (m (s_db s)) as [[a d']|e] eqn:E; [|done]. intros i Hi. destruct (Hm _ _ _ E i Hi); [by apply Hs|done].
Qed.
Lemma quietly_rpc {A} T (m : Io.io server (result failure A)) : quietly T m -> quietly T (Io.rpc env fate_of m).
Proof.
  intros Hm. pose proof (stable_within T) as Hst. eapply triple_weaken; [apply (triple_rpc env fate_of (within T) m (fun _ => within T) (within T) (within T) Hm); auto|done|..|done].
  by intros r s [Hs|[_ Hs]].
Qed.
Lemma quietly_now {A} T (f : Z -> Io.io server A) : (forall t, quietly T (f t)) -> quietly T (t ← Io.now clock; f t).
Proof. intros Hf. eapply triple_bind; [by apply (triple_now clock (within T) _ (fun _ => within T))|exact Hf]. Qed.
Lemma quietly_call {A} T (m : Z -> tx A) : (forall t, honest T (m t)) -> quietly T (Monitor.call env fate_of clock m).
Proof. intros Hm. apply quietly_rpc, quietly_now. intros t. by apply quietly_store. Qed.

Abbreviation on m := (triple accounted m (fun _ => accounted) accounted).
Lemma on_quietly {A} (P : node -> Prop) (m : Io.io server A) : (forall s, P s -> accounted s) ->
  (forall s, P s -> quietly (taken s) m) -> triple P (on_server m) (fun _ => accounted) accounted.
Proof.
  intros HP Hm n s Hs. pose proof (Hm s Hs n (n_server s) (HP s Hs)) as Hr. unfold on_server.
  by destruct (m (n, n_server s)) as [[a|] [n' v]].
Qed.
Lemma booked_openFinding f : on (openFinding env fate_of clock f).
Proof. apply on_quietly; [done|]. intros s _. apply quietly_call. intros t. apply honest_openAnomalyAt. Qed.
Lemma booked_resolve k : on (resolve env fate_of clock k).
Proof. apply on_quietly; [done|]. intros s _. apply quietly_call. intros t. apply honest_ResolveAnomaly. Qed.
Lemma taken_more s settings m i : taken s i -> taken (s <| n_outbox ::= fun sent => sent ++ [(settings, m)] |>) i.
Proof. intros (st & x & Hx & Hi). exists st, x. split; [|done]. apply in_app_iff. by left. Qed.
Lemma booked_send settings m : triple accounted (Send fate_of settings m)
  (fun r s => accounted s /\ (is_ok r = true -> taken s (m_ID m))) accounted.
Proof.
  apply triple_act; [apply _|done|]. intros s Hs. set (v := s <| n_outbox ::= _ |>).
  assert (accounted v) as Hv by (intros i Hi; by apply taken_more, Hs). split; [exact Hv|]. split; [|by intros f].
  split; [exact Hv|]. intros _. exists settings, m. split; [|done]. apply in_app_iff. right. by left.
Qed.
Lemma booked_deliver settings messages : on (deliver error_text env fate_of clock settings messages).
Proof.
  induction messages as [|m messages IH]; cbn [deliver]; [by apply triple_ret|].
  eapply triple_bind; [apply booked_send|]. intros r. apply (triple_bind _ _ _ _ (fun _ => accounted)).
  - apply on_quietly; [by intros s []|]. intros s [_ Ht]. apply quietly_call. intros t. apply honest_ConfirmMail. destruct r as [[]|e]; [by intros _; apply Ht|].
    intros E. by apply Htext in E.
  - intros [[]|e]; [|by apply triple_ret]. apply (triple_bind _ _ _ _ (fun _ => accounted)); [|intros _; exact IH].
    destruct r; [apply booked_resolve|apply booked_openFinding].
Qed.
Lemma booked_deliverMail mail settings : on (deliverMail error_text mail env fate_of clock settings).
Proof.
  unfold deliverMail. destruct (_ || _); [by apply triple_ret|]. apply (triple_bind _ _ _ _ (fun _ => accounted)).
  - apply on_quietly; [done|]. intros s _. apply quietly_rpc, quietly_now. intros t. apply quietly_query.
  - intros [messages|e]; [apply booked_deliver|by apply triple_ret].
Qed.
End sending.

(** C28. No message is marked as sent unless the mail server took it: if that holds of
    every message of the catalogue, it holds after a delivery too, whatever calls fail,
    before or after their effect, wherever the process stops, and whatever the others
    do but marking messages.  A message may be sent twice, never lost as sent. *)
Theorem sent_mail_taken `{Platform} error_text mail env fate_of clock settings n s :
  (forall e, error_text e <> ""%string) -> Quiet env -> accounted s ->
  accounted (snd (snd (deliverMail error_text mail env fate_of clock settings (n, s)))).
Proof.
  intros Htext Hq Hs. pose proof (booked_deliverMail error_text Htext env fate_of clock mail settings n s Hs) as Hr.
  by destruct (deliverMail _ _ _ _ _ _ _) as [[a|] [n' s']].
Qed.

(** ** What is due is sent *)
(** Transactions that keep the rows of the queue and what is sent. *)
Definition lasting {A} (m : tx A) : Prop := forall d a d', m d = Ok (a, d') -> forall x, In x (d_mail d) ->
  exists y, In y (d_mail d') /\ m_ID y = m_ID x /\ (m_SentAt x <> 0 -> m_SentAt y <> 0).
Lemma lasting_mail {A} (m : tx A) : keeps d_mail m -> lasting m.
Proof. intros Hm d a d' E x Hx. exists x. by rewrite (Hm _ _ _ E). Qed.
Lemma lasting_bind {A B} (m : tx A) (f : A -> tx B) : lasting m -> (forall a, lasting (f a)) -> lasting (m ≫= f).
Proof.
  intros Hm Hf d b d' (a & d1 & E1 & E2)%bind_ok x Hx. destruct (Hm _ _ _ E1 x Hx) as (y & Hy & Hi & Hs).
  destruct (Hf a _ _ _ E2 y Hy) as (z & Hz & Hi' & Hs'). exists z. split; [done|]. split; [congruence|auto].
Qed.
Lemma lasting_insert s k u b n : lasting (insert_mail s k u b n).
Proof.
  intros d a d' H x Hx. unfold insert_mail in H. destruct (mail_queued s d); [done|injection H as _ <-]. exists x. split; [|done].
  apply in_app_iff. by left.
Qed.
Lemma lasting_update p f : (forall m, m_ID (f m) = m_ID m /\ (m_SentAt m <> 0 -> m_SentAt (f m) <> 0)) -> lasting (update_mail p f).
Proof.
  intros Hf d a d' [= _ <-] x Hx. exists (if p x then f x else x). split; [apply in_map_iff; by exists x|]. destruct (p x); [apply Hf|done].
Qed.
#[local] Hint Resolve same_mail_automation same_mail_anomalies same_mail_get same_mail_guard same_mail_ret same_mail_insert_anomaly same_mail_query
  lasting_insert : lasting.
Ltac lasting := repeat first
  [ solve [auto with lasting] | apply lasting_mail; solve [auto with lasting]
  | apply lasting_bind; [|let a := fresh "a" in intros a; cbn beta iota]
  | match goal with |- lasting (if ?c then _ else _) => destruct c | |- lasting (match ?x with _ => _ end) => destruct x end ].
Lemma lasting_ResolveAnomaly s n : lasting (ResolveAnomaly s n).
Proof. unfold ResolveAnomaly. lasting. Qed.
Lemma lasting_ConfirmMail id e v t : unix t <> 0 -> lasting (ConfirmMail id e v t).
Proof.
  intros Ht. unfold ConfirmMail. lasting; by apply lasting_update.
Qed.
(** The confirmation of a message of the queue succeeds, and marks it. *)
Lemma ConfirmMail_marks id v t d x : unix t <> 0 -> In x (d_mail d) -> m_ID x = id ->
  exists d', ConfirmMail id "" v t d = Ok (tt, d') /\ sent_id d' id.
Proof.
  intros Ht Hx Hi. unfold ConfirmMail, tx_gets, mbind, tx_bind. destruct (find_where (mail_is id) (d_mail d)) as [y|] eqn:E.
  - apply find_some in E as [Hy Hid%Z.eqb_eq]. cbn. destruct (m_SentAt y =? 0) eqn:Es; cbn.
    + assert (sent_id (d <| d_mail ::= update_where (fun m => mail_is id m && (m_SentAt m =? 0)) (fun m => m <| m_SentAt := unix t |> <| m_LastError := "" |>) |>) id) as Hd1.
      { exists (y <| m_SentAt := unix t |> <| m_LastError := "" |>). split; [|done]. apply in_map_iff. exists y. split; [|done].
        unfold mail_is. by rewrite Hid, Z.eqb_refl, Es. }
      destruct (_ && _); eexists; (split; [reflexivity|exact Hd1]).
    + eexists. split; [reflexivity|]. exists y. split; [done|]. split; [done|]. by apply Z.eqb_neq.
  - apply (find_none _ _ E) in Hx. unfold mail_is in Hx. by rewrite Hi, Z.eqb_refl in Hx.
Qed.

Section delivered.
Context `{Platform} (error_text : failure -> string) (clock : nat -> Z) (Hclock : forall n, unix (clock n) <> 0) (settings : mail_settings).
Lemma call_alone {A} (m : Z -> tx A) n s : exists t n',
  on_server (Monitor.call alone faultless clock m) (n, s) =
    match m (clock t) (s_db (n_server s)) with
    | Ok (a, d) => (Some (Ok a), (n', s <| n_server ::= fun v => v <| s_db := d |> |>))
    | Err e => (Some (Err (Failed e)), (n', s <| n_server ::= fun v => v <| s_db := s_db v |> |>))
    end.
Proof.
  unfold on_server, Monitor.call, Io.rpc, mbind, io_bind, Io.now, Io.act, alone, faultless, on_store, commit.
  exists (n + 1)%nat, (n + 1 + 1 + 1 + 1)%nat. by destruct (m _ (s_db (n_server s))) as [[a d]|e].
Qed.
(** The queue of a later state. *)
Definition queue_lasts (d d' : db) : Prop := forall x, In x (d_mail d) -> exists y, In y (d_mail d') /\ m_ID y = m_ID x /\ (m_SentAt x <> 0 -> m_SentAt y <> 0).
Lemma queue_refl d : queue_lasts d d.
Proof. intros x Hx. by exists x. Qed.
Lemma queue_trans d d1 d2 : queue_lasts d d1 -> queue_lasts d1 d2 -> queue_lasts d d2.
Proof. intros H1 H2 x Hx. destruct (H1 x Hx) as (y & Hy & Hi & Hs). destruct (H2 y Hy) as (z & Hz & Hi' & Hs'). exists z. split; [done|]. split; [congruence|auto]. Qed.
Lemma queue_sent d d' i : queue_lasts d d' -> sent_id d i -> sent_id d' i.
Proof. intros Hl (x & Hx & <- & Hs). destruct (Hl x Hx) as (y & Hy & Hi & Hs'). exists y. auto. Qed.

Lemma deliver_alone messages : forall n s, (forall m, In m messages -> exists x, In x (d_mail (s_db (n_server s))) /\ m_ID x = m_ID m) ->
  exists n' s', deliver error_text alone faultless clock settings messages (n, s) = (Some (Ok tt), (n', s')) /\
    n_outbox s' = n_outbox s ++ map (fun m => (settings, m)) messages /\ queue_lasts (s_db (n_server s)) (s_db (n_server s')) /\
    forall m, In m messages -> sent_id (s_db (n_server s')) (m_ID m).
Proof.
  induction messages as [|m messages IH]; intros n s Hm; cbn [deliver].
  - exists n, s. split; [done|]. split; [by rewrite app_nil_r|]. split; [apply queue_refl|done].
  - rewrite (bind_returns _ _ _ (Ok tt) ((n + 1)%nat, s <| n_outbox ::= fun sent => sent ++ [(settings, m)] |>)) by reflexivity.
    set (s1 := s <| n_outbox ::= _ |>). destruct (Hm m (or_introl eq_refl)) as (x & Hx & Hi).
    destruct (call_alone (ConfirmMail (m_ID m) "" (ms_ConfigVersion settings)) (n + 1)%nat s1) as (t & n1 & E1).
    destruct (ConfirmMail_marks (m_ID m) (ms_ConfigVersion settings) (clock t) (s_db (n_server s1)) x (Hclock t) Hx Hi) as (d1 & Ed & Hd1).
    rewrite Ed in E1. set (s2 := s1 <| n_server ::= _ |>) in E1. unfold io_try at 1. rewrite (bind_returns _ _ _ _ _ E1).
    pose proof (lasting_ConfirmMail _ _ _ _ (Hclock t) _ _ _ Ed) as Hl1.
    destruct (call_alone (ResolveAnomaly "smtp:delivery") n1 s2) as (t2 & n2 & E2).
    assert (exists r s3, on_server (Monitor.call alone faultless clock (ResolveAnomaly "smtp:delivery")) (n1, s2) = (Some r, (n2, s3)) /\
      n_outbox s3 = n_outbox s2 /\ queue_lasts d1 (s_db (n_server s3))) as (r3 & s3 & E3 & Ho3 & Hl3).
    { rewrite E2. destruct (ResolveAnomaly _ _ _) as [[a d3]|e] eqn:Er; eexists _, _; (split; [reflexivity|]); (split; [done|]).
      - exact (lasting_ResolveAnomaly _ _ _ _ _ Er).
      - apply queue_refl. }
    unfold resolve. rewrite (bind_returns _ _ _ _ _ E3).
    assert (queue_lasts (s_db (n_server s)) (s_db (n_server s3))) as Hl by (by eapply queue_trans).
    destruct (IH n2 s3) as (n' & s' & E & Ho & Hl' & Hsent).
    { intros m' Hm'. destruct (Hm m' (or_intror Hm')) as (x' & Hx' & Hi'). destruct (Hl x' Hx') as (y & Hy & Hiy & _). exists y. split; [done|congruence]. }
    exists n', s'. split; [exact E|]. split; [rewrite Ho, Ho3; cbn; by rewrite <- app_assoc|]. split; [by eapply queue_trans|].
    intros m' [<-|Hm']; [|by apply Hsent]. by apply (queue_sent _ _ _ (queue_trans _ _ _ Hl3 Hl')).
Qed.
End delivered.

(** What is due is sent: with a sender and a server configured, in a run where no
    call fails, the delivery succeeds; the first twenty messages due, in the order of
    the queue, were handed to the mail server with those settings, and the catalogue
    has each as sent. *)
Lemma due_mail_sent `{Platform} error_text clock settings n s :
  (forall n, unix (clock n) <> 0) -> ms_Host settings <> ""%string ->
  exists t n' s', deliverMail error_text true alone faultless clock settings (n, s) = (Some (Ok tt), (n', s')) /\
    let due := take 20 (List.filter (mail_due t) (d_mail (s_db (n_server s)))) in
    n_outbox s' = n_outbox s ++ map (fun m => (settings, m)) due /\
    forall m, In m due -> sent_id (s_db (n_server s')) (m_ID m).
Proof.
  intros Hclock Hhost. unfold deliverMail. assert (String.eqb (ms_Host settings) "" = false) as -> by (by apply String.eqb_neq). cbn [negb orb].
  unfold due_mail, DueMail. cbn [Z.ltb Z.compare orb]. unfold io_try at 1.
  set (ask := on_server _). assert (exists t n1, ask (n, s) = (Some (Ok (take 20 (List.filter (mail_due t) (d_mail (s_db (n_server s)))))), (n1, s))) as (t & n1 & E).
  { eexists _, _. unfold ask, on_server, Io.rpc, mbind, io_bind, Io.now, Executor.query, Io.act, alone, faultless. destruct s as [[] ? ? ?]. reflexivity. }
  rewrite (bind_returns _ _ _ _ _ E). set (due := take 20 _).
  destruct (deliver_alone error_text clock Hclock settings due n1 s) as (n' & s' & E' & Ho & _ & Hs).
  { intros m Hm. exists m. split; [|done]. assert (In m (List.filter (mail_due t) (d_mail (s_db (n_server s))))) as [Hin _]%filter_In; [|done].
    rewrite <- (take_drop 20 (List.filter _ _)). apply in_app_iff. by left. }
  exists t, n', s'. split; [exact E'|]. by split.
Qed.

(** ** A queue of one message *)
Module Post.
#[local] Existing Instance Scenario.platform.
Definition refused (f : failure) : string := "errore".
Definition relay : mail_settings := MailSettings 1 "mail.example" 465 true "archivio@example.it" "ufficio@example.it".
Definition notice : mail_message := MailMessage 1 "report:1" "report" "OnlyBackup: report periodico" "Esito: OK" 100 0 100 0 "".
Definition waiting_node : node := Node (Server (initial_db <| d_mail := [notice] |>) ∅ ∅ ∅ 0) (Fs ∅ ∅) [] false.
Definition noon (n : nat) : Z := 1000 * Second.
(** The mail server takes the message, and the answer is lost. *)
Definition cut (n : nat) : fate := if Nat.eqb n 4 then FailsLate NoSpace else Works.
Lemma sent_mail_taken_witness :
  map fst (n_outbox (snd (snd (deliverMail refused true alone cut noon relay (0%nat, waiting_node))))) = [relay] /\
  accounted (snd (snd (deliverMail refused true alone cut noon relay (0%nat, waiting_node)))).
Proof.
  split; [vm_compute; reflexivity|]. apply (sent_mail_taken refused true alone cut noon relay 0%nat waiting_node); [done|apply _|].
  intros i (m & [<-|[]] & <- & Hs). by destruct Hs.
Defined.
End Post.
