(* ===== verification/Reading.v ===== *)
(** Runs of the maintenance process on the archive of a scenario: a snapshot, a cycle. *)
From S2P Require Import Prelude GoTime GoFloat GoString Model Policy Schedule Forecast Catalog Anomalies Automation Retention RetentionMachine Deposit Checks Mail.
From S2P Require Import Store Archive Io Writer Custody Executor Execution Api Serving Files Snapshot Report Monitor Cycle Slots System Closing.

(** ** A reading *)
Module Read.
Import Life.
#[local] Existing Instance Scenario.platform.
Definition reads_snapshot (fate_of : nat -> fate) : option (result failure snapshot) * (nat * server) :=
  readSnapshot error_text decode alone fate_of (w_clock calm) (w_tokens calm) 0 (0%nat, after_upload).
Lemma after_custody : custody true after_upload.
Proof. exact (reachable_custody _ _ _ _ after_reachable). Qed.
Lemma after_valid : valid_ids (ids (s_db after_upload)).
Proof. unfold valid_ids. apply Forall_forall. vm_compute. intros x [->|Hx]%elem_of_cons; [done|]. by apply elem_of_nil in Hx. Qed.

Lemma snapshot_complete_witness : exists v n' s', reads_snapshot faultless = (Some (Ok v), (n', s')) /\
  NoDup (map b_ID (sn_Backups v)) /\ StronglySorted (precedes latest_first) (sn_Backups v) /\
  (forall b, In b (d_backups (s_db after_upload)) -> exists x, In x (sn_Backups v) /\ descends b x) /\
  (forall x, In x (sn_Backups v) -> has_row x s').
Proof.
  destruct (reads_snapshot faultless) as [r [n' s']] eqn:E.
  assert (exists v, r = Some (Ok v)) as [v ->] by (apply (f_equal fst) in E; vm_compute in E; rewrite <- E; by eexists).
  exists v, n', s'. split; [done|].
  exact (snapshot_complete true error_text decode alone faultless (w_clock calm) (w_tokens calm) 0 0%nat after_upload
    v n' s' _ _ after_custody after_valid E).
Defined.

End Read.

(** ** A cycle *)
Module Run.
Import Life.
#[local] Existing Instance Scenario.platform.
#[local] Instance mean_of_two : Trigonometry := {| f_cos x := x; f_sin x := x; f_atan2 _ _ := f_of_int 2 |}.
Definition disk (n : nat) : statfs_t := Statfs 1000000 900000 900000 4096.
Definition started : node := Node after_upload (Fs ∅ ∅) [] false.
Definition ran : option (result failure unit) * (nat * node) :=
  RunOnce true error_text decode (fun _ => "{}") (fun _ => "{}") (fun _ => (no_state, None)) "maintenance" true disk alone faultless
    (w_clock calm) (w_tokens calm) (fun _ => None) 1 (0%nat, started).

Lemma cycle_closes_witness : fst ran = Some (Ok tt) /\
  exists r n' s', RunOnce true error_text decode (fun _ => "{}") (fun _ => "{}") (fun _ => (no_state, None)) "maintenance" true disk alone faultless
    (w_clock calm) (w_tokens calm) (fun _ => None) 1 (0%nat, started) = (Some r, (n', s')) /\ n_locked s' = false /\
  ((exists t e, AcquireMaintenanceLease "maintenance" 0 t maintenanceLeaseDuration (s_db (n_server started)) = Err e /\ r = Err (Failed e) /\
      n_server s' = n_server started) \/
   (l_Generation (d_lease (s_db (n_server s'))) = l_Generation (d_lease (s_db (n_server started))) + 1 /\
    l_ExpiresAt (d_lease (s_db (n_server s'))) = 0 /\
    Forall (fun c => c_Status c <> CheckRunning) (d_checks (s_db (n_server s'))))).
Proof.
  split; [vm_compute; reflexivity|].
  refine (cycle_closes true error_text decode (fun _ => "{}") (fun _ => "{}") (fun _ => (no_state, None)) "maintenance" true disk
    (w_clock calm) (w_tokens calm) (fun _ => None) 1 1 _ 0%nat started _ _ _); [lia|reflexivity|done|vm_compute; reflexivity].
Defined.
End Run.
