(* ===== verification/Flags.v ===== *)
(** Command-line flags: what the commands of [src/internal/localcli] use of Go's [flag]
    and [strconv]. *)
From S2P Require Import Prelude GoTime GoString Model GoFloat.
From Stdlib Require Import Ascii.

(** ** Numbers *)
(** [strconv.ParseInt(s, 0, 64)]: the base is that of the prefix, and underscores may
    separate digits. *)
Definition byte_of (c : ascii) : Z := Z.of_N (N_of_ascii c).
Definition digit_of (b : Z) : option Z :=
  if between 48 57 b then Some (b - 48)
  else if between 97 122 (lower_byte b) then Some (lower_byte b - 97 + 10) else None.
Definition is_base (letter b : Z) : bool := lower_byte b =? letter.
(** The base, and the digits after the prefix. *)
Definition base_of (bs : list Z) : Z * list Z :=
  match bs with
  | 48 :: rest =>
    match rest with
    | b :: (_ :: _) as digits =>
      if is_base 98 b then (2, tl rest) else if is_base 111 b then (8, tl rest) else if is_base 120 b then (16, tl rest) else (8, rest)
    | _ => (8, rest)
    end
  | _ => (10, bs)
  end.
Fixpoint digits_value (base acc : Z) (bs : list Z) : option Z :=
  match bs with
  | [] => Some acc
  | 95 :: rest => digits_value base acc rest
  | b :: rest =>
    match digit_of b with
    | Some d => if d <? base then digits_value base (acc * base + d) rest else None
    | None => None
    end
  end.
(** Underscores stand between digits, or after the prefix of the base. *)
Inductive before_byte : Type := AtStart | AfterDigit | AfterUnderscore | AfterOther.
Fixpoint underscores_between (hex : bool) (before : before_byte) (bs : list Z) : bool :=
  match bs with
  | [] => match before with AfterUnderscore => false | _ => true end
  | b :: rest =>
    if between 48 57 b || (hex && between 97 102 (lower_byte b)) then underscores_between hex AfterDigit rest
    else if b =? 95 then match before with AfterDigit => underscores_between hex AfterUnderscore rest | _ => false end
    else match before with AfterUnderscore => false | _ => underscores_between hex AfterOther rest end
  end.
Definition underscoreOK (bs : list Z) : bool :=
  match bs with
  | 48 :: b :: rest =>
    if is_base 98 b || is_base 111 b || is_base 120 b then underscores_between (is_base 120 b) AfterDigit rest
    else underscores_between false AtStart bs
  | _ => underscores_between false AtStart bs
  end.
Definition parse_uint (bs : list Z) : option Z :=
  match bs with
  | [] => None
  | _ =>
    let '(base, digits) := base_of bs in
    v ← digits_value base 0 digits;
    if existsb (Z.eqb 95) digits && negb (underscoreOK bs) then None else Some v
  end.
Definition ParseInt (s : string) : option Z :=
  let '(negative, digits) := match bytes s with 45 :: rest => (true, rest) | 43 :: rest => (false, rest) | bs => (false, bs) end in
  v ← parse_uint digits;
  if (negative : bool) then if v <=? 2^63 then Some (- v) else None else if v <? 2^63 then Some v else None.

(** [strconv.Atoi]: decimal digits after a sign. *)
Definition Atoi (s : string) : option Z :=
  let '(negative, digits) := match bytes s with 45 :: rest => (true, rest) | 43 :: rest => (false, rest) | bs => (false, bs) end in
  if bool_decide (digits = []) || negb (forallb (between 48 57) digits) then None
  else
    let v := decimal digits in
    if (negative : bool) then if v <=? 2^63 then Some (- v) else None else if v <? 2^63 then Some v else None.

Definition ParseBool (s : string) : option bool :=
  if existsb (String.eqb s) ["1"; "t"; "T"; "true"; "TRUE"; "True"]%string then Some true
  else if existsb (String.eqb s) ["0"; "f"; "F"; "false"; "FALSE"; "False"]%string then Some false
  else None.

(** ** Durations *)
(** [time.ParseDuration].  The bytes of [µ] are [U+00B5] or [U+03BC]. *)
Definition duration_units : list (list Z * Z) :=
  [ ([110; 115], 1); ([117; 115], 1000); ([194; 181; 115], 1000); ([206; 188; 115], 1000); ([109; 115], 1000000);
    ([115], 1000000000); ([109], 60000000000); ([104], 3600000000000) ].
Definition is_digit (b : Z) : bool := between 48 57 b.
(** [leadingInt]: [None] is an overflow. *)
Fixpoint leading_int (x : Z) (bs : list Z) : option (Z * list Z) :=
  match bs with
  | b :: rest =>
    if is_digit b then
      if 2^63 / 10 <? x then None
      else let x' := x * 10 + (b - 48) in if 2^63 <? x' then None else leading_int x' rest
    else Some (x, bs)
  | [] => Some (x, [])
  end.
(** [leadingFraction]: the digits that still count, and ten to their number. *)
Fixpoint leading_fraction (x : Z) (scale : float64) (overflow : bool) (bs : list Z) : Z * float64 * list Z :=
  match bs with
  | b :: rest =>
    if is_digit b then
      let x' := x * 10 + (b - 48) in
      if overflow || ((2^63 - 1) / 10 <? x) || (2^63 <? x') then leading_fraction x scale true rest
      else leading_fraction x' (f_mul scale (f_of_int 10)) false rest
    else (x, scale, bs)
  | [] => (x, scale, [])
  end.
Fixpoint span_unit (bs : list Z) : list Z * list Z :=
  match bs with
  | b :: rest => if (b =? 46) || is_digit b then ([], bs) else let '(u, rest') := span_unit rest in (b :: u, rest')
  | [] => ([], [])
  end.
(** One number with its unit: its nanoseconds and what follows. *)
Definition duration_term (bs : list Z) : option (Z * list Z) :=
  '(v, rest) ← leading_int 0 bs;
  let pre := negb (length rest =? length bs)%nat in
  let '(f, scale, rest', post) :=
    match rest with
    | 46 :: digits => let '(f, scale, rest') := leading_fraction 0 (f_of_int 1) false digits in (f, scale, rest', negb (length rest' =? length digits)%nat)
    | _ => (0, f_of_int 1, rest, false)
    end in
  if negb pre && negb post then None
  else
    let '(u, rest'') := span_unit rest' in
    '(_, unit) ← find_where (fun entry => bool_decide (fst entry = u)) duration_units;
    if 2^63 / unit <? v then None
    else
      let v' := v * unit + (if 0 <? f then f_floor (f_mul (f_of_int f) (f_div (f_of_int unit) scale)) else 0) in
      if (0 <? f) && (2^63 <? v') then None else Some (v', rest'').
Fixpoint duration_terms (fuel : nat) (d : Z) (bs : list Z) : option Z :=
  match bs, fuel with
  | [], _ => Some d
  | _, O => None
  | _, S fuel' =>
    '(v, rest) ← duration_term bs;
    if 2^63 <? d + v then None else duration_terms fuel' (d + v) rest
  end.
(** Each term takes a byte at least: there are turns enough. *)
Definition ParseDuration (s : string) : option Z :=
  let '(negative, bs) := match bytes s with 45 :: rest => (true, rest) | 43 :: rest => (false, rest) | bs => (false, bs) end in
  match bs with
  | [] => None
  | [48] => Some 0
  | _ =>
    d ← duration_terms (length bs) 0 bs;
    if (negative : bool) then Some (- d) else if 2^63 - 1 <? d then None else Some d
  end.

(** ** A set of flags, with their values *)
Inductive flag_value : Type := FlagString (value : string) | FlagInt (value : Z) | FlagBool (value : bool) | FlagDuration (value : Z).
Definition flag_set : Type := list (string * flag_value).
Definition ErrHelp : err := ErrText "flag: help requested".
Definition set_value (v : flag_value) (text : string) : option flag_value :=
  match v with
  | FlagString _ => Some (FlagString text)
  | FlagInt _ => FlagInt <$> ParseInt text
  | FlagBool _ => FlagBool <$> ParseBool text
  | FlagDuration _ => FlagDuration <$> ParseDuration text
  end.
Definition formal (flags : flag_set) (name : string) : option flag_value := snd <$> find_where (fun entry => String.eqb (fst entry) name) flags.
Definition with_flag (flags : flag_set) (name : string) (v : flag_value) : flag_set :=
  map (fun entry => if String.eqb (fst entry) name then (name, v) else entry) flags.
(** An argument: not a flag, the end of the flags, a flag with a value after [=] or none. *)
Inductive flag_argument : Type := NotFlag | Terminator | BadFlag | Flag (name : string) (value : option string).
Fixpoint cut_equal (s : string) : string * option string :=
  match s with
  | EmptyString => (EmptyString, None)
  | String "="%char s' => (EmptyString, Some s')
  | String c s' => let '(name, value) := cut_equal s' in (String c name, value)
  end.
Definition flag_name (s : string) : flag_argument :=
  match s with
  | EmptyString | String "-"%char _ | String "="%char _ => BadFlag
  | _ => let '(name, value) := cut_equal s in Flag name value
  end.
Definition argument_of (s : string) : flag_argument :=
  match s with
  | String "-"%char EmptyString => NotFlag
  | String "-"%char (String "-"%char EmptyString) => Terminator
  | String "-"%char (String "-"%char name) => flag_name name
  | String "-"%char name => flag_name name
  | _ => NotFlag
  end.
Definition is_bool (v : flag_value) : bool := match v with FlagBool _ => true | _ => false end.
(** [FlagSet.Parse]: the flags set, and the arguments that are left. *)
Fixpoint parse_flags (flags : flag_set) (args : list string) : result err (flag_set * list string) :=
  match args with
  | [] => Ok (flags, [])
  | s :: rest =>
    match argument_of s with
    | NotFlag => Ok (flags, args)
    | Terminator => Ok (flags, rest)
    | BadFlag => Err (ErrText ("bad flag syntax: " ++ s))
    | Flag name value =>
      match formal flags name with
      | None => Err (if String.eqb name "help" || String.eqb name "h" then ErrHelp else ErrText ("flag provided but not defined: -" ++ name))
      | Some v =>
        let set text rest' :=
          match set_value v text with
          | None => Err (ErrText ("invalid value for flag -" ++ name))
          | Some v' => parse_flags (with_flag flags name v') rest'
          end in
        match value with
        | Some text => set text rest
        | None =>
          if is_bool v then set "true" rest
          else match rest with
               | text :: rest' =>
                 match set_value v text with
                 | None => Err (ErrText ("invalid value for flag -" ++ name))
                 | Some v' => parse_flags (with_flag flags name v') rest'
                 end
               | [] => Err (ErrText ("flag needs an argument: -" ++ name))
               end
        end
      end
    end
  end%string.
Definition flag_string (flags : flag_set) (name : string) : string := match formal flags name with Some (FlagString s) => s | _ => "" end.
Definition flag_int (flags : flag_set) (name : string) : Z := match formal flags name with Some (FlagInt z) => z | _ => 0 end.
Definition flag_bool (flags : flag_set) (name : string) : bool := match formal flags name with Some (FlagBool b) => b | _ => false end.
Definition flag_duration (flags : flag_set) (name : string) : Z := match formal flags name with Some (FlagDuration z) => z | _ => 0 end.

Example parse_example : parse_flags [("key", FlagString ""); ("days", FlagInt 0); ("tls", FlagBool true)]%string ["--key=a"; "-days"; "0x1_0"; "--tls=false"; "resto"]%string
  = Ok ([("key", FlagString "a"); ("days", FlagInt 16); ("tls", FlagBool false)], ["resto"])%string.
Proof. reflexivity. Qed.
Example parse_int_examples : map ParseInt ["-0b101"; "017"; "1_000"; "_1"; "1__0"; "9223372036854775808"; "-9223372036854775808"; ""; "0"; "0x"]%string
  = [Some (-5); Some 15; Some 1000; None; None; None; Some (-9223372036854775808); None; Some 0; None].
Proof. vm_compute. reflexivity. Qed.
Example parse_duration_examples : map ParseDuration ["2h"; "1h15m30.918273645s"; "1.5h"; "-1.5h"; ".5s"; "999ms"; "0"; ""; "1"; "."; "1h-2m"; "2562048h"; "9223372036854775807ns"; "9223372036854775808ns"; "-9223372036854775808ns"; "0.1us"]%string
  = [Some 7200000000000; Some 4530918273645; Some 5400000000000; Some (-5400000000000); Some 500000000; Some 999000000; Some 0; None; None; None; None; None; Some 9223372036854775807; None; Some (-9223372036854775808); Some 100].
Proof. vm_compute. reflexivity. Qed.
