(* ===== verification/GoPath.v ===== *)
(** Paths as strings: what the commands use of Go's [path/filepath] on Unix. *)
From S2P Require Import Prelude GoTime GoString.
From Stdlib Require Import Ascii.

(** The elements between the slashes, with [.] and [..] resolved; [stack]: the elements
    kept so far, the last one first. *)
Fixpoint clean_elements (rooted : bool) (stack elements : list string) : list string :=
  match elements with
  | [] => rev stack
  | e :: rest =>
    if String.eqb e "" || String.eqb e "." then clean_elements rooted stack rest
    else if String.eqb e ".." then
      match stack with
      | top :: below => clean_elements rooted (if String.eqb top ".." then e :: stack else below) rest
      | [] => clean_elements rooted (if rooted then [] else [e]) rest
      end
    else clean_elements rooted (e :: stack) rest
  end.
Definition IsAbs (path : string) : bool := has_prefix "/" path.
Definition elements_of (path : string) : list string := split_at "/"%char path.
Definition Clean (path : string) : string :=
  let out := String.concat "/" (clean_elements (IsAbs path) [] (elements_of path)) in
  if IsAbs path then ("/" ++ out)%string else if String.eqb out "" then "."%string else out.
(** The first elements that are empty do not count. *)
Fixpoint Join (elements : list string) : string :=
  match elements with
  | [] => ""%string
  | e :: rest => if String.eqb e "" then Join rest else Clean (String.concat "/" elements)
  end.
(** Up to the last slash. *)
Definition Dir (path : string) : string := Clean (String.concat "/" (removelast (elements_of path) ++ [""%string])).
Definition Base (path : string) : string :=
  if String.eqb path "" then "."%string else List.last (List.filter (fun e => negb (String.eqb e "")) (elements_of path)) "/"%string.

Example paths_cleaned : map Clean ["./var/onlybackup/writer.sock"; "/a//b/../c/."; "../../x"; "/.."; ""; "a/.."; "/"; "a/../../b"]%string
  = ["var/onlybackup/writer.sock"; "/a/c"; "../../x"; "/"; "."; "."; "/"; "../b"]%string.
Proof. reflexivity. Qed.
Example paths_parted : map Dir ["/etc/c.json"; "c.json"; "/c"; "a/b/"; ""]%string = ["/etc"; "."; "/"; "a/b"; "."]%string
  /\ map Base ["/etc/c.json"; "c.json"; "/"; "a/b//"; ""]%string = ["c.json"; "c.json"; "/"; "b"; "."]%string
  /\ Join ["./var/onlybackup"; "admin.sock"]%string = "var/onlybackup/admin.sock"%string.
Proof. repeat split. Qed.

(** ** What is clean stays as it is *)
(** An element that [Clean] keeps. *)
Definition element (e : string) : Prop := e <> ""%string /\ e <> "."%string /\ split_at "/"%char e = [e].
(** [..] only at the beginning, and only in relative paths; the last element is first. *)
Fixpoint settled (rooted : bool) (stack : list string) : Prop :=
  match stack with
  | [] => True
  | e :: below => element e /\ (e = ".."%string -> rooted = false /\ Forall (eq ".."%string) below) /\ settled rooted below
  end.

Lemma split_slash s : Forall (fun e => split_at "/"%char e = [e]) (split_at "/"%char s).
Proof.
  induction s as [|c s IH]; [by constructor|]. cbn [split_at]. destruct (Ascii.eqb c "/"%char) eqn:Ec; [by constructor|].
  destruct (split_at "/"%char s) as [|e rest]; [by repeat constructor; cbn; rewrite ?Ec|].
  inversion_clear IH. constructor; [|done]. cbn [split_at]. by rewrite Ec, H.
Qed.
Lemma split_concat e l : Forall (fun e => split_at "/"%char e = [e]) (e :: l) -> split_at "/"%char (String.concat "/" (e :: l)) = e :: l.
Proof.
  revert e. induction l as [|e' l IH]; intros e H; inversion_clear H as [|?? He Hl]; [exact He|].
  change (String.concat "/" (e :: e' :: l)) with (e ++ "/" ++ String.concat "/" (e' :: l))%string. specialize (IH e' Hl).
  set (t := String.concat "/" (e' :: l)) in *. clearbody t. revert He. induction e as [|c e IHe]; intros He; [change (""%string :: split_at "/"%char t = ""%string :: e' :: l); by rewrite IH|].
  change (split_at "/"%char (String c e ++ "/" ++ t)) with (split_at "/"%char (String c (e ++ "/" ++ t))). cbn [split_at] in *.
  destruct (Ascii.eqb c "/"%char); [discriminate|]. destruct (split_at "/"%char e) as [|x xs] eqn:Ex; [destruct e; cbn in Ex; [done|by repeat case_match]|].
  injection He as -> ->. by rewrite IHe.
Qed.
Lemma clean_settled rooted elements : forall stack, Forall (fun e => split_at "/"%char e = [e]) elements -> settled rooted stack ->
  exists stack', clean_elements rooted stack elements = rev stack' /\ settled rooted stack'.
Proof.
  induction elements as [|e rest IH]; intros stack He Hs; [by exists stack|]. inversion_clear He as [|?? H1 H2]. cbn [clean_elements].
  destruct (String.eqb_spec e ""); [by apply IH|]. destruct (String.eqb_spec e "."); [by apply IH|]. cbn [orb].
  destruct (String.eqb_spec e "..") as [->|Hne].
  - destruct stack as [|top below]; [apply IH; [done|]; destruct rooted; [done|]; by repeat split|].
    apply IH; [done|]. destruct Hs as (Ht & Hd & Hb). destruct (String.eqb_spec top "..") as [->|]; [|done].
    destruct (Hd eq_refl) as [Hr Hall]. repeat split; try done. by constructor.
  - apply IH; [done|]. by repeat split.
Qed.
Lemma clean_again rooted stack : forall stack0, settled rooted (stack ++ stack0) ->
  clean_elements rooted stack0 (rev stack) = rev (stack ++ stack0).
Proof.
  induction stack as [|e stack IH] using rev_ind; intros stack0 H; [done|].
  rewrite rev_app_distr. cbn [rev app clean_elements]. rewrite <- app_assoc in H. cbn [app] in H.
  assert (settled rooted (e :: stack0)) as (He & Hd & H0).
  { clear IH. induction stack as [|x stack IH]; [done|]. apply IH, H. }
  destruct He as (E1 & E2 & E3). rewrite (proj2 (String.eqb_neq _ _) E1), (proj2 (String.eqb_neq _ _) E2). cbn [orb].
  destruct (String.eqb_spec e "..") as [->|Hne].
  - destruct (Hd eq_refl) as [-> Hall]. assert (stack0 = [] \/ exists below, stack0 = ".."%string :: below) as [->|[below ->]].
    { destruct stack0; [by left|right]. inversion_clear Hall. subst. by eexists. }
    + by rewrite IH, <- app_assoc.
    + cbn [String.eqb Ascii.eqb Bool.eqb]. change (String.eqb ".." "..") with true. cbn match. by rewrite IH, <- app_assoc.
  - by rewrite IH, <- app_assoc.
Qed.
Lemma clean_elements_again rooted elements : Forall (fun e => split_at "/"%char e = [e]) elements ->
  clean_elements rooted [] (clean_elements rooted [] elements) = clean_elements rooted [] elements.
Proof.
  intros He. destruct (clean_settled rooted elements [] He) as (stack & -> & Hs); [done|].
  rewrite <- (app_nil_r stack) at 2. by rewrite (clean_again rooted stack), app_nil_r by by rewrite app_nil_r.
Qed.
Lemma settled_elements rooted stack : settled rooted stack -> Forall element stack.
Proof. induction stack as [|e stack IH]; intros H; constructor; [apply H|apply IH, H]. Qed.
Lemma element_relative e : element e -> IsAbs e = false.
Proof.
  intros (H1 & _ & H3). destruct e as [|c e]; [done|]. unfold IsAbs, has_prefix. cbn [String.prefix]. cbn [split_at] in H3.
  destruct (Ascii.eqb_spec c "/"%char) as [->|Hc]; [discriminate|]. destruct (Ascii.ascii_dec "/" c); [congruence|done].
Qed.
Lemma concat_relative l : Forall element l -> l <> [] -> IsAbs (String.concat "/" l) = false.
Proof.
  intros [|e l' He _] Hl; [done|]. apply element_relative in He as Hr. destruct l' as [|e' l']; [exact Hr|].
  change (String.concat "/" (e :: e' :: l')) with (e ++ "/" ++ String.concat "/" (e' :: l'))%string.
  destruct e as [|c e]; [by destruct He|]. unfold IsAbs, has_prefix in *.
  change (String.prefix "/" (String c (e ++ "/" ++ String.concat "/" (e' :: l'))) = false). cbn [String.prefix] in *. destruct (Ascii.ascii_dec "/" c); [destruct e; discriminate Hr|reflexivity].
Qed.
Lemma IsAbs_slash path : IsAbs ("/" ++ path) = true.
Proof. by destruct path. Qed.
Lemma Clean_Clean path : Clean (Clean path) = Clean path.
Proof.
  unfold Clean. cbv zeta. pose proof (clean_elements_again (IsAbs path) (elements_of path) (split_slash path)) as Hagain.
  destruct (clean_settled (IsAbs path) (elements_of path) [] (split_slash path)) as (stack & E & Hs); [done|]. rewrite E in Hagain |- *.
  assert (Forall element (rev stack)) as He by (apply Forall_rev, (settled_elements _ _ Hs)).
  assert (forall r, rev stack <> [] -> clean_elements r [] (elements_of (String.concat "/" (rev stack))) = clean_elements r [] (rev stack)) as Hsplit.
  { intros r Hne. unfold elements_of. destruct (rev stack) as [|e l]; [done|]. rewrite split_concat; [done|].
    eapply Forall_impl; [exact He|]. by intros x (_ & _ & H). }
  destruct (IsAbs path) eqn:Er.
  - rewrite IsAbs_slash. f_equal. f_equal.
    change (elements_of ("/" ++ String.concat "/" (rev stack))) with (""%string :: elements_of (String.concat "/" (rev stack))).
    cbn [clean_elements]. change (String.eqb "" "") with true. cbn [orb]. destruct (rev stack) as [|e l] eqn:El; [done|]. by rewrite Hsplit.
  - destruct (String.eqb_spec (String.concat "/" (rev stack)) "") as [Ez|Ez]; [done|]. assert (rev stack <> []) as Hne by (intros Hn; by rewrite Hn in Ez).
    by rewrite (concat_relative _ He Hne), Hsplit, Hagain, (proj2 (String.eqb_neq _ _) Ez).
Qed.
