(* ===== verification/Console.v ===== *)
(** The commands of the administrator: what they read from the terminal, what they ask
    the writer, what they do to the catalogue and to the file of a new key
    ([src/internal/localcli/retention.go], [src/internal/localcli/admin.go],
    [src/internal/localcli/inspect.go]). *)
From S2P Require Import Prelude GoTime GoFloat GoString Model Policy Schedule Forecast Catalog Anomalies Automation Retention RetentionMachine Deposit Checks Mail.
From S2P Require Import Store Archive Io Writer Custody Executor Execution Watch Api Files Cryptfile Encryption Private Snapshot Flags.
From Stdlib Require Import Ascii.

(** ** The desk of the administrator

    The archive, the files of the computer, what will be typed, what was printed, and
    what was asked on the socket: a method, a path, and the fields of the body. *)
Inductive shown : Type :=
| Answer (p : payload)
| ShownSelection (value : selection)
| ShownProfiles (profiles : list profile)
| ShownKeys (keys : list key)
| ShownQuota (value : quota)
| ShownPairs (pairs : list (string * string)).
Inductive output : Type := Text (text : string) | Json (value : shown).
Record asked : Type := Asked { as_Method : http_method; as_Path : string; as_Fields : fields }.
Record desk : Type := Desk { dk_server : server; dk_files : fs; dk_input : string; dk_output : list output; dk_asked : list asked }.
#[global] Instance eta_desk : Settable desk := fun s => Desk (dk_server s) (dk_files s) (dk_input s) (dk_output s) (dk_asked s).

#[global] Instance eta_fields : Settable fields := fun f => Fields (f_ID f) (f_Owner f) (f_Generation f) (f_Seconds f) (f_Ticket f) (f_Done f)
  (f_Error f) (f_Outcome f) (f_Summary f) (f_State f) (f_Revision f) (f_Findings f) (f_Backup f) (f_Origin f) (f_Actor f) (f_Reason f) (f_Key f)
  (f_Days f) (f_Finding f) (f_Timezone f) (f_Model f) (f_Reliable f) (f_Review f) (f_StableID f) (f_Subject f) (f_Text f) (f_Periodic f)
  (f_ConfigVersion f) (f_Settings f) (f_Mode f) (f_Confirmation f) (f_StartsAt f) (f_EndsAt f) (f_Kinds f).
Definition no_fields : fields :=
  Fields 0 "" 0 0 "" false "" "" "" "" 0 [] "" "" "" "" "" 0 (Finding "" "" "" "" "" 0) "" "" false false "" "" "" false 0
    (MailSettings 0 "" 0 false "" "") "" "" 0 0 [].

(** ** Texts *)
Fixpoint split_line (s : string) : option (string * string) :=
  match s with
  | EmptyString => None
  | String "010"%char s' => Some (EmptyString, s')
  | String c s' => match split_line s' with Some (line, rest) => Some (String c line, rest) | None => None end
  end.
Definition kinds_of (value : string) : list string :=
  List.filter (fun v => negb (String.eqb v "")) (map trim_space (split_at ","%char value)).

(** The time zone of the computer: [/etc/timezone], the link [/etc/localtime], [TZ],
    and the name of the zone of the process. *)
Record host : Type := Host {
  ho_timezone : option string; ho_localtime : option string; ho_TZ : string; ho_Local : string; ho_zone : location;
  ho_account : option string; ho_uid : Z }.
Definition detectedTimezone `{Platform} (h : host) : string :=
  let loads name := is_ok (LoadLocation name) in
  let from_file := match ho_timezone h with Some data => let value := trim_space data in if negb (String.eqb value "") && loads value then Some value else None | None => None end in
  let from_link := match ho_localtime h with
    | Some target => match cut_text "zoneinfo/" target with Some (_, value) => if loads value then Some value else None | None => None end
    | None => None end in
  match from_file, from_link with
  | Some value, _ => value
  | None, Some value => value
  | None, None => if negb (String.eqb (ho_TZ h) "") && loads (ho_TZ h) then ho_TZ h else ho_Local h
  end.
Definition actorName (h : host) : string := match ho_account h with Some name => name | None => ("uid:" ++ pretty (ho_uid h))%string end.
Definition unixTime (h : host) (value : Z) : string := if value =? 0 then "-" else format_rfc3339 (ho_zone h) (of_unix value).
Definition bool_text (b : bool) : string := if b then "true" else "false".

Section console.
Context `{Platform} (error_text : failure -> string) (decode : string -> string -> result err fields) (encode : string -> fields -> string).
Context (h : host) (stat : nat -> filesystem).
Context (env : nat -> server -> server) (fate_of : nat -> fate) (clock : nat -> Z) (tokens ids : nat -> string) (short : nat -> option Z).

Abbreviation io := (Io.io desk).
Abbreviation act := (Io.act alone fate_of).
Abbreviation now := (Io.now clock).
Definition on_archive {A} (m : Io.io server A) : io A := fun '(n, s) =>
  let '(r, (n', v)) := m (n, dk_server s) in (r, (n', s <| dk_server := v |>)).
Definition on_disk {A} (m : Io.io fs A) : io A := fun '(n, s) =>
  let '(r, (n', v)) := m (n, dk_files s) in (r, (n', s <| dk_files := v |>)).

(** *** The terminal *)
(** [fmt.Fprint]: its error is ignored. *)
Definition say (text : string) : io unit :=
  _ ← act (fun s => (Ok tt, s <| dk_output ::= fun l => l ++ [Text text] |>)); mret tt.
Definition Print (v : shown) : io (result failure unit) := act (fun s => (Ok tt, s <| dk_output ::= fun l => l ++ [Json v] |>)).
Definition readLine : io (result failure string) := act (fun s =>
  match split_line (dk_input s) with
  | Some (line, rest) => (Ok (trim_space line), s <| dk_input := rest |>)
  | None => (Err (Failed (ErrText "EOF")), s <| dk_input := "" |>)
  end).
Definition failed {A} (text : string) : io (result failure A) := mret (Err (Failed (ErrText text))).

(** *** The socket *)
Definition noted (a : asked) : io unit := fun '(n, s) => (Some tt, (n, s <| dk_asked ::= fun l => l ++ [a] |>)).
Definition ask_with (query : string -> string) (method : http_method) (path : string) (f : fields) : io (result failure payload) :=
  _ ← noted (Asked method path f);
  on_archive (Io.rpc env fate_of (
    r ← handler decode env fate_of clock tokens true (HttpRequest ProtocolVersion method path query true (encode path f));
    mret (accepted error_text r))).
Definition ask := ask_with no_query.
Definition undecoded {A} : io (result failure A) := mret (Err undecodable).
(** [call("POST", …, &response)], and the response is printed. *)
Definition order (path : string) (f : fields) : io (result failure unit) :=
  response ←? ask POST path f;
  Print (Answer response).
Definition look (path : string) : io (result failure unit) :=
  response ←? ask GET path no_fields;
  Print (Answer response).

Definition confirmRetentionChange (provided expected description : string) : io (result failure unit) :=
  given ←? (if String.eqb provided "" then
              _ ← say (description ++ newline ++ "Digitare " ++ expected ++ " per confermare: ");
              line ← readLine;
              mret (match line with Ok text => Ok text | Err _ => Err (Failed (ErrText "conferma non ricevuta; nessuna modifica")) end)
            else mret (Ok provided));
  if String.eqb given expected then mret (Ok tt)
  else failed ("conferma non corrispondente: richiesta " ++ expected ++ "; nessuna modifica").
(** The flags of a command; nothing may follow them. *)
Definition parsed (flags : flag_set) (args : list string) : io (result failure flag_set) :=
  mret (match parse_flags flags args with
        | Err e => Err (Failed e)
        | Ok (values, []) => Ok values
        | Ok (_, rest) => Err (Failed (ErrText ("argomenti inattesi: " ++ String.concat " " rest)))
        end).

(** ** Commands on the socket *)
Definition no_arguments (args : list string) (text : string) (m : io (result failure unit)) : io (result failure unit) :=
  match args with [] => m | _ => failed text end.
Definition setup_flags : flag_set :=
  [ ("smtp-host", FlagString ""); ("smtp-port", FlagInt 25); ("smtp-tls", FlagBool true); ("from", FlagString ""); ("to", FlagString "");
    ("timezone", FlagString (detectedTimezone h)); ("retention", FlagString ""); ("confirm", FlagString "") ]%string.
Definition setup_description (mode : string) : string :=
  if String.eqb mode "" then "Configurazione mail e nuovo apprendimento. Conserva la scelta retention esistente (automatica per un nuovo archivio); le pause manuali restano attive."
  else "Configurazione mail e nuovo apprendimento. Modalità retention scelta: " ++ mode ++ ". Le pause manuali restano attive.".
Definition automation_setup (args : list string) : io (result failure unit) :=
  f ←? parsed setup_flags args;
  let mode := flag_string f "retention" in
  if negb (String.eqb mode "") && negb (String.eqb mode "auto") && negb (String.eqb mode "manual") then failed "specificare --retention auto oppure manual"
  else
    let expected := ConfirmAutomationSetup mode in
    _ ←? confirmRetentionChange (flag_string f "confirm") expected (setup_description mode);
    order "/v1/automation/setup" (no_fields
      <| f_Settings := MailSettings 0 (flag_string f "smtp-host") (flag_int f "smtp-port") (flag_bool f "smtp-tls") (flag_string f "from") (flag_string f "to") |>
      <| f_Timezone := flag_string f "timezone" |> <| f_Mode := mode |> <| f_Confirmation := expected |>).
Definition automation (args : list string) : io (result failure unit) :=
  match args with
  | [] => failed "automation richiede setup o status"
  | command :: rest =>
    if String.eqb command "status" then no_arguments rest "automation status non accetta argomenti" (look "/v1/status")
    else if String.eqb command "setup" then automation_setup rest
    else failed "comando automation sconosciuto"
  end.
Definition mail_command (args : list string) : io (result failure unit) :=
  match args with
  | [command] => if String.eqb command "test" then order "/v1/mail/test" no_fields else failed "mail richiede test"
  | _ => failed "mail richiede test"
  end.

(** What would be deleted now. *)
Definition inventory : Type := automation_status * list key * list backup * list (string * string).
Definition loadInventory : io (result failure inventory) :=
  p ←? ask GET "/v1/inventory" no_fields;
  match p with PInventory status keys backups models => mret (Ok (status, keys, backups, models)) | _ => undecoded end.
Definition statfs_now : io (result failure filesystem) := fun '(n, s) => act (fun s => (Ok (stat n), s)) (n, s).
Fixpoint known_models (models : gmap string string) (keys : list key) : result failure (list key_model) :=
  match keys with
  | [] => Ok []
  | k :: rest =>
    if k_Revoked k then known_models models rest
    else match models !! k_ID k with
         | None => known_models models rest
         | Some raw =>
           match json_model raw with
           | Err e => Err (Failed e)
           | Ok learned => match known_models models rest with Ok more => Ok (learned :: more) | Err e => Err e end
           end
         end
  end.
Definition revoked_keys (keys : list key) : gmap string bool := list_to_map (rev (map (fun k => (k_ID k, k_Revoked k)) keys)).
Definition simulated (t : Z) (status : automation_status) (fs : filesystem) (keys : list key) (backups : list backup) (models : list (string * string))
    : result failure selection :=
  let revoked := revoked_keys keys in
  match pending_bytes status (fun k => default false (revoked !! k)) t 0 backups with
  | Err e => Err e
  | Ok pending =>
    match known_models (list_to_map models) keys with
    | Err e => Err e
    | Ok learned =>
      match Forecast48Hours LoadLocation learned t with
      | Err e => Err (Failed e)
      | Ok expected48h =>
        match Select LoadLocation (SelectionInput t (as_Timezone status) fs (as_ThresholdBasis status) (as_RetentionDays status)
                       (as_KeyRetentionDays status) expected48h pending backups revoked) with
        | Err e => Err (Failed e)
        | Ok selection => Ok selection
        end
      end
    end
  end.
Definition simulateRetention : io (result failure unit) :=
  t ← now;
  p ←? ask GET "/v1/status" no_fields;
  match p with
  | PSettings status =>
    i ←? loadInventory;
    let '(_, keys, backups, models) := i in
    fs ←? statfs_now;
    selection ←? mret (simulated t status fs keys backups models);
    Print (ShownSelection selection)
  | _ => undecoded
  end.

Definition retention_enable (args : list string) : io (result failure unit) :=
  f ←? parsed [("confirm", FlagString "")]%string args;
  _ ←? confirmRetentionChange (flag_string f "confirm") ConfirmRetentionEnable "Abilita la retention. I blocchi e i requisiti di sicurezza restano validi.";
  order "/v1/automation/enable" (no_fields <| f_Confirmation := ConfirmRetentionEnable |>).
Definition retention_minimum (args : list string) : io (result failure unit) :=
  f ←? parsed [("key", FlagString ""); ("days", FlagInt 0)]%string args;
  if negb (ValidID (flag_string f "key")) || (flag_int f "days" <? MinimumDays) then failed "specificare --key ID e --days (almeno 7)"
  else order "/v1/retention/minimum" (no_fields <| f_Key := flag_string f "key" |> <| f_Days := flag_int f "days" |>).
Definition retention_pause (args : list string) : io (result failure unit) :=
  f ←? parsed [("reason", FlagString "sospensione amministrativa"); ("confirm", FlagString "")]%string args;
  _ ←? confirmRetentionChange (flag_string f "confirm") ConfirmRetentionPause
         "Sospendi nuove cancellazioni e annulla le attivazioni prenotate. La pausa resta attiva fino a una ripresa esplicita.";
  order "/v1/retention/pause" (no_fields <| f_Reason := flag_string f "reason" |> <| f_Confirmation := ConfirmRetentionPause |>).
Definition resume_choice (whenReady : bool) : string * string * string :=
  if whenReady then
    ("/v1/retention/resume-when-ready", ConfirmRetentionResumeWhenReady,
     "Abilita la retention e prenota un solo sblocco della pausa attuale al prossimo controllo valido. Non servirà un'altra conferma alla conclusione del controllo.")
  else ("/v1/retention/resume", ConfirmRetentionResume,
        "Rimuovi la pausa attuale se il controllo recente è valido. Le cancellazioni rispettano soglia e protezioni delle copie.").
Definition retention_resume (args : list string) : io (result failure unit) :=
  f ←? parsed [("when-ready", FlagBool false); ("confirm", FlagString "")]%string args;
  let '(path, expected, description) := resume_choice (flag_bool f "when-ready") in
  _ ←? confirmRetentionChange (flag_string f "confirm") expected description;
  order path (no_fields <| f_Confirmation := expected |>).
Definition retention (args : list string) : io (result failure unit) :=
  match args with
  | [] => failed "retention richiede simulate, minimum, enable, pause o resume"
  | command :: rest =>
    if String.eqb command "simulate" then no_arguments rest "retention simulate non accetta argomenti" simulateRetention
    else if String.eqb command "enable" then retention_enable rest
    else if String.eqb command "minimum" then retention_minimum rest
    else if String.eqb command "pause" then retention_pause rest
    else if String.eqb command "resume" then retention_resume rest
    else failed "comando retention sconosciuto"
  end.

(** *** Monitoring *)
Definition printMonitoringChecks (limit : Z) : io (result failure unit) :=
  p ←? ask_with (fun name => if String.eqb name "limit" then pretty limit else ""%string) GET "/v1/monitoring-checks" no_fields;
  Print (Answer p).
Definition monitoring_exclude (args : list string) : io (result failure unit) :=
  f ←? parsed [("id", FlagInt 0); ("from", FlagString ""); ("to", FlagString ""); ("kinds", FlagString ""); ("reason", FlagString "")]%string args;
  match parse_rfc3339 (flag_string f "from") with
  | None => failed "--from deve essere RFC3339"
  | Some startsAt =>
    match parse_rfc3339 (flag_string f "to") with
    | None => failed "--to deve essere RFC3339"
    | Some endsAt =>
      order "/v1/monitoring/exclude" (no_fields <| f_ID := flag_int f "id" |> <| f_StartsAt := unix startsAt |> <| f_EndsAt := unix endsAt |>
        <| f_Actor := actorName h |> <| f_Reason := flag_string f "reason" |> <| f_Kinds := kinds_of (flag_string f "kinds") |>)
    end
  end.
Definition monitoring (args : list string) : io (result failure unit) :=
  match args with
  | [] => failed "monitoring richiede checks, relearn, anomalies, exclusions, acknowledge o exclude"
  | command :: rest =>
    if String.eqb command "checks" then
      f ←? parsed [("limit", FlagInt 20)]%string rest;
      printMonitoringChecks (flag_int f "limit")
    else if String.eqb command "relearn" then no_arguments rest "monitoring relearn non accetta argomenti" (order "/v1/monitoring/relearn" no_fields)
    else if String.eqb command "anomalies" then no_arguments rest "monitoring anomalies non accetta argomenti" (look "/v1/anomalies")
    else if String.eqb command "exclusions" then no_arguments rest "monitoring exclusions non accetta argomenti" (look "/v1/anomaly-exclusions")
    else if String.eqb command "acknowledge" then
      f ←? parsed [("id", FlagInt 0)]%string rest;
      order "/v1/monitoring/acknowledge" (no_fields <| f_ID := flag_int f "id" |>)
    else if String.eqb command "exclude" then monitoring_exclude rest
    else failed "comando monitoring sconosciuto"
  end.

(** ** Guided commands *)
(** [strconv.Atoi], and the element of that number. *)
Definition chosen {A} (l : list A) (choice : string) : option A :=
  match parse_int64 choice with
  | Some index => if (index <? 1) || (Z.of_nat (length l) <? index) then None else l !! Z.to_nat (index - 1)
  | None => None
  end.
Fixpoint say_numbered {A} (line : A -> string) (index : Z) (l : list A) : io unit :=
  match l with
  | [] => mret tt
  | x :: rest => _ ← say (pretty index ++ ") " ++ line x ++ newline)%string; say_numbered line (index + 1) rest
  end.
Definition key_text (k : key) : string := (k_Name k ++ " (" ++ k_ID k ++ ") revocata=" ++ bool_text (k_Revoked k))%string.

(** Why a copy cannot be selected. *)
Definition list_zone (status : automation_status) : location * string :=
  match LoadLocation (as_Timezone status) with
  | Ok loc => (loc, if String.eqb (as_Timezone status) "" then "UTC"%string else as_Timezone status)
  | Err _ => (UTC, "UTC"%string)
  end.
Definition completeCopies (k : key) (backups : list backup) : Z :=
  count_where (fun b => String.eqb (b_KeyID b) (k_ID k) && has_status BackupComplete b) backups.
Definition today (loc : location) (t : Z) (b : backup) : bool :=
  match parse_rfc3339 (b_ReceivedAt b) with
  | Some received => bool_decide (local_date loc received = local_date loc t)
  | None => false
  end.
Definition ineligible (status : automation_status) (k : key) (copies t : Z) (b : backup) : result failure (list string) :=
  let '(loc, zone) := list_zone status in
  let days := Z.max (RetentionDaysForKey status (k_ID k)) MinimumDays in
  match RetentionProtected LoadLocation b t zone days with
  | (_, Some e) => Err (Failed e)
  | (protected, None) => Ok (
      (if as_DeletionBlocked status then ["retention sospesa"%string] else []) ++
      (if k_Revoked k then ["chiave revocata"%string] else []) ++
      (if negb (has_status BackupComplete b) then [("stato " ++ status_text (b_Status b))%string] else []) ++
      (if (copies <=? 1) && has_status BackupComplete b then ["ultima copia recuperabile"%string] else []) ++
      (if today loc t b then ["giornata corrente"%string] else []) ++
      (if (protected : bool) then [("minimo di " ++ pretty days ++ " giorni")%string] else []))
  end.
Definition eligibility (reasons : list string) : string :=
  match reasons with [] => "selezionabile" | _ => "non selezionabile: " ++ String.concat ", " reasons end.
Definition candidate_text (b : backup) (reasons : list string) : string :=
  (b_ID b ++ "  " ++ b_ReceivedAt b ++ "  " ++ pretty (b_Size b) ++ " byte  stato=" ++ status_text (b_Status b) ++ "  " ++ eligibility reasons)%string.
Fixpoint say_candidates (status : automation_status) (k : key) (copies : Z) (index : Z) (l : list backup) : io (result failure unit) :=
  match l with
  | [] => mret (Ok tt)
  | b :: rest =>
    t ← now;
    match ineligible status k copies t b with
    | Err e => mret (Err e)
    | Ok reasons =>
      _ ← say (pretty index ++ ") " ++ candidate_text b reasons ++ newline)%string;
      say_candidates status k copies (index + 1) rest
    end
  end.
Definition request_text (b : backup) : string :=
  ("Richiesta manuale per " ++ b_ID b ++ " (" ++ b_ReceivedAt b ++ "), " ++ pretty (b_Size b) ++
   " byte. La quarantena dura almeno 48 ore. Digitare CANCELLA: ")%string.
(** A prompt, and the line that answers it. *)
Definition prompted (text : string) : io (result failure string) := _ ← say text; readLine.
Definition select_copy (i : inventory) : io (result failure backup) :=
  let '(status, keys, backups, _) := i in
  _ ← say ("Chiavi:" ++ newline)%string;
  _ ← say_numbered key_text 1 keys;
  choice ←? prompted "Numero chiave: ";
  match chosen keys choice with
  | None => failed "selezione chiave non valida"
  | Some k =>
    match List.filter (fun b => String.eqb (b_KeyID b) (k_ID k)) backups with
    | [] => failed "nessun backup per la chiave"
    | candidates =>
      _ ←? say_candidates status k (completeCopies k backups) 1 candidates;
      choice ←? prompted "Numero backup: ";
      match chosen candidates choice with
      | None => failed "selezione backup non valida"
      | Some b => mret (Ok b)
      end
    end
  end.
Definition deletion_request (b : backup) : fields :=
  no_fields <| f_Backup := b_ID b |> <| f_Actor := actorName h |> <| f_Reason := "selezione manuale amministrativa"%string |>.
Definition guidedDeletion : io (result failure unit) :=
  i ←? loadInventory;
  let '(_, keys, _, _) := i in
  match keys with
  | [] => failed "nessuna chiave"
  | _ =>
    b ←? select_copy i;
    confirmation ←? prompted (request_text b);
    if negb (String.eqb confirmation "CANCELLA") then failed "conferma non corrispondente; nessuna richiesta creata"
    else order "/v1/retention/request" (deletion_request b)
  end.

Definition quarantine_text (b : backup) : string :=
  (b_ID b ++ "  stato=" ++ status_text (b_Status b) ++ "  quarantena=" ++ unixTime h (b_QuarantinedAt b) ++
   "  purge non prima di=" ++ unixTime h (b_PurgeNotBefore b) ++ newline)%string.
Fixpoint say_all (l : list string) : io unit := match l with [] => mret tt | text :: rest => _ ← say text; say_all rest end.
Definition guidedQuarantine : io (result failure unit) :=
  p ←? ask GET "/v1/quarantine" no_fields;
  match p with
  | PBackups [] => failed "nessun backup in quarantena o in attesa"
  | PBackups backups =>
    _ ← say_all (map quarantine_text backups);
    id ←? prompted "ID backup: ";
    match find_where (fun b => String.eqb (b_ID b) id) backups with
    | None => failed "backup non presente nell'elenco"
    | Some selected =>
      if has_status BackupDeleting selected then
        confirmation ←? prompted "Digitare ANNULLA per annullare la richiesta non eseguita: ";
        if negb (String.eqb confirmation "ANNULLA") then failed "conferma non corrispondente"
        else order "/v1/retention/cancel" (no_fields <| f_Backup := id |> <| f_Actor := actorName h |>)
      else if negb (has_status BackupQuarantined selected) then failed "backup non recuperabile nello stato corrente"
      else
        confirmation ←? prompted "Digitare RECUPERA per richiedere il ripristino: ";
        if negb (String.eqb confirmation "RECUPERA") then failed "conferma non corrispondente"
        else order "/v1/retention/recover" (no_fields <| f_Backup := id |> <| f_Actor := actorName h |>
               <| f_Reason := "recupero richiesto dall'amministratore"%string |>)
    end
  | _ => undecoded
  end.

(** The commands that need the writer; [None]: another command. *)
Definition retentionAdmin (args : list string) : option (io (result failure unit)) :=
  match args with
  | [] => None
  | command :: rest =>
    if String.eqb command "automation" then Some (automation rest)
    else if String.eqb command "mail" then Some (mail_command rest)
    else if String.eqb command "retention" then Some (retention rest)
    else if String.eqb command "monitoring" then Some (monitoring rest)
    else if String.eqb command "cancellazione" then Some (no_arguments rest "cancellazione non accetta argomenti" guidedDeletion)
    else if String.eqb command "quarantena" then Some (no_arguments rest "quarantena non accetta argomenti" guidedQuarantine)
    else None
  end.

(** ** Commands on the catalogue *)
(** [store.Open] for reading only, or not: SQLite refuses to write what is open for
    reading only. *)
Definition read_store {A} (q : db -> result err A) : io (result failure A) := on_archive (Executor.query env fate_of q).
Definition write_store {A} (readOnly : bool) (m : tx A) : io (result failure A) :=
  if readOnly then failed "attempt to write a readonly database" else on_archive (Io.act env fate_of (on_store m)).
Definition drawn (draws : nat -> string) : io string := fun '(n, s) => (Some (draws n), ((n + 1)%nat, s)).
Definition print_of {A} (m : io (result failure A)) (f : A -> shown) : io (result failure unit) := a ←? m; Print (f a).

Definition profile_flags : flag_set :=
  [ ("name", FlagString ""); ("total", FlagString ""); ("max-backup", FlagString ""); ("daily", FlagInt 24); ("concurrent", FlagInt 2) ]%string.
Definition parsed_bytes (s : string) : io (result failure Z) := mret (match ParseBytes s with Ok z => Ok z | Err e => Err (Failed e) end).
Definition profiles_set (readOnly : bool) (args : list string) : io (result failure unit) :=
  f ←? parsed profile_flags args;
  total ←? parsed_bytes (flag_string f "total");
  single ←? parsed_bytes (flag_string f "max-backup");
  let p := Profile (flag_string f "name") total single (flag_int f "daily") (flag_int f "concurrent") in
  _ ←? write_store readOnly (PutProfile p);
  Print (ShownProfiles [p]).
Definition profiles (readOnly : bool) (args : list string) : io (result failure unit) :=
  match args with
  | [] => failed "profiles richiede list o set"
  | command :: rest =>
    if String.eqb command "list" then
      no_arguments rest "profiles list non accetta argomenti" (print_of (read_store (fun d => Ok (Profiles d))) ShownProfiles)
    else if String.eqb command "set" then profiles_set readOnly rest
    else failed "comando profiles sconosciuto"
  end.

(** A new key: its token goes to a new file, and to nothing else.  If it cannot be
    written whole the key is revoked, and the file removed. *)
Definition create_and_save (readOnly : bool) (name profile : string) (fd : Z) : io (result failure key) :=
  id ← drawn ids;
  token ← drawn tokens;
  created ←? write_store readOnly (CreateKey name profile id token);
  let '(k, token) := created in
  saved ← on_disk (fill fate_of short fd (token ++ newline)%string);
  match saved with
  | Ok _ => mret (Ok k)
  | Err e => t ← now; _ ← write_store readOnly (Revoke (k_ID k) t); mret (Err e)
  end.
Definition create_key (readOnly : bool) (name profile dest : string) : io (result failure unit) :=
  fd ←? on_disk (Io.act alone fate_of (create_exclusive dest));
  r ← create_and_save readOnly name profile fd;
  match r with
  | Ok k => Print (ShownKeys [k])
  | Err e => _ ← on_disk (Io.act alone fate_of (remove_path dest)); mret (Err e)
  end.
Definition keys_create (readOnly : bool) (args : list string) : io (result failure unit) :=
  f ←? parsed [("name", FlagString ""); ("profile", FlagString ""); ("out", FlagString "")]%string args;
  if String.eqb (flag_string f "out") "" then failed "--out obbligatorio; la chiave non viene stampata"
  else create_key readOnly (flag_string f "name") (flag_string f "profile") (flag_string f "out").
Definition keys_revoke (readOnly : bool) (args : list string) : io (result failure unit) :=
  f ←? parsed [("id", FlagString "")]%string args;
  t ← now;
  _ ←? write_store readOnly (Revoke (flag_string f "id") t);
  Print (ShownPairs [("id", flag_string f "id"); ("status", "revoked")]%string).
Definition keys_assign (readOnly : bool) (args : list string) : io (result failure unit) :=
  f ←? parsed [("id", FlagString ""); ("profile", FlagString "")]%string args;
  _ ←? write_store readOnly (Assign (flag_string f "id") (flag_string f "profile"));
  Print (ShownPairs [("id", flag_string f "id"); ("profile", flag_string f "profile")]%string).
Definition keys (readOnly : bool) (args : list string) : io (result failure unit) :=
  match args with
  | [] => failed "keys richiede create, list, revoke o assign"
  | command :: rest =>
    if String.eqb command "list" then no_arguments rest "keys list non accetta argomenti" (print_of (read_store (fun d => Ok (Keys d))) ShownKeys)
    else if String.eqb command "create" then keys_create readOnly rest
    else if String.eqb command "revoke" then keys_revoke readOnly rest
    else if String.eqb command "assign" then keys_assign readOnly rest
    else failed "comando keys sconosciuto"
  end.
Definition shown_backups (l : list backup) : shown := Answer (PBackups l).
Definition list_command (args : list string) : io (result failure unit) :=
  f ←? parsed [("key", FlagString ""); ("limit", FlagInt 100)]%string args;
  print_of (read_store (Backups (flag_string f "key") (flag_int f "limit"))) shown_backups.
Definition status_command (args : list string) : io (result failure unit) :=
  f ←? parsed [("id", FlagString "")]%string args;
  print_of (read_store (fun d => match find_backup d (flag_string f "id") with Some b => Ok [b] | None => Err ErrNoRows end)) shown_backups.
Definition quota_command (args : list string) : io (result failure unit) :=
  f ←? parsed [("key", FlagString "")]%string args;
  t ← now;
  print_of (read_store (Quota (flag_string f "key") t)) ShownQuota.
Definition backups (args : list string) : io (result failure unit) :=
  match args with
  | [] => failed "backups richiede list o status"
  | command :: rest =>
    if String.eqb command "list" then list_command rest
    else if String.eqb command "status" then status_command rest
    else failed "comando backups sconosciuto"
  end.
(** Whether the catalogue is opened for reading only. *)
Definition opens_read_only (args : list string) : bool :=
  match args with
  | [] => false
  | command :: rest =>
    String.eqb command "quota" || match rest with sub :: _ => String.eqb sub "list" || String.eqb command "backups" | [] => false end
  end.
Definition opened : io (result failure unit) := on_archive (Io.act env fate_of (fun s => (Ok tt, s))).
Definition catalogue_command (readOnly : bool) (args : list string) : io (result failure unit) :=
  match args with
  | [] => failed "comando sconosciuto"
  | command :: rest =>
    if String.eqb command "profiles" then profiles readOnly rest
    else if String.eqb command "keys" then keys readOnly rest
    else if String.eqb command "backups" then backups rest
    else if String.eqb command "quota" then quota_command rest
    else failed "comando sconosciuto"
  end.
(** The commands of [Admin] after the global flags, but [init] and [migrate-archives]. *)
Definition admin_command (args : list string) : io (result failure unit) :=
  match args, retentionAdmin args with
  | [], _ => mret (Err (Failed ErrHelp))
  | _, Some m => m
  | _, None => _ ←? opened; catalogue_command (opens_read_only args) args
  end.
(** [Inspect] after the global flags. *)
Definition Inspect (args : list string) : io (result failure unit) :=
  match args with
  | [] => mret (Err (Failed ErrHelp))
  | command :: rest =>
    _ ←? opened;
    if String.eqb command "list" then list_command rest
    else if String.eqb command "status" then status_command rest
    else if String.eqb command "quota" then quota_command rest
    else failed "operazione non disponibile: sono ammessi solo list, status e quota"
  end.
End console.
