(* ===== verification/Administration.v ===== *)
(** What the commands of the administrator ask for: nothing that was not confirmed, and
    what the lists say is what the writer does
    ([src/internal/localcli]). *)
From S2P Require Import Prelude GoTime GoFloat GoString Model Policy Schedule Forecast Catalog Anomalies Automation Retention RetentionMachine Deposit Checks Mail.
From S2P Require Import Store Archive Io Writer Custody Executor Execution Watch Api Serving Files Cryptfile Encryption Private Snapshot Flags Console.
From Stdlib Require Import Ascii.

(** ** What was written *)
(** What remains of the input after some of its lines. *)
Inductive remains (input : string) : string -> Prop :=
| remains_all : remains input input
| remains_line s line rest : remains input s -> split_line s = Some (line, rest) -> remains input rest.
(** A text that the administrator wrote: the end of an argument, or a line typed. *)
Definition typed (input text : string) : Prop :=
  exists s line rest, remains input s /\ split_line s = Some (line, rest) /\ trim_space line = text.
Definition written (args : list string) (input text : string) : Prop :=
  (exists arg before, In arg args /\ arg = (before ++ text)%string) \/ typed input text.

(** The value of a flag is its default, or was written. *)
Definition from_args (defaults : flag_set) (args : list string) (values : flag_set) : Prop :=
  forall name text, formal values name = Some (FlagString text) ->
    formal defaults name = Some (FlagString text) \/ exists arg before, In arg args /\ arg = (before ++ text)%string.
Lemma formal_with flags name name' v x : formal (with_flag flags name v) name' = Some x -> x = v \/ formal flags name' = Some x.
Proof.
  unfold formal, with_flag. induction flags as [|[m y] flags IH]; cbn [map find_where find fst]; [done|].
  destruct (String.eqb_spec m name) as [->|Hm]; cbn [fst].
  - destruct (String.eqb name name'); cbn; [by intros [= <-]; left|exact IH].
  - destruct (String.eqb m name'); cbn; [by right|exact IH].
Qed.
Lemma cut_equal_suffix s name value : cut_equal s = (name, Some value) -> exists before, s = (before ++ value)%string.
Proof.
  revert name value. induction s as [|c s IH]; intros name value; cbn [cut_equal]; [done|].
  destruct (Ascii.eqb c "="%char) eqn:E.
  - apply Ascii.eqb_eq in E as ->. intros [= _ <-]. by exists "="%string.
  - assert (match c with "="%char => (EmptyString, Some s) | _ => let '(n, v) := cut_equal s in (String c n, v) end =
      (let '(n, v) := cut_equal s in (String c n, v))) as Hc.
    { clear IH. destruct c as [[] [] [] [] [] [] [] []]; try reflexivity. discriminate E. }
    rewrite Hc. destruct (cut_equal s) as [n v]. intros [= _ ->]. destruct (IH n value eq_refl) as [before ->]. by exists (String c before).
Qed.
Lemma flag_name_suffix s name value : flag_name s = Flag name (Some value) -> exists before, s = (before ++ value)%string.
Proof.
  unfold flag_name. intros E. apply (cut_equal_suffix s name). destruct s as [|c s]; [done|].
  destruct c as [[] [] [] [] [] [] [] []]; try discriminate E; destruct (cut_equal _) as [n v]; by injection E as -> ->.
Qed.
Lemma argument_suffix s name value : argument_of s = Flag name (Some value) -> exists before, s = (before ++ value)%string.
Proof.
  assert (forall rest, flag_name rest = Flag name (Some value) -> forall c, exists before, String c rest = (before ++ value)%string) as Hone.
  { intros rest (before & ->)%flag_name_suffix c. by exists (String c before). }
  intros E. destruct s as [|c rest]; [done|]. cbn [argument_of] in E. destruct (Ascii.eqb c "-"%char) eqn:Ec.
  - apply Ascii.eqb_eq in Ec as ->. destruct rest as [|d rest]; [done|]. destruct (Ascii.eqb d "-"%char) eqn:Ed.
    + apply Ascii.eqb_eq in Ed as ->. destruct rest as [|x rest]; [done|]. destruct (Hone _ E "-"%char) as [before ->].
      by exists (String "-"%char before).
    + apply Hone. destruct d as [[] [] [] [] [] [] [] []]; try exact E; discriminate Ed.
  - destruct c as [[] [] [] [] [] [] [] []]; try discriminate E; discriminate Ec.
Qed.
Lemma parse_flags_from flags args : forall values rest, parse_flags flags args = Ok (values, rest) -> from_args flags args values.
Proof.
  revert flags. assert (forall n flags args, (length args <= n)%nat -> forall values rest, parse_flags flags args = Ok (values, rest) -> from_args flags args values) as Hn;
    [|intros flags; by apply (Hn (length args))].
  induction n as [|n IH]; intros flags [|s args'] Hlen values rest; cbn [parse_flags] in *; try (intros [= <- _] name text Hf; by left); [cbn in Hlen; lia|].
  cbn in Hlen. destruct (argument_of s) as [| | |name value] eqn:Ea; try (intros [= <- _] m text Hf; by left); try done.
  destruct (formal flags name) as [v|] eqn:Ev; [|done].
  assert (forall text rest', (forall x, In x rest' -> In x (s :: args')) -> (exists arg before, In arg (s :: args') /\ arg = (before ++ text)%string) \/ is_bool v = true ->
    (length rest' <= n)%nat -> (match set_value v text with None => Err (ErrText ("invalid value for flag -" ++ name)) | Some v' => parse_flags (with_flag flags name v') rest' end)
      = Ok (values, rest) -> from_args flags (s :: args') values) as Hset.
  { intros text rest' Hsub Htext Hl. destruct (set_value v text) as [v'|] eqn:Es; [|done]. intros Hp. apply IH in Hp; [|done].
    intros m t Hm. destruct (Hp m t Hm) as [Hd|(arg & before & Ha & E)]; [|right; exists arg, before; auto].
    apply formal_with in Hd as [E|Hd]; [|by left]. destruct v as [x|x|x|x]; cbn in Es.
    - injection Es as <-. injection E as ->. right. by destruct Htext.
    - destruct (ParseInt text); [|done]. cbn in Es. injection Es as <-. discriminate E.
    - destruct (ParseBool text); [|done]. cbn in Es. injection Es as <-. discriminate E.
    - destruct (ParseDuration text); [|done]. cbn in Es. injection Es as <-. discriminate E. }
  destruct value as [text|].
  - apply argument_suffix in Ea as [before Eb]. apply Hset; [by right|left; exists s, before; split; [by left|done]|lia].
  - destruct (is_bool v) eqn:Eb; [apply Hset; [by right|by right|lia]|]. destruct args' as [|text rest']; [done|].
    apply Hset; [by intros x Hx; right; right|left; exists text, ""%string; split; [by right; left|done]|cbn in Hlen; lia].
Qed.

(** ** What is asked *)
(** The text that must be written for a request: the confirmation that the writer
    requires, or the one of the guided commands. *)
Definition guided_text (path : string) : option string :=
  snd <$> find_where (fun entry => String.eqb (fst entry) path)
    [ ("/v1/retention/request", "CANCELLA"); ("/v1/retention/cancel", "ANNULLA"); ("/v1/retention/recover", "RECUPERA") ]%string.
Definition required_text (a : asked) : option string :=
  match confirmation_of (as_Path a) (as_Fields a) with Some text => Some text | None => guided_text (as_Path a) end.

Section consent.
Context `{Platform} (error_text : failure -> string) (decode : string -> string -> result err fields) (encode : string -> fields -> string).
Context (h : host) (stat : nat -> filesystem).
Context (env : nat -> server -> server) (fate_of : nat -> fate) (clock : nat -> Z) (tokens ids : nat -> string) (short : nat -> option Z).
Context (args : list string) (input : string) (before : list asked).

Definition consented (a : asked) : Prop := forall text, as_Method a = POST -> required_text a = Some text ->
  (confirmation_of (as_Path a) (as_Fields a) = Some text -> f_Confirmation (as_Fields a) = text) /\ written args input text.
Definition orderly (s : desk) : Prop := exists more, dk_asked s = before ++ more /\ Forall consented more.
Definition untyped (s : desk) : Prop := orderly s /\ remains input (dk_input s).
Abbreviation within m := (triple orderly m (fun _ => orderly) orderly).

Lemma consent_bind {A B} (m : Io.io desk A) (f : A -> Io.io desk B) : within m -> (forall a, within (f a)) -> within (m ≫= f).
Proof. intros Hm Hf. by eapply triple_bind. Qed.
Lemma consent_ret {A} (a : A) : within (mret a).
Proof. by apply triple_ret. Qed.
Lemma consent_act {A} (effect : desk -> result failure A * desk) : (forall s, dk_asked (snd (effect s)) = dk_asked s) -> within (Io.act alone fate_of effect).
Proof. intros He. apply triple_act_inv; [apply _|]. intros s Hs. unfold orderly. by rewrite He. Qed.
Lemma consent_archive {A} (m : Io.io server A) : within (on_archive m).
Proof. intros n s Hs. unfold on_archive. by destruct (m (n, dk_server s)) as [[a|] [n' v]]. Qed.
Lemma consent_disk {A} (m : Io.io fs A) : within (on_disk m).
Proof. intros n s Hs. unfold on_disk. by destruct (m (n, dk_files s)) as [[a|] [n' v]]. Qed.
Lemma consent_noted a : consented a -> within (noted a).
Proof.
  intros Ha n s (more & E & Hm). cbn. exists (more ++ [a]). cbn. rewrite E, app_assoc. split; [done|]. apply Forall_app. split; [done|by constructor].
Qed.
Lemma consent_now : within (Io.now clock).
Proof. by intros n s Hs. Qed.
Lemma consent_drawn draws : within (drawn draws).
Proof. by intros n s Hs. Qed.
Lemma consent_statfs : within (statfs_now stat fate_of).
Proof. intros n s Hs. unfold statfs_now. by apply (consent_act (fun s => (Ok (stat n), s)) (fun s => eq_refl) n s). Qed.
Lemma consent_line : within (readLine fate_of).
Proof. apply consent_act. intros s. by destruct (split_line (dk_input s)) as [[]|]. Qed.
Lemma consent_ask query method path f : (method = POST -> required_text (Asked method path f) = None) ->
  within (ask_with error_text decode encode env fate_of clock tokens query method path f).
Proof.
  intros Hf. unfold ask_with. apply consent_bind; [|intros _; apply consent_archive]. apply consent_noted. intros text Hm Ht.
  by rewrite (Hf Hm) in Ht.
Qed.

Ltac consent_step known := lazymatch goal with
  | |- triple _ (mret _) _ _ => apply consent_ret
  | |- triple _ (failed _) _ _ => apply consent_ret
  | |- triple _ undecoded _ _ => apply consent_ret
  | |- triple _ (parsed _ _) _ _ => apply consent_ret
  | |- triple _ (parsed_bytes _) _ _ => apply consent_ret
  | |- triple _ (readLine _) _ _ => apply consent_line
  | |- triple _ (Io.now _) _ _ => apply consent_now
  | |- triple _ (drawn _) _ _ => apply consent_drawn
  | |- triple _ (statfs_now _ _) _ _ => apply consent_statfs
  | |- triple _ (on_archive _) _ _ => apply consent_archive
  | |- triple _ (on_disk _) _ _ => apply consent_disk
  | |- triple _ (Io.act _ _ _) _ _ => apply consent_act; intros ?; reflexivity
  | |- triple _ (ask_with _ _ _ _ _ _ _ _ _ _ _) _ _ => apply consent_ask; done
  | |- triple _ (say _ _) _ _ => unfold say
  | |- triple _ (Print _ _) _ _ => unfold Print
  | |- triple _ (ask _ _ _ _ _ _ _ _ _ _) _ _ => unfold ask
  | |- triple _ (look _ _ _ _ _ _ _ _) _ _ => unfold look
  | |- triple _ (prompted _ _) _ _ => unfold prompted
  | |- triple _ (no_arguments _ _ _) _ _ => unfold no_arguments
  | |- triple _ (order _ _ _ _ _ _ _ _ _) _ _ => unfold order
  | |- triple _ (_ ≫= _) _ _ => apply consent_bind; [|intros ?]
  | |- triple _ (io_try _ _) _ _ => apply consent_bind; [|intros [?|?]; [|apply consent_ret]]
  | |- triple _ (if ?c then _ else _) _ _ => destruct c
  | |- triple _ (match ?r with _ => _ end) _ _ => destruct r
  | |- _ => known
  end.
Ltac consent known := repeat consent_step known.

(** *** Commands that need no confirmation *)
Lemma consent_inventory : within (loadInventory error_text decode encode env fate_of clock tokens).
Proof. unfold loadInventory. consent fail. Qed.
Lemma consent_simulate : within (simulateRetention error_text decode encode stat env fate_of clock tokens).
Proof. unfold simulateRetention. consent ltac:(apply consent_inventory). Qed.
Lemma consent_minimum rest : within (retention_minimum error_text decode encode env fate_of clock tokens rest).
Proof. unfold retention_minimum. consent fail. Qed.
Lemma consent_mail rest : within (mail_command error_text decode encode env fate_of clock tokens rest).
Proof. unfold mail_command. consent fail. Qed.
Lemma consent_monitoring rest : within (monitoring error_text decode encode h env fate_of clock tokens rest).
Proof. unfold monitoring, printMonitoringChecks, monitoring_exclude. consent fail. Qed.
Lemma consent_numbered {A} (line : A -> string) l : forall i, within (say_numbered fate_of line i l).
Proof. induction l as [|x l IH]; intros i; cbn [say_numbered]; consent ltac:(apply IH). Qed.
Lemma consent_candidates status k copies l : forall i, within (say_candidates fate_of clock status k copies i l).
Proof. induction l as [|x l IH]; intros i; cbn [say_candidates]; consent ltac:(apply IH). Qed.
Lemma consent_all l : within (say_all fate_of l).
Proof. induction l as [|x l IH]; cbn [say_all]; consent ltac:(exact IH). Qed.
(** *** Commands that need one *)
Lemma typed_line s line rest : split_line (dk_input s) = Some (line, rest) -> remains input (dk_input s) -> typed input (trim_space line).
Proof. intros E Hr. by exists (dk_input s), line, rest. Qed.
Lemma consent_given provided expected description : (provided <> ""%string -> written args input provided) ->
  triple untyped (confirmRetentionChange fate_of provided expected description)
    (fun r s => orderly s /\ (r = Ok tt -> written args input expected)) orderly.
Proof.
  intros Hp. unfold confirmRetentionChange. apply (triple_try _ _ _ _ (fun r s => orderly s /\ forall text, r = Ok text -> written args input text)).
  - destruct (String.eqb provided "") eqn:E.
    + apply (triple_bind _ _ _ _ (fun _ => untyped)).
      * unfold say. apply (triple_bind _ _ _ _ (fun _ => untyped)); [|intros _; by apply triple_ret].
        apply triple_act; [apply _|by intros s []|]. intros s [Ho Hi]. by split.
      * intros _. apply (triple_bind _ _ _ _ (fun r s => orderly s /\ forall text, r = Ok text -> typed input text)).
        -- unfold readLine. apply triple_act; [apply _|by intros s []|]. intros s [Ho Hi].
           destruct (split_line (dk_input s)) as [[line rest]|] eqn:El; cbn [fst snd]; (split; [exact Ho|]); (split; [|by intros f]); (split; [exact Ho|]); [|done].
           intros text [= <-]. by apply (typed_line s line rest).
        -- intros [text|e]; apply triple_ret; intros s [Ho Ht]; (split; [done|]); [|done]. intros t [= <-]. right. by apply Ht.
    + apply triple_ret. intros s [Ho _]. split; [done|]. intros text [= <-]. apply Hp. by apply String.eqb_neq.
  - intros given. destruct (String.eqb_spec given expected) as [->|]; apply triple_ret; intros s [Ho Ht]; (split; [done|]); [|done].
    intros _. by apply Ht.
  - intros e s [Ho _]. split; [done|discriminate].
Qed.
Lemma consent_confirmed provided expected description path f : (provided <> ""%string -> written args input provided) ->
  confirmation_of path f = Some expected -> f_Confirmation f = expected ->
  triple untyped (_ ←? confirmRetentionChange fate_of provided expected description;
    order error_text decode encode env fate_of clock tokens path f) (fun _ => orderly) orderly.
Proof.
  intros Hp Hc Hf. apply (triple_try _ _ _ _ (fun r s => orderly s /\ (r = Ok tt -> written args input expected))); [by apply consent_given| |by intros e s []].
  intros [] n s [Ho Hw]. specialize (Hw eq_refl). revert n s Ho.
  assert (within (order error_text decode encode env fate_of clock tokens path f)) as Ho; [|exact Ho].
  unfold order, ask, ask_with. apply consent_bind; [|intros [p|e]; [unfold Print; by apply consent_act|apply consent_ret]].
  apply consent_bind; [|intros _; apply consent_archive]. apply consent_noted. intros text _ Ht. unfold required_text in Ht. cbn in *. rewrite Hc in Ht. by injection Ht as <-.
Qed.
(** *** Guided commands *)
Abbreviation still m := (triple untyped m (fun _ => untyped) orderly).
Lemma still_bind {A B} (m : Io.io desk A) (f : A -> Io.io desk B) Q : still m -> (forall a, triple untyped (f a) Q orderly) -> triple untyped (m ≫= f) Q orderly.
Proof. intros Hm Hf. by eapply triple_bind. Qed.
Lemma still_say text : still (say fate_of text).
Proof.
  unfold say. apply still_bind; [|intros _; by apply triple_ret]. apply triple_act; [apply _|by intros s []|]. intros s Hs. split; [apply Hs|]. by split.
Qed.
Lemma still_archive {A} (m : Io.io server A) : still (on_archive m).
Proof. intros n s Hs. unfold on_archive. destruct (m (n, dk_server s)) as [[a|] [n' v]]; [done|apply Hs]. Qed.
Lemma still_get path f : still (ask error_text decode encode env fate_of clock tokens GET path f).
Proof.
  unfold ask, ask_with. apply still_bind; [|intros _; apply still_archive]. intros n s [Ho Hr]. split; [|exact Hr].
  by apply (consent_noted (Asked GET path f) ltac:(discriminate) n s).
Qed.
Lemma still_numbered {A} (line : A -> string) l : forall i, still (say_numbered fate_of line i l).
Proof. induction l as [|x l IH]; intros i; cbn [say_numbered]; [by apply triple_ret|]. apply still_bind; [apply still_say|]. intros _. apply IH. Qed.
Lemma still_candidates status k copies l : forall i, still (say_candidates fate_of clock status k copies i l).
Proof.
  induction l as [|x l IH]; intros i; cbn [say_candidates]; [by apply triple_ret|]. apply still_bind; [by intros n s Hs|]. intros t.
  destruct (ineligible status k copies t x); [|by apply triple_ret]. apply still_bind; [apply still_say|]. intros _. apply IH.
Qed.
Lemma still_all l : still (say_all fate_of l).
Proof. induction l as [|x l IH]; cbn [say_all]; [by apply triple_ret|]. apply still_bind; [apply still_say|]. intros _. exact IH. Qed.
Lemma still_prompted {B} text (k : string -> Io.io desk (result failure B)) Q :
  (forall line, typed input line -> triple untyped (k line) Q orderly) -> (forall e s, orderly s -> Q (Err e) s) ->
  triple untyped (line ←? prompted fate_of text; k line) Q orderly.
Proof.
  intros Hk He. unfold prompted.
  apply (triple_try _ _ _ _ (fun r s => match r with Ok line => typed input line /\ untyped s | Err _ => orderly s end)).
  - apply still_bind; [apply still_say|]. intros _. unfold readLine. apply triple_act; [apply _|by intros s []|]. intros s [Ho Hr].
    destruct (split_line (dk_input s)) as [[line rest]|] eqn:El; cbn [fst snd]; (split; [exact Ho|]); (split; [|by intros f]); [|exact Ho].
    split; [by apply (typed_line s line rest)|]. split; [exact Ho|]. by apply (remains_line input (dk_input s) line).
  - intros line n s [Ht Hs]. by apply (Hk line Ht n s).
  - intros e s Hs. by apply He.
Qed.
Lemma consent_typed path f text : typed input text -> confirmation_of path f = None -> guided_text path = Some text ->
  within (order error_text decode encode env fate_of clock tokens path f).
Proof.
  intros Ht Hc Hg. unfold order, ask, ask_with. apply consent_bind; [|intros [p|e]; [unfold Print; by apply consent_act|apply consent_ret]].
  apply consent_bind; [|intros _; apply consent_archive]. apply consent_noted. intros t _ Hr. unfold required_text in Hr. cbn in *. rewrite Hc in Hr |- *.
  rewrite Hg in Hr. injection Hr as <-. split; [done|by right].
Qed.
Lemma untyped_within {A} (m : Io.io desk A) : within m -> triple untyped m (fun _ => orderly) orderly.
Proof. intros Hm. eapply triple_pre; [exact Hm|by intros s []]. Qed.
Lemma consent_select i : triple untyped (select_copy fate_of clock i) (fun r s => match r with Ok _ => untyped s | Err _ => orderly s end) orderly.
Proof.
  assert (forall e : failure, triple untyped (mret (M:=Io.io desk) (Err (A:=backup) e)) (fun r s => match r with Ok _ => untyped s | Err _ => orderly s end) orderly) as Herr
    by (intros e; apply triple_ret; by intros s []).
  unfold select_copy. destruct i as [[[status ks] backups] models]. apply still_bind; [apply still_say|]. intros _. apply still_bind; [apply still_numbered|]. intros _.
  apply still_prompted; [|done]. intros line _. destruct (chosen ks line) as [k|]; [|apply Herr]. destruct (List.filter _ backups) as [|b l]; [apply Herr|].
  apply still_bind; [apply still_candidates|]. intros [[]|e]; [|apply Herr]. apply still_prompted; [|done]. intros line2 _.
  destruct (chosen _ line2); [by apply triple_ret|apply Herr].
Qed.
Lemma consent_deletion : triple untyped (guidedDeletion error_text decode encode h env fate_of clock tokens) (fun _ => orderly) orderly.
Proof.
  unfold guidedDeletion, loadInventory. apply still_bind.
  { apply still_bind; [apply still_get|]. intros [[]|e]; by apply triple_ret. }
  intros [[[[status ks] backups] models]|e]; [|apply untyped_within, consent_ret]. destruct ks as [|k ks]; [apply untyped_within, consent_ret|].
  eapply triple_bind; [apply consent_select|]. intros [b|e]; [|by apply triple_ret]. apply still_prompted; [|done]. intros line Ht.
  destruct (String.eqb_spec line "CANCELLA") as [->|]; [|apply untyped_within, consent_ret]. by apply untyped_within, (consent_typed _ _ "CANCELLA").
Qed.
Lemma consent_quarantine : triple untyped (guidedQuarantine error_text decode encode h env fate_of clock tokens) (fun _ => orderly) orderly.
Proof.
  unfold guidedQuarantine. apply still_bind; [apply still_get|]. intros [p|e]; [|apply untyped_within, consent_ret].
  destruct p as [| | | | |[|b l]| | | | | | | |]; try apply untyped_within, consent_ret. apply still_bind; [apply still_all|]. intros _.
  apply still_prompted; [|done]. intros id _. destruct (find_where _ _) as [selected|]; [|apply untyped_within, consent_ret].
  destruct (has_status BackupDeleting selected).
  - apply still_prompted; [|done]. intros line Ht. destruct (String.eqb_spec line "ANNULLA") as [->|]; [|apply untyped_within, consent_ret].
    by apply untyped_within, (consent_typed _ _ "ANNULLA").
  - destruct (negb _); [apply untyped_within, consent_ret|]. apply still_prompted; [|done]. intros line Ht.
    destruct (String.eqb_spec line "RECUPERA") as [->|]; [|apply untyped_within, consent_ret]. by apply untyped_within, (consent_typed _ _ "RECUPERA").
Qed.
(** *** Arguments *)
(** The text of the flag [confirm] was written. *)
Lemma consent_parsed flags rest (k : flag_set -> Io.io desk (result failure unit)) :
  formal flags "confirm" = Some (FlagString "") -> (forall x, In x rest -> In x args) ->
  (forall values, (flag_string values "confirm" <> ""%string -> written args input (flag_string values "confirm")) ->
     triple untyped (k values) (fun _ => orderly) orderly) ->
  triple untyped (values ←? parsed flags rest; k values) (fun _ => orderly) orderly.
Proof.
  intros Hd Hsub Hk. unfold parsed. destruct (parse_flags flags rest) as [[values [|x l]]|e] eqn:E; intros n s Hs; [|exact (proj1 Hs)..].
  apply (Hk values); [|done]. intros Hne. apply parse_flags_from in E. unfold flag_string in *.
  destruct (formal values "confirm") as [[text|?|?|?]|] eqn:Ef; [|done..]. destruct (E _ _ Ef) as [Hdef|(arg & b & Ha & ->)].
  - rewrite Hd in Hdef. by injection Hdef as <-.
  - left. exists (b ++ text)%string, b. auto.
Qed.
Lemma consent_automation rest : (forall x, In x rest -> In x args) ->
  triple untyped (automation error_text decode encode h env fate_of clock tokens rest) (fun _ => orderly) orderly.
Proof.
  intros Hsub. unfold automation. destruct rest as [|command rest]; [apply untyped_within, consent_ret|].
  destruct (String.eqb command "status"); [apply untyped_within; consent fail|]. destruct (String.eqb command "setup"); [|apply untyped_within, consent_ret].
  unfold automation_setup. apply consent_parsed; [done|by intros x Hx; apply Hsub; right|]. intros values Hv. cbv zeta.
  destruct (_ && _); [apply untyped_within, consent_ret|]. by apply consent_confirmed.
Qed.
Lemma consent_retention rest : (forall x, In x rest -> In x args) ->
  triple untyped (Console.retention error_text decode encode stat env fate_of clock tokens rest) (fun _ => orderly) orderly.
Proof.
  intros Hsub. unfold Console.retention. destruct rest as [|command rest]; [apply untyped_within, consent_ret|].
  assert (forall x, In x rest -> In x args) as Hrest by (intros x Hx; apply Hsub; by right).
  destruct (String.eqb command "simulate"); [apply untyped_within; consent ltac:(apply consent_simulate)|].
  destruct (String.eqb command "enable"); [by apply consent_parsed; [| |intros values Hv; apply consent_confirmed]|].
  destruct (String.eqb command "minimum"); [apply untyped_within, consent_minimum|].
  destruct (String.eqb command "pause"); [by apply consent_parsed; [| |intros values Hv; apply consent_confirmed]|].
  destruct (String.eqb command "resume"); [|apply untyped_within, consent_ret].
  apply consent_parsed; [done..|]. intros values Hv. unfold resume_choice. destruct (flag_bool values "when-ready"); by apply consent_confirmed.
Qed.
Lemma consent_list rest : within (list_command env fate_of rest).
Proof. unfold list_command, print_of, read_store. consent fail. Qed.
Lemma consent_status rest : within (status_command env fate_of rest).
Proof. unfold status_command, print_of, read_store. consent fail. Qed.
Lemma consent_quota rest : within (quota_command env fate_of clock rest).
Proof. unfold quota_command, print_of, read_store. consent fail. Qed.
Lemma consent_catalogue readOnly rest : within (catalogue_command env fate_of clock tokens ids short readOnly rest).
Proof.
  unfold catalogue_command, profiles, profiles_set, Console.keys, keys_create, create_key, create_and_save, keys_revoke, keys_assign, Console.backups,
    print_of, read_store, write_store.
  consent ltac:(first [apply consent_list|apply consent_status|apply consent_quota]).
Qed.
Lemma consent_command :
  triple untyped (admin_command error_text decode encode h stat env fate_of clock tokens ids short args) (fun _ => orderly) orderly.
Proof.
  unfold admin_command. destruct args as [|command rest] eqn:Ea; [apply untyped_within, consent_ret|].
  assert (forall x, In x rest -> In x args) as Hrest by (rewrite Ea; by right). unfold retentionAdmin.
  destruct (String.eqb command "automation"); [by apply consent_automation|].
  destruct (String.eqb command "mail"); [apply untyped_within; apply consent_mail|].
  destruct (String.eqb command "retention"); [by apply consent_retention|].
  destruct (String.eqb command "monitoring"); [apply untyped_within; apply consent_monitoring|].
  destruct (String.eqb command "cancellazione"); [destruct rest; [apply consent_deletion|apply untyped_within, consent_ret]|].
  destruct (String.eqb command "quarantena"); [destruct rest; [apply consent_quarantine|apply untyped_within, consent_ret]|].
  apply untyped_within. unfold opened. consent ltac:(apply consent_catalogue).
Qed.
End consent.

(** C25. No command acts without consent: whatever the arguments, what is typed, what
    fails and what the others do, for every request of those that configure, enable,
    pause or resume the retention, delete a copy, cancel a deletion or recover a copy,
    the administrator wrote the very text that it requires, as an argument or as a line;
    and a request that the writer guards by a confirmation carries that text. *)
Theorem commands_consented `{Platform} error_text decode encode h stat env fate_of clock tokens ids short args n s :
  exists more, dk_asked (snd (snd (admin_command error_text decode encode h stat env fate_of clock tokens ids short args (n, s)))) = dk_asked s ++ more /\
    forall a text, In a more -> as_Method a = POST -> required_text a = Some text ->
      written args (dk_input s) text /\ (confirmation_of (as_Path a) (as_Fields a) = Some text -> f_Confirmation (as_Fields a) = text).
Proof.
  pose proof (consent_command error_text decode encode h stat env fate_of clock tokens ids short args (dk_input s) (dk_asked s) n s) as Hr.
  assert (orderly args (dk_input s) (dk_asked s) (snd (snd (admin_command error_text decode encode h stat env fate_of clock tokens ids short args (n, s)))))
    as (more & E & Hm).
  { destruct (admin_command _ _ _ _ _ _ _ _ _ _ _ _ (n, s)) as [[r|] [n' s']]; apply Hr; (split; [|apply remains_all]); exists []; by rewrite app_nil_r. }
  exists more. split; [exact E|]. intros a text Ha Hp Hc. rewrite Forall_forall in Hm.
  destruct (Hm a ltac:(by apply list_elem_of_In) text Hp Hc). by split.
Qed.
