(* ===== verification/Simulation.v ===== *)
(** What the lists and the simulation of the administrator are worth: they agree with
    the writer and with the maintenance cycle ([src/internal/localcli/retention.go]). *)
From S2P Require Import Prelude GoTime GoFloat GoString Model Policy Schedule Forecast Catalog Anomalies Automation Retention RetentionMachine Deposit Checks Mail.
From S2P Require Import Store Archive Io Writer Custody Executor Execution Watch Api Files Private Snapshot Report Monitor Cycle Flags Console.

(** ** The simulation *)
Section simulation.
Context `{Platform, Trigonometry}.
Definition readable (raw : list (string * string)) : Prop := Forall (fun p => is_ok (json_model (snd p)) = true) raw.
Lemma saved_readable v k : readable (sn_Models v) ->
  saved_models v !! k = raw ← (list_to_map (sn_Models v) : gmap string string) !! k; match json_model raw with Ok m => Some m | Err _ => None end.
Proof.
  unfold saved_models. induction 1 as [|[name raw] l Hr _ IH]; cbn; [by rewrite !lookup_empty|]. cbn in Hr.
  destruct (json_model raw) as [m|e] eqn:E; [|done]. cbn. destruct (decide (name = k)) as [->|Hne].
  - rewrite !lookup_insert_eq. cbn. by rewrite E.
  - rewrite !lookup_insert_ne by done. exact IH.
Qed.
(** The models that the simulation takes are those of the cycle, when it has one for
    every key in use. *)
Lemma known_models_saved v keys : readable (sn_Models v) ->
  Forall (fun k => is_Some (saved_models v !! k_ID k)) (List.filter (fun k => negb (k_Revoked k)) keys) ->
  known_models (list_to_map (sn_Models v)) keys = Ok (map (model_of (saved_models v)) (List.filter (fun k => negb (k_Revoked k)) keys)).
Proof.
  intros Hr. induction keys as [|k keys IH]; cbn [known_models List.filter]; intros Hk; [done|]. destruct (k_Revoked k) eqn:Ek; cbn [negb] in *; [by apply IH|].
  inversion Hk as [|? ? [m Hm] Hrest]; subst. rewrite (saved_readable v (k_ID k) Hr) in Hm.
  destruct ((list_to_map (sn_Models v) : gmap string string) !! k_ID k) as [raw|] eqn:El; [|done]. cbn in Hm.
  destruct (json_model raw) as [x|e] eqn:Ej; [|done]. injection Hm as ->. rewrite IH by done. cbn [map]. unfold model_of at 2.
  rewrite (saved_readable v (k_ID k) Hr), El. cbn. by rewrite Ej.
Qed.
Lemma recoverable_none backups : recoverableBackups [] backups = backups.
Proof. unfold recoverableBackups. induction backups as [|b l IH]; cbn in *; [done|by rewrite IH]. Qed.

(** The writer lists the newest copies first, and no more than it is asked for. *)
Lemma Backups_newest limit d backups : 0 < limit <= 10000 -> Backups "" limit d = Ok backups -> backups = take (Z.to_nat limit) (SnapshotBackups d).
Proof.
  intros Hl Hb. unfold Backups in Hb. rewrite (proj2 (Z.ltb_ge limit 1)), (proj2 (Z.ltb_ge 10000 limit)) in Hb by lia. cbn [orb] in Hb. injection Hb as <-.
  match goal with |- context [List.filter ?p (d_backups d)] => assert (List.filter p (d_backups d) = d_backups d) as -> end; [|done].
  induction (d_backups d) as [|b l IH]; cbn in *; [done|by rewrite IH].
Qed.

(** C34. The simulation tells what the maintenance cycle would select, from the newest
    ten thousand copies. When the cycle finds every model reliable, the selection that
    [retention simulate] prints, from the answers of the writer about the same catalogue
    and at the same instant, is the one that the cycle computes when it is given the ten
    thousand copies of the archive received last, and the copies acknowledged as missing
    among them are not set aside. So when no copy is acknowledged as missing and the
    archive has no more than ten thousand rows it is the selection whose copies the
    cycle requests; beyond either bound the two may differ, for the cycle sets those
    copies aside and reads every row. *)
Theorem simulation_agrees d quotas t fs scopes found expected48h required backups :
  let v := snapshot_of d quotas in
  assess v t (saved_models v) scopes = Ok (Monitored found true expected48h required) ->
  readable (LoadModels d) -> Backups "" 10000 d = Ok backups ->
  let printed := simulated t (read_status d) fs (Keys d) backups (LoadModels d) in
  printed = automatic_selection (read_status d) fs (revoked_map v) [] (take (Z.to_nat 10000) (sn_Backups v)) expected48h t /\
  (AcknowledgedMissingBackupIDs d = [] -> Z.of_nat (length (d_backups d)) <= 10000 ->
   printed = automatic_selection (read_status d) fs (revoked_map v) (AcknowledgedMissingBackupIDs d) (sn_Backups v) expected48h t).
Proof.
  intros v Ha Hr Hb printed. unfold assess in Ha.
  destruct (period_findings _ _ _) as [periods|]; [|done]. destruct (next_findings _ _ _ _ _) as [more|]; [|done].
  destruct (all_reliable v (saved_models v)) eqn:Hall; cbn [negb] in Ha; [|discriminate Ha].
  destruct (required_bytes _ _ _ _) as [r|]; [|done]. destruct (Forecast48Hours _ _ _) as [e|] eqn:Ee; [|done]. injection Ha as _ <- _.
  apply Backups_newest in Hb; [|lia]. change (sn_Backups v) with (SnapshotBackups d).
  assert (printed = automatic_selection (read_status d) fs (revoked_map v) [] (take (Z.to_nat 10000) (SnapshotBackups d)) e t) as Hp.
  2: { split; [exact Hp|]. intros -> Hlen. rewrite Hp. f_equal. apply take_ge. unfold SnapshotBackups. rewrite length_sort_by. lia. }
  subst printed backups. unfold simulated, automatic_selection. rewrite recoverable_none.
  change (list_to_map (rev (map (fun k => (k_ID k, k_Revoked k)) (Keys d)))) with (revoked_map v).
  change (revoked_keys (Keys d)) with (revoked_map v).
  destruct (pending_bytes _ _ _ _ _) as [pending|]; [|done].
  change (LoadModels d) with (sn_Models v). rewrite (known_models_saved v (Keys d)); [|done|].
  - change (map (model_of (saved_models v)) (List.filter (fun k => negb (k_Revoked k)) (Keys d))) with (map (model_of (saved_models v)) (keys_in_use v)).
    by rewrite Ee.
  - apply andb_true_iff in Hall as [Hall _]. rewrite forallb_forall in Hall. apply Forall_forall. intros k Hk%list_elem_of_In. specialize (Hall k Hk).
    unfold usable, model_of in Hall. destruct (saved_models v !! k_ID k) as [m|]; [by exists m|]. done.
Qed.
End simulation.

(** ** A disk that is full, three weeks after two copies *)
Module Trial.
#[local] Instance platform : Platform := {|
  LoadLocation := @LoadLocation Scenario.platform; sha256_hex := @sha256_hex Scenario.platform; ParseAddress := fun _ => true; ParseAddressList := fun _ => true;
  json_compact := fun s => Ok s; json_model := fun _ => Ok Growth.weekly; local_time_text := fun _ _ => ""%string; julianday := fun _ => 0 |}.
#[local] Existing Instance History.constant.
Definition learned (d : db) : db :=
  d <| d_models := [MonitoringModel Scenario.key_id (au_ModelRevision (d_automation d)) 0 "UTC" 7 "{}" true false] |>.
Definition seen : db := learned (archive Scenario.opening).
Definition at_time : Z := Growth.monday - Hour.
Definition full : filesystem := Filesystem 1000000000 10000000 10000000 1.
Definition listed : list backup := match Backups "" 10000 seen with Ok l => l | Err _ => [] end.
Definition printed : result failure selection := simulated at_time (read_status seen) full (Keys seen) listed (LoadModels seen).
Lemma simulation_agrees_witness :
  match printed with Ok s => map b_ID (Candidates s) = [Scenario.backup_name "a"] | Err _ => False end /\
  AcknowledgedMissingBackupIDs seen = [] /\ Z.of_nat (length (d_backups seen)) <= 10000 /\
  (printed = automatic_selection (read_status seen) full (revoked_map (snapshot_of seen [])) [] (take (Z.to_nat 10000) (sn_Backups (snapshot_of seen []))) 1200 at_time /\
   (AcknowledgedMissingBackupIDs seen = [] -> Z.of_nat (length (d_backups seen)) <= 10000 ->
    printed = automatic_selection (read_status seen) full (revoked_map (snapshot_of seen [])) (AcknowledgedMissingBackupIDs seen)
      (sn_Backups (snapshot_of seen [])) 1200 at_time)).
Proof.
  split; [vm_compute; reflexivity|]. split; [vm_compute; reflexivity|]. split; [vm_compute; discriminate|].
  assert (assess (snapshot_of seen []) at_time (saved_models (snapshot_of seen [])) [] = Ok (Monitored [] true 1200 6000)) as Ha by (vm_compute; reflexivity).
  assert (readable (LoadModels seen)) as Hr by (vm_compute; by repeat constructor).
  assert (Backups "" 10000 seen = Ok listed) as Hb by (vm_compute; reflexivity).
  exact (simulation_agrees seen [] at_time full [] [] 1200 6000 listed Ha Hr Hb).
Defined.
End Trial.
