(* ===== verification/Listing.v ===== *)
(** The list of the guided deletion tells what the writer would accept
    ([guidedDeletion], [src/internal/localcli/retention.go]; [RequestQuarantine],
    [src/internal/store/retention.go]). *)
From S2P Require Import Prelude GoTime GoFloat GoString Model Policy Schedule Forecast Catalog Anomalies Automation Retention RetentionMachine Deposit Checks Mail.
From S2P Require Import Store Archive Io Writer Custody Executor Execution Watch Api Files Private Snapshot Flags Console Simulation.

Section listing.
Context `{Platform}.
Lemma status_days d k : In k (d_keys d) -> RetentionDaysForKey (read_status d) (k_ID k) = retention_days d (k_ID k).
Proof.
  intros Hk. unfold RetentionDaysForKey. cbn [as_KeyRetentionDays as_RetentionDays read_status].
  assert ((list_to_map (map (fun k => (k_ID k, retention_days d (k_ID k))) (d_keys d)) : gmap string Z) !! k_ID k = Some (retention_days d (k_ID k))) as ->; [|done].
  induction (d_keys d) as [|x l IH]; [done|]. cbn. destruct (decide (k_ID x = k_ID k)) as [->|Hne]; [by rewrite lookup_insert_eq|].
  rewrite lookup_insert_ne by done. destruct Hk as [->|Hk]; [done|by apply IH].
Qed.
Lemma listed_rows d backups : Backups "" 10000 d = Ok backups -> Z.of_nat (length (d_backups d)) <= 10000 -> Permutation backups (d_backups d).
Proof.
  intros Hb Hlen. apply Backups_newest in Hb; [|lia]. subst. unfold SnapshotBackups. rewrite take_ge by (rewrite length_sort_by; lia). apply sort_by_perm.
Qed.
(** The list counts the copies acknowledged as missing, the writer does not. *)
Lemma listed_at_least d k backups : Permutation backups (d_backups d) -> complete_copies (k_ID k) d <= completeCopies k backups.
Proof.
  intros Hp. unfold completeCopies, complete_copies. rewrite (count_where_perm _ _ _ Hp). apply count_where_le.
  intros b _ [[-> _]%andb_true_iff ->]%andb_true_iff. done.
Qed.
Lemma listed_copies d k backups : Permutation backups (d_backups d) ->
  (forall b, In b (d_backups d) -> acknowledged_missing d (b_ID b) = false) -> completeCopies k backups = complete_copies (k_ID k) d.
Proof.
  intros Hp Hm. unfold completeCopies, complete_copies. rewrite (count_where_perm _ _ _ Hp).
  apply count_where_ext. intros b Hin. unfold copy_of. rewrite (Hm b Hin). by destruct (String.eqb _ _).
Qed.

(** No call leaves a minimum of conservation under seven days. *)
Definition minima (d : db) : Z * gmap string Z := (au_RetentionDays (d_automation d), d_key_retention d).
Definition minima_ok (d : db) : Prop := forall k, MinimumDays <= retention_days d k.
Lemma minima_same d d' : minima d' = minima d -> minima_ok d -> minima_ok d'.
Proof. intros [= E1 E2] Hd k. unfold retention_days. rewrite E1, E2. apply Hd. Qed.
Definition sets_minimum (c : call) : bool := match c with CSetKeyRetentionDays _ _ => true | _ => false end.
Lemma plan_keeps_minima i r e d l : Catalog.keeps minima (plan_keys i r e d l).
Proof. induction l as [|k l IH]; [by intros ? ? ? [= _ <-]|]. cbn [plan_keys]. keep. apply IH. Qed.
Lemma run_keeps_minima c : sets_minimum c = false -> Catalog.keeps minima (run c).
Proof.
  intros Hc. destruct c; try discriminate Hc; cbn [run]; keep; try apply plan_keeps_minima;
    intros d a' d' [= _ <-]; unfold minima; cbn; unfold record_check; by repeat case_match.
Qed.
Lemma set_minimum_ok key days d u d' : SetKeyRetentionDays key days d = Ok (u, d') -> minima_ok d -> minima_ok d'.
Proof.
  unfold SetKeyRetentionDays. intros Hr Hd k. store_step Hr as Hg. store_skip Hr. store_skip Hr. injection Hr as _ <-.
  apply orb_false_iff in Hg as [[_ Hdays%Z.ltb_ge]%orb_false_iff _]. unfold retention_days. cbn. specialize (Hd k). unfold retention_days in Hd.
  destruct (decide (key = k)) as [->|Hne]; [by rewrite lookup_insert_eq|by rewrite lookup_insert_ne].
Qed.
Lemma archive_minima cs : minima_ok (archive cs).
Proof.
  induction cs as [|c cs IH] using rev_ind; [intros k; vm_compute; discriminate|]. rewrite archive_snoc.
  destruct (exec_cases c (archive cs)) as [(u & d' & Hr & ->)|(e & _ & ->)]; [|done]. destruct (sets_minimum c) eqn:Hc.
  - destruct c; try discriminate Hc. by apply (set_minimum_ok _ _ _ _ _ Hr).
  - apply (minima_same (archive cs)); [|done]. by apply (run_keeps_minima c Hc _ _ _ Hr).
Qed.

(** The request that nothing forbids succeeds. *)
Lemma tx_next {A B} (m : tx A) (f : A -> tx B) d a d1 : m d = Ok (a, d1) -> (m ≫= f) d = f a d1.
Proof. intros E. unfold mbind, tx_bind. by rewrite E. Qed.
Lemma tx_pass c e d : c = false -> (tx_guard c e : tx unit) d = Ok (tt, d).
Proof. by intros ->. Qed.
Lemma request_accepted d b k loc actor reason t : core_ok (core_of d) -> In b (d_backups d) -> find_key d (b_KeyID b) = Some k ->
  ValidID (b_ID b) = true -> is_blank actor = false -> LoadLocation (au_Timezone (d_automation d)) = Ok loc ->
  blocked (d_automation d) = false -> k_Revoked k = false -> b_Status b = BackupComplete -> acknowledged_missing d (b_ID b) = false ->
  local_date loc (backup_time b) <> local_date loc t -> 1 < complete_copies (b_KeyID b) d -> not_protected d b t ->
  exists op d', RequestQuarantine (b_ID b) "manual" actor reason t d = Ok (op, d').
Proof.
  intros Hok Hb Hk Hid Ha Hloc Hbl Hr Hst Hm Hday Hc Hp. unfold RequestQuarantine.
  pose proof (find_backup_of d b Hok Hb) as Hf.
  rewrite (tx_next _ _ _ tt d) by (apply tx_pass; by rewrite Hid, Ha). rewrite (tx_next _ _ _ tt d) by (unfold blocked_guard, tx_gets, mbind, tx_bind; by rewrite Hbl).
  rewrite (tx_next _ _ _ (au_Timezone (d_automation d)) d) by reflexivity. rewrite (tx_next _ _ _ (model_revision d) d) by reflexivity.
  rewrite (tx_next _ _ _ loc d) by (by rewrite Hloc).
  rewrite (tx_next _ _ _ (b, k) d) by (unfold select_backup_key; by rewrite Hf, Hk). cbn [fst snd].
  rewrite (tx_next _ _ _ tt d) by (by apply tx_pass). rewrite (tx_next _ _ _ tt d) by (apply tx_pass; unfold has_status; by rewrite bool_decide_true).
  rewrite (tx_next _ _ _ (acknowledged_missing d (b_ID b)) d) by reflexivity. rewrite (tx_next _ _ _ tt d) by (by apply tx_pass).
  rewrite (tx_next _ _ _ tt d) by (apply tx_pass; by apply bool_decide_eq_false).
  rewrite (tx_next _ _ _ (complete_copies (b_KeyID b) d) d) by reflexivity. rewrite (tx_next _ _ _ tt d) by (apply tx_pass; by apply Z.leb_gt).
  rewrite (tx_next _ _ _ tt d) by (unfold checkRetentionMinimum, tx_get, mbind, tx_bind, select_backup; rewrite Hf; cbn; by rewrite Hp).
  set (d1 := d <| d_backups ::= update_where (backup_is (b_ID b) BackupComplete) (fun b => b <| b_Status := BackupDeleting |>) |>).
  assert (count_where (backup_is (b_ID b) BackupComplete) (d_backups d) = 1) as Hn.
  { apply (count_where_one b_ID _ _ b); [apply (ok_backup_ids _ Hok)|done|]. intros y Hy. rewrite backup_is_iff. split; [|by intros ->].
    intros [E _]. by apply (NoDup_map_in b_ID _ y b (ok_backup_ids _ Hok)). }
  rewrite (tx_next _ _ _ 1 d1) by (unfold update_backups; by rewrite Hn). rewrite (tx_next _ _ _ tt d1) by (by apply tx_pass).
  assert (insert_operation (b_ID b) OpQuarantine "manual" actor reason (model_revision d) (unix t) d1 =
    Ok (d_operations_seq d1 + 1, d1 <| d_operations ::= (fun l => l ++ [Operation (d_operations_seq d1 + 1) (b_ID b) OpQuarantine OpRequested "manual" actor reason "" (model_revision d) (unix t) 0 0 "" 0 false]) |>
      <| d_operations_seq := d_operations_seq d1 + 1 |>)) as Hi.
  { unfold insert_operation. assert (exists_where (backup_id_is (b_ID b)) (d_backups d1) = true) as ->.
    { apply existsb_exists. exists (b <| b_Status := BackupDeleting |>). split; [|unfold backup_id_is; by apply bool_decide_eq_true].
      apply in_map_iff. exists b. split; [|done]. assert (backup_is (b_ID b) BackupComplete b = true) as -> by (by apply backup_is_iff). done. }
    assert (exists_where (fun o => active_operation o && bool_decide (o_BackupID o = b_ID b)) (d_operations d1) = false) as ->; [|done].
    apply not_true_iff_false. intros (o & Ho & [Hact E%bool_decide_eq_true]%andb_true_iff)%existsb_exists.
    destruct (ok_active _ Hok o Ho Hact) as (Hkind & x & Hx & Hxid & Hxst). assert (x = b) as -> by (apply (NoDup_map_in b_ID _ x b (ok_backup_ids _ Hok)); [done..|congruence]).
    rewrite Hst in Hxst. by destruct (o_Kind o). }
  rewrite (tx_next _ _ _ _ _ Hi). by eexists _, _.
Qed.

(** What keeps the list from offering a copy. *)
Lemma offered d k b loc copies t : In k (d_keys d) -> k_ID k = b_KeyID b -> is_Some (parse_rfc3339 (b_ReceivedAt b)) ->
  LoadLocation (au_Timezone (d_automation d)) = Ok loc -> (au_Timezone (d_automation d) = ""%string -> LoadLocation "UTC" = LoadLocation "") ->
  minima_ok d ->
  (ineligible (read_status d) k copies t b = Ok [] <-> blocked (d_automation d) = false /\ k_Revoked k = false /\
    b_Status b = BackupComplete /\ 1 < copies /\ local_date loc (backup_time b) <> local_date loc t /\ not_protected d b t).
Proof.
  intros Hk Hkid [received Hr] Hloc Hutc Hdays. unfold ineligible. rewrite status_days by done. rewrite Hkid, Z.max_l by apply Hdays. unfold list_zone, not_protected. cbn [as_Timezone read_status as_DeletionBlocked].
  rewrite Hloc.
  assert (RetentionProtected LoadLocation b t (if String.eqb (au_Timezone (d_automation d)) "" then "UTC" else au_Timezone (d_automation d)) (retention_days d (b_KeyID b))
    = RetentionProtected LoadLocation b t (au_Timezone (d_automation d)) (retention_days d (b_KeyID b))) as ->.
  { unfold RetentionProtected. destruct (String.eqb_spec (au_Timezone (d_automation d)) "") as [E|]; [|done]. by rewrite (Hutc E), E. }
  assert (today loc t b = bool_decide (local_date loc (backup_time b) = local_date loc t)) as ->.
  { unfold today, backup_time. rewrite Hr. destruct (String.eqb_spec (b_ReceivedAt b) "") as [E|]; [|done]. by rewrite E in Hr. }
  destruct (RetentionProtected _ _ _ _ _) as [protected [e|]]; [split; [done|by intros (_ & _ & _ & _ & _ & ?)]|].
  pose proof (has_status_iff BackupComplete b) as Hst.
  destruct (blocked _); [split; [done|by intros []]|]. destruct (k_Revoked k); [split; [done|by intros (_ & ? & _)]|].
  destruct (has_status BackupComplete b); [|split; [done|intros (_ & _ & Hs & _); by apply Hst in Hs]].
  destruct (Z.leb_spec copies 1); [split; [done|lia]|]. cbn [negb andb].
  case_bool_decide; [by split; [|intros (_ & _ & _ & _ & ? & _)]|]. destruct protected; [by split; [|intros (_ & _ & _ & _ & _ & ?)]|].
  split; [|done]. intros _. repeat (split; [by try apply Hst|]). done.
Qed.

End listing.

(** ** Two copies of December, seen after three weeks *)
Module Selectable.
Import Scenario.
Definition seen : db := archive opening.
Definition first : backup := default (receiving_backup "" "" "" document 0 "" 0) (find_backup seen (backup_name "a")).
Definition office : key := default (Key "" "" "" "" false) (find_key seen key_id).
Definition listed : list backup := match Backups "" 10000 seen with Ok l => l | Err _ => [] end.
End Selectable.

(** ** A copy lost and acknowledged

    The list offers it, and the writer refuses it. *)
Module MissingCopy.
Import Scenario.
Definition lost : list call :=
  opening ++ [ COpenAnomalyAt "file:a" "file_missing" key_id (backup_name "a") "manca" (day 20) (day 20); CAcknowledge 1 (day 20);
    CSetCheckState MonitoringRegular 1 (day 20); CResumeRetention (day 20) ].
Definition seen : db := archive lost.
Definition offer : option (result failure (list string) * result err unit) :=
  b ← find_backup seen (backup_name "a"); k ← find_key seen key_id;
  Some (ineligible (read_status seen) k (completeCopies k (SnapshotBackups seen)) (day 20 + Minute) b,
    fst <$> ignore (RequestQuarantine (b_ID b) "manual" "admin" "selezione" (day 20 + Minute)) seen).
Lemma acknowledged_copy_offered : offer = Some (Ok [], Err (ErrText "backup riconosciuto come definitivamente mancante")).
Proof. vm_compute. reflexivity. Qed.
End MissingCopy.
