(* ===== verification/Letter.v ===== *)
(** The form of a mail: the headers, the text and the markup
    ([src/internal/maintenance/mail_format.go]), over Go's [html], [mime/multipart] and
    [mime/quotedprintable] as the source uses them. *)
From S2P Require Import Prelude GoTime GoString Model Policy Catalog.
From Stdlib Require Import Ascii.

(** ** Go's standard library *)
Definition CR : ascii := "013"%char.
Definition LF : ascii := "010"%char.
Definition crlf : string := String CR (String LF EmptyString).
(** [html.EscapeString]. *)
Definition escape_char (c : ascii) : string :=
  if Ascii.eqb c "&" then "&amp;"
  else if Ascii.eqb c "'" then "&#39;"
  else if Ascii.eqb c "<" then "&lt;"
  else if Ascii.eqb c ">" then "&gt;"
  else if Ascii.eqb c "034" then "&#34;"
  else String c EmptyString.
Fixpoint EscapeString (s : string) : string :=
  match s with EmptyString => EmptyString | String c s' => (escape_char c ++ EscapeString s')%string end.

(** [t.In(l).Format(time.RFC1123Z)]. *)
Definition weekday_name (d : Z) : string := nth (Z.to_nat d) ["Sun"; "Mon"; "Tue"; "Wed"; "Thu"; "Fri"; "Sat"] "".
Definition month_name (m : Z) : string :=
  nth (Z.to_nat (m - 1)) ["Jan"; "Feb"; "Mar"; "Apr"; "May"; "Jun"; "Jul"; "Aug"; "Sep"; "Oct"; "Nov"; "Dec"] "".
Definition numeric_zone (offset : Z) : string :=
  let zone := Z.quot offset 60 in
  ((if (zone <? 0)%Z then "-" else "+") ++ pad2 (Z.abs zone / 60)%Z ++ pad2 (Z.abs zone mod 60)%Z)%string.
Definition format_rfc1123z (l : location) (t : Z) : string :=
  let '(y, m, d) := local_date l t in
  let s := local_second_of_day l t in
  (weekday_name (weekday l t) ++ ", " ++ pad2 d ++ " " ++ month_name m ++ " " ++ year_text y ++ " " ++
   pad2 (s / 3600)%Z ++ ":" ++ pad2 (s / 60 mod 60)%Z ++ ":" ++ pad2 (s mod 60)%Z ++ " " ++ numeric_zone (zone_offset l t))%string.

(** [quotedprintable.Writer]: what it wrote, the line in its buffer, and whether the
    last line break was a carriage return. *)
Record qp_writer : Type := QpWriter { qp_out : list Z; qp_line : list Z; qp_cr : bool }.
Definition lineMaxLen : Z := 76.
Definition upperhex (n : Z) : Z := if n <? 10 then 48 + n else 55 + n.
Definition isWhitespace (b : Z) : bool := (b =? 32) || (b =? 9).
Definition qp_plain (b : Z) : bool := between 33 126 b && negb (b =? 61).
Definition insertCRLF (w : qp_writer) : qp_writer := QpWriter (qp_out w ++ qp_line w ++ [13; 10]) [] (qp_cr w).
Definition insertSoftLineBreak (w : qp_writer) : qp_writer := insertCRLF (QpWriter (qp_out w) (qp_line w ++ [61]) (qp_cr w)).
Definition encode_byte (b : Z) (w : qp_writer) : qp_writer :=
  let w := if lineMaxLen - 1 - Z.of_nat (length (qp_line w)) <? 3 then insertSoftLineBreak w else w in
  QpWriter (qp_out w) (qp_line w ++ [61; upperhex (b / 16); upperhex (b mod 16)]) (qp_cr w).
Definition checkLastByte (w : qp_writer) : qp_writer :=
  match last (qp_line w) with
  | Some b => if isWhitespace b then encode_byte b (QpWriter (qp_out w) (removelast (qp_line w)) (qp_cr w)) else w
  | None => w
  end.
Definition write_plain (b : Z) (w : qp_writer) : qp_writer :=
  if (b =? 10) || (b =? 13) then
    if qp_cr w && (b =? 10) then QpWriter (qp_out w) (qp_line w) false
    else let w := insertCRLF (checkLastByte w) in QpWriter (qp_out w) (qp_line w) (b =? 13)
  else
    let w := if Z.of_nat (length (qp_line w)) =? lineMaxLen - 1 then insertSoftLineBreak w else w in
    QpWriter (qp_out w) (qp_line w ++ [b]) false.
Definition qp_write (w : qp_writer) (b : Z) : qp_writer :=
  if qp_plain b || isWhitespace b || (b =? 10) || (b =? 13) then write_plain b w else encode_byte b w.
Definition quoted_printable (text : string) : string :=
  let w := checkLastByte (fold_left qp_write (bytes text) (QpWriter [] [] false)) in
  of_bytes (qp_out w ++ qp_line w).

(** [multipart.Writer]: parts with these two fields, and the end. *)
Definition mime_part (contentType text : string) : string :=
  ("Content-Transfer-Encoding: quoted-printable" ++ crlf ++ "Content-Type: " ++ contentType ++ crlf ++ crlf ++ quoted_printable text)%string.
Fixpoint more_parts (boundary : string) (parts : list (string * string)) : string :=
  match parts with
  | [] => (crlf ++ "--" ++ boundary ++ "--" ++ crlf)%string
  | (contentType, text) :: rest => (crlf ++ "--" ++ boundary ++ crlf ++ mime_part contentType text ++ more_parts boundary rest)%string
  end.
Definition multipart (boundary : string) (parts : list (string * string)) : string :=
  match parts with
  | [] => more_parts boundary []
  | (contentType, text) :: rest => ("--" ++ boundary ++ crlf ++ mime_part contentType text ++ more_parts boundary rest)%string
  end.

(** ** The markup

    The templates are written with single quotes, which [markup] turns into the double
    quotes of the source; they have no single quote of their own. *)
Definition quotes (s : string) : string := replace_byte "'" (String "034" EmptyString) s.
Definition is_report (m : mail_message) : bool := has_prefix "OnlyBackup: report periodico" (m_Subject m).
Definition is_alert (m : mail_message) : bool := String.eqb (m_Kind m) "anomaly" || contains "anomalie attive" (m_Subject m).
Definition all_well (m : mail_message) : bool := is_report m && has_prefix ("Esito: OK" ++ newline) (m_Body m).
Definition htmlParagraphs (body : string) : string :=
  String.concat "" (map (fun line => (quotes "<p style='margin:0 0 8px'>" ++ EscapeString line ++ "</p>")%string)
    (List.filter (fun line => negb (is_blank line)) (split_at LF body))).
Definition last_action (lines : list string) : string :=
  fold_left (fun action line => if has_prefix "Azione: " line then trim_prefix "Azione: " line else action) lines "".
Definition report_row (line : string) : string :=
  if has_prefix "Esito: " line || has_prefix "Azione: " line || String.eqb line "" then ""
  else if String.eqb line "Ultime copie:" then
    quotes "<p style='margin:22px 0 6px;color:#526a73;font-size:12px;font-weight:bold;letter-spacing:.08em'>ULTIME COPIE</p>"
  else match cut_text ": " (trim_prefix "- " line) with
  | None => ""
  | Some (label, value) =>
    (quotes "<table role='presentation' width='100%' cellspacing='0' cellpadding='0' style='border-bottom:1px solid #e5ebed'><tr><td style='padding:10px 0;color:#18303a;font-weight:bold;vertical-align:top'>"
     ++ EscapeString label
     ++ quotes "</td><td align='right' style='padding:10px 0;color:#526a73;vertical-align:top'>"
     ++ EscapeString value ++ "</td></tr></table>")%string
  end.
Definition action_box (accent action : string) (good : bool) : string :=
  if String.eqb action "" then ""
  else (quotes "<div style='margin:0 0 19px;padding:14px 16px;background:" ++ accent ++ quotes ";border-radius:8px'><strong>"
        ++ (if good then "Oggi" else "Cosa fare") ++ ":</strong> " ++ EscapeString action ++ "</div>")%string.
Definition renderReportHTML (body accent : string) (good : bool) : string :=
  let lines := split_at LF body in
  (action_box accent (last_action lines) good ++ String.concat "" (map report_row lines))%string.

(** The words and the colours of a mail. *)
Record look : Type := Look { lk_badge : string; lk_title : string; lk_summary : string; lk_background : string; lk_text : string; lk_accent : string }.
Definition look_of (m : mail_message) : look :=
  if all_well m then
    Look "TUTTO OK" "Nessun problema rilevato" "Riepilogo delle copie e dello stato del servizio." "#166b3e" "#ffffff" "#eff8f0"
  else if is_alert m then Look "ATTENZIONE" "Avviso OnlyBackup" "È stata rilevata un'anomalia." "#a83220" "#ffffff" "#fdf0ec"
  else Look "ATTENZIONE" "Controlla OnlyBackup" "È presente un problema o un intervento richiesto." "#a83220" "#ffffff" "#fdf0ec".
Definition markup_head (k : look) : string :=
  (quotes "<!doctype html><html lang='it'><head><meta charset='utf-8'><meta name='viewport' content='width=device-width,initial-scale=1'></head>"
   ++ quotes "<body style='margin:0;padding:0;background:#e9edf0;color:#18303a;font-family:Arial,Helvetica,sans-serif;font-size:15px;line-height:1.5'>"
   ++ quotes "<table role='presentation' width='100%' cellspacing='0' cellpadding='0' style='background:#e9edf0'><tr><td align='center' style='padding:20px 10px'>"
   ++ quotes "<table role='presentation' width='640' cellspacing='0' cellpadding='0' style='width:100%;max-width:640px;background:#ffffff;border:1px solid #d7e0e3;border-radius:12px'>"
   ++ quotes "<tr><td style='padding:21px 25px;background:" ++ lk_background k ++ ";color:" ++ lk_text k
   ++ quotes ";font-size:23px;font-weight:bold;letter-spacing:.03em;border-radius:12px 12px 0 0'>&#9679;&nbsp; " ++ lk_badge k ++ "</td></tr>"
   ++ quotes "<tr><td style='padding:16px 25px;background:#17343d;color:#ffffff;font-size:13px;font-weight:bold;letter-spacing:.06em'>ONLYBACKUP</td></tr>"
   ++ quotes "<tr><td style='padding:27px 25px'>"
   ++ quotes "<h1 style='margin:0 0 8px;color:#17343d;font-size:27px;line-height:1.2'>" ++ EscapeString (lk_title k) ++ "</h1>"
   ++ quotes "<p style='margin:0 0 20px;color:#526a73'>" ++ EscapeString (lk_summary k) ++ "</p>")%string.
Definition alert_open (k : look) : string :=
  (quotes "<div style='padding:16px 18px;background:" ++ lk_accent k ++ ";border-left:4px solid " ++ lk_background k
   ++ quotes ";border-radius:0 7px 7px 0;color:#18303a'>")%string.
Definition alert_box (k : look) (body : string) : string := (alert_open k ++ htmlParagraphs body ++ "</div>")%string.
Definition markup_tail : string :=
  (quotes "</td></tr><tr><td style='padding:15px 25px;border-top:1px solid #e6ecee;color:#647981;font-size:11px'>OnlyBackup · avviso automatico dal server</td></tr>"
   ++ "</table></td></tr></table></body></html>")%string.
Definition renderMailHTML (m : mail_message) : string :=
  if negb (is_report m) && negb (is_alert m) then ""
  else
    let k := look_of m in
    (markup_head k ++ (if is_report m then renderReportHTML (m_Body m) (lk_accent k) (all_well m) else alert_box k (m_Body m)) ++ markup_tail)%string.

(** ** The mail *)
Definition sanitizeHeader (value : string) : string := replace_byte LF " " (replace_byte CR " " value).
Definition shown_subject (m : mail_message) : string :=
  let suffix := if has_suffix " [TEST]" (m_Subject m) then " [TEST]"%string else ""%string in
  if all_well m then ("OnlyBackup: TUTTO OK | report" ++ suffix)%string
  else if is_report m then ("OnlyBackup: ATTENZIONE | report" ++ suffix)%string
  else if is_alert m then ("OnlyBackup: ATTENZIONE | " ++ trim_prefix "OnlyBackup: " (m_Subject m))%string
  else m_Subject m.

Section letter.
Context `{Platform} (zone : location).
Definition mail_header (from : string) (recipients : list string) (m : mail_message) (t : Z) : string :=
  ("From: " ++ sanitizeHeader from ++ crlf ++ "To: " ++ String.concat ", " recipients ++ crlf
   ++ "Subject: " ++ sanitizeHeader (shown_subject m) ++ crlf
   ++ "Message-ID: <" ++ sha256_hex (m_StableID m) ++ "@onlybackup.local>" ++ crlf
   ++ "Date: " ++ format_rfc1123z zone t ++ crlf ++ "MIME-Version: 1.0" ++ crlf)%string.
(** The boundary is drawn by [multipart.NewWriter]; writing to a buffer does not fail. *)
Definition composeMail (from : string) (recipients : list string) (m : mail_message) (t : Z) (boundary : string) : string :=
  let header := mail_header from recipients m t in
  let markup := renderMailHTML m in
  if String.eqb markup "" then
    (header ++ "Content-Type: text/plain; charset=UTF-8" ++ crlf ++ crlf ++ replace_byte LF crlf (m_Body m) ++ crlf)%string
  else
    (header ++ "Content-Type: multipart/alternative; boundary=" ++ boundary ++ crlf ++ crlf ++
     multipart boundary [("text/plain; charset=UTF-8", m_Body m); ("text/html; charset=UTF-8", markup)])%string.
End letter.
