(* ===== verification/Letters.v ===== *)
(** What a mail is worth to its reader: the headers and the texts can be read back, and
    nothing in a message becomes markup ([src/internal/maintenance/mail_format.go]). *)
From S2P Require Import Prelude GoTime GoString Model Policy Catalog Letter.
From Stdlib Require Import Ascii.

(** ** Quoted-printable *)
(** The bytes a reader sees. *)
Fixpoint decode_quoted (bs : list Z) : list Z :=
  match bs with
  | [] => []
  | c :: rest =>
    if c =? 61 then
      match rest with
      | a :: b :: rest' =>
        if (a =? 13) && (b =? 10) then decode_quoted rest'
        else match hex_val a, hex_val b with
             | Some x, Some y => 16 * x + y :: decode_quoted rest'
             | _, _ => c :: decode_quoted rest
             end
      | _ => c :: decode_quoted rest
      end
    else c :: decode_quoted rest
  end.
(** The encodings of a text. *)
Inductive quoted : list Z -> list Z -> Prop :=
| quoted_nil : quoted [] []
| quoted_plain e t b : quoted e t -> qp_plain b || isWhitespace b = true -> quoted (e ++ [b]) (t ++ [b])
| quoted_code e t b : quoted e t -> 0 <= b < 256 -> quoted (e ++ [61; upperhex (b / 16); upperhex (b mod 16)]) (t ++ [b])
| quoted_soft e t : quoted e t -> quoted (e ++ [61; 13; 10]) t
| quoted_break e t : quoted e t -> quoted (e ++ [13; 10]) (t ++ [13; 10]).

Lemma upperhex_val n : 0 <= n < 16 -> hex_val (upperhex n) = Some n.
Proof.
  intros Hn. unfold upperhex, hex_val, between. destruct (Z.ltb_spec n 10).
  - replace ((48 <=? 48 + n) && (48 + n <=? 57)) with true by lia. f_equal. lia.
  - replace ((48 <=? 55 + n) && (55 + n <=? 57)) with false by lia. replace ((97 <=? 55 + n) && (55 + n <=? 102)) with false by lia.
    replace ((65 <=? 55 + n) && (55 + n <=? 70)) with true by lia. f_equal. lia.
Qed.
Lemma upperhex_range n : 0 <= n < 16 -> 48 <= upperhex n.
Proof. intros Hn. unfold upperhex. destruct (Z.ltb_spec n 10); lia. Qed.
Lemma byte_halves b : 0 <= b < 256 -> 0 <= b / 16 < 16 /\ 0 <= b mod 16 < 16.
Proof. intros Hb. split; [|apply Z.mod_pos_bound; lia]. split; [apply Z.div_pos; lia|apply Z.div_lt_upper_bound; lia]. Qed.
Lemma plain_not_equal b : qp_plain b || isWhitespace b = true -> (b =? 61) = false.
Proof. unfold qp_plain, isWhitespace, between. lia. Qed.
Lemma quoted_decode e t : quoted e t -> forall rest, decode_quoted (e ++ rest) = t ++ decode_quoted rest.
Proof.
  induction 1 as [|e t b _ IH Hb|e t b _ IH Hb|e t _ IH|e t _ IH]; intros rest; [done|rewrite <- ?app_assoc, IH; cbn [app decode_quoted]..].
  - by rewrite (plain_not_equal b Hb).
  - destruct (byte_halves b Hb) as [Hh Hl]. cbn [Z.eqb Pos.eqb]. rewrite (upperhex_val _ Hh), (upperhex_val _ Hl).
    pose proof (upperhex_range _ Hh). replace (upperhex (b / 16) =? 13) with false by lia. cbn [andb]. do 2 f_equal. pose proof (Z.div_mod b 16 ltac:(lia)). lia.
  - done.
  - done.
Qed.
Lemma quoted_last e t b : isWhitespace b = true -> quoted (e ++ [b]) t -> exists t', t = t' ++ [b] /\ quoted e t'.
Proof.
  intros Hb Hq. assert (b = 32 \/ b = 9) as Hc by (unfold isWhitespace in Hb; lia). remember (e ++ [b]) as x eqn:E.
  destruct Hq as [|e' t b' Hq Hp|e' t b' Hq Hp|e' t Hq|e' t Hq].
  - by destruct e.
  - apply app_inj_tail in E as [-> ->]. by exists t.
  - change (e' ++ [61; upperhex (b' / 16); upperhex (b' mod 16)]) with (e' ++ [61; upperhex (b' / 16)] ++ [upperhex (b' mod 16)]) in E.
    rewrite app_assoc in E. apply app_inj_tail in E as [_ E]. pose proof (upperhex_range _ (proj2 (byte_halves b' Hp))). lia.
  - change (e' ++ [61; 13; 10]) with (e' ++ [61; 13] ++ [10]) in E. rewrite app_assoc in E. apply app_inj_tail in E as [_ E]. lia.
  - change (e' ++ [13; 10]) with (e' ++ [13] ++ [10]) in E. rewrite app_assoc in E. apply app_inj_tail in E as [_ E]. lia.
Qed.

(** The writer has written an encoding of a text. *)
Definition wrote (w : qp_writer) (t : list Z) : Prop := quoted (qp_out w ++ qp_line w) t.
Lemma wrote_soft w t : wrote w t -> wrote (insertSoftLineBreak w) t.
Proof.
  unfold wrote, insertSoftLineBreak, insertCRLF. cbn. rewrite app_nil_r, <- (app_assoc (qp_line w)), app_assoc. intros Hq. exact (quoted_soft _ _ Hq).
Qed.
Lemma wrote_encode b w t : 0 <= b < 256 -> wrote w t -> wrote (encode_byte b w) (t ++ [b]).
Proof.
  intros Hb Hw. unfold encode_byte. set (w' := if _ <? 3 then insertSoftLineBreak w else w).
  assert (wrote w' t) as Hw' by (unfold w'; destruct (_ <? 3); [by apply wrote_soft|done]).
  unfold wrote. cbn [qp_out qp_line]. rewrite app_assoc. by apply quoted_code.
Qed.
Lemma wrote_check w t : wrote w t -> wrote (checkLastByte w) t.
Proof.
  intros Hw. unfold checkLastByte. destruct (last (qp_line w)) as [b|] eqn:El; [|done]. destruct (isWhitespace b) eqn:Eb; [|done].
  apply last_Some in El as [l El]. unfold wrote in Hw. rewrite El, app_assoc in Hw. destruct (quoted_last _ _ _ Eb Hw) as (t' & -> & Hq).
  apply wrote_encode; [unfold isWhitespace in Eb; lia|]. rewrite El, removelast_last. exact Hq.
Qed.
Lemma qp_write_cr w b : b <> 13 -> qp_cr w = false -> qp_cr (qp_write w b) = false.
Proof.
  intros Hb Hc. unfold qp_write. destruct (_ || _) eqn:E; [unfold write_plain; destruct ((b =? 10) || (b =? 13))|].
  - rewrite Hc. cbn. lia.
  - done.
  - unfold encode_byte, insertSoftLineBreak, insertCRLF. by destruct (_ <? 3).
Qed.
Definition break (b : Z) : list Z := if b =? 10 then [13; 10] else [b].
Lemma wrote_write w t b : 0 <= b < 256 -> b <> 13 -> qp_cr w = false -> wrote w t -> wrote (qp_write w b) (t ++ break b).
Proof.
  intros Hr Hb Hc Hw. unfold qp_write, break, write_plain. replace (b =? 13) with false by lia. rewrite Hc, !orb_false_r. cbn [andb].
  destruct (Z.eqb_spec b 10) as [->|Hne].
  - rewrite orb_true_r. apply wrote_check in Hw. unfold wrote in *. unfold insertCRLF. cbn. rewrite app_nil_r, app_assoc. by apply quoted_break.
  - rewrite orb_false_r. destruct (qp_plain b || isWhitespace b) eqn:Ep; [|by apply wrote_encode].
    set (w' := if _ =? _ then insertSoftLineBreak w else w). assert (wrote w' t) as Hw' by (unfold w'; destruct (_ =? _); [by apply wrote_soft|done]).
    unfold wrote. cbn. rewrite app_assoc. by apply quoted_plain.
Qed.
Lemma wrote_all l : Forall (fun b => 0 <= b < 256 /\ b <> 13) l -> forall w t, qp_cr w = false -> wrote w t ->
  wrote (fold_left qp_write l w) (t ++ concat (map break l)).
Proof.
  induction 1 as [|b l [Hr Hb] _ IH]; intros w t Hc Hw; cbn; [by rewrite app_nil_r|]. rewrite app_assoc.
  apply IH; [by apply qp_write_cr|by apply wrote_write].
Qed.

(** ** Line breaks *)
Fixpoint avoids (c : ascii) (s : string) : bool :=
  match s with EmptyString => true | String x s' => negb (Ascii.eqb x c) && avoids c s' end.
Definition is_break (c : ascii) : Prop := c = CR \/ c = LF.
(** A text of one line. *)
Definition one_line (s : string) : Prop := forall c, is_break c -> avoids c s = true.
Lemma avoids_app c s t : avoids c (s ++ t) = avoids c s && avoids c t.
Proof. induction s as [|x s IH]; [done|]. rewrite str_app_cons. cbn. by rewrite IH, andb_assoc. Qed.
Lemma one_line_app s t : one_line s -> one_line t -> one_line (s ++ t).
Proof. intros Hs Ht c Hc. by rewrite avoids_app, Hs, Ht. Qed.
Lemma one_line_replaced c x s : is_break c -> x <> c -> avoids c (replace_byte c (String x "") s) = true.
Proof.
  intros Hc Hx. induction s as [|y s IH]; [done|]. cbn. rewrite avoids_app, IH, andb_true_r.
  destruct (Ascii.eqb_spec y c) as [->|Hy]; cbn; rewrite andb_true_r, negb_true_iff; by apply Ascii.eqb_neq.
Qed.
Lemma avoids_kept c d x s : x <> c -> avoids c s = true -> avoids c (replace_byte d (String x "") s) = true.
Proof.
  intros Hx. induction s as [|y s IH]; [done|]. cbn. intros [Hy Hs]%andb_true_iff. rewrite avoids_app, IH by done. rewrite andb_true_r.
  destruct (Ascii.eqb y d); cbn; rewrite andb_true_r; [by apply negb_true_iff, Ascii.eqb_neq|done].
Qed.
Lemma one_line_sanitized s : one_line (sanitizeHeader s).
Proof.
  intros c [->| ->]; unfold sanitizeHeader; [apply avoids_kept; [done|]|]; apply one_line_replaced; [by left|done|by right|done].
Qed.
Lemma one_line_joined sep l : one_line sep -> Forall one_line l -> one_line (String.concat sep l).
Proof.
  intros Hs. induction 1 as [|s l Hl _ IH]; [by intros c _|]. destruct l as [|t l]; [done|]. change (String.concat sep (s :: t :: l)) with (s ++ sep ++ String.concat sep (t :: l))%string.
  by repeat apply one_line_app.
Qed.
Lemma one_line_const s : avoids CR s && avoids LF s = true -> one_line s.
Proof. by intros [H1 H2]%andb_true_iff c [->| ->]. Qed.
Ltac const_line := apply one_line_const; vm_compute; reflexivity.
Lemma one_line_digit d : one_line (String (digit_char (d mod 10)) "").
Proof.
  pose proof (Z.mod_pos_bound d 10 ltac:(lia)) as Hd. revert Hd. generalize (d mod 10). intros k Hk.
  assert (k = 0 \/ k = 1 \/ k = 2 \/ k = 3 \/ k = 4 \/ k = 5 \/ k = 6 \/ k = 7 \/ k = 8 \/ k = 9) as Hc by lia.
  repeat destruct Hc as [->|Hc]; [const_line..|subst k; const_line].
Qed.
Lemma one_line_pad2 n : one_line (pad2 n).
Proof.
  unfold pad2. change (String (digit_char (n / 10 mod 10)) (String (digit_char (n mod 10)) "")) with
    (String (digit_char (n / 10 mod 10)) "" ++ String (digit_char (n mod 10)) "")%string. apply one_line_app; apply one_line_digit.
Qed.
Lemma one_line_pretty_go x : forall s, one_line s -> one_line (pretty_N_go x s).
Proof.
  induction (N.lt_wf_0 x) as [x _ IH]; intros s Hs. assert (x = 0 \/ 0 < x)%N as [->|Hx] by lia; [by rewrite pretty_N_go_0|].
  rewrite pretty_N_go_step by done. apply IH; [by apply N.div_lt|]. change (one_line (String (pretty_N_char (x `mod` 10)) "" ++ s)).
  apply one_line_app; [|done]. unfold pretty_N_char. repeat case_match; const_line.
Qed.
Lemma one_line_pretty (z : Z) : one_line (pretty z).
Proof.
  assert (forall n : N, one_line (pretty n)) as Hn.
  { intros n. unfold pretty, pretty_N. destruct (decide (n = 0%N)); [const_line|by apply one_line_pretty_go; const_line]. }
  unfold pretty, pretty_Z. destruct z as [|p|p]; [const_line|apply Hn|]. change (one_line ("-" ++ pretty (N.pos p))). apply one_line_app; [const_line|apply Hn].
Qed.
Lemma one_line_year y : one_line (year_text y).
Proof.
  assert (one_line (if Z.abs y <=? 9999 then pad4 (Z.abs y) else pretty (Z.abs y))) as Ha.
  { destruct (_ <=? _); [unfold pad4; apply one_line_app; apply one_line_pad2|apply one_line_pretty]. }
  unfold year_text. destruct (y <? 0); [|done]. change (one_line ("-" ++ (if Z.abs y <=? 9999 then pad4 (Z.abs y) else pretty (Z.abs y)))).
  apply one_line_app; [const_line|done].
Qed.
Lemma one_line_nth l i : Forall one_line l -> one_line (nth i l "").
Proof. intros Hl. revert i. induction Hl as [|s l Hs _ IH]; intros [|i]; [const_line..|done|apply IH]. Qed.
Lemma one_line_date zone t : one_line (format_rfc1123z zone t).
Proof.
  unfold format_rfc1123z. destruct (local_date zone t) as [[y m] d]. unfold numeric_zone.
  repeat apply one_line_app; lazymatch goal with
  | |- one_line (pad2 _) => apply one_line_pad2
  | |- one_line (year_text _) => apply one_line_year
  | |- one_line (weekday_name _) => apply one_line_nth; repeat constructor; const_line
  | |- one_line (month_name _) => apply one_line_nth; repeat constructor; const_line
  | |- one_line (if ?c then _ else _) => destruct c; const_line
  | _ => const_line
  end.
Qed.

(** ** Cutting at a separator *)
Lemma prefix_app p s : has_prefix p (p ++ s) = true.
Proof. unfold has_prefix. induction p as [|c p IH]; [by destruct s|]. rewrite str_app_cons. cbn. by destruct (ascii_dec c c). Qed.
Lemma substring_all s : String.substring 0 (String.length s) s = s.
Proof. induction s as [|c s IH]; [done|]. cbn. by rewrite IH. Qed.
Lemma trim_prefix_app p s : trim_prefix p (p ++ s) = s.
Proof.
  unfold trim_prefix. rewrite prefix_app, string_length_app. replace (String.length p + String.length s - String.length p)%nat with (String.length s) by lia.
  induction p as [|c p IH]; [apply substring_all|]. rewrite str_app_cons. exact IH.
Qed.
Lemma cut_avoided c sep s t : avoids c s = true -> cut_text (String c sep) (s ++ String c sep ++ t) = Some (s, t).
Proof.
  induction s as [|x s IH]; intros Hs.
  - change (("" ++ String c sep ++ t)%string) with (String c (sep ++ t)). cbn [cut_text]. rewrite <- str_app_cons, prefix_app, trim_prefix_app. done.
  - cbn [avoids] in Hs. apply andb_true_iff in Hs as [Hx Hs]. apply negb_true_iff, Ascii.eqb_neq in Hx. rewrite str_app_cons. cbn [cut_text].
    assert (has_prefix (String c sep) (String x (s ++ String c sep ++ t)) = false) as ->; [|by rewrite IH].
    unfold has_prefix. cbn. by destruct (ascii_dec c x).
Qed.
(** A separator whose first byte it holds once does not overlap with itself. *)
Lemma prefix_inv p s : has_prefix p s = true -> exists r, s = (p ++ r)%string.
Proof.
  unfold has_prefix. revert s. induction p as [|c p IH]; intros s Hp; [by exists s|]. destruct s as [|x s]; [done|]. cbn in Hp.
  destruct (ascii_dec c x) as [->|]; [|done]. destruct (IH s Hp) as [r ->]. by exists r.
Qed.
Lemma contains_app n s t : contains n t = true -> contains n (s ++ t) = true.
Proof. intros Ht. induction s as [|c s IH]; [done|]. rewrite str_app_cons. cbn [contains]. rewrite IH. apply orb_true_r. Qed.
Lemma contains_prefix n s : has_prefix n s = true -> contains n s = true.
Proof. destruct s; cbn [contains]; intros ->; done. Qed.
Lemma avoids_overlap c sep : avoids c sep = true -> forall s r t, (s ++ String c r)%string = (sep ++ t)%string ->
  exists s', s = (sep ++ s')%string.
Proof.
  induction sep as [|x sep IH]; intros Hs s r t E; [by exists s|]. cbn in Hs. apply andb_true_iff in Hs as [Hx Hs]. apply negb_true_iff, Ascii.eqb_neq in Hx.
  destruct s as [|y s]; [by injection E as ->|]. rewrite !str_app_cons in E. injection E as -> E. destruct (IH Hs _ _ _ E) as [s' ->]. by exists s'.
Qed.
Lemma cut_marked c sep s t : avoids c sep = true -> contains (String c sep) s = false -> cut_text (String c sep) (s ++ String c sep ++ t) = Some (s, t).
Proof.
  intros Hsep. induction s as [|x s IH]; intros Hs.
  - change (("" ++ String c sep ++ t)%string) with (String c (sep ++ t)). cbn [cut_text]. by rewrite <- str_app_cons, prefix_app, trim_prefix_app.
  - cbn [contains] in Hs. apply orb_false_iff in Hs as [Hp Hs]. rewrite str_app_cons. cbn [cut_text].
    assert (has_prefix (String c sep) (String x (s ++ String c sep ++ t)) = false) as ->; [|by rewrite IH].
    apply not_true_iff_false. intros [r E]%prefix_inv. rewrite str_app_cons in E. injection E as -> E.
    destruct (avoids_overlap c sep Hsep s _ _ E) as [s' ->]. rewrite <- str_app_cons, prefix_app in Hp. done.
Qed.

(** ** The reader of a mail *)
Fixpoint read_fields (fuel : nat) (s : string) : list string * string :=
  match fuel with
  | O => ([], s)
  | S fuel' =>
    match cut_text crlf s with
    | None => ([], s)
    | Some (line, rest) =>
      if String.eqb line "" then ([], rest) else let '(fields, body) := read_fields fuel' rest in (line :: fields, body)
    end
  end.
Definition read_part (s : string) : option (string * string) :=
  match read_fields (S (String.length s)) s with
  | ([encoding; type], body) =>
    if String.eqb encoding "Content-Transfer-Encoding: quoted-printable"
    then Some (trim_prefix "Content-Type: " type, of_bytes (decode_quoted (bytes body))) else None
  | _ => None
  end.
(** What follows a delimiter. *)
Fixpoint read_parts (fuel : nat) (boundary s : string) : option (list (string * string)) :=
  match fuel with
  | O => None
  | S fuel' =>
    if has_prefix "--" s then Some []
    else match cut_text (crlf ++ "--" ++ boundary) (trim_prefix crlf s) with
         | None => None
         | Some (text, rest) => part ← read_part text; parts ← read_parts fuel' boundary rest; Some (part :: parts)
         end
  end.
Definition multipart_type : string := "Content-Type: multipart/alternative; boundary=".
Definition read_mail (s : string) : option (list string * list (string * string)) :=
  let '(fields, body) := read_fields (S (String.length s)) s in
  match last fields with
  | None => None
  | Some type =>
    if has_prefix multipart_type type then
      let delimiter := ("--" ++ trim_prefix multipart_type type)%string in
      if has_prefix delimiter body then
        parts ← read_parts (S (String.length body)) (trim_prefix multipart_type type) (trim_prefix delimiter body); Some (fields, parts)
      else None
    else Some (fields, [(trim_prefix "Content-Type: " type, body)])
  end.

Fixpoint fields_text (l : list string) : string :=
  match l with [] => EmptyString | f :: l' => (f ++ crlf ++ fields_text l')%string end.
Lemma fields_length l body : (length l < S (String.length (fields_text l ++ crlf ++ body)))%nat.
Proof. induction l as [|f l IH]; cbn [fields_text length]; [lia|]. rewrite str_app_assoc, string_length_app, str_app_assoc, string_length_app. change (String.length crlf) with 2%nat. lia. Qed.
Lemma read_fields_text l body : Forall (fun f => avoids CR f = true /\ f <> ""%string) l -> forall fuel, (length l < fuel)%nat ->
  read_fields fuel (fields_text l ++ crlf ++ body) = (l, body).
Proof.
  induction 1 as [|f l [Hf Hne] _ IH]; intros [|fuel] Hl; try (cbn in Hl; lia); cbn [fields_text read_fields].
  - change (("" ++ crlf ++ body)%string) with ("" ++ String CR (String LF "") ++ body)%string. unfold crlf. by rewrite cut_avoided.
  - rewrite !str_app_assoc. unfold crlf at 1 2. rewrite cut_avoided by done. apply String.eqb_neq in Hne as ->.
    rewrite IH by (cbn in Hl; lia). done.
Qed.

(** *** The texts *)
Lemma avoids_bytes c s : avoids c s = true -> ~ In (Z.of_nat (nat_of_ascii c)) (bytes s).
Proof.
  induction s as [|x s IH]; cbn; [by intros _ []|]. intros [Hx Hs]%andb_true_iff [E|Hi]; [|by apply IH].
  apply negb_true_iff, Ascii.eqb_neq in Hx. apply Hx. rewrite <- (ascii_nat_embedding x), <- (ascii_nat_embedding c). f_equal. lia.
Qed.
Lemma bytes_of_bytes l : Forall (fun b => 0 <= b < 256) l -> bytes (of_bytes l) = l.
Proof.
  induction 1 as [|b l Hb _ IH]; [done|]. cbn. rewrite IH. f_equal. rewrite nat_ascii_embedding by lia. lia.
Qed.
Lemma of_bytes_app a b : of_bytes (a ++ b) = (of_bytes a ++ of_bytes b)%string.
Proof. induction a as [|x a IH]; [done|]. cbn. by rewrite IH. Qed.
Lemma quoted_range e t : quoted e t -> Forall (fun b => 0 <= b < 256) e.
Proof.
  induction 1 as [|e t b _ IH Hb|e t b _ IH Hb|e t _ IH|e t _ IH]; [constructor|apply Forall_app; split; [done|]..]; repeat constructor; try lia.
  - unfold qp_plain, isWhitespace, between in Hb. lia.
  - unfold qp_plain, isWhitespace, between in Hb. lia.
  - destruct (byte_halves b Hb) as [Hh _]. pose proof (upperhex_range _ Hh). lia.
  - destruct (byte_halves b Hb) as [Hh _]. unfold upperhex. destruct (_ <? 10); lia.
  - destruct (byte_halves b Hb) as [_ Hh]. pose proof (upperhex_range _ Hh). lia.
  - destruct (byte_halves b Hb) as [_ Hh]. unfold upperhex. destruct (_ <? 10); lia.
Qed.
Lemma breaks_text s : of_bytes (concat (map break (bytes s))) = replace_byte LF crlf s.
Proof.
  induction s as [|c s IH]; [done|]. cbn [bytes map concat replace_byte]. rewrite of_bytes_app, IH. f_equal. unfold break.
  destruct (Ascii.eqb_spec c LF) as [->|Hc]; [done|]. destruct (Z.eqb_spec (Z.of_nat (nat_of_ascii c)) 10) as [E|_].
  - exfalso. apply Hc. rewrite <- (ascii_nat_embedding c). by replace (nat_of_ascii c) with 10%nat by lia.
  - cbn. by rewrite Nat2Z.id, ascii_nat_embedding.
Qed.
Lemma quoted_printable_read text : avoids CR text = true -> of_bytes (decode_quoted (bytes (quoted_printable text))) = replace_byte LF crlf text.
Proof.
  intros Ht. unfold quoted_printable. set (w := checkLastByte _).
  assert (wrote w (concat (map break (bytes text)))) as Hw.
  { apply wrote_check. apply (wrote_all (bytes text)) with (t := []); [|done|apply quoted_nil]. pose proof (bytes_range text) as Hr. rewrite Forall_forall in Hr |- *.
    intros b Hb. split; [by apply Hr|]. intros ->. apply (avoids_bytes CR text Ht). by apply list_elem_of_In in Hb. }
  rewrite bytes_of_bytes by (by eapply quoted_range). rewrite <- (app_nil_r (qp_out w ++ qp_line w)), (quoted_decode _ _ Hw). cbn. by rewrite app_nil_r, breaks_text.
Qed.

(** *** The parts *)
Definition part_fields (type : string) : list string :=
  ["Content-Transfer-Encoding: quoted-printable"%string; ("Content-Type: " ++ type)%string].
Lemma mime_part_fields type text : mime_part type text = (fields_text (part_fields type) ++ crlf ++ quoted_printable text)%string.
Proof. unfold mime_part, part_fields. cbn [fields_text]. by rewrite !str_app_assoc. Qed.
Lemma read_mime_part type text : avoids CR type = true -> avoids CR text = true ->
  read_part (mime_part type text) = Some (type, replace_byte LF crlf text).
Proof.
  intros Hy Ht. unfold read_part. rewrite mime_part_fields, (read_fields_text _ _).
  - unfold part_fields. cbn [String.eqb Ascii.eqb Bool.eqb]. rewrite trim_prefix_app, quoted_printable_read by done. done.
  - constructor; [done|]. constructor; [|constructor]. split; [by rewrite avoids_app, Hy|done].
  - apply fields_length.
Qed.
Fixpoint after_delimiter (boundary : string) (parts : list (string * string)) : string :=
  match parts with
  | [] => ("--" ++ crlf)%string
  | (type, text) :: rest => (crlf ++ mime_part type text ++ crlf ++ "--" ++ boundary ++ after_delimiter boundary rest)%string
  end.
Lemma more_delimited boundary parts : more_parts boundary parts = (crlf ++ "--" ++ boundary ++ after_delimiter boundary parts)%string.
Proof. induction parts as [|[type text] parts IH]; [done|]. cbn [more_parts after_delimiter]. by rewrite IH. Qed.
Lemma multipart_delimited boundary part parts : multipart boundary (part :: parts) = ("--" ++ boundary ++ after_delimiter boundary (part :: parts))%string.
Proof. destruct part as [type text]. cbn [multipart after_delimiter]. by rewrite more_delimited. Qed.
(** A part that can be delimited by the boundary. *)
Definition delimited (boundary : string) (part : string * string) : Prop :=
  avoids CR (fst part) = true /\ avoids CR (snd part) = true /\ contains boundary (mime_part (fst part) (snd part)) = false.
Lemma contains_part p n s : contains n s = false -> contains (p ++ n) s = false.
Proof.
  intros Hn. apply not_true_iff_false. intros Hc. apply not_true_iff_false in Hn. apply Hn. clear Hn.
  induction s as [|c s IH]; cbn [contains] in Hc |- *; apply orb_true_iff in Hc as [Hc|Hc].
  - apply prefix_inv in Hc as [r E]. rewrite str_app_assoc in E. destruct p; [|done]. cbn in E. destruct n; [done|done].
  - done.
  - apply prefix_inv in Hc as [r E]. rewrite str_app_assoc in E. change (contains n (String c s) = true). rewrite E. apply contains_app, contains_prefix, prefix_app.
  - rewrite IH by done. apply orb_true_r.
Qed.
Lemma read_delimited boundary parts : avoids CR boundary = true -> Forall (delimited boundary) parts -> forall fuel, (length parts < fuel)%nat ->
  read_parts fuel boundary (after_delimiter boundary parts) = Some (map (fun part => (fst part, replace_byte LF crlf (snd part))) parts).
Proof.
  intros Hb. induction 1 as [|[type text] parts (Hy & Ht & Hc) _ IH]; intros [|fuel] Hf; try (cbn in Hf; lia); [done|]. cbn [fst snd] in *.
  cbn [after_delimiter read_parts map fst snd]. rewrite trim_prefix_app. change (has_prefix "--" (crlf ++ _)) with false. cbn iota.
  assert (cut_text (crlf ++ "--" ++ boundary) (mime_part type text ++ crlf ++ "--" ++ boundary ++ after_delimiter boundary parts) =
    Some (mime_part type text, after_delimiter boundary parts)) as ->.
  { change (crlf ++ "--" ++ boundary)%string with (String CR (String LF "--" ++ boundary)).
    change (crlf ++ "--" ++ boundary ++ after_delimiter boundary parts)%string with (String CR (String LF "--" ++ boundary ++ after_delimiter boundary parts)).
    rewrite <- (str_app_assoc (String LF "--")), <- str_app_cons. apply cut_marked; [by rewrite avoids_app, Hb|].
    change (String CR (String LF "--" ++ boundary)) with (crlf ++ "--" ++ boundary)%string. rewrite <- str_app_assoc. by apply contains_part. }
  rewrite read_mime_part by done. cbn [mbind option_bind]. rewrite IH by (cbn in Hf; lia). done.
Qed.
Lemma delimited_length boundary parts : (length parts < S (String.length (after_delimiter boundary parts)))%nat.
Proof.
  induction parts as [|[type text] parts IH]; cbn [after_delimiter length]; [lia|].
  rewrite !string_length_app. change (String.length crlf) with 2%nat. lia.
Qed.

(** ** The markup *)
(** The tags of a text, after its beginning in a tag, or not. *)
Fixpoint scan (inside : option string) (s : string) : list string * option string :=
  match s with
  | EmptyString => ([], inside)
  | String c s' =>
    match inside with
    | None => scan (if Ascii.eqb c "<" then Some EmptyString else None) s'
    | Some tag =>
      if Ascii.eqb c ">" then let '(tags, inside') := scan None s' in (tag :: tags, inside')
      else scan (Some (tag ++ String c EmptyString)%string) s'
    end
  end.
Definition tags (s : string) : list string := fst (scan None s).
Lemma scan_app s t : forall i, scan i (s ++ t) = (fst (scan i s) ++ fst (scan (snd (scan i s)) t), snd (scan (snd (scan i s)) t)).
Proof.
  induction s as [|c s IH]; intros i; [by destruct (scan i t) as [l x] eqn:E; cbn; rewrite E|]. rewrite str_app_cons. cbn [scan].
  destruct i as [tag|]; [|by rewrite IH]. destruct (Ascii.eqb c ">"); [|by rewrite IH]. rewrite IH. by destruct (scan None s).
Qed.
(** The tags of the mails of three messages that hold no special character. *)
Definition samples : list mail_message :=
  let report body := MailMessage 1 "" "report" "OnlyBackup: report periodico" body 0 0 0 0 "" in
  let rows := ("Azione: a" ++ newline ++ "Ultime copie:" ++ newline ++ "- b: c")%string in
  [ report ("Esito: OK" ++ newline ++ rows)%string; report rows; MailMessage 1 "" "anomaly" "" "a" 0 0 0 0 "" ].
Definition template_tags : list string := concat (map (fun m => tags (renderMailHTML m)) samples).

(** A text that is outside of tags at its end, and has but those of the template. *)
Definition harmless (s : string) : bool :=
  forallb (fun tag => existsb (String.eqb tag) template_tags) (fst (scan None s)) && match snd (scan None s) with None => true | Some _ => false end.
Lemma harmless_app s t : harmless s = true -> harmless t = true -> harmless (s ++ t) = true.
Proof.
  unfold harmless. intros [Hs Es]%andb_true_iff [Ht Et]%andb_true_iff. rewrite scan_app. destruct (snd (scan None s)); [done|]. cbn [fst snd].
  by rewrite forallb_app, Hs, Ht.
Qed.
Lemma harmless_joined l : Forall (fun s => harmless s = true) l -> harmless (String.concat "" l) = true.
Proof.
  induction 1 as [|s l Hs _ IH]; [done|]. destruct l as [|t l]; [done|]. change (String.concat "" (s :: t :: l)) with (s ++ String.concat "" (t :: l))%string.
  by apply harmless_app.
Qed.
Lemma scan_escape c s : scan None (escape_char c ++ s) = scan None s.
Proof.
  unfold escape_char. destruct (Ascii.eqb_spec c "&"); [done|]. destruct (Ascii.eqb_spec c "'"); [done|].
  destruct (Ascii.eqb c "<") eqn:E; [done|]. destruct (Ascii.eqb c ">"); [done|]. destruct (Ascii.eqb c "034"); [done|].
  rewrite str_app_cons. cbn [scan]. by rewrite E.
Qed.
Lemma harmless_escaped s : harmless (EscapeString s) = true.
Proof.
  assert (scan None (EscapeString s) = ([], None)) as E; [|unfold harmless; by rewrite E].
  induction s as [|c s IH]; [done|]. cbn [EscapeString]. by rewrite scan_escape.
Qed.
Ltac pieces := repeat lazymatch goal with |- harmless (String.append _ _) = true => apply harmless_app end;
  first [apply harmless_escaped|vm_compute; reflexivity].
Lemma harmless_row line : harmless (report_row line) = true.
Proof.
  unfold report_row. destruct (_ || _); [vm_compute; reflexivity|]. destruct (String.eqb line _); [vm_compute; reflexivity|].
  destruct (cut_text _ _) as [[label value]|]; [pieces|vm_compute; reflexivity].
Qed.
(** The looks that a mail can have. *)
Definition looks : list look := map look_of samples.
Lemma look_sampled m : In (look_of m) (if all_well m then take 1 looks else drop 1 looks).
Proof. unfold look_of. destruct (all_well m); [by left|]. destruct (is_alert m); [right; by left|by left]. Qed.
Lemma harmless_action k action good : In k looks -> harmless (action_box (lk_accent k) action good) = true.
Proof.
  intros Hk. unfold action_box. destruct (String.eqb action ""); [vm_compute; reflexivity|]. rewrite <- (str_app_assoc (lk_accent k)), <- str_app_assoc.
  apply harmless_app; [|destruct good; pieces]. destruct Hk as [<-|[<-|[<-|[]]]]; vm_compute; reflexivity.
Qed.
Lemma harmless_report k body good : In k looks -> harmless (renderReportHTML body (lk_accent k) good) = true.
Proof.
  intros Hk. apply harmless_app; [by apply harmless_action|]. apply harmless_joined, Forall_forall. intros s (line & <- & _)%list_elem_of_In%in_map_iff. apply harmless_row.
Qed.
Lemma harmless_alert k body : In k (drop 1 looks) -> harmless (alert_box k body) = true.
Proof.
  intros Hk. unfold alert_box. apply harmless_app; [destruct Hk as [<-|[<-|[]]]; vm_compute; reflexivity|]. apply harmless_app; [|vm_compute; reflexivity].
  apply harmless_joined, Forall_forall. intros s (line & <- & _)%list_elem_of_In%in_map_iff. pieces.
Qed.
Lemma harmless_head k : In k looks -> harmless (markup_head k) = true.
Proof. intros [<-|[<-|[<-|[]]]]; vm_compute; reflexivity. Qed.
Lemma harmless_markup m : harmless (renderMailHTML m) = true.
Proof.
  unfold renderMailHTML. destruct (_ && _); [vm_compute; reflexivity|]. pose proof (look_sampled m) as Hk.
  assert (In (look_of m) looks) as Hl by (destruct (all_well m); [destruct Hk as [<-|[]]; by left|by right]).
  apply harmless_app; [by apply harmless_head|]. apply harmless_app; [|vm_compute; reflexivity].
  destruct (is_report m) eqn:Er; [by apply harmless_report|]. apply harmless_alert. unfold all_well in Hk. by rewrite Er in Hk.
Qed.

(** C31. Nothing in a message becomes markup: whatever its subject, its kind and its body,
    every tag of its mail is one of the template, with its attributes, and the markup
    leaves no tag open at its end. *)
Theorem markup_inert m : (forall tag, In tag (tags (renderMailHTML m)) -> In tag template_tags) /\ snd (scan None (renderMailHTML m)) = None.
Proof.
  pose proof (harmless_markup m) as Hm. unfold harmless in Hm. apply andb_true_iff in Hm as [Ht He]. split; [|by destruct (snd _)].
  intros tag Hin. rewrite forallb_forall in Ht. destruct (proj1 (existsb_exists _ _) (Ht tag Hin)) as (x & Hx & ->%String.eqb_eq). exact Hx.
Qed.

(** *** No carriage return comes from nowhere *)
Lemma avoids_escaped c s : is_break c -> avoids c s = true -> avoids c (EscapeString s) = true.
Proof.
  intros Hc. induction s as [|x s IH]; [done|]. cbn [avoids EscapeString]. intros [Hx Hs]%andb_true_iff. rewrite avoids_app, IH by done. rewrite andb_true_r.
  unfold escape_char. repeat lazymatch goal with |- context [if ?b then _ else _] => destruct b end; try (by destruct Hc as [->| ->]).
  cbn. by rewrite Hx.
Qed.
Lemma avoids_split c sep s : avoids c s = true -> Forall (fun line => avoids c line = true) (split_at sep s).
Proof.
  induction s as [|x s IH]; [by repeat constructor|]. cbn [avoids split_at]. intros [Hx Hs]%andb_true_iff. specialize (IH Hs).
  destruct (Ascii.eqb x sep); [by constructor|]. destruct (split_at sep s) as [|first rest]; [repeat constructor; cbn; by rewrite Hx|].
  inversion IH as [|? ? Hf Hr]; subst. constructor; [cbn; by rewrite Hx|done].
Qed.
Lemma avoids_trim c p s : avoids c s = true -> avoids c (trim_prefix p s) = true.
Proof.
  intros Hs. destruct (has_prefix p s) eqn:E; [|unfold trim_prefix; by rewrite E]. apply prefix_inv in E as [r ->].
  rewrite trim_prefix_app. rewrite avoids_app in Hs. by apply andb_true_iff in Hs as [_ Hr].
Qed.
Lemma avoids_cut c sep s : forall a b, avoids c s = true -> cut_text sep s = Some (a, b) -> avoids c a = true /\ avoids c b = true.
Proof.
  induction s as [|x s IH]; intros a b Hs; cbn [cut_text].
  - destruct (has_prefix sep ""); [|done]. intros [= <- <-]. split; [done|by apply avoids_trim].
  - destruct (has_prefix sep (String x s)); [intros [= <- <-]; split; [done|by apply avoids_trim]|].
    cbn in Hs. apply andb_true_iff in Hs as [Hx Hs]. destruct (cut_text sep s) as [[a' b']|]; [|done]. intros [= <- <-].
    destruct (IH _ _ Hs eq_refl) as [Ha Hb]. split; [cbn; by rewrite Hx, Ha|done].
Qed.
Lemma avoids_joined c l : Forall (fun s => avoids c s = true) l -> avoids c (String.concat "" l) = true.
Proof.
  induction 1 as [|s l Hs _ IH]; [done|]. destruct l as [|t l]; [done|]. change (String.concat "" (s :: t :: l)) with (s ++ String.concat "" (t :: l))%string.
  by rewrite avoids_app, Hs, IH.
Qed.
Ltac no_return := repeat lazymatch goal with
  | |- avoids _ (String.append _ _) = true => rewrite avoids_app; apply andb_true_iff; split
  | |- avoids _ (EscapeString _) = true => apply avoids_escaped; [by left|]
  end; try (vm_compute; reflexivity).
Lemma clean_row line : avoids CR line = true -> avoids CR (report_row line) = true.
Proof.
  intros Hl. unfold report_row. destruct (_ || _); [done|]. destruct (String.eqb line _); [vm_compute; reflexivity|].
  destruct (cut_text _ _) as [[label value]|] eqn:E; [|done]. destruct (avoids_cut _ _ _ _ _ (avoids_trim CR "- " line Hl) E). by no_return.
Qed.
Lemma clean_action lines : Forall (fun line => avoids CR line = true) lines -> avoids CR (last_action lines) = true.
Proof.
  unfold last_action. assert (forall lines action, Forall (fun line => avoids CR line = true) lines -> avoids CR action = true ->
    avoids CR (fold_left (fun action line => if has_prefix "Azione: " line then trim_prefix "Azione: " line else action) lines action) = true) as Hn;
    [|intros Hl; by apply Hn].
  clear lines. induction lines as [|line lines IH]; intros action Hl Ha; [done|]. inversion Hl; subst. cbn [fold_left]. apply IH; [done|].
  destruct (has_prefix _ _); [by apply avoids_trim|done].
Qed.
Lemma clean_report k body good : In k looks -> avoids CR body = true -> avoids CR (renderReportHTML body (lk_accent k) good) = true.
Proof.
  intros Hk Hb. pose proof (avoids_split CR LF body Hb) as Hl. assert (avoids CR (lk_accent k) = true) as Ha by (destruct Hk as [<-|[<-|[<-|[]]]]; done).
  unfold renderReportHTML. rewrite avoids_app. apply andb_true_iff. split.
  - unfold action_box. destruct (String.eqb _ _); [done|]. no_return; [done|destruct good; done|by apply clean_action].
  - apply avoids_joined, Forall_map. eapply Forall_impl; [exact Hl|]. apply clean_row.
Qed.
Lemma clean_alert k body : In k looks -> avoids CR body = true -> avoids CR (alert_box k body) = true.
Proof.
  intros Hk Hb. pose proof (avoids_split CR LF body Hb) as Hl. unfold alert_box. no_return; [destruct Hk as [<-|[<-|[<-|[]]]]; vm_compute; reflexivity|].
  apply avoids_joined, Forall_map, Forall_forall. intros line [Hin _]%list_elem_of_In%filter_In. rewrite Forall_forall in Hl. specialize (Hl line).
  cbn beta. no_return. apply Hl. by apply list_elem_of_In.
Qed.
Lemma clean_markup m : avoids CR (m_Body m) = true -> avoids CR (renderMailHTML m) = true.
Proof.
  intros Hm. unfold renderMailHTML. destruct (_ && _); [done|]. cbv zeta. pose proof (look_sampled m) as Hk.
  assert (In (look_of m) looks) as Hl by (destruct (all_well m); [destruct Hk as [<-|[]]; by left|by right]).
  no_return; [destruct Hl as [<-|[<-|[<-|[]]]]; vm_compute; reflexivity|].
  destruct (is_report m); [by apply clean_report|by apply clean_alert].
Qed.

(** ** A mail is read back *)
Section reading.
Context `{Platform}.
Definition header_fields (zone : location) (from : string) (recipients : list string) (m : mail_message) (t : Z) : list string :=
  [ "From: " ++ sanitizeHeader from; "To: " ++ String.concat ", " recipients; "Subject: " ++ sanitizeHeader (shown_subject m);
    "Message-ID: <" ++ sha256_hex (m_StableID m) ++ "@onlybackup.local>"; "Date: " ++ format_rfc1123z zone t; "MIME-Version: 1.0" ]%string.
Lemma header_fields_text zone from recipients m t type rest :
  (mail_header zone from recipients m t ++ type ++ crlf ++ rest)%string = (fields_text (header_fields zone from recipients m t ++ [type]) ++ rest)%string.
Proof.
  unfold mail_header, header_fields. cbn [app fields_text]. rewrite !str_app_assoc. do 20 f_equal.
Qed.

(** C30. A mail is read back: for an address, recipients and a digest of one line and a
    text without carriage returns, a reader finds exactly the seven header fields, each
    of one line whatever the subject, and the texts of the message, the plain one as it
    is but for its line breaks; for a mail in two parts, when the boundary that was drawn
    is of one line and is in neither part. *)
Theorem mail_reads_back zone from recipients m t boundary :
  Forall one_line recipients -> one_line (sha256_hex (m_StableID m)) -> avoids CR (m_Body m) = true -> one_line boundary ->
  contains boundary (mime_part "text/plain; charset=UTF-8" (m_Body m)) = false ->
  contains boundary (mime_part "text/html; charset=UTF-8" (renderMailHTML m)) = false ->
  exists type, let fields := header_fields zone from recipients m t ++ [type] in Forall one_line fields /\
    read_mail (composeMail zone from recipients m t boundary) = Some (fields,
      if String.eqb (renderMailHTML m) "" then [("text/plain; charset=UTF-8", replace_byte LF crlf (m_Body m) ++ crlf)%string]
      else [("text/plain; charset=UTF-8", replace_byte LF crlf (m_Body m)); ("text/html; charset=UTF-8", replace_byte LF crlf (renderMailHTML m))]%string).
Proof.
  intros Hto Hid Hbody Hb Hplain Hhtml.
  assert (forall type, one_line type -> Forall one_line (header_fields zone from recipients m t ++ [type])) as Hlines.
  { intros type Ht. apply Forall_app. split; [|by constructor]. unfold header_fields.
    assert (one_line "MIME-Version: 1.0") as Hv by const_line.
    repeat (apply Forall_cons; split); [..|constructor]; [| | | | |exact Hv]; (apply one_line_app; [const_line|]).
    - apply one_line_sanitized.
    - apply one_line_joined; [const_line|done].
    - apply one_line_sanitized.
    - apply one_line_app; [done|const_line].
    - apply one_line_date. }
  assert (forall type rest, one_line type -> type <> ""%string ->
    read_fields (S (String.length (mail_header zone from recipients m t ++ type ++ crlf ++ crlf ++ rest))) (mail_header zone from recipients m t ++ type ++ crlf ++ crlf ++ rest)
    = (header_fields zone from recipients m t ++ [type], rest)) as Hread.
  { intros type rest Ht Hne. rewrite header_fields_text. apply read_fields_text; [|apply fields_length].
    apply Forall_app. split.
    - pose proof (Hlines type Ht) as [Hl _]%Forall_app. assert (Forall (fun f => f <> ""%string) (header_fields zone from recipients m t)) as Hn.
      { unfold header_fields. repeat (apply Forall_cons; split; [discriminate|]). constructor. }
      rewrite Forall_forall in Hl, Hn |- *. intros f Hf. split; [apply (Hl f Hf); by left|by apply Hn].
    - repeat constructor; [|done]. apply Ht. by left. }
  unfold composeMail. destruct (String.eqb (renderMailHTML m) "").
  - exists "Content-Type: text/plain; charset=UTF-8"%string. split; [apply Hlines; const_line|]. unfold read_mail.
    rewrite Hread by first [const_line|done]. rewrite last_snoc. reflexivity.
  - exists (multipart_type ++ boundary)%string. split; [apply Hlines, one_line_app; [const_line|done]|]. unfold read_mail.
    change ("Content-Type: multipart/alternative; boundary=" ++ boundary ++ crlf ++ crlf ++ ?r)%string with (multipart_type ++ boundary ++ crlf ++ crlf ++ r)%string.
    rewrite <- (str_app_assoc multipart_type). rewrite Hread; [|apply one_line_app; [const_line|done]|done].
    rewrite last_snoc, prefix_app, trim_prefix_app, multipart_delimited, <- (str_app_assoc "--"), prefix_app, trim_prefix_app.
    rewrite read_delimited; [done|by apply Hb; left| |].
    + repeat constructor; cbn [fst snd]; [done|done|by apply clean_markup|done].
    + apply (Nat.lt_le_trans _ _ _ (delimited_length boundary _)). rewrite string_length_app. lia.
Qed.
End reading.

(** ** A report *)
Module Sample.
#[local] Instance platform : Platform := {|
  LoadLocation := fun _ => Ok UTC; sha256_hex := fun _ => "0123456789abcdef0123456789abcdef0123456789abcdef0123456789abcdef"%string;
  ParseAddress := fun _ => true; ParseAddressList := fun _ => true;
  json_compact := fun s => Ok s; json_model := fun _ => Err (ErrText "json"); local_time_text := fun _ _ => ""%string; julianday := fun _ => 0 |}.
Definition report : mail_message :=
  MailMessage 1 "report:1" "report" ("OnlyBackup: report periodico" ++ crlf ++ "Bcc: altri@example.it")
    ("Esito: OK" ++ newline ++ "Azione: nessuna <b>" ++ newline ++ "Ultime copie:" ++ newline ++ "- ufficio: 2024-01-08") 0 0 0 0 "".
Definition boundary : string := "0123456789abcdef0123456789abcdef0123456789abcdef0123456789ab".
Definition mailed : string := composeMail UTC "archivio@example.it" ["ufficio@example.it"%string] report (1704700800 * Second) boundary.
Lemma mail_reads_back_witness :
  match read_mail mailed with
  | Some (fields, parts) => nth 2 fields "" = "Subject: OnlyBackup: TUTTO OK | report"%string /\ length fields = 7%nat /\ map snd (take 1 parts) = [replace_byte LF crlf (m_Body report)]
  | None => False
  end /\
  exists type, let fields := header_fields UTC "archivio@example.it" ["ufficio@example.it"%string] report (1704700800 * Second) ++ [type] in
    Forall one_line fields /\
    read_mail mailed = Some (fields,
      if String.eqb (renderMailHTML report) "" then [("text/plain; charset=UTF-8", replace_byte LF crlf (m_Body report) ++ crlf)%string]
      else [("text/plain; charset=UTF-8", replace_byte LF crlf (m_Body report)); ("text/html; charset=UTF-8", replace_byte LF crlf (renderMailHTML report))]%string).
Proof.
  split; [vm_compute; by repeat split|].
  assert (Forall one_line ["ufficio@example.it"%string]) as Hto by (repeat constructor; const_line).
  assert (one_line (sha256_hex (m_StableID report))) as Hid by const_line.
  assert (one_line boundary) as Hb by const_line.
  assert (contains boundary (mime_part "text/plain; charset=UTF-8" (m_Body report)) = false) as H1 by (vm_compute; reflexivity).
  assert (contains boundary (mime_part "text/html; charset=UTF-8" (renderMailHTML report)) = false) as H2 by (vm_compute; reflexivity).
  exact (mail_reads_back UTC "archivio@example.it" _ report (1704700800 * Second) boundary Hto Hid ltac:(vm_compute; reflexivity) Hb H1 H2).
Defined.
End Sample.
