(* ===== verification/Smtp.v ===== *)
(** The dialogue with the mail server ([SMTP.Send], [src/internal/maintenance/service.go]),
    over the client of [net/smtp], and what it is worth to the delivery of the queue:
    nothing goes in the clear, and a mail is sent when the server took it. *)
From S2P Require Import Prelude GoTime GoString Model Policy Catalog Letter Io.
From Stdlib Require Import Ascii.

(** ** The wire

    Whether the connection is encrypted, what was said and whether it was then, whether
    the client has greeted, what the server offered, the envelope the server has, the text it
    received, and the mails that it took.  The greetings, EHLO and HELO, give the name
    "localhost" and nothing else. *)
Inductive command : Type :=
| Ehlo | Helo | StartTls | Login (username password : string) | AbortLogin
| MailFrom (address : string) (eight_bits utf8 : bool) | RcptTo (address : string)
| DataCommand | Text (text : string) | EndOfData | QuitCommand.
Record taken_mail : Type := TakenMail { tm_From : string; tm_To : list string; tm_Text : string }.
Record wire : Type := Wire {
  wi_secure : bool; wi_log : list (bool * command); wi_hello : option (result failure unit); wi_ext : option (list string); wi_from : string; wi_to : list string; wi_text : string; wi_taken : list taken_mail }.
#[global] Instance eta_wire : Settable wire := fun w =>
  Wire (wi_secure w) (wi_log w) (wi_hello w) (wi_ext w) (wi_from w) (wi_to w) (wi_text w) (wi_taken w).

Section sender.
Context `{Platform} (zone : location).
(** [netmail.ParseAddress], and the addresses of [netmail.ParseAddressList]; the decoding
    of the credentials; the file of the credentials, its mode and its content. *)
Context (address_of : string -> result err string) (addresses_of : string -> list string).
Context (json_credentials : string -> result err (string * string)).
Context (CredentialsPath : string) (mode : nat -> Z) (contents : nat -> string).
(** What the server offers in its answer to EHLO; whether it accepts the credentials. *)
Context (extensions : nat -> list string) (accepted : nat -> bool).
Context (fate_of : nat -> fate) (clock : nat -> Z) (draws : nat -> string) (short : nat -> option Z).

Abbreviation io := (Io.io wire).
Abbreviation act := (Io.act alone fate_of).

(** *** [net/smtp] *)
Definition noted (c : command) : io unit := fun '(n, w) => (Some tt, (n, w <| wi_log ::= fun l => l ++ [(wi_secure w, c)] |>)).
(** A command and its answer. *)
Definition exchange (c : command) (effect : wire -> wire) : io (result failure unit) := _ ← noted c; act (fun w => (Ok tt, effect w)).
Definition dial (secure : bool) : io (result failure unit) := act (fun w => (Ok tt, w <| wi_secure := secure |> <| wi_from := "" |> <| wi_to := [] |> <| wi_text := "" |>)).
Definition NewClient : io (result failure unit) := act (fun w => (Ok tt, w <| wi_hello := None |> <| wi_ext := None |>)).
Definition now_ {A} (f : nat -> A) : io A := fun '(n, w) => (Some (f n), (n, w)).
Definition ehlo : io (result failure unit) := offered ← now_ extensions; exchange Ehlo (fun w => w <| wi_ext := Some offered |>).
Definition nothing_offered : io unit := fun '(n, w) => (Some tt, (n, w <| wi_ext := None |>)).
Definition helo : io (result failure unit) := _ ← nothing_offered; exchange Helo id.
(** Once on a connection; what it answered is remembered. *)
Definition greeted : io (option (result failure unit)) := fun '(n, w) => (Some (wi_hello w), (n, w)).
Definition remember (r : result failure unit) : io (result failure unit) := fun '(n, w) => (Some r, (n, w <| wi_hello := Some r |>)).
Definition hello : io (result failure unit) :=
  known ← greeted;
  match known with
  | Some r => mret r
  | None => r ← ehlo; r ← match r with Ok _ => mret (Ok tt) | Err _ => helo end; remember r
  end.
Definition StartTLS : io (result failure unit) :=
  _ ←? hello;
  _ ←? exchange StartTls (fun w => w <| wi_secure := true |>);
  ehlo.
Definition isLocalhost (name : string) : bool := String.eqb name "localhost" || String.eqb name "127.0.0.1" || String.eqb name "::1".
Definition Quit : io (result failure unit) := _ ←? hello; exchange QuitCommand id.
(** [client.Auth] with [smtp.PlainAuth], which refuses a connection in the clear; a code
    other than 235, a challenge among them, is answered by giving up. *)
Definition is_secure : io bool := fun '(n, w) => (Some (wi_secure w), (n, w)).
Definition Auth (username password host : string) : io (result failure unit) :=
  _ ←? hello;
  secure ← is_secure;
  if negb secure && negb (isLocalhost host) then _ ← Quit; mret (Err (Failed (ErrText "unencrypted connection")))
  else
    yes ← now_ accepted;
    _ ←? exchange (Login username password) id;
    if (yes : bool) then mret (Ok tt)
    else _ ← exchange AbortLogin id; _ ← Quit; mret (Err (Failed (ErrText "authentication refused"))).
(** The addresses of an envelope hold no line break. *)
Definition validateLine (line : string) : bool := negb (contains_any crlf line).
Definition what_offered : io (option (list string)) := fun '(n, w) => (Some (wi_ext w), (n, w)).
Definition offers (offered : option (list string)) (name : string) : bool :=
  match offered with Some l => existsb (String.eqb name) l | None => false end.
Definition Mail (from : string) : io (result failure unit) :=
  if validateLine from then
    _ ←? hello;
    offered ← what_offered;
    exchange (MailFrom from (offers offered "8BITMIME") (offers offered "SMTPUTF8")) (fun w => w <| wi_from := from |>)
  else mret (Err (Failed (ErrText "smtp: A line must not contain CR or LF"))).
Definition Rcpt (to : string) : io (result failure unit) :=
  if validateLine to then exchange (RcptTo to) (fun w => w <| wi_to ::= fun l => l ++ [to] |>)
  else mret (Err (Failed (ErrText "smtp: A line must not contain CR or LF"))).
Definition Data : io (result failure unit) := exchange DataCommand (fun w => w <| wi_text := "" |>).
(** The text may go in part. *)
Definition Write (text : string) : io (result failure unit) := fun '(n, w) =>
  (_ ← noted (Text text);
   act (fun w => match short n with
                 | Some k => (Err (OsError (EOTHER "short write")), w <| wi_text := str_take k text |>)
                 | None => (Ok tt, w <| wi_text := text |>)
                 end)) (n, w).
Definition CloseData : io (result failure unit) :=
  exchange EndOfData (fun w => w <| wi_taken ::= fun l => l ++ [TakenMail (wi_from w) (wi_to w) (wi_text w)] |>).

(** *** [SMTP.Send] *)
Definition splitRecipients (value : string) : list string := addresses_of (replace_byte ";" "," value).
Definition credentials : io (result failure (string * string)) :=
  if String.eqb CredentialsPath "" then mret (Ok (""%string, ""%string))
  else
    perm ←? (fun '(n, w) => act (fun w => (Ok (mode n), w)) (n, w));
    if negb (Z.land perm 63 =? 0) then mret (Err (Failed (ErrText "file credenziali mail accessibile ad altri utenti")))
    else
      data ←? (fun '(n, w) => act (fun w => (Ok (contents n), w)) (n, w));
      match json_credentials data with
      | Ok c => mret (Ok c)
      | Err _ => mret (Err (Failed (ErrText "file credenziali mail non valido")))
      end.
Fixpoint rcpt_all (recipients : list string) : io (result failure unit) :=
  match recipients with [] => mret (Ok tt) | to :: rest => _ ←? Rcpt to; rcpt_all rest end.
Definition drawn : io string := fun '(n, w) => (Some (draws n), ((n + 1)%nat, w)).
Definition write_mail (body : string) : io (result failure unit) :=
  r ← Write body;
  match r with
  | Err e => _ ← CloseData; mret (Err e)
  | Ok _ => CloseData
  end.
Definition SendMail (settings : mail_settings) (m : mail_message) : io (result failure unit) :=
  c ←? credentials;
  let implicit := ms_TLS settings && (ms_Port settings =? 465) in
  _ ←? dial implicit;
  _ ←? NewClient;
  _ ←? (if ms_TLS settings && negb (ms_Port settings =? 465) then StartTLS else mret (Ok tt));
  _ ←? (if negb (String.eqb (fst c) "") then Auth (fst c) (snd c) (ms_Host settings) else mret (Ok tt));
  from ←? mret (match address_of (ms_From settings) with Ok a => Ok a | Err e => Err (Failed e) end);
  _ ←? Mail from;
  let recipients := splitRecipients (ms_Recipients settings) in
  _ ←? rcpt_all recipients;
  _ ←? Data;
  t ← Io.now clock;
  boundary ← drawn;
  _ ←? write_mail (composeMail zone (ms_From settings) recipients m t boundary);
  Quit.
End sender.

(** What the greeting keeps. *)
Lemma kept_hello extensions fate_of (I R : wire -> Prop) : (forall w, I w -> R w) ->
  (forall w c, I w -> c = Ehlo \/ c = Helo -> I (w <| wi_log ::= fun l => l ++ [(wi_secure w, c)] |>)) ->
  (forall w x, I w -> I (w <| wi_ext := x |>)) -> (forall w h, I w -> I (w <| wi_hello := h |>)) ->
  triple I (ehlo extensions fate_of) (fun _ => I) R /\ triple I (hello extensions fate_of) (fun _ => I) R.
Proof.
  intros HR Hc Hx Hh.
  assert (forall c effect, c = Ehlo \/ c = Helo -> (forall w, I w -> I (effect w)) -> triple I (exchange fate_of c effect) (fun _ => I) R) as Hsaid.
  { intros c effect Hg He. unfold exchange. apply (triple_bind _ _ _ _ (fun _ => I)); [intros n w Hw; by apply Hc|]. intros _.
    eapply triple_weaken; [apply (triple_act_inv alone fate_of I); exact He|done|done|exact HR]. }
  assert (triple I (ehlo extensions fate_of) (fun _ => I) R) as Hehlo.
  { unfold ehlo. apply (triple_bind _ _ _ _ (fun _ => I)); [by intros n w Hw|]. intros offered. apply Hsaid; [by left|]. intros w. apply Hx. }
  split; [done|]. unfold hello. apply (triple_bind _ _ _ _ (fun _ => I)); [by intros n w Hw|]. intros [r|]; [by apply triple_ret|].
  apply (triple_bind _ _ _ _ (fun _ => I)); [exact Hehlo|]. intros r. apply (triple_bind _ _ _ _ (fun _ => I)); [|intros r' n w Hw; by apply Hh].
  destruct r; [by apply triple_ret|]. unfold helo. apply (triple_bind _ _ _ _ (fun _ => I)); [intros n w Hw; by apply Hx|]. intros _. apply Hsaid; [by right|done].
Qed.

(** ** Nothing in the clear *)
Section protected.
Context `{Platform} (zone : location) (address_of : string -> result err string) (addresses_of : string -> list string)
  (json_credentials : string -> result err (string * string)) (CredentialsPath : string) (mode : nat -> Z) (contents : nat -> string)
  (extensions : nat -> list string) (accepted : nat -> bool) (fate_of : nat -> fate) (clock : nat -> Z) (draws : nat -> string) (short : nat -> option Z).
Context (settings : mail_settings) (before : list (bool * command)).

(** What may be said: with TLS all but the greetings and the request for it is encrypted,
    and the credentials are never said in the clear to another computer. *)
Definition opening (c : command) : Prop := c = Ehlo \/ c = Helo \/ c = StartTls.
Definition discreet (said : bool * command) : Prop :=
  (ms_TLS settings = true -> fst said = true \/ opening (snd said)) /\
  (forall username password, snd said = Login username password -> fst said = true \/ isLocalhost (ms_Host settings) = true).
Definition discreetly (w : wire) : Prop := exists more, wi_log w = before ++ more /\ Forall discreet more.
(** The connection is as encrypted as the settings want. *)
Definition sheltered (w : wire) : Prop := discreetly w /\ (ms_TLS settings = true -> wi_secure w = true).
Abbreviation says m := (triple sheltered m (fun _ => sheltered) discreetly).

Lemma says_noted (P Q : wire -> Prop) c : (forall w, P w -> discreetly w /\ discreet (wi_secure w, c) /\ Q (w <| wi_log ::= fun l => l ++ [(wi_secure w, c)] |>)) ->
  triple P (noted c) (fun _ w => discreetly w /\ Q w) discreetly.
Proof.
  intros HP n w Hw. destruct (HP w Hw) as ((more & E & Hm) & Hc & HQ). cbn. split; [|done]. exists (more ++ [(wi_secure w, c)]). cbn.
  rewrite E, app_assoc. split; [done|]. apply Forall_app. split; [done|by constructor].
Qed.
Lemma says_ret {A} (a : A) : says (mret a).
Proof. by apply triple_ret. Qed.
Lemma says_bind {A B} (m : Io.io wire A) (f : A -> Io.io wire B) : says m -> (forall a, says (f a)) -> says (m ≫= f).
Proof. intros Hm Hf. by eapply triple_bind. Qed.
Lemma says_act {A} (effect : wire -> result failure A * wire) :
  (forall w, wi_log (snd (effect w)) = wi_log w /\ wi_secure (snd (effect w)) = wi_secure w) -> says (Io.act alone fate_of effect).
Proof.
  intros He. assert (forall w, sheltered w -> sheltered (snd (effect w))) as Hk.
  { intros w [(more & E & Hm) Hs]. destruct (He w) as [El Es]. split; [exists more; by rewrite El|by rewrite Es]. }
  apply triple_act; [apply _|by intros w []|]. intros w Hw. specialize (Hk w Hw). split; [by destruct Hk|]. split; [done|]. intros f. by split.
Qed.
Lemma says_plain c : (forall u p, c <> Login u p) -> says (noted c).
Proof.
  intros Hc. eapply triple_weaken; [apply (says_noted sheltered (fun w => ms_TLS settings = true -> wi_secure w = true) c)|done|done|done].
  intros w [Hl Hs]. split; [done|]. split; [|done]. split; [by intros Ht; left; apply Hs|by intros u p ?%Hc].
Qed.
Lemma says_exchange c effect : (forall u p, c <> Login u p) -> (forall w, wi_log (effect w) = wi_log w /\ wi_secure (effect w) = wi_secure w) ->
  says (exchange fate_of c effect).
Proof. intros Hc He. unfold exchange. apply says_bind; [by apply says_plain|]. intros _. by apply says_act. Qed.
Lemma says_hello : says (ehlo extensions fate_of) /\ says (hello extensions fate_of).
Proof.
  apply kept_hello; [by intros w []| |done|done]. intros w c [(more & E & Hm) Hs] Hc. split; [|done]. exists (more ++ [(wi_secure w, c)]). cbn. rewrite E, app_assoc.
  split; [done|]. apply Forall_app. split; [done|]. constructor; [|done]. split; [intros _; right; destruct Hc; [by left|by right; left]|by destruct Hc; subst].
Qed.
Lemma says_Quit : says (Quit extensions fate_of).
Proof. unfold Quit. apply says_bind; [apply says_hello|]. intros [[]|e]; [by apply says_exchange|apply says_ret]. Qed.
Lemma says_Auth u p : says (Auth extensions accepted fate_of u p (ms_Host settings)).
Proof.
  unfold Auth. apply says_bind; [apply says_hello|]. intros [[]|e]; [|apply says_ret].
  apply (triple_bind _ _ _ _ (fun secure w => sheltered w /\ wi_secure w = secure)); [by intros n w Hw|]. intros secure.
  destruct (negb secure && negb (isLocalhost (ms_Host settings))) eqn:E.
  - eapply triple_pre; [|by intros w []]. apply says_bind; [apply says_Quit|]. intros _. apply says_ret.
  - apply (triple_bind _ _ _ _ (fun _ w => sheltered w /\ wi_secure w = secure)); [by intros n w Hw|]. intros yes. apply (triple_bind _ _ _ _ (fun _ => sheltered)).
    + unfold exchange. apply (triple_bind _ _ _ _ (fun _ => sheltered)); [|intros _; by apply says_act].
      eapply triple_weaken; [apply (says_noted (fun w => sheltered w /\ wi_secure w = secure) (fun w => ms_TLS settings = true -> wi_secure w = true) (Login u p))|done|done|done].
      intros w [[Hl Hs] <-]. split; [done|]. split; [|done]. split; [by intros Ht; left; apply Hs|]. intros _ _ _. cbn.
      destruct (wi_secure w); [by left|right]. by destruct (isLocalhost _).
    + intros [[]|e]; [|apply says_ret]. destruct yes; [apply says_ret|]. apply says_bind; [by apply says_exchange|]. intros _.
      apply says_bind; [apply says_Quit|]. intros _. apply says_ret.
Qed.
Lemma says_Mail from : says (Mail extensions fate_of from).
Proof.
  unfold Mail. destruct (validateLine from); [|apply says_ret]. apply says_bind; [apply says_hello|]. intros [[]|e]; [|apply says_ret].
  apply says_bind; [by intros n w Hw|]. intros offered. by apply says_exchange.
Qed.
Lemma says_rcpt l : says (rcpt_all fate_of l).
Proof.
  induction l as [|to l IH]; cbn [rcpt_all]; [apply says_ret|]. apply says_bind; [|by intros [[]|e]; [|apply says_ret]].
  unfold Rcpt. destruct (validateLine to); [by apply says_exchange|apply says_ret].
Qed.
Lemma says_write body : says (write_mail fate_of short body).
Proof.
  unfold write_mail, CloseData. apply says_bind.
  - intros n w Hw. unfold Write. revert n w Hw. intros n. 
    assert (says (_ ← noted (Text body); Io.act alone fate_of (fun w => match short n with Some k => (Err (OsError (EOTHER "short write")), w <| wi_text := str_take k body |>) | None => (Ok tt, w <| wi_text := body |>) end))) as Hs.
    { apply says_bind; [by apply says_plain|]. intros _. apply says_act. intros w. by destruct (short n). }
    intros w Hw. exact (Hs n w Hw).
  - intros [[]|e]; [by apply says_exchange|]. apply says_bind; [by apply says_exchange|]. intros _. apply says_ret.
Qed.
Lemma quiet_hello : triple discreetly (hello extensions fate_of) (fun _ => discreetly) discreetly.
Proof.
  apply kept_hello; [done| |done|done]. intros w c (more & E & Hm) Hc. exists (more ++ [(wi_secure w, c)]). cbn. rewrite E, app_assoc.
  split; [done|]. apply Forall_app. split; [done|]. constructor; [|done]. split; [intros _; right; destruct Hc; [by left|by right; left]|by destruct Hc; subst].
Qed.
Lemma quiet_credentials : triple discreetly (credentials json_credentials CredentialsPath mode contents fate_of) (fun _ => discreetly) discreetly.
Proof.
  assert (forall {A} (v : nat -> A), triple discreetly (fun '(n, w) => Io.act alone fate_of (fun w => (Ok (v n), w)) (n, w)) (fun _ => discreetly) discreetly) as Hlook.
  { intros A v n w Hw. apply (triple_act_inv alone fate_of discreetly (fun w => (Ok (v n), w)) ltac:(done) n w Hw). }
  unfold credentials. destruct (String.eqb _ _); [by apply triple_ret|]. apply (triple_bind _ _ _ _ (fun _ => discreetly)); [apply Hlook|].
  intros [perm|e]; [|by apply triple_ret]. destruct (negb _); [by apply triple_ret|]. apply (triple_bind _ _ _ _ (fun _ => discreetly)); [apply Hlook|].
  intros [data|e]; [|by apply triple_ret]. destruct (json_credentials data); by apply triple_ret.
Qed.
Lemma says_dialogue m : triple discreetly
  (SendMail zone address_of addresses_of json_credentials CredentialsPath mode contents extensions accepted fate_of clock draws short settings m) (fun _ => discreetly) discreetly.
Proof.
  assert (forall e : failure, triple discreetly (mret (M:=Io.io wire) (Err (A:=unit) e)) (fun _ => discreetly) discreetly) as Herr by (intros e; by apply triple_ret).
  unfold SendMail. eapply triple_bind; [apply quiet_credentials|]. intros [[u p]|e]; [|apply Herr]. cbn [fst snd].
  set (implicit := ms_TLS settings && (ms_Port settings =? 465)).
  apply (triple_bind _ _ _ _ (fun r w => discreetly w /\ (r = Ok tt -> wi_secure w = implicit))).
  { unfold dial. apply triple_act; [apply _|done|]. intros w Hw. split; [done|]. by split. }
  intros [[]|e]; [|by apply triple_ret; intros w []].
  apply (triple_bind _ _ _ _ (fun _ w => discreetly w /\ wi_secure w = implicit)).
  { unfold NewClient. apply triple_act; [apply _|by intros w []|]. intros w [Hw Hs]. specialize (Hs eq_refl). split; [done|]. by split. }
  intros [[]|e]; [|by apply triple_ret; intros w []].
  apply (triple_bind _ _ _ _ (fun r w => discreetly w /\ (r = Ok tt -> sheltered w))).
  { destruct (ms_TLS settings) eqn:Et; cbn [andb] in *.
    - destruct (ms_Port settings =? 465) eqn:Ep; cbn [negb].
      + apply triple_ret. intros w [Hw Hs]. split; [done|]. intros _. by split.
      + unfold StartTLS. eapply triple_pre; [|intros w [Hw _]; exact Hw].
        apply (triple_try _ _ _ _ (fun _ => discreetly)); [apply quiet_hello|intros _|by intros e w Hw].
        apply (triple_try _ _ _ _ (fun r w => discreetly w /\ (is_ok r = true -> sheltered w))); [|intros []|by intros e w [Hw _]].
        * unfold exchange. apply (triple_bind _ _ _ _ (fun _ w => discreetly w /\ True)).
          -- apply says_noted. intros w Hw. split; [done|]. split; [|done]. split; [intros _; right; by right; right|done].
          -- intros _. apply triple_act; [apply _|by intros w []|]. intros w [Hw _]. split; [done|]. split; [split; [done|]; intros _; by split|]. by split.
        * apply (triple_pre _ sheltered); [|by intros w [_ Hw]; apply Hw]. eapply triple_weaken; [apply says_hello|done| |done].
          intros r w Hw. by split; [destruct Hw|intros _].
    - apply triple_ret. intros w [Hw _]. split; [done|]. intros _. split; [done|by rewrite Et]. }
  intros [[]|e]; [|by apply triple_ret; intros w []]. apply (triple_weaken _ sheltered _ _ (fun _ => sheltered) _ discreetly); [|by intros w [_ Hs]; apply Hs|by intros _ w []|done].
  apply says_bind; [destruct (negb _); [apply says_Auth|apply says_ret]|]. intros [[]|e]; [|apply says_ret].
  apply says_bind; [destruct (address_of _); apply says_ret|]. intros [from|e]; [|apply says_ret].
  apply says_bind; [apply says_Mail|]. intros [[]|e]; [|apply says_ret].
  apply says_bind; [apply says_rcpt|]. intros [[]|e]; [|apply says_ret].
  apply says_bind; [by apply says_exchange|]. intros [[]|e]; [|apply says_ret].
  apply says_bind; [by intros n w Hw|]. intros t. apply says_bind; [by intros n w Hw|]. intros b.
  apply says_bind; [apply says_write|]. intros [[]|e]; [|apply says_ret]. apply says_Quit.
Qed.
End protected.

(** ** What was taken *)
Section taken.
Context `{Platform} (zone : location) (address_of : string -> result err string) (addresses_of : string -> list string)
  (json_credentials : string -> result err (string * string)) (CredentialsPath : string) (mode : nat -> Z) (contents : nat -> string)
  (extensions : nat -> list string) (accepted : nat -> bool) (fate_of : nat -> fate) (clock : nat -> Z) (draws : nat -> string) (short : nat -> option Z).
Context (settings : mail_settings) (m : mail_message) (before : list taken_mail).
Abbreviation recipients := (splitRecipients addresses_of (ms_Recipients settings)).

Definition untaken (w : wire) : Prop := wi_taken w = before.
(** A connection with this envelope. *)
Definition enveloped (from : string) (to : list string) (w : wire) : Prop := untaken w /\ wi_from w = from /\ wi_to w = to.
Definition composed (text : string) : Prop := exists t boundary, text = composeMail zone (ms_From settings) recipients m t boundary.
Definition taken_whole (w : wire) : Prop := exists from text, address_of (ms_From settings) = Ok from /\ composed text /\
  wi_taken w = before ++ [TakenMail from recipients text].
(** Nothing was taken, or once the mail, or its beginning. *)
Definition taken_part (w : wire) : Prop := untaken w \/ exists from text rest, address_of (ms_From settings) = Ok from /\ composed (text ++ rest)%string /\
  wi_taken w = before ++ [TakenMail from recipients text].

Lemma taken_noted (P : wire -> Prop) c : (forall w l, P w -> P (w <| wi_log := l |>)) -> (forall w, P w -> taken_part w) -> triple P (noted c) (fun _ => P) taken_part.
Proof. intros HP _ n w Hw. cbn. destruct w. exact (HP _ _ Hw). Qed.
(** A command before the text: what it leaves when it works. *)
Lemma taken_exchange (P Q : wire -> Prop) c effect : (forall w l, P w -> P (w <| wi_log := l |>)) -> (forall w, P w -> untaken w) ->
  (forall w, P w -> Q (effect w) /\ untaken (effect w)) ->
  triple P (exchange fate_of c effect) (fun r w => untaken w /\ (r = Ok tt -> Q w)) taken_part.
Proof.
  intros Hl HP He. unfold exchange. apply (triple_bind _ _ _ _ (fun _ => P)); [apply taken_noted; [done|]; intros w Hw; left; by apply HP|].
  intros _. apply triple_act; [apply _|by intros w Hw; left; apply HP|]. intros w Hw. destruct (He w Hw) as [HQ Hu].
  split; [by left|]. split; [by split|]. intros f. split; (split; [|done]); [by apply HP|done].
Qed.
Lemma taken_then {A B} (P : wire -> Prop) (Q : A -> wire -> Prop) (mm : Io.io wire (result failure A)) (k : A -> Io.io wire (result failure B)) :
  triple P mm (fun r w => untaken w /\ forall a, r = Ok a -> Q a w) taken_part ->
  (forall a, triple (Q a) (k a) (fun r w => (is_ok r = true -> taken_whole w) /\ taken_part w) taken_part) ->
  triple P (a ←? mm; k a) (fun r w => (is_ok r = true -> taken_whole w) /\ taken_part w) taken_part.
Proof.
  intros Hm Hk. eapply triple_bind; [exact Hm|]. intros [a|e]; [|apply triple_ret; intros w [Hu _]; split; [done|by left]].
  eapply triple_pre; [apply Hk|]. intros w [_ HQ]. by apply HQ.
Qed.
Lemma taken_rcpt from l : forall done_to, triple (enveloped from done_to) (rcpt_all fate_of l)
  (fun r w => untaken w /\ (r = Ok tt -> enveloped from (done_to ++ l) w)) taken_part.
Proof.
  induction l as [|to l IH]; intros done_to; cbn [rcpt_all].
  - apply triple_ret. intros w Hw. rewrite app_nil_r. split; [by destruct Hw|done].
  - eapply triple_bind with (Q' := fun r w => untaken w /\ (r = Ok tt -> enveloped from (done_to ++ [to]) w)).
    + unfold Rcpt. destruct (validateLine to); [|by apply triple_ret; intros w []]. apply taken_exchange; [by intros [] ll Hw|by intros w []|].
      intros w (Hu & Hf & Ht). split; [|done]. split; [done|]. cbn. by rewrite Ht.
    + intros [[]|e]; [|apply triple_ret; by intros w []]. eapply triple_weaken; [apply (IH (done_to ++ [to]))|by intros w [_ Hw]; apply Hw| |done].
      intros r w. cbn beta. by rewrite <- app_assoc.
Qed.
Lemma taken_close from text : address_of (ms_From settings) = Ok from -> forall rest, composed (text ++ rest)%string ->
  triple (fun w => enveloped from recipients w /\ wi_text w = text) (CloseData fate_of)
    (fun r w => (is_ok r = true -> exists e, wi_taken w = before ++ [e] /\ e = TakenMail from recipients text) /\ taken_part w) taken_part.
Proof.
  intros Ha rest Hc. unfold CloseData, exchange. apply (triple_bind _ _ _ _ (fun _ w => enveloped from recipients w /\ wi_text w = text)).
  { apply taken_noted; [by intros [] l [(Hu & Hf & Ht) Hx]|]. intros w [[Hu _] _]. by left. }
  intros _. apply triple_act; [apply _|intros w [[Hu _] _]; by left|]. intros w [(Hu & Hf & Ht) Hx]. cbn.
  assert (wi_taken (w <| wi_taken ::= fun l => l ++ [TakenMail (wi_from w) (wi_to w) (wi_text w)] |>) = before ++ [TakenMail from recipients text]) as E.
  { cbn. by rewrite Hf, Ht, Hx, Hu. }
  assert (taken_part (w <| wi_taken ::= fun l => l ++ [TakenMail (wi_from w) (wi_to w) (wi_text w)] |>)) as Hp by (right; exists from, text, rest; auto).
  split; [done|]. split; [split; [intros _; eexists; by split|done]|]. intros f. split; (split; [done|]); [by left|done].
Qed.
Lemma str_take_prefix k body : exists rest, body = (str_take k body ++ rest)%string.
Proof. exists (str_drop k body). by rewrite str_take_drop. Qed.
Definition received (from body : string) (w : wire) : Prop := enveloped from recipients w /\ exists rest, body = (wi_text w ++ rest)%string.
Lemma taken_write from body : address_of (ms_From settings) = Ok from -> composed body ->
  triple (fun w => enveloped from recipients w /\ wi_text w = ""%string) (write_mail fate_of short body)
    (fun r w => (is_ok r = true -> wi_taken w = before ++ [TakenMail from recipients body]) /\ taken_part w) taken_part.
Proof.
  intros Ha Hc. unfold write_mail. eapply triple_bind with (Q' := fun r w => received from body w /\ (r = Ok tt -> wi_text w = body)).
  - intros n. unfold Write. set (effect := fun w => match short n with Some k => _ | None => _ end).
    assert (triple (fun w => enveloped from recipients w /\ wi_text w = ""%string) (_ ← noted (Text body); Io.act alone fate_of effect)
      (fun r w => received from body w /\ (r = Ok tt -> wi_text w = body)) taken_part) as Hs; [|exact (Hs n)].
    apply (triple_bind _ _ _ _ (fun _ w => enveloped from recipients w /\ wi_text w = ""%string)).
    { apply taken_noted; [by intros [] l [(Hu & Hf & Ht) Hx]|]. intros w [[Hu _] _]. by left. }
    intros _. apply triple_act; [apply _|intros w [[Hu _] _]; by left|]. intros w [He Hx].
    assert (received from body w) as Hw by (split; [done|]; exists body; by rewrite Hx).
    assert (received from body (snd (effect w)) /\ (fst (effect w) = Ok tt -> wi_text (snd (effect w)) = body)) as [Hr Ho].
    { destruct He as (Hu & Hf & Ht). unfold effect. destruct (short n) as [k|]; cbn.
      - split; [|done]. split; [done|]. apply str_take_prefix.
      - split; [|done]. split; [done|]. exists ""%string. by rewrite str_app_nil_r. }
    split; [left; by destruct Hr as [[Hu _] _]|]. split; [by split|]. intros f. by split; (split; [|done]).
  - intros [[]|e].
    + intros n w [[He _] Hx]. specialize (Hx eq_refl). pose proof (taken_close from body Ha ""%string) as Ht. rewrite str_app_nil_r in Ht.
      specialize (Ht Hc n w (conj He Hx)). destruct (CloseData fate_of (n, w)) as [[r|] [n' w']]; [|done]. destruct Ht as [Ho Hp]. split; [|done].
      intros Hr. by destruct (Ho Hr) as (x & E & ->).
    + intros n w [[He [rest Hb]] _]. unfold mbind, io_bind. rewrite Hb in Hc. pose proof (taken_close from (wi_text w) Ha rest Hc n w (conj He eq_refl)) as Ht.
      destruct (CloseData fate_of (n, w)) as [[r|] [n' w']]; [|done]. by destruct Ht.
Qed.
Lemma untaken_credentials : triple untaken (credentials json_credentials CredentialsPath mode contents fate_of) (fun _ => untaken) taken_part.
Proof.
  assert (forall {A} (v : nat -> A), triple untaken (fun '(n, w) => Io.act alone fate_of (fun w => (Ok (v n), w)) (n, w)) (fun _ => untaken) taken_part) as Hlook.
  { intros A v n w Hw. eapply triple_weaken; [apply (triple_act_inv alone fate_of untaken (fun w => (Ok (v n), w)) ltac:(done))|done|done|by left|done]. }
  unfold credentials. destruct (String.eqb _ _); [by apply triple_ret|]. apply (triple_bind _ _ _ _ (fun _ => untaken)); [apply Hlook|].
  intros [perm|e]; [|by apply triple_ret]. destruct (negb _); [by apply triple_ret|]. apply (triple_bind _ _ _ _ (fun _ => untaken)); [apply Hlook|].
  intros [data|e]; [|by apply triple_ret]. destruct (json_credentials data); by apply triple_ret.
Qed.
Lemma enveloped_hello from to : triple (enveloped from to) (ehlo extensions fate_of) (fun _ => enveloped from to) taken_part /\
  triple (enveloped from to) (hello extensions fate_of) (fun _ => enveloped from to) taken_part.
Proof. apply kept_hello; [by intros w []; left|by intros w c (? & ? & ?)..]. Qed.
Lemma open_hello from to : triple (enveloped from to) (hello extensions fate_of) (fun r w => untaken w /\ (forall a, r = Ok a -> enveloped from to w)) taken_part.
Proof. eapply triple_weaken; [apply (enveloped_hello from to)|done| |done]. intros r w Hw. split; [by destruct Hw|done]. Qed.
Lemma open_credentials u p host : triple (enveloped "" []) (Auth extensions accepted fate_of u p host) (fun r w => untaken w /\ (forall a, r = Ok a -> enveloped "" [] w)) taken_part.
Proof.
  assert (forall c, triple (enveloped "" []) (exchange fate_of c id) (fun _ => enveloped "" []) taken_part) as Hsay.
  { intros c. unfold exchange. apply (triple_bind _ _ _ _ (fun _ => enveloped "" [])); [apply taken_noted; [by intros [] l|by intros w []; left]|].
    intros _. eapply triple_weaken; [apply (triple_act_inv alone fate_of (enveloped "" []))|..]; [done|done|done|by intros w []; left]. }
  assert (forall e, triple (enveloped "" []) (_ ← Quit extensions fate_of; mret (Err e)) (fun (r : result failure unit) w => untaken w /\ (forall a, r = Ok a -> enveloped "" [] w)) taken_part) as Hquit.
  { intros e. apply (triple_bind _ _ _ _ (fun _ => enveloped "" [])); [|intros r; apply triple_ret; by intros w []].
    unfold Quit. apply (triple_try _ _ _ _ (fun _ => enveloped "" [])); [apply enveloped_hello|intros _; apply Hsay|done]. }
  unfold Auth. apply (triple_bind _ _ _ _ (fun _ => enveloped "" [])); [apply enveloped_hello|]. intros [[]|e]; [|apply triple_ret; by intros w []].
  apply (triple_bind _ _ _ _ (fun _ => enveloped "" [])); [by intros n w Hw|]. intros secure. destruct (_ && _); [apply Hquit|].
  apply (triple_bind _ _ _ _ (fun _ => enveloped "" [])); [by intros n w Hw|]. intros yes.
  apply (triple_bind _ _ _ _ (fun _ => enveloped "" [])); [apply Hsay|]. intros [[]|e]; [|apply triple_ret; by intros w []].
  destruct yes; [apply triple_ret; intros w Hw; split; [by destruct Hw|done]|].
  apply (triple_bind _ _ _ _ (fun _ => enveloped "" [])); [apply Hsay|]. intros _. apply Hquit.
Qed.
Definition outcome (r : result failure unit) (w : wire) : Prop := (is_ok r = true -> taken_whole w) /\ taken_part w.
Lemma whole_part w : taken_whole w -> taken_part w.
Proof. intros (from & text & Ha & Hc & E). right. exists from, text, ""%string. by rewrite str_app_nil_r. Qed.
Lemma taken_quit : triple taken_whole (Quit extensions fate_of) outcome taken_part.
Proof.
  unfold Quit. apply (triple_try _ _ _ _ (fun _ => taken_whole)); [|intros _|intros e w Hw; split; [done|by apply whole_part]].
  { apply kept_hello; [apply whole_part|by intros w c (from & text & ? & ? & ?) _; exists from, text|by intros w x (from & text & ? & ? & ?); exists from, text..]. }
  unfold exchange. apply (triple_bind _ _ _ _ (fun _ => taken_whole)); [apply taken_noted; [by intros [] l|apply whole_part]|].
  intros _. eapply triple_weaken; [apply (triple_act_inv alone fate_of taken_whole)|..]; [done|done| |apply whole_part].
  intros r w Hw. split; [done|by apply whole_part].
Qed.
Lemma taken_text from : address_of (ms_From settings) = Ok from ->
  triple (fun w => enveloped from recipients w /\ wi_text w = ""%string)
    (t ← Io.now clock; boundary ← drawn draws; _ ←? write_mail fate_of short (composeMail zone (ms_From settings) recipients m t boundary); Quit extensions fate_of) outcome taken_part.
Proof.
  intros Ha. eapply triple_bind with (Q' := fun _ w => enveloped from recipients w /\ wi_text w = ""%string); [by intros n w Hw|]. intros t. eapply triple_bind with (Q' := fun _ w => enveloped from recipients w /\ wi_text w = ""%string); [by intros n w Hw|].
  intros boundary. set (body := composeMail _ _ _ _ _ _). assert (composed body) as Hc by (by exists t, boundary).
  eapply triple_bind; [by apply (taken_write from body Ha Hc)|]. intros [[]|e].
  - eapply triple_pre; [apply taken_quit|]. intros w [Hw _]. exists from, body. auto.
  - apply triple_ret. by intros w [_ Hp].
Qed.
Lemma taken_dialogue : triple untaken
  (SendMail zone address_of addresses_of json_credentials CredentialsPath mode contents extensions accepted fate_of clock draws short settings m) outcome taken_part.
Proof.
  unfold SendMail. eapply triple_bind; [apply untaken_credentials|]. intros [[u p]|e]; [|by apply triple_ret; intros w Hw; split; [|left]]. cbn [fst snd].
  apply (taken_then _ (fun _ => enveloped "" [])).
  { unfold dial. apply triple_act; [apply _|by left|]. intros w Hw. split; [by left|]. split; [by split|]. intros f. by split; (split; [|done]). }
  intros _. apply (taken_then _ (fun _ => enveloped "" [])).
  { unfold NewClient. apply triple_act; [apply _|by intros w []; left|]. intros w Hw. split; [left; by destruct Hw|]. split; [split; [by destruct Hw|done]|].
    intros f. by split; (split; [destruct Hw|]). }
  intros _. apply (taken_then _ (fun _ => enveloped "" [])).
  { destruct (_ && _); [|by apply triple_ret; intros w Hw; split; [destruct Hw|]]. unfold StartTLS.
    apply (triple_bind _ _ _ _ (fun _ => enveloped "" [])); [apply enveloped_hello|]. intros [[]|e]; [|apply triple_ret; by intros w []].
    eapply triple_bind; [apply (taken_exchange (enveloped "" []) (enveloped "" [])); [by intros [] l|by intros w []|by intros w (Hu & Hf & Ht)]|].
    intros [[]|e]; [|apply triple_ret; by intros w [Hu _]]. eapply triple_weaken; [apply (enveloped_hello "" [])|by intros w [_ Hw]; apply Hw| |done].
    intros r w Hw. split; [by destruct Hw|done]. }
  intros _. apply (taken_then _ (fun _ => enveloped "" [])).
  { destruct (negb _); [apply open_credentials|by apply triple_ret; intros w Hw; split; [destruct Hw|]]. }
  intros _. destruct (address_of (ms_From settings)) as [from|e] eqn:Ea.
  2: { apply triple_ret. intros w []. by split; [|left]. }
  apply (taken_then _ (fun a w => a = from /\ enveloped "" [] w)).
  { apply triple_ret. intros w Hw. split; [by destruct Hw|]. intros a [= <-]. by split. }
  intros a. apply triple_pure. intros ->. apply (taken_then _ (fun _ => enveloped from [])).
  { unfold Mail. destruct (validateLine from); [|by apply triple_ret; intros w []].
    apply (triple_bind _ _ _ _ (fun _ => enveloped "" [])); [apply enveloped_hello|]. intros [[]|e]; [|apply triple_ret; by intros w []].
    apply (triple_bind _ _ _ _ (fun _ => enveloped "" [])); [by intros n w Hw|]. intros offered. eapply triple_weaken; [apply (taken_exchange (enveloped "" []) (enveloped from []))|done| |done].
    - by intros [] l. - by intros w []. - by intros w (Hu & Hf & Ht).
    - intros r w [Hu Hr]. split; [done|]. intros [] E. by apply Hr. }
  intros _. apply (taken_then _ (fun _ => enveloped from recipients)).
  { eapply triple_weaken; [apply (taken_rcpt from recipients [])|done| |done]. intros r w [Hu Hr]. split; [done|]. intros [] E. by apply Hr. }
  intros _. apply (taken_then _ (fun _ w => enveloped from recipients w /\ wi_text w = ""%string)).
  { unfold Data. eapply triple_weaken; [apply (taken_exchange (enveloped from recipients) (fun w => enveloped from recipients w /\ wi_text w = ""%string))|done| |done].
    - by intros [] l. - by intros w []. - by intros w (Hu & Hf & Ht).
    - intros r w [Hu Hr]. split; [done|]. intros [] E. by apply Hr. }
  intros _. by apply taken_text.
Qed.
End taken.

Section dialogue.
Context `{Platform} (zone : location) (address_of : string -> result err string) (addresses_of : string -> list string)
  (json_credentials : string -> result err (string * string)) (CredentialsPath : string) (mode : nat -> Z) (contents : nat -> string)
  (extensions : nat -> list string) (accepted : nat -> bool) (fate_of : nat -> fate) (clock : nat -> Z) (draws : nat -> string) (short : nat -> option Z).
Abbreviation SendMail := (SendMail zone address_of addresses_of json_credentials CredentialsPath mode contents extensions accepted fate_of clock draws short).

(** C29. Nothing of a mail goes in the clear: when the settings ask for TLS, whatever
    fails and whatever the mail server answers, all that is said to it is encrypted, but
    the greetings of the client, which hold the name "localhost" only, and the request
    for TLS itself; and whatever the settings, the credentials are never said in the clear
    to another computer. *)
Theorem dialogue_protected settings m n w :
  exists more, wi_log (snd (snd (SendMail settings m (n, w)))) = wi_log w ++ more /\
    forall secure c, In (secure, c) more ->
      (ms_TLS settings = true -> secure = true \/ c = Ehlo \/ c = Helo \/ c = StartTls) /\
      (forall username password, c = Login username password -> secure = true \/ isLocalhost (ms_Host settings) = true).
Proof.
  pose proof (says_dialogue zone address_of addresses_of json_credentials CredentialsPath mode contents extensions accepted fate_of clock draws short settings (wi_log w) m n w) as Hs.
  assert (discreetly settings (wi_log w) (snd (snd (SendMail settings m (n, w))))) as (more & E & Hm).
  { destruct (SendMail settings m (n, w)) as [[r|] [n' w']]; apply Hs; exists []; by rewrite app_nil_r. }
  exists more. split; [done|]. intros secure c Hin. rewrite Forall_forall in Hm. apply (Hm (secure, c)). by apply list_elem_of_In.
Qed.

(** A mail is sent when the mail server took it: when the dialogue succeeds the
    server took, once, the whole mail composed from the message, from the address and to
    the recipients of the settings; when it fails, or the process stops, it took nothing,
    or once that mail or a beginning of it. *)
Lemma dialogue_delivers settings m n w :
  let '(r, (_, w')) := SendMail settings m (n, w) in
  let recipients := splitRecipients addresses_of (ms_Recipients settings) in
  (r = Some (Ok tt) -> exists from t boundary, address_of (ms_From settings) = Ok from /\
     wi_taken w' = wi_taken w ++ [TakenMail from recipients (composeMail zone (ms_From settings) recipients m t boundary)]) /\
  (wi_taken w' = wi_taken w \/ exists from t boundary text rest, address_of (ms_From settings) = Ok from /\
     composeMail zone (ms_From settings) recipients m t boundary = (text ++ rest)%string /\ wi_taken w' = wi_taken w ++ [TakenMail from recipients text]).
Proof.
  pose proof (taken_dialogue zone address_of addresses_of json_credentials CredentialsPath mode contents extensions accepted fate_of clock draws short settings m (wi_taken w) n w eq_refl) as Ht.
  assert (forall w', taken_part zone address_of addresses_of settings m (wi_taken w) w' -> wi_taken w' = wi_taken w \/ exists from t boundary text rest,
    address_of (ms_From settings) = Ok from /\ composeMail zone (ms_From settings) (splitRecipients addresses_of (ms_Recipients settings)) m t boundary = (text ++ rest)%string /\
    wi_taken w' = wi_taken w ++ [TakenMail from (splitRecipients addresses_of (ms_Recipients settings)) text]) as Hp.
  { intros w' [Hu|(from & text & rest & Ha & (t & b & Hc) & E)]; [by left|]. right. exists from, t, b, text, rest. auto. }
  destruct (SendMail settings m (n, w)) as [[r|] [n' w']]; cbn zeta; [destruct Ht as [Ho Ht]|]; (split; [|by apply Hp]); [|done].
  intros [= ->]. destruct (Ho eq_refl) as (from & text & Ha & (t & b & ->) & E). eauto.
Qed.
End dialogue.
