(* ===== verification/Layout.v ===== *)
(** The directories of an archive: their validation, the initialisation of a new archive
    and the offline migration of an earlier layout
    ([src/internal/store/archive_layout.go]; [Init], [ValidateState] and
    [PrepareMaintenanceState] of [src/internal/store/store.go]). *)
From S2P Require Import Prelude GoTime GoString Model Policy Catalog Io.

(** ** The state directory

    What is at each path below it; the path of the directory itself is empty.  A
    directory is moved with the files it holds, so an entry carries their names and
    contents.  [ly_busy]: a lock that another process holds; [ly_links]: a symbolic link
    that leads to a directory; [ly_catalog]: the catalogue that the database file holds,
    when a transaction made one. *)
Inductive entry_type : Type := Regular | Directory | Symlink | Special.
#[global] Instance entry_type_eq_dec : EqDecision entry_type.
Proof. solve_decision. Defined.
Record entry : Type := Entry {
  en_Type : entry_type; en_Mode : Z; en_Uid : Z; en_Gid : Z; en_Dev : Z; en_Files : gmap string string }.
#[global] Instance eta_entry : Settable entry := fun e =>
  Entry (en_Type e) (en_Mode e) (en_Uid e) (en_Gid e) (en_Dev e) (en_Files e).
Record layout : Type := Layout {
  ly_tree : gmap string entry; ly_busy : string -> bool; ly_links : string -> bool; ly_catalog : option db }.
#[global] Instance eta_layout : Settable layout := fun s => Layout (ly_tree s) (ly_busy s) (ly_links s) (ly_catalog s).

Definition oct (a b c : Z) : Z := 64 * a + 8 * b + c.
Definition parent_of (path : string) : string :=
  match cut_text "/" path with Some (parent, _) => parent | None => ""%string end.
Definition err_text {A} (text : string) : result failure A := Err (Failed (ErrText text)).
Definition not_exist (e : failure) : bool := match e with OsError ENOENT => true | _ => false end.
Definition is_exist (e : failure) : bool := match e with OsError EEXIST => true | _ => false end.

Section layout.
Context (euid egid : Z) (fate_of : nat -> fate).
Abbreviation io := (Io.io layout).
Abbreviation act := (Io.act alone fate_of).

(** *** System calls *)
(** [os.Lstat]; [os.Stat] is called on directories only. *)
Definition lstat (path : string) : io (result failure entry) := act (fun s =>
  (match ly_tree s !! path with Some e => Ok e | None => Err (OsError ENOENT) end, s)).
Definition mkdir (path : string) (mode : Z) : io (result failure unit) := act (fun s =>
  match ly_tree s !! path, ly_tree s !! parent_of path with
  | Some _, _ => (Err (OsError EEXIST), s)
  | None, None => (Err (OsError ENOENT), s)
  | None, Some p => (Ok tt, s <| ly_tree ::= <[path := Entry Directory mode euid egid (en_Dev p) ∅]> |>)
  end).
Definition change (path : string) (f : entry -> entry) : io (result failure unit) := act (fun s =>
  match ly_tree s !! path with
  | Some e => (Ok tt, s <| ly_tree ::= <[path := f e]> |>)
  | None => (Err (OsError ENOENT), s)
  end).
Definition chown (path : string) (uid gid : Z) : io (result failure unit) := change path (fun e => e <| en_Uid := uid |> <| en_Gid := gid |>).
Definition chmod (path : string) (mode : Z) : io (result failure unit) := change path (fun e => e <| en_Mode := mode |>).
(** [unix.Open] of a lock, without following links, and [unix.Flock]. *)
Definition open_lock (path : string) (create : bool) : io (result failure unit) := act (fun s =>
  match ly_tree s !! path, ly_tree s !! parent_of path with
  | Some e, _ => (if bool_decide (en_Type e = if create then Regular else Directory) then Ok tt else Err (OsError (EOTHER "not a lock")), s)
  | None, Some p => if create then (Ok tt, s <| ly_tree ::= <[path := Entry Regular (oct 6 0 0) euid egid (en_Dev p) ∅]> |>) else (Err (OsError ENOENT), s)
  | None, None => (Err (OsError ENOENT), s)
  end).
Definition flock (path : string) : io (result failure unit) := act (fun s =>
  (if ly_busy s path then err_text "migrazione richiede writer e maintenance fermi" else Ok tt, s)).
(** [renameat2] with [RENAME_NOREPLACE]. *)
Definition rename_noreplace (old new : string) : io (result failure unit) := act (fun s =>
  match ly_tree s !! old, ly_tree s !! new, ly_tree s !! parent_of new with
  | None, _, _ | _, _, None => (Err (OsError ENOENT), s)
  | _, Some _, _ => (Err (OsError EEXIST), s)
  | Some e, None, Some p =>
    if en_Dev e =? en_Dev p then (Ok tt, s <| ly_tree := <[new := e]> (delete old (ly_tree s)) |>)
    else (Err (OsError (EOTHER "cross-device link")), s)
  end).
(** Opening a directory, [Sync] and [Close]. *)
Definition sync_directory (path : string) : io (result failure unit) :=
  _ ←? act (fun s => (Ok tt, s)); _ ←? act (fun s => (Ok tt, s)); act (fun s => (Ok tt, s)).

(** [os.MkdirAll] of a directory whose parent exists; [device]: the one of the root. *)
Definition mkdir_all (device : Z) (path : string) (mode : Z) : io (result failure unit) := act (fun s =>
  match ly_tree s !! path with
  | Some e => (match en_Type e with
               | Directory => Ok tt
               | Symlink => if ly_links s path then Ok tt else Err (OsError (EOTHER "not a directory"))
               | _ => Err (OsError (EOTHER "not a directory"))
               end, s)
  | None => (Ok tt, s <| ly_tree ::= <[path := Entry Directory mode euid egid device ∅]> |>)
  end).
(** [os.OpenFile] with [O_EXCL]. *)
Definition create_file (device : Z) (path : string) : io (result failure unit) := act (fun s =>
  match ly_tree s !! path with
  | Some _ => (Err (OsError EEXIST), s)
  | None => (Ok tt, s <| ly_tree ::= <[path := Entry Regular (oct 6 0 0) euid egid device ∅]> |>)
  end).

(** *** Validation *)
Definition validateDirectoryModes (path : string) (allowed : list Z) : io (result failure unit) :=
  info ←? lstat path;
  mret (if negb (bool_decide (en_Type info = Directory)) then err_text ("directory archivio non valida o simbolica: " ++ path)
        else if negb (existsb (Z.eqb (en_Mode info)) allowed) then err_text ("directory archivio con permessi non sicuri: " ++ path)
        else if negb (en_Uid info =? euid) then err_text ("directory archivio non appartenente all'utente corrente: " ++ path)
        else Ok tt).
Definition root_modes : list Z := [oct 7 0 0; oct 7 1 0].
Definition shared_modes : list Z := [oct 7 0 0; oct 7 7 0].
Definition names : list string := ["backups"; "quarantine"]%string.
Definition old_path (name : string) : string := name.
Definition new_path (name : string) : string := ("archives/" ++ name)%string.
Fixpoint each_path (f : string -> io (result failure unit)) (l : list string) : io (result failure unit) :=
  match l with [] => mret (Ok tt) | x :: rest => _ ←? f x; each_path f rest end.
Definition rejectLegacyArchiveDirectories : io (result failure unit) :=
  each_path (fun name =>
    r ← lstat (old_path name);
    mret (match r with
          | Ok _ => err_text "layout archivio precedente: fermare tutti i servizi ed eseguire onlybackup-admin --state DIR migrate-archives"
          | Err e => if not_exist e then Ok tt else Err e
          end)) names.
Definition ValidateArchiveLayout : io (result failure unit) :=
  _ ←? rejectLegacyArchiveDirectories; validateDirectoryModes "archives" root_modes.
Definition ValidateState : io (result failure unit) :=
  _ ←? ValidateArchiveLayout;
  _ ←? validateDirectoryModes "" root_modes;
  _ ←? validateDirectoryModes "incoming" [oct 7 0 0];
  _ ←? validateDirectoryModes "archives" root_modes;
  _ ←? validateDirectoryModes "archives/backups" shared_modes;
  _ ←? validateDirectoryModes "archives/quarantine" shared_modes;
  validateDirectoryModes "maintenance" shared_modes.
Definition PrepareMaintenanceState : io (result failure unit) :=
  _ ←? ValidateArchiveLayout;
  r ← mkdir "maintenance" (oct 7 0 0);
  mret (match r with Ok _ => Ok tt | Err e => if is_exist e then Ok tt else Err e end).

Definition validatePrivateDirectory (path : string) : io (result failure unit) := validateDirectoryModes path [oct 7 0 0].

(** *** Initialisation *)
Definition statement : io (result failure unit) := act (fun s => (Ok tt, s)).
(** The rows of the transaction; nothing is kept before [Commit]. *)
Fixpoint insert_profiles (l : list profile) (d : db) : io (result failure db) :=
  match l with
  | [] => mret (Ok d)
  | p :: rest => _ ←? statement; insert_profiles rest (d <| d_profiles ::= (fun l => l ++ [p]) |>)
  end.
(** The path, the database, the transaction and the schema. *)
Definition create_catalog : io (result failure unit) :=
  _ ←? statement; _ ←? statement; _ ←? statement; _ ←? statement;
  d ←? insert_profiles DefaultProfiles (initial_db <| d_profiles := [] |>);
  act (fun s => (Ok tt, s <| ly_catalog := Some d |>)).
Definition Init (device : Z) : io (result failure unit) :=
  _ ←? mkdir_all device "" (oct 7 0 0);
  _ ←? validatePrivateDirectory "";
  r ← lstat "metadata.db";
  _ ←? mret (match r with
             | Ok _ => err_text "inizializzazione: catalogo gia esistente"
             | Err e => if not_exist e then Ok tt else Err e
             end);
  _ ←? rejectLegacyArchiveDirectories;
  _ ←? each_path (fun path => mkdir_all device path (oct 7 0 0)) ["incoming"; "archives"; "archives/backups"; "archives/quarantine"; "maintenance"]%string;
  _ ←? ValidateState;
  _ ←? create_file device "metadata.db";
  create_catalog.

(** *** Migration *)
Definition lock (path : string) (create : bool) : io (result failure unit) := _ ←? open_lock path create; flock path.
(** The directory of the executor, which the older installations lack. *)
Definition maintenance_directory (root : entry) : io (result failure unit) :=
  r ← mkdir "maintenance" (oct 7 0 0);
  _ ←? match r with
       | Ok _ => chown "maintenance" (en_Uid root) (en_Gid root)
       | Err e => mret (if is_exist e then Ok tt else Err e)
       end;
  validateDirectoryModes "maintenance" shared_modes.
Definition make_parent (root : entry) : io (result failure unit) :=
  r ← mkdir "archives" (oct 7 0 0);
  _ ←? match r with
       | Ok _ => _ ←? chown "archives" (en_Uid root) (en_Gid root); chmod "archives" (en_Mode root)
       | Err e => mret (if is_exist e then Ok tt else Err e)
       end;
  _ ←? validateDirectoryModes "archives" root_modes;
  parent ←? lstat "archives";
  mret (if en_Dev parent =? en_Dev root then Ok tt else err_text "archives deve risiedere sullo stesso filesystem dello stato").
(** Both sides of a directory; whether it is still at its old place. *)
Definition absent_quarantine (root : entry) (name : string) (old new : result failure entry) : io (result failure bool) :=
  match old, new with
  | Err e, _ =>
    if negb (not_exist e) then mret (Err e)
    else match new with
         | Ok _ => mret (Ok false)
         | Err e' =>
           if negb (not_exist e') then mret (Err e')
           else if String.eqb name "quarantine" then
             _ ←? mkdir (old_path name) (oct 7 0 0);
             _ ←? chown (old_path name) (en_Uid root) (en_Gid root);
             mret (Ok true)
           else mret (err_text ("layout ambiguo o directory assente: " ++ name))
         end
  | Ok _, Err e' => mret (if not_exist e' then Ok true else Err e')
  | Ok _, Ok _ => mret (err_text ("layout ambiguo o directory assente: " ++ name))
  end.
Definition examine (root : entry) (name : string) : io (result failure bool) :=
  old ← lstat (old_path name);
  new ← lstat (new_path name);
  is_old ←? absent_quarantine root name old new;
  let path := if is_old : bool then old_path name else new_path name in
  _ ←? validateDirectoryModes path shared_modes;
  info ←? lstat path;
  mret (if en_Dev info =? en_Dev root then Ok is_old else err_text "migrazione richiede tutte le directory sullo stesso filesystem").
Fixpoint examine_all (root : entry) (l : list string) : io (result failure (list string)) :=
  match l with
  | [] => mret (Ok [])
  | name :: rest =>
    is_old ←? examine root name;
    more ←? examine_all root rest;
    mret (Ok (if is_old : bool then name :: more else more))
  end.
Definition move (name : string) : io (result failure unit) :=
  _ ←? rename_noreplace (old_path name) (new_path name);
  _ ←? sync_directory "archives";
  sync_directory "".
Definition MigrateArchives : io (result failure unit) :=
  _ ←? validateDirectoryModes "" root_modes;
  r ← lstat "metadata.db";
  _ ←? mret (match r with
             | Ok e => if bool_decide (en_Type e = Regular) then Ok tt else err_text "catalogo esistente richiesto; la migrazione non inizializza lo stato"
             | Err _ => err_text "catalogo esistente richiesto; la migrazione non inizializza lo stato"
             end);
  _ ←? validateDirectoryModes "incoming" [oct 7 0 0];
  root ←? lstat "";
  _ ←? lock "writer.lock" true;
  _ ←? maintenance_directory root;
  _ ←? lock "maintenance" false;
  _ ←? make_parent root;
  sources ←? examine_all root names;
  _ ←? each_path move sources;
  ValidateState.
End layout.
