(* ===== verification/Migration.v ===== *)
(** The initialisation touches no archive that exists; the offline migration of the
    directories, whatever fails, loses, merges and overwrites no directory of deposits
    and can be run again ([Init] of [src/internal/store/store.go]; [MigrateArchives] of
    [src/internal/store/archive_layout.go]). *)
From S2P Require Import Prelude GoTime GoString Model Policy Catalog Io Layout.

Definition kept_dirs : list string := map old_path names ++ map new_path names.

(** The two places of a directory: as they were, or moved whole; a quarantine that was
    nowhere may be there, empty. *)
Definition same_or_moved (t0 t : gmap string entry) (name : string) : Prop :=
  (t !! old_path name = t0 !! old_path name /\ t !! new_path name = t0 !! new_path name) \/
  (exists e, t0 !! old_path name = Some e /\ t0 !! new_path name = None /\ t !! old_path name = None /\ t !! new_path name = Some e) \/
  (name = "quarantine"%string /\ t0 !! old_path name = None /\ t0 !! new_path name = None /\
   exists e, en_Files e = ∅ /\ ((t !! old_path name = Some e /\ t !! new_path name = None) \/ (t !! old_path name = None /\ t !! new_path name = Some e))).
Definition kept (t0 : gmap string entry) (s : layout) : Prop := forall name, In name names -> same_or_moved t0 (ly_tree s) name.

Lemma kept_elsewhere t0 s path e : ~ In path kept_dirs -> kept t0 s -> kept t0 (s <| ly_tree ::= <[path := e]> |>).
Proof.
  intros Hp Hk name Hn. specialize (Hk name Hn). unfold same_or_moved in *. cbn [ly_tree].
  assert (path <> old_path name /\ path <> new_path name) as [Ho Hw].
  { split; intros ->; apply Hp; unfold kept_dirs; apply in_app_iff; [left|right]; by apply in_map. }
  change (ly_tree (s <| ly_tree ::= <[path := e]> |>)) with (<[path := e]> (ly_tree s)). by rewrite !lookup_insert_ne.
Qed.
Lemma paths_apart name name' : In name names -> In name' names -> old_path name <> new_path name' /\ (name <> name' -> old_path name <> old_path name' /\ new_path name <> new_path name').
Proof. intros [<-|[<-|[]]] [<-|[<-|[]]]; (split; [done|]); by try (intros ?; split). Qed.
(** A move without replacement. *)
Lemma kept_move t0 s name e : In name names -> ly_tree s !! old_path name = Some e -> ly_tree s !! new_path name = None ->
  kept t0 s -> kept t0 (s <| ly_tree := <[new_path name := e]> (delete (old_path name) (ly_tree s)) |>).
Proof.
  intros Hn Ho Hw Hk name' Hn'. specialize (Hk name' Hn'). unfold same_or_moved in *. cbn [ly_tree].
  change (ly_tree (s <| ly_tree := _ |>)) with (<[new_path name := e]> (delete (old_path name) (ly_tree s))).
  destruct (paths_apart name name' Hn Hn') as [H1 H2]. destruct (paths_apart name' name Hn' Hn) as [H3 _].
  destruct (decide (name = name')) as [<-|Hne].
  - rewrite lookup_insert_eq, lookup_insert_ne, lookup_delete_eq by done. rewrite Ho, Hw in Hk. destruct Hk as [[E1 E2]|[(x & _ & _ & E & _)|(-> & E1 & E2 & x & Hf & [[E _]|[E _]])]]; [|done| |done].
    + right; left. exists e. auto.
    + injection E as ->. right; right. split; [done|]. split; [done|]. split; [done|]. exists x. auto.
  - destruct (H2 Hne) as [H4 H5]. rewrite (lookup_insert_ne _ (new_path name) (old_path name')), (lookup_insert_ne _ (new_path name) (new_path name')) by congruence.
    rewrite !lookup_delete_ne by done. exact Hk.
Qed.

Abbreviation put s path e := (s <| ly_tree ::= <[path := e]> |>).
Lemma tree_put s path e : ly_tree (put s path e) = <[path := e]> (ly_tree s).
Proof. reflexivity. Qed.
Definition made (euid egid : Z) (parent : entry) : entry := Entry Directory (oct 7 0 0) euid egid (en_Dev parent) ∅.
Definition owned (e root : entry) : entry := e <| en_Uid := en_Uid root |> <| en_Gid := en_Gid root |>.

(** ** Whatever fails

    An invariant that the steps of the migration keep: a directory is made only where
    nothing is, the quarantine only when it is at neither place, and a directory is
    moved where nothing is.  [good]: what is known of the state directory; [fresh]:
    what holds after the quarantine was made. *)
Section invariant.
Context (euid egid : Z) (I : layout -> Prop) (good : entry -> Prop) (fresh : layout -> Prop).
Hypothesis I_root : forall s root, I s -> ly_tree s !! ""%string = Some root -> good root.
Hypothesis I_lock : forall s p, I s -> ly_tree s !! "writer.lock"%string = None -> ly_tree s !! ""%string = Some p ->
  I (put s "writer.lock"%string (Entry Regular (oct 6 0 0) euid egid (en_Dev p) ∅)).
Hypothesis I_make : forall s path p, In path ["maintenance"; "archives"]%string -> I s -> ly_tree s !! path = None -> ly_tree s !! ""%string = Some p ->
  I (put s path (made euid egid p)).
Hypothesis I_owner : forall s path e root, In path ["maintenance"; "archives"]%string -> good root -> I s -> ly_tree s !! path = Some e ->
  I (put s path (owned e root)).
Hypothesis I_mode : forall s e root, good root -> I s -> ly_tree s !! "archives"%string = Some e -> I (put s "archives"%string (e <| en_Mode := en_Mode root |>)).
Hypothesis I_fresh : forall s p, I s -> ly_tree s !! old_path "quarantine" = None -> ly_tree s !! new_path "quarantine" = None ->
  ly_tree s !! ""%string = Some p -> fresh (put s (old_path "quarantine") (made euid egid p)).
Hypothesis fresh_I : forall s, fresh s -> I s.
Hypothesis fresh_owner : forall s e root, good root -> fresh s -> ly_tree s !! old_path "quarantine" = Some e -> I (put s (old_path "quarantine") (owned e root)).
Hypothesis I_move : forall s name e p, In name names -> I s -> ly_tree s !! old_path name = Some e -> ly_tree s !! new_path name = None ->
  ly_tree s !! "archives"%string = Some p -> en_Dev e = en_Dev p ->
  I (s <| ly_tree := <[new_path name := e]> (delete (old_path name) (ly_tree s)) |>).
Context (fate_of : nat -> fate).
Abbreviation keeps m := (triple I m (fun _ => I) I).

Lemma steady_value {A} (a : A) : keeps (mret a).
Proof. by apply triple_ret. Qed.
Lemma steady_then {A B} (m : Io.io layout A) (f : A -> Io.io layout B) : keeps m -> (forall a, keeps (f a)) -> keeps (m ≫= f).
Proof. intros Hm Hf. by eapply triple_bind. Qed.
Lemma steady_call {A} (effect : layout -> result failure A * layout) : (forall s, I s -> I (snd (effect s))) -> keeps (Io.act alone fate_of effect).
Proof. apply triple_act_inv. apply _. Qed.
Lemma keeps_mkdir path : In path ["maintenance"; "archives"]%string -> keeps (mkdir euid egid fate_of path (oct 7 0 0)).
Proof.
  intros Hp. apply steady_call. intros s Hs. assert (parent_of path = ""%string) as -> by (by destruct Hp as [<-|[<-|[]]]).
  destruct (ly_tree s !! path) eqn:E; [done|]. destruct (ly_tree s !! ""%string) as [p|] eqn:Ep; [|done]. by apply (I_make s path p).
Qed.
Lemma keeps_chown path root : good root -> In path ["maintenance"; "archives"]%string -> keeps (chown fate_of path (en_Uid root) (en_Gid root)).
Proof. intros Hg Hp. apply steady_call. intros s Hs. destruct (ly_tree s !! path) as [e|] eqn:E; [|done]. by apply (I_owner s path e root). Qed.
Lemma keeps_chmod root : good root -> keeps (chmod fate_of "archives" (en_Mode root)).
Proof. intros Hg. apply steady_call. intros s Hs. destruct (ly_tree s !! "archives"%string) as [e|] eqn:E; [|done]. by apply (I_mode s e root). Qed.
Lemma keeps_open_writer : keeps (open_lock euid egid fate_of "writer.lock" true).
Proof.
  apply steady_call. intros s Hs. change (parent_of "writer.lock") with ""%string.
  destruct (ly_tree s !! "writer.lock"%string) eqn:E; [done|]. destruct (ly_tree s !! ""%string) as [p|] eqn:Ep; [|done]. by apply (I_lock s p).
Qed.
Lemma keeps_open_dir path : keeps (open_lock euid egid fate_of path false).
Proof. apply steady_call. intros s Hs. by destruct (ly_tree s !! path), (ly_tree s !! parent_of path). Qed.
Lemma keeps_rename name : In name names -> keeps (rename_noreplace fate_of (old_path name) (new_path name)).
Proof.
  intros Hn. apply steady_call. intros s Hs. assert (parent_of (new_path name) = "archives"%string) as -> by (by destruct Hn as [<-|[<-|[]]]).
  destruct (ly_tree s !! old_path name) as [e|] eqn:Eo; [|done].
  destruct (ly_tree s !! new_path name) eqn:Ew, (ly_tree s !! "archives"%string) as [p|] eqn:Ep; try done.
  destruct (Z.eqb_spec (en_Dev e) (en_Dev p)); [|done]. by apply (I_move s name e p).
Qed.
Ltac keeps_step known := lazymatch goal with
  | |- triple _ (mret _) _ _ => apply steady_value
  | |- triple _ (lstat _ _) _ _ => by apply steady_call
  | |- triple _ (mkdir _ _ _ _ _) _ _ => apply keeps_mkdir; cbn; tauto
  | |- triple _ (chown _ _ _ _) _ _ => apply keeps_chown; [done|cbn; tauto]
  | |- triple _ (chmod _ _ _) _ _ => by apply keeps_chmod
  | |- triple _ (open_lock _ _ _ _ true) _ _ => apply keeps_open_writer
  | |- triple _ (open_lock _ _ _ _ false) _ _ => apply keeps_open_dir
  | |- triple _ (flock _ _) _ _ => by apply steady_call
  | |- triple _ (Io.act _ _ _) _ _ => by apply steady_call
  | |- triple _ (sync_directory _ _) _ _ => unfold sync_directory
  | |- triple _ (validateDirectoryModes _ _ _ _) _ _ => unfold validateDirectoryModes
  | |- triple _ (lock _ _ _ _ _) _ _ => unfold lock
  | |- triple _ (_ ≫= _) _ _ => apply steady_then; [|intros ?]
  | |- triple _ (io_try _ _) _ _ => apply steady_then; [|intros [?|?]; [|apply steady_value]]
  | |- triple _ (match ?r with _ => _ end) _ _ => destruct r
  | |- triple _ (if ?c then _ else _) _ _ => destruct c
  | |- _ => known
  end.
Ltac keeps_tac known := repeat keeps_step known.

Lemma keeps_each f l : (forall x, In x l -> keeps (f x)) -> keeps (each_path f l).
Proof. induction l as [|x l IH]; intros Hf; cbn [each_path]; keeps_tac ltac:(first [apply Hf; by left|apply IH; intros y Hy; apply Hf; by right]). Qed.
Lemma keeps_state : keeps (ValidateState euid fate_of).
Proof.
  unfold ValidateState, ValidateArchiveLayout, rejectLegacyArchiveDirectories. keeps_tac ltac:(apply keeps_each; intros name _; keeps_tac fail).
Qed.
Lemma keeps_maintenance root : good root -> keeps (maintenance_directory euid egid fate_of root).
Proof. intros Hg. unfold maintenance_directory. keeps_tac fail. Qed.
Lemma keeps_parent root : good root -> keeps (make_parent euid egid fate_of root).
Proof. intros Hg. unfold make_parent. keeps_tac fail. Qed.

(** What a look tells. *)
Lemma seen path (P : layout -> Prop) : (forall s, P s -> I s) ->
  triple P (lstat fate_of path)
    (fun r s => P s /\ (forall e, r = Ok e -> ly_tree s !! path = Some e) /\ (forall e, r = Err e -> not_exist e = true -> ly_tree s !! path = None)) I.
Proof.
  intros HP. unfold lstat. apply triple_act; [apply _|exact HP|]. intros s Hs. split; [by apply HP|]. split.
  - cbn. destruct (ly_tree s !! path) as [e|] eqn:E; cbn; (split; [done|]); split; intros x; by try intros [= <-].
  - intros f. assert (forall e : failure, Err (A:=entry) (fault_error f) = Err e -> not_exist e = true -> ly_tree s !! path = None) as Hf by (intros e [= <-]; by destruct f).
    split; (split; [exact Hs|]); (split; [by intros e|exact Hf]).
Qed.
Lemma keeps_quarantine root : good root -> triple (fun s => I s /\ ly_tree s !! old_path "quarantine" = None /\ ly_tree s !! new_path "quarantine" = None)
  (_ ←? mkdir euid egid fate_of (old_path "quarantine") (oct 7 0 0); _ ←? chown fate_of (old_path "quarantine") (en_Uid root) (en_Gid root); mret (Ok true)) (fun _ => I) I.
Proof.
  intros Hg. apply (triple_bind _ _ _ _ (fun r s => I s /\ (r = Ok tt -> fresh s))).
  - unfold mkdir. apply triple_act; [apply _|by intros s []|]. intros s (Hk & Ho & Hw). change (parent_of (old_path "quarantine")) with ""%string. rewrite Ho.
    destruct (ly_tree s !! ""%string) as [p|] eqn:Ep; [|by split]. pose proof (I_fresh s p Hk Ho Hw Ep) as Hf. cbn [fst snd]. split; [by apply fresh_I|].
    split; [split; [by apply fresh_I|done]|]. intros f. split; (split; [|done]); [done|by apply fresh_I].
  - intros [[]|e]; [|by apply triple_ret; intros s []]. apply (triple_bind _ _ _ _ (fun _ => I)); [|intros [[]|?]; by apply triple_ret].
    apply (triple_pre _ fresh); [|by intros s [_ Hs]; apply Hs]. unfold chown, change. apply triple_act; [apply _|exact fresh_I|].
    intros s Hf. pose proof (fresh_I s Hf) as Hi. destruct (ly_tree s !! old_path "quarantine") as [d|] eqn:Ed; [|by split].
    pose proof (fresh_owner s d root Hg Hf Ed) as Ho. by split.
Qed.
Lemma keeps_examine root name : good root -> keeps (examine euid egid fate_of root name).
Proof.
  intros Hg. unfold examine. eapply triple_bind; [by apply (seen _ I)|]. intros old.
  eapply triple_bind; [apply (seen (new_path name)); by intros s []|]. intros new. apply (triple_bind _ _ _ _ (fun _ => I)).
  - unfold absent_quarantine. destruct old as [o|e]; [destruct new; by apply triple_ret; intros s [[]]|].
    destruct (not_exist e) eqn:Ee; cbn [negb]; [|by apply triple_ret; intros s [[]]]. destruct new as [w|e']; [by apply triple_ret; intros s [[]]|].
    destruct (not_exist e') eqn:Ee'; cbn [negb]; [|by apply triple_ret; intros s [[]]]. destruct (String.eqb_spec name "quarantine") as [->|]; [|by apply triple_ret; intros s [[]]].
    eapply triple_pre; [by apply keeps_quarantine|]. intros s [[Hk [_ Ho]] [_ Hw]]. split; [done|]. split; [by apply (Ho e)|by apply (Hw e')].
  - intros [is_old|e]; [|apply steady_value]. keeps_tac fail.
Qed.
Lemma keeps_examine_all root l : good root -> triple I (examine_all euid egid fate_of root l)
  (fun r s => I s /\ forall sources, r = Ok sources -> forall name, In name sources -> In name l) I.
Proof.
  intros Hg. induction l as [|name l IH]; cbn [examine_all]; [by apply triple_ret; intros s Hs; split; [|intros x [= <-] y []]|].
  eapply triple_bind; [by apply keeps_examine|]. intros [is_old|e]; [|by apply triple_ret; intros s Hs].
  eapply triple_bind; [exact IH|]. intros [more|e]; apply triple_ret; intros s [Hs Hm]; (split; [done|]); [|done].
  intros sources [= <-] x Hx. destruct is_old; [destruct Hx as [<-|Hx]; [by left|]|]; right; by apply (Hm more).
Qed.
Lemma keeps_migration : keeps (MigrateArchives euid egid fate_of).
Proof.
  unfold MigrateArchives. apply steady_then; [keeps_tac fail|]. intros [[]|e]; [|apply steady_value]. apply steady_then; [keeps_tac fail|]. intros r.
  apply steady_then; [keeps_tac fail|]. intros [[]|e]; [|apply steady_value]. apply steady_then; [keeps_tac fail|]. intros [[]|e]; [|apply steady_value].
  eapply triple_bind; [by apply (seen "" I)|]. intros [root|e]; [|by apply triple_ret; intros s []].
  apply (triple_pre _ (fun s => good root /\ I s)); [apply triple_pure; intros Hg|intros s [Hs [Hr _]]; split; [by apply (I_root s root Hs), Hr|done]].
  apply steady_then; [keeps_tac fail|]. intros [[]|e]; [|apply steady_value]. apply steady_then; [by apply keeps_maintenance|]. intros [[]|e]; [|apply steady_value].
  apply steady_then; [keeps_tac fail|]. intros [[]|e]; [|apply steady_value]. apply steady_then; [by apply keeps_parent|]. intros [[]|e]; [|apply steady_value].
  eapply triple_bind; [by apply keeps_examine_all|]. intros [sources|e]; [|by apply triple_ret; intros s []].
  intros n s [Hs Hin]. revert n s Hs. assert (keeps (_ ←? each_path (move fate_of) sources; ValidateState euid fate_of)) as Hm; [|exact Hm].
  apply steady_then; [|intros [[]|?]; [apply keeps_state|apply steady_value]]. apply keeps_each. intros name Hname. unfold move.
  apply steady_then; [apply keeps_rename; by apply (Hin sources)|]. intros [[]|?]; keeps_tac fail.
Qed.
End invariant.

(** ** Nothing is lost *)
Section kept.
Context (euid egid : Z) (t0 : gmap string entry).
(** A quarantine that this run made. *)
Definition made_quarantine (s : layout) : Prop := kept t0 s /\ t0 !! old_path "quarantine" = None /\ t0 !! new_path "quarantine" = None /\
  ly_tree s !! new_path "quarantine" = None /\ exists e, ly_tree s !! old_path "quarantine" = Some e /\ en_Files e = ∅.
Lemma kept_quarantine s e : t0 !! old_path "quarantine" = None -> t0 !! new_path "quarantine" = None -> ly_tree s !! new_path "quarantine" = None ->
  en_Files e = ∅ -> kept t0 s -> kept t0 (put s (old_path "quarantine") e).
Proof.
  intros H1 H2 Hw He Hk name Hn. pose proof (Hk name Hn) as Hs. unfold same_or_moved in *. rewrite tree_put.
  destruct Hn as [<-|[<-|[]]]; [by rewrite !lookup_insert_ne|]. rewrite lookup_insert_eq, lookup_insert_ne by done.
  right; right. split; [done|]. split; [done|]. split; [done|]. exists e. auto.
Qed.
Lemma kept_migration fate_of : triple (kept t0) (MigrateArchives euid egid fate_of) (fun _ => kept t0) (kept t0).
Proof.
  apply (keeps_migration euid egid (kept t0) (fun _ => True) made_quarantine).
  - done.
  - intros s p Hs _ _. apply kept_elsewhere; [|done]. vm_compute. intuition discriminate.
  - intros s path p Hp Hs _ _. apply kept_elsewhere; [|done]. destruct Hp as [<-|[<-|[]]]; vm_compute; intuition discriminate.
  - intros s path e root Hp _ Hs _. apply kept_elsewhere; [|done]. destruct Hp as [<-|[<-|[]]]; vm_compute; intuition discriminate.
  - intros s e root _ Hs _. apply kept_elsewhere; [|done]. vm_compute. intuition discriminate.
  - intros s p Hk Ho Hw _. assert (t0 !! old_path "quarantine" = None /\ t0 !! new_path "quarantine" = None) as [H1 H2].
    { destruct (Hk "quarantine"%string (or_intror (or_introl eq_refl))) as [[E1 E2]|[(x & _ & _ & _ & E)|(_ & E1 & E2 & _)]]; [by rewrite <- E1, <- E2|by rewrite Hw in E|done]. }
    split; [by apply kept_quarantine|]. split; [done|]. split; [done|]. rewrite tree_put, lookup_insert_ne by done. split; [done|].
    exists (made euid egid p). by rewrite lookup_insert_eq.
  - by intros s [].
  - intros s e root _ (Hk & H1 & H2 & Hw & d & Hd & Hf) He. rewrite Hd in He. injection He as <-. by apply kept_quarantine.
  - intros s name e p Hn Hs Ho Hw _ _. by apply kept_move.
Qed.
End kept.

(** The migration loses nothing, merges nothing and overwrites nothing: from any
    state directory, whatever fails or stops it, the directories of the copies and of
    the quarantine, with the files that they hold, are where they were, at the old
    place and at the new one, or were moved whole from the old place to the new one,
    where nothing was; but for an empty quarantine where there was none. *)
Lemma migration_keeps euid egid fate_of n s name : In name names ->
  let t0 := ly_tree s in
  let t := ly_tree (snd (snd (MigrateArchives euid egid fate_of (n, s)))) in
  (t !! old_path name = t0 !! old_path name /\ t !! new_path name = t0 !! new_path name) \/
  (exists e, t0 !! old_path name = Some e /\ t0 !! new_path name = None /\ t !! old_path name = None /\ t !! new_path name = Some e) \/
  (name = "quarantine"%string /\ t0 !! old_path name = None /\ t0 !! new_path name = None /\
   exists e, en_Files e = ∅ /\ ((t !! old_path name = Some e /\ t !! new_path name = None) \/ (t !! old_path name = None /\ t !! new_path name = Some e))).
Proof.
  intros Hn t0 t. assert (kept t0 (snd (snd (MigrateArchives euid egid fate_of (n, s))))) as Hk; [|exact (Hk name Hn)].
  assert (kept t0 s) as H0 by (intros x _; by left). pose proof (kept_migration euid egid t0 fate_of n s H0) as Ht.
  by destruct (MigrateArchives euid egid fate_of (n, s)) as [[r|] [n' s']].
Qed.

(** ** It can be run again *)
Section again.
Context (euid egid : Z) (root : entry).
Definition valid_dir (modes : list Z) (e : entry) : Prop := en_Type e = Directory /\ existsb (Z.eqb (en_Mode e)) modes = true /\ en_Uid e = euid.
(** A directory is at one place, or it is a quarantine that is at none. *)
Definition placed (t : gmap string entry) (name : string) : Prop :=
  match t !! old_path name, t !! new_path name with
  | Some e, None | None, Some e => valid_dir shared_modes e /\ en_Dev e = en_Dev root
  | None, None => name = "quarantine"%string
  | Some _, Some _ => False
  end.
(** A state that can be migrated, or completed: an archive of the earlier layout, an
    archive between the two, an archive of the new one. *)
Record migratable (s : layout) : Prop := Migratable {
  mg_root : ly_tree s !! ""%string = Some root;
  mg_root_valid : valid_dir root_modes root;
  mg_catalog : exists e, ly_tree s !! "metadata.db"%string = Some e /\ en_Type e = Regular;
  mg_incoming : exists e, ly_tree s !! "incoming"%string = Some e /\ valid_dir [oct 7 0 0] e;
  mg_lock : forall e, ly_tree s !! "writer.lock"%string = Some e -> en_Type e = Regular;
  mg_maintenance : forall e, ly_tree s !! "maintenance"%string = Some e -> valid_dir shared_modes e;
  mg_archives : forall e, ly_tree s !! "archives"%string = Some e -> valid_dir root_modes e /\ en_Dev e = en_Dev root;
  mg_names : forall name, In name names -> placed (ly_tree s) name;
  mg_idle : ly_busy s "writer.lock" = false /\ ly_busy s "maintenance" = false }.

(** A change of one entry. *)
Lemma migratable_put s path e : migratable s ->
  (path = ""%string -> e = root) -> (path = "metadata.db"%string -> en_Type e = Regular) -> (path = "incoming"%string -> valid_dir [oct 7 0 0] e) ->
  (path = "writer.lock"%string -> en_Type e = Regular) -> (path = "maintenance"%string -> valid_dir shared_modes e) ->
  (path = "archives"%string -> valid_dir root_modes e /\ en_Dev e = en_Dev root) ->
  (forall name, In name names -> placed (<[path := e]> (ly_tree s)) name) -> migratable (put s path e).
Proof.
  intros Hm H1 H2 H3 H4 H5 H6 Hn.
  assert (forall (P : entry -> Prop) q, (path = q -> P e) -> (forall x, ly_tree s !! q = Some x -> P x) -> forall x, ly_tree (put s path e) !! q = Some x -> P x) as Hall.
  { intros P q Hp Hs x. rewrite tree_put. destruct (decide (path = q)) as [->|Hne]; [rewrite lookup_insert_eq; intros [= <-]; by apply Hp|rewrite lookup_insert_ne by done; apply Hs]. }
  assert (forall (P : entry -> Prop) q, (path = q -> P e) -> (exists x, ly_tree s !! q = Some x /\ P x) -> exists x, ly_tree (put s path e) !! q = Some x /\ P x) as Hex.
  { intros P q Hp (x & Hx & HP). rewrite tree_put. destruct (decide (path = q)) as [->|Hne]; [rewrite lookup_insert_eq; eauto|rewrite lookup_insert_ne by done; eauto]. }
  split; [|apply Hm|by apply Hex, Hm|by apply Hex, Hm|by apply Hall, Hm|by apply Hall, Hm|by apply Hall, Hm|by rewrite tree_put|apply Hm].
  destruct (Hex (fun x => x = root) ""%string H1) as (x & Hx & ->); [by exists root; split; [apply Hm|]|done].
Qed.
Lemma placed_elsewhere t path e name : In name names -> ~ In path kept_dirs -> placed t name -> placed (<[path := e]> t) name.
Proof.
  intros Hn Hp. assert (path <> old_path name /\ path <> new_path name) as [Ho Hw].
  { split; intros ->; apply Hp; unfold kept_dirs; apply in_app_iff; [left|right]; by apply in_map. }
  unfold placed. by rewrite !lookup_insert_ne.
Qed.
Lemma valid_made p modes : existsb (Z.eqb (oct 7 0 0)) modes = true -> valid_dir modes (made euid egid p).
Proof. by intros Hm. Qed.
Lemma valid_owned e modes r : en_Uid r = euid -> valid_dir modes e -> valid_dir modes (owned e r).
Proof. by intros Hr (Ht & Hm & _). Qed.
Lemma placed_quarantine t e name : In name names -> t !! new_path "quarantine" = None -> valid_dir shared_modes e -> en_Dev e = en_Dev root -> placed t name ->
  placed (<[old_path "quarantine" := e]> t) name.
Proof.
  intros Hn Hw He Hd. unfold placed. destruct Hn as [<-|[<-|[]]]; [by rewrite !lookup_insert_ne|]. rewrite lookup_insert_eq, lookup_insert_ne by done. by rewrite Hw.
Qed.
Lemma migratable_move s name e : In name names -> migratable s -> ly_tree s !! old_path name = Some e -> ly_tree s !! new_path name = None ->
  migratable (s <| ly_tree := <[new_path name := e]> (delete (old_path name) (ly_tree s)) |>).
Proof.
  intros Hn Hm Ho Hw.
  assert (forall q, ~ In q kept_dirs -> (<[new_path name := e]> (delete (old_path name) (ly_tree s))) !! q = ly_tree s !! q) as Hq.
  { intros q Hq. rewrite lookup_insert_ne, lookup_delete_ne; [done|..]; intros <-; apply Hq; unfold kept_dirs; apply in_app_iff; [left|right]; by apply in_map. }
  split; change (ly_tree (s <| ly_tree := ?x |>)) with x.
  1,3,4,5,6,7: rewrite Hq by (vm_compute; intuition discriminate); apply Hm.
  - apply Hm.
  - intros name' Hn'. pose proof (mg_names s Hm name' Hn') as Hp. destruct (paths_apart name name' Hn Hn') as [H1 H2]. destruct (paths_apart name' name Hn' Hn) as [H3 _].
    unfold placed in *. destruct (decide (name = name')) as [<-|Hne].
    + rewrite lookup_insert_eq, lookup_insert_ne, lookup_delete_eq by done. by rewrite Ho, Hw in Hp.
    + destruct (H2 Hne) as [H4 H5]. rewrite (lookup_insert_ne _ (new_path name) (old_path name')), (lookup_insert_ne _ (new_path name) (new_path name')) by congruence.
      by rewrite !lookup_delete_ne by done.
  - apply Hm.
Qed.
Lemma migratable_elsewhere (s : layout) path e name : migratable s -> ~ In path kept_dirs -> In name names -> placed (<[path := e]> (ly_tree s)) name.
Proof. intros Hs Hp Hn. apply placed_elsewhere; [done|done|by apply Hs]. Qed.
Ltac elsewhere := intros; apply migratable_elsewhere; [assumption|vm_compute; intuition discriminate|assumption].
Lemma migratable_lock s p : migratable s -> migratable (put s "writer.lock"%string (Entry Regular (oct 6 0 0) euid egid (en_Dev p) ∅)).
Proof. intros Hs. apply migratable_put; try done. elsewhere. Qed.
Lemma migratable_make s path : In path ["maintenance"; "archives"]%string -> migratable s -> migratable (put s path (made euid egid root)).
Proof. intros Hp Hs. destruct Hp as [<-|[<-|[]]]; apply migratable_put; try done; elsewhere. Qed.
Lemma migratable_owner s path e : In path ["maintenance"; "archives"]%string -> migratable s -> ly_tree s !! path = Some e -> migratable (put s path (owned e root)).
Proof.
  intros Hp Hs He. assert (en_Uid root = euid) as Hu by apply (mg_root_valid s Hs). destruct Hp as [<-|[<-|[]]]; (apply migratable_put; try done); try elsewhere.
  - intros _. apply valid_owned; [done|]. by apply (mg_maintenance s Hs).
  - intros _. destruct (mg_archives s Hs e He). split; [by apply valid_owned|done].
Qed.
Lemma migratable_mode s e : migratable s -> ly_tree s !! "archives"%string = Some e -> migratable (put s "archives"%string (e <| en_Mode := en_Mode root |>)).
Proof.
  intros Hs He. apply migratable_put; try done; [|elsewhere].
  intros _. destruct (mg_archives s Hs e He) as [(Ht & _ & Hu) Hd]. destruct (mg_root_valid s Hs) as (_ & Hmode & _). by split.
Qed.
Lemma migratable_quarantine s e : migratable s -> ly_tree s !! new_path "quarantine" = None -> valid_dir shared_modes e -> en_Dev e = en_Dev root ->
  migratable (put s (old_path "quarantine") e).
Proof. intros Hs Hw He Hd. apply migratable_put; try done. intros name Hn. apply placed_quarantine; try done. by apply Hs. Qed.
Lemma quarantine_valid s e : migratable s -> ly_tree s !! old_path "quarantine" = Some e -> ly_tree s !! new_path "quarantine" = None ->
  valid_dir shared_modes (owned e root) /\ en_Dev (owned e root) = en_Dev root.
Proof.
  intros Hs He Hw. pose proof (mg_names s Hs "quarantine"%string (or_intror (or_introl eq_refl))) as Hp. unfold placed in Hp. rewrite He, Hw in Hp.
  destruct Hp as [Hv Hd]. split; [|done]. apply valid_owned; [apply (mg_root_valid s Hs)|done].
Qed.
Lemma migratable_kept fate_of : triple migratable (MigrateArchives euid egid fate_of) (fun _ => migratable) migratable.
Proof.
  apply (keeps_migration euid egid migratable (fun r => r = root) (fun s => migratable s /\ ly_tree s !! new_path "quarantine" = None)).
  - intros s r Hs Hr. rewrite (mg_root s Hs) in Hr. by injection Hr.
  - intros s p Hs _ _. by apply migratable_lock.
  - intros s path p Hp Hs _ Hr. rewrite (mg_root s Hs) in Hr. injection Hr as <-. by apply migratable_make.
  - intros s path e r Hp -> Hs He. by apply migratable_owner.
  - intros s e r -> Hs He. by apply migratable_mode.
  - intros s p Hs Ho Hw Hp. rewrite (mg_root s Hs) in Hp. injection Hp as <-. split; [by apply migratable_quarantine|by rewrite tree_put, lookup_insert_ne].
  - by intros s [].
  - intros s e r -> [Hs Hw] He. destruct (quarantine_valid s e Hs He Hw). by apply migratable_quarantine.
  - intros s name e p Hn Hs Ho Hw _ _. by apply migratable_move.
Qed.

(** *** A run in which no call fails *)
Abbreviation present path s := (is_Some (ly_tree s !! path)).
Lemma runs_lstat (P : layout -> Prop) path : runs P (lstat faultless path)
  (fun r s => P s /\ r = match ly_tree s !! path with Some e => Ok e | None => Err (OsError ENOENT) end).
Proof. unfold lstat. apply runs_act. intros s Hs. done. Qed.
Lemma runs_validate (P : layout -> Prop) path modes : (forall s, P s -> exists e, ly_tree s !! path = Some e /\ valid_dir modes e) ->
  runs P (validateDirectoryModes euid faultless path modes) (fun r s => r = Ok tt /\ P s).
Proof.
  intros HP. unfold validateDirectoryModes. eapply runs_bind; [apply runs_lstat|]. intros r n s [Hs ->]. destruct (HP s Hs) as (e & -> & Ht & Hm & Hu).
  exists (Ok tt), n, s. split; [|by split]. rewrite Hm, Hu, Ht, Z.eqb_refl. reflexivity.
Qed.
Lemma valid_root s : migratable s -> exists e, ly_tree s !! ""%string = Some e /\ valid_dir root_modes e.
Proof. intros Hs. exists root. split; apply Hs. Qed.
Lemma runs_made (P : layout -> Prop) path : In path ["maintenance"; "archives"]%string -> (forall s, P s -> migratable s) ->
  (forall s, P s -> ly_tree s !! path = None -> P (put s path (made euid egid root))) ->
  runs P (mkdir euid egid faultless path (oct 7 0 0)) (fun r s => P s /\ present path s /\ (r = Ok tt \/ r = Err (OsError EEXIST))).
Proof.
  intros Hp HP Hm. unfold mkdir. apply runs_act. intros s Hs. assert (parent_of path = ""%string) as -> by (by destruct Hp as [<-|[<-|[]]]).
  destruct (ly_tree s !! path) as [e|] eqn:E; [by split; [|split; [exists e|right]]|]. rewrite (mg_root s (HP s Hs)). cbn [fst snd].
  split; [by apply Hm|]. split; [|by left]. exists (made euid egid root). rewrite tree_put. by rewrite lookup_insert_eq.
Qed.
Lemma runs_change (P : layout -> Prop) path f : (forall s e, P s -> ly_tree s !! path = Some e -> P (put s path (f e))) -> (forall s, P s -> present path s) ->
  runs P (change faultless path f) (fun r s => r = Ok tt /\ P s).
Proof. intros Hf HP. unfold change. apply runs_act. intros s Hs. destruct (HP s Hs) as [e E]. rewrite E. split; [done|]. by apply Hf. Qed.
Lemma runs_lock_writer : runs migratable (lock euid egid faultless "writer.lock" true) (fun r s => r = Ok tt /\ migratable s).
Proof.
  unfold lock. apply (runs_try _ _ _ tt _ migratable).
  - unfold open_lock. apply runs_act. intros s Hs. change (parent_of "writer.lock") with ""%string.
    destruct (ly_tree s !! "writer.lock"%string) as [e|] eqn:E; [rewrite bool_decide_true by (by apply (mg_lock s Hs)); by split|].
    rewrite (mg_root s Hs). split; [done|by apply migratable_lock].
  - unfold flock. apply runs_act. intros s Hs. by rewrite (proj1 (mg_idle s Hs)).
Qed.
Lemma runs_lock_maintenance : runs (fun s => migratable s /\ present "maintenance"%string s) (lock euid egid faultless "maintenance" false)
  (fun r s => r = Ok tt /\ migratable s /\ present "maintenance"%string s).
Proof.
  unfold lock. apply (runs_try _ _ _ tt _ (fun s => migratable s /\ present "maintenance"%string s)).
  - unfold open_lock. apply runs_act. intros s [Hs [e E]]. rewrite E, bool_decide_true by (by apply (mg_maintenance s Hs)). split; [done|]. split; [done|]. by exists e.
  - unfold flock. apply runs_act. intros s [Hs Hp]. by rewrite (proj2 (mg_idle s Hs)).
Qed.
Lemma runs_maintenance : runs migratable (maintenance_directory euid egid faultless root) (fun r s => r = Ok tt /\ migratable s /\ present "maintenance"%string s).
Proof.
  unfold maintenance_directory. eapply runs_bind; [apply (runs_made migratable "maintenance"); [by left|done|by intros s Hs _; apply migratable_make; [left|]]|].
  intros r. apply (runs_try _ _ _ tt _ (fun s => migratable s /\ present "maintenance"%string s)).
  - intros n s (Hs & Hp & Hr). destruct Hr as [->| ->]; [|by eexists _, n, s].
    refine (runs_change (fun s => migratable s /\ present "maintenance"%string s) "maintenance"%string _ _ _ n s (conj Hs Hp)); [|by intros x []].
    intros x e [Hx _] He. split; [apply migratable_owner; [by left|done|done]|]. rewrite tree_put, lookup_insert_eq. by eexists.
  - apply runs_validate. intros s [Hs [e E]]. exists e. split; [done|]. by apply (mg_maintenance s Hs).
Qed.
Definition ready (s : layout) : Prop := migratable s /\ present "maintenance"%string s /\ present "archives"%string s.
Lemma runs_parent : runs (fun s => migratable s /\ present "maintenance"%string s) (make_parent euid egid faultless root) (fun r s => r = Ok tt /\ ready s).
Proof.
  unfold make_parent. eapply runs_bind.
  { apply (runs_made (fun s => migratable s /\ present "maintenance"%string s) "archives"); [by right; left|by intros s []|].
    intros s [Hs Hp] _. split; [apply migratable_make; [by right; left|done]|]. by rewrite tree_put, lookup_insert_ne. }
  intros r. apply (runs_try _ _ _ tt _ ready).
  - intros n s ([Hs Hp] & Ha & Hr). destruct Hr as [->| ->]; [|by eexists _, n, s].
    assert (runs ready (_ ←? chown faultless "archives" (en_Uid root) (en_Gid root); chmod faultless "archives" (en_Mode root)) (fun r s => r = Ok tt /\ ready s)) as Hc; [|by apply (Hc n s)].
    apply (runs_try _ _ _ tt _ ready); apply runs_change; try (by intros x (_ & _ & ?)); intros x e (Hx & Hm & _) He;
      (split; [first [by apply migratable_owner; [right; left| |]|by apply migratable_mode]|]); rewrite tree_put; (split; [by rewrite lookup_insert_ne|rewrite lookup_insert_eq; by eexists]).
  - apply (runs_try _ _ _ tt _ ready).
    + apply runs_validate. intros s (Hs & _ & [e E]). exists e. split; [done|]. by apply (mg_archives s Hs).
    + eapply runs_bind; [apply runs_lstat|]. intros r2 n s [Hs ->]. destruct Hs as (Hs & Hm & [e E]). rewrite E. exists (Ok tt), n, s.
      destruct (mg_archives s Hs e E) as [_ Hd]. cbn. rewrite Hd, Z.eqb_refl. split; [done|]. split; [done|]. split; [done|]. split; [done|]. by exists e.
Qed.
(** A directory and where it is. *)
Definition at_old (s : layout) (name : string) : Prop := present (old_path name) s /\ ly_tree s !! new_path name = None.
Definition at_new (s : layout) (name : string) : Prop := ly_tree s !! old_path name = None /\ present (new_path name) s.
Lemma placed_valid s name path : In name names -> migratable s -> (path = old_path name \/ path = new_path name) -> present path s ->
  exists e, ly_tree s !! path = Some e /\ valid_dir shared_modes e /\ en_Dev e = en_Dev root.
Proof.
  intros Hn Hs Hp [e E]. exists e. split; [done|]. pose proof (mg_names s Hs name Hn) as Hpl. unfold placed in Hpl.
  destruct Hp as [->| ->]; rewrite E in Hpl; [by destruct (ly_tree s !! new_path name)|by destruct (ly_tree s !! old_path name)].
Qed.
(** The examination of a directory; the others stay where they are. *)
Definition settled (is_old : bool) (name : string) (s : layout) : Prop := if is_old then at_old s name else at_new s name.
Lemma runs_examine (P : layout -> Prop) name : In name names -> (forall s, P s -> ready s) ->
  (forall s, P s -> ly_tree s !! old_path "quarantine" = None -> ly_tree s !! new_path "quarantine" = None -> name = "quarantine"%string ->
     P (put s (old_path "quarantine") (owned (made euid egid root) root))) ->
  runs P (examine euid egid faultless root name) (fun r s => exists is_old, r = Ok is_old /\ P s /\ settled is_old name s).
Proof.
  intros Hn HP Hq. unfold examine. eapply runs_bind; [apply runs_lstat|]. intros old. eapply runs_bind; [apply runs_lstat|]. intros new.
  assert (forall is_old, runs (fun s => P s /\ settled is_old name s)
    (_ ←? validateDirectoryModes euid faultless (if is_old then old_path name else new_path name) shared_modes;
     info ←? lstat faultless (if is_old then old_path name else new_path name);
     mret (if en_Dev info =? en_Dev root then Ok is_old else err_text "migrazione richiede tutte le directory sullo stesso filesystem"))
    (fun r s => exists is_old, r = Ok is_old /\ P s /\ settled is_old name s)) as Hrest.
  { intros is_old. assert (forall s, P s /\ settled is_old name s -> exists e, ly_tree s !! (if is_old then old_path name else new_path name) = Some e /\ valid_dir shared_modes e /\ en_Dev e = en_Dev root) as Hv.
    { intros s [Hs Ha]. destruct (HP s Hs) as [Hm _]. destruct is_old; destruct Ha; by apply (placed_valid s name); auto. }
    apply (runs_try _ _ _ tt _ (fun s => P s /\ settled is_old name s)).
    - apply runs_validate. intros s Hs. destruct (Hv s Hs) as (e & E & He & _). by exists e.
    - eapply runs_bind; [apply runs_lstat|]. intros r n s [Hs ->]. destruct (Hv s Hs) as (e & -> & _ & Hd). exists (Ok is_old), n, s.
      cbn. rewrite Hd, Z.eqb_refl. split; [done|]. exists is_old. by destruct Hs. }
  intros n s [[Hs ->] ->]. destruct (HP s Hs) as [Hm _]. pose proof (mg_names s Hm name Hn) as Hpl. unfold placed in Hpl.
  destruct (ly_tree s !! old_path name) as [o|] eqn:Eo, (ly_tree s !! new_path name) as [w|] eqn:Ew; [done|..]; unfold absent_quarantine; cbn [not_exist negb].
  - apply (Hrest true n s). split; [done|]. split; [by exists o|done].
  - apply (Hrest false n s). split; [done|]. split; [done|by exists w].
  - subst name. rewrite String.eqb_refl.
    set (s1 := put s (old_path "quarantine") (made euid egid root)). set (s2 := put s1 (old_path "quarantine") (owned (made euid egid root) root)).
    assert (s2 = put s (old_path "quarantine") (owned (made euid egid root) root)) as E2.
    { unfold s2, s1. destruct s as [t b l c]. cbn. f_equal. change (<[old_path "quarantine" := owned (made euid egid root) root]> (<[old_path "quarantine" := made euid egid root]> t) = <[old_path "quarantine" := owned (made euid egid root) root]> t). apply insert_insert_eq. }
    assert (mkdir euid egid faultless (old_path "quarantine") (oct 7 0 0) (n, s) = (Some (Ok tt), ((n + 1)%nat, s1))) as E1.
    { unfold mkdir, Io.act, faultless, alone. rewrite Eo. change (parent_of (old_path "quarantine")) with ""%string. by rewrite (mg_root s Hm). }
    assert (chown faultless (old_path "quarantine") (en_Uid root) (en_Gid root) ((n + 1)%nat, s1) = (Some (Ok tt), ((n + 1 + 1)%nat, s2))) as E3.
    { unfold chown, change, Io.act, faultless, alone. unfold s1 at 1. rewrite tree_put, lookup_insert_eq. done. }
    assert ((_ ←? mkdir euid egid faultless (old_path "quarantine") (oct 7 0 0); _ ←? chown faultless (old_path "quarantine") (en_Uid root) (en_Gid root);
      mret (Ok true)) (n, s) = (Some (Ok true), ((n + 1 + 1)%nat, s2))) as E4.
    { unfold io_try at 1. rewrite (bind_returns _ _ _ _ _ E1). unfold io_try. by rewrite (bind_returns _ _ _ _ _ E3). }
    unfold io_try at 1. rewrite (bind_returns _ _ _ _ _ E4).
    apply (Hrest true (n + 1 + 1)%nat s2). rewrite E2. split; [by apply Hq|]. split; rewrite tree_put; [rewrite lookup_insert_eq; by eexists|by rewrite lookup_insert_ne].
Qed.
Lemma settled_put name s e : name <> "quarantine"%string -> In name names -> forall b, settled b name s -> settled b name (put s (old_path "quarantine") e).
Proof.
  intros Hne Hn b. destruct Hn as [<-|[<-|[]]]; [|done]. unfold settled, at_old, at_new. by rewrite tree_put, !lookup_insert_ne.
Qed.
Lemma ready_quarantine s : ready s -> ly_tree s !! old_path "quarantine" = None -> ly_tree s !! new_path "quarantine" = None ->
  ready (put s (old_path "quarantine") (owned (made euid egid root) root)).
Proof.
  intros (Hs & Hm & Ha) Ho Hw. split; [|by rewrite tree_put, !lookup_insert_ne]. apply migratable_quarantine; try done.
  apply valid_owned; [apply (mg_root_valid s Hs)|done].
Qed.
Lemma runs_examine_all : runs ready (examine_all euid egid faultless root names)
  (fun r s => exists b1 b2, r = Ok ((if b1 : bool then ["backups"%string] else []) ++ (if b2 : bool then ["quarantine"%string] else [])) /\
    ready s /\ settled b1 "backups" s /\ settled b2 "quarantine" s).
Proof.
  cbn [examine_all names]. unfold io_try at 1. eapply runs_bind.
  { apply (runs_examine ready "backups"); [by left|done|done]. }
  intros r n s (b1 & -> & Hs & H1). unfold io_try.
  assert (runs (fun s => ready s /\ settled b1 "backups" s) (examine euid egid faultless root "quarantine")
    (fun r s => exists b2, r = Ok b2 /\ (ready s /\ settled b1 "backups" s) /\ settled b2 "quarantine" s)) as Hq.
  { apply runs_examine; [by right; left|by intros x []|]. intros x [Hx Hb] Ho Hw _. split; [by apply ready_quarantine|]. apply settled_put; [done|by left|done]. }
  destruct (Hq n s (conj Hs H1)) as (r & n' & s' & E & b2 & -> & [Hs' H1'] & H2). rewrite (bind_returns _ _ _ _ _ (bind_returns _ _ _ _ _ E)).
  eexists _, n', s'. split; [reflexivity|]. exists b1, b2. split; [by destruct b1, b2|done].
Qed.
Lemma runs_move name name' b : In name names -> In name' names -> name <> name' ->
  runs (fun s => ready s /\ at_old s name /\ settled b name' s) (move faultless name) (fun r s => r = Ok tt /\ ready s /\ at_new s name /\ settled b name' s).
Proof.
  intros Hn Hn' Hne. destruct (paths_apart name name' Hn Hn') as [H1 H2]. destruct (H2 Hne) as [H4 H5]. destruct (paths_apart name' name Hn' Hn) as [H3 _].
  unfold move. apply (runs_try _ _ _ tt _ (fun s => ready s /\ at_new s name /\ settled b name' s)).
  - unfold rename_noreplace. apply runs_act. intros s ((Hs & Hm & Ha) & ([e Ho] & Hw) & Hb).
    assert (parent_of (new_path name) = "archives"%string) as -> by (by destruct Hn as [<-|[<-|[]]]). rewrite Ho, Hw. destruct Ha as [p Hp]. rewrite Hp.
    destruct (placed_valid s name (old_path name) Hn Hs (or_introl eq_refl) (ex_intro _ e Ho)) as (x & Ex & _ & Hd). rewrite Ho in Ex. injection Ex as <-.
    rewrite Hd, (proj2 (mg_archives s Hs p Hp)), Z.eqb_refl. cbn [fst snd]. split; [done|].
    assert (forall q, ~ In q kept_dirs -> (<[new_path name := e]> (delete (old_path name) (ly_tree s))) !! q = ly_tree s !! q) as Hq.
    { intros q Hq. rewrite lookup_insert_ne, lookup_delete_ne; [done|..]; intros <-; apply Hq; unfold kept_dirs; apply in_app_iff; [left|right]; by apply in_map. }
    split; [split; [by apply migratable_move|]|].
    + change (ly_tree (s <| ly_tree := ?x |>)) with x. rewrite !Hq by (vm_compute; intuition discriminate). split; [done|by exists p].
    + assert ((<[new_path name := e]> (delete (old_path name) (ly_tree s))) !! old_path name = None) as E1 by (rewrite lookup_insert_ne, lookup_delete_eq; [done|by destruct Hn as [<-|[<-|[]]]]).
      assert ((<[new_path name := e]> (delete (old_path name) (ly_tree s))) !! new_path name = Some e) as E2 by apply lookup_insert_eq.
      assert ((<[new_path name := e]> (delete (old_path name) (ly_tree s))) !! old_path name' = ly_tree s !! old_path name') as E3 by (rewrite lookup_insert_ne, lookup_delete_ne; [done|congruence..]).
      assert ((<[new_path name := e]> (delete (old_path name) (ly_tree s))) !! new_path name' = ly_tree s !! new_path name') as E4 by (rewrite lookup_insert_ne, lookup_delete_ne; [done|congruence..]).
      unfold settled, at_old, at_new in *. change (ly_tree (s <| ly_tree := ?x |>)) with x. rewrite E1, E2, E3, E4. split; [split; [done|by exists e]|done].
  - apply (runs_try _ _ _ tt _ (fun s => ready s /\ at_new s name /\ settled b name' s)); unfold sync_directory;
      repeat (apply (runs_try _ _ _ tt _ (fun s => ready s /\ at_new s name /\ settled b name' s))); by apply runs_act.
Qed.
(** The new layout. *)
Definition migrated (s : layout) : Prop := ready s /\ at_new s "backups" /\ at_new s "quarantine".
Lemma runs_moves b1 b2 : runs (fun s => ready s /\ settled b1 "backups" s /\ settled b2 "quarantine" s)
  (each_path (move faultless) ((if b1 : bool then ["backups"%string] else []) ++ (if b2 : bool then ["quarantine"%string] else []))) (fun r s => r = Ok tt /\ migrated s).
Proof.
  assert (In "backups"%string names /\ In "quarantine"%string names) as [Hb Hq] by (split; [by left|by right; left]).
  assert (runs (fun s => ready s /\ at_old s "quarantine" /\ settled false "backups" s) (each_path (move faultless) ["quarantine"%string]) (fun r s => r = Ok tt /\ migrated s)) as H1.
  { cbn [each_path]. apply (runs_try _ _ _ tt _ migrated); [|by apply runs_ret]. eapply runs_weaken; [by apply (runs_move "quarantine" "backups" false)|done|].
    by intros r s (-> & Hs & Ha & Hn). }
  destruct b1, b2; cbn [app].
  - cbn [each_path]. apply (runs_try _ _ _ tt _ (fun s => ready s /\ at_old s "quarantine" /\ settled false "backups" s)); [|exact H1].
    eapply runs_weaken; [by apply (runs_move "backups" "quarantine" true)|done|]. by intros r s (-> & Hs & Ha & Hn).
  - cbn [each_path]. apply (runs_try _ _ _ tt _ migrated); [|by apply runs_ret]. eapply runs_weaken; [by apply (runs_move "backups" "quarantine" false)|done|].
    by intros r s (-> & Hs & Ha & Hn).
  - eapply runs_weaken; [exact H1|by intros s (Hs & Ha & Hn)|done].
  - cbn [each_path]. apply runs_ret. by intros s (Hs & Ha & Hn).
Qed.
Lemma runs_state : runs migrated (ValidateState euid faultless) (fun r s => r = Ok tt /\ migrated s).
Proof.
  unfold ValidateState, ValidateArchiveLayout, rejectLegacyArchiveDirectories.
  assert (forall s, migrated s -> exists e, ly_tree s !! "archives"%string = Some e /\ valid_dir root_modes e) as Ha.
  { intros s ((Hs & _ & [e E]) & _). exists e. split; [done|]. by apply (mg_archives s Hs). }
  assert (forall s name, In name names -> migrated s -> exists e, ly_tree s !! new_path name = Some e /\ valid_dir shared_modes e) as Hd.
  { intros s name Hn ((Hs & _) & H1 & H2). destruct (placed_valid s name (new_path name) Hn Hs (or_intror eq_refl)) as (e & E & He & _); [|by exists e].
    destruct Hn as [<-|[<-|[]]]; [apply H1|apply H2]. }
  apply (runs_try _ _ _ tt _ migrated).
  - apply (runs_try _ _ _ tt _ migrated); [|by apply runs_validate]. cbn [each_path names].
    assert (forall name, In name names -> runs migrated (r ← lstat faultless (old_path name);
      mret (match r with Ok _ => err_text "layout archivio precedente: fermare tutti i servizi ed eseguire onlybackup-admin --state DIR migrate-archives" | Err e => if not_exist e then Ok tt else Err e end))
      (fun r s => r = Ok tt /\ migrated s)) as Hl.
    { intros name Hn. eapply runs_bind; [apply runs_lstat|]. intros r n s [Hs ->]. assert (ly_tree s !! old_path name = None) as ->; [|by eexists _, n, s].
      destruct Hs as (_ & [H1 _] & [H2 _]). by destruct Hn as [<-|[<-|[]]]. }
    apply (runs_try _ _ _ tt _ migrated); [apply Hl; by left|]. apply (runs_try _ _ _ tt _ migrated); [apply Hl; by right; left|]. by apply runs_ret.
  - repeat (apply (runs_try _ _ _ tt _ migrated); [apply runs_validate|]); try exact Ha.
    + intros s ((Hs & _) & _). exact (valid_root s Hs).
    + intros s ((Hs & _) & _). exact (mg_incoming s Hs).
    + intros s. apply (Hd s "backups"%string). by left.
    + intros s. apply (Hd s "quarantine"%string). by right; left.
    + apply runs_validate. intros s ((Hs & [e E] & _) & _). exists e. split; [done|]. by apply (mg_maintenance s Hs).
Qed.
Lemma runs_migration : runs migratable (MigrateArchives euid egid faultless) (fun r s => r = Ok tt /\ migrated s).
Proof.
  unfold MigrateArchives. apply (runs_try _ _ _ tt _ migratable); [apply runs_validate, valid_root|].
  eapply runs_bind; [apply runs_lstat|]. intros r n s [Hs ->]. destruct (mg_catalog s Hs) as (c & Ec & Hc). rewrite Ec, bool_decide_true by done.
  match goal with |- exists a n' s', ?m (n, s) = _ /\ _ => assert (runs migratable m (fun r s => r = Ok tt /\ migrated s)) as Hm; [|by apply (Hm n s)] end.
  clear n s Hs c Ec Hc. apply (runs_try _ _ _ tt _ migratable); [by apply runs_ret|].
  apply (runs_try _ _ _ tt _ migratable); [apply runs_validate; intros s Hs; exact (mg_incoming s Hs)|].
  unfold io_try at 1. eapply runs_bind; [apply (runs_lstat migratable)|]. intros r n s [Hs ->]. rewrite (mg_root s Hs).
  match goal with |- exists a n' s', ?m (n, s) = _ /\ _ => assert (runs migratable m (fun r s => r = Ok tt /\ migrated s)) as Hm; [|by apply (Hm n s)] end.
  clear n s Hs. apply (runs_try _ _ _ tt _ migratable); [apply runs_lock_writer|].
  apply (runs_try _ _ _ tt _ (fun s => migratable s /\ present "maintenance"%string s)); [apply runs_maintenance|].
  apply (runs_try _ _ _ tt _ (fun s => migratable s /\ present "maintenance"%string s)); [apply runs_lock_maintenance|].
  apply (runs_try _ _ _ tt _ ready); [apply runs_parent|].
  unfold io_try at 1. eapply runs_bind; [apply runs_examine_all|]. intros r n s (b1 & b2 & -> & Hs).
  assert (runs (fun s => ready s /\ settled b1 "backups" s /\ settled b2 "quarantine" s)
    (_ ←? each_path (move faultless) ((if b1 then ["backups"%string] else []) ++ (if b2 then ["quarantine"%string] else [])); ValidateState euid faultless)
    (fun r s => r = Ok tt /\ migrated s)) as Hm; [|by apply (Hm n s)].
  apply (runs_try _ _ _ tt _ migrated); [apply runs_moves|apply runs_state].
Qed.
End again.

(** The locks that another process holds are none of this run's doing. *)
Lemma kept_after t0 euid egid fate_of n s : kept t0 s -> kept t0 (snd (snd (MigrateArchives euid egid fate_of (n, s)))).
Proof.
  intros H0. pose proof (kept_migration euid egid t0 fate_of n s H0) as Ht. by destruct (MigrateArchives euid egid fate_of (n, s)) as [[r|] [n' s']].
Qed.
Lemma migratable_after euid egid root fate_of n s : migratable euid root s -> migratable euid root (snd (snd (MigrateArchives euid egid fate_of (n, s)))).
Proof.
  intros H0. pose proof (migratable_kept euid egid root fate_of n s H0) as Ht. by destruct (MigrateArchives euid egid fate_of (n, s)) as [[r|] [n' s']].
Qed.

(** C8. A migration that was stopped can be run again: from an archive that can be
    migrated, wherever a failure or a stop left the first run, a second run in which no
    call fails ends, succeeds, and has every directory at its new place only, with the
    very files that it held before the first. *)
Theorem migration_resumes euid egid root fate_of n s n2 : migratable euid root s ->
  let s1 := snd (snd (MigrateArchives euid egid fate_of (n, s))) in
  exists n3 s2, MigrateArchives euid egid faultless (n2, s1) = (Some (Ok tt), (n3, s2)) /\
    forall name, In name names -> ly_tree s2 !! old_path name = None /\
      exists e, ly_tree s2 !! new_path name = Some e /\
        (ly_tree s !! old_path name = Some e \/ ly_tree s !! new_path name = Some e \/
         (name = "quarantine"%string /\ ly_tree s !! old_path name = None /\ ly_tree s !! new_path name = None /\ en_Files e = ∅)).
Proof.
  intros Hs s1. pose proof (migratable_after euid egid root fate_of n s Hs) as H1. fold s1 in H1.
  assert (kept (ly_tree s) s1) as K1 by (apply kept_after; intros x _; by left). pose proof (kept_after (ly_tree s) euid egid faultless n2 s1 K1) as K2.
  destruct (runs_migration euid egid root n2 s1 H1) as (r & n3 & s2 & E & -> & Hm). exists n3, s2. split; [done|]. rewrite E in K2. cbn [snd] in K2.
  intros name Hn. assert (at_new s2 name) as [Ho [e He]] by (destruct Hm as (_ & Ha & Hq); by destruct Hn as [<-|[<-|[]]]).
  split; [done|]. exists e. split; [done|]. destruct (K2 name Hn) as [[_ E2]|[(x & Ex & _ & _ & E2)|(-> & E1 & E2 & x & Hf & [[_ E3]|[_ E3]])]].
  - right; left. by rewrite <- E2.
  - left. rewrite He in E2. injection E2 as ->. done.
  - by rewrite He in E3.
  - right; right. rewrite He in E3. injection E3 as ->. done.
Qed.

(** ** An archive of the earlier layout *)
Module Legacy.
Definition dir (mode gid : Z) (files : gmap string string) : entry := Entry Directory mode 990 gid 8 files.
Definition root : entry := dir (oct 7 1 0) 77 ∅.
(** An installation of before the executor and before the quarantine. *)
Definition archive : layout := Layout (list_to_map [(""%string, root); ("metadata.db", Entry Regular (oct 6 0 0) 990 990 8 ∅);
  ("incoming", dir (oct 7 0 0) 990 ∅); ("backups", dir (oct 7 0 0) 990 {["b1" := "bytes"]})]%string) (fun _ => false) (fun _ => false) None.
(** The first run is stopped just after its call number [n]. *)
Definition stopped_after (n : nat) : nat -> fate := fun i => if Nat.eqb i n then StopsLate else Works.
Definition after (n : nat) : layout := snd (snd (MigrateArchives 990 990 (stopped_after n) (0%nat, archive))).
Lemma archive_migratable : migratable 990 root archive.
Proof.
  split; try (by vm_compute); try (by eexists; split; vm_compute); try (intros e He; vm_compute in He; discriminate).
  intros name [<-|[<-|[]]]; by vm_compute.
Qed.
End Legacy.

(** The first run is stopped after the first of the two moves. *)
Lemma migration_resumes_witness : migratable 990 Legacy.root Legacy.archive /\
  ly_tree (Legacy.after 26) !! new_path "backups" <> None /\ ly_tree (Legacy.after 26) !! new_path "quarantine" = None /\
  exists n3 s2, MigrateArchives 990 990 faultless (0%nat, Legacy.after 26) = (Some (Ok tt), (n3, s2)) /\
    forall name, In name names -> ly_tree s2 !! old_path name = None /\
      exists e, ly_tree s2 !! new_path name = Some e /\
        (ly_tree Legacy.archive !! old_path name = Some e \/ ly_tree Legacy.archive !! new_path name = Some e \/
         (name = "quarantine"%string /\ ly_tree Legacy.archive !! old_path name = None /\ ly_tree Legacy.archive !! new_path name = None /\ en_Files e = ∅)).
Proof.
  split; [exact Legacy.archive_migratable|]. split; [by vm_compute|]. split; [by vm_compute|].
  exact (migration_resumes 990 990 Legacy.root (Legacy.stopped_after 26) 0 Legacy.archive 0 Legacy.archive_migratable).
Defined.

(** A run that was stopped between the making of [archives] and its owner and mode is
    completed by a second one that leaves the owner and the mode of the making: they are
    not those of the root, which a run that nothing stops gives it. *)
Lemma half_made_parent :
  let given s := option_map (fun e => (en_Mode e, en_Gid e)) (ly_tree s !! "archives"%string) in
  let again := MigrateArchives 990 990 faultless (0%nat, Legacy.after 11) in
  let once := MigrateArchives 990 990 faultless (0%nat, Legacy.archive) in
  fst again = Some (Ok tt) /\ given (snd (snd again)) = Some (oct 7 0 0, 990) /\
  fst once = Some (Ok tt) /\ given (snd (snd once)) = Some (oct 7 1 0, 77).
Proof. by vm_compute. Qed.

(** ** Initialisation *)
(** It changes nothing of a state directory that has a catalogue, whatever fails. *)
Lemma init_keeps_archive euid egid fate_of device n s : is_Some (ly_tree s !! ""%string) -> is_Some (ly_tree s !! "metadata.db"%string) ->
  snd (snd (Init euid egid fate_of device (n, s))) = s /\ fst (Init euid egid fate_of device (n, s)) <> Some (Ok tt).
Proof.
  intros [root Hr] [c Hc].
  assert (triple (fun x => x = s) (Init euid egid fate_of device) (fun r x => x = s /\ r <> Ok tt) (fun x => x = s)) as Ht.
  { unfold Init. apply (triple_try _ _ _ _ (fun _ x => x = s)); [| |by intros e x ->].
    { unfold mkdir_all. apply triple_act_inv; [apply _|]. intros x ->. by rewrite Hr. }
    intros []. apply (triple_try _ _ _ _ (fun _ x => x = s)); [| |by intros e x ->].
    { eapply triple_bind; [by apply triple_act_inv; [apply _|]|]. intros [?|?]; by apply triple_ret. }
    intros []. eapply triple_bind; [by apply (seen (fun x => x = s) _ _ (fun x => x = s))|]. intros r.
    apply (triple_try _ _ _ _ (fun r x => x = s /\ r <> Ok tt)); [|intros [] n1 x [_ Hx]; done|by intros e x []].
    apply triple_ret. intros x (-> & _ & Hx). split; [done|]. destruct r as [d|e]; [done|]. destruct (not_exist e) eqn:E; [|done]. by rewrite (Hx e eq_refl E) in Hc. }
  specialize (Ht n s eq_refl). destruct (Init euid egid fate_of device (n, s)) as [[r|] [n' s']]; cbn in *; [destruct Ht as [-> Ht]; split; [done|congruence]|by split].
Qed.

(** A new archive. *)
Module New.
Definition nothing : layout := Layout ∅ (fun _ => false) (fun _ => false) None.
Definition made : layout := snd (snd (Init 990 990 faultless 8 (0%nat, nothing))).
(** Stopped between the making of the file and the commit of the catalogue. *)
Definition half_made : layout := snd (snd (Init 990 990 (Legacy.stopped_after 19) 8 (0%nat, nothing))).
Lemma init_makes_archive : fst (Init 990 990 faultless 8 (0%nat, nothing)) = Some (Ok tt) /\ ly_catalog made = Some initial_db /\
  fst (ValidateState 990 faultless (0%nat, made)) = Some (Ok tt).
Proof. by vm_compute. Qed.
(** What a stopped initialisation leaves is not an archive and cannot be made one: the
    next one refuses the file of the catalogue that it finds. *)
Lemma init_not_resumed : ly_catalog half_made = None /\
  fst (Init 990 990 faultless 8 (0%nat, half_made)) = Some (err_text "inizializzazione: catalogo gia esistente").
Proof. by vm_compute. Qed.
End New.
