(* ===== verification/Tables.v ===== *)
(** Tables with constraints, and the statements on them that the migrations of the schema
    use, with the documented behaviour of SQLite when foreign keys are enforced
    ([src/internal/store/migration_v5.go] and the others, [Open] of
    [src/internal/store/store.go]). *)
From S2P Require Import Prelude GoTime GoString.

Inductive value : Type := Null | Int (z : Z) | Text (s : string).
#[global] Instance value_eq_dec : EqDecision value.
Proof. solve_decision. Defined.
Abbreviation row := (gmap string value).
Definition field (name : string) (r : row) : value := default Null (r !! name).

(** A column: whether NULL is refused, the value of a row that gives none, its CHECK,
    which NULL passes. *)
Record column : Type := Column { c_Name : string; c_NotNull : bool; c_Default : value; c_Check : value -> bool }.
Record reference : Type := Reference { f_From : list string; f_Table : string; f_To : list string }.
(** [t_Rowid]: the column of an INTEGER PRIMARY KEY, which a row need not give;
    [t_Sequence]: the largest one that a row had. *)
Record table : Type := Table {
  t_Columns : list column; t_Rowid : option string; t_Check : row -> bool; t_Keys : list (list string);
  t_References : list reference; t_Rows : list row; t_Sequence : Z }.
#[global] Instance eta_table : Settable table := fun t =>
  Table (t_Columns t) (t_Rowid t) (t_Check t) (t_Keys t) (t_References t) (t_Rows t) (t_Sequence t).
Record index : Type := Index { x_Table : string; x_Columns : list string; x_Unique : bool; x_Where : row -> bool }.
#[global] Instance eta_index : Settable index := fun x => Index (x_Table x) (x_Columns x) (x_Unique x) (x_Where x).
Record database : Type := Database { db_Tables : gmap string table; db_Indexes : gmap string index; db_Version : Z }.
#[global] Instance eta_database : Settable database := fun d => Database (db_Tables d) (db_Indexes d) (db_Version d).

(** ** Constraints *)
Definition column_names (t : table) : list string := map c_Name (t_Columns t).
Definition has_column (t : table) (name : string) : bool := existsb (String.eqb name) (column_names t).
Definition column_accepts (v : value) (c : column) : bool :=
  match v with Null => negb (c_NotNull c) | _ => c_Check c v end.
Definition given (cols : list string) (r : row) : bool := forallb (fun c => negb (bool_decide (field c r = Null))) cols.
Definition same_on (cols cols' : list string) (r r' : row) : bool :=
  bool_decide (map (fun c => field c r) cols = map (fun c => field c r') cols').
(** Two rows that a unique list of columns forbids; NULL is like no value. *)
Definition clash (cols : list string) (r r' : row) : bool := given cols r && same_on cols cols r r'.
Definition indexes_of (d : database) (name : string) : list index :=
  filter (fun x => x_Unique x && String.eqb (x_Table x) name) (map snd (map_to_list (db_Indexes d))).
Definition unique_in (d : database) (name : string) (t : table) (r : row) (others : list row) : bool :=
  forallb (fun r' => negb (existsb (fun cols => clash cols r r') (t_Keys t)) &&
                     negb (existsb (fun x => x_Where x r && x_Where x r' && clash (x_Columns x) r r') (indexes_of d name))) others.
Definition resolved (d : database) (r : row) (f : reference) : bool :=
  negb (given (f_From f) r) ||
  match db_Tables d !! f_Table f with Some t => existsb (same_on (f_From f) (f_To f) r) (t_Rows t) | None => false end.
Definition row_valid (d : database) (t : table) (r : row) : bool :=
  forallb (fun c => column_accepts (field (c_Name c) r) c) (t_Columns t) && t_Check t r && forallb (resolved d r) (t_References t).
(** The rows whose references lead nowhere ([pragma_foreign_key_check]). *)
Definition violations (d : database) : nat :=
  length (filter (fun tr : table * row => negb (forallb (resolved d (snd tr)) (t_References (fst tr))) = true)
    (concat (map (fun nt : string * table => map (pair (snd nt)) (t_Rows (snd nt))) (map_to_list (db_Tables d))))).

(** ** Statements

    [None]: the statement fails, and changes nothing. *)
Definition sql : Type := database -> option database.
Definition put_table (name : string) (t : table) (d : database) : database := d <| db_Tables ::= <[name := t]> |>.

(** ALTER TABLE ... ADD COLUMN *)
Definition add_column (name : string) (c : column) : sql := fun d =>
  t ← db_Tables d !! name;
  if has_column t (c_Name c) || (c_NotNull c && bool_decide (c_Default c = Null)) ||
     (negb (bool_decide (t_Rows t = [])) && negb (column_accepts (c_Default c) c)) then None
  else Some (put_table name (t <| t_Columns ::= (fun l => l ++ [c]) |> <| t_Rows ::= map <[c_Name c := c_Default c]> |>) d).
(** ALTER TABLE ... RENAME TO: references and indexes follow. *)
Definition redirect (old new name : string) : string := if String.eqb name old then new else name.
Definition redirect_table (old new : string) (t : table) : table :=
  t <| t_References ::= map (fun f => Reference (f_From f) (redirect old new (f_Table f)) (f_To f)) |>.
Definition rename_table (old new : string) : sql := fun d =>
  t ← db_Tables d !! old;
  match db_Tables d !! new with
  | Some _ => None
  | None => Some (d <| db_Tables := redirect_table old new <$> <[new := t]> (delete old (db_Tables d)) |>
                    <| db_Indexes ::= fmap (fun x => x <| x_Table ::= redirect old new |>) |>)
  end.
(** CREATE TABLE *)
Definition create_table (if_not_exists : bool) (name : string) (t : table) : sql := fun d =>
  match db_Tables d !! name with
  | Some _ => if if_not_exists then Some d else None
  | None => Some (put_table name t d)
  end.
(** DROP TABLE: the rows that other tables refer to cannot go. *)
Definition referred (d : database) (name : string) : bool :=
  existsb (fun nt : string * table =>
      negb (String.eqb (fst nt) name) &&
      existsb (fun f => String.eqb (f_Table f) name && existsb (given (f_From f)) (t_Rows (snd nt))) (t_References (snd nt)))
    (map_to_list (db_Tables d)).
Definition drop_table (name : string) : sql := fun d =>
  match db_Tables d !! name with
  | None => None
  | Some _ =>
    if referred d name then None
    else Some (d <| db_Tables ::= delete name |>
                 <| db_Indexes ::= filter (fun kx : string * index => x_Table (snd kx) <> name) |>)
  end.
(** CREATE INDEX, DROP INDEX IF EXISTS *)
Fixpoint all_distinct (p : row -> bool) (cols : list string) (rows : list row) : bool :=
  match rows with
  | [] => true
  | r :: rest => forallb (fun r' => negb (p r && p r' && clash cols r r')) rest && all_distinct p cols rest
  end.
Definition create_index (if_not_exists : bool) (name : string) (x : index) : sql := fun d =>
  match db_Indexes d !! name with
  | Some _ => if if_not_exists then Some d else None
  | None =>
    t ← db_Tables d !! x_Table x;
    if forallb (has_column t) (x_Columns x) && (negb (x_Unique x) || all_distinct (x_Where x) (x_Columns x) (t_Rows t))
    then Some (d <| db_Indexes ::= <[name := x]> |>) else None
  end.
Definition drop_index (name : string) : sql := fun d => Some (d <| db_Indexes ::= delete name |>).

(** INSERT: what a row gives, the row identifier, the defaults. *)
Definition completed (t : table) (r : row) : row :=
  list_to_map (map (fun c =>
    (c_Name c, match r !! c_Name c with
               | Some v => v
               | None => if bool_decide (t_Rowid t = Some (c_Name c)) then Int (t_Sequence t + 1) else c_Default c
               end)) (t_Columns t)).
Definition rowid_of (t : table) (r : row) : Z :=
  match t_Rowid t with Some name => (match field name r with Int z => z | _ => 0 end) | None => 0 end.
Definition insert_row (name : string) (r : row) : sql := fun d =>
  t ← db_Tables d !! name;
  let r := completed t r in
  if row_valid d t r && unique_in d name t r (t_Rows t)
  then Some (put_table name (t <| t_Rows ::= (fun l => l ++ [r]) |> <| t_Sequence ::= Z.max (rowid_of t r) |>) d)
  else None.
Fixpoint insert_rows (name : string) (rows : list row) : sql := fun d =>
  match rows with [] => Some d | r :: rest => d' ← insert_row name r d; insert_rows name rest d' end.
(** INSERT OR IGNORE *)
Definition insert_or_ignore (name : string) (r : row) : sql := fun d =>
  match db_Tables d !! name with
  | None => None
  | Some _ => Some (default d (insert_row name r d))
  end.
(** INSERT ... SELECT: the rows that a query finds. *)
Definition insert_select (name : string) (query : database -> option (list row)) : sql := fun d =>
  rows ← query d; insert_rows name rows d.
(** SELECT of some columns of a table, under other names. *)
Definition pick (columns : list (string * string)) (r : row) : row :=
  list_to_map (map (fun '(new, old) => (new, field old r)) columns).
Definition select (columns : list (string * string)) (name : string) (d : database) : option (list row) :=
  t ← db_Tables d !! name;
  if forallb (has_column t) (map snd columns) then Some (map (pick columns) (t_Rows t)) else None.

(** UPDATE of the columns [cols], of every row. *)
Fixpoint rows_distinct (d : database) (name : string) (t : table) (rows : list row) : bool :=
  match rows with [] => true | r :: rest => unique_in d name t r rest && rows_distinct d name t rest end.
Definition update (name : string) (cols : list string) (f : row -> row) : sql := fun d =>
  t ← db_Tables d !! name;
  let rows := map f (t_Rows t) in
  if forallb (has_column t) cols && forallb (row_valid d t) rows && rows_distinct d name t rows
  then Some (put_table name (t <| t_Rows := rows |>) d) else None.
(** PRAGMA user_version *)
Definition set_version (v : Z) : sql := fun d => Some (d <| db_Version := v |>).
