(* ===== verification/Upgrade.v ===== *)
(** The opening of the catalogue and the migrations of its schema ([Open] of
    [src/internal/store/store.go]; [src/internal/store/migration_v5.go] to
    [migration_v12.go]). *)
From S2P Require Import Prelude GoTime GoString Model Catalog Io Files Cryptfile Private Front Tables.

(** ** Declarations of columns and tables *)
Definition anything (v : value) : bool := true.
Definition column_of (name : string) : column := Column name true Null anything.
Definition or_default (v : value) (c : column) : column := Column (c_Name c) (c_NotNull c) v (c_Check c).
Definition checked (p : value -> bool) (c : column) : column := Column (c_Name c) (c_NotNull c) (c_Default c) p.
Definition nullable (c : column) : column := Column (c_Name c) false (c_Default c) (c_Check c).
Definition text_default (name s : string) : column := or_default (Text s) (column_of name).
Definition int_default (name : string) (z : Z) : column := or_default (Int z) (column_of name).
Definition one_of (l : list string) (v : value) : bool := match v with Text s => existsb (String.eqb s) l | _ => false end.
Definition int_where (p : Z -> bool) (v : value) : bool := match v with Int z => p z | _ => false end.
Definition zero_or_one : value -> bool := int_where (fun z => (z =? 0) || (z =? 1)).
Definition text_length (low high : Z) (v : value) : bool := match v with Text s => (low <=? len s) && (len s <=? high) | _ => false end.
Definition ints_where (a b : string) (p : Z -> Z -> bool) (r : row) : bool :=
  match field a r, field b r with Int x, Int y => p x y | _, _ => true end.
Definition no_check (r : row) : bool := true.
Definition new_table (rowid : option string) (columns : list column) (keys : list (list string)) (refs : list reference) (check : row -> bool) : table :=
  Table columns rowid check keys refs [] 0.
Definition refers (column other key : string) : reference := Reference [column] other [key].
Definition plain_index (name : string) (columns : list string) : index := Index name columns false no_check.
Definition unique_index (name : string) (columns : list string) (p : row -> bool) : index := Index name columns true p.
Definition not_null (name : string) (r : row) : bool := negb (bool_decide (field name r = Null)).
Definition field_in (name : string) (l : list string) (r : row) : bool := one_of l (field name r).

(** ** Statements of a transaction *)
Record disk : Type := Disk { k_Db : database; k_Regular : option bool; k_Files : fs }.
#[global] Instance eta_disk : Settable disk := fun s => Disk (k_Db s) (k_Regular s) (k_Files s).
Definition sql_error : failure := OsError (EOTHER "errore SQLite").
Definition driver_result {A} (o : option A) : result failure A := match o with Some a => Ok a | None => Err sql_error end.

Section upgrade.
Context (fate_of : nat -> fate) (short : nat -> option Z).
Abbreviation io := (Io.io disk).
Abbreviation act := (Io.act alone fate_of).

(** A call on the database that leaves what is committed as it is. *)
Definition ask {A} (o : option A) : io (result failure A) := act (fun s => (driver_result o, s)).
Fixpoint exec_all (l : list sql) (d : database) : io (result failure database) :=
  match l with [] => mret (Ok d) | st :: rest => d' ←? ask (st d); exec_all rest d' end.
(** [Begin], the statements, [Commit]; an error rolls back. *)
Definition transaction (body : database -> io (result failure database)) : io (result failure unit) :=
  d ←? act (fun s => (Ok (k_Db s), s));
  d' ←? body d;
  act (fun s => (Ok tt, s <| k_Db := d' |>)).
(** A statement by itself. *)
Definition exec_alone (st : sql) : io (result failure unit) := act (fun s =>
  match st (k_Db s) with Some d => (Ok tt, s <| k_Db := d |>) | None => (Err sql_error, s) end).
(** A query by itself. *)
Definition look {A} (f : database -> option A) : io (result failure A) := act (fun s => (driver_result (f (k_Db s)), s)).
(** [pragma_table_info]: the columns of a table, none if it is not there. *)
Definition columns_of (name : string) (d : database) : list string :=
  match db_Tables d !! name with Some t => column_names t | None => [] end.
Definition has (name : string) (l : list string) : bool := existsb (String.eqb name) l.

(** *** Versions 2 to 4 *)
Definition content_format : column := checked (one_of [""; "age-v1"]%string) (text_default "content_format" "").
Definition idempotency_key : column := checked (text_length 16 128) (nullable (column_of "idempotency_key")).
Definition idempotency_index : index := unique_index "backups" ["key_id"; "idempotency_key"]%string (not_null "idempotency_key").
Definition upload_attempts : table := new_table (Some "id"%string)
  [nullable (column_of "id"); column_of "key_id"; column_of "backup_id"; column_of "attempted_at"] [["id"%string]]
  [refers "key_id" "keys" "id"; refers "backup_id" "backups" "id"] no_check.
Definition attempts_index : index := plain_index "upload_attempts" ["key_id"; "attempted_at"]%string.
Definition to_v2 : list sql := [ add_column "backups" content_format; set_version 2 ].
Definition to_v3 : list sql := [ add_column "backups" idempotency_key; create_index false "backups_key_idempotency" idempotency_index; set_version 3 ].
Definition to_v4 : list sql :=
  [ create_table false "upload_attempts" upload_attempts; create_index false "upload_attempts_key_time" attempts_index;
    insert_select "upload_attempts" (select [("key_id", "key_id"); ("backup_id", "id"); ("attempted_at", "started_at")]%string "backups");
    set_version 4 ].

(** *** Version 5: [migrateV4ToV5] *)
Definition backups : table := new_table None
  [nullable (column_of "id"); column_of "key_id"; column_of "description"; column_of "original_name";
   checked (int_where (fun z => 0 <? z)) (column_of "size_bytes"); column_of "sha256";
   checked (one_of ["receiving"; "complete"; "failed"; "deleting"; "quarantined"; "purging"; "deleted"]%string) (column_of "status");
   column_of "started_at"; text_default "received_at" ""; text_default "failure" ""; content_format; idempotency_key;
   int_default "quarantined_at" 0; int_default "purge_not_before" 0; int_default "purged_at" 0]
  [["id"%string]] [refers "key_id" "keys" "id"] no_check.
Definition backup_columns : list string :=
  ["id"; "key_id"; "description"; "original_name"; "size_bytes"; "sha256"; "status"; "started_at"; "received_at"; "failure";
   "content_format"; "idempotency_key"]%string.
Definition attempt_columns : list string := ["id"; "key_id"; "backup_id"; "attempted_at"]%string.
Definition same_names (l : list string) : list (string * string) := map (fun c => (c, c)) l.
Definition automation_state : table := new_table (Some "id"%string)
  [checked (int_where (fun z => z =? 1)) (nullable (column_of "id")); int_default "enabled" 0; int_default "mail_tested" 0;
   text_default "monitoring_state" "APPRENDIMENTO"; int_default "deletion_blocked" 1; text_default "block_reason" "automazione non configurata";
   text_default "timezone" ""; checked (int_where (fun z => 7 <=? z)) (int_default "retention_days" 7);
   checked (int_where (fun z => (1 <=? z) && (z <=? 10000))) (int_default "threshold_basis_points" 8000);
   checked (int_where (fun z => 0 <=? z)) (int_default "reserve_free" 0); int_default "model_revision" 0; int_default "last_check_at" 0;
   int_default "next_report_at" 0; text_default "smtp_host" ""; int_default "smtp_port" 0; int_default "smtp_tls" 1;
   text_default "mail_from" ""; text_default "mail_to" ""] [["id"%string]] [] no_check.
Definition only_row : row := {["id"%string := Int 1]}.
Definition monitoring_models : table := new_table None
  [column_of "key_id"; column_of "revision"; column_of "learned_at"; column_of "timezone";
   checked (int_where (fun z => 7 <=? z)) (column_of "retention_days"); column_of "model_json"; int_default "reliable" 0; int_default "review_required" 0]
  [["key_id"; "revision"]%string] [refers "key_id" "keys" "id"] no_check.
Definition anomalies : table := new_table (Some "id"%string)
  [nullable (column_of "id"); column_of "stable_key"; column_of "kind"; text_default "key_id" ""; text_default "backup_id" ""; column_of "detail";
   column_of "opened_at"; column_of "last_seen_at"; int_default "resolved_at" 0; int_default "acknowledged_at" 0] [["id"%string]] [] no_check.
Definition active_state : row -> bool := field_in "state" ["requested"; "authorized"]%string.
Definition retention_operations : table := new_table (Some "id"%string)
  [nullable (column_of "id"); column_of "backup_id"; checked (one_of ["quarantine"; "purge"; "recover"; "cancel"]%string) (column_of "kind");
   checked (one_of ["requested"; "authorized"; "confirmed"; "failed"; "cancelled"]%string) (column_of "state");
   checked (one_of ["manual"; "automatic"; "reconcile"]%string) (column_of "origin"); column_of "actor"; column_of "reason";
   text_default "ticket_hash" ""; column_of "revision"; column_of "requested_at"; int_default "authorized_at" 0; int_default "completed_at" 0;
   text_default "error" ""] [["id"%string]] [refers "backup_id" "backups" "id"] no_check.
Definition mail_queue : table := new_table (Some "id"%string)
  [nullable (column_of "id"); column_of "stable_id"; column_of "kind"; column_of "subject"; column_of "body"; column_of "created_at"; int_default "attempts" 0;
   column_of "next_attempt_at"; int_default "claimed_at" 0; int_default "sent_at" 0; text_default "last_error" ""] [["id"]; ["stable_id"]]%string [] no_check.
Definition maintenance_leases : table := new_table (Some "id"%string)
  [checked (int_where (fun z => z =? 1)) (nullable (column_of "id")); text_default "owner" ""; int_default "expires_at" 0] [["id"%string]] [] no_check.
Definition to_v5 : list sql :=
  [ rename_table "upload_attempts" "upload_attempts_v4";
    rename_table "backups" "backups_v4";
    create_table false "backups" backups;
    insert_select "backups" (select (same_names backup_columns) "backups_v4");
    create_table false "upload_attempts" upload_attempts;
    insert_select "upload_attempts" (select (same_names attempt_columns) "upload_attempts_v4");
    drop_table "upload_attempts_v4";
    drop_table "backups_v4";
    create_index false "backups_key_state" (plain_index "backups" ["key_id"; "status"]%string);
    create_index false "backups_key_time" (plain_index "backups" ["key_id"; "started_at"]%string);
    create_index false "backups_key_idempotency" idempotency_index;
    create_index false "upload_attempts_key_time" attempts_index;
    create_table true "automation_state" automation_state;
    insert_or_ignore "automation_state" only_row;
    create_table true "monitoring_models" monitoring_models;
    create_table true "anomalies" anomalies;
    create_index true "anomalies_active_key" (unique_index "anomalies" ["stable_key"%string] (fun r => bool_decide (field "resolved_at" r = Int 0)));
    create_index true "anomalies_active" (plain_index "anomalies" ["resolved_at"; "last_seen_at"]%string);
    create_table true "retention_operations" retention_operations;
    create_index true "retention_operations_backup" (plain_index "retention_operations" ["backup_id"; "id"]%string);
    create_index true "retention_operations_active" (unique_index "retention_operations" ["backup_id"; "kind"]%string active_state);
    create_table true "mail_queue" mail_queue;
    create_table true "maintenance_leases" maintenance_leases;
    insert_or_ignore "maintenance_leases" only_row;
    set_version 5 ].

(** The copy beside the catalogue.  [image]: the bytes of the database file; [exposed]:
    a file whose permissions are not of its owner only. *)
Context (image : database -> string) (exposed : string -> bool).
Definition unsafe_copy (path : string) : failure := Failed (ErrText ("copia a freddo preesistente non sicura: " ++ path)).
Definition coldCopy (data destination : string) : Io.io fs (result failure unit) :=
  info ← Io.act alone fate_of (Files.lstat destination);
  match info with
  | Ok (_, e) => mret (if negb (is_regular e) || exposed destination then Err (unsafe_copy destination) else Ok tt)
  | Err (OsError ENOENT) =>
    _ ←? Io.act alone fate_of unseen;                           (* os.Open(source) *)
    fd ←? Io.act alone fate_of (create_exclusive (temporary destination));
    r ← (_ ←? fill fate_of short fd data;
         _ ←? Io.act alone fate_of (rename_path (temporary destination) destination);
         _ ←? Io.act alone fate_of unseen; Io.act alone fate_of unseen);
    match r with
    | Ok _ => mret (Ok tt)
    | Err e => _ ← Io.act alone fate_of (remove_path (temporary destination)); mret (Err e)
    end
  | Err e => mret (Err e)
  end.
Definition on_disk_files {A} : Io.io fs A -> Io.io disk A := lift_io k_Files (fun f s => s <| k_Files := f |>).
Definition committed : io database := fun '(n, s) => (Some (k_Db s), (n, s)).
Definition migrateV4ToV5 (backupPath : string) : io (result failure unit) :=
  _ ←? look (fun d => Some tt);                                  (* wal_checkpoint *)
  d ← committed;
  _ ←? on_disk_files (coldCopy (image d) backupPath);
  names ←? look (fun d => Some (columns_of "backups" d));
  if has "quarantined_at" names then exec_alone (set_version 5)
  else
    _ ←? transaction (exec_all to_v5);
    _ ←? look (fun d => Some tt);                                (* integrity_check *)
    look (fun d => if Nat.eqb (violations d) 0 then Some tt else None).

(** *** Versions 6 to 12 *)
Definition set_field (name : string) (v : value) (r : row) : row := <[name := v]> r.
Definition event_of_opening (r : row) : row := if bool_decide (field "event_at" r = Int 0) then set_field "event_at" (field "opened_at" r) r else r.
Definition anomaly_exclusions : table := new_table (Some "id"%string)
  [nullable (column_of "id"); column_of "source_anomaly_id"; column_of "key_id"; column_of "starts_at"; column_of "ends_at"; column_of "actor";
   column_of "reason"; column_of "created_at"] [["id"]; ["source_anomaly_id"]]%string
  [refers "source_anomaly_id" "anomalies" "id"; refers "key_id" "keys" "id"]
  (ints_where "starts_at" "ends_at" (fun x y => (x <=? y) && (y - x <=? 604800))).
Definition anomaly_exclusion_kinds : table := new_table None
  [column_of "exclusion_id"; checked (one_of ["upload"; "time"; "schedule_missing"; "extra"]%string) (column_of "kind")] [["exclusion_id"; "kind"]%string]
  [refers "exclusion_id" "anomaly_exclusions" "id"] no_check.
Definition to_v6 (names : list string) : list sql :=
  (if has "resolved_by" names then [] else [add_column "anomalies" (text_default "resolved_by" "")]) ++
  (if has "resolution_note" names then [] else [add_column "anomalies" (text_default "resolution_note" "")]) ++
  (if has "event_at" names then [] else [add_column "anomalies" (int_default "event_at" 0); update "anomalies" ["event_at"; "opened_at"]%string event_of_opening]) ++
  [ drop_index "retention_operations_active";
    create_index false "retention_operations_active" (unique_index "retention_operations" ["backup_id"%string] active_state);
    create_table true "anomaly_exclusions" anomaly_exclusions;
    create_table true "anomaly_exclusion_kinds" anomaly_exclusion_kinds;
    set_version 6 ].
Definition migrateV5ToV6 : io (result failure unit) :=
  names ←? look (fun d => Some (columns_of "anomalies" d));
  transaction (exec_all (to_v6 names)).
Definition check_period (r : row) : bool :=
  ints_where "period_from" "period_to" Z.leb r &&
  eqb (bool_decide (field "status" r = Text "running")) (bool_decide (field "finished_at" r = Null)).
Definition monitoring_checks : table := new_table (Some "id"%string)
  [nullable (column_of "id"); column_of "started_at"; nullable (column_of "finished_at"); column_of "period_from"; column_of "period_to";
   checked (one_of ["running"; "completed_clean"; "completed_with_anomalies"; "failed"]%string) (column_of "status"); text_default "summary" ""]
  [["id"%string]] [] check_period.
Definition monitoring_check_models : table := new_table None
  [column_of "check_id"; column_of "key_id"; column_of "revision"; column_of "covered_from"; column_of "covered_to"]
  [["check_id"; "key_id"; "revision"]%string]
  [refers "check_id" "monitoring_checks" "id"; Reference ["key_id"; "revision"]%string "monitoring_models" ["key_id"; "revision"]%string]
  (ints_where "covered_from" "covered_to" Z.leb).
Definition to_v7 : list sql :=
  [ create_table false "monitoring_checks" monitoring_checks;
    create_index false "monitoring_checks_started" (plain_index "monitoring_checks" ["started_at"%string]);
    create_table false "monitoring_check_models" monitoring_check_models;
    create_index false "monitoring_check_models_resume" (plain_index "monitoring_check_models" ["key_id"; "revision"; "covered_to"]%string);
    set_version 7 ].
Definition migrateV6ToV7 : io (result failure unit) := transaction (exec_all to_v7).
(** A column unless it is there. *)
Definition ensure_column (name : string) (c : column) (d : database) : io (result failure database) :=
  names ←? ask (Some (columns_of name d));
  if has (c_Name c) names then mret (Ok d) else ask (add_column name c d).
Definition generation_column (name : string) : column := checked (int_where (fun z => 0 <=? z)) (int_default name 0).
Definition forget_lease (r : row) : row := set_field "owner" (Text "") (set_field "expires_at" (Int 0) (set_field "generation" (Int 0) r)).
Definition to_v8 : list sql := [ update "maintenance_leases" ["owner"; "expires_at"; "generation"]%string forget_lease; set_version 8 ].
Definition migrateV7ToV8 : io (result failure unit) := transaction (fun d =>
  d ←? ensure_column "maintenance_leases" (generation_column "generation") d;
  d ←? ensure_column "retention_operations" (generation_column "lease_generation") d;
  exec_all to_v8 d).
Definition flag_column (name : string) : column := checked zero_or_one (int_default name 0).
Definition migrateV8ToV9 : io (result failure unit) := transaction (fun d =>
  d ←? ensure_column "retention_operations" (flag_column "execution_committed") d;
  exec_all [set_version 9] d).
Definition hold_kept (r : row) : row :=
  set_field "manual_paused" (field "deletion_blocked" r) (set_field "manual_pause_reason"
    (if bool_decide (field "deletion_blocked" r = Int 1)
     then match field "block_reason" r with Text s => Text ("blocco precedente alla migrazione: " ++ s) | v => v end else Text "") r).
Definition key_retention : table := new_table None [nullable (column_of "key_id"); checked (int_where (fun z => 7 <=? z)) (column_of "days")]
  [["key_id"%string]] [refers "key_id" "keys" "id"] no_check.
(** The keys, each with the minimum of the archive. *)
Definition key_minima (d : database) : option (list row) :=
  keys ← select [("key_id", "id")]%string "keys" d;
  states ← db_Tables d !! "automation_state"%string;
  if has_column states "retention_days" && has_column states "id" then
    let days := match filter (fun r => field "id" r = Int 1) (t_Rows states) with r :: _ => field "retention_days" r | [] => Null end in
    Some (map <["days"%string := days]> keys)
  else None.
Definition to_v10 : list sql :=
  [ add_column "automation_state" (flag_column "manual_paused");
    add_column "automation_state" (text_default "manual_pause_reason" "");
    update "automation_state" ["manual_paused"; "deletion_blocked"; "manual_pause_reason"; "block_reason"]%string hold_kept;
    create_table false "key_retention" key_retention;
    insert_select "key_retention" key_minima;
    set_version 10 ].
Definition migrateV9ToV10 : io (result failure unit) := transaction (exec_all to_v10).
Definition to_v11 : list sql :=
  [ add_column "automation_state" (flag_column "activation_pending");
    add_column "automation_state" (flag_column "activation_required");
    add_column "automation_state" (flag_column "resume_pending");
    add_column "automation_state" (int_default "resume_requested_at" 0);
    set_version 11 ].
Definition migrateV10ToV11 : io (result failure unit) := transaction (exec_all to_v11).
Definition to_v12 : list sql :=
  [ add_column "automation_state" (checked (int_where (fun z => 1 <=? z)) (int_default "mail_config_version" 1)); set_version 12 ].
Definition migrateV11ToV12 : io (result failure unit) := transaction (exec_all to_v12).

(** *** Opening *)
(** One migration, when the version is the one it starts from. *)
Definition migration_from (from : Z) (readonly : bool) (m : io (result failure unit)) (version : Z) : io (result failure Z) :=
  if (version =? from) && negb readonly then _ ←? m; mret (Ok (from + 1)) else mret (Ok version).
Definition Open (path : string) (readonly : bool) : io (result failure Z) :=
  _ ←? look (fun d => Some tt);                                  (* filepath.Abs *)
  regular ←? act (fun s => (match k_Regular s with Some b => Ok b | None => Err (OsError ENOENT) end, s));
  if negb regular then mret (Err (Failed (ErrText "il database deve essere un file regolare")))
  else
    _ ←? look (fun d => Some tt);                                (* sql.Open *)
    _ ←? look (fun d => Some tt);                                (* Ping *)
    v ←? look (fun d => Some (db_Version d));
    v ←? migration_from 1 readonly (transaction (exec_all to_v2)) v;
    v ←? migration_from 2 readonly (transaction (exec_all to_v3)) v;
    v ←? migration_from 3 readonly (transaction (exec_all to_v4)) v;
    v ←? migration_from 4 readonly (migrateV4ToV5 (path ++ ".v4.cold-copy")) v;
    v ←? migration_from 5 readonly migrateV5ToV6 v;
    v ←? migration_from 6 readonly migrateV6ToV7 v;
    v ←? migration_from 7 readonly migrateV7ToV8 v;
    v ←? migration_from 8 readonly migrateV8ToV9 v;
    v ←? migration_from 9 readonly migrateV9ToV10 v;
    v ←? migration_from 10 readonly migrateV10ToV11 v;
    v ←? migration_from 11 readonly migrateV11ToV12 v;
    mret (if (v <? 1) || (12 <? v) then Err (Failed (ErrText "schema database non supportato; eseguire init per un nuovo archivio")) else Ok v).
End upgrade.
