(* ===== verification/Upgrading.v ===== *)
(** The migrations of the schema lose no row and release nothing that an archive held
    ([src/internal/store/migration_v5.go] to [migration_v12.go]). *)
From S2P Require Import Prelude GoTime GoString Model Catalog Io Writer Files Cryptfile Encryption Private Front Sending Tables Upgrade.

(** ** What becomes of a row

    It keeps every column.  What is added to it releases nothing: an operation has not
    begun, the hold of before is a pause of the administrator, no activation and no
    resumption is due. *)
Definition added_zero (c : string) (r r' : row) : Prop := r !! c = None -> r' !! c = None \/ r' !! c = Some (Int 0).
Definition added_hold (r r' : row) : Prop :=
  r !! "manual_paused"%string = None -> r' !! "manual_paused"%string = None \/ r' !! "manual_paused"%string = r' !! "deletion_blocked"%string.
Definition zero_columns (name : string) : list string :=
  if String.eqb name "retention_operations" then ["execution_committed"%string]
  else if String.eqb name "automation_state" then ["activation_pending"; "resume_pending"]%string else [].
Definition carried (name : string) (r r' : row) : Prop :=
  r ⊆ r' /\ Forall (fun c => added_zero c r r') (zero_columns name) /\ (name = "automation_state"%string -> added_hold r r').
Definition kept_rows (name : string) (l l' : list row) : Prop := exists kept added, l' = kept ++ added /\ Forall2 (carried name) l kept.
(** The tables and their rows; the lease, which a stopped process left, is forgotten. *)
Definition preserved (d d' : database) : Prop := forall name t, db_Tables d !! name = Some t -> name <> "maintenance_leases"%string ->
  exists t', db_Tables d' !! name = Some t' /\ kept_rows name (t_Rows t) (t_Rows t').

Lemma carried_refl name r : carried name r r.
Proof.
  split; [done|]. split; [|by left]. apply Forall_forall. by left.
Qed.
Lemma included_some (r r' : row) c v : r ⊆ r' -> r !! c = Some v -> r' !! c = Some v.
Proof. intros H E. by apply (lookup_weaken r r'). Qed.
Lemma added_zero_trans c r r1 r2 : r1 ⊆ r2 -> added_zero c r r1 -> added_zero c r1 r2 -> added_zero c r r2.
Proof.
  intros Hs H1 H2 Hr. destruct (H1 Hr) as [E|E]; [by apply H2|]. right. by apply (included_some r1).
Qed.
Lemma added_hold_trans r r1 r2 : r1 ⊆ r2 -> added_hold r r1 -> added_hold r1 r2 -> added_hold r r2.
Proof.
  intros Hs H1 H2 Hr. destruct (r1 !! "manual_paused"%string) as [v|] eqn:E; [|by apply H2].
  right. destruct (H1 Hr) as [E1|E1]; [by rewrite E in E1|]. rewrite E in E1. symmetry in E1.
  by rewrite (included_some _ _ _ _ Hs E), (included_some _ _ _ _ Hs E1).
Qed.
Lemma carried_trans name r r1 r2 : carried name r r1 -> carried name r1 r2 -> carried name r r2.
Proof.
  intros (S1 & Z1 & H1) (S2 & Z2 & H2). split; [by transitivity r1|]. split.
  - rewrite Forall_forall in *. intros c Hc. by apply (added_zero_trans c r r1); auto.
  - intros Hn. apply (added_hold_trans r r1); auto.
Qed.
Lemma kept_rows_refl name l : kept_rows name l l.
Proof. exists l, []. split; [by rewrite app_nil_r|]. apply Forall2_same_length_lookup_2; [done|]. intros i x y Hx Hy. rewrite Hx in Hy. injection Hy as ->. apply carried_refl. Qed.
Lemma kept_rows_trans name l l1 l2 : kept_rows name l l1 -> kept_rows name l1 l2 -> kept_rows name l l2.
Proof.
  intros (k1 & a1 & -> & H1) (k2 & a2 & -> & H2). apply Forall2_app_inv_l in H2 as (x & y & Hx & Hy & ->).
  exists x, (y ++ a2). split; [by rewrite app_assoc|]. revert x Hx. induction H1 as [|r r1 l k1 Hr _ IH]; intros x Hx.
  - inversion Hx. constructor.
  - apply Forall2_cons_inv_l in Hx as (r2 & x' & Hr2 & Hx & ->). constructor; [by apply (carried_trans name r r1)|by apply IH].
Qed.
Lemma preserved_refl d : preserved d d.
Proof. intros name t Ht _. exists t. split; [done|apply kept_rows_refl]. Qed.
Lemma preserved_trans d d1 d2 : preserved d d1 -> preserved d1 d2 -> preserved d d2.
Proof.
  intros H1 H2 name t Ht Hn. destruct (H1 name t Ht Hn) as (t1 & Ht1 & K1). destruct (H2 name t1 Ht1 Hn) as (t2 & Ht2 & K2).
  exists t2. split; [done|]. by apply (kept_rows_trans name (t_Rows t) (t_Rows t1)).
Qed.
(** One table changes. *)
Lemma preserved_put name t' d : (forall t, db_Tables d !! name = Some t -> name <> "maintenance_leases"%string -> kept_rows name (t_Rows t) (t_Rows t')) ->
  preserved d (put_table name t' d).
Proof.
  intros Hr name' t Ht Hn. unfold put_table. cbn. destruct (decide (name = name')) as [<-|Hne].
  - rewrite lookup_insert_eq. exists t'. split; [done|by apply Hr].
  - rewrite lookup_insert_ne by done. exists t. split; [done|apply kept_rows_refl].
Qed.
Lemma kept_map name f l : (forall r, In r l -> carried name r (f r)) -> kept_rows name l (map f l).
Proof.
  intros Hf. exists (map f l), []. split; [by rewrite app_nil_r|]. induction l as [|r l IH]; [constructor|]. constructor; [apply Hf; by left|apply IH; intros x Hx; apply Hf; by right].
Qed.
Lemma kept_append name l added : kept_rows name l (l ++ added).
Proof. destruct (kept_rows_refl name l) as (k & a & E & H). exists k, (a ++ added). split; [by rewrite app_assoc, <- E|done]. Qed.

(** ** Tables whose rows have their columns only *)
Definition in_columns (t : table) (r : row) : Prop := forall c, is_Some (r !! c) -> In c (column_names t).
Definition tidy (d : database) : Prop := forall name t r, db_Tables d !! name = Some t -> In r (t_Rows t) -> in_columns t r.
Lemma tidy_put name t d : (forall r, In r (t_Rows t) -> in_columns t r) -> tidy d -> tidy (put_table name t d).
Proof.
  intros Ht Hd name' t' r. unfold put_table. cbn. destruct (decide (name = name')) as [<-|Hne].
  - rewrite lookup_insert_eq. intros [= <-]. by apply Ht.
  - rewrite lookup_insert_ne by done. by apply Hd.
Qed.
Lemma has_column_in t c : has_column t c = true <-> In c (column_names t).
Proof.
  unfold has_column. rewrite existsb_exists. split; [intros (x & Hx & ->%String.eqb_eq); done|]. intros Hc. exists c. by rewrite String.eqb_refl.
Qed.

(** ** Statements that keep what there is *)
Definition mild (st : sql) : Prop := forall d d', tidy d -> st d = Some d' -> preserved d d' /\ tidy d'.
Lemma mild_id st : (forall d d', st d = Some d' -> db_Tables d' = db_Tables d) -> mild st.
Proof.
  intros Hst d d' Hd E. pose proof (Hst d d' E) as Et. unfold preserved, tidy. rewrite Et. split; [|exact Hd]. apply (preserved_refl d).
Qed.
Lemma mild_version v : mild (set_version v).
Proof. apply mild_id. by intros d d' [= <-]. Qed.
Lemma mild_drop_index name : mild (drop_index name).
Proof. apply mild_id. by intros d d' [= <-]. Qed.
Lemma mild_index b name x : mild (create_index b name x).
Proof.
  apply mild_id. intros d d' E. unfold create_index in E. destruct (db_Indexes d !! name); [destruct b; by simplify_eq|].
  destruct (db_Tables d !! x_Table x) as [t|]; [|done]. cbn in E. destruct (_ && _); by simplify_eq.
Qed.
Lemma mild_create b name t : t_Rows t = [] -> mild (create_table b name t).
Proof.
  intros Ht d d' Hd E. unfold create_table in E. destruct (db_Tables d !! name) eqn:En; [destruct b; simplify_eq; split; [apply preserved_refl|done]|]. injection E as <-.
  split; [apply preserved_put; congruence|]. apply tidy_put; [by rewrite Ht|done].
Qed.
(** A new column is not among those of a row. *)
Lemma add_column_inv name c d d' : add_column name c d = Some d' -> exists t, db_Tables d !! name = Some t /\ has_column t (c_Name c) = false /\
  d' = put_table name (t <| t_Columns ::= (fun l => l ++ [c]) |> <| t_Rows ::= map <[c_Name c := c_Default c]> |>) d.
Proof.
  unfold add_column. destruct (db_Tables d !! name) as [t|]; [|done]. cbn. destruct (has_column t (c_Name c)) eqn:Ec; [done|]. cbn.
  destruct (_ || _); [done|]. intros [= <-]. by exists t.
Qed.
Lemma column_absent t r c : in_columns t r -> has_column t c = false -> r !! c = None.
Proof.
  intros Ht Hc. destruct (r !! c) as [v|] eqn:E; [|done]. assert (has_column t c = true) as E1; [|congruence]. apply has_column_in, Ht. by exists v.
Qed.
Lemma columns_grown t c : column_names (t <| t_Columns ::= (fun l => l ++ [c]) |> <| t_Rows ::= map <[c_Name c := c_Default c]> |>) = column_names t ++ [c_Name c].
Proof. unfold column_names. cbn. by rewrite map_app. Qed.
Lemma tidy_add t c r : in_columns t r -> in_columns (t <| t_Columns ::= (fun l => l ++ [c]) |> <| t_Rows ::= map <[c_Name c := c_Default c]> |>) (<[c_Name c := c_Default c]> r).
Proof.
  intros Hr x Hx. rewrite columns_grown. apply in_app_iff. destruct (decide (c_Name c = x)) as [<-|Hne]; [right; by left|left]. rewrite lookup_insert_ne in Hx by done. by apply Hr.
Qed.
Lemma add_column_tidy name c d d' : tidy d -> add_column name c d = Some d' -> tidy d'.
Proof.
  intros Hd (t & Ht & _ & ->)%add_column_inv. apply tidy_put; [|done]. intros r Hr. change (t_Rows _) with (map <[c_Name c := c_Default c]> (t_Rows t)) in Hr.
  apply in_map_iff in Hr as (r0 & <- & Hr0). apply tidy_add. by apply (Hd name t).
Qed.
Definition harmless (name : string) (c : column) : Prop :=
  (In (c_Name c) (zero_columns name) -> c_Default c = Int 0) /\ (name = "automation_state"%string -> c_Name c <> "manual_paused"%string).
Lemma added_carried name c r : harmless name c -> r !! c_Name c = None -> carried name r (<[c_Name c := c_Default c]> r).
Proof.
  intros [Hz Hh] Hr. split; [by apply insert_subseteq|]. split.
  - apply Forall_forall. intros x Hx%list_elem_of_In Hn. destruct (decide (c_Name c = x)) as [<-|Hne]; [right; rewrite lookup_insert_eq; by rewrite Hz|left; by rewrite lookup_insert_ne].
  - intros Hn Hx. left. rewrite lookup_insert_ne; [done|by apply Hh].
Qed.
Lemma mild_add name c : harmless name c -> mild (add_column name c).
Proof.
  intros Hc d d' Hd E. split; [|by apply (add_column_tidy name c d)]. apply add_column_inv in E as (t & Ht & Hf & ->). apply preserved_put. intros t0 Ht0 _.
  rewrite Ht in Ht0. injection Ht0 as <-. apply kept_map. intros r Hr. apply added_carried; [done|]. apply (column_absent t); [by apply (Hd name t)|done].
Qed.

(** *** Insertions *)
Lemma completed_lookup t r c v : In c (column_names t) -> r !! c = Some v -> completed t r !! c = Some v.
Proof.
  unfold completed, column_names. induction (t_Columns t) as [|x l IH]; cbn; [done|]. intros Hc Hr. destruct (decide (c_Name x = c)) as [<-|Hne].
  - by rewrite lookup_insert_eq, Hr.
  - rewrite lookup_insert_ne by done. apply IH; [by destruct Hc|done].
Qed.
Lemma completed_columns t r : in_columns t (completed t r).
Proof.
  intros c [v Hv]. unfold completed in Hv. apply elem_of_list_to_map_2, list_elem_of_In, in_map_iff in Hv as (x & E & Hx). injection E as <- _. by apply in_map.
Qed.
(** What a row gives is what the new row has. *)
Definition gives (t : table) (r r' : row) : Prop := forall c v, In c (column_names t) -> r !! c = Some v -> r' !! c = Some v.
Lemma insert_rows_inv name rows : forall d d' t, db_Tables d !! name = Some t -> insert_rows name rows d = Some d' ->
  exists t', d' = put_table name t' d /\ t_Columns t' = t_Columns t /\ t_References t' = t_References t /\
    exists added, t_Rows t' = t_Rows t ++ added /\ Forall2 (gives t) rows added /\ Forall (in_columns t) added.
Proof.
  induction rows as [|r rows IH]; intros d d' t Ht E; cbn in E.
  - injection E as <-. exists t. split; [destruct d as [T x v]; cbn in *; unfold put_table; cbn; f_equal; by rewrite insert_id|]. do 2 (split; [done|]).
    exists []. split; [by rewrite app_nil_r|]. split; constructor.
  - unfold insert_row at 1 in E. rewrite Ht in E. cbn in E. destruct (_ && _) in E; [|done]. cbn in E.
    match type of E with insert_rows _ _ (put_table _ ?x d) = _ => set (t1 := x) in E end. destruct (IH (put_table name t1 d) d' t1) as (t' & -> & Hc & Hf & added & Hr & Hg & Hi); [|exact E|].
    { unfold put_table. cbn. by rewrite lookup_insert_eq. }
    exists t'. split; [destruct d as [T x v]; unfold put_table; cbn; f_equal; apply insert_insert_eq|]. split; [done|]. split; [done|].
    exists (completed t r :: added). split; [rewrite Hr; change (t_Rows t1) with (t_Rows t ++ [completed t r]); by rewrite <- app_assoc|].
    split; [constructor; [intros c v; apply completed_lookup|exact Hg]|constructor; [apply completed_columns|exact Hi]].
Qed.
Lemma insert_rows_table name rows d d' : insert_rows name rows d = Some d' -> rows = [] \/ is_Some (db_Tables d !! name).
Proof. destruct rows as [|r rows]; [by left|]. cbn. unfold insert_row. destruct (db_Tables d !! name); [by right; eexists|done]. Qed.
Lemma mild_insert_rows name rows : mild (insert_rows name rows).
Proof.
  intros d d' Hd E. destruct (insert_rows_table name rows d d' E) as [->|[t Ht]]; [injection E as <-; split; [apply preserved_refl|done]|].
  destruct (insert_rows_inv name rows d d' t Ht E) as (t' & -> & Hc & _ & added & Hr & _ & Hi). split.
  - apply preserved_put. intros t0 Ht0 _. rewrite Ht in Ht0. injection Ht0 as <-. rewrite Hr. apply kept_append.
  - apply tidy_put; [|done]. intros r. rewrite Hr, in_app_iff. unfold in_columns, column_names in *. rewrite Hc. intros [Hr0|Hr0]; [by apply (Hd name t)|].
    rewrite Forall_forall in Hi. apply Hi. by apply list_elem_of_In.
Qed.
Lemma mild_select name query : mild (insert_select name query).
Proof. intros d d' Hd E. unfold insert_select in E. destruct (query d) as [rows|]; [|done]. by apply (mild_insert_rows name rows). Qed.
Lemma mild_insert_ignore name r : mild (insert_or_ignore name r).
Proof.
  intros d d' Hd E. unfold insert_or_ignore in E. destruct (db_Tables d !! name); [|done]. injection E as <-.
  destruct (insert_row name r d) as [d1|] eqn:E1; cbn; [|split; [apply preserved_refl|done]].
  apply (mild_insert_rows name [r]); [done|]. cbn. by rewrite E1.
Qed.
(** *** Updates *)
Lemma update_inv name cols f d d' : update name cols f d = Some d' -> exists t, db_Tables d !! name = Some t /\
  forallb (has_column t) cols = true /\ forallb (row_valid d t) (map f (t_Rows t)) = true /\ d' = put_table name (t <| t_Rows := map f (t_Rows t) |>) d.
Proof.
  unfold update. destruct (db_Tables d !! name) as [t|]; [|done]. cbn. destruct (forallb (has_column t) cols && forallb (row_valid d t) (map f (t_Rows t))) eqn:Ec; [|done]. apply andb_true_iff in Ec as [Ec Ev].
  destruct (rows_distinct _ _ _ _); [|done]. intros [= <-]. by exists t.
Qed.
(** [f] gives values to the columns [cols] only. *)
Definition sets_only (cols : list string) (f : row -> row) : Prop := forall r c, is_Some (f r !! c) -> is_Some (r !! c) \/ In c cols.
Lemma update_tidy name cols f d d' : sets_only cols f -> tidy d -> update name cols f d = Some d' -> tidy d'.
Proof.
  intros Hf Hd (t & Ht & Hc & _ & ->)%update_inv. apply tidy_put; [|done]. intros r Hr. change (t_Rows _) with (map f (t_Rows t)) in Hr.
  apply in_map_iff in Hr as (r0 & <- & Hr0). intros c Hx. change (column_names _) with (column_names t). destruct (Hf r0 c Hx) as [H|H]; [by apply (Hd name t r0)|].
  rewrite forallb_forall in Hc. by apply has_column_in, Hc.
Qed.
Lemma mild_lease cols f : sets_only cols f -> mild (update "maintenance_leases" cols f).
Proof.
  intros Hf d d' Hd E. split; [|by apply (update_tidy _ _ _ _ _ Hf Hd E)]. apply update_inv in E as (t & Ht & _ & _ & ->). by apply preserved_put.
Qed.

(** *** Sequences of statements *)
Fixpoint run_all (l : list sql) (d : database) : option database := match l with [] => Some d | st :: rest => d' ← st d; run_all rest d' end.
Lemma run_all_mild l d d' : Forall mild l -> tidy d -> run_all l d = Some d' -> preserved d d' /\ tidy d'.
Proof.
  intros Hl. revert d. induction Hl as [|st l Hst _ IH]; intros d Hd E; cbn in E; [injection E as <-; split; [apply preserved_refl|done]|].
  destruct (st d) as [d1|] eqn:E1; [|done]. destruct (Hst d d1 Hd E1) as [P1 T1]. destruct (IH d1 T1 E) as [P2 T2]. split; [by apply (preserved_trans d d1)|done].
Qed.
Lemma run_all_app l l' d d' : run_all (l ++ l') d = Some d' -> exists d1, run_all l d = Some d1 /\ run_all l' d1 = Some d'.
Proof.
  revert d. induction l as [|st l IH]; intros d E; cbn in E |- *; [by exists d|]. destruct (st d) as [d1|]; [|done]. by apply IH.
Qed.

(** *** A column that an update fills *)
Lemma put_put name t t' d : put_table name t' (put_table name t d) = put_table name t' d.
Proof. destruct d as [T x v]. unfold put_table. cbn. f_equal. apply insert_insert_eq. Qed.
Lemma table_put name t d : db_Tables (put_table name t d) !! name = Some t.
Proof. apply lookup_insert_eq. Qed.
Lemma sets_field cols name v (r : row) : In name cols -> forall c, is_Some (set_field name v r !! c) -> is_Some (r !! c) \/ In c cols.
Proof. intros Hn c. unfold set_field. destruct (decide (name = c)) as [<-|Hne]; [by right|]. rewrite lookup_insert_ne by done. intros H. by left. Qed.
Lemma filled_carried name c v (r : row) : r !! c = None -> zero_columns name = [] -> name <> "automation_state"%string -> carried name r (<[c := v]> r).
Proof. intros Hr Hz Hn. split; [by apply insert_subseteq|]. rewrite Hz. split; [constructor|done]. Qed.
Definition event_statements : list sql :=
  [add_column "anomalies" (int_default "event_at" 0); update "anomalies" ["event_at"; "opened_at"]%string event_of_opening].
Lemma events_kept d d' : tidy d -> run_all event_statements d = Some d' -> preserved d d' /\ tidy d'.
Proof.
  intros Hd E. unfold event_statements, run_all in E. destruct (add_column _ _ d) as [d1|] eqn:E1; [|done]. cbn [mbind option_bind] in E.
  destruct (update _ _ _ d1) as [d2|] eqn:E2; [|done]. injection E as <-. split.
  - apply add_column_inv in E1 as (t & Ht & Hf & ->). apply update_inv in E2 as (t1 & Ht1 & _ & _ & ->). rewrite table_put in Ht1. injection Ht1 as <-.
    rewrite put_put. apply preserved_put. intros t0 Ht0 _. rewrite Ht in Ht0. injection Ht0 as <-.
    match goal with |- kept_rows _ _ ?x => change x with (map event_of_opening (map <["event_at"%string := Int 0]> (t_Rows t))) end. rewrite map_map. apply kept_map. intros r Hr.
    assert (r !! "event_at"%string = None) as Hn by (apply (column_absent t); [by apply (Hd "anomalies"%string t)|done]).
    unfold event_of_opening, set_field. destruct (bool_decide _); [rewrite insert_insert_eq|]; by apply filled_carried.
  - refine (update_tidy _ _ _ d1 d2 _ (add_column_tidy _ _ d d1 Hd E1) E2). intros r c. unfold event_of_opening. destruct (bool_decide _); [|by left].
    apply sets_field. by left.
Qed.
Definition hold_statements : list sql :=
  [ add_column "automation_state" (flag_column "manual_paused"); add_column "automation_state" (text_default "manual_pause_reason" "");
    update "automation_state" ["manual_paused"; "deletion_blocked"; "manual_pause_reason"; "block_reason"]%string hold_kept ].
(** The row of a hold that was kept. *)
Lemma hold_carried (r : row) reason v : r !! "manual_paused"%string = None -> r !! "manual_pause_reason"%string = None ->
  r !! "deletion_blocked"%string = Some v -> carried "automation_state" r (<["manual_paused"%string := v]> (<["manual_pause_reason"%string := reason]> r)).
Proof.
  intros H1 H2 Hb. split; [|split].
  - transitivity (<["manual_pause_reason"%string := reason]> r); [by apply insert_subseteq|]. apply insert_subseteq. by rewrite lookup_insert_ne.
  - change (zero_columns "automation_state") with ["activation_pending"; "resume_pending"]%string.
    apply Forall_cons_2; [|apply Forall_cons_2; [|apply Forall_nil_2]]; intros Hn; left; by rewrite !lookup_insert_ne.
  - intros _ _. right. by rewrite lookup_insert_eq, !lookup_insert_ne, Hb.
Qed.
Lemma holds_kept d d' : tidy d -> run_all hold_statements d = Some d' -> preserved d d' /\ tidy d'.
Proof.
  intros Hd E. unfold hold_statements, run_all in E. destruct (add_column _ _ d) as [d1|] eqn:E1; [|done]. cbn [mbind option_bind] in E.
  destruct (add_column _ _ d1) as [d2|] eqn:E2; [|done]. cbn [mbind option_bind] in E. destruct (update _ _ _ d2) as [d3|] eqn:E3; [|done]. injection E as <-. split.
  - apply add_column_inv in E1 as (t & Ht & Hf & ->). apply add_column_inv in E2 as (t1 & Ht1 & Hf1 & ->). rewrite table_put in Ht1. injection Ht1 as <-.
    apply update_inv in E3 as (t2 & Ht2 & _ & Hv & ->). rewrite table_put in Ht2. injection Ht2 as <-.
    rewrite !put_put. apply preserved_put. intros t0 Ht0 _. rewrite Ht in Ht0. injection Ht0 as <-.
    match goal with |- kept_rows _ _ ?x => change x with (map hold_kept (map <["manual_pause_reason"%string := Text ""]> (map <["manual_paused"%string := Int 0]> (t_Rows t)))) end.
    match type of Hv with context [map hold_kept ?x] => change x with (map <["manual_pause_reason"%string := Text ""]> (map <["manual_paused"%string := Int 0]> (t_Rows t))) in Hv end.
    rewrite !map_map in *. apply kept_map. intros r Hr.
    assert (in_columns t r) as Hc by (by apply (Hd "automation_state"%string t)).
    assert (r !! "manual_paused"%string = None) as H1 by (by apply (column_absent t)).
    assert (r !! "manual_pause_reason"%string = None) as H2.
    { apply (column_absent t); [done|]. match type of Hf1 with has_column ?x _ = _ => assert (column_names x = column_names t ++ ["manual_paused"%string]) as En by (unfold column_names; cbn; by rewrite map_app) end.
      unfold has_column in *. rewrite En, existsb_app in Hf1. by apply orb_false_iff in Hf1 as [? _]. }
    rewrite forallb_forall in Hv. specialize (Hv _ (in_map _ _ r Hr)). unfold row_valid in Hv. apply andb_true_iff in Hv as [Hv _]. apply andb_true_iff in Hv as [Hv _].
    rewrite forallb_forall in Hv. specialize (Hv (flag_column "manual_paused")). cbn beta in Hv.
    unfold hold_kept, set_field, field in *. rewrite !(lookup_insert_ne _ "manual_pause_reason"%string), !(lookup_insert_ne _ "manual_paused"%string "deletion_blocked"%string) in * by done.
    change (c_Name (flag_column "manual_paused")) with "manual_paused"%string in Hv. rewrite lookup_insert_eq in Hv.
    destruct (r !! "deletion_blocked"%string) as [v|] eqn:Eb; cbn [default] in *; [|exfalso].
    + rewrite insert_insert_eq, (insert_insert_ne _ "manual_pause_reason"%string "manual_paused"%string), insert_insert_eq by done. by apply hold_carried.
    + cbn in Hv. assert (false = true) as Hx; [apply Hv|done]. rewrite !in_app_iff. left; right; by left.
  - refine (update_tidy _ _ _ d2 d3 _ (add_column_tidy _ _ d1 d2 (add_column_tidy _ _ d d1 Hd E1) E2) E3). intros r c H. unfold hold_kept in H.
    apply (sets_field ["manual_paused"; "deletion_blocked"; "manual_pause_reason"; "block_reason"]%string) in H as [H|H]; [|by right|by left].
    apply (sets_field ["manual_paused"; "deletion_blocked"; "manual_pause_reason"; "block_reason"]%string) in H as [H|H]; [by left|by right|by right; right; left].
Qed.

(** *** The rebuilding of the tables of the copies and of the uploads *)
Lemma rename_inv old new d d' : rename_table old new d = Some d' -> exists t, db_Tables d !! old = Some t /\ db_Tables d !! new = None /\
  forall k, db_Tables d' !! k = redirect_table old new <$> (<[new := t]> (delete old (db_Tables d))) !! k.
Proof.
  unfold rename_table. destruct (db_Tables d !! old) as [t|]; [|done]. cbn. destruct (db_Tables d !! new) eqn:En; [done|]. intros [= <-].
  exists t. split; [done|]. split; [done|]. intros k. cbn. by rewrite lookup_fmap.
Qed.
Lemma create_inv name t d d' : create_table false name t d = Some d' -> db_Tables d !! name = None /\ d' = put_table name t d.
Proof. unfold create_table. destruct (db_Tables d !! name); [done|]. by intros [= <-]. Qed.
Lemma drop_inv name d d' : drop_table name d = Some d' -> db_Tables d' = delete name (db_Tables d).
Proof. unfold drop_table. destruct (db_Tables d !! name); [|done]. destruct (referred d name); [done|]. by intros [= <-]. Qed.
Lemma select_inv columns name d rows : select columns name d = Some rows -> exists t, db_Tables d !! name = Some t /\ rows = map (pick columns) (t_Rows t).
Proof. unfold select. destruct (db_Tables d !! name) as [t|]; [|done]. cbn. destruct (forallb _ _); [|done]. intros [= <-]. by exists t. Qed.
Lemma insert_select_inv name columns source d d' t : db_Tables d !! name = Some t -> insert_select name (select columns source) d = Some d' ->
  exists src t', db_Tables d !! source = Some src /\ d' = put_table name t' d /\ t_Columns t' = t_Columns t /\
    exists added, t_Rows t' = t_Rows t ++ added /\ Forall2 (gives t) (map (pick columns) (t_Rows src)) added /\ Forall (in_columns t) added.
Proof.
  intros Ht E. unfold insert_select in E. destruct (select columns source d) as [rows|] eqn:Es; [|done]. apply select_inv in Es as (src & Hs & ->).
  destruct (insert_rows_inv name _ d d' t Ht E) as (t' & -> & Hc & _ & added & Hr). exists src, t'. split; [done|]. split; [done|]. split; [done|]. by exists added.
Qed.
Lemma pick_lookup cols (r : row) c : In c cols -> pick (same_names cols) r !! c = Some (field c r).
Proof.
  intros Hc. unfold pick, same_names. rewrite map_map. induction cols as [|x cols IH]; [done|]. cbn. destruct (decide (x = c)) as [->|Hne]; [by rewrite lookup_insert_eq|].
  rewrite lookup_insert_ne by done. apply IH. by destruct Hc.
Qed.
(** Rows copied column by column. *)
Lemma kept_picked name cols t target added : zero_columns name = [] -> name <> "automation_state"%string ->
  (forall c, In c (column_names t) -> In c cols) -> (forall c, In c cols -> In c (column_names target)) -> (forall r, In r (t_Rows t) -> in_columns t r) ->
  Forall2 (gives target) (map (pick (same_names cols)) (t_Rows t)) added -> kept_rows name (t_Rows t) added.
Proof.
  intros Hz Hn H1 H2 Ht Hg. exists added, []. split; [by rewrite app_nil_r|]. revert added Hg. induction (t_Rows t) as [|r l IH]; intros added Hg; cbn in Hg.
  - inversion Hg. constructor.
  - apply Forall2_cons_inv_l in Hg as (r' & added' & Hr & Hg & ->). constructor; [|apply IH; [intros x Hx; apply Ht; by right|done]].
    split; [|rewrite Hz; split; [constructor|done]]. apply map_subseteq_spec. intros c v Hc. assert (In c cols) as Hin by (apply H1, (Ht r); [by left|by exists v]).
    apply Hr; [by apply H2|]. rewrite pick_lookup by done. unfold field. by rewrite Hc.
Qed.
(** The columns that the copy takes are all that there are. *)
Definition portable (d : database) : Prop :=
  (forall t, db_Tables d !! "backups"%string = Some t -> forall c, In c (column_names t) -> In c backup_columns) /\
  (forall t, db_Tables d !! "upload_attempts"%string = Some t -> forall c, In c (column_names t) -> In c attempt_columns).
Definition rebuilding : list sql := firstn 8 to_v5.
Ltac step E d' En := cbn [run_all] in E; match type of E with mbind ?f ?x = _ => destruct x as [d'|] eqn:En; [|done]; cbn [mbind option_bind] in E end.
(** What the rebuilding makes of the tables. *)
Definition same_content (t t' : table) : Prop := t_Rows t' = t_Rows t /\ t_Columns t' = t_Columns t.
Definition copied (cols : list string) (target t t' : table) : Prop :=
  t_Columns t' = t_Columns target /\ Forall2 (gives target) (map (pick (same_names cols)) (t_Rows t)) (t_Rows t') /\ Forall (in_columns target) (t_Rows t').
Record rebuilt (d d' : database) : Prop := Rebuilt {
  rb_uploads : exists t t', db_Tables d !! "upload_attempts"%string = Some t /\ db_Tables d' !! "upload_attempts"%string = Some t' /\ copied attempt_columns upload_attempts t t';
  rb_backups : exists t t', db_Tables d !! "backups"%string = Some t /\ db_Tables d' !! "backups"%string = Some t' /\ copied backup_columns backups t t';
  rb_others : forall k, k <> "upload_attempts"%string -> k <> "backups"%string ->
    match db_Tables d !! k, db_Tables d' !! k with Some t, Some t' => same_content t t' | None, None => True | _, _ => False end }.
Lemma rebuilding_rebuilt d d' : run_all rebuilding d = Some d' -> rebuilt d d'.
Proof.
  intros E. unfold rebuilding, to_v5, firstn in E.
  step E d1 E1. step E d2 E2. step E d3 E3. step E d4 E4. step E d5 E5. step E d6 E6. step E d7 E7. step E d8 E8. injection E as <-.
  apply rename_inv in E1 as (tU & HU & HU4 & L1). apply rename_inv in E2 as (tB & HB & HB4 & L2).
  apply create_inv in E3 as [_ ->]. destruct (insert_select_inv _ _ _ _ _ backups (table_put _ _ _) E4) as (sB & tB' & HsB & -> & HcB & aB & HrB & HgB & HiB). clear E4.
  apply create_inv in E5 as [_ ->]. destruct (insert_select_inv _ _ _ _ _ upload_attempts (table_put _ _ _) E6) as (sU & tU' & HsU & -> & HcU & aU & HrU & HgU & HiU). clear E6.
  apply drop_inv in E7. apply drop_inv in E8. rewrite E7 in E8. clear E7. unfold put_table in *. cbn [db_Tables set_with] in *.
  change (t_Rows backups) with (@nil row) in HrB. change (t_Rows upload_attempts) with (@nil row) in HrU. cbn [app] in HrB, HrU. subst aB aU.
  rewrite L1, lookup_insert_ne, lookup_delete_ne in HB, HB4 by done. apply fmap_Some in HB as (tB0 & HB0 & ->). apply fmap_None in HB4.
  rewrite lookup_insert_ne, L2, lookup_insert_eq in HsB by done. injection HsB as <-.
  rewrite !lookup_insert_ne, L2, lookup_insert_ne, lookup_delete_ne, L1, lookup_insert_eq in HsU by done. injection HsU as <-.
  split.
  - exists tU, tU'. split; [done|]. rewrite E8, lookup_delete_ne, lookup_delete_ne, lookup_insert_eq by done. by split.
  - exists tB0, tB'. split; [done|]. rewrite E8, lookup_delete_ne, lookup_delete_ne, !(lookup_insert_ne _ "upload_attempts"%string), lookup_insert_eq by done. by split.
  - intros k Hk1 Hk2. rewrite E8. destruct (decide (k = "backups_v4"%string)) as [->|Hk3]; [by rewrite lookup_delete_eq, HB4|]. rewrite lookup_delete_ne by done.
    destruct (decide (k = "upload_attempts_v4"%string)) as [->|Hk4]; [by rewrite lookup_delete_eq, HU4|].
    rewrite lookup_delete_ne, !lookup_insert_ne, L2, lookup_insert_ne, lookup_delete_ne, L1, lookup_insert_ne, lookup_delete_ne by done.
    by destruct (db_Tables d !! k).
Qed.
Lemma rebuilt_kept d d' : tidy d -> portable d -> rebuilt d d' -> preserved d d' /\ tidy d'.
Proof.
  intros Hd [PB PU] [(tU & tU' & HU & HU' & CU & GU & IU) (tB & tB' & HB & HB' & CB & GB & IB) Ho]. split.
  - intros name t Ht Hn. destruct (decide (name = "upload_attempts"%string)) as [->|H1].
    { rewrite HU in Ht. injection Ht as <-. exists tU'. split; [done|]. apply (kept_picked _ attempt_columns _ upload_attempts); try done; [by apply PU|intros r; by apply (Hd "upload_attempts"%string)]. }
    destruct (decide (name = "backups"%string)) as [->|H2].
    { rewrite HB in Ht. injection Ht as <-. exists tB'. split; [done|]. apply (kept_picked _ backup_columns _ backups); try done; [by apply PB| |intros r; by apply (Hd "backups"%string)].
      intros c Hc. apply has_column_in. revert c Hc. apply (forallb_forall (has_column backups) backup_columns). by vm_compute. }
    specialize (Ho name H1 H2). rewrite Ht in Ho. destruct (db_Tables d' !! name) as [t'|]; [|done]. exists t'. split; [done|]. rewrite (proj1 Ho). apply kept_rows_refl.
  - intros name t' r Ht' Hr. destruct (decide (name = "upload_attempts"%string)) as [->|H1].
    { rewrite HU' in Ht'. injection Ht' as <-. unfold in_columns, column_names. rewrite CU. rewrite Forall_forall in IU. by apply IU, list_elem_of_In. }
    destruct (decide (name = "backups"%string)) as [->|H2].
    { rewrite HB' in Ht'. injection Ht' as <-. unfold in_columns, column_names. rewrite CB. rewrite Forall_forall in IB. by apply IB, list_elem_of_In. }
    specialize (Ho name H1 H2). rewrite Ht' in Ho. destruct (db_Tables d !! name) as [t|] eqn:Et; [|done]. destruct Ho as [E1 E2].
    unfold in_columns, column_names. rewrite E2. apply (Hd name t); [done|by rewrite <- E1].
Qed.

(** ** The migrations, statement by statement *)
(** The tables that version 5 rebuilds can be, until they are. *)
Definition rebuildable (d : database) : Prop := portable d \/ has "quarantined_at" (columns_of "backups" d) = true.
Definition columns_kept (st : sql) : Prop := forall d d', st d = Some d' -> rebuildable d -> rebuildable d'.
Lemma columns_kept_id st : (forall d d', st d = Some d' -> db_Tables d' = db_Tables d) -> columns_kept st.
Proof. intros Hst d d' E. unfold rebuildable, portable, columns_of. by rewrite (Hst d d' E). Qed.
Lemma columns_kept_put name t t' d : db_Tables d !! name = Some t -> t_Columns t' = t_Columns t -> rebuildable d -> rebuildable (put_table name t' d).
Proof.
  intros Ht Hc. assert (forall k x, db_Tables (put_table name t' d) !! k = Some x -> exists y, db_Tables d !! k = Some y /\ column_names x = column_names y) as Hk.
  { intros k x. unfold put_table. cbn. destruct (decide (name = k)) as [<-|Hne]; [rewrite lookup_insert_eq; intros [= <-]; exists t; split; [done|]; unfold column_names; by rewrite Hc|].
    rewrite lookup_insert_ne by done. intros Hx. by exists x. }
  intros [[H1 H2]|Hq]; [left; split; intros x Hx c; destruct (Hk _ x Hx) as (y & Hy & ->); [by apply (H1 y)|by apply (H2 y)]|right].
  unfold columns_of in *. destruct (decide (name = "backups"%string)) as [->|Hne]; [|by unfold put_table; cbn; rewrite lookup_insert_ne].
  rewrite table_put. rewrite Ht in Hq. unfold column_names in *. by rewrite Hc.
Qed.
Lemma columns_kept_index b name x : columns_kept (create_index b name x).
Proof.
  apply columns_kept_id. intros d d' E. unfold create_index in E. destruct (db_Indexes d !! name); [destruct b; by simplify_eq|].
  destruct (db_Tables d !! x_Table x) as [t|]; [|done]. cbn in E. destruct (_ && _); by simplify_eq.
Qed.
Lemma columns_kept_version v : columns_kept (set_version v).
Proof. apply columns_kept_id. by intros d d' [= <-]. Qed.
Lemma columns_kept_select name query : columns_kept (insert_select name query).
Proof.
  intros d d' E. unfold insert_select in E. destruct (query d) as [rows|]; [|done]. cbn in E.
  destruct (insert_rows_table name rows d d' E) as [->|[t Ht]]; [by injection E as <-|].
  destruct (insert_rows_inv name rows d d' t Ht E) as (t' & -> & Hc & _). by apply (columns_kept_put name t).
Qed.
Lemma columns_kept_add c : In (c_Name c) backup_columns -> columns_kept (add_column "backups" c).
Proof.
  intros Hc d d' (t & Ht & _ & ->)%add_column_inv. set (t' := t <| t_Columns ::= _ |> <| t_Rows ::= _ |>).
  assert (column_names t' = column_names t ++ [c_Name c]) as En by apply columns_grown.
  intros [[H1 H2]|Hq]; [left|right].
  - split; intros x; unfold put_table; cbn.
    + rewrite lookup_insert_eq. intros [= <-] n. fold t'. rewrite En, in_app_iff. intros [Hn|[<-|[]]]; [by apply (H1 t)|done].
    + rewrite lookup_insert_ne by done. apply H2.
  - unfold columns_of in *. rewrite table_put, En. rewrite Ht in Hq. unfold has in *. by rewrite existsb_app, Hq.
Qed.
Lemma columns_kept_create t : (forall c, In c (column_names t) -> In c attempt_columns) -> columns_kept (create_table false "upload_attempts" t).
Proof.
  intros Hc d d' [Hn ->]%create_inv. intros [[H1 H2]|Hq]; [left|right].
  - split; intros x; unfold put_table; cbn; [rewrite lookup_insert_ne by done; apply H1|rewrite lookup_insert_eq; by intros [= <-]].
  - unfold columns_of, put_table. cbn. by rewrite lookup_insert_ne.
Qed.
Lemma run_all_columns l d d' : Forall columns_kept l -> run_all l d = Some d' -> rebuildable d -> rebuildable d'.
Proof.
  intros Hl. revert d. induction Hl as [|st l Hst _ IH]; intros d E; cbn in E; [by injection E as <-|]. destruct (st d) as [d1|] eqn:E1; [|done].
  intros Hd. by apply (IH d1), (Hst d).
Qed.
Lemma run_all_version l v d d' : run_all (l ++ [set_version v]) d = Some d' -> db_Version d' = v.
Proof. intros (d1 & _ & E)%run_all_app. cbn in E. by injection E as <-. Qed.
Lemma version_after l v d d' : l = removelast l ++ [set_version v] -> run_all l d = Some d' -> db_Version d' = v.
Proof. intros ->. apply run_all_version. Qed.

(** From version [v] to the next. *)
Definition advances (v : Z) (d d' : database) : Prop := tidy d -> (v <= 4 -> rebuildable d) ->
  preserved d d' /\ tidy d' /\ db_Version d' = v + 1 /\ (v + 1 <= 4 -> rebuildable d').
Lemma advances_mild v l d d' : Forall mild l -> (v + 1 <= 4 -> Forall columns_kept l) ->
  run_all (l ++ [set_version (v + 1)]) d = Some d' -> advances v d d'.
Proof.
  intros Hm Hc E Hd Hr. pose proof (run_all_version l _ d d' E) as Hv. apply run_all_app in E as (d1 & E1 & E2). cbn in E2. injection E2 as <-.
  destruct (run_all_mild l d d1 Hm Hd E1) as [P T]. split; [|split; [|split]]; try done. intros H4.
  apply (columns_kept_version (v + 1) d1); [done|]. apply (run_all_columns l d d1); [by apply Hc|done|apply Hr; lia].
Qed.
Lemma harmless_for name c : zero_columns name = [] -> name <> "automation_state"%string -> harmless name c.
Proof. intros Hz Hn. split; [by rewrite Hz|done]. Qed.
#[local] Hint Resolve mild_version mild_drop_index mild_index mild_insert_rows mild_select mild_insert_ignore : mild.
#[local] Hint Resolve columns_kept_version columns_kept_index columns_kept_select : mild.
#[local] Hint Extern 1 (mild (create_table _ _ _)) => by apply mild_create : mild.
#[local] Hint Extern 1 (mild (add_column _ _)) => apply mild_add, harmless_for; done : mild.
#[local] Hint Extern 1 (columns_kept (add_column _ _)) => apply columns_kept_add; vm_compute; tauto : mild.
Ltac mild_list := repeat (apply Forall_cons_2; [solve [auto with mild]|]); apply Forall_nil_2.
Lemma to_v2_advances d d' : run_all to_v2 d = Some d' -> advances 1 d d'.
Proof. apply (advances_mild 1 [_]); [|intros _]; mild_list. Qed.
Lemma to_v3_advances d d' : run_all to_v3 d = Some d' -> advances 2 d d'.
Proof. apply (advances_mild 2 [_; _]); [|intros _]; mild_list. Qed.
Lemma to_v4_advances d d' : run_all to_v4 d = Some d' -> advances 3 d d'.
Proof.
  apply (advances_mild 3 [_; _; _]); [mild_list|intros _]. apply Forall_cons_2; [apply columns_kept_create; intros c Hc; exact Hc|mild_list].
Qed.
Lemma to_v5_advances d d' : has "quarantined_at" (columns_of "backups" d) = false -> run_all to_v5 d = Some d' -> advances 4 d d'.
Proof.
  intros Hq E Hd Hr. change to_v5 with (rebuilding ++ skipn 8 to_v5) in E. apply run_all_app in E as (d1 & E1 & E2).
  assert (portable d) as Hp by (destruct Hr as [?|E]; [lia|done|congruence]).
  destruct (rebuilt_kept d d1 Hd Hp (rebuilding_rebuilt d d1 E1)) as [P1 T1].
  assert (advances 5 d1 (d' <| db_Version := 6 |>)) as Ha.
  { change (skipn 8 to_v5) with (removelast (skipn 8 to_v5) ++ [set_version 5]) in E2. apply run_all_app in E2 as (d2 & E2 & E3). cbn in E3. injection E3 as <-.
    apply (advances_mild 5 (removelast (skipn 8 to_v5)) d1); [cbn [removelast skipn to_v5]; mild_list|lia|].
    clear -E2. revert d1 E2. induction (removelast (skipn 8 to_v5)) as [|st l IH]; intros d1 E; cbn in E |- *; [by injection E as <-|]. destruct (st d1) as [d3|]; [|done]. by apply IH. }
  destruct (Ha T1) as (P2 & T2 & _); [lia|]. split; [by apply (preserved_trans d d1)|]. split; [exact T2|]. split; [|lia].
  exact (version_after _ 5 d1 d' eq_refl E2).
Qed.
Lemma run_all_join l l' d d1 d' : run_all l d = Some d1 -> run_all l' d1 = Some d' -> run_all (l ++ l') d = Some d'.
Proof. revert d. induction l as [|st l IH]; intros d E1 E2; cbn in *; [by injection E1 as ->|]. destruct (st d); [|done]. by apply IH. Qed.
Definition kept_by (d d' : database) : Prop := tidy d -> preserved d d' /\ tidy d'.
Lemma kept_by_trans d d1 d2 : kept_by d d1 -> kept_by d1 d2 -> kept_by d d2.
Proof. intros H1 H2 Hd. destruct (H1 Hd) as [P1 T1]. destruct (H2 T1) as [P2 T2]. split; [by apply (preserved_trans d d1)|done]. Qed.
Lemma kept_by_mild l d d' : Forall mild l -> run_all l d = Some d' -> kept_by d d'.
Proof. intros Hl E Hd. by apply (run_all_mild l). Qed.
Lemma advances_kept v d d' : 4 <= v -> kept_by d d' -> db_Version d' = v + 1 -> advances v d d'.
Proof. intros Hv Hk He Hd _. destruct (Hk Hd) as [P T]. split; [done|]. split; [done|]. split; [done|lia]. Qed.
Lemma mild_unless (b : bool) st : mild st -> Forall mild (if b then [] else [st]).
Proof. intros Hst. destruct b; [constructor|by apply Forall_singleton]. Qed.
Lemma to_v6_advances names d d' : run_all (to_v6 names) d = Some d' -> advances 5 d d'.
Proof.
  intros E. apply advances_kept; [done| |].
  - unfold to_v6 in E. apply run_all_app in E as (d1 & E1 & E). apply run_all_app in E as (d2 & E2 & E). apply run_all_app in E as (d3 & E3 & E).
    apply (kept_by_trans d d1); [refine (kept_by_mild _ _ _ _ E1); apply mild_unless; auto with mild|].
    apply (kept_by_trans d1 d2); [refine (kept_by_mild _ _ _ _ E2); apply mild_unless; auto with mild|].
    apply (kept_by_trans d2 d3); [|refine (kept_by_mild _ _ _ _ E); mild_list].
    destruct (has "event_at" names); [injection E3 as <-; intros Hd; split; [apply preserved_refl|done]|]. intros Hd. by apply events_kept.
  - unfold to_v6 in E. rewrite !app_assoc in E. apply run_all_app in E as (d1 & _ & E). exact (version_after _ 6 d1 d' eq_refl E).
Qed.
Lemma to_v7_advances d d' : run_all to_v7 d = Some d' -> advances 6 d d'.
Proof. apply (advances_mild 6 [_; _; _; _]); [mild_list|lia]. Qed.
Lemma to_v8_mild : Forall mild to_v8.
Proof.
  apply Forall_cons_2; [|mild_list]. apply mild_lease. intros r c H. unfold forget_lease in H.
  assert (forall n v (x : row), In n ["owner"; "expires_at"; "generation"]%string -> is_Some (set_field n v x !! c) -> is_Some (x !! c) \/ In c ["owner"; "expires_at"; "generation"]%string) as Hf
    by (intros n v x Hn; by apply sets_field).
  apply Hf in H as [H|H]; [|by right|cbn; tauto]. apply Hf in H as [H|H]; [|by right|cbn; tauto]. apply Hf in H as [H|H]; [by left|by right|cbn; tauto].
Qed.
Lemma to_v10_advances d d' : run_all to_v10 d = Some d' -> advances 9 d d'.
Proof.
  intros E. change to_v10 with (hold_statements ++ skipn 3 to_v10) in E. apply run_all_app in E as (d1 & E1 & E2). apply advances_kept; [done| |].
  - apply (kept_by_trans d d1); [intros Hd; by apply holds_kept|]. apply (kept_by_mild (skipn 3 to_v10)); [cbn [skipn to_v10]; mild_list|done].
  - exact (version_after _ 10 d1 d' eq_refl E2).
Qed.
(** A column of an operation. *)
Lemma harmless_columns name c : (In (c_Name c) (zero_columns name) -> c_Default c = Int 0) -> (name = "automation_state"%string -> c_Name c <> "manual_paused"%string) -> harmless name c.
Proof. by split. Qed.
Lemma harmless_state c : c_Name c <> "manual_paused"%string -> (In (c_Name c) ["activation_pending"; "resume_pending"]%string -> c_Default c = Int 0) -> harmless "automation_state" c.
Proof. by intros Hn Hz. Qed.
#[local] Hint Extern 2 (mild (add_column _ _)) => apply mild_add, harmless_state; [done|cbn; intuition discriminate] : mild.
Lemma to_v11_advances d d' : run_all to_v11 d = Some d' -> advances 10 d d'.
Proof. apply (advances_mild 10 [_; _; _; _]); [mild_list|lia]. Qed.
Lemma to_v12_advances d d' : run_all to_v12 d = Some d' -> advances 11 d d'.
Proof. apply (advances_mild 11 [_]); [mild_list|lia]. Qed.

(** ** Transactions under failures *)
Section runs.
Context (fate_of : nat -> fate) (short : nat -> option Z).
Lemma triple_ask {A} (I : disk -> Prop) (o : option A) : triple I (ask fate_of o) (fun r s => I s /\ forall a, r = Ok a -> o = Some a) I.
Proof. apply triple_act; [apply _|done|]. intros s Hs. split; [done|]. split; [split; [done|]; intros a; cbn; destruct o; by intros [= <-]|]. by intros f. Qed.
Lemma triple_exec (I : disk -> Prop) l : forall d, triple I (exec_all fate_of l d) (fun r s => I s /\ forall d', r = Ok d' -> run_all l d = Some d') I.
Proof.
  induction l as [|st l IH]; intros d; cbn [exec_all run_all]; [apply triple_ret; intros s Hs; split; [done|by intros d' [= <-]]|].
  eapply triple_bind; [apply triple_ask|]. intros [d1|e]; [|apply triple_ret; by intros s [Hs _]].
  intros n s [Hs E]. rewrite (E d1 eq_refl). cbn [mbind option_bind]. exact (IH d1 n s Hs).
Qed.
(** A column that is there, or is there now. *)
Definition ensured (name : string) (c : column) (d d' : database) : Prop :=
  if has (c_Name c) (columns_of name d) then d' = d else add_column name c d = Some d'.
Lemma triple_ensure (I : disk -> Prop) name c d :
  triple I (ensure_column fate_of name c d) (fun r s => I s /\ forall d', r = Ok d' -> ensured name c d d') I.
Proof.
  unfold ensure_column, ensured. eapply triple_bind; [apply triple_ask|]. intros [names|e]; [|apply triple_ret; by intros s [Hs _]].
  intros n s [Hs E]. specialize (E names eq_refl). injection E as ->. revert n s Hs. assert (triple I (if has (c_Name c) names then mret (Ok d) else ask fate_of (add_column name c d))
    (fun r s => I s /\ forall d', r = Ok d' -> if has (c_Name c) names then d' = d else add_column name c d = Some d') I) as Ht; [|exact Ht].
  destruct (has (c_Name c) names); [apply triple_ret; intros s Hs; split; [done|]; by intros d' [= <-]|apply triple_ask].
Qed.
(** The commit gives the database that the statements made of the one of before. *)
Lemma triple_transaction (P Q : disk -> Prop) (T : database -> database -> Prop) body :
  (forall d, triple (fun s => P s /\ k_Db s = d) (body d) (fun r s => (P s /\ k_Db s = d) /\ forall d', r = Ok d' -> T d d') P) ->
  (forall s d', P s -> T (k_Db s) d' -> Q (s <| k_Db := d' |>)) ->
  triple P (transaction fate_of body) (fun r s => (r = Ok tt -> Q s) /\ (P s \/ Q s)) (fun s => P s \/ Q s).
Proof.
  intros Hb Hq. unfold transaction. apply (triple_bind _ _ _ _ (fun r s => P s /\ forall d, r = Ok d -> k_Db s = d)).
  { apply triple_act; [apply _|by left|]. intros s Hs. split; [by left|]. split; [split; [done|by intros d [= <-]]|]. by intros f. }
  intros [d|e]; [|apply triple_ret; intros s [Hs _]; split; [done|by left]].
  eapply triple_bind; [eapply triple_weaken; [apply Hb|intros s [Hs E]; split; [done|by apply E]|intros r s Hr; exact Hr|by left]|].
  intros [d'|e]; [|apply triple_ret; intros s [[Hs _] _]; split; [done|by left]].
  apply triple_act; [apply _|by intros s [[Hs _] _]; left|]. intros s [[Hs <-] Ht]. pose proof (Hq s d' Hs (Ht d' eq_refl)) as Hd. cbn [fst snd].
  split; [by right|]. split; [split; [done|by right]|]. intros f. split; (split; [done|]); [by left|by right].
Qed.
End runs.

(** ** The cold copy *)
Section copy.
Context (fate_of : nat -> fate) (short : nat -> option Z) (exposed : string -> bool) (destination data : string) (f0 : fs).
Abbreviation anything_goes := (fun _ : fs => True).
(** A copy that was there before is left as it is. *)
Definition copy_there (s : fs) : Prop :=
  match file_at destination f0 with None => file_at destination s = Some (Regular data) | Some e => s = f0 /\ is_regular e = true /\ exposed destination = false end.
Lemma triple_copy_published fd : triple (filled destination f0 fd "")
  (_ ←? fill fate_of short fd data;
   _ ←? Io.act alone fate_of (rename_path (temporary destination) destination);
   _ ←? Io.act alone fate_of unseen; Io.act alone fate_of unseen)
  (fun r s => r = Ok tt -> file_at destination s = Some (Regular data)) anything_goes.
Proof.
  apply (triple_try _ _ _ _ (fun r s => r = Ok tt -> filled destination f0 fd data s)); [|intros []|done].
  { eapply triple_weaken; [apply triple_fill|done| |done]. intros r s (content & Hs & Hc) Hr. by rewrite <- (Hc Hr). }
  apply (triple_try _ _ _ _ (fun r s => r = Ok tt -> file_at destination s = Some (Regular data))); [|intros []|done].
  - apply triple_act; [apply _|done|]. intros s Hs. specialize (Hs eq_refl). split; [done|]. split; [|done].
    pose proof (filled_rename destination data f0 s fd Hs) as Hr. destruct (rename_path _ _ s) as [[[]|e] s']; cbn; [|done]. intros _. by apply holds_file_at, Hr.
  - apply (triple_try _ _ _ _ (fun _ s => file_at destination s = Some (Regular data))); [|intros []|done].
    + apply triple_act; [apply _|done|]. intros s Hs. specialize (Hs eq_refl). by repeat split.
    + apply triple_act; [apply _|done|]. intros s Hs. by repeat split.
Qed.
Lemma triple_cold_copy : triple (eq f0) (coldCopy fate_of short exposed data destination) (fun r s => r = Ok tt -> copy_there s) anything_goes.
Proof.
  unfold coldCopy. apply (triple_bind _ _ _ _ (fun r s => s = f0 /\ (forall i e, r = Ok (i, e) -> file_at destination f0 = Some e) /\ (r = Err (OsError ENOENT) -> file_at destination f0 = None))).
  { apply triple_act; [apply _|done|]. intros s <-. cbn. split; [done|]. split; [|by intros []]. unfold file_at. split; [done|]. split; [by intros i e ->|by intros ->]. }
  intros [[i e]|e].
  - apply triple_ret. intros s (-> & E & _). unfold copy_there. rewrite (E i e eq_refl). destruct (is_regular e); [|done]. by destruct (exposed destination).
  - destruct e as [[]|]; try by apply triple_ret. intros n s (-> & _ & Hfree). specialize (Hfree eq_refl).
    match goal with |- match ?m (n, _) with _ => _ end => assert (triple (fun s => s = f0) m (fun r s => r = Ok tt -> copy_there s) anything_goes) as Hm; [|exact (Hm n f0 eq_refl)] end.
    unfold copy_there. rewrite Hfree. apply (triple_try _ _ _ _ (fun _ s => s = f0)); [|intros []|done].
    + apply triple_act; [apply _|done|]. by intros s ->.
    + apply (triple_try _ _ _ _ (fun r s => forall fd, r = Ok fd -> filled destination f0 fd "" s)); [|intros fd|done].
      * apply triple_act; [apply _|done|]. intros s ->. split; [done|]. split; [|by intros f; split]. intros fd. unfold create_exclusive.
        destruct (fs_names f0 !! temporary destination) eqn:E; [done|]. cbn. intros [= <-]. by apply waiting_create.
      * eapply triple_bind; [eapply triple_pre; [apply (triple_copy_published fd)|intros s Hs; by apply Hs]|]. intros [[]|e]; [apply triple_ret; intros s Hs _; by apply Hs|].
        apply (triple_bind _ _ _ _ (fun _ _ => True)); [|intros r; by apply triple_ret]. apply triple_act; [apply _|done|]. by intros s Hs.
Qed.
End copy.

(** ** The opening *)
Section opening.
Context (fate_of : nat -> fate) (short : nat -> option Z) (image : database -> string) (exposed : string -> bool) (path : string) (readonly : bool) (s0 : disk).
Abbreviation copy_path := (path ++ ".v4.cold-copy")%string.
(** The bytes of the catalogue of version 4, with all the rows of before, lie beside the one
    that was rebuilt; a file that was there under this name is taken for the copy, whatever
    it holds, and stays as it was. *)
Definition saved (s : disk) : Prop :=
  match file_at copy_path (k_Files s0) with
  | None => exists d4, db_Version d4 = 4 /\ preserved (k_Db s0) d4 /\ file_at copy_path (k_Files s) = Some (Regular (image d4))
  | Some e => k_Files s = k_Files s0 /\ is_regular e = true /\ exposed copy_path = false
  end.
Definition base (s : disk) : Prop := preserved (k_Db s0) (k_Db s) /\ tidy (k_Db s).
Definition files_at (v : Z) (s : disk) : Prop := if v <=? 4 then k_Files s = k_Files s0 else db_Version (k_Db s0) <= 4 -> saved s.
Definition stage (v files : Z) (s : disk) : Prop :=
  base s /\ db_Version (k_Db s) = v /\ (v <= 4 -> rebuildable (k_Db s)) /\ files_at files s /\ (readonly = true -> s = s0).
Definition safe (s : disk) : Prop := base s /\ (5 <= db_Version (k_Db s) -> db_Version (k_Db s0) <= 4 -> saved s) /\ (readonly = true -> s = s0).
Lemma stage_safe v files s : v <= files -> stage v files s -> safe s.
Proof.
  intros Hf (Hb & Hv & _ & Hs & Hr). split; [done|]. split; [|done]. intros H5. unfold files_at in Hs. by destruct (Z.leb_spec files 4); [lia|].
Qed.
Lemma files_next v s : v <> 4 -> files_at v s -> files_at (v + 1) s.
Proof. intros Hv. unfold files_at. destruct (Z.leb_spec v 4), (Z.leb_spec (v + 1) 4); try done; lia. Qed.
(** A migration that is one transaction. *)
Lemma triple_step v body : readonly = false ->
  (forall (I : disk -> Prop) d, triple I (body d) (fun r s => I s /\ forall d', r = Ok d' -> advances v d d') I) ->
  triple (stage v (v + 1)) (transaction fate_of body) (fun r s => (r = Ok tt -> stage (v + 1) (v + 1) s) /\ safe s) safe.
Proof.
  intros Hro Hbody. eapply triple_weaken; [apply (triple_transaction fate_of (stage v (v + 1)) (stage (v + 1) (v + 1)) (advances v))| | |].
  - intros d n s Hs. specialize (Hbody (fun s => stage v (v + 1) s /\ k_Db s = d) d n s Hs). by destruct (body d (n, s)) as [[r|] [n' s']]; [|destruct Hbody].
  - intros s d' ([P T] & Hv & Hr & Hf & _) Ha. destruct (Ha T Hr) as (P' & T' & Hv' & Hr').
    split; [split; [by apply (preserved_trans _ (k_Db s))|exact T']|]. split; [exact Hv'|]. split; [exact Hr'|]. split; [exact Hf|]. by rewrite Hro.
  - done.
  - intros r s [Hr Hs]. split; [exact Hr|]. destruct Hs as [Hs|Hs]; revert Hs; apply stage_safe; lia.
  - intros s [Hs|Hs]; revert Hs; apply stage_safe; lia.
Qed.
Lemma triple_list v l : readonly = false -> v <> 4 -> (forall d d', run_all l d = Some d' -> advances v d d') ->
  triple (stage v v) (transaction fate_of (exec_all fate_of l)) (fun r s => (r = Ok tt -> stage (v + 1) (v + 1) s) /\ safe s) safe.
Proof.
  intros Hro Hv Hl. eapply triple_pre; [apply triple_step; [done|]|].
  - intros I d. eapply triple_weaken; [apply (triple_exec fate_of I)|done| |done]. intros r s [Hs E]. split; [done|]. intros d' Hr. by apply Hl, E.
  - intros s (Hb & Hs & Hr & Hf & Hn). split; [done|]. split; [done|]. split; [done|]. split; [by apply files_next|done].
Qed.
(** One look at what is committed. *)
Lemma triple_looked {A} (P : disk -> Prop) (f : database -> option A) : triple P (look fate_of f) (fun r s => P s /\ forall a, r = Ok a -> f (k_Db s) = Some a) P.
Proof. apply triple_act; [apply _|done|]. intros s Hs. split; [done|]. split; [split; [done|]; intros a; cbn; destruct (f (k_Db s)); by intros [= <-]|]. by intros f'. Qed.
(** The version alone of a catalogue that has the columns already. *)
Lemma triple_set v : readonly = false -> 4 <= v ->
  triple (stage v (v + 1)) (exec_alone fate_of (set_version (v + 1))) (fun r s => (r = Ok tt -> stage (v + 1) (v + 1) s) /\ safe s) safe.
Proof.
  intros Hro Hv. assert (forall s, stage v (v + 1) s -> stage (v + 1) (v + 1) (s <| k_Db := ((k_Db s) <| db_Version := v + 1 |>) |>)) as Hs.
  { intros s ([P T] & _ & _ & Hf & _). split; [by split|]. split; [done|]. split; [lia|]. split; [exact Hf|]. by rewrite Hro. }
  assert (forall s, stage v (v + 1) s -> safe s) as H1 by (intros s; apply stage_safe; lia).
  assert (forall s, stage (v + 1) (v + 1) s -> safe s) as H2 by (intros s; apply stage_safe; lia).
  apply triple_act; [apply _|done|]. intros s Hst. cbn [set_version fst snd]. pose proof (Hs s Hst) as Hd.
  split; [by apply H2|]. split; [split; [done|by apply H2]|]. intros f. split; (split; [done|]); [by apply H1|by apply H2].
Qed.
Lemma triple_v5 : readonly = false ->
  triple (stage 4 4) (migrateV4ToV5 fate_of short image exposed copy_path) (fun r s => (r = Ok tt -> stage 5 5 s) /\ safe s) safe.
Proof.
  intros Hro. assert (forall s, stage 4 4 s -> safe s) as H44 by (intros s; apply stage_safe; lia). assert (forall s, stage 4 5 s -> safe s) as H45 by (intros s; apply stage_safe; lia).
  assert (forall s, stage 5 5 s -> safe s) as H55 by (intros s; apply stage_safe; lia).
  unfold migrateV4ToV5. apply (triple_try _ _ _ _ (fun _ => stage 4 4)); [|intros []|by intros e s Hs; split; [|apply H44]].
  { eapply triple_weaken; [apply (triple_looked (stage 4 4))|done|by intros r s []|exact H44]. }
  intros n s Hs. unfold committed, mbind, io_bind.
  match goal with |- match ?m (n, s) with _ => _ end => assert (triple (eq s) m (fun r s => (r = Ok tt -> stage 5 5 s) /\ safe s) safe) as Hm; [|exact (Hm n s eq_refl)] end.
  pose proof Hs as ((P & T) & Hv & Hr & Hf & Hn). unfold files_at in Hf. cbn [Z.leb Z.compare Pos.compare Pos.compare_cont] in Hf.
  apply (triple_try _ _ _ _ (fun r x => (r = Ok tt -> stage 4 5 x) /\ safe x)); [|intros []|by intros e x [_ Hx]].
  { eapply triple_weaken; [apply (triple_lift k_Files (fun f t => t <| k_Files := f |>) (fun t => k_Db t = k_Db s) (eq (k_Files s)) _ (fun r f => r = Ok tt -> copy_there exposed copy_path (image (k_Db s)) (k_Files s) f) (fun _ => True))| | |].
    - done.
    - done.
    - apply triple_cold_copy.
    - by intros x <-.
    - intros r x [Hc Hd]. assert (safe x) as Hx by (split; [split; rewrite Hd; done|]; rewrite Hd, Hv; split; [lia|by rewrite Hro]). split; [|exact Hx].
      intros E. split; [split; rewrite Hd; done|]. rewrite Hd. split; [done|]. split; [done|]. split; [|by rewrite Hro]. intros _.
      specialize (Hc E). unfold copy_there in Hc. unfold saved. rewrite Hf in Hc. destruct (file_at copy_path (k_Files s0)); [done|]. by exists (k_Db s).
    - intros x [_ Hd]. split; [split; rewrite Hd; done|]. rewrite Hd, Hv. split; [lia|by rewrite Hro]. }
  apply (triple_pre _ (stage 4 5)); [|by intros x [Hx _]; apply Hx].
  apply (triple_try _ _ _ _ (fun r x => stage 4 5 x /\ forall l, r = Ok l -> columns_of "backups" (k_Db x) = l)); [| |by intros e x [Hx _]; split; [|apply H45]].
  { eapply triple_weaken; [apply (triple_looked (stage 4 5))|done| |exact H45]. intros r x [Hx E]. split; [done|]. intros l Hl. specialize (E l Hl). by injection E. }
  intros l. destruct (has "quarantined_at" l) eqn:Eq; [eapply triple_pre; [by apply (triple_set 4)|by intros x []]|].
  apply (triple_try _ _ _ _ (fun r x => (r = Ok tt -> stage 5 5 x) /\ safe x)); [|intros []|by intros e x [_ Hx]].
  { eapply triple_weaken; [apply (triple_transaction fate_of (fun x => stage 4 5 x /\ columns_of "backups" (k_Db x) = l) (stage 5 5) (fun d d' => columns_of "backups" d = l -> advances 4 d d'))| | |].
    - intros d. eapply triple_weaken; [apply (triple_exec fate_of (fun x => (stage 4 5 x /\ columns_of "backups" (k_Db x) = l) /\ k_Db x = d))|done| |by intros x []].
      intros r x [Hx E]. split; [done|]. intros d' Hr' Hl. apply to_v5_advances; [by rewrite Hl|by apply E].
    - intros x d' [([P1 T1] & Hv1 & Hr1 & Hf1 & _) Hl] Ha. destruct (Ha Hl T1 Hr1) as (P' & T' & Hv' & Hr').
      split; [split; [by apply (preserved_trans _ (k_Db x))|exact T']|]. split; [exact Hv'|]. split; [lia|]. split; [exact Hf1|]. by rewrite Hro.
    - intros x [Hx E]. split; [done|by apply E].
    - intros r x [Hx Hs']. split; [done|]. destruct Hs' as [[Hs' _]|Hs']; [by apply H45|by apply H55].
    - intros x [[Hx _]|Hx]; [by apply H45|by apply H55]. }
  apply (triple_pre _ (stage 5 5)); [|by intros x [Hx _]; apply Hx].
  apply (triple_try _ _ _ _ (fun _ => stage 5 5)); [|intros []|by intros e x Hx; split; [|apply H55]].
  { eapply triple_weaken; [apply (triple_looked (stage 5 5))|done|by intros r x []|exact H55]. }
  eapply triple_weaken; [apply (triple_looked (stage 5 5))|done| |exact H55]. intros r x [Hx _]. split; [done|by apply H55].
Qed.
(** A migration that adds columns unless they are there. *)
Lemma kept_ensured name c d d' : mild (add_column name c) -> ensured name c d d' -> kept_by d d'.
Proof. intros Hm E Hd. unfold ensured in E. destruct (has _ _); [subst; split; [apply preserved_refl|done]|by apply Hm]. Qed.
Lemma triple_ensured (I : disk -> Prop) name c d d0 (rest : database -> Io.io disk (result failure database)) v :
  mild (add_column name c) -> kept_by d0 d ->
  (forall d1, kept_by d0 d1 -> triple I (rest d1) (fun r s => I s /\ forall d', r = Ok d' -> advances v d0 d') I) ->
  triple I (d1 ←? ensure_column fate_of name c d; rest d1) (fun r s => I s /\ forall d', r = Ok d' -> advances v d0 d') I.
Proof.
  intros Hm Hk Hrest. eapply triple_bind; [apply triple_ensure|]. intros [d1|e]; [|apply triple_ret; by intros s [Hs _]].
  intros n s [Hs E]. apply Hrest; [|done]. apply (kept_by_trans _ d); [done|]. apply (kept_ensured name c); [done|by apply E].
Qed.
Lemma triple_rest (I : disk -> Prop) l v d d0 : 4 <= v -> l = removelast l ++ [set_version (v + 1)] -> Forall mild l -> kept_by d0 d ->
  triple I (exec_all fate_of l d) (fun r s => I s /\ forall d', r = Ok d' -> advances v d0 d') I.
Proof.
  intros Hv Hl Hm Hk. eapply triple_weaken; [apply (triple_exec fate_of I)|done| |done]. intros r s [Hs E]. split; [done|]. intros d' Hr. specialize (E d' Hr).
  apply advances_kept; [done| |by apply (version_after l _ d)]. apply (kept_by_trans _ d); [done|]. by apply (kept_by_mild l).
Qed.
Lemma kept_by_refl d : kept_by d d.
Proof. intros Hd. split; [apply preserved_refl|done]. Qed.
(** What is known when the migrations up to the one from [k] were passed. *)
Definition passed (k v : Z) (s : disk) : Prop := stage v v s /\ (readonly = false -> v < 1 \/ k < v).
Lemma triple_from k v m : (readonly = false -> triple (stage k k) m (fun r s => (r = Ok tt -> stage (k + 1) (k + 1) s) /\ safe s) safe) ->
  1 <= k -> triple (passed (k - 1) v) (migration_from k readonly m v) (fun r s => (forall v', r = Ok v' -> passed k v' s) /\ safe s) safe.
Proof.
  intros Hm Hk. unfold migration_from. destruct (Z.eqb_spec v k) as [->|Hne]; cbn [andb].
  - destruct readonly eqn:Er; cbn [negb].
    + apply triple_ret. intros s [Hs _]. split; [intros v' [= <-]; split; [done|congruence]|]. revert Hs. apply stage_safe. lia.
    + apply (triple_try _ _ _ _ (fun r s => (r = Ok tt -> stage (k + 1) (k + 1) s) /\ safe s)); [|intros []|by intros e s [_ Hs]; split].
      * eapply triple_pre; [by apply Hm|]. by intros s [Hs _].
      * apply triple_ret. intros s [Hs Hx]. split; [|done]. intros v' [= <-]. split; [by apply Hs|lia].
  - apply triple_ret. intros s [Hs Hp]. split; [|revert Hs; apply stage_safe; lia]. intros v' [= <-]. split; [done|]. intros Hr. specialize (Hp Hr). lia.
Qed.
Lemma triple_then k v m (rest : Z -> Io.io disk (result failure Z)) Q :
  (readonly = false -> triple (stage k k) m (fun r s => (r = Ok tt -> stage (k + 1) (k + 1) s) /\ safe s) safe) -> 1 <= k ->
  (forall v, triple (passed k v) (rest v) Q safe) -> (forall e s, safe s -> Q (Err e) s) ->
  triple (passed (k - 1) v) (v ←? migration_from k readonly m v; rest v) Q safe.
Proof.
  intros Hm Hk Hrest He. eapply triple_try; [by apply triple_from| |by intros e s [_ Hs]; apply He].
  intros v'. eapply triple_pre; [apply Hrest|]. intros s [Hs _]. by apply Hs.
Qed.
Hypothesis starts_tidy : tidy (k_Db s0).
Hypothesis starts_old : db_Version (k_Db s0) <= 4 -> rebuildable (k_Db s0).
Definition opened (r : result failure Z) (s : disk) : Prop :=
  safe s /\ forall v, r = Ok v -> db_Version (k_Db s) = v /\ 1 <= v <= 12 /\ (readonly = false -> v = 12).
Lemma triple_opening : triple (eq s0) (Open fate_of short image exposed path readonly) opened safe.
Proof.
  assert (safe s0) as H0.
  { split; [by split; [apply preserved_refl|]|]. split; [lia|done]. }
  assert (forall e s, safe s -> opened (Err e) s) as He by (by intros e s Hs).
  assert (forall A (f : database -> option A), triple (eq s0) (look fate_of f) (fun r s => s = s0 /\ forall a, r = Ok a -> f (k_Db s0) = Some a) safe) as Hlook.
  { intros A f. eapply triple_weaken; [apply (triple_looked (eq s0) f)|done| |by intros s <-]. intros r s [<- E]. by split. }
  assert (forall A (m : Io.io disk (result failure A)) (k : A -> Io.io disk (result failure Z)) (R : result failure A -> disk -> Prop),
    triple (eq s0) m (fun r s => s = s0 /\ R r s) safe -> (forall a, triple (eq s0) (k a) opened safe) -> triple (eq s0) (io_try m k) opened safe) as Hstep.
  { intros A m k R Hm Hk. eapply triple_try; [exact Hm| |by intros e s [-> _]; apply He]. intros a. eapply triple_pre; [apply Hk|by intros s [-> _]]. }
  unfold Open. eapply Hstep; [apply Hlook|intros _]. eapply (Hstep _ _ _ (fun _ _ => True)); [apply triple_act; [apply _|by intros s <-|by intros s <-]|]. intros regular.
  destruct regular; cbn [negb]; [|apply triple_ret; by intros s <-; apply He].
  eapply Hstep; [apply Hlook|intros _]. eapply Hstep; [apply Hlook|intros _].
  eapply triple_try; [apply Hlook| |by intros e s [-> _]; apply He]. intros v.
  apply (triple_pre _ (passed (1 - 1) v)).
  - apply triple_then; [|lia|clear v; intros v|exact He].
    { intros Hr. apply triple_list; [done|lia|apply to_v2_advances]. }
    apply (triple_then 2); [|lia|clear v; intros v|exact He].
    { intros Hr. apply triple_list; [done|lia|apply to_v3_advances]. }
    apply (triple_then 3); [|lia|clear v; intros v|exact He].
    { intros Hr. apply triple_list; [done|lia|apply to_v4_advances]. }
    apply (triple_then 4); [|lia|clear v; intros v|exact He]; [apply triple_v5|].
    apply (triple_then 5); [|lia|clear v; intros v|exact He].
    { intros Hr. unfold migrateV5ToV6. eapply (triple_try _ _ _ _ (fun _ => stage 5 5)); [| |by intros e s Hs; split; [|revert Hs; apply stage_safe; lia]].
      - eapply triple_weaken; [apply triple_looked|done|by intros r s []|intros s; apply stage_safe; lia].
      - intros names. apply triple_list; [done|lia|apply to_v6_advances]. }
    apply (triple_then 6); [|lia|clear v; intros v|exact He].
    { intros Hr. apply triple_list; [done|lia|apply to_v7_advances]. }
    apply (triple_then 7); [|lia|clear v; intros v|exact He].
    { intros Hr. eapply triple_pre; [apply triple_step; [done|]|].
      - intros I d. apply triple_ensured; [apply mild_add, harmless_for; done|apply kept_by_refl|]. intros d1 K1.
        apply triple_ensured; [apply mild_add, harmless_columns; vm_compute; intuition discriminate|done|]. intros d2 K2.
        apply triple_rest; [done|done|apply to_v8_mild|done].
      - intros s (Hb & Hs & Hr' & Hf & Hn). split; [done|]. split; [done|]. split; [done|]. split; [by apply (files_next 7)|done]. }
    apply (triple_then 8); [|lia|clear v; intros v|exact He].
    { intros Hr. eapply triple_pre; [apply triple_step; [done|]|].
      - intros I d. apply triple_ensured; [apply mild_add, harmless_columns; vm_compute; intuition discriminate|apply kept_by_refl|]. intros d1 K1.
        apply triple_rest; [done|done|apply Forall_singleton, mild_version|done].
      - intros s (Hb & Hs & Hr' & Hf & Hn). split; [done|]. split; [done|]. split; [done|]. split; [by apply (files_next 8)|done]. }
    apply (triple_then 9); [|lia|clear v; intros v|exact He].
    { intros Hr. apply triple_list; [done|lia|apply to_v10_advances]. }
    apply (triple_then 10); [|lia|clear v; intros v|exact He].
    { intros Hr. apply triple_list; [done|lia|apply to_v11_advances]. }
    apply (triple_then 11); [|lia|clear v; intros v|exact He].
    { intros Hr. apply triple_list; [done|lia|apply to_v12_advances]. }
    apply triple_ret. intros s [Hs Hp]. assert (safe s) as Hx by (revert Hs; apply stage_safe; lia). destruct ((v <? 1) || (12 <? v)) eqn:Ev; [by apply He|].
    split; [done|]. intros v' [= <-]. apply orb_false_iff in Ev as [E1%Z.ltb_ge E2%Z.ltb_ge]. split; [apply Hs|]. split; [lia|]. intros Hr. specialize (Hp Hr). lia.
  - intros s [-> E]. specialize (E v eq_refl). injection E as <-. split; [|lia]. split; [by split; [apply preserved_refl|]|]. split; [done|]. split; [done|]. split; [|done].
    unfold files_at. destruct (Z.leb_spec (db_Version (k_Db s0)) 4); [done|lia].
Qed.
End opening.

(** C9. An upgrade loses nothing and releases nothing: opening a catalogue of any
    release, whatever call fails and wherever the process stops, leaves every row of
    every table with all that it held, the table of leases excepted, whose row version 8
    resets on purpose; no operation has begun that had not, a hold of before is a pause
    that only the administrator ends, no activation and no resumption becomes due.  When
    the tables were rebuilt for version 5, and no file was at the name of the cold copy
    before, the whole earlier catalogue is there; a private regular file that was there
    is taken for the copy without a look at what it holds, and stays.  A reader changes
    nothing; and a writer that succeeds has version 12. *)
Theorem upgrade_keeps fate_of short image exposed path readonly n s :
  tidy (k_Db s) -> (db_Version (k_Db s) <= 4 -> rebuildable (k_Db s)) ->
  let '(r, (_, s')) := Open fate_of short image exposed path readonly (n, s) in
  preserved (k_Db s) (k_Db s') /\
  (5 <= db_Version (k_Db s') -> db_Version (k_Db s) <= 4 -> saved image exposed path s s') /\
  (readonly = true -> s' = s) /\
  (forall v, r = Some (Ok v) -> db_Version (k_Db s') = v /\ (readonly = false -> v = 12)).
Proof.
  intros Ht Hv. pose proof (triple_opening fate_of short image exposed path readonly s Ht Hv n s eq_refl) as Ho.
  destruct (Open _ _ _ _ _ _ (n, s)) as [[r|] [n' s']].
  - destruct Ho as [([Hp _] & Hs & Hr) Hok]. split; [done|]. split; [done|]. split; [done|]. intros v [= ->]. destruct (Hok v eq_refl) as (E & _ & H12). by split.
  - destruct Ho as ([Hp _] & Hs & Hr). split; [done|]. split; [done|]. by split.
Qed.

(** ** A catalogue of the first release *)
Module FirstRelease.
Definition profiles : table := new_table None
  [nullable (column_of "name"); column_of "total_bytes"; column_of "max_backup_bytes"; column_of "uploads_per_day"; column_of "concurrent_uploads"]
  [["name"%string]] [] no_check.
Definition keys : table := new_table None
  [nullable (column_of "id"); column_of "name"; column_of "token_hash"; column_of "profile"; int_default "revoked" 0]
  [["id"]; ["token_hash"]]%string [refers "profile" "profiles" "name"] no_check.
Definition copies : table := new_table None
  [nullable (column_of "id"); column_of "key_id"; column_of "description"; column_of "original_name"; column_of "size_bytes"; column_of "sha256";
   column_of "status"; column_of "started_at"; text_default "received_at" ""; text_default "failure" ""] [["id"%string]] [] no_check.
Definition row_of (l : list (string * value)) : row := list_to_map l.
Definition legacy_copy : row := row_of [("id", Text "00112233445566778899aabbccddeeff"); ("key_id", Text "legacy-key"); ("description", Text "old");
  ("original_name", Text "old.sql"); ("size_bytes", Int 3); ("sha256", Text "aaaa"); ("status", Text "complete"); ("started_at", Int 1);
  ("received_at", Text "2026-01-01T00:00:00Z")]%string.
Definition statements : list sql :=
  [ create_table false "profiles" profiles; create_table false "keys" keys; create_table false "backups" copies;
    insert_rows "profiles" [row_of [("name", Text "legacy"); ("total_bytes", Int 100); ("max_backup_bytes", Int 100); ("uploads_per_day", Int 10); ("concurrent_uploads", Int 1)]%string];
    insert_rows "keys" [row_of [("id", Text "legacy-key"); ("name", Text "legacy"); ("token_hash", Text "hash"); ("profile", Text "legacy")]%string];
    insert_rows "backups" [legacy_copy]; set_version 1 ].
Definition nothing : database := Database ∅ ∅ 0.
Definition catalog : database := default nothing (run_all statements nothing).
Definition installed : disk := Disk catalog (Some true) (Fs ∅ ∅).
Definition opens (fate_of : nat -> fate) (s : disk) := Open fate_of whole_writes (fun _ => "bytes"%string) (fun _ => false) "metadata.db" false (0%nat, s).
Lemma catalog_tidy : tidy catalog.
Proof.
  assert (preserved nothing catalog /\ tidy catalog) as [_ Ht]; [|exact Ht]. apply (run_all_mild statements); [|by intros ? ? ? E|by vm_compute].
  repeat (apply Forall_cons_2; [first [by apply mild_create|apply mild_insert_rows|apply mild_version]|]). apply Forall_nil_2.
Qed.
Lemma catalog_rebuildable : rebuildable catalog.
Proof.
  left. split; intros t Ht c Hc; vm_compute in Ht; [|done]. injection Ht as <-. vm_compute in Hc |- *. tauto.
Qed.
(** It is opened and brought to the present version. *)
Lemma first_release_opens : fst (opens faultless installed) = Some (Ok 12).
Proof. by vm_compute. Qed.
(** The run that stops in the copying of the catalogue leaves the temporary file, and no
    later one goes on. *)
Definition stopped : nat -> fate := fun i => if Nat.eqb i 23 then StopsLate else Works.
Lemma stopped_copy_blocks : fst (opens stopped installed) = None /\
  fst (opens faultless (snd (snd (opens stopped installed)))) = Some (Err (OsError EEXIST)).
Proof. by vm_compute. Qed.
End FirstRelease.
Lemma upgrade_keeps_witness : tidy FirstRelease.catalog /\ rebuildable FirstRelease.catalog /\
  let '(r, (_, s')) := Open FirstRelease.stopped whole_writes (fun _ => "bytes"%string) (fun _ => false) "metadata.db" false (0%nat, FirstRelease.installed) in
  preserved FirstRelease.catalog (k_Db s') /\
  (5 <= db_Version (k_Db s') -> db_Version FirstRelease.catalog <= 4 -> saved (fun _ => "bytes"%string) (fun _ => false) "metadata.db" FirstRelease.installed s') /\
  (false = true -> s' = FirstRelease.installed) /\
  (forall v, r = Some (Ok v) -> db_Version (k_Db s') = v /\ (false = false -> v = 12)).
Proof.
  split; [exact FirstRelease.catalog_tidy|]. split; [exact FirstRelease.catalog_rebuildable|].
  exact (upgrade_keeps FirstRelease.stopped whole_writes (fun _ => "bytes"%string) (fun _ => false) "metadata.db" false 0 FirstRelease.installed
    FirstRelease.catalog_tidy (fun _ => FirstRelease.catalog_rebuildable)).
Defined.
