(* ===== verification/Schemata.v ===== *)
(** The migrations lead to the schema of a new archive: whatever rows a catalogue holds,
    its tables after an upgrade have the columns, keys, references and indexes that
    [Init] gives ([schema] of [src/internal/store/store.go]). *)
From S2P Require Import Prelude GoTime GoString Model Catalog Io Writer Files Cryptfile Encryption Private Front Sending Tables Upgrade Upgrading.

(** ** The schema of a new archive *)
Definition schema_profiles : table := new_table None
  [nullable (column_of "name"); checked (int_where (fun z => 0 <? z)) (column_of "total_bytes"); checked (int_where (fun z => 0 <? z)) (column_of "max_backup_bytes");
   checked (int_where (fun z => 0 <? z)) (column_of "uploads_per_day"); checked (int_where (fun z => 0 <? z)) (column_of "concurrent_uploads")]
  [["name"%string]] [] (ints_where "max_backup_bytes" "total_bytes" Z.leb).
Definition schema_keys : table := new_table None
  [nullable (column_of "id"); column_of "name"; column_of "token_hash"; column_of "profile"; int_default "revoked" 0]
  [["id"]; ["token_hash"]]%string [refers "profile" "profiles" "name"] no_check.
Definition schema_automation : table := new_table (Some "id"%string)
  [checked (int_where (fun z => z =? 1)) (nullable (column_of "id")); int_default "enabled" 1; int_default "mail_tested" 0;
   text_default "monitoring_state" "APPRENDIMENTO"; int_default "deletion_blocked" 1; text_default "block_reason" "automazione non configurata";
   flag_column "manual_paused"; text_default "manual_pause_reason" "";
   checked zero_or_one (int_default "activation_pending" 1); checked zero_or_one (int_default "activation_required" 1);
   flag_column "resume_pending"; int_default "resume_requested_at" 0; checked (int_where (fun z => 1 <=? z)) (int_default "mail_config_version" 1);
   text_default "timezone" ""; checked (int_where (fun z => 7 <=? z)) (int_default "retention_days" 7);
   checked (int_where (fun z => (1 <=? z) && (z <=? 10000))) (int_default "threshold_basis_points" 8000);
   checked (int_where (fun z => 0 <=? z)) (int_default "reserve_free" 0); int_default "model_revision" 0; int_default "last_check_at" 0;
   int_default "next_report_at" 0; text_default "smtp_host" ""; int_default "smtp_port" 0; int_default "smtp_tls" 1;
   text_default "mail_from" ""; text_default "mail_to" ""] [["id"%string]] [] no_check.
Definition schema_anomalies : table := new_table (Some "id"%string)
  [nullable (column_of "id"); column_of "stable_key"; column_of "kind"; text_default "key_id" ""; text_default "backup_id" ""; column_of "detail";
   column_of "event_at"; column_of "opened_at"; column_of "last_seen_at"; int_default "resolved_at" 0; int_default "acknowledged_at" 0;
   text_default "resolved_by" ""; text_default "resolution_note" ""] [["id"%string]] [] no_check.
Definition schema_operations : table :=
  retention_operations <| t_Columns ::= (fun l => l ++ [generation_column "lease_generation"; flag_column "execution_committed"]) |>.
Definition schema_leases : table := maintenance_leases <| t_Columns ::= (fun l => l ++ [generation_column "generation"]) |>.
Definition schema : list sql :=
  [ create_table true "profiles" schema_profiles;
    create_table true "keys" schema_keys;
    create_table true "backups" backups;
    create_index true "backups_key_state" (plain_index "backups" ["key_id"; "status"]%string);
    create_index true "backups_key_time" (plain_index "backups" ["key_id"; "started_at"]%string);
    create_index true "backups_key_idempotency" idempotency_index;
    create_table true "upload_attempts" upload_attempts;
    create_index true "upload_attempts_key_time" attempts_index;
    create_table true "automation_state" schema_automation;
    insert_or_ignore "automation_state" only_row;
    create_table true "key_retention" key_retention;
    create_table true "monitoring_models" monitoring_models;
    create_table true "anomalies" schema_anomalies;
    create_index true "anomalies_active_key" (unique_index "anomalies" ["stable_key"%string] (fun r => bool_decide (field "resolved_at" r = Int 0)));
    create_index true "anomalies_active" (plain_index "anomalies" ["resolved_at"; "last_seen_at"]%string);
    create_table true "retention_operations" schema_operations;
    create_index true "retention_operations_backup" (plain_index "retention_operations" ["backup_id"; "id"]%string);
    create_index true "retention_operations_active" (unique_index "retention_operations" ["backup_id"%string] active_state);
    create_table true "anomaly_exclusions" anomaly_exclusions;
    create_table true "anomaly_exclusion_kinds" anomaly_exclusion_kinds;
    create_table true "mail_queue" mail_queue;
    create_table true "maintenance_leases" schema_leases;
    insert_or_ignore "maintenance_leases" only_row;
    create_table true "monitoring_checks" monitoring_checks;
    create_index true "monitoring_checks_started" (plain_index "monitoring_checks" ["started_at"%string]);
    create_table true "monitoring_check_models" monitoring_check_models;
    create_index true "monitoring_check_models_resume" (plain_index "monitoring_check_models" ["key_id"; "revision"; "covered_to"]%string);
    set_version 12 ].
Definition new_catalog : database := default FirstRelease.nothing (run_all schema FirstRelease.nothing).

(** ** The description of a catalogue

    Columns, in any order, with their NOT NULL, keys, references; indexes; version.  Rows,
    defaults and CHECKs are left out. *)
Definition table_description : Type := gset (string * bool) * list (list string) * list (list string * string * list string).
Definition index_description : Type := string * list string * bool.
Definition description : Type := gmap string table_description * gmap string index_description * Z.
Definition describe_table (t : table) : table_description :=
  (list_to_set (map (fun c => (c_Name c, c_NotNull c)) (t_Columns t)), t_Keys t, map (fun f => (f_From f, f_Table f, f_To f)) (t_References t)).
Definition describe_index (x : index) : index_description := (x_Table x, x_Columns x, x_Unique x).
Definition describe (d : database) : description := (describe_table <$> db_Tables d, describe_index <$> db_Indexes d, db_Version d).

(** *** What the statements do to it *)
Definition effect : Type := description -> description.
Definition put_described (name : string) (t : table_description) : effect := fun '(T, x, v) => (<[name := t]> T, x, v).
Definition column_described (name : string) (c : column) : effect := fun '(T, x, v) =>
  (alter (fun '(cols, keys, refs) => ({[(c_Name c, c_NotNull c)]} ∪ cols, keys, refs)) name T, x, v).
Definition create_described (b : bool) (name : string) (t : table) : effect := fun '(T, x, v) =>
  if b && bool_decide (is_Some (T !! name)) then (T, x, v) else (<[name := describe_table t]> T, x, v).
Definition redirect_described (old new : string) : table_description -> table_description := fun '(cols, keys, refs) =>
  (cols, keys, map (fun '(from, to, cols) => (from, redirect old new to, cols)) refs).
Definition rename_described (old new : string) : effect := fun '(T, x, v) =>
  (redirect_described old new <$> match T !! old with Some t => <[new := t]> (delete old T) | None => T end,
   (fun '(t, cols, unique) => (redirect old new t, cols, unique)) <$> x, v).
Definition drop_described (name : string) : effect := fun '(T, x, v) =>
  (delete name T, filter (fun kx : string * index_description => fst (fst (snd kx)) <> name) x, v).
Definition index_described (b : bool) (name : string) (i : index) : effect := fun '(T, x, v) =>
  if b && bool_decide (is_Some (x !! name)) then (T, x, v) else (T, <[name := describe_index i]> x, v).
Definition unindex_described (name : string) : effect := fun '(T, x, v) => (T, delete name x, v).
Definition version_described (v : Z) : effect := fun '(T, x, _) => (T, x, v).
Definition column_in (name c : string) (D : description) : bool :=
  match D.1.1 !! name with Some (cols, _, _) => bool_decide (c ∈ (set_map fst cols : gset string)) | None => false end.
Definition ensure_described (name : string) (c : column) : effect := fun D => if column_in name (c_Name c) D then D else column_described name c D.

Definition described (st : sql) (f : effect) : Prop := forall d d', st d = Some d' -> describe d' = f (describe d).
Lemma describe_lookup d name : (describe d).1.1 !! name = describe_table <$> db_Tables d !! name.
Proof. apply lookup_fmap. Qed.
Lemma describe_put name t d : describe (put_table name t d) = put_described name (describe_table t) (describe d).
Proof. destruct d as [T x v]. unfold describe, put_table. cbn. by rewrite fmap_insert. Qed.
(** A table of which only the rows changed. *)
Lemma put_same name t t' d : db_Tables d !! name = Some t -> describe_table t' = describe_table t -> describe (put_table name t' d) = describe d.
Proof.
  intros Ht Hd. rewrite describe_put, Hd. destruct d as [T x v]. unfold describe, put_described. cbn in *. f_equal. f_equal. apply insert_id. by rewrite lookup_fmap, Ht.
Qed.
Lemma described_version v : described (set_version v) (version_described v).
Proof. by intros d d' [= <-]. Qed.
Lemma described_drop_index name : described (drop_index name) (unindex_described name).
Proof. intros [T x v] d' [= <-]. unfold describe. cbn. by rewrite fmap_delete. Qed.
Lemma described_create b name t : described (create_table b name t) (create_described b name t).
Proof.
  intros d d'. unfold create_table, create_described. pose proof (describe_lookup d name) as Hl. destruct d as [T x v]. cbn in Hl |- *. rewrite Hl.
  destruct (T !! name); cbn; [destruct b; [by intros [= <-]|done]|]. rewrite andb_false_r. intros [= <-]. apply (describe_put name t (Database T x v)).
Qed.
Lemma described_add name c : described (add_column name c) (column_described name c).
Proof.
  intros d d'. unfold add_column. destruct (db_Tables d !! name) as [t|] eqn:Et; [|done]. cbn [mbind option_bind]. destruct (_ || _); [done|]. intros [= <-].
  rewrite describe_put. destruct d as [T x v]. unfold describe, put_described, column_described. cbn in *. f_equal. f_equal. apply map_eq. intros k.
  destruct (decide (name = k)) as [<-|Hne]; [|by rewrite lookup_insert_ne, lookup_alter_ne by done].
  rewrite lookup_insert_eq, lookup_alter_eq, lookup_fmap, Et. cbn. unfold describe_table. cbn. do 3 f_equal. rewrite map_app, list_to_set_app_L. cbn. set_solver.
Qed.
Lemma described_index b name i : described (create_index b name i) (index_described b name i).
Proof.
  intros [T x v] d'. unfold create_index, index_described. cbn. rewrite lookup_fmap. destruct (x !! name); cbn; [destruct b; [by intros [= <-]|done]|].
  destruct (T !! x_Table i); [|done]. cbn. destruct (_ && _); [|done]. rewrite andb_false_r. intros [= <-]. unfold describe. cbn. by rewrite fmap_insert.
Qed.
Lemma described_rename old new : described (rename_table old new) (rename_described old new).
Proof.
  intros [T x v] d'. unfold rename_table, rename_described. cbn. rewrite lookup_fmap. destruct (T !! old) as [t|]; [|done]. cbn. destruct (T !! new); [done|]. intros [= <-].
  unfold describe. cbn. f_equal. f_equal.
  - rewrite <- fmap_delete, <- fmap_insert, <- !map_fmap_compose. apply map_fmap_ext. intros k t' _. cbn. unfold describe_table, redirect_described, redirect_table. cbn. f_equal.
    rewrite !map_map. by apply map_ext.
  - rewrite <- !map_fmap_compose. by apply map_fmap_ext.
Qed.
Lemma described_drop name : described (drop_table name) (drop_described name).
Proof.
  intros [T x v] d'. unfold drop_table, drop_described. cbn. destruct (T !! name); [|done]. destruct (referred _ name); [done|]. intros [= <-].
  unfold describe. cbn. f_equal. f_equal; [by rewrite fmap_delete|]. apply map_eq. intros k. apply option_eq. intros i.
  rewrite lookup_fmap, map_lookup_filter_Some, lookup_fmap, fmap_Some. setoid_rewrite map_lookup_filter_Some. rewrite fmap_Some. cbn. naive_solver.
Qed.
Lemma described_update name cols f : described (update name cols f) id.
Proof. intros d d' (t & Ht & _ & _ & ->)%update_inv. by apply (put_same _ t). Qed.
Lemma described_insert_row name r : described (insert_row name r) id.
Proof.
  intros d d'. unfold insert_row. destruct (db_Tables d !! name) as [t|] eqn:Et; [|done]. cbn. destruct (_ && _); [|done]. intros [= <-]. by apply (put_same _ t).
Qed.
Lemma described_insert_rows name rows : described (insert_rows name rows) id.
Proof.
  induction rows as [|r rows IH]; intros d d'; cbn; [by intros [= <-]|]. destruct (insert_row name r d) as [d1|] eqn:E; [|done]. intros E1.
  by rewrite (IH d1 d' E1), (described_insert_row name r d d1 E).
Qed.
Lemma described_select name query : described (insert_select name query) id.
Proof. intros d d'. unfold insert_select. destruct (query d) as [rows|]; [|done]. apply described_insert_rows. Qed.
Lemma described_ignore name r : described (insert_or_ignore name r) id.
Proof.
  intros d d'. unfold insert_or_ignore. destruct (db_Tables d !! name); [|done]. intros [= <-]. destruct (insert_row name r d) as [d1|] eqn:E; [|done]. by apply (described_insert_row name r).
Qed.
Lemma column_in_spec name c d : column_in name c (describe d) = has c (columns_of name d).
Proof.
  unfold column_in, columns_of. rewrite describe_lookup. destruct (db_Tables d !! name) as [t|]; [|done]. cbn. unfold column_names, has.
  case_bool_decide as H; symmetry.
  - apply existsb_exists. apply elem_of_map in H as ([c' b] & -> & Hin). apply elem_of_list_to_set, list_elem_of_In, in_map_iff in Hin as (col & E & Hc).
    injection E as <- <-. exists (c_Name col). split; [by apply in_map|apply String.eqb_refl].
  - apply not_true_is_false. intros (x & Hx & ->%String.eqb_eq)%existsb_exists. apply H. apply in_map_iff in Hx as (col & <- & Hc).
    apply elem_of_map. exists (c_Name col, c_NotNull col). split; [done|]. apply elem_of_list_to_set, list_elem_of_In, in_map_iff. by exists col.
Qed.
Lemma described_ensured name c d d' : ensured name c d d' -> describe d' = ensure_described name c (describe d).
Proof. unfold ensured, ensure_described. rewrite column_in_spec. destruct (has _ _); [by intros ->|apply described_add]. Qed.

(** *** What lists of statements do *)
Definition after (fs : list effect) (D : description) : description := fold_left (fun D f => f D) fs D.
Lemma after_app fs fs' D : after (fs ++ fs') D = after fs' (after fs D).
Proof. apply fold_left_app. Qed.
Lemma run_all_described l fs d d' : Forall2 described l fs -> run_all l d = Some d' -> describe d' = after fs (describe d).
Proof.
  intros Hl. revert d. induction Hl as [|st f l fs Hst _ IH]; intros d E; cbn in E |- *; [by injection E as <-|].
  destruct (st d) as [d1|] eqn:E1; [|done]. by rewrite <- (Hst d d1 E1), (IH d1 E).
Qed.

(** ** The descriptions of the releases

    Each migration, as what it does to a description. *)
Definition effects : list (list effect) :=
  [ [column_described "backups" content_format; version_described 2];
    [column_described "backups" idempotency_key; index_described false "backups_key_idempotency" idempotency_index; version_described 3];
    [create_described false "upload_attempts" upload_attempts; index_described false "upload_attempts_key_time" attempts_index; id; version_described 4];
    [rename_described "upload_attempts" "upload_attempts_v4"; rename_described "backups" "backups_v4";
     create_described false "backups" backups; id; create_described false "upload_attempts" upload_attempts; id;
     drop_described "upload_attempts_v4"; drop_described "backups_v4";
     index_described false "backups_key_state" (plain_index "backups" ["key_id"; "status"]%string);
     index_described false "backups_key_time" (plain_index "backups" ["key_id"; "started_at"]%string);
     index_described false "backups_key_idempotency" idempotency_index; index_described false "upload_attempts_key_time" attempts_index;
     create_described true "automation_state" automation_state; id; create_described true "monitoring_models" monitoring_models;
     create_described true "anomalies" anomalies;
     index_described true "anomalies_active_key" (unique_index "anomalies" ["stable_key"%string] (fun r => bool_decide (field "resolved_at" r = Int 0)));
     index_described true "anomalies_active" (plain_index "anomalies" ["resolved_at"; "last_seen_at"]%string);
     create_described true "retention_operations" retention_operations;
     index_described true "retention_operations_backup" (plain_index "retention_operations" ["backup_id"; "id"]%string);
     index_described true "retention_operations_active" (unique_index "retention_operations" ["backup_id"; "kind"]%string active_state);
     create_described true "mail_queue" mail_queue; create_described true "maintenance_leases" maintenance_leases; id; version_described 5];
    [column_described "anomalies" (text_default "resolved_by" ""); column_described "anomalies" (text_default "resolution_note" "");
     column_described "anomalies" (int_default "event_at" 0); id; unindex_described "retention_operations_active";
     index_described false "retention_operations_active" (unique_index "retention_operations" ["backup_id"%string] active_state);
     create_described true "anomaly_exclusions" anomaly_exclusions; create_described true "anomaly_exclusion_kinds" anomaly_exclusion_kinds; version_described 6];
    [create_described false "monitoring_checks" monitoring_checks;
     index_described false "monitoring_checks_started" (plain_index "monitoring_checks" ["started_at"%string]);
     create_described false "monitoring_check_models" monitoring_check_models;
     index_described false "monitoring_check_models_resume" (plain_index "monitoring_check_models" ["key_id"; "revision"; "covered_to"]%string); version_described 7];
    [ensure_described "maintenance_leases" (generation_column "generation"); ensure_described "retention_operations" (generation_column "lease_generation");
     id; version_described 8];
    [ensure_described "retention_operations" (flag_column "execution_committed"); version_described 9];
    [column_described "automation_state" (flag_column "manual_paused"); column_described "automation_state" (text_default "manual_pause_reason" ""); id;
     create_described false "key_retention" key_retention; id; version_described 10];
    [column_described "automation_state" (flag_column "activation_pending"); column_described "automation_state" (flag_column "activation_required");
     column_described "automation_state" (flag_column "resume_pending"); column_described "automation_state" (int_default "resume_requested_at" 0); version_described 11];
    [column_described "automation_state" (checked (int_where (fun z => 1 <=? z)) (int_default "mail_config_version" 1)); version_described 12] ].
(** The description of release [v]: that of the first, as the test of the migrations creates it
    ([store_test.go]), and of what the migrations made of it; of the twelfth, that of [Init]. *)
Definition release (v : Z) : description := after (concat (firstn (Z.to_nat (v - 1)) effects)) (describe FirstRelease.catalog).
Lemma next_release k fs : nth_error effects k = Some fs -> after fs (release (Z.of_nat k + 1)) = release (Z.of_nat k + 1 + 1).
Proof.
  intros Hk. unfold release. replace (Z.to_nat (Z.of_nat k + 1 - 1)) with k by lia. replace (Z.to_nat (Z.of_nat k + 1 + 1 - 1)) with (S k) by lia.
  rewrite <- after_app. f_equal. revert k Hk. induction effects as [|x o IH]; intros [|k] Hk; try done; cbn in Hk; [injection Hk as ->; by rewrite !firstn_cons; cbn; rewrite app_nil_r|].
  rewrite !firstn_cons. cbn [concat]. by rewrite <- app_assoc, (IH k Hk).
Qed.
Lemma last_release : release 12 = describe new_catalog.
Proof. apply (bool_decide_unpack _). vm_compute. exact I. Qed.

(** ** The steps *)
Create HintDb described.
#[local] Hint Resolve described_version described_drop_index described_add described_index described_rename described_drop described_update : described.
#[local] Hint Resolve described_create described_insert_rows described_select described_ignore : described.
Ltac depicted := repeat first [apply Forall2_nil_2|apply Forall2_cons_2; [solve [auto with described]|]].
(** From the description of one release to that of the next. *)
Definition becomes (v : Z) (d d' : database) : Prop := describe d = release v -> describe d' = release (v + 1).
Lemma list_becomes v l fs d d' : Forall2 described l fs -> after fs (release v) = release (v + 1) -> run_all l d = Some d' -> becomes v d d'.
Proof. intros Hl Hfs E Hd. by rewrite (run_all_described l fs d d' Hl E), Hd. Qed.
Lemma v4_columns : column_in "backups" "quarantined_at" (release 4) = false.
Proof. by vm_compute. Qed.
Lemma v5_columns : forallb (fun c => negb (column_in "anomalies" c (release 5))) ["resolved_by"; "resolution_note"; "event_at"]%string = true.
Proof. by vm_compute. Qed.
Lemma releases_version v : 1 <= v <= 12 -> (release v).2 = v.
Proof.
  intros Hv. assert (forallb (fun v => (release v).2 =? v) (map Z.of_nat (seq 1 12)) = true) as Hall by (by vm_compute).
  rewrite forallb_forall in Hall. apply Z.eqb_eq, Hall, in_map_iff. exists (Z.to_nat v). split; [lia|]. apply in_seq. lia.
Qed.
#[local] Opaque release.
Section opening.
Context (fate_of : nat -> fate) (short : nat -> option Z) (image : database -> string) (exposed : string -> bool) (path : string).
Abbreviation whatever := (fun _ : disk => True).
Definition at_release (v : Z) (s : disk) : Prop := describe (k_Db s) = release v.
Definition to_release (v : Z) (m : Io.io disk (result failure unit)) : Prop :=
  triple (at_release v) m (fun r s => r = Ok tt -> at_release (v + 1) s) whatever.
Lemma becomes_step v body : (forall (I : disk -> Prop) d, triple I (body d) (fun r s => I s /\ forall d', r = Ok d' -> becomes v d d') I) ->
  to_release v (transaction fate_of body).
Proof.
  intros Hbody. eapply triple_weaken; [apply (triple_transaction fate_of (at_release v) (at_release (v + 1)) (becomes v))|done|by intros r s [Hr _]|done].
  - intros d n s Hs. specialize (Hbody (fun s => at_release v s /\ k_Db s = d) d n s Hs). by destruct (body d (n, s)) as [[r|] [n' s']]; [|destruct Hbody].
  - intros s d' Hs Hd. by apply Hd.
Qed.
Lemma list_step v l fs : Forall2 described l fs -> after fs (release v) = release (v + 1) -> to_release v (transaction fate_of (exec_all fate_of l)).
Proof.
  intros Ho Hk. apply becomes_step. intros I d. eapply triple_weaken; [apply (triple_exec fate_of I)|done| |done]. intros r s [Hs E]. split; [done|].
  intros d' Hr. by apply (list_becomes v l fs d d' Ho Hk), E.
Qed.
Lemma look_at {A} v (f : database -> option A) : triple (at_release v) (look fate_of f) (fun r s => at_release v s /\ forall a, r = Ok a -> f (k_Db s) = Some a) whatever.
Proof. eapply triple_weaken; [apply triple_looked|done|done|done]. Qed.
Lemma v5_release : to_release 4 (migrateV4ToV5 fate_of short image exposed path).
Proof.
  unfold to_release, migrateV4ToV5. apply (triple_try _ _ _ _ (fun _ => at_release 4)); [eapply triple_weaken; [apply look_at|done|by intros r s []|done]|intros []|done].
  intros n s Hs. unfold committed, mbind, io_bind.
  match goal with |- match ?m (n, s) with _ => _ end => assert (triple (at_release 4) m (fun r s => r = Ok tt -> at_release 5 s) whatever) as Hm; [|exact (Hm n s Hs)] end.
  apply (triple_try _ _ _ _ (fun _ => at_release 4)); [|intros []|done].
  { eapply triple_weaken; [apply (triple_lift k_Files (fun f t => t <| k_Files := f |>) (at_release 4) (fun _ => True) _ (fun _ _ => True) (fun _ => True))| | |].
    - intros f t. reflexivity.
    - intros f t Ht. exact Ht.
    - intros n1 f _. by destruct (coldCopy _ _ _ _ _ _) as [[?|] [? ?]].
    - intros x Hx. exact (conj I Hx).
    - intros r x [_ Hx]. exact Hx.
    - intros x _. exact I. }
  apply (triple_try _ _ _ _ (fun r x => at_release 4 x /\ forall l, r = Ok l -> has "quarantined_at" l = column_in "backups" "quarantined_at" (release 4))); [|intros l|by intros e x _].
  { eapply triple_weaken; [apply look_at|done| |done]. intros r x [Hx E]. split; [done|]. intros l Hl. specialize (E l Hl). injection E as <-. by rewrite <- Hx, column_in_spec. }
  intros n1 s1 [Hs1 E]. rewrite (E l eq_refl). rewrite v4_columns.
  revert n1 s1 Hs1 E. match goal with |- forall n1 s1, _ -> _ -> match ?m (n1, s1) with _ => _ end =>
    assert (triple (at_release 4) m (fun r s => r = Ok tt -> at_release 5 s) whatever) as Hr; [|by intros n1 s1 Hs1 _; exact (Hr n1 s1 Hs1)] end.
  apply (triple_try _ _ _ _ (fun r x => r = Ok tt -> at_release 5 x)); [apply (list_step 4 to_v5 (nth 3 effects [])); [unfold to_v5; depicted|exact (next_release 3 _ eq_refl)]|intros []|done].
  apply (triple_pre _ (at_release 5)); [|by intros x Hx; apply Hx].
  apply (triple_try _ _ _ _ (fun _ => at_release 5)); [eapply triple_weaken; [apply look_at|done|by intros r x []|done]|intros []|done].
  eapply triple_weaken; [apply look_at|done|by intros r x [Hx _]|done].
Qed.
Lemma v6_release : to_release 5 (migrateV5ToV6 fate_of).
Proof.
  unfold to_release, migrateV5ToV6. apply (triple_try _ _ _ _ (fun r x => at_release 5 x /\ forall l, r = Ok l -> to_v6 l = to_v6 [])); [|intros l|by intros e x _].
  { eapply triple_weaken; [apply look_at|done| |done]. intros r x [Hx E]. split; [done|]. intros l Hl. specialize (E l Hl). injection E as <-.
    pose proof v5_columns as Hc. rewrite <- Hx in Hc. cbn [forallb] in Hc. rewrite !column_in_spec, !andb_true_iff, !negb_true_iff in Hc.
    destruct Hc as (H1 & H2 & H3 & _). unfold to_v6. by rewrite H1, H2, H3. }
  intros n s [Hs E]. rewrite (E l eq_refl).
  refine (list_step 5 (to_v6 []) (nth 4 effects []) _ (next_release 4 _ eq_refl) n s Hs). unfold to_v6. cbn [has existsb app nth effects]. depicted.
Qed.
Lemma ensured_step (I : disk -> Prop) v name c d d0 D (rest : database -> Io.io disk (result failure database)) :
  (describe d0 = release v -> describe d = D) ->
  (forall d1, (describe d0 = release v -> describe d1 = ensure_described name c D) -> triple I (rest d1) (fun r s => I s /\ forall d', r = Ok d' -> becomes v d0 d') I) ->
  triple I (d1 ←? ensure_column fate_of name c d; rest d1) (fun r s => I s /\ forall d', r = Ok d' -> becomes v d0 d') I.
Proof.
  intros Hd Hrest. eapply triple_bind; [apply triple_ensure|]. intros [d1|e]; [|apply triple_ret; by intros s [Hs _]].
  intros n s [Hs E]. apply Hrest; [|done]. intros H0. by rewrite (described_ensured name c d d1), Hd by auto.
Qed.
Lemma rest_step (I : disk -> Prop) v l fs d d0 D : Forall2 described l fs -> after fs D = release (v + 1) -> (describe d0 = release v -> describe d = D) ->
  triple I (exec_all fate_of l d) (fun r s => I s /\ forall d', r = Ok d' -> becomes v d0 d') I.
Proof.
  intros Hl Hfs Hd. eapply triple_weaken; [apply (triple_exec fate_of I)|done| |done]. intros r s [Hs E]. split; [done|]. intros d' Hr H0.
  by rewrite (run_all_described l fs d d' Hl (E d' Hr)), Hd.
Qed.
Lemma v8_release : to_release 7 (migrateV7ToV8 fate_of).
Proof.
  apply becomes_step. intros I d. apply (ensured_step I 7 _ _ d d (release 7)); [done|]. intros d1 H1.
  eapply (ensured_step I 7 _ _ d1 d); [exact H1|]. intros d2 H2.
  eapply (rest_step I 7 to_v8 [id; version_described 8] d2 d); [unfold to_v8; depicted|exact (next_release 6 _ eq_refl)|exact H2].
Qed.
Lemma v9_release : to_release 8 (migrateV8ToV9 fate_of).
Proof.
  apply becomes_step. intros I d. apply (ensured_step I 8 _ _ d d (release 8)); [done|]. intros d1 H1.
  eapply (rest_step I 8 [set_version 9] [version_described 9] d1 d); [depicted|exact (next_release 7 _ eq_refl)|exact H1].
Qed.
(** The migrations up to the one from [k] were passed. *)
Definition past (k v : Z) (s : disk) : Prop := at_release v s /\ k < v <= 12.
Lemma then_release k v m (rest : Z -> Io.io disk (result failure Z)) Q : to_release k m -> k <= 11 ->
  (forall v, triple (past k v) (rest v) Q whatever) -> (forall e s, Q (Err e) s) ->
  triple (past (k - 1) v) (v ←? migration_from k false m v; rest v) Q whatever.
Proof.
  intros Hm Hk Hrest He. apply (triple_try _ _ _ _ (fun r s => forall v', r = Ok v' -> past k v' s)); [| |by intros e s _].
  - unfold migration_from. destruct (Z.eqb_spec v k) as [->|Hne]; cbn [andb negb]; [|apply triple_ret; intros s [Hs Hv] v' [= <-]; split; [done|lia]].
    apply (triple_try _ _ _ _ (fun r s => r = Ok tt -> at_release (k + 1) s)); [eapply triple_pre; [exact Hm|by intros s []]|intros []|done].
    apply triple_ret. intros s Hs v' [= <-]. split; [by apply Hs|lia].
  - intros v'. eapply triple_pre; [apply Hrest|]. intros s Hs. by apply Hs.
Qed.
End opening.

Lemma open_release fate_of short image exposed path v0 : 1 <= v0 <= 12 -> (release v0).2 = v0 ->
  triple (at_release v0) (Open fate_of short image exposed path false) (fun r s => forall v, r = Ok v -> v = 12 /\ at_release 12 s) (fun _ => True).
Proof.
  intros Hv Hversion. assert (forall A (f : database -> option A), triple (at_release v0) (look fate_of f) (fun r s => at_release v0 s /\ forall a, r = Ok a -> f (k_Db s) = Some a) (fun _ => True)) as Hlook
    by (intros A f; apply look_at).
  unfold Open. apply (triple_try _ _ _ _ (fun _ => at_release v0)); [eapply triple_weaken; [apply Hlook|done|by intros r x []|done]|intros []|done].
  apply (triple_try _ _ _ _ (fun _ => at_release v0)); [apply triple_act; [apply _|done|done]|intros [|]|done]; cbn [negb]; [|by apply triple_ret].
  apply (triple_try _ _ _ _ (fun _ => at_release v0)); [eapply triple_weaken; [apply Hlook|done|by intros r x []|done]|intros []|done].
  apply (triple_try _ _ _ _ (fun _ => at_release v0)); [eapply triple_weaken; [apply Hlook|done|by intros r x []|done]|intros []|done].
  eapply triple_try; [apply Hlook|intros v|done]. apply (triple_pre _ (past (1 - 1) v)).
  - apply then_release; [|lia|clear v; intros v|done]; [apply (list_step _ 1 _ (nth 0 effects [])); [unfold to_v2; depicted|exact (next_release 0 _ eq_refl)]|].
    apply (then_release 2); [|lia|clear v; intros v|done]; [apply (list_step _ 2 _ (nth 1 effects [])); [unfold to_v3; depicted|exact (next_release 1 _ eq_refl)]|].
    apply (then_release 3); [|lia|clear v; intros v|done]; [apply (list_step _ 3 _ (nth 2 effects [])); [unfold to_v4; depicted|exact (next_release 2 _ eq_refl)]|].
    apply (then_release 4); [apply v5_release|lia|clear v; intros v|done].
    apply (then_release 5); [apply v6_release|lia|clear v; intros v|done].
    apply (then_release 6); [|lia|clear v; intros v|done]; [apply (list_step _ 6 _ (nth 5 effects [])); [unfold to_v7; depicted|exact (next_release 5 _ eq_refl)]|].
    apply (then_release 7); [apply v8_release|lia|clear v; intros v|done].
    apply (then_release 8); [apply v9_release|lia|clear v; intros v|done].
    apply (then_release 9); [|lia|clear v; intros v|done]; [apply (list_step _ 9 _ (nth 8 effects [])); [unfold to_v10; depicted|exact (next_release 8 _ eq_refl)]|].
    apply (then_release 10); [|lia|clear v; intros v|done]; [apply (list_step _ 10 _ (nth 9 effects [])); [unfold to_v11; depicted|exact (next_release 9 _ eq_refl)]|].
    apply (then_release 11); [|lia|clear v; intros v|done]; [apply (list_step _ 11 _ (nth 10 effects [])); [unfold to_v12; depicted|exact (next_release 10 _ eq_refl)]|].
    apply triple_ret. intros s [Hs Hl]. assert (v = 12) as -> by lia. intros v' E. cbn in E. injection E as <-. by split.
  - intros s [Hs E]. specialize (E v eq_refl). injection E as <-. assert (db_Version (k_Db s) = v0) as -> by (rewrite <- Hversion, <- Hs; done). split; [done|lia].
Qed.

