(* ===== verification/EndToEnd.v ===== *)
(** From the file of the client to the file that the recovery tool writes: the
    sender, the receiver, the writer, the archive and the recovery together. *)
From S2P Require Import Prelude GoTime GoString Model Policy Catalog Retention RetentionMachine Deposit Store Archive Io Writer.
From S2P Require Import Custody Reception Accepting Execution Api Serving System Files Cryptfile Encryption Restoration Front Client Sending.

Section end_to_end.
Context `{Platform, Age, Codec, Web} (linked : bool) (error_text : failure -> string) (decode : string -> string -> result err fields).

(** The circumstances of a sending: those of the writer, and what the others do to
    the slots of the receiver and on the disk of the client, what the network makes
    of a body, the space on the disk of the server, the random draws. *)
Record journey : Type := Journey {
  j_writer : circumstances; j_others : nat -> Z -> Z; j_disk : nat -> fs -> fs; j_transmit : nat -> reader -> reader;
  j_check : Z -> result err unit; j_ids : nat -> string; j_turns : nat;
  j_random : string; j_key : string; j_temps : string -> list string }.
Definition sent_by (j : journey) (o : options) (path : string) (m : metadata) : Io.io world (result failure receipt) :=
  let c := j_writer j in
  Send (j_disk j) (net_env (w_env c) (j_others j)) (w_fates c) (w_short c) (j_turns j)
    (Gateway_ServeHTTP (net_env (w_env c) (j_others j)) (w_fates c) (j_transmit j)
      (ServeHTTP (w_env c) (w_fates c) (w_clock c) (w_short c) (j_check j) (j_ids j)))
    o path m (j_random j) (j_key j) (j_temps j).
(** The others spare the deposits, this upload and these files. *)
Definition undisturbed (j : journey) (o : options) (path : string) : Prop :=
  Sparing linked (w_env (j_writer j)) (j_key j) /\ Apart (path :: j_temps j (op_EncryptedTempDir o)) (j_disk j).

Lemma Send_receipt j o path m si content w rc n w' : custody linked (n_server (w_net w)) -> undisturbed j o path ->
  named path si (Regular content) (w_files w) ->
  sent_by j o path m (0%nat, w) = (Some (Ok rc), (n, w')) ->
  exists sent y, bytes_sent content o (j_random j) sent /\ rc_Size rc = len sent /\ rc_SHA256 rc = sha256_hex sent /\
    keeps linked [y] (n_server (w_net w')) /\ b_Status y = BackupComplete /\ b_ID y = rc_ID rc /\ b_Size y = rc_Size rc /\ b_SHA256 y = rc_SHA256 rc.
Proof.
  intros Hs [Hsp Hap] Hf Hrun. assert (keeps linked [] (n_server (w_net w))) as Hk by done.
  pose proof (triple_Send linked [] (w_env (j_writer j)) (j_others j) (j_disk j) (w_fates (j_writer j)) (w_clock (j_writer j)) (w_short (j_writer j))
    (j_turns j) (j_check j) (j_ids j) (j_transmit j) (j_key j) path si content o m (j_random j) (j_temps j) Hap 0%nat w (conj Hf Hk)) as Ht.
  unfold sent_by in Hrun. unfold writer_front in Ht. rewrite Hrun in Ht.
  destruct Ht as (size & digest & (sent & Hb & -> & ->) & -> & -> & y & Hy & Hst & Hid & Hsz & Hdg).
  exists sent, y. repeat (split; [done|]). done.
Qed.

(** A receipt that the client returns means that the server has the very file,
    or its encryption: whatever was lost, repeated or cut on the way, whatever
    failed or stopped in the writer, the catalogue has the deposit of the receipt,
    with the size and SHA-256 of what was sent, and its file is whole in the archive
    or in the quarantine unless it has been deleted or its purge permitted since. *)
Lemma send_means_stored j o path m si content w rc n w' :
  reachable linked error_text decode (n_server (w_net w)) -> undisturbed j o path ->
  named path si (Regular content) (w_files w) ->
  sent_by j o path m (0%nat, w) = (Some (Ok rc), (n, w')) ->
  exists sent y, bytes_sent content o (j_random j) sent /\ rc_Size rc = len sent /\ rc_SHA256 rc = sha256_hex sent /\
    In y (d_backups (s_db (n_server (w_net w')))) /\ b_ID y = rc_ID rc /\ b_Size y = len sent /\ b_SHA256 y = sha256_hex sent /\
    (b_Status y = BackupDeleted \/ purge_permitted (n_server (w_net w')) (b_ID y) \/ stored (files (n_server (w_net w'))) y).
Proof.
  intros Hr Hu Hf Hrun. destruct (Send_receipt _ _ _ _ _ _ _ _ _ _ (reachable_custody _ _ _ _ Hr) Hu Hf Hrun)
    as (sent & y & Hb & Hsz & Hdg & Hk & Hst & Hid & Hys & Hyd).
  destruct (complete_row_later linked decode _ _ Hk Hst) as (x & Hx & Hxid & Hxs & Hxd & Hwhere).
  exists sent, x. rewrite Hxid, Hxs, Hxd, Hys, Hyd. repeat (split; [done|]). done.
Qed.

(** *** The rescue

    A computer with a copy of the archived file, its names and inodes, the name of
    the output, and the file of identities if there is one. *)
Record rescue : Type := Rescue {
  re_names : gmap string Z; re_files : gmap Z entry; re_archive : string; re_inode : Z; re_output : string;
  re_identity : string; re_identity_inode : Z; re_text : string; re_ids : list age_identity;
  re_verified : list string; re_plain : list string; re_turns : nat }.
Definition rescued (r : rescue) (size : Z) (digest : string) : Io.io fs (result failure unit) :=
  Recover alone faultless (fun _ => None) (re_turns r) (re_archive r) (re_output r) size digest (re_identity r) (re_verified r) (re_plain r).

(** The output and some temporary names are free, and there are turns enough. *)
Definition ready (r : rescue) (archived content : string) : Prop :=
  re_names r !! re_archive r = Some (re_inode r) /\ re_files r !! re_inode r = Some (Regular archived) /\
  re_output r <> ""%string /\ re_names r !! re_output r = None /\
  (forall p, In p (re_verified r) -> p <> re_output r /\ ~ In p (re_plain r)) /\ ~ In (re_output r) (re_plain r) /\
  (exists p, In p (re_verified r) /\ re_names r !! p = None) /\ (exists p, In p (re_plain r) /\ re_names r !! p = None) /\
  len archived < Z.of_nat (re_turns r) /\ len content < Z.of_nat (re_turns r).
(** What the library promises: these identities open what was encrypted to a recipient. *)
Definition opens (ids : list age_identity) (recipient : age_recipient) : Prop :=
  forall random chunks, exists body, age_Decrypt ids (age_file random recipient chunks) = Ok body /\
    progressing body /\ delivered body = (joined chunks, EOF).
Definition has_key (r : rescue) (o : options) : Prop :=
  if String.eqb (op_EncryptTo o) "" then re_identity r = ""%string
  else re_identity r <> ""%string /\ re_names r !! re_identity r = Some (re_identity_inode r) /\
    re_files r !! re_identity_inode r = Some (Regular (re_text r)) /\ len (re_text r) <= maxIdentityBytes /\
    ParseIdentities (re_text r) = Ok (re_ids r) /\ re_ids r <> [] /\
    forall recipient, ParseX25519Recipient (trim_space (op_EncryptTo o)) = Ok recipient -> opens (re_ids r) recipient.

Lemma rescue_delivers r o random archived content : bytes_sent content o random archived -> has_key r o ->
  (re_identity r <> ""%string -> re_names r !! re_identity r = Some (re_identity_inode r) /\
     re_files r !! re_identity_inode r = Some (Regular (re_text r)) /\ len (re_text r) <= maxIdentityBytes /\ ParseIdentities (re_text r) = Ok (re_ids r)) /\
  delivers (re_identity r) (re_ids r) archived content.
Proof.
  unfold bytes_sent, has_key, delivers. destruct (String.eqb (op_EncryptTo o) ""); [by intros -> ->|].
  intros (recipient & chunks & Hp & <- & ->) (Hne & E1 & E2 & E3 & E4 & E5 & Hopen). split; [done|].
  rewrite (proj2 (String.eqb_neq _ _) Hne). split; [done|]. by apply Hopen.
Qed.

(** A deposit that was complete, at any later time: its file holds what was sent, or
    another content of the same digest. *)
Lemma archived_later content o random sent y rc t s' : bytes_sent content o random sent ->
  rc_Size rc = len sent -> rc_SHA256 rc = sha256_hex sent -> keeps linked [y] t -> b_Status y = BackupComplete ->
  b_ID y = rc_ID rc -> b_Size y = rc_Size rc -> b_SHA256 y = rc_SHA256 rc -> later linked error_text decode t s' ->
  exists x, In x (d_backups (s_db s')) /\ b_ID x = rc_ID rc /\
    (b_Status x = BackupDeleted \/ purge_permitted s' (rc_ID rc) \/
     exists archived, (s_published s' !! final_name x = Some (Regular archived) \/ s_quarantine s' !! final_name x = Some (Regular archived)) /\
       len archived = rc_Size rc /\ sha256_hex archived = rc_SHA256 rc /\
       ((exists sent, sent <> archived /\ sha256_hex sent = sha256_hex archived) \/ bytes_sent content o random archived)).
Proof.
  intros Hb Hsz Hdg Hk Hst Hid Hys Hyd Hlater.
  destruct (complete_row_later linked decode _ _ (later_keeps _ _ _ _ _ _ Hlater Hk) Hst) as (x & Hx & Hxid & Hxs & Hxd & Hwhere).
  exists x. split; [done|]. split; [congruence|]. rewrite Hid in Hwhere. destruct Hwhere as [?|[?|Hstored]]; [by left|right; by left|]. do 2 right.
  assert (exists archived, (s_published s' !! final_name x = Some (Regular archived) \/ s_quarantine s' !! final_name x = Some (Regular archived)) /\
    len archived = len sent /\ sha256_hex archived = sha256_hex sent) as (archived & Hplace & Hlen & Hsha).
  { destruct Hstored as [(c & Hc & Hl & Hh)|(c & Hc & Hl & Hh)]; exists c; (split; [by (left + right)|]); split; congruence. }
  exists archived. split; [exact Hplace|]. split; [congruence|]. split; [congruence|].
  destruct (decide (sent = archived)) as [->|Hne]; [by right|left; by exists sent].
Qed.
(** A rescue of what was sent gives the file back. *)
Lemma runs_rescued r o random archived content size digest : bytes_sent content o random archived -> ready r archived content -> has_key r o ->
  validateExpected size digest = Ok tt -> len archived = size -> sha256_hex archived = digest ->
  runs (stage (re_names r) (re_files r)) (rescued r size digest) (fun res s => res = Ok tt /\
    exists i, fs_names s = <[re_output r := i]> (re_names r) /\ named (re_output r) i (Regular content) s).
Proof.
  intros Hb (Ha & Hai & Hout & Hfree & Hver & Hplain & Hv & Hp & Ht1 & Ht2) Hkey Hval Hsize Hsha.
  destruct (rescue_delivers r o _ archived content Hb Hkey) as [Hidf Hdel].
  eapply runs_weaken; [apply (runs_Recover (re_turns r) (re_names r) (re_files r) (re_archive r) (re_inode r) archived (re_output r) size digest
    (re_identity r) (re_identity_inode r) (re_text r) (re_ids r) content (re_verified r) (re_plain r)); try done; lia|done|].
  intros res s (names' & files' & -> & [Hn Hsub] & i & -> & Hi). split; [done|]. exists i. split; [exact Hn|].
  split; [rewrite Hn; apply lookup_insert_eq|by eapply lookup_weaken].
Qed.

(** C5. A deposit can be recovered: when the client has returned a receipt for a
    file, sent as it is or encrypted, then in every later life of the system, unless
    the copy was deleted or its purge finally permitted, the archive or the
    quarantine has a file of the deposit; and the recovery tool, given a copy of it,
    the size and digest of the receipt and the identities of the recipient, ends and
    writes exactly the file of the client under the new name, leaving every other
    name as it was - or two different contents with one SHA-256 are at hand. *)
Theorem sent_file_recoverable j o path m si content w rc n w' s' :
  reachable linked error_text decode (n_server (w_net w)) -> undisturbed j o path ->
  named path si (Regular content) (w_files w) ->
  sent_by j o path m (0%nat, w) = (Some (Ok rc), (n, w')) ->
  later linked error_text decode (n_server (w_net w')) s' ->
  validateExpected (rc_Size rc) (rc_SHA256 rc) = Ok tt ->
  exists x, In x (d_backups (s_db s')) /\ b_ID x = rc_ID rc /\
    (b_Status x = BackupDeleted \/ purge_permitted s' (rc_ID rc) \/
     exists archived, (s_published s' !! final_name x = Some (Regular archived) \/ s_quarantine s' !! final_name x = Some (Regular archived)) /\
       ((exists sent, sent <> archived /\ sha256_hex sent = sha256_hex archived) \/
        forall r k s, ready r archived content -> has_key r o -> stage (re_names r) (re_files r) s ->
          exists k' s2 i, rescued r (rc_Size rc) (rc_SHA256 rc) (k, s) = (Some (Ok tt), (k', s2)) /\
            fs_names s2 = <[re_output r := i]> (re_names r) /\ named (re_output r) i (Regular content) s2)).
Proof.
  intros Hr Hu Hf Hrun Hlater Hval. destruct (Send_receipt _ _ _ _ _ _ _ _ _ _ (reachable_custody _ _ _ _ Hr) Hu Hf Hrun)
    as (sent & y & Hb & Hsz & Hdg & Hk & Hst & Hid & Hys & Hyd).
  destruct (archived_later content o (j_random j) sent y rc (n_server (w_net w')) s') as (x & Hx & Hid' & Hwhere); try done.
  exists x. split; [done|]. split; [done|]. destruct Hwhere as [?|[?|(archived & Hplace & Hlen & Hsha & Hsame)]]; [by left|right; by left|]. do 2 right.
  exists archived. split; [done|]. destruct Hsame as [?|Hsame]; [by left|right]. intros r k s Hready Hkey Hstage.
  destruct (runs_rescued r o (j_random j) archived content (rc_Size rc) (rc_SHA256 rc) Hsame Hready Hkey Hval Hlen Hsha k s Hstage) as (res & k' & s2 & Erun & -> & i & Hi).
  by exists k', s2, i.
Qed.
End end_to_end.

(** ** A journey *)
Module Voyage.
Import Scenario Life Bracket.
#[local] Existing Instance platform.

#[local] Instance codec : Codec := {|
  base64_decode := Some; base64_encode s := s; json_metadata _ := Some (Metadata "archivio" "archivio.tar.cpt" "age-v1", false);
  metadata_json _ := "m"%string |}.
#[local] Instance network : Web := {|
  url_Parse _ := Some (Url "https" "host:8443" false "" "" ""); AppendCertsFromPEM _ := true |}.

Lemma bracket_opens ids recipient : opens ids recipient.
Proof.
  intros random chunks. assert (age_file random recipient chunks = ("01" ++ joined chunks ++ "89")%string) as ->.
  { unfold age_file. cbn [age_Encrypt bracket]. rewrite feed_all, !joined_app. reflexivity. }
  eexists. split; [reflexivity|]. split; [by repeat constructor|]. cbn [delivered]. by rewrite unbracket.
Qed.

(** The first answer of the receiver is lost: the client sends again. *)
Definition losing : circumstances :=
  Circumstances alone (fun n => if Nat.eqb n 41 then Fails (Broken "connection reset") else Works) (w_clock calm) (w_tokens calm) (w_short calm).
Definition journey_of : journey :=
  Journey losing (fun _ z => z) alone (fun _ body => body) (fun _ => Ok tt) (fun _ => backup_name "a") 4 "" "0123456789abcdef"
    (fun _ => ["/tmp/c"%string]).
Definition options_of : options := Options "https://host:8443" "/chiave" "" "age1" false 0 "".
Definition home : fs := Fs {[ "/dati"%string := 1; "/chiave"%string := 2 ]} {[ 1 := Regular "234567"; 2 := Regular "token" ]}.
Definition office : server := empty_server <| s_db := execs [ CCreateKey "ufficio" "S" key_id "token" ] initial_db |>.
Definition before_sending : world := World home (Net office 0).
Definition outcome := sent_by journey_of options_of "/dati" document (0%nat, before_sending).
Definition after_sending : world := snd (snd outcome).
Definition server_after : server := n_server (w_net after_sending).

Lemma office_reachable : reachable true error_text decode office.
Proof. by apply (after_requests true empty_server). Qed.
Lemma nobody : undisturbed true journey_of options_of "/dati".
Proof. split; apply _. Qed.
Lemma data_named : named "/dati" 1 (Regular "234567") (w_files before_sending).
Proof. by split; vm_compute. Qed.

(** The rescue of the copy, on another computer. *)
Definition kit : rescue :=
  Rescue {[ "/copia"%string := 1; "/id"%string := 2 ]} {[ 1 := Regular "0123456789"; 2 := Regular "AGE-SECRET-KEY" ]} "/copia" 1 "/ritorno"
    "/id" 2 "AGE-SECRET-KEY" [tt] ["/v"%string] ["/p"%string] 20.
Lemma kit_ready : ready kit "0123456789" "234567".
Proof.
  split; [reflexivity|]. split; [reflexivity|]. split; [discriminate|]. split; [reflexivity|]. split.
  { intros p [<-|[]]. split; [discriminate|]. by intros [[=]|[]]. }
  split; [by intros [[=]|[]]|]. split; [by exists "/v"%string; split; [left|]|]. split; [by exists "/p"%string; split; [left|]|]. by split.
Qed.
Lemma kit_key : has_key kit options_of.
Proof.
  unfold has_key. cbn. split; [discriminate|]. split; [reflexivity|]. split; [reflexivity|]. split; [by vm_compute|].
  split; [reflexivity|]. split; [discriminate|]. intros recipient _. apply bracket_opens.
Qed.

Lemma sent_file_recoverable_witness :
  ready kit "0123456789" "234567" /\ has_key kit options_of /\
  exists x, In x (d_backups (s_db server_after)) /\ b_ID x = backup_name "a" /\
    (b_Status x = BackupDeleted \/ purge_permitted server_after (backup_name "a") \/
     exists archived, (s_published server_after !! final_name x = Some (Regular archived) \/ s_quarantine server_after !! final_name x = Some (Regular archived)) /\
       ((exists sent, sent <> archived /\ sha256_hex sent = sha256_hex archived) \/
        forall r k s, ready r archived "234567" -> has_key r options_of -> stage (re_names r) (re_files r) s ->
          exists k' s2 i, rescued r 10 digest (k, s) = (Some (Ok tt), (k', s2)) /\
            fs_names s2 = <[re_output r := i]> (re_names r) /\ named (re_output r) i (Regular "234567") s2)).
Proof.
  split; [exact kit_ready|]. split; [exact kit_key|].
  refine (sent_file_recoverable true error_text decode journey_of options_of "/dati" document 1 "234567" before_sending
    (MkReceipt (backup_name "a") 10 digest "2023-12-09T08:00:38Z") _ after_sending server_after office_reachable nobody data_named _ _ _).
  - vm_compute. reflexivity.
  - apply rtc_refl.
  - vm_compute. reflexivity.
Defined.
End Voyage.
