(* ===== verification/Commands.v ===== *)
(** The two commands of the other computers: [onlybackup send]
    ([src/cmd/onlybackup/main.go]) and [onlybackup-recover]
    ([src/cmd/onlybackup-recover/main.go], [state_unix.go]).  The usage text, the progress
    of a transfer and the texts that [%w] puts before the error of a call are left out. *)
From S2P Require Import Prelude GoTime GoString Model Catalog Io Writer Files Cryptfile Front Client Flags GoPath.

(** ** What is read and printed *)
(** A receipt as it is written down. *)
Record written_receipt : Type := Written { wr_ID : string; wr_Status : string; wr_Size : Z; wr_SHA256 : string; wr_ReceivedAt : string }.
Definition written_of (r : receipt) : written_receipt := Written (rc_ID r) "complete" (rc_Size r) (rc_SHA256 r) (rc_ReceivedAt r).
(** [encoding/json]: a decoder that refuses unknown fields reads one value, and whether
    more follows it. *)
Class Documents : Type := {
  receipt_json : written_receipt -> string;
  json_receipt : string -> option (written_receipt * bool);
  json_options : string -> option (options * bool) }.

Inductive printed : Type :=
| PrintedReceipt (d : written_receipt)
| PrintedRecipient (recipient : string)
| PrintedRecovery (id content_format : string) (decrypted : bool) (original_name output : string).

(** The computer: its files and what it reaches, the catalogues that database files
    hold, by path, and what was printed. *)
Record bench : Type := Bench { be_world : world; be_catalogs : string -> option db; be_out : list printed }.
#[global] Instance eta_bench : Settable bench := fun s => Bench (be_world s) (be_catalogs s) (be_out s).
Definition on_world {A} : Io.io world A -> Io.io bench A := lift_io be_world (fun w s => s <| be_world := w |>).
Definition on_bench_files {A} (m : Io.io fs A) : Io.io bench A := on_world (on_files m).

(** ** Flags *)
Definition send_flags : flag_set :=
  [("config", FlagString ""); ("url", FlagString ""); ("key-file", FlagString ""); ("ca-file", FlagString "");
   ("encrypt-to", FlagString ""); ("plaintext", FlagBool false); ("encrypted-temp-limit", FlagString "");
   ("encrypted-temp-dir", FlagString ""); ("description", FlagString ""); ("label", FlagString ""); ("name", FlagString "");
   ("receipt", FlagString ""); ("quiet", FlagBool false)]%string.
Definition keygen_flags : flag_set := [("out", FlagString "")]%string.
Definition recover_flags : flag_set :=
  [("state", FlagString "./var/onlybackup"); ("id", FlagString ""); ("receipt", FlagString ""); ("archive", FlagString "");
   ("out", FlagString ""); ("identity-file", FlagString "")]%string.

Definition is_set (s : string) : bool := negb (String.eqb s "").
(** [if *flag != "" { field = *flag }] *)
Definition override (flag field : string) : string := if is_set flag then flag else field.
Definition no_options : options := Options "" "" "" "" false 0 "".

(** A path of the configuration is relative to its directory. *)
Definition config_path (config p : string) : string := if is_set p && negb (IsAbs p) then Join [Dir config; p] else p.
Definition config_options (config : string) (o : options) : options :=
  Options (op_URL o) (config_path config (op_KeyFile o)) (config_path config (op_CAFile o)) (op_EncryptTo o) (op_Plaintext o)
    (op_EncryptedTempLimitBytes o) (config_path config (op_EncryptedTempDir o)).
(** The options, from those of the configuration and the flags. *)
Definition chosen_options (f : flag_set) (o : options) : result err options :=
  let encryptTo := flag_string f "encrypt-to" in
  let plaintext := flag_bool f "plaintext" in
  if is_set encryptTo && plaintext then Err (ErrText "usare --encrypt-to oppure --plaintext")
  else
    limit ← (if is_set (flag_string f "encrypted-temp-limit") then
               match ParseBytes (flag_string f "encrypted-temp-limit") with
               | Ok n => if n <=? 0 then Err (ErrText "--encrypted-temp-limit non valido: usare una dimensione positiva, per esempio 20GiB") else Ok n
               | Err _ => Err (ErrText "--encrypted-temp-limit non valido: usare una dimensione positiva, per esempio 20GiB")
               end
             else Ok (op_EncryptedTempLimitBytes o));
    Ok (Options (override (flag_string f "url") (op_URL o)) (override (flag_string f "key-file") (op_KeyFile o))
          (override (flag_string f "ca-file") (op_CAFile o))
          (if plaintext then "" else override encryptTo (op_EncryptTo o))
          (plaintext || (negb (is_set encryptTo) && op_Plaintext o))
          limit (override (flag_string f "encrypted-temp-dir") (op_EncryptedTempDir o))).
Definition chosen_metadata (f : flag_set) (file : string) : result err metadata :=
  if is_set (flag_string f "description") && is_set (flag_string f "label") then Err (ErrText "usare --description oppure --label")
  else Ok (Metadata (override (flag_string f "description") (flag_string f "label")) (override (flag_string f "name") (Base file)) "").

Section commands.
Context `{Platform, Age, Codec, Web, Documents}.
Context (fs_env : nat -> fs -> fs) (net_env : nat -> net -> net) (fate_of : nat -> fate) (short : nat -> option Z) (turns : nat).
Context (receiver : http_request -> Io.io net response).
Abbreviation io := (Io.io bench).
Abbreviation fs_act := (Io.act fs_env fate_of).

Definition refuse {A} (message : string) : io (result failure A) := mret (Err (failed message)).
Definition accepted {A} (r : result err A) : io (result failure A) := mret (match r with Ok a => Ok a | Err e => Err (Failed e) end).
Definition print (p : printed) : io (result failure unit) := Io.act alone fate_of (fun s => (Ok tt, s <| be_out ::= (fun l => l ++ [p]) |>)).

(** ** The client *)
Definition encoded_receipt (r : receipt) : string := (receipt_json (written_of r) ++ newline)%string.
(** [File.Write] reports an error when not all was written. *)
Definition write_whole (fd : Z) (content : string) : Io.io fs (result failure unit) :=
  w ← write_inode fs_env fate_of short fd content;
  mret (match snd w with Some e => Err e | None => if fst w =? len content then Ok tt else Err ErrShortWrite end).
Definition writeReceipt (path : string) (r : receipt) : Io.io fs (result failure unit) :=
  fd ←? fs_act (create_exclusive path);
  outcome ← (_ ←? fs_act unseen;                                (* RestrictPrivate *)
             _ ←? write_whole fd (encoded_receipt r);
             _ ←? fs_act unseen; fs_act unseen);                (* Sync, Close *)
  match outcome with
  | Ok _ => mret (Ok tt)
  | Err e => _ ← fs_act unseen; _ ← fs_act (remove_path path); mret (Err e)
  end.

Definition read_config (config : string) : Io.io fs (result failure options) :=
  fd ←? fs_act (open_file config);
  text ←? fs_act (read_at fd 0 65536);
  mret (match json_options text with
        | None => Err (failed "json")
        | Some (_, true) => Err (failed "configurazione con dati aggiuntivi")
        | Some (o, false) => Ok (config_options config o)
        end).

(** [random], [key] and [candidates]: see [Send]. *)
Definition send_command (random key : string) (candidates : string -> list string) (args : list string) : io (result failure unit) :=
  match parse_flags send_flags args with
  | Err e => mret (Err (Failed e))
  | Ok (f, [file]) =>
    base ←? (if is_set (flag_string f "config") then on_bench_files (read_config (flag_string f "config")) else mret (Ok no_options));
    o ←? accepted (chosen_options f base);
    m ←? accepted (chosen_metadata f file);
    r ←? on_world (Send fs_env net_env fate_of short turns receiver o file m random key candidates);
    _ ←? (if is_set (flag_string f "receipt") then on_bench_files (writeReceipt (flag_string f "receipt") r) else mret (Ok tt));
    print (PrintedReceipt (written_of r))
  | Ok _ => refuse "specificare un file dopo le opzioni; --stdin non ancora disponibile"
  end.
Definition onlybackup (random key : string) (candidates : string -> list string) (args : list string) : io (result failure unit) :=
  match args with
  | [] => mret (Ok tt)
  | command :: rest =>
    if String.eqb command "--help" || String.eqb command "-h" then mret (Ok tt)
    else if String.eqb command "send" then send_command random key candidates rest
    else refuse "unica operazione disponibile: send"
  end.

(** ** The recovery tool *)
Record recoveryTarget : Type := RecoveryTarget {
  ta_ID : string; ta_Source : string; ta_Size : Z; ta_SHA256 : string; ta_ContentFormat : string; ta_OriginalName : string }.

Definition target_of_written (d : written_receipt) (archivePath : string) : result failure recoveryTarget :=
  if negb (ValidID (wr_ID d)) || negb (String.eqb (wr_Status d) "complete") || (wr_Size d <=? 0) || negb (ValidDigest (wr_SHA256 d))
  then Err (failed "ricevuta incompleta o non valida")
  else
    match parse_rfc3339 (wr_ReceivedAt d) with
    | None => Err (failed "data della ricevuta non valida")
    | Some _ => Ok (RecoveryTarget (wr_ID d) archivePath (wr_Size d) (wr_SHA256 d) "" "")
    end.
Definition targetFromReceipt (receiptPath archivePath : string) : Io.io fs (result failure recoveryTarget) :=
  fd ←? OpenRegular fs_env fate_of receiptPath;
  info ← fs_act (fstat fd);
  if match info with Ok e => (entry_size e <=? 0) || (65536 <? entry_size e) | Err _ => true end
  then mret (Err (failed "dimensione della ricevuta non valida"))
  else
    text ←? fs_act (read_all fd);
    mret (match json_receipt text with
          | None => Err (failed "ricevuta JSON non valida")
          | Some (_, true) => Err (failed "ricevuta con dati aggiuntivi")
          | Some (d, false) => target_of_written d archivePath
          end).

Definition refusal_of (st : backup_status) : string :=
  match st with
  | BackupDeleting => "backup con richiesta di quarantena pendente; annullarla dalla console amministrativa"
  | BackupQuarantined => "backup recuperabile dalla quarantena tramite onlybackup-admin quarantena"
  | BackupPurging => "backup in eliminazione definitiva; recupero non disponibile"
  | BackupDeleted => "backup eliminato definitivamente; rimane solo lo storico di catalogo"
  | _ => "backup non disponibile per il recupero"
  end.
(** The catalogue is opened for reading: no migration runs. *)
Definition targetFromState (root id : string) : io (result failure recoveryTarget) :=
  d ←? Io.act alone fate_of (fun s =>
    (match be_catalogs s (Join [root; "metadata.db"%string]) with Some d => Ok d | None => Err (OsError ENOENT) end, s));
  match select_backup id d with
  | Err e => mret (Err (Failed e))
  | Ok (b, _) =>
    if has_status BackupComplete b then
      mret (Ok (RecoveryTarget (b_ID b) (Join [root; "archives"; "backups"; (b_ID b ++ ".backup")]%string) (b_Size b) (b_SHA256 b)
        (ContentFormat (b_Metadata b)) (OriginalName (b_Metadata b))))
    else refuse (refusal_of (b_Status b))
  end.

Definition keygen (random : string) (args : list string) : io (result failure unit) :=
  match parse_flags keygen_flags args with
  | Err e => mret (Err (Failed e))
  | Ok (f, rest) =>
    if negb (bool_decide (rest = [])) || negb (is_set (flag_string f "out")) then refuse "uso: onlybackup-recover keygen --out FILE_IDENTITA"
    else
      recipient ←? on_bench_files (GenerateIdentity fs_env fate_of short random (flag_string f "out"));
      print (PrintedRecipient recipient)
  end.
Definition find_target (f : flag_set) : io (result failure recoveryTarget) :=
  let receipt := flag_string f "receipt" in
  let archive := flag_string f "archive" in
  let id := flag_string f "id" in
  if is_set receipt || is_set archive then
    if negb (is_set receipt) || negb (is_set archive) then refuse "usare insieme --receipt e --archive"
    else
      target ←? on_bench_files (targetFromReceipt receipt archive);
      if is_set id && negb (String.eqb id (ta_ID target)) then refuse "ID richiesto diverso dalla ricevuta" else mret (Ok target)
  else if negb (ValidID id) then refuse "ID backup non valido"
  else targetFromState (flag_string f "state") id.
(** [verifiedNames] and [plainNames]: see [Recover]. *)
Definition recover_command (verifiedNames plainNames : list string) (args : list string) : io (result failure unit) :=
  match parse_flags recover_flags args with
  | Err e => mret (Err (Failed e))
  | Ok (f, []) =>
    let out := flag_string f "out" in
    let identityFile := flag_string f "identity-file" in
    target ←? find_target f;
    if is_set identityFile && is_set (ta_ContentFormat target) && negb (String.eqb (ta_ContentFormat target) ContentFormatAgeV1)
    then refuse "--identity-file richiede un backup con content_format age-v1"
    else if is_set identityFile && negb (is_set out) then refuse "--identity-file richiede --out"
    else
      _ ←? on_bench_files (
        if is_set out
        then Recover fs_env fate_of short turns (ta_Source target) out (ta_Size target) (ta_SHA256 target) identityFile verifiedNames plainNames
        else Verify fs_env fate_of turns (ta_Source target) (ta_Size target) (ta_SHA256 target));
      let direct := is_set (flag_string f "receipt") || is_set (flag_string f "archive") in
      print (PrintedRecovery (ta_ID target) (if direct && is_set identityFile then ContentFormatAgeV1 else ta_ContentFormat target)
        (is_set identityFile) (ta_OriginalName target) out)
  | Ok _ => refuse "argomenti inattesi"
  end.
Definition onlybackup_recover (random : string) (verifiedNames plainNames : list string) (args : list string) : io (result failure unit) :=
  match args with
  | command :: rest =>
    if String.eqb command "keygen" then keygen random rest
    else recover_command verifiedNames plainNames (if String.eqb command "recover" then rest else args)
  | [] => recover_command verifiedNames plainNames []
  end.
End commands.
