(* ===== verification/Handover.v ===== *)
(** From command to command: what [onlybackup send] hands over with its receipt is what
    [onlybackup-recover] needs to give the file back. *)
From S2P Require Import Prelude GoTime GoString Model Policy Catalog Retention RetentionMachine Deposit Store Archive Io Writer.
From S2P Require Import Custody Reception Accepting Execution Api Serving System Files Cryptfile Encryption Restoration Front Client Sending Private EndToEnd Flags GoPath Commands.

From Stdlib Require Import Ascii.

Abbreviation anything := (fun _ => True).
Lemma triple_anything {S A} P (m : Io.io S A) : triple P m (fun _ => anything) anything.
Proof. intros n s _. by destruct (m (n, s)) as [[a|] [n' s']]. Qed.
Lemma triple_after {S A B} P (m : Io.io S (result failure A)) (k : A -> Io.io S (result failure B)) (Q : result failure B -> S -> Prop) :
  (forall e s, Q (Err e) s) -> (forall a, triple anything (k a) Q anything) -> triple P (io_try m k) Q anything.
Proof. intros He Hk. eapply triple_try; [apply triple_anything|exact Hk|by intros e s _]. Qed.

(** ** The receipt that is returned *)
Definition receipt_valid (r : result failure receipt) : Prop :=
  match r with Ok rc => ValidID (rc_ID rc) = true /\ parse_rfc3339 (rc_ReceivedAt rc) <> None | Err _ => True end.
Section valid.
Context `{Platform, Age, Codec, Web}.
Context (fs_env : nat -> fs -> fs) (net_env : nat -> net -> net) (fate_of : nat -> fate) (short : nat -> option Z) (turns : nat).
Context (receiver : http_request -> Io.io net response).
Abbreviation V := (fun r (_ : world) => receipt_valid r).

Lemma judge_valid f answer : match judge f answer with Done r => receipt_valid r | Retry _ => True end.
Proof.
  unfold judge. destruct answer as [status message|id size digest at_].
  - destruct (_ =? _); [done|]. by destruct (_ || _).
  - destruct (receipt_coherent f id size digest) eqn:E; [|done]. cbn [negb]. destruct (parse_rfc3339 at_) eqn:Et; [|done].
    apply andb_true_iff in E as [[E _]%andb_true_iff _]. split; [done|]. cbn. by rewrite Et.
Qed.
Lemma attempts_valid l : forall f token encoded key e,
  triple anything (attempts fs_env net_env fate_of receiver l f token encoded key e) V anything.
Proof.
  induction l as [|k l IH]; intros f token encoded key e; cbn [attempts]; [by apply triple_ret|].
  eapply triple_bind; [apply triple_anything|]. intros [[]|?]; [|by apply triple_ret].
  eapply (triple_bind _ _ _ _ (fun v _ => match v with Done r => receipt_valid r | Retry _ => True end)).
  - unfold attempt. eapply triple_bind; [apply triple_anything|]. intros [[]|?]; [|by apply triple_ret].
    eapply triple_bind; [apply triple_anything|]. intros content. eapply triple_bind; [apply triple_anything|]. intros [answer|?].
    + eapply triple_bind; [apply triple_anything|]. intros [[]|?]; apply triple_ret; intros s _; [apply judge_valid|done].
    + eapply triple_bind; [apply triple_anything|]. by intros [[]|?]; apply triple_ret.
  - intros [r|e']; [by apply triple_ret|]. by eapply triple_pre; [apply IH|].
Qed.
Lemma Send_valid o path m random key candidates :
  triple anything (Send fs_env net_env fate_of short turns receiver o path m random key candidates) V anything.
Proof.
  unfold Send. destruct (Client.content_format o m); [|by apply triple_ret]. destruct (Metadata_Validate _); [|by apply triple_ret].
  destruct (negb _); [by apply triple_ret|]. apply triple_after; [done|intros token]. apply triple_after; [done|intros []]. apply triple_after; [done|intros f].
  eapply (triple_bind _ _ _ _ V).
  - unfold deliver. apply triple_after; [done|intros []]. destruct (EncodeMetadata _); [apply attempts_valid|by apply triple_ret].
  - intros r. destruct (sd_Temp f); [|by apply triple_ret]. intros k w Hr. unfold mbind, io_bind. by destruct (on_files _ (k, w)) as [[[]|] [? ?]].
Qed.
End valid.

(** ** The receipt that is saved *)
Section saved.
Context `{Documents} (env : nat -> fs -> fs) (fate_of : nat -> fate) (short : nat -> option Z) (path : string) `{!Apart [path] env}.

(** If [writeReceipt] reports no error, the file holds the whole receipt. *)
Lemma triple_writeReceipt r : triple anything (writeReceipt env fate_of short path r)
  (fun o s => is_ok o = true -> holds_file path (encoded_receipt r) s) anything.
Proof.
  set (Q := fun (o : result failure unit) s => is_ok o = true -> holds_file path (encoded_receipt r) s).
  unfold writeReceipt. eapply (triple_try _ _ _ _ (fun o s => match o with Ok fd => named path fd (Regular "") s | Err _ => True end)); [| |done].
  { apply triple_act; [done..|]. intros s _. split; [done|]. split; [|by intros f]. unfold create_exclusive.
    destruct (fs_names s !! path) eqn:E; [done|]. apply create_at_named. }
  intros fd. set (W := written_so_far path fd anything). assert (forall data, Stable env (W data)) as HW.
  { intros data. apply stable_written; apply _. }
  assert (forall data, triple (W data) (act env fate_of unseen) (fun _ => W data) anything) as Hunseen.
  { intros data. by eapply triple_weaken; [apply (triple_act_inv env fate_of (W data))|..]. }
  eapply (triple_bind _ _ _ _ (fun o s => is_ok o = true -> W (encoded_receipt r) s)).
  - eapply (triple_try _ _ _ _ (fun _ => W ""%string)); [by eapply triple_pre; [apply Hunseen|intros s Hs; split]|intros []|by intros e s _].
    eapply (triple_try _ _ _ _ (fun o s => is_ok o = true -> W (encoded_receipt r) s)); [| |by intros e s _].
    + unfold write_whole. eapply triple_bind; [by apply (triple_write_inode env fate_of short path fd anything)|]. intros [n [e|]]; cbn [fst snd]; [by apply triple_ret|].
      destruct (Z.eqb_spec n (len (encoded_receipt r))) as [->|]; [|by apply triple_ret]. apply triple_ret. intros s Hs _. specialize (Hs eq_refl).
      by rewrite str_take_all in Hs by done.
    + intros []. eapply (triple_try _ _ _ _ (fun _ => W (encoded_receipt r))); [eapply triple_pre; [apply Hunseen|by auto]|intros []|by intros e s Hs _].
      eapply triple_weaken; [apply Hunseen|done|by intros o s Hs _|done].
  - intros [[]|e]; [apply triple_ret; intros s Hs _; exists fd; by apply Hs|].
    eapply triple_bind; [apply triple_anything|intros ?]. eapply triple_bind; [apply triple_anything|intros ?]. by apply triple_ret.
Qed.
End saved.

(** ** Parts of a computer *)
Lemma triple_bench_files {A} (G : net -> list printed -> Prop) P (m : Io.io fs A) Q R : triple P m Q R ->
  triple (fun b => P (w_files (be_world b)) /\ G (w_net (be_world b)) (be_out b)) (on_bench_files m)
    (fun a b => Q a (w_files (be_world b)) /\ G (w_net (be_world b)) (be_out b)) anything.
Proof.
  intros Hm k b [Hp Hg]. specialize (Hm k _ Hp). unfold on_bench_files, on_world, on_files, lift_io.
  by destruct (m (k, w_files (be_world b))) as [[a|] [k' s]].
Qed.
Lemma triple_bench_world {A} (G : list printed -> Prop) P (m : Io.io world A) Q R : triple P m Q R ->
  triple (fun b => P (be_world b) /\ G (be_out b)) (on_world m) (fun a b => Q a (be_world b) /\ G (be_out b)) anything.
Proof.
  intros Hm k b [Hp Hg]. specialize (Hm k _ Hp). unfold on_world, lift_io. by destruct (m (k, be_world b)) as [[a|] [k' s]].
Qed.
Lemma runs_bench_files {A} (G : list printed -> Prop) P (m : Io.io fs A) Q : runs P m Q ->
  runs (fun b => P (w_files (be_world b)) /\ G (be_out b)) (on_bench_files m) (fun a b => Q a (w_files (be_world b)) /\ G (be_out b)).
Proof.
  intros Hm k b [Hp Hg]. destruct (Hm k _ Hp) as (a & k' & s & E & Ha). unfold on_bench_files, on_world, on_files, lift_io.
  rewrite E. by eexists _, _, _.
Qed.

(** ** What the command of the client leaves *)
Section handover.
Context `{Platform, Age, Codec, Web, Documents} (linked : bool).
Definition send_by (j : journey) (args : list string) : Io.io bench (result failure unit) :=
  let c := j_writer j in
  onlybackup (j_disk j) (net_env (w_env c) (j_others j)) (w_fates c) (w_short c) (j_turns j)
    (Gateway_ServeHTTP (net_env (w_env c) (j_others j)) (w_fates c) (j_transmit j)
      (ServeHTTP (w_env c) (w_fates c) (w_clock c) (w_short c) (j_check j) (j_ids j)))
    (j_random j) (j_key j) (j_temps j) args.

(** The options [o] come from the flags and from the configuration, if one is named. *)
Definition options_from (f : flag_set) (o : options) : Prop :=
  exists base, chosen_options f base = Ok o /\ (flag_string f "config" = ""%string -> base = no_options).
Lemma is_set_iff s : is_set s = true <-> s <> ""%string.
Proof. unfold is_set. by rewrite negb_true_iff, String.eqb_neq. Qed.

Section sending.
Context (j : journey) (file : string) (si : Z) (content : string) (out : list printed).
Hypothesis file_undisturbed : forall o, undisturbed linked j o file.
Definition begun (b : bench) : Prop :=
  named file si (Regular content) (w_files (be_world b)) /\ (custody linked (n_server (w_net (be_world b))) /\ be_out b = out).

#[local] Instance apart_file : Apart [file] (j_disk j).
Proof. destruct (file_undisturbed no_options) as [_ Hap]. intros q i e n s [<-|[]] Hs. apply apart; [by left|done]. Qed.

Lemma triple_config c : triple begun (if is_set c then on_bench_files (read_config (j_disk j) (w_fates (j_writer j)) c) else mret (Ok no_options))
  (fun r b => (forall base, r = Ok base -> c = ""%string -> base = no_options) /\ begun b) anything.
Proof.
  destruct (is_set c) eqn:Ec; [|apply triple_ret; intros b Hb; by split; [intros base [= <-]|]]. apply is_set_iff in Ec.
  set (N := named file si (Regular content)).
  eapply triple_weaken; [apply (triple_bench_files (fun t l => custody linked (n_server t) /\ l = out) N _ (fun _ => N) N)|done| |done].
  - assert (forall A (effect : fs -> result failure A * fs), (forall s, snd (effect s) = s) -> triple N (act (j_disk j) (w_fates (j_writer j)) effect) (fun _ => N) N) as Hlook.
    { intros A effect. apply (keeps_look _ _ file si (Regular content)). }
    unfold read_config. apply keeps_try; [by apply Hlook|]. intros fd. apply keeps_try; [by apply Hlook|]. intros text. by apply triple_ret.
  - intros r b Hb. split; [by intros base _|done].
Qed.

(** What [Send] leaves for a receipt. *)
Definition deposited (o : options) (rc : receipt) (t : net) : Prop :=
  exists sent y, bytes_sent content o (j_random j) sent /\ rc_Size rc = len sent /\ rc_SHA256 rc = sha256_hex sent /\
    keeps linked [y] (n_server t) /\ b_Status y = BackupComplete /\ b_ID y = rc_ID rc /\ b_Size y = rc_Size rc /\ b_SHA256 y = rc_SHA256 rc.
Lemma triple_sent_world o m : triple (fun w => named file si (Regular content) (w_files w) /\ keeps linked [] (n_server (w_net w))) (sent_by j o file m)
  (fun r w => match r with Ok rc => deposited o rc (w_net w) | Err _ => True end) anything.
Proof.
  destruct (file_undisturbed o) as [Hsp Hap]. intros k w Hw.
  pose proof (triple_Send linked [] (w_env (j_writer j)) (j_others j) (j_disk j) (w_fates (j_writer j)) (w_clock (j_writer j)) (w_short (j_writer j))
    (j_turns j) (j_check j) (j_ids j) (j_transmit j) (j_key j) file si content o m (j_random j) (j_temps j) Hap k w Hw) as Ht.
  unfold sent_by. unfold writer_front in Ht. destruct (Send _ _ _ _ _ _ _ _ _ _ _ _ (k, w)) as [[[rc|e]|] [k' w']]; [|done..].
  destruct Ht as (size & digest & (sent & Hb & -> & ->) & E1 & E2 & y & Hy & Hst & Hid & Hsz & Hdg). exists sent, y. rewrite E1, E2. done.
Qed.
Lemma triple_sent o m : triple begun (on_world (sent_by j o file m))
  (fun r b => match r with Ok rc => receipt_valid (Ok rc) /\ deposited o rc (w_net (be_world b)) /\ be_out b = out | Err _ => True end) anything.
Proof.
  destruct (file_undisturbed o) as [Hsp Hap].
  set (P := fun w => named file si (Regular content) (w_files w) /\ keeps linked [] (n_server (w_net w))).
  eapply triple_weaken; [apply (triple_bench_world (fun l => l = out) P _
    (fun r w => receipt_valid r /\ match r with Ok rc => deposited o rc (w_net w) | Err _ => True end) (fun _ => True /\ True))| | |done].
  - apply triple_conj; [eapply triple_pre; [apply Send_valid|done]|].
    eapply triple_weaken; [apply triple_sent_world|done..].
  - by intros b (Hf & Hc & Ho).
  - intros [rc|e] b [[Hv Hd] Ho]; [|done]. done.
Qed.

Lemma triple_saved o rc R : Apart [R] (j_disk j) ->
  triple (fun b => deposited o rc (w_net (be_world b)) /\ be_out b = out)
    (if is_set R then on_bench_files (writeReceipt (j_disk j) (w_fates (j_writer j)) (w_short (j_writer j)) R rc) else mret (Ok tt))
    (fun r b => r = Ok tt -> (R <> ""%string -> holds_file R (encoded_receipt rc) (w_files (be_world b))) /\ deposited o rc (w_net (be_world b)) /\ be_out b = out) anything.
Proof.
  intros Hap. destruct (is_set R) eqn:Er.
  - eapply triple_weaken; [apply (triple_bench_files (fun t l => deposited o rc t /\ l = out) anything _ (fun r s => is_ok r = true -> holds_file R (encoded_receipt rc) s) anything); apply (triple_writeReceipt (j_disk j) (w_fates (j_writer j)) (w_short (j_writer j)) R)|done| |done].
    intros r b [Hh Hg] ->. split; [intros _; by apply Hh|done].
  - apply triple_ret. intros b Hb _. split; [|done]. intros Hr%is_set_iff. congruence.
Qed.

(** The whole command. *)
Lemma triple_send rest f : parse_flags send_flags rest = Ok (f, [file]) -> Apart [flag_string f "receipt"] (j_disk j) ->
  triple begun (send_by j ("send"%string :: rest))
    (fun r b => r = Ok tt -> exists o rc, options_from f o /\ receipt_valid (Ok rc) /\ be_out b = out ++ [PrintedReceipt (written_of rc)] /\
       (flag_string f "receipt" <> ""%string -> holds_file (flag_string f "receipt") (encoded_receipt rc) (w_files (be_world b))) /\
       deposited o rc (w_net (be_world b))) anything.
Proof.
  intros Hf Hap. unfold send_by, onlybackup. cbn [String.eqb Ascii.eqb Bool.eqb orb]. unfold send_command. rewrite Hf.
  eapply triple_try; [apply triple_config| |done]. intros base.
  apply (triple_pre _ (fun b => (flag_string f "config" = ""%string -> base = no_options) /\ begun b)); [apply triple_pure; intros Hbase|intros b [Hb Hi]; split; [by apply Hb|done]].
  unfold accepted. destruct (chosen_options f base) as [o|] eqn:Eo; [|by apply triple_ret]. destruct (chosen_metadata f file) as [m|]; [|by apply triple_ret].
  eapply (triple_try _ _ _ _ (fun r b => r = Ok o /\ begun b)); [by apply triple_ret|intros o'|done].
  apply (triple_pre _ (fun b => o' = o /\ begun b)); [apply triple_pure; intros ->|by intros b [[= ->] Hb]].
  eapply (triple_try _ _ _ _ (fun r b => r = Ok m /\ begun b)); [by apply triple_ret|intros m'|done].
  apply (triple_pre _ (fun b => m' = m /\ begun b)); [apply triple_pure; intros ->|by intros b [[= ->] Hb]].
  eapply triple_try; [apply (triple_sent o m)| |done]. intros rc. apply triple_pure. intros Hv.
  eapply triple_try; [by apply (triple_saved o rc)| |done]. intros [].
  apply triple_act; [apply _|done|]. intros b Hb. split; [done|]. split; [|by intros f']. intros _. destruct (Hb eq_refl) as (Hh & Hd & Ho).
  exists o, rc. split; [by exists base|]. split; [done|]. cbn. by rewrite Ho.
Qed.
End sending.

(** ** What the command of the recovery makes of it *)
(** What [encoding/json] promises of the receipts, whose fields are ASCII. *)
Definition reads_back : Prop :=
  forall rc, receipt_valid (Ok rc) -> ValidDigest (rc_SHA256 rc) = true -> json_receipt (encoded_receipt rc) = Some (written_of rc, false).
(** The command that is typed, with the receipt at [p]. *)
Definition recover_by (r : rescue) (p : string) : Io.io bench (result failure unit) :=
  onlybackup_recover alone faultless (fun _ => None) (re_turns r) "" (re_verified r) (re_plain r)
    ["recover"; "--receipt"; p; "--archive"; re_archive r; "--out"; re_output r; "--identity-file"; re_identity r]%string.
Definition has_receipt (r : rescue) (p : string) (rc : receipt) : Prop :=
  p <> ""%string /\ re_archive r <> ""%string /\
  exists i, re_names r !! p = Some i /\ re_files r !! i = Some (Regular (encoded_receipt rc)).

Lemma runs_target names files p i rc archive : reads_back -> receipt_valid (Ok rc) -> validateExpected (rc_Size rc) (rc_SHA256 rc) = Ok tt ->
  names !! p = Some i -> files !! i = Some (Regular (encoded_receipt rc)) -> len (encoded_receipt rc) <= 65536 ->
  runs (stage names files) (targetFromReceipt alone faultless p archive)
    (fun r s => r = Ok (RecoveryTarget (rc_ID rc) archive (rc_Size rc) (rc_SHA256 rc) "" "") /\ stage names files s).
Proof.
  intros Hback Hv Hval Hn Hf Hlen. unfold validateExpected in Hval. destruct (_ || _) eqn:Hs in Hval; [done|]. apply orb_false_iff in Hs as [Hs _].
  destruct (ValidDigest (rc_SHA256 rc)) eqn:Hd; [|done]. unfold targetFromReceipt.
  eapply runs_try; [by apply (runs_open names files p i (encoded_receipt rc))|].
  eapply runs_bind; [by apply (runs_fstat names files i)|]. intros info k s [-> Hst]. revert k s Hst. cbn [entry_size].
  assert (0 < len (encoded_receipt rc)) as Hpos.
  { unfold encoded_receipt. rewrite len_app. pose proof (len_nonneg (receipt_json (written_of rc))). change (len newline) with 1. lia. }
  rewrite (proj2 (Z.leb_gt _ _) Hpos), (proj2 (Z.ltb_ge _ _) Hlen). cbn [orb].
  eapply (runs_try _ _ _ (encoded_receipt rc) _ (stage names files)).
  { apply runs_act. intros s Hst. split; [|done]. unfold read_all. by rewrite (stage_file _ _ _ _ _ Hst Hf). }
  rewrite (Hback rc Hv Hd). apply runs_ret. intros s Hst. split; [|done]. destruct Hv as [Hid Ht]. unfold target_of_written. cbn. rewrite Hid, Hs, Hd. cbn.
  by destruct (parse_rfc3339 (rc_ReceivedAt rc)).
Qed.
Definition rescue_flags (r : rescue) (p : string) : flag_set :=
  [("state", FlagString "./var/onlybackup"); ("id", FlagString ""); ("receipt", FlagString p); ("archive", FlagString (re_archive r));
   ("out", FlagString (re_output r)); ("identity-file", FlagString (re_identity r))]%string.
Lemma runs_recover r p rc o random archived content : reads_back -> receipt_valid (Ok rc) -> validateExpected (rc_Size rc) (rc_SHA256 rc) = Ok tt ->
  bytes_sent content o random archived -> ready r archived content -> has_key r o -> has_receipt r p rc ->
  len archived = rc_Size rc -> sha256_hex archived = rc_SHA256 rc -> len (encoded_receipt rc) <= 65536 ->
  forall out, runs (fun b => stage (re_names r) (re_files r) (w_files (be_world b)) /\ be_out b = out) (recover_by r p) (fun res b => res = Ok tt /\
    (exists i, fs_names (w_files (be_world b)) = <[re_output r := i]> (re_names r) /\ named (re_output r) i (Regular content) (w_files (be_world b))) /\
    be_out b = out ++ [PrintedRecovery (rc_ID rc) (if is_set (re_identity r) then ContentFormatAgeV1 else "") (is_set (re_identity r)) "" (re_output r)]).
Proof.
  intros Hback Hv Hval Hb Hready Hkey (Hp & Ha & i & Hn & Hf) Hlen Hsha Hsmall out.
  pose proof (proj1 (proj2 (proj2 Hready))) as Ho. apply is_set_iff in Hp, Ha, Ho.
  unfold recover_by, onlybackup_recover. cbn [String.eqb Ascii.eqb Bool.eqb]. unfold recover_command.
  change (parse_flags recover_flags _) with (@Ok err _ (rescue_flags r p, @nil string)). cbv beta iota zeta.
  set (S := fun b => stage (re_names r) (re_files r) (w_files (be_world b)) /\ be_out b = out).
  eapply (runs_try _ _ _ (RecoveryTarget (rc_ID rc) (re_archive r) (rc_Size rc) (rc_SHA256 rc) "" "") _ S).
  { unfold find_target. change (flag_string (rescue_flags r p) "receipt") with p. change (flag_string (rescue_flags r p) "archive") with (re_archive r).
    rewrite Hp, Ha. cbn [negb orb]. eapply runs_try.
    - eapply runs_weaken; [apply (runs_bench_files (fun l => l = out)); by apply (runs_target (re_names r) (re_files r) p i rc (re_archive r))|done|].
      intros t b [[-> Hs] Hout]. split; [reflexivity|]. exact (conj Hs Hout).
    - cbn. by apply runs_ret. }
  change (flag_string (rescue_flags r p) "identity-file") with (re_identity r). change (flag_string (rescue_flags r p) "out") with (re_output r).
  cbn [ta_ContentFormat ta_Source ta_Size ta_SHA256 ta_ID ta_OriginalName]. rewrite Ho. change (is_set "") with false. rewrite andb_false_r. cbn [andb negb]. rewrite andb_false_r.
  eapply (runs_try _ _ _ tt _ (fun b => (exists i, fs_names (w_files (be_world b)) = <[re_output r := i]> (re_names r) /\
    named (re_output r) i (Regular content) (w_files (be_world b))) /\ be_out b = out)).
  { eapply runs_weaken; [apply (runs_bench_files (fun l => l = out)), (runs_rescued r o random archived content (rc_Size rc) (rc_SHA256 rc)); done|done|].
    by intros res b [[-> Hi] Hout]. }
  change (flag_string (rescue_flags r p) "receipt") with p. rewrite Hp. cbn [orb andb].
  apply runs_act. intros b [Hi Hout]. split; [done|]. split; [exact Hi|]. cbn. by rewrite Hout.
Qed.

Context (error_text : failure -> string) (decode : string -> string -> result err fields).

(** C6. The two commands fit together: when [onlybackup send] has ended without an error
    and was asked to save its receipt, the file it names holds the whole receipt, and the
    receipt was printed; in every later life of the system, unless the copy was deleted
    or its purge finally permitted, the archive or the quarantine has a file of the
    deposit; and [onlybackup-recover], given the saved receipt, a copy of that file and
    the identities of the recipient, ends without an error, reports the recovery and
    writes exactly the file that was sent - or two different contents with one SHA-256
    are at hand.  This holds whatever was lost, repeated or failed while it was sent. *)
Theorem receipt_gives_file_back j rest f file si content b n b' s' :
  reads_back -> parse_flags send_flags rest = Ok (f, [file]) -> flag_string f "receipt" <> ""%string ->
  (forall o, undisturbed linked j o file) -> Apart [flag_string f "receipt"] (j_disk j) ->
  reachable linked error_text decode (n_server (w_net (be_world b))) ->
  named file si (Regular content) (w_files (be_world b)) ->
  send_by j ("send"%string :: rest) (0%nat, b) = (Some (Ok tt), (n, b')) ->
  later linked error_text decode (n_server (w_net (be_world b'))) s' ->
  exists o rc, options_from f o /\ be_out b' = be_out b ++ [PrintedReceipt (written_of rc)] /\
    holds_file (flag_string f "receipt") (encoded_receipt rc) (w_files (be_world b')) /\
    exists x, In x (d_backups (s_db s')) /\ b_ID x = rc_ID rc /\
      (b_Status x = BackupDeleted \/ purge_permitted s' (rc_ID rc) \/
       exists archived, (s_published s' !! final_name x = Some (Regular archived) \/ s_quarantine s' !! final_name x = Some (Regular archived)) /\
         ((exists sent, sent <> archived /\ sha256_hex sent = sha256_hex archived) \/
          forall r p k c, validateExpected (rc_Size rc) (rc_SHA256 rc) = Ok tt -> len (encoded_receipt rc) <= 65536 ->
            has_receipt r p rc -> ready r archived content -> has_key r o -> stage (re_names r) (re_files r) (w_files (be_world c)) ->
            exists k' c' i, recover_by r p (k, c) = (Some (Ok tt), (k', c')) /\
              fs_names (w_files (be_world c')) = <[re_output r := i]> (re_names r) /\
              named (re_output r) i (Regular content) (w_files (be_world c')) /\
              exists format decrypted, be_out c' = be_out c ++ [PrintedRecovery (rc_ID rc) format decrypted "" (re_output r)])).
Proof.
  intros Hback Hf HR Hun Hap Hr Hfile Hrun Hlater.
  pose proof (triple_send j file si content (be_out b) Hun rest f Hf Hap 0%nat b) as Ht. rewrite Hrun in Ht.
  destruct Ht as (o & rc & Ho & Hv & Hout & Hsaved & sent & y & Hb & Hsz & Hdg & Hk & Hst & Hid & Hys & Hyd); [|done|].
  { split; [done|]. split; [by eapply reachable_custody|done]. }
  exists o, rc. split; [done|]. split; [done|]. split; [by apply Hsaved|].
  destruct (archived_later linked error_text decode content o (j_random j) sent y rc _ s' Hb Hsz Hdg Hk Hst Hid Hys Hyd Hlater)
    as (x & Hx & Hxid & Hwhere).
  exists x. split; [done|]. split; [done|]. destruct Hwhere as [?|[?|(archived & Hplace & Hlen & Hsha & Hsame)]]; [by left|right; by left|]. do 2 right.
  exists archived. split; [done|]. destruct Hsame as [?|Hsame]; [by left|right].
  intros r p k c Hval Hsmall Hreceipt Hready Hkey Hstage.
  destruct (runs_recover r p rc o (j_random j) archived content Hback Hv Hval Hsame Hready Hkey Hreceipt Hlen Hsha Hsmall (be_out c) k c (conj Hstage eq_refl))
    as (res & k' & c' & Erun & -> & (i & Hn & Hi) & Hprinted).
  exists k', c', i. split; [done|]. split; [done|]. split; [done|]. by eexists _, _.
Qed.
End handover.

(** ** An example *)
Module Delivery.
Import Scenario Life Bracket Voyage.
#[local] Existing Instance platform.
#[local] Existing Instance codec.
#[local] Existing Instance network.

(** Receipts are written as binary numbers. *)
#[local] Instance written_eq_dec : EqDecision written_receipt.
Proof. solve_decision. Defined.
#[local] Instance written_countable : Countable written_receipt.
Proof.
  refine (inj_countable' (fun d => (wr_ID d, wr_Status d, wr_Size d, wr_SHA256 d, wr_ReceivedAt d))
    (fun '(id, st, size, digest, at_) => Written id st size digest at_) _). by intros [].
Defined.
Fixpoint binary (p : positive) : string :=
  match p with xH => "" | xO p => String "0"%char (binary p) | xI p => String "1"%char (binary p) end.
Fixpoint of_binary (s : string) : positive :=
  match s with String "0"%char s => xO (of_binary s) | String "1"%char s => xI (of_binary s) | _ => xH end.
Lemma of_binary_binary p : of_binary (binary p ++ newline) = p.
Proof. induction p as [p IH|p IH|]; [change (xI (of_binary (binary p ++ newline)) = xI p)|change (xO (of_binary (binary p ++ newline)) = xO p)|done]; by rewrite IH. Qed.
#[local] Instance documents : Documents := {|
  receipt_json d := binary (countable.encode d);
  json_receipt s := (fun d => (d, false)) <$> countable.decode (of_binary s);
  json_options _ := None |}.
Lemma receipts_read_back : reads_back.
Proof. intros rc _ _. unfold encoded_receipt. cbn. by rewrite of_binary_binary, decode_encode. Qed.

Definition typed : list string :=
  ["--url"; "https://host:8443"; "--key-file=/chiave"; "--encrypt-to"; "age1"; "--description"; "archivio"; "--receipt"; "/ricevuta"; "/dati"]%string.
Definition before : bench := Bench before_sending (fun _ => None) [].
Definition run := send_by journey_of ("send"%string :: typed) (0%nat, before).
Definition after : bench := snd (snd run).

(** When the file for the receipt exists, the deposit is made but its receipt is neither
    saved nor printed. *)
Definition unsaved := send_by journey_of ("send"%string :: removelast typed ++ ["--receipt"; "/chiave"; "/dati"]%string) (0%nat, before).
Lemma unsaved_receipt_lost : fst unsaved = Some (Err (OsError EEXIST)) /\ be_out (snd (snd unsaved)) = [] /\
  map b_Status (d_backups (s_db (n_server (w_net (be_world (snd (snd unsaved))))))) = [BackupComplete].
Proof. by vm_compute. Qed.

(** On the other computer: the copy, the receipt and the identities. *)
Definition paper : receipt := MkReceipt (backup_name "a") 10 digest "2023-12-09T08:00:38Z".
Definition kit_with_receipt : rescue :=
  Rescue (<["/r"%string := 3]> (re_names kit)) (<[3 := Regular (encoded_receipt paper)]> (re_files kit)) (re_archive kit) (re_inode kit) (re_output kit)
    (re_identity kit) (re_identity_inode kit) (re_text kit) (re_ids kit) (re_verified kit) (re_plain kit) (re_turns kit).
Lemma kit_receipt : has_receipt kit_with_receipt "/r" paper.
Proof. split; [discriminate|]. split; [discriminate|]. exists 3. by split. Qed.
Lemma typed_flags : exists f, parse_flags send_flags typed = Ok (f, ["/dati"%string]) /\ flag_string f "receipt" = "/ricevuta"%string.
Proof. by eexists. Qed.

Lemma receipt_gives_file_back_witness :
  has_receipt kit_with_receipt "/r" paper /\
  exists o rc, be_out after = [PrintedReceipt (written_of rc)] /\ holds_file "/ricevuta" (encoded_receipt rc) (w_files (be_world after)) /\
    exists x, In x (d_backups (s_db (n_server (w_net (be_world after))))) /\ b_ID x = rc_ID rc /\
      (b_Status x = BackupDeleted \/ purge_permitted (n_server (w_net (be_world after))) (rc_ID rc) \/
       exists archived, (s_published (n_server (w_net (be_world after))) !! final_name x = Some (Regular archived) \/
           s_quarantine (n_server (w_net (be_world after))) !! final_name x = Some (Regular archived)) /\
         ((exists sent, sent <> archived /\ sha256_hex sent = sha256_hex archived) \/
          forall r p k c, validateExpected (rc_Size rc) (rc_SHA256 rc) = Ok tt -> len (encoded_receipt rc) <= 65536 ->
            has_receipt r p rc -> ready r archived "234567" -> has_key r o -> stage (re_names r) (re_files r) (w_files (be_world c)) ->
            exists k' c' i, recover_by r p (k, c) = (Some (Ok tt), (k', c')) /\
              fs_names (w_files (be_world c')) = <[re_output r := i]> (re_names r) /\
              named (re_output r) i (Regular "234567") (w_files (be_world c')) /\
              exists format decrypted, be_out c' = be_out c ++ [PrintedRecovery (rc_ID rc) format decrypted "" (re_output r)])).
Proof.
  split; [exact kit_receipt|]. destruct typed_flags as (f & Hf & HR). rewrite <- HR.
  destruct (receipt_gives_file_back true error_text decode journey_of typed f "/dati" 1 "234567" before (fst (snd run)) after
    (n_server (w_net (be_world after)))) as (o & rc & _ & H).
  - exact receipts_read_back.
  - exact Hf.
  - by rewrite HR.
  - intros o. split; apply _.
  - apply _.
  - exact office_reachable.
  - exact data_named.
  - vm_compute. reflexivity.
  - apply rtc_refl.
  - exists o, rc. exact H.
Defined.
End Delivery.
