(* ===== verification/Startup.v ===== *)
(** The start of the writer ([src/cmd/onlybackup-writer/main.go]): its flags, the two
    locks, the state directory, the catalogue, the reconciliation and the three sockets,
    up to the moment it serves, and what it undoes when it ends.  What serves is an
    argument: see [Servers]. *)
From S2P Require Import Prelude GoTime GoString Model Policy Flags GoPath Catalog Automation Io Tables Upgrade Layout Writer Front.

(** ** The machine

    The part of the archive that the uploads use; the state directory with its modes and
    owners; the catalogue as tables, which an opening upgrades; what is at the paths of
    sockets and of their locks; the locks that others hold; and what this process has:
    its locks, and the places where it listens. *)
Inductive node : Type := PlainFile | SocketNode (mode group : Z) | OtherNode.
Inductive lock_name : Type := ArchiveLock | SocketLock.
#[global] Instance lock_name_eq_dec : EqDecision lock_name.
Proof. solve_decision. Defined.
Record machine : Type := Machine {
  h_server : server; h_layout : layout; h_disk : disk; h_nodes : gmap string node; h_busy : string -> bool;
  h_locks : list lock_name; h_listening : list string }.
#[global] Instance eta_machine : Settable machine := fun s =>
  Machine (h_server s) (h_layout s) (h_disk s) (h_nodes s) (h_busy s) (h_locks s) (h_listening s).
Definition in_server {A} : Io.io server A -> Io.io machine A := lift_io h_server (fun x s => s <| h_server := x |>).
Definition in_layout {A} : Io.io layout A -> Io.io machine A := lift_io h_layout (fun x s => s <| h_layout := x |>).
Definition in_disk {A} : Io.io disk A -> Io.io machine A := lift_io h_disk (fun x s => s <| h_disk := x |>).

(** ** Configuration *)
Definition writer_flags : flag_set :=
  [("state", FlagString "./var/onlybackup"); ("socket", FlagString "./var/onlybackup/writer.sock"); ("admin-socket", FlagString "");
   ("maintenance-socket", FlagString ""); ("admin-user", FlagString ""); ("maintenance-user", FlagString "");
   ("admin-group", FlagString ""); ("maintenance-group", FlagString ""); ("ingest-group", FlagString "");
   ("reserve-free", FlagString "1GiB"); ("upload-timeout", FlagDuration (2 * 3600 * 1000000000))]%string.
Record configuration : Type := Configuration {
  cf_Root : string; cf_Socket : string; cf_AdminSocket : string; cf_MaintenanceSocket : string;
  cf_AdminUID : Z; cf_MaintenanceUID : Z; cf_AdminGroup : string; cf_MaintenanceGroup : string; cf_IngestGroup : string;
  cf_Reserve : Z; cf_Timeout : Z }.

Section accounts.
(** The effective user, and [user.Lookup] and [user.LookupGroup]: the number as a text. *)
Context (euid : Z) (Lookup LookupGroup : string -> option string).

Definition number_of (name : string) : option Z := n ← Atoi name; if 0 <=? n then Some n else None.
Definition looked_up (lookup : string -> option string) (missing invalid name : string) : result err Z :=
  match lookup name with
  | None => Err (ErrText (missing ++ name))
  | Some text => match Atoi text with Some n => Ok n | None => Err (ErrText (invalid ++ name)) end
  end.
Definition resolveUID (name : string) : result err Z :=
  if String.eqb name "" then Ok euid
  else match number_of name with Some uid => Ok uid | None => looked_up Lookup "utente locale " "UID non valido per " name end.
Definition resolveGID (name : string) : result err Z :=
  match number_of name with Some gid => Ok gid | None => looked_up LookupGroup "gruppo locale " "GID non valido per " name end.
Definition configure (args : list string) : result err configuration :=
  '(f, rest) ← parse_flags writer_flags args;
  if negb (bool_decide (rest = [])) then Err (ErrText "argomenti inattesi")
  else if flag_duration f "upload-timeout" <? 1000000000 then Err (ErrText "timeout troppo breve")
  else
    let root := flag_string f "state" in
    let socket := flag_string f "socket" in
    let default flag name := if String.eqb flag "" then Join [root; name] else flag in
    let adminSocket := default (flag_string f "admin-socket") "admin.sock"%string in
    let maintenanceSocket := default (flag_string f "maintenance-socket") "maintenance.sock"%string in
    if String.eqb socket adminSocket || String.eqb socket maintenanceSocket || String.eqb adminSocket maintenanceSocket
    then Err (ErrText "le socket deposito, amministrazione e manutenzione devono essere distinte")
    else
      adminUID ← resolveUID (flag_string f "admin-user");
      maintenanceUID ← resolveUID (flag_string f "maintenance-user");
      free ← ParseBytes (flag_string f "reserve-free");
      Ok (Configuration root socket adminSocket maintenanceSocket adminUID maintenanceUID
            (flag_string f "admin-group") (flag_string f "maintenance-group") (flag_string f "ingest-group") free (flag_duration f "upload-timeout")).
End accounts.

Section startup.
Context `{Platform} (euid egid : Z) (Lookup LookupGroup : string -> option string).
Context (fate_of : nat -> fate) (short : nat -> option Z) (clock : nat -> Z) (image : database -> string) (exposed : string -> bool).
(** Where a path leads, and the mode of a new socket under the mask of the process. *)
Context (place : string -> string) (created : Z).
Abbreviation io := (Io.io machine).
Abbreviation act := (Io.act alone fate_of).

(** The end of something the process has: closing a descriptor releases it whatever it
    reports. *)
Definition release (f : machine -> machine) : io unit := fun '(n, s) =>
  match fate_of n with
  | Stops => (None, ((n + 1)%nat, s))
  | StopsLate => (None, ((n + 1)%nat, f s))
  | _ => (Some tt, ((n + 1)%nat, f s))
  end.

(** A descriptor that is not returned is not kept. *)
Definition acquire (f : machine -> machine) : io (result failure unit) := fun '(n, s) =>
  match fate_of n with
  | Works => (Some (Ok tt), ((n + 1)%nat, f s))
  | Fails e | FailsLate e => (Some (Err (fault_error e)), ((n + 1)%nat, s))
  | Stops => (None, ((n + 1)%nat, s))
  | StopsLate => (None, ((n + 1)%nat, f s))
  end.

(** ** Locks *)
(** [os.OpenFile] of [writer.lock]. *)
Definition open_archive_lock : Io.io layout (result failure unit) := Io.act alone fate_of (fun s =>
  match ly_tree s !! "writer.lock"%string, ly_tree s !! ""%string with
  | Some e, _ => (match en_Type e with
                  | Directory => Err (OsError (EOTHER "is a directory"))
                  | Symlink => if ly_links s "writer.lock" then Err (OsError (EOTHER "is a directory")) else Ok tt
                  | _ => Ok tt
                  end, s)
  | None, Some p => (Ok tt, s <| ly_tree ::= <["writer.lock"%string := Entry Layout.Regular (oct 6 0 0) euid egid (en_Dev p) ∅]> |>)
  | None, None => (Err (OsError ENOENT), s)
  end).
Definition open_socket_lock (path : string) : io (result failure unit) := act (fun s =>
  match h_nodes s !! place path with
  | None => (Ok tt, s <| h_nodes ::= <[place path := PlainFile]> |>)
  | Some PlainFile => (Ok tt, s)
  | Some _ => (Err (OsError (EOTHER "not a file")), s)
  end).
(** [flock] without waiting; [taken]: by another process. *)
Definition flock (l : lock_name) (taken : machine -> bool) (message : string) : io (result failure unit) :=
  r ← (_ ←? act (fun s => (if taken s then Err (OsError (EOTHER "resource temporarily unavailable")) else Ok tt, s));
       acquire (fun s => s <| h_locks ::= cons l |>));
  mret (match r with Ok _ => Ok tt | Err _ => Err (Failed (ErrText message)) end).
Fixpoint remove_first {A} `{EqDecision A} (x : A) (l : list A) : list A :=
  match l with [] => [] | y :: rest => if decide (y = x) then rest else y :: remove_first x rest end.
Definition unlock (l : lock_name) : io unit := release (fun s => s <| h_locks ::= remove_first l |>).

(** ** Sockets *)
Definition remove_node (path : string) : io (result failure unit) := act (fun s =>
  match h_nodes s !! place path with
  | Some _ => (Ok tt, s <| h_nodes ::= delete (place path) |>)
  | None => (Err (OsError ENOENT), s)
  end).
(** A socket that was left is removed; nothing else is. *)
Definition clear_socket (path message : string) : io (result failure unit) :=
  info ← act (fun s => (match h_nodes s !! place path with Some n => Ok n | None => Err (OsError ENOENT) end, s));
  match info with
  | Ok (SocketNode _ _) => remove_node path
  | Ok _ => mret (Err (Failed (ErrText message)))
  | Err e => mret (if not_exist e then Ok tt else Err e)
  end.
Definition listen (path : string) : io (result failure unit) :=
  _ ←? act (fun s =>
    match h_nodes s !! place path with
    | Some _ => (Err (OsError (EOTHER "address already in use")), s)
    | None => (Ok tt, s <| h_nodes ::= <[place path := SocketNode created egid]> |>)
    end);
  acquire (fun s => s <| h_listening ::= cons (place path) |>).
Definition change_node (path : string) (f : node -> node) : io (result failure unit) := act (fun s =>
  match h_nodes s !! place path with
  | Some n => (Ok tt, s <| h_nodes ::= <[place path := f n]> |>)
  | None => (Err (OsError ENOENT), s)
  end).
Definition chmod_node (path : string) (mode : Z) : io (result failure unit) :=
  change_node path (fun n => match n with SocketNode _ g => SocketNode mode g | _ => n end).
Definition setSocketGroup (path name : string) : io (result failure unit) :=
  if String.eqb name "" then mret (Ok tt)
  else
    match resolveGID LookupGroup name with
    | Err e => mret (Err (Failed e))
    | Ok gid => change_node path (fun n => match n with SocketNode m _ => SocketNode m gid | _ => n end)
    end.
(** [Listener.Close] removes the path it was given. *)
Definition close_listener (path : string) : io unit := release (fun s =>
  s <| h_nodes ::= delete (place path) |> <| h_listening ::= remove_first (place path) |>).
Definition shared_socket (path group : string) : io (result failure unit) := _ ←? chmod_node path (oct 6 6 0); setSocketGroup path group.
Definition listenPrivileged (path group : string) : io (result failure unit) :=
  _ ←? clear_socket path "il percorso socket privilegiata esistente non e una socket";
  _ ←? listen path;
  r ← shared_socket path group;
  match r with
  | Ok _ => mret (Ok tt)
  | Err e => _ ← close_listener path; mret (Err e)
  end.
(** The deferred [Remove] and [Close] of a socket. *)
Definition undone {A} (path : string) (m : io A) : io A := r ← m; _ ← remove_node path; _ ← close_listener path; mret r.

(** ** The start *)
Section service.
(** The servers, until they have ended. *)
Context (serve : configuration -> io (result failure unit)).

Definition on_sockets (c : configuration) : io (result failure unit) :=
  _ ←? clear_socket (cf_Socket c) "il percorso socket esistente non è una socket";
  _ ←? listen (cf_Socket c);
  undone (cf_Socket c) (
    _ ←? shared_socket (cf_Socket c) (cf_IngestGroup c);
    _ ←? listenPrivileged (cf_AdminSocket c) (cf_AdminGroup c);
    undone (cf_AdminSocket c) (
      _ ←? listenPrivileged (cf_MaintenanceSocket c) (cf_MaintenanceGroup c);
      undone (cf_MaintenanceSocket c) (serve c))).
Definition socket_lock (c : configuration) : string := (cf_Socket c ++ ".lock")%string.
Definition with_socket_lock (c : configuration) : io (result failure unit) :=
  _ ←? open_socket_lock (socket_lock c);
  _ ←? flock SocketLock (fun s => h_busy s (place (socket_lock c))) "un writer è già attivo su questa socket";
  r ← on_sockets c;
  _ ← unlock SocketLock;
  mret r.
Definition prepared_archive (c : configuration) : io (result failure unit) :=
  _ ←? in_layout (PrepareMaintenanceState euid egid fate_of);
  _ ←? in_layout (ValidateState euid fate_of);
  _ ←? in_disk (Open fate_of short image exposed (Join [cf_Root c; "metadata.db"%string]) false);
  _ ←? in_server (Io.act alone fate_of (on_store (SetReserveFree (cf_Reserve c))));
  in_server (Reconcile alone fate_of clock).
Definition with_archive_lock (c : configuration) : io (result failure unit) :=
  _ ←? in_layout open_archive_lock;
  _ ←? flock ArchiveLock (fun s => ly_busy (h_layout s) "writer.lock") "un writer è già attivo su questo archivio";
  r ← (_ ←? prepared_archive c; with_socket_lock c);
  _ ← unlock ArchiveLock;
  mret r.
Definition runArgs (args : list string) : io (result failure unit) :=
  match configure euid Lookup args with
  | Err e => mret (Err (Failed e))
  | Ok c => with_archive_lock c
  end.
End service.
End startup.
