(* ===== verification/Starting.v ===== *)
(** What holds when the writer starts to serve, and what it leaves when it ends. *)
From S2P Require Import Prelude GoTime GoString Model Policy Catalog RetentionMachine Deposit Automation Store Archive Io Tables Upgrade Upgrading Layout Migration Writer Custody Recovery System Front Sending Flags GoPath Startup.

(** ** Obtaining and giving back *)
Section effects.
Context (fate_of : nat -> fate).
Lemma triple_given_up (P : machine -> Prop) f (Q R : machine -> Prop) : (forall s, P s -> R s) -> (forall s, P s -> R (f s)) -> (forall s, P s -> Q (f s)) ->
  triple P (release fate_of f) (fun _ => Q) R.
Proof. intros H1 H2 H3 n s Hs. unfold release. destruct (fate_of n); auto. Qed.
Lemma triple_acquire (P : machine -> Prop) f (Q : result failure unit -> machine -> Prop) (R : machine -> Prop) :
  (forall s, P s -> R s) -> (forall s, P s -> R (f s)) -> (forall s, P s -> Q (Ok tt) (f s)) -> (forall e s, P s -> Q (Err e) s) ->
  triple P (acquire fate_of f) Q R.
Proof. intros H1 H2 H3 H4 n s Hs. unfold acquire. destruct (fate_of n); auto. Qed.
(** An effect that cannot break what is known, whatever its outcome. *)
Lemma triple_unbroken {A} (P R : machine -> Prop) (effect : machine -> result failure A * machine) : (forall s, P s -> R s) -> (forall s, P s -> P (snd (effect s))) ->
  triple P (act alone fate_of effect) (fun _ => P) R.
Proof. intros HR HP. eapply triple_weaken; [apply (triple_act_inv alone fate_of P); exact HP|done..]. Qed.
End effects.
Lemma remove_first_sublist {A} `{EqDecision A} (x : A) l l' : l `sublist_of` x :: l' -> remove_first x l `sublist_of` l'.
Proof.
  assert (forall k, remove_first x k `sublist_of` k) as Hsub.
  { induction k as [|y k IH]; cbn; [constructor|]. case_decide; [by apply sublist_cons|by apply sublist_skip]. }
  intros H. inversion H as [| |]; subst; cbn.
  - by rewrite decide_True.
  - etrans; [apply Hsub|done].
Qed.

(** ** The state directory *)
Section directory.
Context (euid egid : Z) (fate_of : nat -> fate).
Definition proper (path : string) (modes : list Z) (s : layout) : Prop :=
  exists e, ly_tree s !! path = Some e /\ en_Type e = Directory /\ existsb (Z.eqb (en_Mode e)) modes = true /\ en_Uid e = euid.
(** The directories of an archive, private to its owner, and none of the earlier layout. *)
Definition laid_out (s : layout) : Prop :=
  (forall name, In name names -> ly_tree s !! old_path name = None) /\
  proper "" root_modes s /\ proper "incoming" [oct 7 0 0] s /\ proper "archives" root_modes s /\
  proper "archives/backups" shared_modes s /\ proper "archives/quarantine" shared_modes s /\ proper "maintenance" shared_modes s.

Lemma triple_looked_at s0 path : triple (eq s0) (Layout.lstat fate_of path) (fun r s => s = s0 /\ match r with
  | Ok e => ly_tree s0 !! path = Some e | Err e => not_exist e = true -> ly_tree s0 !! path = None end) (eq s0).
Proof.
  apply triple_act; [apply _|done|]. intros s <-. cbn. split; [done|]. split; [|by intros []].
  split; [done|]. by destruct (ly_tree s0 !! path).
Qed.
Lemma triple_proper s0 path modes : triple (eq s0) (validateDirectoryModes euid fate_of path modes)
  (fun r s => s = s0 /\ (r = Ok tt -> proper path modes s0)) (eq s0).
Proof.
  unfold validateDirectoryModes. eapply triple_try; [apply triple_looked_at| |by intros e s [-> _]]. intros info. apply triple_ret. intros s [-> E].
  split; [done|]. destruct (bool_decide _) eqn:Et; [|done]. destruct (existsb _ modes) eqn:Em; [|done]. destruct (Z.eqb_spec (en_Uid info) euid) as [Eu|]; [|done].
  intros _. exists info. apply bool_decide_eq_true in Et. done.
Qed.
Lemma triple_legacy s0 l : triple (eq s0)
  (each_path (fun name => r ← Layout.lstat fate_of (old_path name);
    mret (match r with
          | Ok _ => err_text "layout archivio precedente: fermare tutti i servizi ed eseguire onlybackup-admin --state DIR migrate-archives"
          | Err e => if not_exist e then Ok tt else Err e
          end)) l)
  (fun r s => s = s0 /\ (r = Ok tt -> forall name, In name l -> ly_tree s0 !! old_path name = None)) (eq s0).
Proof.
  induction l as [|name l IH]; cbn [each_path]; [apply triple_ret; intros s <-; by split|].
  eapply (triple_try _ _ _ _ (fun r s => s = s0 /\ (r = Ok tt -> ly_tree s0 !! old_path name = None))).
  - eapply triple_bind; [apply triple_looked_at|]. intros [e|e]; apply triple_ret; intros s [-> E]; (split; [done|]); [done|]. by destruct (not_exist e); auto.
  - intros []. apply (triple_pre _ (fun s => ly_tree s0 !! old_path name = None /\ s0 = s)); [|by intros s [-> E]; split; [apply E|]].
    apply triple_pure. intros E. eapply triple_weaken; [exact IH|done| |done]. intros r s [-> Hl]. split; [done|]. intros -> n [<-|Hn]; [done|by apply Hl].
  - by intros e s [-> _].
Qed.

(** A step that only looks, and learns [X]. *)
Lemma triple_learn {A} s0 (m : Io.io layout (result failure unit)) (k : Io.io layout (result failure A)) (X : Prop) (Q : result failure A -> layout -> Prop) :
  triple (eq s0) m (fun r s => s = s0 /\ (r = Ok tt -> X)) (eq s0) -> (forall e, Q (Err e) s0) -> (X -> triple (eq s0) k Q (eq s0)) ->
  triple (eq s0) (io_try m (fun _ => k)) Q (eq s0).
Proof.
  intros Hm He Hk. eapply triple_try; [exact Hm| |by intros e s [-> _]]. intros [].
  apply (triple_pre _ (fun s => X /\ s0 = s)); [by apply triple_pure|]. intros s [-> HX]. split; [by apply HX|done].
Qed.
Lemma triple_archive_layout s0 : triple (eq s0) (ValidateArchiveLayout euid fate_of)
  (fun r s => s = s0 /\ (r = Ok tt -> forall name, In name names -> ly_tree s0 !! old_path name = None)) (eq s0).
Proof.
  unfold ValidateArchiveLayout, rejectLegacyArchiveDirectories. eapply triple_learn; [apply triple_legacy|done|]. intros E.
  eapply triple_weaken; [apply triple_proper|done| |done]. by intros r s [-> _].
Qed.
Lemma triple_ValidateState s0 : triple (eq s0) (ValidateState euid fate_of) (fun r s => s = s0 /\ (r = Ok tt -> laid_out s0)) (eq s0).
Proof.
  unfold ValidateState. eapply triple_learn; [apply triple_archive_layout|done|intros H1].
  do 5 (eapply triple_learn; [apply triple_proper|done|intros ?]).
  eapply triple_weaken; [apply triple_proper|done| |done]. intros r s [-> Hm]. split; [done|]. intros Hr. by repeat split; auto.
Qed.
End directory.

(** ** The archive *)
Section start.
Context `{Platform} (linked : bool) (rows : list backup) (d0 : database).
Context (euid egid : Z) (Lookup LookupGroup : string -> option string).
Context (fate_of : nat -> fate) (short : nat -> option Z) (clock : nat -> Z) (image : database -> string) (exposed : string -> bool).
Context (place : string -> string) (created : Z).
Hypothesis catalog_tidy : tidy d0.
Hypothesis catalog_rebuildable : db_Version d0 <= 4 -> rebuildable d0.

(** The deposits are in their places, and the rows of the catalogue are kept. *)
Definition sound (s : machine) : Prop := keeps linked rows (h_server s) /\ preserved d0 (k_Db (h_disk s)).
(** The archive belongs to this process and can be served. *)
Definition secured (s : machine) : Prop :=
  In ArchiveLock (h_locks s) /\ In SocketLock (h_locks s) /\ laid_out euid (h_layout s) /\ db_Version (k_Db (h_disk s)) = 12.
(** What holds at every moment: nothing listens on an archive that is not secured. *)
Definition kept (s : machine) : Prop := sound s /\ (h_listening s <> [] -> secured s).

(** The parts beside the state directory, the catalogue and the files. *)
Definition beside (locks : list lock_name) (listening : list string) (s : machine) : Prop := h_locks s = locks /\ h_listening s = listening.
Definition starting (locks : list lock_name) (s : machine) : Prop := sound s /\ beside locks [] s.
Lemma starting_kept locks s : starting locks s -> kept s.
Proof. intros (Hs & _ & E). split; [done|]. by rewrite E. Qed.

(** After the preparation of the archive. *)
Definition prepared (s : machine) : Prop := laid_out euid (h_layout s) /\ db_Version (k_Db (h_disk s)) = 12 /\ reconciled (h_server s).

Lemma triple_at_each {S A} (P : S -> Prop) (m : Io.io S A) Q (R : S -> Prop) : (forall s0, P s0 -> triple (eq s0) m Q R) -> triple P m Q R.
Proof. intros Hm n s Hs. by apply (Hm s Hs). Qed.

Definition untouched (s : machine) : Prop := starting [ArchiveLock] s /\ k_Db (h_disk s) = d0.
Definition upgraded (s : machine) : Prop := starting [ArchiveLock] s /\ laid_out euid (h_layout s) /\ db_Version (k_Db (h_disk s)) = 12.

Lemma triple_directories : triple untouched (_ ←? in_layout (PrepareMaintenanceState euid egid fate_of); in_layout (ValidateState euid fate_of))
  (fun r s => untouched s /\ (r = Ok tt -> laid_out euid (h_layout s))) kept.
Proof.
  eapply (triple_try _ _ _ _ (fun _ => untouched)); [| |by intros e s Hs].
  - eapply triple_weaken; [apply (triple_lift h_layout _ untouched (fun _ => True) _ (fun _ _ => True) (fun _ => True))|done|by intros r s []|intros s [_ [Hs _]]; by eapply starting_kept]; try done.
    intros n l _. by destruct (PrepareMaintenanceState _ _ _ _) as [[r|] [n' l']].
  - intros []. apply triple_at_each. intros s0 Hs0. set (l0 := h_layout s0).
    eapply triple_weaken; [apply (triple_lift h_layout (fun x s => s <| h_layout := x |>) untouched (eq l0) _ (fun r l => l = l0 /\ (r = Ok tt -> laid_out euid l0)) (eq l0))| | |intros s [_ [Hs _]]; by eapply starting_kept]; try done.
    + apply triple_ValidateState.
    + by intros s <-.
    + intros r s [[-> Hl] Hu]. split; [done|]. exact Hl.
Qed.
Lemma triple_catalog path : triple (fun s => untouched s /\ laid_out euid (h_layout s)) (in_disk (Open fate_of short image exposed path false))
  (fun r s => (is_ok r = true -> upgraded s) /\ starting [ArchiveLock] s) kept.
Proof.
  apply triple_at_each. intros s0 [[Hs0 Hd] Hl]. set (k0 := h_disk s0). set (F := fun s => keeps linked rows (h_server s) /\ beside [ArchiveLock] [] s /\ laid_out euid (h_layout s)).
  pose proof (triple_opening fate_of short image exposed path false k0) as Ho. unfold k0 in Ho at 1 2 3. rewrite Hd in Ho. specialize (Ho catalog_tidy catalog_rebuildable).
  eapply triple_weaken; [eapply (triple_lift h_disk _ F (eq k0)); [done|by intros d m Hm|exact Ho]|..].
  - intros s <-. split; [done|]. split; [apply Hs0|]. split; [apply Hs0|done].
  - intros r s [[[[Hp _] _] Hv] (Hk & Hb & Hl')]. assert (preserved d0 (k_Db (h_disk s))) as Hp' by (rewrite <- Hd; exact Hp).
    assert (starting [ArchiveLock] s) as Hs by (by split; [split|]).
    split; [|done]. destruct r as [v|]; [|done]. intros _. destruct (Hv v eq_refl) as (E & _ & H12). split; [done|]. split; [done|]. rewrite E. by apply H12.
  - intros s [[[Hp _] _] (Hk & Hb & _)]. assert (preserved d0 (k_Db (h_disk s))) as Hp' by (rewrite <- Hd; exact Hp).
    apply (starting_kept [ArchiveLock]). by split; [split|].
Qed.
Lemma triple_restart free : triple upgraded (_ ←? in_server (Io.act alone fate_of (on_store (SetReserveFree free))); in_server (Reconcile alone fate_of clock))
  (fun r s => (r = Ok tt -> prepared s) /\ starting [ArchiveLock] s) kept.
Proof.
  set (F := fun s => preserved d0 (k_Db (h_disk s)) /\ beside [ArchiveLock] [] s /\ laid_out euid (h_layout s) /\ db_Version (k_Db (h_disk s)) = 12).
  assert (forall A (m : Io.io server A) (Q : A -> server -> Prop), triple (keeps linked rows) m (fun a s => keeps linked rows s /\ Q a s) (keeps linked rows) ->
    triple upgraded (in_server m) (fun a s => upgraded s /\ Q a (h_server s)) kept) as Hpart.
  { intros A m Q Hm. eapply triple_weaken; [eapply (triple_lift h_server _ F); [done|by intros d x Hx|exact Hm]|..].
    - intros s ([[Hk Hp] Hb] & Hl & Hv). done.
    - intros a s [[Hk HQ] (Hp & Hb & Hl & Hv)]. done.
    - intros s [Hk (Hp & Hb & Hl & Hv)]. by apply (starting_kept [ArchiveLock]). }
  eapply (triple_try _ _ _ _ (fun _ => upgraded)).
  - eapply triple_weaken; [apply (Hpart _ _ (fun _ _ => True))|done|by intros r s []|done].
    eapply triple_weaken; [apply (triple_act_inv alone fate_of (keeps linked rows))|done|done|done]. intros s. apply keeps_frame, frame_SetReserveFree.
  - intros []. eapply triple_weaken; [apply (Hpart _ _ (fun r s => is_ok r = true -> reconciled s)), triple_Reconcile|done| |done].
    intros r s [(Hs & Hl & Hv) Hr]. split; [intros ->; split; [done|split; [done|by apply Hr]]|done].
  - intros e s Hs. split; [done|apply Hs].
Qed.
Lemma triple_prepared c : triple untouched (prepared_archive euid egid fate_of short clock image exposed c)
  (fun r s => (r = Ok tt -> prepared s) /\ starting [ArchiveLock] s) kept.
Proof.
  assert (forall (r : result failure unit) s, is_ok r = false -> starting [ArchiveLock] s -> (r = Ok tt -> prepared s) /\ starting [ArchiveLock] s) as Herr.
  { intros r s Hr Hs. split; [by intros ->|done]. }
  assert (forall (m1 m2 : Io.io machine (result failure unit)) (k : Io.io machine (result failure unit)) n s,
    (_ ←? m1; _ ←? m2; k) (n, s) = (_ ←? (_ ←? m1; m2); k) (n, s)) as Hassoc.
  { intros m1 m2 k n s. unfold io_try, mbind, io_bind. by destruct (m1 (n, s)) as [[[[]|e]|] [n' s']]. }
  unfold prepared_archive. intros n s Hs. rewrite Hassoc. revert n s Hs.
  eapply triple_try; [apply triple_directories|intros []|by intros e s [[Hs _] _]; apply Herr].
  apply (triple_pre _ (fun s => untouched s /\ laid_out euid (h_layout s))); [|by intros s [Hs Hl]; split; [|apply Hl]].
  eapply triple_try; [apply triple_catalog|intros v|by intros e s [_ Hs]; apply Herr].
  eapply triple_pre; [apply triple_restart|]. intros s [Hs _]. by apply Hs.
Qed.

(** ** The sockets *)
(** This process has both locks, and the archive is as it must be. *)
Definition held (s : machine) : Prop := sound s /\ h_locks s = [SocketLock; ArchiveLock] /\ laid_out euid (h_layout s) /\ db_Version (k_Db (h_disk s)) = 12.
Lemma held_kept s : held s -> kept s.
Proof. intros (Hs & El & Hl & Hv). split; [done|]. intros _. unfold secured. rewrite El. repeat split; try apply Hl; [right; by left|by left|done]. Qed.
Definition shared (path : string) (s : machine) : Prop := exists g, h_nodes s !! place path = Some (SocketNode (oct 6 6 0) g).
Definition at_sockets (L K : list string) (s : machine) : Prop :=
  (held s /\ reconciled (h_server s)) /\ h_listening s = L /\ forall p, In p K -> shared p s.
Lemma at_kept L K s : at_sockets L K s -> kept s.
Proof. intros [[Hh _] _]. by apply held_kept. Qed.
Definition away (path : string) (K : list string) : list string := List.filter (fun p => negb (String.eqb (place p) (place path))) K.
Lemma in_away path K p : In p (away path K) <-> In p K /\ place p <> place path.
Proof. unfold away. rewrite filter_In. by rewrite negb_true_iff, String.eqb_neq. Qed.
Lemma at_fewer L K K' s : (forall p, In p K' -> In p K) -> at_sockets L K s -> at_sockets L K' s.
Proof. intros Hsub (H1 & H2 & H3). split; [done|]. split; [done|]. intros p Hp. by apply H3, Hsub. Qed.

(** What is done at a path leaves the sockets at other places alone. *)
Lemma at_node L K path (f : gmap string node -> gmap string node) s : (forall q, q <> place path -> f (h_nodes s) !! q = h_nodes s !! q) ->
  at_sockets L (away path K) s -> at_sockets L (away path K) (s <| h_nodes ::= f |>).
Proof.
  intros Hf (H1 & H2 & H3). split; [done|]. split; [done|]. intros p Hp. destruct (H3 p Hp) as [g Hg]. apply in_away in Hp as [_ Hne].
  exists g. cbn. by rewrite Hf.
Qed.
Lemma triple_clear L K path message : triple (at_sockets L K) (clear_socket fate_of place path message) (fun _ => at_sockets L (away path K)) kept.
Proof.
  apply (triple_pre _ (at_sockets L (away path K))); [|intros s; apply at_fewer; by intros p [Hp _]%in_away].
  unfold clear_socket. eapply triple_bind; [by apply (triple_unbroken fate_of (at_sockets L (away path K)) kept); [apply at_kept|]|].
  intros [[| |]|e]; try (by apply triple_ret). apply triple_unbroken; [apply at_kept|]. intros s Hs. unfold Startup.remove_node.
  destruct (h_nodes s !! place path); [|done]. apply at_node; [|done]. intros q Hq. by apply lookup_delete_ne.
Qed.
Definition bound (path : string) (s : machine) : Prop := exists m g, h_nodes s !! place path = Some (SocketNode m g).
Lemma triple_listen L K path : triple (at_sockets L (away path K)) (listen egid fate_of place created path)
  (fun r s => if r is Ok _ then at_sockets (place path :: L) (away path K) s /\ bound path s else at_sockets L (away path K) s) kept.
Proof.
  unfold listen. eapply (triple_try _ _ _ _ (fun r s => at_sockets L (away path K) s /\ (r = Ok tt -> bound path s))); [| |by intros e s []].
  - apply triple_act; [apply _|apply at_kept|]. intros s Hs. destruct (h_nodes s !! place path) as [x|]; cbn [fst snd].
    + split; [by eapply at_kept|]. by split.
    + assert (at_sockets L (away path K) (s <| h_nodes ::= <[place path := SocketNode created egid]> |>)) as Hs'.
      { apply at_node; [|done]. intros q Hq. by apply lookup_insert_ne. }
      split; [by eapply at_kept|]. split; [|by intros f]. split; [done|]. intros _. exists created, egid. apply lookup_insert_eq.
  - intros []. apply triple_acquire; [by intros s [Hs _]; eapply at_kept| | |by intros e s []].
    + intros s [[[Hh _] _] _]. apply held_kept. exact Hh.
    + intros s [(H1 & H2 & H3) Hb]. split; [|by apply Hb]. split; [done|]. split; [cbn; by rewrite H2|done].
Qed.
Lemma triple_share L K path group : triple (fun s => at_sockets L (away path K) s /\ bound path s) (shared_socket LookupGroup fate_of place path group)
  (fun r => at_sockets L (if r is Ok _ then path :: away path K else away path K)) kept.
Proof.
  set (S := at_sockets L (path :: away path K)). set (S0 := at_sockets L (away path K)).
  assert (forall s, S s -> S0 s) as Hsub by (intros s; apply at_fewer; by right).
  assert (forall s n, S0 s -> S0 (s <| h_nodes ::= <[place path := n]> |>)) as Hput.
  { intros s n Hs. apply at_node; [|done]. intros q Hq. by apply lookup_insert_ne. }
  assert (forall s g, S0 s -> S (s <| h_nodes ::= <[place path := SocketNode (oct 6 6 0) g]> |>)) as Hshare.
  { intros s g Hs. destruct (Hput s (SocketNode (oct 6 6 0) g) Hs) as (H1 & H2 & H3). split; [done|]. split; [done|].
    intros p [<-|Hp]; [|by apply H3]. exists g. apply lookup_insert_eq. }
  unfold shared_socket. eapply (triple_try _ _ _ _ (fun r => if r is Ok _ then S else S0)); [| |done].
  - unfold chmod_node, change_node. apply triple_act; [apply _|by intros s [Hs _]; eapply at_kept|]. intros s [Hs (m & g & Hn)]. rewrite Hn. cbn [fst snd].
    split; [eapply at_kept; by eapply Hput|]. split; [by apply Hshare|]. intros f. split; [done|by apply Hput].
  - intros []. unfold setSocketGroup. destruct (String.eqb group ""); [by apply triple_ret|]. destruct (resolveGID LookupGroup group) as [gid|]; [|by apply triple_ret].
    unfold change_node. apply triple_act; [apply _|apply at_kept|]. intros s Hs. pose proof Hs as (_ & _ & H3). destruct (H3 path) as [g Hg]; [by left|]. rewrite Hg. cbn [fst snd].
    apply Hsub in Hs as Hs0. split; [eapply at_kept; by eapply Hput|]. split; [by apply Hshare|]. intros f. split; [done|by apply Hput].
Qed.
Lemma triple_privileged L K path group : triple (at_sockets L K) (listenPrivileged egid LookupGroup fate_of place created path group)
  (fun r => if r is Ok _ then at_sockets (place path :: L) (path :: away path K) else at_sockets L (away path K)) kept.
Proof.
  unfold listenPrivileged. eapply (triple_try _ _ _ _ (fun _ => at_sockets L (away path K))); [apply triple_clear|intros []|done].
  eapply triple_try; [apply triple_listen|intros []|by intros e s].
  eapply triple_bind; [apply triple_share|]. intros [[]|e]; [by apply triple_ret|].
  eapply (triple_bind _ _ _ _ (fun _ => at_sockets L (away path K))); [|intros ?; by apply triple_ret]. apply triple_given_up; [apply at_kept|..].
  - intros s [[Hh _] _]. apply held_kept. exact Hh.
  - intros s Hs. cbn beta iota. pose proof Hs as (H1 & H2 & _). split; [exact H1|]. split; [cbn; rewrite H2; cbn; by rewrite decide_True|].
    intros p Hp. destruct Hs as (_ & _ & H3). destruct (H3 p Hp) as [g Hg]. apply in_away in Hp as [_ Hne]. exists g. cbn. by rewrite lookup_delete_ne.
Qed.

(** ** The service *)
Definition in_service (L : list string) (s : machine) : Prop := held s /\ h_listening s `sublist_of` L.
Definition listening_of (c : configuration) : list string := [place (cf_MaintenanceSocket c); place (cf_AdminSocket c); place (cf_Socket c)].
(** All that the servers find when they start. *)
Definition ready (c : configuration) (s : machine) : Prop :=
  held s /\ reconciled (h_server s) /\ h_listening s = listening_of c /\ shared (cf_MaintenanceSocket c) s /\
  (place (cf_AdminSocket c) <> place (cf_MaintenanceSocket c) -> shared (cf_AdminSocket c) s) /\
  (place (cf_Socket c) <> place (cf_AdminSocket c) -> place (cf_Socket c) <> place (cf_MaintenanceSocket c) -> shared (cf_Socket c) s).
Lemma in_service_kept L s : in_service L s -> kept s.
Proof. intros [Hs _]. by apply held_kept. Qed.

Lemma triple_undone {A} (P : machine -> Prop) path L (m : Io.io machine A) : triple P m (fun _ => in_service (place path :: L)) kept ->
  triple P (undone fate_of place path m) (fun _ => in_service L) kept.
Proof.
  intros Hm. unfold undone. eapply triple_bind; [exact Hm|intros r].
  eapply (triple_bind _ _ _ _ (fun _ => in_service (place path :: L))).
  { apply triple_unbroken; [apply in_service_kept|]. intros s Hs. by destruct (h_nodes s !! place path). }
  intros _. eapply (triple_bind _ _ _ _ (fun _ => in_service L)); [|intros ?; by apply triple_ret].
  apply triple_given_up; [apply in_service_kept|..].
  - intros s [Hh _]. apply held_kept. exact Hh.
  - intros s [Hh Hl]. split; [exact Hh|]. by apply remove_first_sublist.
Qed.

Context (serve : configuration -> Io.io machine (result failure unit)) (c : configuration).
Hypothesis served : triple (ready c) (serve c) (fun _ => in_service (listening_of c)) kept.

Lemma at_in_service L K s : at_sockets L K s -> in_service L s.
Proof. intros [[Hh _] [El _]]. split; [done|]. by rewrite El. Qed.
Lemma in_service_fewer L p s : in_service L s -> in_service (p :: L) s.
Proof. intros [Hh Hl]. split; [done|]. by apply sublist_cons. Qed.

Lemma triple_sockets : triple (at_sockets [] []) (on_sockets egid LookupGroup fate_of place created serve c) (fun _ => in_service []) kept.
Proof.
  unfold on_sockets. eapply (triple_try _ _ _ _ (fun _ => at_sockets [] (away (cf_Socket c) []))); [apply triple_clear|intros []|by intros e s; apply at_in_service].
  eapply triple_try; [apply triple_listen|intros []|by intros e s; apply at_in_service]. apply triple_undone.
  eapply triple_try; [apply triple_share|intros []|by intros e s; apply at_in_service].
  eapply triple_try; [apply triple_privileged|intros []|by intros e s; apply at_in_service].
  apply triple_undone. eapply triple_try; [apply triple_privileged|intros []|by intros e s; apply at_in_service].
  apply triple_undone. eapply triple_pre; [exact served|]. intros s ((Hh & Hr) & El & HK). split; [done|]. split; [done|]. split; [done|].
  split; [apply HK; by left|]. split; intros Hne.
  - apply HK. right. apply in_away. split; [by left|done].
  - intros Hne'. apply HK. right. apply in_away. split; [|done]. right. apply in_away. split; [by left|done].
Qed.

Lemma triple_flock (P Q : machine -> Prop) l taken message : (forall s, P s -> kept s) -> (forall s, P s -> Q (s <| h_locks ::= cons l |>)) -> (forall s, Q s -> kept s) ->
  triple P (flock fate_of l taken message) (fun r => if r is Ok _ then Q else P) kept.
Proof.
  intros HP HQ HQk. unfold flock. eapply (triple_bind _ _ _ _ (fun r => if r is Ok _ then Q else P)); [|by intros [[]|e]; apply triple_ret].
  eapply (triple_try _ _ _ _ (fun _ => P)); [by apply triple_unbroken| |done]. intros []. apply triple_acquire; auto.
Qed.

Lemma triple_socket_lock : triple (fun s => prepared s /\ starting [ArchiveLock] s)
  (with_socket_lock egid LookupGroup fate_of place created serve c) (fun _ => starting [ArchiveLock]) kept.
Proof.
  set (P := fun s => prepared s /\ starting [ArchiveLock] s). assert (forall s, P s -> kept s) as HP by (intros s [_ Hs]; by eapply starting_kept).
  unfold with_socket_lock. eapply (triple_try _ _ _ _ (fun _ => P)); [apply triple_unbroken; [done|]|intros []|by intros e s []].
  { intros s Hs. unfold P. by destruct (h_nodes s !! place (socket_lock c)) as [[]|]. }
  eapply triple_try; [apply (triple_flock P (at_sockets [] [])); [done|..|intros s; apply at_kept]|intros []|by intros e s []].
  { intros s [(Hl & Hv & Hr) (Hs & E1 & E2)]. split; [|done]. split; [|done]. split; [done|]. split; [cbn; by rewrite E1|done]. }
  eapply triple_bind; [apply triple_sockets|intros r]. eapply (triple_bind _ _ _ _ (fun _ => starting [ArchiveLock])); [|intros ?; by apply triple_ret].
  assert (forall s, in_service [] s -> starting [ArchiveLock] (s <| h_locks ::= remove_first SocketLock |>)) as Hend.
  { intros s [(Hs & E & Hl & Hv) Hn]. split; [done|]. split; [cbn; by rewrite E|]. by apply sublist_nil_r. }
  apply triple_given_up; [apply in_service_kept|intros s Hs; by eapply starting_kept, Hend|done].
Qed.
Lemma triple_archive_lock : triple (fun s => starting [] s /\ k_Db (h_disk s) = d0)
  (with_archive_lock euid egid LookupGroup fate_of short clock image exposed place created serve c) (fun _ => starting []) kept.
Proof.
  set (P := fun s => starting [] s /\ k_Db (h_disk s) = d0). assert (forall s, P s -> kept s) as HP by (intros s [Hs _]; by eapply starting_kept).
  unfold with_archive_lock. eapply (triple_try _ _ _ _ (fun _ => P)); [|intros []|by intros e s []].
  { eapply triple_weaken; [apply (triple_lift h_layout _ P (fun _ => True) _ (fun _ _ => True) (fun _ => True))|done|by intros r s []|by intros s [_ Hs]; apply HP]; try done.
    intros n l _. by destruct (open_archive_lock _ _ _ _) as [[r|] [n' l']]. }
  assert (forall s, untouched s -> kept s) as Hu by (intros s [Hs _]; by eapply starting_kept).
  eapply triple_try; [apply (triple_flock P untouched); [done|..|done]|intros []|by intros e s []].
  { intros s [(Hs & E1 & E2) Hd]. split; [|done]. split; [done|]. split; [cbn; by rewrite E1|done]. }
  eapply (triple_bind _ _ _ _ (fun _ => starting [ArchiveLock])).
  - eapply triple_try; [apply triple_prepared|intros []|by intros e s []]. eapply triple_pre; [apply triple_socket_lock|]. intros s [Hp Hs]. by split; [apply Hp|].
  - intros r. eapply (triple_bind _ _ _ _ (fun _ => starting [])); [|intros ?; by apply triple_ret].
    assert (forall s, starting [ArchiveLock] s -> starting [] (s <| h_locks ::= remove_first ArchiveLock |>)) as Hend.
    { intros s (Hs & E1 & E2). split; [done|]. split; [cbn; by rewrite E1|done]. }
    apply triple_given_up; [intros s; apply starting_kept|intros s Hs; by eapply starting_kept, Hend|done].
Qed.
End start.

(** *** Two writers *)
(** An archive whose lock is held is left alone. *)
Lemma second_writer_refused `{Platform} euid egid Lookup LookupGroup fate_of short clock image exposed place created serve args n s :
  ly_busy (h_layout s) "writer.lock" = true ->
  let '(r, (_, s')) := runArgs euid egid Lookup LookupGroup fate_of short clock image exposed place created serve args (n, s) in
  r <> Some (Ok tt) /\ h_server s' = h_server s /\ h_disk s' = h_disk s /\ h_nodes s' = h_nodes s /\ h_locks s' = h_locks s /\ h_listening s' = h_listening s.
Proof.
  intros Hbusy. set (P := fun s' => (ly_busy (h_layout s') "writer.lock" = true) /\
    h_server s' = h_server s /\ h_disk s' = h_disk s /\ h_nodes s' = h_nodes s /\ h_locks s' = h_locks s /\ h_listening s' = h_listening s).
  assert (triple P (runArgs euid egid Lookup LookupGroup fate_of short clock image exposed place created serve args) (fun r s' => r <> Ok tt /\ P s') P) as Ht.
  - unfold runArgs. destruct (configure euid Lookup args) as [c|e]; [|by apply triple_ret]. unfold with_archive_lock.
    eapply (triple_try _ _ _ _ (fun _ => P)); [|intros []|by intros e s' Hs].
    + set (F := fun s' => h_server s' = h_server s /\ h_disk s' = h_disk s /\ h_nodes s' = h_nodes s /\ h_locks s' = h_locks s /\ h_listening s' = h_listening s).
      set (B := fun l : layout => ly_busy l "writer.lock" = true).
      assert (triple B (open_archive_lock euid egid fate_of) (fun _ => B) B) as Ho.
      { apply (triple_act_inv alone fate_of B). intros l Hl. by destruct (ly_tree l !! "writer.lock"%string), (ly_tree l !! ""%string). }
      eapply triple_weaken; [eapply (triple_lift h_layout _ F B); [done|by intros l x Hx|exact Ho]|by intros s' Hs|by intros r s' Hs|by intros s' Hs].
    + eapply (triple_try _ _ _ _ (fun r s' => r <> Ok tt /\ P s')); [|intros []; by intros ? ? []|by intros e s' []].
      unfold flock. eapply (triple_bind _ _ _ _ (fun r s' => r <> Ok tt /\ P s')); [|intros [[]|e]; apply triple_ret; [by intros s' []|by intros s' [_ Hs]]].
      eapply (triple_try _ _ _ _ (fun r s' => r <> Ok tt /\ P s')); [|intros []; by intros ? ? []|by intros e s' []].
      apply triple_act; [apply _|done|]. intros s' Hs. rewrite (proj1 Hs). by split.
  - specialize (Ht n s ltac:(done)). destruct (runArgs _ _ _ _ _ _ _ _ _ _ _ _ _ (n, s)) as [[r|] [n' s']].
    + destruct Ht as [Hr [_ Hs]]. split; [congruence|done].
    + destruct Ht as [_ Hs]. by split.
Qed.


(** ** A start *)
Module Boot.
Import Scenario.
#[local] Existing Instance platform.
Definition host : machine := Machine empty_server New.made FirstRelease.installed ∅ (fun _ => false) [] [].
Definition boots (serve : configuration -> Io.io machine (result failure unit)) (args : list string) :=
  runArgs 990 990 (fun _ => None) (fun _ => None) faultless (fun _ => None) (fun _ => 0) (fun _ => "bytes"%string) (fun _ => false) Clean (oct 7 5 5) serve args (0%nat, host).
(** The moment at which the servers start. *)
Definition at_service (args : list string) : machine := snd (snd (boots (fun _ w => (None, w)) args)).

Lemma host_boots : fst (boots (fun _ => mret (Ok tt)) []) = Some (Ok tt) /\
  h_listening (at_service []) = ["var/onlybackup/maintenance.sock"; "var/onlybackup/admin.sock"; "var/onlybackup/writer.sock"]%string /\
  h_nodes (at_service []) !! "var/onlybackup/writer.sock"%string = Some (SocketNode (oct 6 6 0) 990).
Proof. by vm_compute. Qed.
(** Two spellings of one path pass for two sockets: the second removes the first and takes
    its place. *)
Definition twice : list string := ["--socket"; "./var/onlybackup/admin.sock"]%string.
Lemma same_socket_twice : is_ok (configure 990 (fun _ => None) twice) = true /\
  h_listening (at_service twice) = ["var/onlybackup/maintenance.sock"; "var/onlybackup/admin.sock"; "var/onlybackup/admin.sock"]%string.
Proof. by vm_compute. Qed.

Definition usual : configuration :=
  Configuration "./var/onlybackup" "./var/onlybackup/writer.sock" "var/onlybackup/admin.sock" "var/onlybackup/maintenance.sock" 990 990 "" "" ""
    (2^30) (2 * 3600 * 1000000000).
#[local] Opaque FirstRelease.catalog.
End Boot.
