(* ===== verification/Servers.v ===== *)
(** The three servers of the writer, from the moment they serve to the end of the program
    ([src/cmd/onlybackup-writer/main.go]): a step relation over its four threads. *)
From S2P Require Import Prelude.

(** ** Threads

    [serveLocal] runs once for the administration and once for the maintenance: it
    serves, puts an error into the channel, cancels the context and is done. *)
Inductive local_server : Type := Admin | Maintenance.
#[global] Instance local_server_eq_dec : EqDecision local_server.
Proof. solve_decision. Defined.
Inductive local_state : Type := LocalServing | LocalReporting | LocalCancelling | LocalDone (failed : bool).
(** The thread that waits for the context and shuts the local servers down in turn. *)
Inductive stopper_state : Type := StopperWaiting | StoppingAdmin | StoppingMaintenance | StopperDone.
(** [runArgs]: in [lifecycle.Serve], after it, in [localServers.Wait], before the [select],
    and returned, with an error of its own or not and the one it received. *)
Inductive main_state : Type :=
| MainServing
| MainCancelling (own : bool)
| MainWaiting (own : bool)
| MainCollecting (own : bool)
| MainDone (own : bool) (received : option local_server).

Record servers : Type := Servers_ {
  sv_Admin : local_state; sv_Maintenance : local_state; sv_Stopper : stopper_state; sv_Main : main_state;
  sv_Cancelled : bool; sv_Errors : list local_server }.
#[global] Instance eta_servers : Settable servers := fun s =>
  Servers_ (sv_Admin s) (sv_Maintenance s) (sv_Stopper s) (sv_Main s) (sv_Cancelled s) (sv_Errors s).
Definition serving : servers := Servers_ LocalServing LocalServing StopperWaiting MainServing false [].
(** [make(chan error, 2)] *)
Definition error_capacity : nat := 2.

Definition local (x : local_server) (s : servers) : local_state := match x with Admin => sv_Admin s | Maintenance => sv_Maintenance s end.
Definition set_local (x : local_server) (l : local_state) (s : servers) : servers :=
  match x with Admin => s <| sv_Admin := l |> | Maintenance => s <| sv_Maintenance := l |> end.
(** Once [Shutdown] of a server has begun its [Serve] returns [ErrServerClosed]. *)
Definition shut (x : local_server) (st : stopper_state) : bool :=
  match st, x with
  | StopperWaiting, _ => false
  | StoppingAdmin, Admin => true
  | StoppingAdmin, Maintenance => false
  | _, _ => true
  end.

(** What comes from outside: a signal, and the failure of a listener. *)
Inductive event : servers -> servers -> Prop :=
| ev_signal s : event s (s <| sv_Cancelled := true |>)
| ev_local_fails s x : local x s = LocalServing -> event s (set_local x LocalReporting s)
| ev_main_fails s : sv_Main s = MainServing -> event s (s <| sv_Main := MainCancelling true |>).

(** What the program does.  That [lifecycle.Serve] returns once the context is cancelled
    supposes that the handlers leave: [Lifecycle] has what happens inside. *)
Inductive step : servers -> servers -> Prop :=
| st_closed s x : local x s = LocalServing -> shut x (sv_Stopper s) = true -> step s (set_local x (LocalDone false) s)
| st_report s x : local x s = LocalReporting -> (length (sv_Errors s) < error_capacity)%nat ->
    step s (set_local x LocalCancelling s <| sv_Errors ::= (fun l => l ++ [x]) |>)
| st_cancel s x : local x s = LocalCancelling -> step s (set_local x (LocalDone true) s <| sv_Cancelled := true |>)
| st_stop_admin s : sv_Stopper s = StopperWaiting -> sv_Cancelled s = true -> step s (s <| sv_Stopper := StoppingAdmin |>)
| st_stop_maintenance s : sv_Stopper s = StoppingAdmin -> step s (s <| sv_Stopper := StoppingMaintenance |>)
| st_stopped s : sv_Stopper s = StoppingMaintenance -> step s (s <| sv_Stopper := StopperDone |>)
| st_served s : sv_Main s = MainServing -> sv_Cancelled s = true -> step s (s <| sv_Main := MainCancelling false |>)
| st_main_cancel s own : sv_Main s = MainCancelling own -> step s (s <| sv_Main := MainWaiting own |> <| sv_Cancelled := true |>)
| st_waited s own : sv_Main s = MainWaiting own -> (forall x, exists f, local x s = LocalDone f) -> step s (s <| sv_Main := MainCollecting own |>)
| st_collected s own : sv_Main s = MainCollecting own ->
    step s (s <| sv_Main := MainDone own (head (sv_Errors s)) |> <| sv_Errors ::= tail |>).

Definition running (s : servers) : Prop := rtc (fun s s' => event s s' \/ step s s') serving s.

(** ** An invariant *)
Definition is_done (l : local_state) : bool := match l with LocalDone _ => true | _ => false end.
(** Its error went into the channel; it has failed. *)
Definition sent (l : local_state) : nat := match l with LocalCancelling | LocalDone true => 1 | _ => 0 end.
Definition failed (l : local_state) : bool := match l with LocalServing | LocalDone false => false | _ => true end.
Definition received (m : main_state) : list local_server := match m with MainDone _ (Some x) => [x] | _ => [] end.
Definition same (x y : local_server) : bool := match x, y with Admin, Admin | Maintenance, Maintenance => true | _, _ => false end.
Fixpoint times (x : local_server) (l : list local_server) : nat := match l with [] => 0 | y :: l' => (if same y x then 1 else 0) + times x l' end.
Definition waited (m : main_state) : bool := match m with MainCollecting _ | MainDone _ _ => true | _ => false end.
Definition cancelling (m : main_state) : bool := match m with MainServing | MainCancelling _ => false | _ => true end.
Record orderly (s : servers) : Prop := Orderly {
  or_errors : forall x, times x (received (sv_Main s) ++ sv_Errors s) = sent (local x s);
  or_none : forall own, sv_Main s = MainDone own None -> sv_Errors s = [];
  or_stopper : sv_Stopper s = StopperWaiting \/ sv_Cancelled s = true;
  or_done : forall x, is_done (local x s) = true -> sv_Cancelled s = true;
  or_main : cancelling (sv_Main s) = true -> sv_Cancelled s = true;
  or_waited : waited (sv_Main s) = true -> forall x, is_done (local x s) = true }.

Lemma times_app x l l' : times x (l ++ l') = (times x l + times x l')%nat.
Proof. induction l as [|y l IH]; cbn; [done|]. rewrite IH. lia. Qed.
Lemma times_length l : length l = (times Admin l + times Maintenance l)%nat.
Proof. induction l as [|[] l IH]; cbn; lia. Qed.
Lemma sent_bound l : (sent l <= 1)%nat.
Proof. destruct l as [| | |[]]; cbn; lia. Qed.

Lemma serving_orderly : orderly serving.
Proof. split; try done; [by intros []|by left|by intros []]. Qed.
(** The threads, one after the other. *)
Lemma local_orderly x l s : orderly s -> sent l = sent (local x s) -> is_done (local x s) = false -> (is_done l = true -> sv_Cancelled s = true) ->
  orderly (set_local x l s).
Proof.
  intros [H1 H2 H3 H4 H5 H6] Hl Hn Hd.
  assert (waited (sv_Main s) = false) as Hw by (destruct (waited (sv_Main s)); [by rewrite H6 in Hn|done]).
  destruct s as [a m st ma c e], x; cbn in *; (split; cbn in *; [|done|done| |done|by rewrite Hw]).
  all: intros []; cbn in *; try rewrite Hl; first [apply (H1 Admin)|apply (H1 Maintenance)|apply (H4 Admin)|apply (H4 Maintenance)|done].
Qed.
Lemma event_orderly s s' : orderly s -> event s s' -> orderly s'.
Proof.
  intros H He. destruct He as [s|s x Hx|s Hm].
  - destruct H as [H1 H2 H3 H4 H5 H6]. split; cbn; auto.
  - apply local_orderly; rewrite ?Hx; done.
  - destruct H as [H1 H2 H3 H4 H5 H6]. split; rewrite ?Hm in *; done.
Qed.
Lemma report_orderly x s : orderly s -> local x s = LocalReporting -> orderly (set_local x LocalCancelling s <| sv_Errors ::= (fun l => l ++ [x]) |>).
Proof.
  intros [H1 H2 H3 H4 H5 H6] Hx.
  assert (waited (sv_Main s) = false) as Hw by (destruct (waited (sv_Main s)); [by specialize (H6 eq_refl x); rewrite Hx in H6|done]).
  destruct s as [a m st ma c e]; destruct x; cbn in *; subst; (split; cbn in *; [|by destruct ma|done| |done|by rewrite Hw]).
  2,4: intros []; cbn; first [apply (H4 Admin)|apply (H4 Maintenance)|done].
  all: pose proof (H1 Admin) as HA; pose proof (H1 Maintenance) as HM; cbn in HA, HM; intros []; rewrite app_assoc, times_app; cbn; lia.
Qed.
Lemma cancel_orderly x s : orderly s -> local x s = LocalCancelling -> orderly (set_local x (LocalDone true) s <| sv_Cancelled := true |>).
Proof.
  intros [H1 H2 H3 H4 H5 H6] Hx.
  assert (waited (sv_Main s) = false) as Hw by (destruct (waited (sv_Main s)); [by specialize (H6 eq_refl x); rewrite Hx in H6|done]).
  pose proof (H1 Admin) as HA; pose proof (H1 Maintenance) as HM.
  destruct s as [a m st ma c e]; destruct x; cbn in *; subst; (split; cbn in *; [by intros []|done|by right|done|done|by rewrite Hw]).
Qed.
Lemma step_orderly s s' : orderly s -> step s s' -> orderly s'.
Proof.
  intros H Hs. destruct Hs as [s x Hx Hc|s x Hx Hc|s x Hx|s Hx Hc|s Hx|s Hx|s Hx Hc|s own Hx|s own Hx Hd|s own Hx].
  - apply local_orderly; rewrite ?Hx; try done. intros _. destruct (or_stopper s H) as [E|]; [|done]. by rewrite E in Hc.
  - by apply report_orderly.
  - by apply cancel_orderly.
  - destruct H as [H1 H2 H3 H4 H5 H6]. split; cbn; auto.
  - destruct H as [H1 H2 H3 H4 H5 H6]. rewrite Hx in H3. destruct H3 as [|H3]; [done|]. split; cbn; auto.
  - destruct H as [H1 H2 H3 H4 H5 H6]. rewrite Hx in H3. destruct H3 as [|H3]; [done|]. split; cbn; auto.
  - destruct H as [H1 H2 H3 H4 H5 H6]. rewrite Hx in *. by split.
  - destruct H as [H1 H2 H3 H4 H5 H6]. rewrite Hx in *. split; cbn; auto; done.
  - destruct H as [H1 H2 H3 H4 H5 H6]. rewrite Hx in *. split; cbn; try done. intros _ x. destruct (Hd x) as [f Hf]. destruct x; cbn in *; by rewrite Hf.
  - destruct H as [H1 H2 H3 H4 H5 H6]. rewrite Hx in *. split; cbn in *; try done.
    + intros x. etrans; [|by apply (H1 x)]. by destruct (sv_Errors s).
    + intros own' [= E]. by destruct (sv_Errors s).
Qed.
Lemma running_orderly s : running s -> orderly s.
Proof.
  intros Hr. assert (forall s1 s2, rtc (fun s s' => event s s' \/ step s s') s1 s2 -> orderly s1 -> orderly s2) as Hi; [|by eapply Hi, serving_orderly].
  clear. induction 1 as [|s1 s2 s3 [He|Hs] _ IH]; intros H; [done|..]; apply IH; [by eapply event_orderly|by eapply step_orderly].
Qed.

(** ** The end *)
(** Nothing has happened: everything serves. *)
Definition idle (s : servers) : Prop := sv_Admin s = LocalServing /\ sv_Maintenance s = LocalServing /\ sv_Main s = MainServing /\ sv_Cancelled s = false.
(** The program has returned: nothing serves, and if a local server failed it is told. *)
Definition ended (s : servers) : Prop := exists own r, sv_Main s = MainDone own r /\ (forall x, is_done (local x s) = true) /\
  (forall x, failed (local x s) = true -> r <> None).

(** Every step is progress. *)
Definition rank_local (l : local_state) : nat := match l with LocalServing => 3 | LocalReporting => 2 | LocalCancelling => 1 | LocalDone _ => 0 end.
Definition rank_stopper (st : stopper_state) : nat := match st with StopperWaiting => 3 | StoppingAdmin => 2 | StoppingMaintenance => 1 | StopperDone => 0 end.
Definition rank_main (m : main_state) : nat := match m with MainServing => 4 | MainCancelling _ => 3 | MainWaiting _ => 2 | MainCollecting _ => 1 | MainDone _ _ => 0 end.
Definition rank (s : servers) : nat := rank_local (sv_Admin s) + rank_local (sv_Maintenance s) + rank_stopper (sv_Stopper s) + rank_main (sv_Main s).
Lemma step_rank s s' : step s s' -> (rank s' < rank s)%nat.
Proof.
  intros Hs. destruct Hs as [s x Hx Hc|s x Hx Hc|s x Hx|s Hx Hc|s Hx|s Hx|s Hx Hc|s own Hx|s own Hx Hd|s own Hx]; unfold rank;
    try (destruct x); cbn in *; rewrite Hx; cbn; lia.
Qed.
Lemma step_ends s : Acc (fun s' s => step s s') s.
Proof.
  assert (forall n s, (rank s < n)%nat -> Acc (fun s' s => step s s') s) as Hn; [|by apply (Hn (S (rank s))); lia].
  induction n as [|n IH]; intros s0 Hr; [lia|]. constructor. intros s' Hs%step_rank. apply IH. lia.
Qed.

(** There is always room for an error. *)
Lemma room s x : orderly s -> local x s = LocalReporting -> (length (sv_Errors s) < error_capacity)%nat.
Proof.
  intros H Hx. unfold error_capacity. pose proof (or_errors s H Admin) as HA. pose proof (or_errors s H Maintenance) as HM.
  rewrite times_app in HA, HM. rewrite times_length. pose proof (sent_bound (local Admin s)). pose proof (sent_bound (local Maintenance s)).
  destruct x; rewrite Hx in *; cbn in *; lia.
Qed.
(** Where the program does nothing more, it waits for something to happen or has ended. *)
Lemma settled_end s : orderly s -> (forall s', ~ step s s') -> idle s \/ ended s.
Proof.
  intros H Hno.
  assert (forall x, local x s = LocalServing \/ is_done (local x s) = true) as Hl.
  { intros x. destruct (local x s) eqn:E; auto; exfalso; eapply Hno; [apply (st_report s x); [done|by apply room with x]|by apply (st_cancel s x)]. }
  destruct (sv_Cancelled s) eqn:Ec.
  - right. assert (sv_Stopper s = StopperDone) as Es.
    { destruct (sv_Stopper s) eqn:E; [|..|done]; exfalso; eapply Hno; [by apply st_stop_admin|by apply st_stop_maintenance|by apply st_stopped]. }
    assert (forall x, is_done (local x s) = true) as Hd.
    { intros x. destruct (Hl x) as [E|]; [|done]. exfalso. eapply Hno, (st_closed s x); [done|]. by rewrite Es; destruct x. }
    destruct (sv_Main s) as [|own|own|own|own r] eqn:Em.
    + exfalso. by eapply Hno, st_served.
    + exfalso. by eapply Hno, st_main_cancel.
    + exfalso. eapply Hno, st_waited; [done|]. intros x. specialize (Hd x). by destruct (local x s) as [| | |f]; [..|exists f].
    + exfalso. by eapply Hno, st_collected.
    + exists own, r. split; [done|]. split; [done|]. intros x Hf ->. pose proof (or_errors s H x) as He. rewrite Em, (or_none s H own Em) in He. specialize (Hd x).
      by destruct (local x s) as [| | |[]].
  - left. assert (forall x, local x s = LocalServing) as Hs.
    { intros x. destruct (Hl x) as [|E]; [done|]. apply (or_done s H) in E. congruence. }
    split; [apply (Hs Admin)|]. split; [apply (Hs Maintenance)|]. split; [|done]. pose proof (or_main s H) as Hm. destruct (sv_Main s) eqn:Em; [done|..]; try (specialize (Hm eq_refl); congruence).
    exfalso. by eapply Hno, st_main_cancel.
Qed.

(** C15. The writer ends as a whole: after a signal or the failure of any of its three
    listeners its threads take only finitely many steps, never block on one another, and
    stop only when the program has returned, with both local servers ended and the error
    of a local server told if one failed; where nothing has happened it serves on. *)
Theorem servers_end s : running s -> Acc (fun s' s => step s s') s /\
  forall s', rtc step s s' -> (forall s'', ~ step s' s'') -> idle s' \/ ended s'.
Proof.
  intros Hr. split; [apply step_ends|]. intros s' Hs Hno. apply settled_end; [|done]. apply running_orderly in Hr. induction Hs as [|s1 s2 s3 H12 _ IH]; [done|].
  apply IH; [by eapply step_orderly|done].
Qed.
Lemma servers_end_witness : running (set_local Admin LocalReporting serving) /\ (exists s', step (set_local Admin LocalReporting serving) s') /\
  Acc (fun s' s => step s s') (set_local Admin LocalReporting serving) /\
  forall s', rtc step (set_local Admin LocalReporting serving) s' -> (forall s'', ~ step s' s'') -> idle s' \/ ended s'.
Proof.
  assert (running (set_local Admin LocalReporting serving)) as Hr by (apply rtc_once; left; by apply (ev_local_fails serving Admin)).
  split; [exact Hr|]. split; [by eexists; apply (st_report _ Admin); [|unfold error_capacity; cbn; lia]|]. apply (servers_end _ Hr).
Defined.
