(* ===== verification/Guard.v ===== *)
(** The guard of the lease, beside a maintenance cycle: the thread that renews it, the
    renewals of the cycle itself, and the end of both before the lease is released
    ([leaseGuard] of [src/internal/maintenance/service.go]), as a step relation over the
    interleavings of the two. *)
From S2P Require Import Prelude Model Catalog Retention Archive Io.

(** ** Renewal

    [renew] asks with the lease it read under the mutex, and stores the one it gets. *)
Record lease_guard : Type := LeaseGuard { lg_lease : lease; lg_err : option failure; lg_cancelled : bool; lg_stop : bool }.
#[global] Instance eta_lease_guard : Settable lease_guard := fun g => LeaseGuard (lg_lease g) (lg_err g) (lg_cancelled g) (lg_stop g).

Definition renewal_begins (g : lease_guard) : result failure lease :=
  match lg_err g with Some e => Err e | None => Ok (lg_lease g) end.
Definition renewal_error (e : failure) : failure :=
  match e with Failed e => Failed (ErrWrap e "rinnovo lease") | OsError e => OsError e end.
Definition same_lease (l l' : lease) : bool := String.eqb (l_Owner l) (l_Owner l') && (l_Generation l =? l_Generation l').
Definition renewal_answered (asked : lease) (answer : result failure lease) : result failure lease :=
  match answer with
  | Err e => Err (renewal_error e)
  | Ok renewed => if same_lease renewed asked then Ok renewed else Err (Failed ErrLease)
  end.
(** [identity]: a copy under the mutex. *)
Definition identity (g : lease_guard) : lease := Lease (l_Owner (lg_lease g)) (l_Generation (lg_lease g)) (l_ExpiresAt (lg_lease g)).
Definition guard_fail (e : failure) (g : lease_guard) : lease_guard :=
  match lg_err g with None => g <| lg_err := Some e |> <| lg_cancelled := true |> | Some _ => g end.

(** ** Two threads *)
Inductive renewer_state : Type :=
| Looping
| Asking (asked : lease)
| Failing (e : failure)
| Over.                                (* [guard.done] is closed *)
Inductive cycle_state : Type :=
| Working
| WorkAsking (asked : lease)           (* a renewal of the cycle itself *)
| Cancelling | Stopping | Awaiting     (* [close]: g.cancel(), close(g.stop), <-g.done *)
| Releasing
| Released (l : lease).
Record guarded : Type := Guarded { gd_guard : lease_guard; gd_renewer : renewer_state; gd_cycle : cycle_state }.
#[global] Instance eta_guarded : Settable guarded := fun g => Guarded (gd_guard g) (gd_renewer g) (gd_cycle g).
Definition startLeaseGuard (l : lease) : guarded := Guarded (LeaseGuard l None false false) Looping Working.

(** The answers of the writer are any, and the context of the caller may end at any time. *)
Inductive guard_step : guarded -> guarded -> Prop :=
| gs_stopped s : gd_renewer s = Looping -> lg_stop (gd_guard s) = true -> guard_step s (s <| gd_renewer := Over |>)
| gs_cancelled s : gd_renewer s = Looping -> lg_cancelled (gd_guard s) = true -> guard_step s (s <| gd_renewer := Over |>)
| gs_tick s : gd_renewer s = Looping ->
    guard_step s (s <| gd_renewer := match renewal_begins (gd_guard s) with Ok l => Asking l | Err e => Failing e end |>)
| gs_renewed s asked answer l : gd_renewer s = Asking asked -> renewal_answered asked answer = Ok l ->
    guard_step s (s <| gd_guard ::= (fun g => g <| lg_lease := l |>) |> <| gd_renewer := Looping |>)
| gs_refused s asked answer e : gd_renewer s = Asking asked -> renewal_answered asked answer = Err e ->
    guard_step s (s <| gd_renewer := Failing e |>)
| gs_fails s e : gd_renewer s = Failing e -> guard_step s (s <| gd_guard ::= guard_fail e |> <| gd_renewer := Over |>)
| gs_context s : guard_step s (s <| gd_guard ::= (fun g => g <| lg_cancelled := true |>) |>)
| gs_asks s l : gd_cycle s = Working -> renewal_begins (gd_guard s) = Ok l -> guard_step s (s <| gd_cycle := WorkAsking l |>)
| gs_work_renewed s asked answer l : gd_cycle s = WorkAsking asked -> renewal_answered asked answer = Ok l ->
    guard_step s (s <| gd_guard ::= (fun g => g <| lg_lease := l |>) |> <| gd_cycle := Working |>)
| gs_work_refused s asked answer e : gd_cycle s = WorkAsking asked -> renewal_answered asked answer = Err e ->
    guard_step s (s <| gd_cycle := Working |>)
| gs_over s : gd_cycle s = Working -> guard_step s (s <| gd_cycle := Cancelling |>)
| gs_cancel s : gd_cycle s = Cancelling ->
    guard_step s (s <| gd_guard ::= (fun g => g <| lg_cancelled := true |>) |> <| gd_cycle := Stopping |>)
| gs_stop s : gd_cycle s = Stopping ->
    guard_step s (s <| gd_guard ::= (fun g => g <| lg_stop := true |>) |> <| gd_cycle := Awaiting |>)
| gs_join s : gd_cycle s = Awaiting -> gd_renewer s = Over -> guard_step s (s <| gd_cycle := Releasing |>)
| gs_release s : gd_cycle s = Releasing -> guard_step s (s <| gd_cycle := Released (identity (gd_guard s)) |>).

(** ** What holds throughout *)
Definition closing (c : cycle_state) : bool := match c with Working | WorkAsking _ | Cancelling | Stopping => false | _ => true end.
Definition cancelling (c : cycle_state) : bool := match c with Stopping => true | _ => closing c end.
Definition joined (c : cycle_state) : bool := match c with Releasing | Released _ => true | _ => false end.
Record guarded_ok (l : lease) (s : guarded) : Prop := GuardedOk {
  go_lease : same_lease (lg_lease (gd_guard s)) l = true;
  go_asked : match gd_renewer s with Asking asked => same_lease asked l = true | _ => True end;
  go_work : match gd_cycle s with WorkAsking asked | Released asked => same_lease asked l = true | _ => True end;
  go_failed : lg_err (gd_guard s) <> None -> lg_cancelled (gd_guard s) = true;
  go_closing : closing (gd_cycle s) = true -> lg_stop (gd_guard s) = true;
  go_cancelling : cancelling (gd_cycle s) = true -> lg_cancelled (gd_guard s) = true;
  go_joined : joined (gd_cycle s) = true -> gd_renewer s = Over }.

Lemma same_lease_spec l l' : same_lease l l' = true <-> l_Owner l = l_Owner l' /\ l_Generation l = l_Generation l'.
Proof. unfold same_lease. by rewrite andb_true_iff, String.eqb_eq, Z.eqb_eq. Qed.
Lemma same_lease_refl l : same_lease l l = true.
Proof. by apply same_lease_spec. Qed.
Lemma answered_same asked l answer renewed : renewal_answered asked answer = Ok renewed -> same_lease asked l = true -> same_lease renewed l = true.
Proof.
  unfold renewal_answered. destruct answer as [x|]; [|done]. destruct (same_lease x asked) eqn:E; [|done]. intros [= <-]. revert E.
  rewrite !same_lease_spec. intuition congruence.
Qed.
Lemma begins_same g l asked : renewal_begins g = Ok asked -> same_lease (lg_lease g) l = true -> same_lease asked l = true.
Proof. unfold renewal_begins. destruct (lg_err g); [done|]. by intros [= <-]. Qed.

Lemma guarded_start l : guarded_ok l (startLeaseGuard l).
Proof. by split; cbn; rewrite ?same_lease_refl. Qed.
Lemma guarded_step l s s' : guarded_ok l s -> guard_step s s' -> guarded_ok l s'.
Proof.
  intros [H1 H2 H3 H4 H5 H6 H7] Hs. destruct s as [g r c]; cbn in *.
  inversion Hs; subst; cbn in *; subst; (split; cbn; [..|]); try assumption; try discriminate; try exact I; try (by intros _);
    try (by intros Hj; specialize (H7 Hj)).
  - destruct (renewal_begins g) eqn:E; [by eapply begins_same|done].
  - by eapply answered_same.
  - unfold guard_fail. by destruct (lg_err g).
  - unfold guard_fail. destruct (lg_err g); [by intros _; apply H4|done].
  - unfold guard_fail. by destruct (lg_err g).
  - intros Hc. unfold guard_fail. destruct (lg_err g); [by apply H6|done].
  - by eapply begins_same.
  - by eapply answered_same.
Qed.
Lemma guarded_reachable l s : rtc guard_step (startLeaseGuard l) s -> guarded_ok l s.
Proof.
  intros Hr. assert (forall a b, rtc guard_step a b -> guarded_ok l a -> guarded_ok l b) as Hind.
  { induction 1; [done|]. eauto using guarded_step. }
  by eapply Hind; [|apply guarded_start].
Qed.

(** ** What it is for *)
(** A renewal that failed ends the work of the cycle. *)
Lemma failed_renewal_cancels l s : rtc guard_step (startLeaseGuard l) s -> lg_err (gd_guard s) <> None -> lg_cancelled (gd_guard s) = true.
Proof. intros Hr. by apply (guarded_reachable _ _ Hr). Qed.
(** The release concerns the lease that was acquired, whatever was renewed, and no renewal
    is under way then or comes after it. *)
Lemma released_own l l' s : rtc guard_step (startLeaseGuard l) s -> gd_cycle s = Released l' ->
  ReleaseMaintenanceLease l' = ReleaseMaintenanceLease l /\ gd_renewer s = Over.
Proof.
  intros Hr Hc. pose proof (guarded_reachable _ _ Hr) as [_ _ H3 _ _ _ H7]. rewrite Hc in H3, H7. split; [|by apply H7].
  apply same_lease_spec in H3 as [Ho Hg]. unfold ReleaseMaintenanceLease. by rewrite Ho, Hg.
Qed.
Lemma released_quiet l l' s s' : rtc guard_step (startLeaseGuard l) s -> gd_cycle s = Released l' -> guard_step s s' ->
  lg_lease (gd_guard s') = lg_lease (gd_guard s) /\ gd_cycle s' = Released l' /\ gd_renewer s' = Over.
Proof.
  intros Hr Hc Hs. destruct (released_own _ _ _ Hr Hc) as [_ Ho]. destruct s as [g r c]; cbn in *. subst.
  by inversion Hs; subst; cbn in *; simplify_eq.
Qed.
(** The permissions the cycle asks for name the same lease after any renewal. *)
Lemma renewed_holds l s now d : rtc guard_step (startLeaseGuard l) s -> lease_holds (identity (gd_guard s)) now d = lease_holds l now d.
Proof.
  intros Hr. pose proof (go_lease _ _ (guarded_reachable _ _ Hr)) as H. apply same_lease_spec in H as [Ho Hg].
  unfold lease_holds, identity. cbn. by rewrite Ho, Hg.
Qed.
(** The end is never blocked: from wherever the two are, the lease can be released. *)
Lemma renewer_ends s : lg_stop (gd_guard s) = true -> exists s', rtc guard_step s s' /\ gd_renewer s' = Over /\ gd_cycle s' = gd_cycle s.
Proof.
  intros Hstop. destruct s as [g r c]; cbn in *. destruct r as [|asked|e|].
  - eexists. split; [by apply rtc_once, gs_stopped|done].
  - eexists. split; [eapply rtc_l; [by apply (gs_refused _ asked (Err (Failed ErrLease)))|by eapply rtc_once, gs_fails]|done].
  - eexists. split; [by eapply rtc_once, gs_fails|done].
  - eexists. by split.
Qed.
Lemma guard_ends l s : rtc guard_step (startLeaseGuard l) s -> exists s' l', rtc guard_step s s' /\ gd_cycle s' = Released l'.
Proof.
  intros Hr. assert (forall s, joined (gd_cycle s) = true -> exists s' l', rtc guard_step s s' /\ gd_cycle s' = Released l') as Hend.
  { intros [g r c] Hj; cbn in *. destruct c as [| | | | | |l']; try done; [|by exists (Guarded g r (Released l')), l'].
    eexists _, _. split; [by apply rtc_once, gs_release|done]. }
  assert (forall s, gd_cycle s = Awaiting -> lg_stop (gd_guard s) = true -> exists s' l', rtc guard_step s s' /\ gd_cycle s' = Released l') as Hwait.
  { intros a Ha Hs. destruct (renewer_ends a Hs) as (b & Hab & Hb & Hc). rewrite Ha in Hc.
    destruct (Hend (Guarded (gd_guard b) (gd_renewer b) Releasing) eq_refl) as (c & l' & Hbc & Hl). exists c, l'. split; [|done].
    eapply (transitivity Hab). eapply rtc_l; [by apply gs_join|exact Hbc]. }
  assert (forall s, gd_cycle s = Cancelling -> exists s' l', rtc guard_step s s' /\ gd_cycle s' = Released l') as Hclose.
  { intros a Ha. edestruct (Hwait (a <| gd_guard ::= (fun g => g <| lg_cancelled := true |> <| lg_stop := true |>) |> <| gd_cycle := Awaiting |>)) as (b & l' & Hb & Hl); [done..|].
    exists b, l'. split; [|done]. eapply rtc_l; [by apply gs_cancel|]. eapply rtc_l; [by apply gs_stop|exact Hb]. }
  pose proof (guarded_reachable _ _ Hr) as [_ _ _ _ H5 _ _]. destruct s as [g r c]; cbn in *. destruct c as [|asked| | | | |l'].
  - destruct (Hclose (Guarded g r Cancelling) eq_refl) as (b & l' & Hb & Hl). exists b, l'. split; [|done]. by eapply rtc_l; [apply gs_over|].
  - destruct (Hclose (Guarded g r Cancelling) eq_refl) as (b & l' & Hb & Hl). exists b, l'. split; [|done].
    eapply rtc_l; [by apply (gs_work_refused _ asked (Err (Failed ErrLease)) (renewal_error (Failed ErrLease)))|]. by eapply rtc_l; [apply gs_over|].
  - by apply Hclose.
  - edestruct (Hwait (Guarded (g <| lg_stop := true |>) r Awaiting)) as (b & l' & Hb & Hl); [done..|]. exists b, l'. split; [|done].
    by eapply rtc_l; [apply gs_stop|].
  - by apply Hwait, H5.
  - by apply Hend.
  - by apply Hend.
Qed.
(** The writer answers a renewal with the same lease: its answer is never refused. *)
Lemma renewal_accepted l now duration d d' renewed : l_Generation l <> 0 ->
  AcquireMaintenanceLease (l_Owner l) (l_Generation l) now duration d = Ok (renewed, d') -> renewal_answered l (Ok renewed) = Ok renewed.
Proof.
  intros Hg (_ & _ & _ & Ho & _ & [(? & _)|(_ & _ & _ & _ & Hgen)])%acquire_lease_ok; [done|].
  cbn. by rewrite (proj2 (same_lease_spec renewed l)).
Qed.
