(* ===== verification/Daemons.v ===== *)
(** The programs of the maintenance process and of the receiver: their flags, and the loop
    of cycles ([src/cmd/onlybackup-maintenance/main.go],
    [src/cmd/onlybackup-receiver/main.go]).  What they log is left out. *)
From S2P Require Import Prelude GoTime GoFloat GoString Model Policy Schedule Forecast Catalog Mail Flags GoPath Io Writer Custody Executor Execution Api Files Private Snapshot Report Monitor Cycle Cycling.
From S2P Require Import GoPath.

(** ** Flags *)
Definition a_second : Z := 1000000000.
Definition maintenance_flags : flag_set :=
  [("state", FlagString "./var/onlybackup"); ("socket", FlagString ""); ("interval", FlagDuration (5 * 60 * a_second));
   ("mail-credentials", FlagString ""); ("once", FlagBool false)]%string.
Record maintenance_config : Type := MaintenanceConfig {
  mc_Root : string; mc_Socket : string; mc_Interval : Z; mc_Credentials : string; mc_Once : bool }.
Definition configure_maintenance (args : list string) : result err maintenance_config :=
  '(f, rest) ← parse_flags maintenance_flags args;
  if negb (bool_decide (rest = [])) then Err (ErrText "argomenti inattesi")
  else if flag_duration f "interval" <? 60 * a_second then Err (ErrText "intervallo minimo un minuto")
  else
    let root := flag_string f "state" in
    let socket := flag_string f "socket" in
    Ok (MaintenanceConfig root (if String.eqb socket "" then Join [root; "maintenance.sock"%string] else socket) (flag_duration f "interval")
          (flag_string f "mail-credentials") (flag_bool f "once")).
(** The name that the process gives to its lease. *)
Definition lease_owner (hostname : string) (pid : Z) : string := (hostname ++ ":" ++ pretty pid)%string.

Definition receiver_flags : flag_set :=
  [("listen", FlagString "127.0.0.1:8443"); ("socket", FlagString "./var/onlybackup/writer.sock"); ("tls-cert", FlagString "");
   ("tls-key", FlagString ""); ("upload-timeout", FlagDuration (2 * 3600 * a_second))]%string.
Record receiver_config : Type := ReceiverConfig {
  rv_Listen : string; rv_Socket : string; rv_Cert : string; rv_Key : string; rv_ReadTimeout : Z; rv_WriteTimeout : Z }.
Definition configure_receiver (args : list string) : result err receiver_config :=
  '(f, rest) ← parse_flags receiver_flags args;
  let cert := flag_string f "tls-cert" in
  let key := flag_string f "tls-key" in
  let timeout := flag_duration f "upload-timeout" in
  if negb (bool_decide (rest = [])) then Err (ErrText "argomenti inattesi")
  else if String.eqb cert "" || String.eqb key "" then Err (ErrText "--tls-cert e --tls-key obbligatori; HTTP in chiaro non disponibile")
  else if timeout <? a_second then Err (ErrText "timeout troppo breve")
  else Ok (ReceiverConfig (flag_string f "listen") (flag_string f "socket") cert key timeout (wrap_int64 (timeout + 60 * a_second))).

(** The receiver never serves without a certificate and a key, nor for less than a second;
    with the longest time-outs the deadline of the answer wraps to a negative one, which
    is none at all. *)
Lemma receiver_needs_tls args c : configure_receiver args = Ok c -> rv_Cert c <> ""%string /\ rv_Key c <> ""%string /\ a_second <= rv_ReadTimeout c.
Proof.
  unfold configure_receiver. destruct (parse_flags receiver_flags args) as [[f rest]|]; [|done]. cbn. destruct (negb _); [done|].
  destruct (String.eqb_spec (flag_string f "tls-cert") ""); [done|]. destruct (String.eqb_spec (flag_string f "tls-key") ""); [done|].
  destruct (Z.ltb_spec (flag_duration f "upload-timeout") a_second); [done|]. by intros [= <-].
Qed.
Example receiver_timeout_wraps : option_map rv_WriteTimeout
    (match configure_receiver ["--tls-cert=c"; "--tls-key=k"; "--upload-timeout=2562047h47m"]%string with Ok c => Some c | Err _ => None end)
  = Some (-9223371993709551616).
Proof. vm_compute. reflexivity. Qed.

(** ** The loop of the maintenance process *)
Section daemon.
Context {S : Type} (cycle : Io.io S (result failure unit)).
(** [NotifyWriterFailure], and whether an error is that of a writer that cannot be reached
    ([WriterUnavailable], which asks the network library). *)
Context (notify : failure -> Io.io S (result failure unit)) (unavailable : failure -> bool).

(** What the process waits for. *)
Inductive wakeup : Type := Tick | Cancelled.

(** A cycle, and the notice of an outage; its own error is dropped. *)
Definition turn : Io.io S (result failure unit) :=
  r ← cycle;
  match r with
  | Ok _ => mret (Ok tt)
  | Err e => _ ← (if unavailable e then notify e else mret (Ok tt)); mret (Err e)
  end.
(** [for { select ... }], over what wakes it; [None]: it still waits. *)
Fixpoint daemon_loop (wakeups : list wakeup) : Io.io S (option (result failure unit)) :=
  match wakeups with
  | [] => mret None
  | Cancelled :: _ => mret (Some (Ok tt))
  | Tick :: rest => _ ← turn; daemon_loop rest
  end.
Definition daemon (once : bool) (wakeups : list wakeup) : Io.io S (option (result failure unit)) :=
  r ← turn;
  if once then mret (Some r) else daemon_loop wakeups.

(** What every cycle and every notice keeps, the daemon keeps. *)
Lemma triple_daemon (I R : S -> Prop) once wakeups : triple I cycle (fun _ => I) R -> (forall e, triple I (notify e) (fun _ => I) R) ->
  triple I (daemon once wakeups) (fun _ => I) R.
Proof.
  intros Hc Hn. assert (triple I turn (fun _ => I) R) as Ht.
  { unfold turn. eapply triple_bind; [exact Hc|]. intros [[]|e]; [by apply triple_ret|].
    eapply (triple_bind _ _ _ _ (fun _ => I)); [destruct (unavailable e); [apply Hn|by apply triple_ret]|intros ?; by apply triple_ret]. }
  unfold daemon. eapply triple_bind; [exact Ht|intros r]. destruct once; [by apply triple_ret|].
  induction wakeups as [|[] rest IH]; cbn [daemon_loop]; [by apply triple_ret| |by apply triple_ret].
  eapply triple_bind; [exact Ht|intros ?; exact IH].
Qed.
(** No failure of a cycle ends it: it goes on to the next, and ends without an error once
    it is cancelled. *)
Lemma daemon_lasts wakeups : triple (fun _ => True) (daemon false wakeups)
  (fun r _ => r = if existsb (fun w => if w is Cancelled then true else false) wakeups then Some (Ok tt) else None) (fun _ => True).
Proof.
  assert (forall A (m : Io.io S A), triple (fun _ => True) m (fun _ _ => True) (fun _ => True)) as Hany.
  { intros A m n s _. by destruct (m (n, s)) as [[a|] [n' s']]. }
  unfold daemon. eapply triple_bind; [apply Hany|intros r]. induction wakeups as [|[] rest IH]; cbn [daemon_loop existsb orb]; [by apply triple_ret| |by apply triple_ret].
  eapply triple_bind; [apply Hany|]. intros ?. eapply triple_pre; [exact IH|done].
Qed.
End daemon.

(** ** The maintenance process

    [service.RunOnce] and [service.NotifyWriterFailure], one after the other. *)
Section process.
Context `{Platform, Trigonometry} (linked : bool) (error_text : failure -> string) (decode : string -> string -> result err fields).
Context (marshal_model : key_model -> string) (state_json : localState -> string) (parse_state : string -> localState * option err).
Context (owner : string) (mail : bool) (stat : nat -> statfs_t).
Context (env : nat -> server -> server) (fate_of : nat -> fate) (clock : nat -> Z) (tokens : nat -> string) (short : nat -> option Z) (turns : nat).
Context (unavailable : failure -> bool).
Definition maintenance_run (once : bool) (wakeups : list wakeup) : Io.io node (option (result failure unit)) :=
  daemon (RunOnce linked error_text decode marshal_model state_json parse_state owner mail stat env fate_of clock tokens short turns)
    (fun e => NotifyWriterFailure state_json parse_state mail fate_of clock short (error_text e)) unavailable once wakeups.

(** The process keeps the custody of the archive for as long as it lives, whatever fails in
    any cycle and wherever it stops. *)
Lemma maintenance_keeps (rows : list backup) once wakeups : Bystanders linked env ->
  triple (fun s => keeps linked rows (n_server s)) (maintenance_run once wakeups) (fun _ s => keeps linked rows (n_server s)) (fun s => keeps linked rows (n_server s)).
Proof.
  intros Hby. apply triple_daemon; [by apply triple_RunOnce|]. intros e. unfold NotifyWriterFailure, write_state.
  destruct mail; cbn [negb]; [|by apply triple_ret].
  eapply triple_bind; [by apply on_load|]. intros [state [e'|]]; [by apply triple_ret|].
  eapply triple_bind; [by apply on_now|]. intros t. cbv zeta. destruct (negb _ && _); [by apply triple_ret|].
  eapply on_try; [|intros ?; apply on_local]. by apply on_apart.
Qed.
End process.
