(* ===== verification/Relay.v ===== *)
(** The receiver between its client and the writer: the tracking of a body that is being
    forwarded ([src/internal/httpbody/body.go]) and the waits of [ServeHTTP] for the
    connection, the answer and its body ([src/internal/gateway/gateway.go]).  What is ready
    first at each [select] is an argument: the theorems hold for every order. *)
From S2P Require Import Prelude GoString Model Io Writer.

(** ** A tracked body *)
Record tracked : Type := Tracked { tr_Body : option reader; tr_Read : Z; tr_EOF : bool }.
Definition Track (body : option reader) : tracked := Tracked body 0 false.
Definition is_EOF (e : option read_error) : bool := match e with Some EOF => true | _ => false end.
Definition tracked_read (t : tracked) (room : Z) : string * option read_error * tracked :=
  match tr_Body t with
  | None => (""%string, Some EOF, Tracked None (tr_Read t) true)
  | Some body =>
    let '(data, e, rest) := read body room in (data, e, Tracked (Some rest) (tr_Read t + len data) (tr_EOF t || is_EOF e))
  end.
Definition Incomplete (contentLength : Z) (t : tracked) : bool :=
  if contentLength =? 0 then false
  else if 0 <? contentLength then tr_Read t <? contentLength
  else negb (tr_EOF t).

(** Reads with these rooms, one after the other: what came out. *)
Fixpoint reads (t : tracked) (rooms : list Z) : string * tracked :=
  match rooms with
  | [] => (""%string, t)
  | room :: rest =>
    let '(data, _, t') := tracked_read t room in
    let '(more, t'') := reads t' rest in ((data ++ more)%string, t'')
  end.
(** The tracker knows how much went through, however it was read: a body of known length
    is incomplete exactly as long as less than that came out. *)
Lemma reads_counted rooms : forall t data t', reads t rooms = (data, t') -> tr_Read t' = tr_Read t + len data.
Proof.
  induction rooms as [|room rooms IH]; intros t data t' E; cbn in E; [injection E as <- <-; change (len "") with 0; lia|].
  destruct (tracked_read t room) as [[chunk e] t1] eqn:Er. destruct (reads t1 rooms) as [more t2] eqn:E2. injection E as <- <-.
  rewrite (IH _ _ _ E2), len_app. enough (tr_Read t1 = tr_Read t + len chunk) by lia. unfold tracked_read in Er.
  destruct (tr_Body t) as [body|]; [|by injection Er as <- _ <-; change (len "") with 0; cbn; lia].
  destruct (read body room) as [[c e'] rest]. by injection Er as <- _ <-.
Qed.
Lemma incomplete_exact body rooms data t n : 0 < n -> reads (Track body) rooms = (data, t) -> Incomplete n t = (len data <? n).
Proof.
  intros Hn E. apply reads_counted in E. cbn in E. unfold Incomplete.
  rewrite (proj2 (Z.eqb_neq n 0)) by lia. rewrite (proj2 (Z.ltb_lt 0 n)) by lia. by rewrite E.
Qed.

(** ** The conversation *)
Definition maxResponseBytes : Z := 65536.
(** What the handler does, in this order. *)
Inductive action : Type :=
| Interrupt                     (* the body of the client is given up, its connection closed *)
| CancelOutbound | CloseConn | CloseResponse
| Waited (milliseconds : Z)     (* a wait that ran out *)
| RespondError (status : Z) (message : string)
| RespondBody (status : Z) (data : string).
(** The end of [RoundTrip] and of the reading of the answer's body, at most a byte more
    than the limit. *)
Inductive round_trip : Type := RoundTripFailed | Answered (status : Z).
Record weather : Type := Weather {
  we_Result : round_trip;
  we_ConnFirst : bool;          (* the connection was there before the result *)
  we_HasConn : bool;            (* and when the result was first, it was there as well *)
  we_FailedFirst : bool;        (* the connection failed before the result *)
  we_Soon : bool;               (* the result came within 10 ms of that *)
  we_Unblocked : bool;          (* within a second of the interruption *)
  we_Closed : bool;             (* within a second of the closing *)
  we_Body : string * bool;      (* the data, and whether its reading reported an error *)
  we_BodyInTime : bool;
  we_BodyAtClose : bool;        (* or within a second of the closing of it all *)
  we_Tracked : nat -> tracked }.  (* the body of the client, at each look *)

Definition interrupt_if (incomplete : bool) : list action := if incomplete then [Interrupt] else [].
(** Up to the result of [RoundTrip]; [None]: the handler answered and returned. *)
Definition collect (n : Z) (w : weather) : list action * option round_trip :=
  if negb (we_ConnFirst w) || negb (we_FailedFirst w) then ([], Some (we_Result w))
  else if we_Soon w then ([], Some (we_Result w))
  else
    let interrupted := Waited 10 :: interrupt_if (Incomplete n (we_Tracked w 0%nat)) in
    if we_Unblocked w then (interrupted, Some (we_Result w))
    else
      let closed := interrupted ++ [Waited 1000; CancelOutbound; CloseConn] in
      if we_Closed w then (closed, Some (we_Result w))
      else (closed ++ [Waited 1000; RespondError 502 "esito non confermato: writer non disponibile"], None).
(** The body of the answer; whether it is an error, and what was read. *)
Definition read_answer (w : weather) : list action * (string * bool) :=
  if we_BodyInTime w then ([], (str_take (maxResponseBytes + 1) (fst (we_Body w)), snd (we_Body w)))
  else ([Waited 5000; CancelOutbound; CloseResponse] ++ (if we_ConnFirst w || we_HasConn w then [CloseConn] else []) ++
          (if we_BodyAtClose w then [] else [Waited 1000]),
        (if we_BodyAtClose w then str_take (maxResponseBytes + 1) (fst (we_Body w)) else ""%string, true)).
Definition relay (n : Z) (w : weather) : list action :=
  let '(before, result) := collect n w in
  match result with
  | None => before
  | Some RoundTripFailed =>
    before ++ interrupt_if (Incomplete n (we_Tracked w 1%nat)) ++ [RespondError 502 "esito non confermato: writer non disponibile"]
  | Some (Answered status) =>
    let '(reading, (data, failed)) := read_answer w in
    before ++ reading ++ [CloseResponse] ++ interrupt_if (Incomplete n (we_Tracked w 1%nat)) ++
    [if failed || (maxResponseBytes <? len data) then RespondError 502 "esito non confermato: risposta writer non valida" else RespondBody status data]
  end.

(** ** What the client is told *)
Definition is_answer (a : action) : bool := match a with RespondError _ _ | RespondBody _ _ => true | _ => false end.
Definition waited (l : list action) : Z := sum_by (fun a => match a with Waited t => t | _ => 0 end) l.
Lemma filter_interrupt b : List.filter is_answer (interrupt_if b) = [].
Proof. by destruct b. Qed.
Lemma waited_app l l' : waited (l ++ l') = waited l + waited l'.
Proof. apply sum_by_app. Qed.
Lemma waited_interrupt b : waited (interrupt_if b) = 0.
Proof. by destruct b. Qed.

(** Exactly one answer is given, and nothing is done after it. *)
Lemma relay_answers n w : exists before a, relay n w = before ++ [a] /\ is_answer a = true /\ List.filter is_answer before = [].
Proof.
  assert (List.filter is_answer (fst (collect n w)) = [] /\ snd (collect n w) <> None \/
    exists before, fst (collect n w) = before ++ [RespondError 502 "esito non confermato: writer non disponibile"] /\ List.filter is_answer before = [] /\ snd (collect n w) = None) as Hc.
  { unfold collect. destruct (_ || _); [by left|]. destruct (we_Soon w); [by left|].
    destruct (we_Unblocked w); [by left; cbn; rewrite filter_interrupt|]. destruct (we_Closed w).
    - left. cbn. by rewrite List.filter_app, filter_interrupt.
    - right. eexists ((Waited 10 :: interrupt_if _) ++ [Waited 1000; CancelOutbound; CloseConn; Waited 1000]). cbn. rewrite <- !app_assoc. split; [done|].
      by rewrite List.filter_app, filter_interrupt. }
  unfold relay. destruct (collect n w) as [before result]. cbn [fst snd] in Hc. destruct Hc as [[Hb Hr]|(b & -> & Hb & ->)]; [|by exists b; eexists].
  destruct result as [[|status]|]; [| |done].
  - eexists (before ++ interrupt_if _), _. rewrite <- app_assoc. split; [done|]. split; [done|]. by rewrite List.filter_app, Hb, filter_interrupt.
  - destruct (read_answer w) as [reading [data failed]] eqn:Ea.
    eexists (before ++ reading ++ [CloseResponse] ++ interrupt_if _), _. rewrite <- !app_assoc. split; [done|]. split; [by destruct (_ || _)|].
    rewrite !List.filter_app, Hb, filter_interrupt. unfold read_answer in Ea. destruct (we_BodyInTime w); injection Ea as <- _ _; [done|].
    by destruct (we_ConnFirst w || we_HasConn w), (we_BodyAtClose w).
Qed.
(** No element of the list is the one looked for. *)
Ltac absent Hin other :=
  repeat (cbn [In] in Hin; match type of Hin with _ \/ _ => destruct Hin as [Hin|Hin] end); first [discriminate Hin|destruct Hin; fail|other].
(** The answer of the writer reaches the client only whole. *)
Lemma relay_whole n w status data : In (RespondBody status data) (relay n w) ->
  we_Result w = Answered status /\ we_BodyInTime w = true /\ we_Body w = (data, false) /\ len data <= maxResponseBytes.
Proof.
  assert (forall b, ~ In (RespondBody status data) (interrupt_if b)) as Hi by (by intros [] []).
  assert (~ In (RespondBody status data) (fst (collect n w)) /\ forall r, snd (collect n w) = Some r -> r = we_Result w) as [Hc Hr].
  { unfold collect. repeat case_match; cbn; rewrite ?in_app_iff; (split; [|first [by intros r [= <-]|by intros r Er]]).
    all: intros Hin; absent Hin ltac:(by apply (Hi _ Hin)). }
  unfold relay. destruct (collect n w) as [before result]. cbn [fst snd] in Hc, Hr. destruct result as [r|]; [|done].
  rewrite <- (Hr r eq_refl). destruct r as [|st].
  - rewrite !in_app_iff. intros [?|[?|[?|[]]]]; [done|by destruct (Hi (Incomplete n (we_Tracked w 1%nat)))|done].
  - destruct (read_answer w) as [reading [d failed]] eqn:Ea. rewrite !in_app_iff. unfold read_answer in Ea.
    assert (~ In (RespondBody status data) reading) as Hread.
    { destruct (we_BodyInTime w); injection Ea as <- _ _; [by intros []|]. destruct (_ || _), (we_BodyAtClose w); cbn; intros Hin; absent Hin fail. }
    intros [?|[?|[[|[]]|[?|[E|[]]]]]]; try done; [by destruct (Hi (Incomplete n (we_Tracked w 1%nat)))|].
    destruct (failed || (maxResponseBytes <? len d)) eqn:Ef; [done|]. injection E as -> ->. apply orb_false_iff in Ef as [-> Hl%Z.ltb_ge].
    split; [done|]. destruct (we_BodyInTime w); [|by injection Ea]. injection Ea as <- Hd Hf. split; [done|].
    assert (data = fst (we_Body w)) as E.
    { subst data. destruct (Z.le_gt_cases (len (fst (we_Body w))) (maxResponseBytes + 1)); [by apply str_take_all; lia|].
      rewrite len_take in Hl by (unfold maxResponseBytes in *; lia). lia. }
    split; [by rewrite E, <- Hf; destruct (we_Body w)|done].
Qed.
(** The waits that run out last about eight seconds at most, and at the answer no body is
    left half read on a connection that stays open. *)
Lemma relay_bounded n w : waited (relay n w) <= 8010.
Proof.
  assert (waited (fst (collect n w)) <= 2010) as Hc.
  { unfold collect. repeat case_match; cbn [fst app]; rewrite ?waited_app; cbn; rewrite ?waited_app, ?waited_interrupt; cbn; try lia. }
  unfold relay. destruct (collect n w) as [before result]. cbn [fst] in Hc. destruct result as [[|status]|]; [| |lia].
  - rewrite !waited_app, waited_interrupt. cbn. lia.
  - destruct (read_answer w) as [reading [data failed]] eqn:Ea. rewrite !waited_app, waited_interrupt.
    assert (waited reading <= 6000) as Hr.
    { unfold read_answer in Ea. destruct (we_BodyInTime w); injection Ea as <- _ _; [done|]. by destruct (_ || _), (we_BodyAtClose w). }
    destruct (_ || _); cbn; lia.
Qed.
Lemma relay_interrupts n w result : snd (collect n w) = Some result -> Incomplete n (we_Tracked w 1%nat) = true -> In Interrupt (relay n w).
Proof.
  intros Hr Hi. unfold relay. destruct (collect n w) as [before r]. cbn in Hr. subst r. rewrite Hi. destruct result as [|status].
  - rewrite !in_app_iff. right. left. by left.
  - destruct (read_answer w) as [reading [data failed]]. rewrite !in_app_iff. right. right. right. left. by left.
Qed.
