(* ===== verification/Peers.v ===== *)
(** Who may reach what: the callers of the two privileged sockets
    ([src/internal/localapi/peer_linux.go]), and private files on both families of systems
    ([src/internal/filesecurity]). *)
From S2P Require Import Prelude GoString Model.

(** ** The privileged sockets *)
Record peer : Type := Peer { p_PID : Z; p_UID : Z; p_GID : Z }.
#[global] Instance peer_eq_dec : EqDecision peer.
Proof. solve_decision. Defined.
(** What comes out of the listener below, and what the kernel says of the caller. *)
Inductive arrival : Type :=
| AcceptFails (e : err)
| NotUnix
| NoCredential                         (* SyscallConn, Control or SO_PEERCRED failed *)
| Credential (p : peer).
(** [Accept]: the loop closes the connections it does not return and waits for the next.
    [None]: it still waits. *)
Fixpoint Accept (allow : option (peer -> bool)) (arrivals : list arrival) : option (result err peer * list arrival) :=
  match arrivals with
  | [] => None
  | AcceptFails e :: rest => Some (Err e, rest)
  | NotUnix :: rest => Some (Err (ErrText "socket privilegiata non Unix"), rest)
  | NoCredential :: rest => Accept allow rest
  | Credential p :: rest =>
    if match allow with None => false | Some f => negb (f p) end then Accept allow rest else Some (Ok p, rest)
  end.
(** The functions that [runArgs] gives to the two listeners. *)
Definition owned_by (uid : Z) (p : peer) : bool := p_UID p =? uid.
(** [ConnContext] and [PeerFromContext]: what a handler knows of its caller; elsewhere than
    on Linux nothing. *)
Definition PeerFromContext (linux : bool) (accepted : peer) : option peer := if linux then Some accepted else None.

(** The connections that are served, one after the other, up to an error. *)
Fixpoint served (fuel : nat) (allow : option (peer -> bool)) (arrivals : list arrival) : list peer :=
  match fuel with
  | O => []
  | S fuel => match Accept allow arrivals with Some (Ok p, rest) => p :: served fuel allow rest | _ => [] end
  end.
(** Who is refused costs nobody a turn: the next caller is the first one that is allowed,
    unless the listener itself failed before. *)
Definition passed (allow : peer -> bool) (a : arrival) : bool :=
  match a with NoCredential => true | Credential p => negb (allow p) | _ => false end.
Lemma accept_first allow arrivals p rest : Accept (Some allow) arrivals = Some (Ok p, rest) ->
  allow p = true /\ exists skipped, arrivals = skipped ++ Credential p :: rest /\ forallb (passed allow) skipped = true.
Proof.
  induction arrivals as [|[e| | |q] arrivals IH]; cbn; try done.
  - intros (Ha & skipped & -> & Hs)%IH. split; [done|]. exists (NoCredential :: skipped). by split.
  - destruct (allow q) eqn:Eq; cbn.
    + intros [= <- <-]. split; [done|]. by exists [].
    + intros (Ha & skipped & -> & Hs)%IH. split; [done|]. exists (Credential q :: skipped). split; [done|]. cbn. by rewrite Eq.
Qed.
Lemma served_allowed fuel : forall uid arrivals p, In p (served fuel (Some (owned_by uid)) arrivals) -> p_UID p = uid /\ In (Credential p) arrivals.
Proof.
  induction fuel as [|fuel IH]; intros uid arrivals p; cbn; [done|].
  destruct (Accept _ arrivals) as [[[q|] rest]|] eqn:E; [|done..]. apply accept_first in E as (Ha & skipped & -> & _).
  intros [->|(Hp & Hin)%IH]; rewrite in_app_iff; [by apply Z.eqb_eq in Ha; split; [|right; left]|]. split; [done|]. right. by right.
Qed.
(** A refused caller never keeps out one that is allowed. *)
Lemma accept_not_starved allow arrivals p rest : forallb (passed allow) arrivals = true -> allow p = true ->
  Accept (Some allow) (arrivals ++ Credential p :: rest) = Some (Ok p, rest).
Proof.
  intros Hs Ha. induction arrivals as [|[e| | |q] arrivals IH]; cbn in *; [by rewrite Ha|done|done|by apply IH|].
  apply andb_true_iff in Hs as [-> Hs]. by apply IH.
Qed.

(** ** Private files

    Elsewhere than on Windows: the bits of the mode. *)
Definition CheckPrivate (mode : Z) : result err unit :=
  if negb (Z.land (Z.land mode 511) 63 =? 0) then Err (ErrText "il file deve essere accessibile solo al proprietario (chmod 600)") else Ok tt.
(** [os.Chmod(path, 0600)]: the kind of the file stays. *)
Definition RestrictPrivate (mode : Z) : Z := Z.lor (Z.ldiff mode 511) 384.
Lemma restricted_private mode : CheckPrivate (RestrictPrivate mode) = Ok tt.
Proof.
  unfold CheckPrivate, RestrictPrivate. rewrite Z.land_lor_distr_l.
  replace (Z.land (Z.ldiff mode 511) 511) with 0 by (symmetry; apply Z.bits_inj'; intros n _; rewrite Z.land_spec, Z.ldiff_spec, Z.bits_0; by destruct (Z.testbit mode n), (Z.testbit 511 n)).
  reflexivity.
Qed.
(** No bit of the group or of the others: bits 0 to 5. *)
Lemma private_bits mode : CheckPrivate mode = Ok tt <-> forall n, 0 <= n < 6 -> Z.testbit mode n = false.
Proof.
  unfold CheckPrivate. destruct (Z.eqb_spec (Z.land (Z.land mode 511) 63) 0) as [E|E]; cbn.
  - split; [|done]. intros _ n Hn. assert (Z.testbit (Z.land (Z.land mode 511) 63) n = false) as H by (by rewrite E, Z.bits_0).
    rewrite !Z.land_spec in H. assert (n = 0 \/ n = 1 \/ n = 2 \/ n = 3 \/ n = 4 \/ n = 5) as Hcases by lia.
    destruct Hcases as [->|[->|[->|[->|[->| ->]]]]]; cbn in H; by rewrite !andb_true_r in H.
  - split; [done|]. intros H. destruct E. apply Z.bits_inj'. intros n Hn. rewrite !Z.land_spec, Z.bits_0.
    destruct (Z.lt_ge_cases n 6) as [Hlt|Hge]; [by rewrite H by lia|]. rewrite (Z.bits_above_log2 63 n); [apply andb_false_r|lia|]. by change (Z.log2 63) with 5; lia.
Qed.

(** *** On Windows: the owner and the access list

    Identifiers are strings; [GetAce] may fail, and gives nothing or an entry. *)
Inductive ace : Type :=
| AceDenied
| AceAllowed (inherit_only valid : bool) (mask : Z) (sid : string)
| AceOther (kind : Z).
Inductive ace_read : Type := AceFails (e : err) | AceNil | AceRead (a : ace).
Record descriptor : Type := Descriptor { sd_Owner : option (string * bool); sd_Dacl : option (list ace_read) }.
Record sids : Type := Sids { si_User : string; si_System : string; si_Administrators : string }.

Definition isTrustedSID (candidate : string) (trusted : list string) : bool := existsb (String.eqb candidate) trusted.
Definition trusted_sids (s : sids) : list string := [si_User s; si_System s; si_Administrators s].
Fixpoint check_aces (s : sids) (aces : list ace_read) : result err unit :=
  match aces with
  | [] => Ok tt
  | AceFails e :: _ => Err (ErrWrap e "lettura voce ACL Windows")
  | AceNil :: _ => Err (ErrText "voce ACL Windows non valida")
  | AceRead AceDenied :: rest => check_aces s rest
  | AceRead (AceAllowed inherit_only valid mask sid) :: rest =>
    if inherit_only then check_aces s rest
    else if negb valid then Err (ErrText "SID non valido nella DACL Windows")
    else if negb (isTrustedSID sid (trusted_sids s)) && negb (mask =? 0)
         then Err (ErrText ("ACL Windows concede accesso a un account non autorizzato: " ++ sid))
    else check_aces s rest
  | AceRead (AceOther kind) :: _ => Err (ErrText ("tipo di voce ACL Windows non supportato: " ++ pretty kind))
  end.
Definition CheckPrivate_windows (s : result err sids) (read : result err (option descriptor)) : result err unit :=
  match read with
  | Err e => Err (ErrWrap e "lettura ACL Windows")
  | Ok None => Err (ErrText "descrittore di sicurezza Windows assente")
  | Ok (Some sd) =>
    s ← s;
    match sd_Owner sd with
    | None => Err (ErrText "proprietario Windows non verificabile")
    | Some (owner, valid) =>
      if negb valid || negb (isTrustedSID owner (trusted_sids s)) then Err (ErrText "il proprietario del file privato non e un account Windows fidato")
      else match sd_Dacl sd with
           | None => Err (ErrText "DACL Windows assente o non sicura")
           | Some aces => check_aces s aces
           end
    end
  end.
(** "D:P(A;;FA;;;user)(A;;FA;;;SY)(A;;FA;;;BA)": FILE_ALL_ACCESS for the three, nothing
    inherited.  The owner stays. *)
Definition file_all_access : Z := 2032127.
Definition full_access (sid : string) : ace_read := AceRead (AceAllowed false true file_all_access sid).
Definition private_dacl (s : sids) : list ace_read := map full_access (trusted_sids s).
Definition RestrictPrivate_windows (s : result err sids) (sd : descriptor) : result err descriptor :=
  t ← s;
  let sd := Descriptor (sd_Owner sd) (Some (private_dacl t)) in
  _ ← CheckPrivate_windows s (Ok (Some sd));
  Ok sd.

(** An entry grants something to somebody who is not trusted. *)
Definition grants (sid : string) (a : ace_read) : Prop := exists mask, a = AceRead (AceAllowed false true mask sid) /\ mask <> 0.
Lemma checked_aces s aces sid : check_aces s aces = Ok tt -> (exists a, In a aces /\ grants sid a) -> In sid (trusted_sids s).
Proof.
  intros Hc (a & Hin & mask & -> & Hm). induction aces as [|b aces IH]; [done|]. destruct Hin as [->|Hin].
  - cbn -[isTrustedSID trusted_sids] in Hc. rewrite (proj2 (Z.eqb_neq _ _) Hm), andb_true_r in Hc.
    destruct (isTrustedSID sid (trusted_sids s)) eqn:E; [|done]. unfold isTrustedSID in E. apply existsb_exists in E as (t & Ht & ->%String.eqb_eq). done.
  - apply IH; [|done]. destruct b as [e| |[|i v m x|k]]; cbn -[isTrustedSID trusted_sids] in Hc; try done.
    destruct i; [done|]. destruct v; [|done]. cbn -[isTrustedSID trusted_sids] in Hc. by destruct (negb _ && _).
Qed.
(** A file that passes belongs to one of the three and grants nothing to anybody else. *)
Lemma private_windows s sd : CheckPrivate_windows (Ok s) (Ok (Some sd)) = Ok tt ->
  (exists owner, sd_Owner sd = Some (owner, true) /\ In owner (trusted_sids s)) /\
  exists aces, sd_Dacl sd = Some aces /\ forall sid a, In a aces -> grants sid a -> In sid (trusted_sids s).
Proof.
  unfold CheckPrivate_windows. cbn -[isTrustedSID trusted_sids]. destruct (sd_Owner sd) as [[owner valid]|]; [|done].
  destruct valid; cbn -[isTrustedSID trusted_sids]; [|done]. destruct (isTrustedSID owner (trusted_sids s)) eqn:E; cbn -[trusted_sids]; [|done].
  destruct (sd_Dacl sd) as [aces|]; [|done]. intros Hc. split.
  - exists owner. split; [done|]. unfold isTrustedSID in E. by apply existsb_exists in E as (t & Ht & ->%String.eqb_eq).
  - exists aces. split; [done|]. intros sid a Hin Hg. apply (checked_aces _ _ sid Hc). by exists a.
Qed.
(** What [RestrictPrivate] writes passes, and leaves the owner; it refuses only a file whose
    owner is none of the three. *)
Lemma own_dacl_passes s : check_aces s (private_dacl s) = Ok tt.
Proof. destruct s as [u y b]. cbn. by rewrite !String.eqb_refl, !orb_true_r. Qed.
Lemma restricted_windows s sd owner : sd_Owner sd = Some (owner, true) ->
  RestrictPrivate_windows (Ok s) sd =
    if isTrustedSID owner (trusted_sids s) then Ok (Descriptor (sd_Owner sd) (Some (private_dacl s)))
    else Err (ErrText "il proprietario del file privato non e un account Windows fidato").
Proof.
  intros Ho. unfold RestrictPrivate_windows, CheckPrivate_windows. cbn -[isTrustedSID trusted_sids private_dacl]. rewrite Ho.
  destruct (isTrustedSID owner _); cbn -[isTrustedSID trusted_sids private_dacl]; [|done]. by rewrite own_dacl_passes.
Qed.
